(* ===== verification/_CoqProject ===== *)
-Q . S2P
Prelude.v
Prog.v
CoreTypes.v
ApiTypes.v
Effects.v
Machinery.v
Sim.v
Store.v
RefGrant.v
Cluster.v
VolumeEvac.v
Trace.v
Upsert.v
NameClaim.v
IamCommon.v
IamSpec.v
IamClient.v
IamLocks.v
IdentityController.v
Json.v
IamPolicy.v
PolicyController.v
OidcController.v
BindingController.v
CredentialsController.v
BucketAdmin.v
BucketController.v
LifecyclePolicy.v
Calendar.v
BackupScheduler.v
SecurityConfig.v
GoPath.v
Component.v
BackupStorage.v
BackupJobs.v
BackupController.v
RestoreController.v
BackupMirror.v
VolumeClaims.v
ClusterStatus.v
Workloads.v
MasterServers.v
VolumeServers.v
FilerServers.v
AdminServers.v
Ingresses.v
Gateways.v
Certificates.v
ClusterController.v
ClusterSafety.v
ClusterShapes.v
ClusterProgress.v
ClusterCorners.v
Webhook.v
AdminScripts.v
CsiObjects.v
CsiController.v
CsiProgress.v
CsiShapes.v
BucketUsage.v
FilerAdmin.v
VolumeAdmin.v
AdminCache.v
ClientTls.v
Probes.v
BackupRuns.v
Watches.v
Operator.v
Rbac.v
