(* ===== verification/Prelude.v ===== *)
(** * SeaweedFS operator: a verification library

    The repository is a Kubernetes operator in Go: controllers that drive a SeaweedFS
    cluster (masters, volume servers, filers, gateways, an admin server) and what is
    kept in it (buckets, lifecycle policies, S3 identities, credentials, policies,
    backups, maintenance scripts, a CSI driver) towards the custom resources of
    [src/api/v1].  This library models its Go code, function by function, and proves
    what makes it correct.  Names are those of the source wherever Rocq allows it.

    ** How the program is modelled

    The operator talks to services the repository does not contain: the Kubernetes API
    server, the masters and filers of a cluster, the clock.  A handler is a program
    ([prog], Prog.v): a tree whose nodes are the calls it makes and whose branches are
    the possible answers.  Nothing is assumed of the answers in the model.  Theorems are
    about all executions in an environment, of which there are three sorts:
    - the environment in which every answer is possible (Trace.v).  A [Guard] says which
      call is allowed after which calls and answers, and the safety theorems of the
      controllers ([..._reconcile_guarded]) say that a handler only makes allowed calls,
      whatever the API server and the cluster answer;
    - environments that do what the repository documents of a service (IamSpec.v, the
      environments of BucketController.v, AdminScripts.v, CsiProgress.v, FilerAdmin.v,
      BackupRuns.v), which may still fail; the convergence theorems say what is
      established there when a pass reports success;
    - a deterministic handler over an in-memory cluster (Sim.v, Store.v), which evaluates
      the programs on concrete inputs and shows that the hypotheses can hold.

    Go errors are values of [error]; a panic is a result of the function that can panic -
    the [outcome] of a handler, a [failure] beside its errors (Effects.v), a [crash] of
    the usage loop, [None] of a pure function - and its callers end with it; integers are [Z] with the wrap-around written out where the code can overflow
    (quantities, replica counts, FNV hashes), strings are byte strings, maps are [gmap],
    time is nanoseconds since Go's zero time.  Objects that a handler changes in place and
    hands on are passed and returned.  Concurrency appears where the code has it: the
    evacuation tracker (VolumeEvac.v), the IAM client under its keyed locks (IamLocks.v),
    the writes to a bucket's entry on the filer (FilerAdmin.v), and the cached probes of
    the cluster controller (Probes.v).

    ** Parameters

    Code outside [src/] is a parameter, a class with its documented laws in a second
    class: label selectors, owner references and quantities of apimachinery
    ([ApiMachinery], [Owners], Effects.v), JSON of the core types ([SpecJSON], Upsert.v),
    SHA-256 ([Digest], Cluster.v), the cron library and [sort.Slice] ([Cron],
    [SliceSort], BackupScheduler.v), the lifecycle XML parser ([LifecycleXml],
    LifecyclePolicy.v), the filer.conf parser ([FilerConf], FilerAdmin.v), error
    aggregation ([Aggregates], Webhook.v), the texts of JSON errors ([JsonErrors],
    IamPolicy.v), crypto/x509 ([X509], ClientTls.v), and the order in which Go visits a
    map ([MapRange], [topology_order], [ingress_order]).  Machinery.v and the witnesses
    instantiate them, so that their laws are known to be satisfiable.

    ** Files

    Foundations: Prelude.v (errors, time, strings, lists, tactics), Prog.v (programs,
    environments, weakest preconditions), CoreTypes.v and ApiTypes.v (the core and custom
    resources, api/v1), Effects.v (the calls), Machinery.v, Sim.v, Store.v (reference
    implementations), Trace.v (guards), Json.v (encoding/json), GoPath.v (package path),
    Calendar.v (package time, object names of backup_common.go).

    Shared by the controllers: RefGrant.v (referencegrant.go), Cluster.v (names, addresses
    and credentials of a cluster: helper.go, iam_controller_common.go), Upsert.v
    (controller_util.go), AdminCache.v (the cache of IAM admins), Probes.v (the cached
    probes of controller_tls.go and controller_util.go), ClientTls.v
    (swadmin/client_tls.go), Watches.v (which event wakes which controller), Rbac.v (the
    permissions the operator asks for), Operator.v (cmd/main.go).

    IAM: NameClaim.v (iam_name_claim.go), IamCommon.v (iam_controller_common.go), IamSpec.v
    (the contract of iam_admin.go), IamClient.v and IamLocks.v (swadmin/iam_client.go,
    oidc_client.go, iam_admin.go), IamPolicy.v (iam_policy.go), and one file per
    controller: IdentityController.v, PolicyController.v, OidcController.v,
    BindingController.v, CredentialsController.v (s3*_controller.go).

    Buckets: BucketAdmin.v (bucket_admin.go, swadmin/seaweed_admin.go), BucketController.v
    (bucket_controller.go), LifecyclePolicy.v (bucketlifecyclepolicy_*.go), FilerAdmin.v
    (swadmin/lifecycle.go), BucketUsage.v (bucket_usage.go).

    Clusters: Webhook.v (seaweed_webhook.go), Component.v (helper.go, image.go,
    component_accessor.go, pv_reclaim.go), Workloads.v (the shapes controller_*.go share),
    MasterServers.v, VolumeServers.v, FilerServers.v, AdminServers.v, Gateways.v,
    Ingresses.v, Certificates.v, SecurityConfig.v (controller_tls.go), BackupMirror.v,
    VolumeClaims.v (volume_claim_templates.go), VolumeEvac.v and VolumeAdmin.v
    (volume_evacuation.go, volume_admin.go), ClusterStatus.v and ClusterController.v
    (seaweed_controller.go), and the theorems about whole passes in ClusterSafety.v,
    ClusterProgress.v, ClusterShapes.v and ClusterCorners.v.

    Backups: BackupStorage.v, BackupJobs.v, BackupScheduler.v, BackupRuns.v (a schedule
    over time), BackupController.v, RestoreController.v.  Scripts and storage drivers: AdminScripts.v, CsiObjects.v,
    CsiController.v, CsiProgress.v, CsiShapes.v.

    ** What is proved

    - Safety of every reconciler, whatever is answered: a cluster is only changed as its
      spec asks for, in the order masters first (unless the spec starts all at once), and
      volume servers only shrink through the evacuation gate; a bucket, an IAM user, a
      policy or a Secret that a resource does not own is neither changed nor deleted -
      the lifecycle rules of a bucket that was handed on and a StorageClass with the
      name of a driver can be, and the theorems say so -; a cross-namespace reference is
      only followed when a grant permits it.
    - Safety of the whole: every call of every program of the operator is permitted by the
      role its markers generate, one deletion apart; a connection to a cluster only goes to
      servers with a chain to the CA of that cluster.
    - Refinements: the grant check computes [permitted], the IAM client implements the
      contract of iam_admin.go over the service, the lifecycle calls implement the bucket
      admin's, the webhook decides [admissible].
    - Equivalences: interleaved updates of identities amount to updates one after the
      other; the cache of admins is transparent.
    - Progress: every change of a verdict over a contested name wakes the resource it
      concerns; between two backups of a schedule there is always a date of its cron
      expression, and a tick without an error leaves no date unserved, across failures and
      restarts; the operator starts with everything registered or not at all; the answers
      of the probes are stable.
    - Convergence: what a bucket, a script's CronJob, a CSI driver's objects and the usage
      statistics look like after a successful pass, under the conditions each theorem
      names; how a pass over a cluster can end, and on which clusters and Deployments it
      can panic; that a scale-down ends.
    - Round trips: a policy document parses back to the policy; a restore reads the
      snapshot its backup wrote; signing keys survive rewriting of security.toml.
    - Well-formedness: the mounts the operator adds to a pod lead to its volumes and share
      no path, selectors match their templates, Services reach pods, the objects of a CSI
      driver refer to each other correctly.
    - Findings: behaviours that differ from a comment or from the intent, each with a
      theorem that exhibits it where one can be stated.

    ** Bounds and fuel

    Programs are finite trees: loops of the source run over lists and are structural.
    Fuel appears twice.  The JSON parser (Json.v) takes the length of its text, and every
    value needs fewer calls than its text has characters; [need] and [height] bound them
    in the round trip theorem.  The splitting of command lines (BucketAdmin.v) takes the
    length of the line, as every word consumes a character.  The nesting limit of the JSON
    parser is the one of the library, 10000.

    ** What is not modelled

    The generated deep copies (zz_generated.deepcopy.go): values are immutable here, so a
    copy is the value itself; the aliasing they prevent is the Go compiler's concern.  The
    maintenance script (seaweed_maintenance.go): its only call is under [if false].  The
    tickers that start a tick of the backup scheduler and a turn of the usage loop; a run
    in BackupRuns.v has its ticks at any times.  The parsing of flags and the logger of
    cmd/main.go.
    Logging and events, except where an event is evidence of a decision.  Contexts and
    deadlines: a call that times out is a call that answers an error.  [EmptyClone] and
    the reflection in it: the typed [Obj] of Effects.v takes its place.  The weed shell,
    the filer, the masters and the API server themselves. *)
From stdpp Require Export prelude strings gmap list sorting pretty.
From Stdlib Require Export ZArith Lia.
From Stdlib Require Import Ascii.

#[export] Set Default Proof Using "Type".

(** ** Errors

    A Go [error] value is either one of the sentinels the controllers branch on
    (with [errors.Is] or an [apierrors.Is...] predicate) or some other error,
    of which only the text is observable.  A nil error is [None]. *)
Inductive error :=
| ErrNotFound (msg : string)            (** [apierrors.IsNotFound] *)
| ErrAlreadyExists (msg : string)       (** [apierrors.IsAlreadyExists] *)
| ErrConflict (msg : string)            (** [apierrors.IsConflict] *)
| ErrInvalid (msg : string)             (** [apierrors.IsInvalid] *)
| ErrIAMNotFound                        (** iam_admin.go sentinels *)
| ErrIAMUserAlreadyExists
| ErrBucketNotFound                     (** bucket_admin.go sentinels *)
| ErrBucketAlreadyExists
| ErrRetentionBlocksDelete
| ErrObjectLockBlocksSuspend
| ErrNoMatch (msg : string)             (** [meta.IsNoMatchError], [runtime.IsNotRegisteredError] *)
| ErrOther (msg : string).

#[export] Instance error_eq_dec : EqDecision error.
Proof. solve_decision. Defined.

(** [(value, error)] results: [inl e] is a non-nil error. *)
Abbreviation result A := (sum error A).
Abbreviation Err e := (inl (B:=_) (e : error)).
Abbreviation Ok a := (inr (A:=error) a).

Definition IsNotFound (e : error) : bool :=
  match e with ErrNotFound _ => true | _ => false end.
Definition IsAlreadyExists (e : error) : bool :=
  match e with ErrAlreadyExists _ => true | _ => false end.

Definition IsNoMatchError (e : error) : bool :=
  match e with ErrNoMatch _ => true | _ => false end.
Definition IsConflict (e : error) : bool :=
  match e with ErrConflict _ => true | _ => false end.
Definition IsInvalid (e : error) : bool :=
  match e with ErrInvalid _ => true | _ => false end.

(** [client.IgnoreNotFound] *)
Definition IgnoreNotFound (err : error) : option error :=
  if IsNotFound err then None else Some err.

(** [errors.Is(err, ErrX)] for the argument-less sentinels. *)
Definition errors_Is (e target : error) : bool := bool_decide (e = target).

(** [err.Error()] *)
Definition error_string (e : error) : string :=
  match e with
  | ErrNotFound m | ErrAlreadyExists m | ErrConflict m | ErrInvalid m | ErrNoMatch m | ErrOther m => m
  | ErrIAMNotFound => "iam object not found"
  | ErrIAMUserAlreadyExists => "iam user already exists"
  | ErrBucketNotFound => "bucket not found"
  | ErrBucketAlreadyExists => "bucket already exists"
  | ErrRetentionBlocksDelete =>
      "bucket has objects with active Object Lock retention or legal hold"
  | ErrObjectLockBlocksSuspend =>
      "cannot suspend versioning while Object Lock is enabled"
  end.

(** ** Machine integers

    Go's [int32] and [int64] are two's complement; the wrap-around of an
    arithmetic result is written out with [wrap]. *)
Definition wrap (bits : Z) (z : Z) : Z :=
  (z + 2 ^ (bits - 1)) mod 2 ^ bits - 2 ^ (bits - 1).
Definition int32 (z : Z) : Z := wrap 32 z.
Definition int64 (z : Z) : Z := wrap 64 z.
Definition MaxInt32 : Z := 2 ^ 31 - 1.
Definition MaxInt64 : Z := 2 ^ 63 - 1.

Lemma int32_small z : (- 2 ^ 31 <= z <= MaxInt32)%Z -> int32 z = z.
Proof. unfold int32, wrap, MaxInt32. intros. rewrite Z.mod_small; lia. Qed.
Lemma int64_small z : (- 2 ^ 63 <= z <= MaxInt64)%Z -> int64 z = z.
Proof. unfold int64, wrap, MaxInt64. intros. rewrite Z.mod_small; lia. Qed.

(** Wrapping an intermediate result does not change the final one. *)
Lemma wrap_sub bits z k : wrap bits (wrap bits z - k) = wrap bits (z - k).
Proof.
  unfold wrap. f_equal.
  replace ((z + 2 ^ (bits - 1)) mod 2 ^ bits - 2 ^ (bits - 1) - k + 2 ^ (bits - 1))%Z
    with ((z + 2 ^ (bits - 1)) mod 2 ^ bits - k)%Z by lia.
  rewrite Zminus_mod_idemp_l. f_equal. lia.
Qed.
Lemma int64_sub z k : int64 (int64 z - k) = int64 (z - k).
Proof. apply wrap_sub. Qed.

(** ** Strings

    Go strings are byte sequences, and so are Rocq's. *)
Definition HasPrefix (s prefix : string) : bool := String.prefix prefix s.

Definition HasSuffix (s suffix : string) : bool :=
  (String.length suffix <=? String.length s) &&
  String.eqb (String.substring (String.length s - String.length suffix)
                (String.length suffix) s) suffix.

(** [strings.Contains] *)
Fixpoint Contains (s sub : string) : bool :=
  String.prefix sub s ||
  match s with EmptyString => false | String _ s' => Contains s' sub end.

(** [strings.Split] for a one-byte separator: never empty. *)
Fixpoint Split (s : string) (sep : ascii) : list string :=
  match s with
  | EmptyString => [EmptyString]
  | String c s' =>
      if Ascii.eqb c sep then EmptyString :: Split s' sep
      else match Split s' sep with
           | w :: ws => String c w :: ws
           | [] => [String c EmptyString]
           end
  end.

(** [strings.Join] *)
Fixpoint Join (l : list string) (sep : string) : string :=
  match l with
  | [] => EmptyString
  | [w] => w
  | w :: ws => w +:+ sep +:+ Join ws sep
  end.

Definition nl : string := String "010"%char EmptyString.

(** The texts one after the other. *)
Definition concat_strings (l : list string) : string := foldr String.append EmptyString l.

(** [strings.TrimSpace] strips the characters of [unicode.IsSpace]: the ASCII
    ones and, in UTF-8, U+0085, U+00A0, U+1680, U+2000-U+200A, U+2028, U+2029,
    U+202F, U+205F and U+3000. *)
Definition ascii_space (c : ascii) : bool :=
  let n := nat_of_ascii c in (n =? 32) || ((9 <=? n) && (n <=? 13)).
Definition space2 (a b : ascii) : bool :=
  (nat_of_ascii a =? 194) && ((nat_of_ascii b =? 133) || (nat_of_ascii b =? 160)).
Definition space3 (a b c : ascii) : bool :=
  let '(x, y, z) := (nat_of_ascii a, nat_of_ascii b, nat_of_ascii c) in
  ((x =? 225) && (y =? 154) && (z =? 128)) ||
  ((x =? 226) && (y =? 128) &&
     (((128 <=? z) && (z <=? 138)) || (z =? 168) || (z =? 169) || (z =? 175))) ||
  ((x =? 226) && (y =? 129) && (z =? 159)) ||
  ((x =? 227) && (y =? 128) && (z =? 128)).

Fixpoint trim_left (s : string) : string :=
  match s with
  | EmptyString => EmptyString
  | String a s1 =>
      if ascii_space a then trim_left s1
      else match s1 with
           | String b s2 =>
               if space2 a b then trim_left s2
               else match s2 with
                    | String c s3 => if space3 a b c then trim_left s3 else s
                    | EmptyString => s
                    end
           | EmptyString => s
           end
  end.

(** The same from the right, on the reversed string. *)
Fixpoint trim_left_rev (s : string) : string :=
  match s with
  | EmptyString => EmptyString
  | String a s1 =>
      if ascii_space a then trim_left_rev s1
      else match s1 with
           | String b s2 =>
               if space2 b a then trim_left_rev s2
               else match s2 with
                    | String c s3 => if space3 c b a then trim_left_rev s3 else s
                    | EmptyString => s
                    end
           | EmptyString => s
           end
  end.

Definition TrimSpace (s : string) : string :=
  String.rev (trim_left_rev (String.rev (trim_left s))).

(** [strings.EqualFold] against an ASCII word without [k] and [s] (the letters
    whose Unicode case orbit leaves ASCII). *)
Definition lower_ascii (c : ascii) : ascii :=
  let n := nat_of_ascii c in
  if (65 <=? n) && (n <=? 90) then ascii_of_nat (n + 32) else c.
Fixpoint ToLower (s : string) : string :=
  match s with
  | EmptyString => EmptyString
  | String c s' => String (lower_ascii c) (ToLower s')
  end.
Definition EqualFold (s t : string) : bool := String.eqb (ToLower s) (ToLower t).

(** Byte-wise [<] on strings. *)
Definition string_ltb (s t : string) : bool := String.ltb s t.

(** [sort.Strings] *)
Definition sort_strings (l : list string) : list string := merge_sort String.le l.

(** [fmt.Sprintf("%d", z)] *)
Definition fmt_d (z : Z) : string := pretty z.

(** [fmt.Sprintf("%q", s)] ([strconv.Quote]) on ASCII; bytes from 128 on are kept
    as they are, which is what [Quote] does with printable UTF-8. *)
Definition dquote : string := String "034"%char EmptyString.
Definition hex_digit (n : nat) : ascii :=
  ascii_of_nat (if n <? 10 then 48 + n else 87 + n).
Definition quote_char (c : ascii) : string :=
  match nat_of_ascii c with
  | 34 => String "092"%char (String "034"%char EmptyString)
  | 92 => String "092"%char (String "092"%char EmptyString)
  | 7 => String "092"%char "a" | 8 => String "092"%char "b"
  | 12 => String "092"%char "f" | 10 => String "092"%char "n"
  | 13 => String "092"%char "r" | 9 => String "092"%char "t"
  | 11 => String "092"%char "v"
  | n => if (n <? 32) || (n =? 127)
         then String "092"%char (String "x"%char
                (String (hex_digit (n / 16)) (String (hex_digit (n mod 16)) EmptyString)))
         else String c EmptyString
  end.
Fixpoint quote_chars (s : string) : string :=
  match s with
  | EmptyString => EmptyString
  | String c s' => quote_char c +:+ quote_chars s'
  end.
Definition fmt_q (s : string) : string := dquote +:+ quote_chars s +:+ dquote.

(** ** Splitting and joining *)
Fixpoint has_char (c : ascii) (s : string) : bool :=
  match s with EmptyString => false | String d s' => Ascii.eqb d c || has_char c s' end.

Lemma Split_word w sep : has_char sep w = false -> Split w sep = [w].
Proof.
  induction w as [|c w IH]; simpl; [done|]. intros [Hc Hw]%orb_false_iff.
  by rewrite Hc, IH.
Qed.
Lemma Split_cons w sep rest :
  has_char sep w = false -> Split (w +:+ String sep rest) sep = w :: Split rest sep.
Proof.
  induction w as [|c w IH].
  - intros _. change (Split (String sep rest) sep = "" :: Split rest sep). simpl.
    by rewrite Ascii.eqb_refl.
  - intros [Hc Hw]%orb_false_iff.
    change (Split (String c (w +:+ String sep rest)) sep = String c w :: Split rest sep).
    simpl. by rewrite Hc, IH.
Qed.
Lemma Join_cons2 w v l sep : Join (w :: v :: l) sep = w +:+ sep +:+ Join (v :: l) sep.
Proof. done. Qed.
(** Splitting what was joined from words without the separator. *)
Lemma Split_Join l sep :
  l <> [] -> Forall (fun w => has_char sep w = false) l ->
  Split (Join l (String sep EmptyString)) sep = l.
Proof.
  intros Hne Hl. induction Hl as [|w l Hw Hl IH]; [done|].
  destruct l as [|v l]; [by apply Split_word|].
  change (Join (w :: v :: l) (String sep EmptyString))
    with (w +:+ String sep (Join (v :: l) (String sep EmptyString))).
  by rewrite Split_cons, IH.
Qed.

(** ** Decimal numbers *)
Definition is_digit (c : ascii) : bool :=
  let n := nat_of_ascii c in (48 <=? n) && (n <=? 57).
Fixpoint all_chars (f : ascii -> bool) (s : string) : bool :=
  match s with EmptyString => true | String c s' => f c && all_chars f s' end.
(** The value of a string of digits read after [acc]. *)
Fixpoint digits_value (acc : Z) (s : string) : Z :=
  match s with
  | EmptyString => acc
  | String c s' => digits_value (acc * 10 + (Z.of_nat (nat_of_ascii c) - 48))%Z s'
  end.

Lemma pretty_char_value x :
  (x < 10)%N -> is_digit (pretty_N_char x) = true /\
  (Z.of_nat (nat_of_ascii (pretty_N_char x)) - 48)%Z = Z.of_N x.
Proof.
  intros Hx.
  assert (x = 0 \/ x = 1 \/ x = 2 \/ x = 3 \/ x = 4 \/ x = 5 \/ x = 6 \/ x = 7 \/ x = 8 \/ x = 9)%N
    as Hc by lia.
  by repeat (destruct Hc as [->|Hc]; [done|]); subst.
Qed.
Lemma pretty_go_spec x s :
  digits_value 0 (pretty_N_go x s) = digits_value (Z.of_N x) s /\
  all_chars is_digit (pretty_N_go x s) = all_chars is_digit s /\
  String.length s <= String.length (pretty_N_go x s).
Proof.
  revert s. induction (N.lt_wf_0 x) as [x _ IH]; intros s.
  assert (x = 0 \/ 0 < x)%N as [->|Hx] by lia; [by rewrite pretty_N_go_0|].
  rewrite pretty_N_go_step by done.
  destruct (IH (x `div` 10)%N (N.div_lt x 10 Hx eq_refl) (String (pretty_N_char (x `mod` 10)) s))
    as (Hv & Hd & Hl). rewrite Hv, Hd. simpl in Hl |- *.
  destruct (pretty_char_value (x `mod` 10)) as [Hc Hcv]; [by apply N.mod_lt|].
  rewrite Hcv, Hc. split; [|split; [done|lia]]. f_equal.
  rewrite N2Z.inj_div, N2Z.inj_mod. pose proof (Z.div_mod (Z.of_N x) 10). lia.
Qed.
(** A number prints as digits, at least one, and reads back as itself. *)
Lemma fmt_d_digits z :
  (0 <= z)%Z -> digits_value 0 (fmt_d z) = z /\ all_chars is_digit (fmt_d z) = true /\
                fmt_d z <> "".
Proof.
  intros Hz. unfold fmt_d. destruct z as [|p|p]; [done| |lia].
  change (pretty (Zpos p)) with (pretty (Npos p)). unfold pretty, pretty_N.
  rewrite decide_False by done.
  destruct (pretty_go_spec (Npos p) "") as (Hv & Hd & _).
  rewrite Hv, Hd. split; [done|]. split; [done|].
  intros He. by rewrite He in Hv.
Qed.

(** ** Lemmas on strings *)
Lemma length_app_string a b : String.length (a +:+ b) = String.length a + String.length b.
Proof.
  induction a as [|c a IH]; [done|].
  change (S (String.length (a +:+ b)) = S (String.length a + String.length b)). by rewrite IH.
Qed.
Lemma string_app_nil (w : string) : w +:+ "" = w.
Proof. induction w as [|c w IH]; [done|]. change (String c (w +:+ "") = String c w). by rewrite IH. Qed.
Lemma all_chars_impl (f g : ascii -> bool) s :
  (forall c, f c = true -> g c = true) -> all_chars f s = true -> all_chars g s = true.
Proof.
  intros Hfg. induction s as [|c s IH]; simpl; [done|]. rewrite !andb_true_iff. naive_solver.
Qed.
Lemma all_chars_app f a b : all_chars f (a +:+ b) = all_chars f a && all_chars f b.
Proof.
  induction a as [|c a IH]; [done|].
  change (f c && all_chars f (a +:+ b) = f c && all_chars f a && all_chars f b). rewrite IH. by rewrite andb_assoc.
Qed.
Lemma all_chars_rev_app f a b : all_chars f (String.rev_app a b) = all_chars f a && all_chars f b.
Proof.
  revert b; induction a as [|c a IH]; intros b; simpl; [done|]. rewrite IH. simpl.
  destruct (f c), (all_chars f a); done.
Qed.
Lemma rev_app_rev_app a b c : String.rev_app (String.rev_app a b) c = String.rev_app b (a +:+ c).
Proof. revert b; induction a as [|x a IH]; intros b; [done|]. simpl. by rewrite IH. Qed.
Lemma string_rev_rev s : String.rev (String.rev s) = s.
Proof. unfold String.rev. rewrite rev_app_rev_app. simpl. apply string_app_nil. Qed.
Lemma has_char_app c a b : has_char c (a +:+ b) = has_char c a || has_char c b.
Proof.
  induction a as [|d a IH]; [done|].
  change (Ascii.eqb d c || has_char c (a +:+ b) = Ascii.eqb d c || has_char c a || has_char c b).
  by rewrite IH, orb_assoc.
Qed.
Lemma has_char_none f c s : all_chars f s = true -> f c = false -> has_char c s = false.
Proof.
  intros Hs Hf. induction s as [|d s IH]; simpl in *; [done|].
  apply andb_true_iff in Hs as [Hd Hs]. rewrite IH by done. rewrite orb_false_r.
  apply Ascii.eqb_neq. intros ->. congruence.
Qed.
Lemma string_app_assoc (p q r : string) : (p +:+ q) +:+ r = p +:+ (q +:+ r).
Proof.
  induction p as [|c p IH]; [done|].
  change (String c ((p +:+ q) +:+ r) = String c (p +:+ (q +:+ r))). by rewrite IH.
Qed.
Lemma substring_app_r a b : String.substring (String.length a) (String.length b) (a +:+ b) = b.
Proof.
  induction a as [|d a IH]; [|exact IH]. simpl. change ("" +:+ b) with b.
  induction b as [|d b IH]; [done|]. simpl. by rewrite IH.
Qed.
Lemma HasSuffix_app a b : HasSuffix (a +:+ b) b = true.
Proof.
  unfold HasSuffix. rewrite length_app_string. apply andb_true_iff. split; [apply Nat.leb_le; lia|].
  replace (String.length a + String.length b - String.length b) with (String.length a) by lia.
  rewrite substring_app_r. apply String.eqb_refl.
Qed.
Lemma substring_app_l a b : String.substring 0 (String.length a) (a +:+ b) = a.
Proof.
  induction a as [|d a IH]; [by destruct b|].
  change (String d (String.substring 0 (String.length a) (a +:+ b)) = String d a). by rewrite IH.
Qed.
