(* ===== verification/Prog.v ===== *)
(** * Effectful programs

    The controllers talk to services the repository does not contain: the
    Kubernetes API server, the filer's IAM service, the masters.  A handler is
    modelled as a value of [prog E A]: a tree whose nodes are the calls it makes
    (an effect [E X] answered by an [X]) and whose branches are the possible
    answers.  Nothing is assumed about the answers in the model itself.

    An environment ([Env]) is a transition relation over some state that says
    which answers a call can have and how the state changes; [exec] relates a
    program, its environment's states and its result, and [wp] is the weakest
    precondition calculus used to prove facts of all executions.  [run] executes
    a program against a deterministic handler, for concrete evaluations. *)
From S2P Require Import Prelude.

Inductive prog (E : Type -> Type) (A : Type) : Type :=
| Ret (a : A)
| Vis (X : Type) (e : E X) (k : X -> prog E A).
Arguments Ret {E A} a.
Arguments Vis {E A X} e k.

Fixpoint bind {E A B} (p : prog E A) (f : A -> prog E B) : prog E B :=
  match p with
  | Ret a => f a
  | Vis e k => Vis e (fun x => bind (k x) f)
  end.

(** A call whose answer is the result. *)
Definition call {E X} (e : E X) : prog E X := Vis e Ret.

Declare Scope prog_scope.
Delimit Scope prog_scope with prog.
Bind Scope prog_scope with prog.

(** [do x <- p ; q] runs [p], then [q].  [try x <- p catch e => h ; q] is Go's
    [x, err := p; if err != nil { return h }; q]; [check p catch e => h ; q] is
    [if err := p; err != nil { return h }; q] for a callee that only returns an
    error. *)
Notation "'do' x <- p ; q" := (bind p (fun x => q))
  (at level 10, x pattern, p at level 100, q at level 200)
  : prog_scope.
Notation "'try' x <- p 'catch' e => h ; q" :=
  (bind p (fun r => match r with inl e => h | inr x => q end))
  (at level 10, x pattern, e name, p at level 100, h at level 100, q at level 200) : prog_scope.
Notation "'check' p 'catch' e => h ; q" :=
  (bind p (fun r => match r with Some e => h | None => q end))
  (at level 10, e name, p at level 100, h at level 100, q at level 200) : prog_scope.
(** [guard b else h ; q] is [if !b { return h }; q]. *)
Notation "'guard' b 'else' h ; q" := (if b then q else h)
  (at level 10, b at level 100, h at level 100, q at level 200, only parsing) : prog_scope.
Open Scope prog_scope.

(** A segment of a handler ends with an early return ([inl]) or continues with
    a value ([inr]). *)
Definition segment E R A := prog E (R + A).
Definition bind_seg {E R A B} (p : segment E R A) (f : A -> segment E R B) : segment E R B :=
  bind p (fun r => match r with inl x => Ret (inl x) | inr a => f a end).
Notation "'seg' x <- p ; q" := (bind_seg p (fun x => q))
  (at level 10, x pattern, p at level 100, q at level 200)
  : prog_scope.

(** ** Environments and executions *)
Definition Env (E : Type -> Type) (S : Type) := forall X, E X -> S -> X -> S -> Prop.

Fixpoint exec {E S A} (env : Env E S) (p : prog E A) (s s' : S) (a : A) : Prop :=
  match p with
  | Ret b => s' = s /\ a = b
  | Vis e k => exists x s1, env _ e s x s1 /\ exec env (k x) s1 s' a
  end.

Fixpoint wp {E S A} (env : Env E S) (p : prog E A) (Q : A -> S -> Prop) (s : S) : Prop :=
  match p with
  | Ret a => Q a s
  | Vis e k => forall x s1, env _ e s x s1 -> wp env (k x) Q s1
  end.

Definition Handler (E : Type -> Type) (S : Type) := forall X, E X -> S -> S * X.

Fixpoint run {E S A} (h : Handler E S) (p : prog E A) (s : S) : S * A :=
  match p with
  | Ret a => (s, a)
  | Vis e k => let '(s1, x) := h _ e s in run h (k x) s1
  end.

(** A handler whose every answer the environment allows. *)
Definition refines {E S} (h : Handler E S) (env : Env E S) : Prop :=
  forall X (e : E X) s, env X e s (h X e s).2 (h X e s).1.

(** The environment in which exactly the handler's answers are possible. *)
Definition env_of {E S} (h : Handler E S) : Env E S :=
  fun X e s x s1 => h X e s = (s1, x).
Lemma env_of_refines {E S} (h : Handler E S) : refines h (env_of h).
Proof. intros X e s. unfold env_of. by destruct (h X e s). Qed.

Section laws.
Context {E : Type -> Type} {S : Type} (env : Env E S).

Lemma bind_assoc {A B C} (p : prog E A) (f : A -> prog E B) (g : B -> prog E C) s s' c :
  exec env (bind (bind p f) g) s s' c <-> exec env (bind p (fun a => bind (f a) g)) s s' c.
Proof.
  revert s; induction p as [a|X e k IH]; intros s; simpl; [done|].
  split; intros (x & s1 & Hx & H); exists x, s1; (split; [done|]); by apply IH.
Qed.

Lemma exec_bind {A B} (p : prog E A) (f : A -> prog E B) s s' b :
  exec env (bind p f) s s' b <->
  exists a s1, exec env p s s1 a /\ exec env (f a) s1 s' b.
Proof.
  revert s; induction p as [a|X e k IH]; intros s; simpl.
  - split; [intros H; by exists a, s|]. intros (a' & s1 & [-> ->] & H). done.
  - split.
    + intros (x & s1 & Hx & (a & s2 & H1 & H2)%IH). exists a, s2. eauto.
    + intros (a & s2 & (x & s1 & Hx & H1) & H2). exists x, s1.
      split; [done|]. apply IH. eauto.
Qed.

Lemma wp_exec {A} (p : prog E A) (Q : A -> S -> Prop) s :
  wp env p Q s <-> (forall s' a, exec env p s s' a -> Q a s').
Proof.
  revert s; induction p as [a|X e k IH]; intros s; simpl.
  - split; [intros H s' a' [-> ->]; done|]. intros H. by apply H.
  - split.
    + intros H s' a (x & s1 & Hx & He). specialize (H x s1 Hx).
      rewrite IH in H. eauto.
    + intros H x s1 Hx. apply IH. intros s' a He. apply H. eauto.
Qed.

Lemma wp_mono {A} (p : prog E A) (Q Q' : A -> S -> Prop) s :
  (forall a s', Q a s' -> Q' a s') -> wp env p Q s -> wp env p Q' s.
Proof. rewrite !wp_exec. eauto. Qed.

Lemma wp_bind {A B} (p : prog E A) (f : A -> prog E B) Q s :
  wp env (bind p f) Q s <-> wp env p (fun a s1 => wp env (f a) Q s1) s.
Proof.
  revert s; induction p as [a|X e k IH]; intros s; simpl; [done|].
  split; intros H x s1 Hx; apply IH, H, Hx.
Qed.

(** The rule for sequencing with an intermediate assertion. *)
Lemma wp_seq {A B} (p : prog E A) (f : A -> prog E B) (R : A -> S -> Prop) Q s :
  wp env p R s -> (forall a s1, R a s1 -> wp env (f a) Q s1) ->
  wp env (bind p f) Q s.
Proof. intros Hp Hf. apply wp_bind. eapply wp_mono; [|exact Hp]. eauto. Qed.

Lemma wp_call {X} (e : E X) Q s :
  wp env (call e) Q s <-> (forall x s1, env X e s x s1 -> Q x s1).
Proof. done. Qed.

Lemma wp_and {A} (p : prog E A) (Q1 Q2 : A -> S -> Prop) s :
  wp env p Q1 s -> wp env p Q2 s -> wp env p (fun a s' => Q1 a s' /\ Q2 a s') s.
Proof. rewrite !wp_exec. eauto. Qed.

Lemma run_exec {A} (h : Handler E S) (p : prog E A) s :
  refines h env -> exec env p s (run h p s).1 (run h p s).2.
Proof.
  intros Href. revert s; induction p as [a|X e k IH]; intros s; simpl; [done|].
  pose proof (Href X e s) as He. destruct (h X e s) as [s1 x]; simpl in *.
  exists x, s1. auto.
Qed.

(** The execution a concrete run describes. *)
Lemma run_exec_eq {A} (h : Handler E S) (p : prog E A) s a :
  refines h env -> (run h p s).2 = a -> exec env p s (run h p s).1 a.
Proof. intros Href <-. by apply run_exec. Qed.
End laws.

(** Invariants: a predicate every step of the environment preserves holds at the
    end of every execution. *)
Lemma exec_invariant {E S A} (env : Env E S) (I : S -> Prop) (p : prog E A) s s' a :
  (forall X (e : E X) s x s1, env X e s x s1 -> I s -> I s1) ->
  exec env p s s' a -> I s -> I s'.
Proof.
  intros HI. revert s; induction p as [b|X e k IH]; intros s; simpl.
  - intros [-> _]; done.
  - intros (x & s1 & Hx & He) Hs. eauto.
Qed.

(** Left-to-right loops.  [for_each] runs the body on every element;
    [for_until] stops at the first early return. *)
Fixpoint for_each {E A} (l : list A) (body : A -> prog E ()) : prog E () :=
  match l with
  | [] => Ret tt
  | a :: l' => do _ <- body a; for_each l' body
  end.

Fixpoint for_until {E A R} (l : list A) (body : A -> prog E (option R)) : prog E (option R) :=
  match l with
  | [] => Ret None
  | a :: l' =>
      do r <- body a;
      match r with Some x => Ret (Some x) | None => for_until l' body end
  end.

(** A loop carrying an accumulator, with early return. *)
Fixpoint fold_until {E A B R} (l : list A) (b : B) (body : A -> B -> prog E (R + B))
    : prog E (R + B) :=
  match l with
  | [] => Ret (inr b)
  | a :: l' =>
      do r <- body a b;
      match r with inl x => Ret (inl x) | inr b' => fold_until l' b' body end
  end.

(** Loop rules: an assertion indexed by the elements already processed. *)
Section loops.
Context {E : Type -> Type} {S : Type} (env : Env E S) {A : Type}.

Lemma wp_fold_until {B R} (body : A -> B -> prog E (R + B))
    (I : list A -> B -> S -> Prop) (F : R -> S -> Prop) (l dn : list A) b s :
  (forall dn' a rest b s, dn ++ l = dn' ++ a :: rest -> I dn' b s ->
     wp env (body a b)
       (fun r s1 => match r with inl x => F x s1 | inr b' => I (dn' ++ [a]) b' s1 end) s) ->
  I dn b s ->
  wp env (fold_until l b body)
    (fun r s1 => match r with inl x => F x s1 | inr b' => I (dn ++ l) b' s1 end) s.
Proof.
  revert dn b s; induction l as [|a l IH]; intros dn b s Hb HI; simpl.
  - by rewrite app_nil_r.
  - eapply wp_seq; [by apply (Hb dn a l)|]. intros [x|b'] s1 H1; simpl; [done|].
    rewrite (cons_middle a dn l), (app_assoc dn [a] l). apply (IH (dn ++ [a])); [|done].
    intros dn' a' rest b0 s0 Heq. apply (Hb dn' a' rest).
    by rewrite <-Heq, <-app_assoc.
Qed.

Lemma wp_for_until {R} (body : A -> prog E (option R))
    (I : list A -> S -> Prop) (F : R -> S -> Prop) (l dn : list A) s :
  (forall dn' a rest s, dn ++ l = dn' ++ a :: rest -> I dn' s ->
     wp env (body a)
       (fun r s1 => match r with Some x => F x s1 | None => I (dn' ++ [a]) s1 end) s) ->
  I dn s ->
  wp env (for_until l body)
    (fun r s1 => match r with Some x => F x s1 | None => I (dn ++ l) s1 end) s.
Proof.
  revert dn s; induction l as [|a l IH]; intros dn s Hb HI; simpl.
  - by rewrite app_nil_r.
  - eapply wp_seq; [by apply (Hb dn a l)|]. intros [x|] s1 H1; simpl; [done|].
    rewrite (cons_middle a dn l), (app_assoc dn [a] l). apply (IH (dn ++ [a])); [|done].
    intros dn' a' rest s0 Heq. apply (Hb dn' a' rest).
    by rewrite <-Heq, <-app_assoc.
Qed.
End loops.
