(* ===== verification/CoreTypes.v ===== *)
(** * Kubernetes API types

    The fields of the core objects that the operator reads or sets.  Pointers are
    [option]s, Go maps with string keys are [gmap string] - a nil map and an empty
    one are told apart only where the code does - enumerated strings keep their
    string constants and time stamps are nanoseconds since Go's zero time.  Values
    the operator only copies (affinities, tolerations, security contexts, the
    sources of volumes it does not create) are kept as their serialised text. *)
From S2P Require Import Prelude.

Definition Time := Z.
Bind Scope Z_scope with Time.
Definition IsZero (t : Time) : bool := bool_decide (t = 0%Z).

(** [metav1.ObjectMeta], the fields the controllers use. *)
Record OwnerReference := {
  owner_Kind : string;
  owner_Name : string;
  owner_Controller : bool;
  owner_UID : string;
}.
Record ObjectMeta := {
  Name : string;
  Namespace : string;
  Generation : Z;
  CreationTimestamp : Time;
  DeletionTimestamp : option Time;
  Labels : gmap string string;
  Annotations : gmap string string;
  Finalizers : list string;
  OwnerReferences : list OwnerReference;
  UID : string;
}.
#[export] Instance OwnerReference_eq_dec : EqDecision OwnerReference.
Proof. solve_decision. Defined.
#[export] Instance ObjectMeta_eq_dec : EqDecision ObjectMeta.
Proof. solve_decision. Defined.

(** [o.DeletionTimestamp.IsZero()] *)
Definition live (m : ObjectMeta) : bool :=
  match DeletionTimestamp m with None => true | Some _ => false end.

(** [metav1.Condition] without the transition time, which the API machinery
    stamps. *)
Inductive ConditionStatus := ConditionTrue | ConditionFalse | ConditionUnknown.
Record Condition := {
  cond_Type : string;
  cond_Status : ConditionStatus;
  cond_ObservedGeneration : Z;
  cond_Reason : string;
  cond_Message : string;
}.
#[export] Instance ConditionStatus_eq_dec : EqDecision ConditionStatus.
Proof. solve_decision. Defined.
#[export] Instance Condition_eq_dec : EqDecision Condition.
Proof. solve_decision. Defined.

(** ** Quantities and resources

    [resource.Quantity] is third-party: what the code asks of it is its sign,
    its value in bytes when that is an int64, its text, and whether two quantities
    are equal, which is a comparison of their values in billionths. *)
Record Quantity := {
  q_Sign : Z;
  q_AsInt64 : option Z;
  q_String : string;
  q_Nano : Z;
}.
#[export] Instance Quantity_eq_dec : EqDecision Quantity.
Proof. solve_decision. Defined.
Definition ResourceStorage : string := "storage".
Record ResourceRequirements := {
  Requests : gmap string Quantity;
  Limits : gmap string Quantity;
}.
Definition no_resources : ResourceRequirements := {| Requests := ∅; Limits := ∅ |}.

(** A label selector: its match labels and the (key, operator, values) triples of
    its expressions. *)
Record LabelSelector := {
  sel_MatchLabels : gmap string string;
  sel_MatchExpressions : list (string * string * list string);
}.

(** ** Configuration objects *)
Record Secret := {
  sec_Meta : ObjectMeta;
  sec_Data : gmap string string;
}.
Record ConfigMap := {
  cm_Meta : ObjectMeta;
  cm_Data : gmap string string;
}.
Record NamespaceObj := {
  ns_Meta : ObjectMeta;
}.
(** [corev1.SecretKeySelector] *)
Record SecretKeySelector := {
  sks_Name : string;
  sks_Key : string;
  sks_Optional : option bool;
}.

(** ** Pods *)
(** What the user gives is opaque; the others are what the operator itself sets: a
    preference for nodes without a pod of these labels, a toleration of everything,
    and a privileged container with these capabilities added. *)
Inductive Affinity :=
| UserAffinity (text : string)
| PreferApart (weight : Z) (labels : gmap string string) (topologyKey : string).
Inductive Toleration :=
| UserToleration (text : string)
| TolerateEverything.
Definition PodSecurityContext : Type := string.
Inductive SecurityContext :=
| UserSecurityContext (text : string)
| PrivilegedContext (capabilities : list string).
Record VolumeMount := {
  vm_Name : string;
  vm_ReadOnly : bool;
  vm_MountPath : string;
  vm_SubPath : string;
  vm_Propagation : option string;
}.
(** The volume sources the operator uses: a Secret (with the keys projected to
    files, when not all of them are, and whether it may be missing), a ConfigMap, a
    claim, a directory of the node with its type (empty when not given), scratch space,
    or keys of several Secrets
    projected as files.  The others only come from the user. *)
Inductive VolumeSource :=
| SecretVolume (secretName : string) (items : list (string * string)) (optional : option bool)
| ConfigMapVolume (name : string)
| ClaimVolume (claimName : string)
| HostPathVolume (path type : string)
| EmptyDir
| Projected (sources : list (string * list (string * string)))
| OtherVolume (text : string).
Record Volume := {
  vol_Name : string;
  vol_Source : VolumeSource;
}.
Inductive EnvVarSource :=
| FieldRef (fieldPath : string)
| SecretKeyRef (selector : SecretKeySelector)
| OtherSource (text : string).
Record EnvVar := {
  env_Name : string;
  env_Value : string;
  env_ValueFrom : option EnvVarSource;
}.
Record ContainerPort := {
  cport_Name : string;
  cport_ContainerPort : Z;
}.
Inductive ProbeHandler :=
| HTTPGet (path : string) (port : Z) (scheme : string)
| TCPSocket (port : Z)
| OtherHandler (text : string).
Record Probe := {
  probe_Handler : ProbeHandler;
  probe_InitialDelaySeconds : Z;
  probe_TimeoutSeconds : Z;
  probe_PeriodSeconds : Z;
  probe_SuccessThreshold : Z;
  probe_FailureThreshold : Z;
}.
(** A container; its environment sources are Secrets, and whether each may be missing. *)
Record Container := {
  c_Name : string;
  c_Image : string;
  c_ImagePullPolicy : string;
  c_SecurityContext : option SecurityContext;
  c_Env : list EnvVar;
  c_EnvFrom : list (string * option bool);
  c_Resources : ResourceRequirements;
  c_Command : list string;
  c_Args : list string;
  c_Ports : list ContainerPort;
  c_VolumeMounts : list VolumeMount;
  c_ReadinessProbe : option Probe;
  c_LivenessProbe : option Probe;
}.
Record PodSpec := {
  pod_RestartPolicy : string;
  pod_SchedulerName : string;
  pod_Affinity : option Affinity;
  pod_NodeSelector : gmap string string;
  pod_HostNetwork : bool;
  pod_HostPID : bool;
  pod_Tolerations : list Toleration;
  pod_PriorityClassName : string;
  pod_ServiceAccountName : string;
  pod_ImagePullSecrets : list string;
  pod_TerminationGracePeriodSeconds : option Z;
  pod_SecurityContext : option PodSecurityContext;
  pod_EnableServiceLinks : option bool;
  pod_Containers : list Container;
  pod_InitContainers : list Container;
  pod_Volumes : list Volume;
}.
(** A pod as listed: its phase, and for each of its containers whether it is ready. *)
Record Pod := {
  p_Meta : ObjectMeta;
  p_Phase : string;
  p_ContainersReady : list bool;
}.
Definition PodRunning : string := "Running".

(** ** Workloads *)
(** A condition of a Job: its type and whether its status is [True]. *)
Record JobCondition := {
  jc_Type : string;
  jc_True : bool;
}.
Record Job := {
  job_Meta : ObjectMeta;
  job_BackoffLimit : Z;
  job_TemplateLabels : gmap string string;
  job_Pod : PodSpec;
  job_Conditions : list JobCondition;
}.
(** A Deployment; the annotations of the template are [None] for a nil map. *)
Record Deployment := {
  dep_Meta : ObjectMeta;
  dep_Replicas : option Z;
  dep_Selector : gmap string string;
  dep_StrategyType : string;
  dep_RollingUpdate : option (string * string);
  dep_TemplateLabels : gmap string string;
  dep_TemplateAnnotations : option (gmap string string);
  dep_Pod : PodSpec;
  dep_StatusReplicas : Z;
  dep_AvailableReplicas : Z;
  dep_ReadyReplicas : Z;
}.
(** A volume claim template. *)
Record PersistentVolumeClaim := {
  pvc_Name : string;
  pvc_Annotations : gmap string string;
  pvc_Labels : gmap string string;
  pvc_AccessModes : list string;
  pvc_Requests : gmap string Quantity;
  pvc_StorageClassName : option string;
  pvc_Selector : option LabelSelector;
  pvc_VolumeName : string;
  pvc_VolumeMode : option string;
  pvc_DataSource : option (string * string * string);
}.
(** The update strategy is its type and its partition; the retention policy of the
    claims is what happens to them when the set is deleted and when it is scaled. *)
Record StatefulSet := {
  sts_Meta : ObjectMeta;
  sts_ServiceName : string;
  sts_PodManagementPolicy : string;
  sts_Replicas : option Z;
  sts_UpdateStrategy : string * option Z;
  sts_Selector : gmap string string;
  sts_TemplateLabels : gmap string string;
  sts_TemplateAnnotations : gmap string string;
  sts_Pod : PodSpec;
  sts_VolumeClaimTemplates : list PersistentVolumeClaim;
  sts_RetentionPolicy : option (string * string);
  sts_ReadyReplicas : Z;
}.
Record DaemonSet := {
  ds_Meta : ObjectMeta;
  ds_Selector : gmap string string;
  ds_UpdateStrategy : string;
  ds_TemplateLabels : gmap string string;
  ds_TemplateAnnotations : gmap string string;
  ds_Pod : PodSpec;
  ds_DesiredNumberScheduled : Z;
  ds_NumberReady : Z;
}.

(** A CronJob: its schedule, the Job and the pods made of its template, and of its
    status the running Jobs and the times of the last runs. *)
Record CronJobSpec := {
  cj_Schedule : string;
  cj_TimeZone : option string;
  cj_Suspend : option bool;
  cj_ConcurrencyPolicy : string;
  cj_StartingDeadlineSeconds : option Z;
  cj_SuccessfulJobsHistoryLimit : option Z;
  cj_FailedJobsHistoryLimit : option Z;
  cj_JobLabels : gmap string string;
  cj_BackoffLimit : option Z;
  cj_ActiveDeadlineSeconds : option Z;
  cj_TemplateLabels : gmap string string;
  cj_Pod : PodSpec;
}.
Record CronJob := {
  cron_Meta : ObjectMeta;
  cron_Spec : CronJobSpec;
  cron_Active : list string;
  cron_LastScheduleTime : option Time;
  cron_LastSuccessfulTime : option Time;
}.

(** ** RBAC

    A ClusterRole has the fields of a Role, and a ClusterRoleBinding those of a
    RoleBinding: a role reference and its subjects. *)
Record ServiceAccount := {
  sa_Meta : ObjectMeta;
}.
Record PolicyRule := {
  pr_APIGroups : list string;
  pr_Resources : list string;
  pr_Verbs : list string;
}.
Record Role := {
  role_Meta : ObjectMeta;
  role_Rules : list PolicyRule;
}.
Record RoleRef := {
  rr_APIGroup : string;
  rr_Kind : string;
  rr_Name : string;
}.
Record Subject := {
  subj_Kind : string;
  subj_Name : string;
  subj_Namespace : string;
}.
Record RoleBinding := {
  rb_Meta : ObjectMeta;
  rb_RoleRef : RoleRef;
  rb_Subjects : list Subject;
}.

(** ** Storage *)
Record CSIDriver := {
  csid_Meta : ObjectMeta;
  csid_AttachRequired : option bool;
  csid_PodInfoOnMount : option bool;
  csid_VolumeLifecycleModes : list string;
}.
Record StorageClass := {
  sc_Meta : ObjectMeta;
  sc_Provisioner : string;
  sc_Parameters : gmap string string;
  sc_MountOptions : list string;
  sc_ReclaimPolicy : option string;
  sc_VolumeBindingMode : option string;
  sc_AllowVolumeExpansion : option bool;
}.

(** ** Networking and monitoring *)
Record ServicePort := {
  sp_Name : string;
  sp_Protocol : string;
  sp_Port : Z;
  sp_TargetPort : Z;
  sp_NodePort : Z;
}.
Record ServiceObjSpec := {
  svc_Type : string;
  svc_ClusterIP : string;
  svc_LoadBalancerIP : string;
  svc_PublishNotReadyAddresses : bool;
  svc_Ports : list ServicePort;
  svc_Selector : gmap string string;
}.
Record Service := {
  svc_Meta : ObjectMeta;
  svc_Spec : ServiceObjSpec;
}.
(** A rule of an Ingress: a host and its (path, path type, service, port) backends;
    a backend's port is a number or a name. *)
Record IngressBackend := {
  ib_Path : string;
  ib_PathType : option string;
  ib_Service : string;
  ib_Port : Z + string;
}.
Record IngressObjSpec := {
  ing_ClassName : option string;
  ing_Rules : list (string * list IngressBackend);
  ing_TLS : list (list string * string);
}.
Record Ingress := {
  ing_Meta : ObjectMeta;
  ing_Spec : IngressObjSpec;
}.
(** The endpoints of a ServiceMonitor: a port name and a path. *)
Record ServiceMonitor := {
  sm_Meta : ObjectMeta;
  sm_Selector : gmap string string;
  sm_NamespaceSelector : list string;
  sm_Endpoints : list (string * string);
}.

(** ** cert-manager

    The kinds the operator writes through the unstructured client: an issuer that
    signs for itself or with the CA of a Secret, and a certificate. *)
Inductive IssuerSpec :=
| SelfSigned
| CAIssuer (secretName : string).
Record Issuer := {
  iss_Meta : ObjectMeta;
  iss_Spec : IssuerSpec;
}.
Record CertificateSpec := {
  crt_SecretName : string;
  crt_CommonName : string;
  crt_IsCA : bool;
  crt_DNSNames : list string;
  crt_Usages : list string;
  crt_IssuerRef : string * string * string;
  crt_PrivateKey : string * Z;
}.
Record Certificate := {
  crt_Meta : ObjectMeta;
  crt_Spec : CertificateSpec;
}.

#[export] Instance Secret_eq_dec : EqDecision Secret.
Proof. solve_decision. Defined.
#[export] Instance ConfigMap_eq_dec : EqDecision ConfigMap.
Proof. solve_decision. Defined.
#[export] Instance ResourceRequirements_eq_dec : EqDecision ResourceRequirements.
Proof. solve_decision. Defined.
#[export] Instance LabelSelector_eq_dec : EqDecision LabelSelector.
Proof. solve_decision. Defined.
#[export] Instance SecretKeySelector_eq_dec : EqDecision SecretKeySelector.
Proof. solve_decision. Defined.
#[export] Instance VolumeMount_eq_dec : EqDecision VolumeMount.
Proof. solve_decision. Defined.
#[export] Instance VolumeSource_eq_dec : EqDecision VolumeSource.
Proof. solve_decision. Defined.
#[export] Instance Volume_eq_dec : EqDecision Volume.
Proof. solve_decision. Defined.
#[export] Instance EnvVarSource_eq_dec : EqDecision EnvVarSource.
Proof. solve_decision. Defined.
#[export] Instance EnvVar_eq_dec : EqDecision EnvVar.
Proof. solve_decision. Defined.
#[export] Instance ContainerPort_eq_dec : EqDecision ContainerPort.
Proof. solve_decision. Defined.
#[export] Instance ProbeHandler_eq_dec : EqDecision ProbeHandler.
Proof. solve_decision. Defined.
#[export] Instance Probe_eq_dec : EqDecision Probe.
Proof. solve_decision. Defined.
#[export] Instance Affinity_eq_dec : EqDecision Affinity.
Proof. solve_decision. Defined.
#[export] Instance Toleration_eq_dec : EqDecision Toleration.
Proof. solve_decision. Defined.
#[export] Instance SecurityContext_eq_dec : EqDecision SecurityContext.
Proof. solve_decision. Defined.
#[export] Instance Container_eq_dec : EqDecision Container.
Proof. solve_decision. Defined.
#[export] Instance PodSpec_eq_dec : EqDecision PodSpec.
Proof. unfold PodSecurityContext in *. solve_decision. Defined.
#[export] Instance Deployment_eq_dec : EqDecision Deployment.
Proof. solve_decision. Defined.
#[export] Instance PersistentVolumeClaim_eq_dec : EqDecision PersistentVolumeClaim.
Proof. solve_decision. Defined.
#[export] Instance StatefulSet_eq_dec : EqDecision StatefulSet.
Proof. solve_decision. Defined.
#[export] Instance DaemonSet_eq_dec : EqDecision DaemonSet.
Proof. solve_decision. Defined.
#[export] Instance ServicePort_eq_dec : EqDecision ServicePort.
Proof. solve_decision. Defined.
#[export] Instance ServiceObjSpec_eq_dec : EqDecision ServiceObjSpec.
Proof. solve_decision. Defined.
#[export] Instance Service_eq_dec : EqDecision Service.
Proof. solve_decision. Defined.
#[export] Instance IngressBackend_eq_dec : EqDecision IngressBackend.
Proof. solve_decision. Defined.
#[export] Instance IngressObjSpec_eq_dec : EqDecision IngressObjSpec.
Proof. solve_decision. Defined.
#[export] Instance Ingress_eq_dec : EqDecision Ingress.
Proof. solve_decision. Defined.
#[export] Instance ServiceMonitor_eq_dec : EqDecision ServiceMonitor.
Proof. solve_decision. Defined.

(** ** Small objects

    A container that only runs a command, a pod of one, and a StatefulSet with
    nothing but its size; every other field has its zero value. *)
Definition command_container (name image pullPolicy : string) (command : list string)
    (mounts : list VolumeMount) : Container := {|
  c_Name := name; c_Image := image; c_ImagePullPolicy := pullPolicy; c_SecurityContext := None;
  c_Env := []; c_EnvFrom := []; c_Resources := no_resources; c_Command := command; c_Args := []; c_Ports := [];
  c_VolumeMounts := mounts; c_ReadinessProbe := None; c_LivenessProbe := None |}.
Definition command_pod (restartPolicy : string) (pullSecrets : list string) (links : option bool)
    (container : Container) (volumes : list Volume) : PodSpec := {|
  pod_RestartPolicy := restartPolicy; pod_SchedulerName := ""; pod_Affinity := None; pod_NodeSelector := ∅;
  pod_HostNetwork := false; pod_HostPID := false; pod_Tolerations := []; pod_PriorityClassName := ""; pod_ServiceAccountName := "";
  pod_ImagePullSecrets := pullSecrets; pod_TerminationGracePeriodSeconds := None; pod_SecurityContext := None;
  pod_EnableServiceLinks := links; pod_Containers := [container]; pod_InitContainers := [];
  pod_Volumes := volumes |}.
Definition bare_statefulset (meta : ObjectMeta) (replicas : Z) (claims : list PersistentVolumeClaim)
    (ready : Z) : StatefulSet := {|
  sts_Meta := meta; sts_ServiceName := ""; sts_PodManagementPolicy := ""; sts_Replicas := Some replicas;
  sts_UpdateStrategy := ("", None); sts_Selector := ∅; sts_TemplateLabels := ∅; sts_TemplateAnnotations := ∅;
  sts_Pod := command_pod "" [] None (command_container "" "" "" [] []) []; sts_VolumeClaimTemplates := claims;
  sts_RetentionPolicy := None; sts_ReadyReplicas := ready |}.
