(* ===== verification/ApiTypes.v ===== *)
(** * API types

    The custom resources of [api/v1],
    with the conventions of CoreTypes.v. *)
From S2P Require Import Prelude CoreTypes.

(** ** s3iam_common.go *)
Record SeaweedReference := {
  ref_Name : string;
  ref_Namespace : string;
}.

Definition S3ReclaimDelete : string := "Delete".
Definition S3ReclaimRetain : string := "Retain".

Definition S3PhasePending : string := "Pending".
Definition S3PhaseReady : string := "Ready".
Definition S3PhaseFailed : string := "Failed".
Definition S3PhaseTerminating : string := "Terminating".

Definition S3ConditionReady : string := "Ready".
Definition S3ConditionClusterReachable : string := "ClusterReachable".
Definition S3ConditionReferenceGranted : string := "ReferenceGranted".

(** ** s3identity_types.go *)
Record S3Account := {
  acc_DisplayName : string;
  acc_Email : string;
}.
Record S3IdentitySpec := {
  idspec_SeaweedRef : SeaweedReference;
  idspec_Name : string;
  idspec_ReclaimPolicy : string;
  idspec_Disabled : bool;
  idspec_Account : option S3Account;
}.
Record S3IdentityStatus := {
  idst_ObservedGeneration : Z;
  idst_Phase : string;
  idst_Conditions : list Condition;
  idst_IdentityName : string;
}.
Record S3Identity := {
  id_Meta : ObjectMeta;
  id_Spec : S3IdentitySpec;
  id_Status : S3IdentityStatus;
}.

(** ** s3policy_types.go *)
Record S3PolicyStatement := {
  stm_Sid : string;
  stm_Effect : string;
  stm_Actions : list string;
  stm_Resources : list string;
}.
Record S3PolicySpec := {
  polspec_SeaweedRef : SeaweedReference;
  polspec_Name : string;
  polspec_ReclaimPolicy : string;
  polspec_Statements : list S3PolicyStatement;
  polspec_PolicyDocument : string;
}.
Record S3PolicyStatus := {
  polst_ObservedGeneration : Z;
  polst_Phase : string;
  polst_Conditions : list Condition;
  polst_PolicyName : string;
}.
Record S3Policy := {
  pol_Meta : ObjectMeta;
  pol_Spec : S3PolicySpec;
  pol_Status : S3PolicyStatus;
}.

(** ** s3policybinding_types.go *)
Record S3Subject := {
  sub_Kind : string;
  sub_Name : string;
}.
Record S3PolicyBindingSpec := {
  bindspec_SeaweedRef : SeaweedReference;
  bindspec_PolicyRef : string;
  bindspec_Subjects : list S3Subject;
  bindspec_ReclaimPolicy : string;
}.
Record S3PolicyBindingStatus := {
  bindst_ObservedGeneration : Z;
  bindst_Phase : string;
  bindst_Conditions : list Condition;
  bindst_AttachedSubjects : list string;
  bindst_PolicyName : string;
}.
Record S3PolicyBinding := {
  bind_Meta : ObjectMeta;
  bind_Spec : S3PolicyBindingSpec;
  bind_Status : S3PolicyBindingStatus;
}.

(** ** s3credentials_types.go *)
Record S3SecretRef := {
  sref_Name : string;
  sref_Namespace : string;
  sref_AccessKeyField : string;
  sref_SecretKeyField : string;
}.
Record S3CredentialsSpec := {
  credspec_SeaweedRef : SeaweedReference;
  credspec_IdentityRef : string;
  credspec_SecretRef : S3SecretRef;
  credspec_ReclaimPolicy : string;
}.
Record S3CredentialsStatus := {
  credst_ObservedGeneration : Z;
  credst_Phase : string;
  credst_Conditions : list Condition;
  credst_AccessKey : string;
  credst_IdentityName : string;
  credst_SecretName : string;
}.
Record S3Credentials := {
  cred_Meta : ObjectMeta;
  cred_Spec : S3CredentialsSpec;
  cred_Status : S3CredentialsStatus;
}.

(** ** s3oidcprovider_types.go *)
Record S3OIDCProviderSpec := {
  oidcspec_SeaweedRef : SeaweedReference;
  oidcspec_IssuerURL : string;
  oidcspec_ClientIDs : list string;
  oidcspec_Thumbprints : list string;
  oidcspec_ReclaimPolicy : string;
}.
Record S3OIDCProviderStatus := {
  oidcst_ObservedGeneration : Z;
  oidcst_Phase : string;
  oidcst_Conditions : list Condition;
  oidcst_ProviderArn : string;
}.
Record S3OIDCProvider := {
  oidc_Meta : ObjectMeta;
  oidc_Spec : S3OIDCProviderSpec;
  oidc_Status : S3OIDCProviderStatus;
}.

(** ** resourcereferencegrant_types.go *)
Record ReferenceGrantFrom := {
  from_Group : string;
  from_Kind : string;
  from_Namespace : string;
  from_NamespaceSelector : option LabelSelector;
}.
Record ReferenceGrantTo := {
  to_Group : string;
  to_Kind : string;
  to_Name : string;
}.
Record ResourceReferenceGrantSpec := {
  grant_From : list ReferenceGrantFrom;
  grant_To : list ReferenceGrantTo;
}.
Record ResourceReferenceGrant := {
  grant_Meta : ObjectMeta;
  grant_Spec : ResourceReferenceGrantSpec;
}.

(** ** bucket_types.go *)
Definition VersioningOff : string := "Off".
Definition VersioningEnabled : string := "Enabled".
Definition VersioningSuspended : string := "Suspended".
Definition BucketReclaimRetain : string := "Retain".
Definition BucketReclaimDelete : string := "Delete".
Definition BucketAccessRead : string := "Read".
Record BucketQuota := {
  quota_Size : Quantity;
  quota_Enforce : bool;
}.
Record BucketAccessGrant := {
  acc_User : string;
  acc_Actions : list string;
}.
Record BucketPlacement := {
  pl_Replication : string;
  pl_DiskType : string;
  pl_TTL : string;
  pl_Fsync : bool;
  pl_WORM : bool;
  pl_ReadOnly : bool;
  pl_DataCenter : string;
  pl_Rack : string;
  pl_DataNode : string;
  pl_VolumeGrowthCount : option Z;
}.
Record BucketSpec := {
  bspec_Name : string;
  bspec_ClusterRef : SeaweedReference;
  bspec_ReclaimPolicy : string;
  bspec_AdoptExisting : bool;
  bspec_Versioning : string;
  bspec_ObjectLock : bool;
  bspec_Quota : option BucketQuota;
  bspec_Owner : string;
  bspec_Access : list BucketAccessGrant;
  bspec_Placement : option BucketPlacement;
  bspec_AnonymousRead : bool;
}.
Record BucketUsage := {
  usage_ObjectCount : Z;
  usage_SizeBytes : Z;
  usage_LastUpdated : option Time;
}.
Record BucketStatusQuota := {
  squota_SizeBytes : Z;
  squota_Enforced : bool;
}.
Definition BucketPhasePending : string := "Pending".
Definition BucketPhaseReady : string := "Ready".
Definition BucketPhaseFailed : string := "Failed".
Definition BucketPhaseTerminating : string := "Terminating".
Definition BucketConditionReady : string := "Ready".
Definition BucketConditionClusterReachable : string := "ClusterReachable".
Definition BucketConditionQuotaEnforced : string := "QuotaEnforced".
Definition BucketConditionObjectLockEnabled : string := "ObjectLockEnabled".
Definition BucketConditionDeleteBlockedByRetention : string := "DeleteBlockedByRetention".
Definition BucketConditionBucketAlreadyExists : string := "BucketAlreadyExists".
Definition BucketConditionClusterRefForbidden : string := "ClusterRefForbidden".
Record BucketStatus := {
  bst_ObservedGeneration : Z;
  bst_Phase : string;
  bst_Conditions : list Condition;
  bst_BucketName : string;
  bst_Versioning : string;
  bst_ObjectLockEnabled : bool;
  bst_Quota : option BucketStatusQuota;
  bst_OwnerIdentity : string;
  bst_Usage : option BucketUsage;
}.
Record Bucket := {
  b_Meta : ObjectMeta;
  b_Spec : BucketSpec;
  b_Status : BucketStatus;
}.
#[export] Instance BucketUsage_eq_dec : EqDecision BucketUsage.
Proof. solve_decision. Defined.
#[export] Instance BucketStatusQuota_eq_dec : EqDecision BucketStatusQuota.
Proof. solve_decision. Defined.
#[export] Instance BucketStatus_eq_dec : EqDecision BucketStatus.
Proof. solve_decision. Defined.

(** ** bucketlifecyclepolicy_types.go *)
Record BucketLifecycleExpiration := {
  exp_Days : Z;
  exp_ExpiredObjectDeleteMarker : bool;
}.
Record BucketLifecycleNoncurrentVersionExpiration := {
  ncv_NoncurrentDays : Z;
  ncv_NewerNoncurrentVersions : Z;
}.
Record BucketLifecycleAbortIncompleteMultipartUpload := {
  abort_DaysAfterInitiation : Z;
}.
Record BucketLifecycleRule := {
  rule_ID : string;
  rule_Prefix : string;
  rule_Status : string;
  rule_Expiration : option BucketLifecycleExpiration;
  rule_NoncurrentVersionExpiration : option BucketLifecycleNoncurrentVersionExpiration;
  rule_AbortIncompleteMultipartUpload :
    option BucketLifecycleAbortIncompleteMultipartUpload;
}.
Record BucketLifecyclePolicySpec := {
  lpspec_BucketRef : string;
  lpspec_Rules : list BucketLifecycleRule;
  lpspec_ReclaimPolicy : string;
}.
Definition BucketLifecyclePolicyConditionReady : string := "Ready".
Definition BucketLifecyclePolicyConditionBucketResolved : string := "BucketResolved".
Record BucketLifecyclePolicyStatus := {
  lpst_ObservedGeneration : Z;
  lpst_Phase : string;
  lpst_Conditions : list Condition;
  lpst_BucketName : string;
  lpst_ClusterName : string;
  lpst_ClusterNamespace : string;
  lpst_AppliedRules : Z;
}.
Record BucketLifecyclePolicy := {
  lp_Meta : ObjectMeta;
  lp_Spec : BucketLifecyclePolicySpec;
  lp_Status : BucketLifecyclePolicyStatus;
}.
#[export] Instance BucketLifecyclePolicyStatus_eq_dec : EqDecision BucketLifecyclePolicyStatus.
Proof. solve_decision. Defined.

(** ** backup_types.go: storages *)
Definition BackupStorageS3 : string := "s3".
Definition BackupStorageGCS : string := "gcs".
Definition BackupStorageAzure : string := "azure".
Definition BackupStorageB2 : string := "b2".
Definition BackupStorageFilesystem : string := "filesystem".
Definition BackupSecretKeyAWSAccessKeyID : string := "AWS_ACCESS_KEY_ID".
Definition BackupSecretKeyAWSSecretAccessKey : string := "AWS_SECRET_ACCESS_KEY".
Definition BackupSecretKeyGCSCredentials : string := "GOOGLE_APPLICATION_CREDENTIALS_JSON".
Definition BackupSecretKeyAzureAccountKey : string := "AZURE_STORAGE_ACCOUNT_KEY".
Definition BackupSecretKeyB2AccountID : string := "B2_ACCOUNT_ID".
Definition BackupSecretKeyB2AppKey : string := "B2_MASTER_APPLICATION_KEY".
Record S3BackupStore := {
  s3_Bucket : string;
  s3_Region : string;
  s3_Endpoint : string;
  s3_Directory : string;
  s3_ForcePathStyle : option bool;
}.
Record GCSBackupStore := {
  gcs_Bucket : string;
  gcs_Directory : string;
}.
Record AzureBackupStore := {
  azure_AccountName : string;
  azure_Container : string;
  azure_Directory : string;
}.
Record B2BackupStore := {
  b2_Bucket : string;
  b2_Region : string;
  b2_Directory : string;
}.
Record FilesystemBackupStore := {
  fs_ExistingClaim : string;
  fs_MountPath : string;
  fs_SubPath : string;
}.
Record BackupStorageSpec := {
  st_Type : string;
  st_S3 : option S3BackupStore;
  st_GCS : option GCSBackupStore;
  st_Azure : option AzureBackupStore;
  st_B2 : option B2BackupStore;
  st_Filesystem : option FilesystemBackupStore;
  st_CredentialsSecret : option string;
}.
Record BackupMirrorSpec := {
  mirror_StorageName : string;
  mirror_FilerPath : string;
}.

(** ** seaweedbackup_types.go and the schedules of backup_types.go *)
Definition BackupPhasePending : string := "Pending".
Definition BackupPhaseRunning : string := "Running".
Definition BackupPhaseCompleted : string := "Completed".
Definition BackupPhaseFailed : string := "Failed".
Definition LabelBackupCluster : string := "seaweed.seaweedfs.com/backup-cluster".
Definition LabelBackupSchedule : string := "seaweed.seaweedfs.com/backup-schedule".
Record SeaweedBackupSpec := {
  bkspec_ClusterName : string;
  bkspec_StorageName : string;
  bkspec_FilerPath : string;
}.
Record SeaweedBackupStatus := {
  bkst_ObservedGeneration : Z;
  bkst_Phase : string;
  bkst_JobName : string;
  bkst_Destination : string;
  bkst_StartTime : option Time;
  bkst_CompletionTime : option Time;
  bkst_Conditions : list Condition;
}.
Record SeaweedBackup := {
  bk_Meta : ObjectMeta;
  bk_Spec : SeaweedBackupSpec;
  bk_Status : SeaweedBackupStatus;
}.
Record BackupScheduleSpec := {
  sched_Name : string;
  sched_Schedule : string;
  sched_StorageName : string;
  sched_Keep : Z;
  sched_FilerPath : string;
  sched_Suspend : bool;
}.

(** ** seaweedrestore_types.go *)
Definition RestorePhasePending : string := "Pending".
Definition RestorePhaseRunning : string := "Running".
Definition RestorePhaseCompleted : string := "Completed".
Definition RestorePhaseFailed : string := "Failed".
Record BackupSource := {
  src_StorageName : string;
  src_MetaPath : string;
}.
Record SeaweedRestoreSpec := {
  rsspec_ClusterName : string;
  rsspec_BackupName : string;
  rsspec_BackupSource : option BackupSource;
  rsspec_FilerPath : string;
}.
Record SeaweedRestoreStatus := {
  rsst_ObservedGeneration : Z;
  rsst_Phase : string;
  rsst_JobName : string;
  rsst_StartTime : option Time;
  rsst_CompletionTime : option Time;
  rsst_Conditions : list Condition;
}.
Record SeaweedRestore := {
  rs_Meta : ObjectMeta;
  rs_Spec : SeaweedRestoreSpec;
  rs_Status : SeaweedRestoreStatus;
}.

(** ** seaweed_types.go *)
Definition GRPCPortDelta : Z := 10000.
Definition MasterHTTPPort : Z := 9333.
Definition VolumeHTTPPort : Z := 8444.
Definition FilerHTTPPort : Z := 8888.
Definition FilerS3Port : Z := 8333.
Definition FilerIcebergPort : Z := 8181.
Definition AdminHTTPPort : Z := 23646.
Definition WorkerMetricsPort : Z := 9101.
Definition SFTPPort : Z := 2222.
Definition MasterGRPCPort : Z := MasterHTTPPort + GRPCPortDelta.
Definition VolumeGRPCPort : Z := VolumeHTTPPort + GRPCPortDelta.
Definition FilerGRPCPort : Z := FilerHTTPPort + GRPCPortDelta.
Definition AdminGRPCPort : Z := AdminHTTPPort + GRPCPortDelta.

Record IngressTLS := {
  itls_Hosts : list string;
  itls_SecretName : string;
}.
Record IngressSpec := {
  ispec_Enabled : bool;
  ispec_ClassName : option string;
  ispec_Host : string;
  ispec_Path : string;
  ispec_Annotations : gmap string string;
  ispec_TLS : list IngressTLS;
}.
Record TLSIssuerRef := {
  issuer_Name : string;
  issuer_Kind : string;
  issuer_Group : string;
}.
Record TLSSpec := {
  tls_Enabled : bool;
  tls_IssuerRef : option TLSIssuerRef;
}.
Record JWTExpiresAfterSecondsSpec := {
  exp_VolumeWrite : Z;
  exp_VolumeRead : Z;
  exp_FilerWrite : Z;
  exp_FilerRead : Z;
}.
Record JWTSigningSpec := {
  jwt_VolumeWrite : bool;
  jwt_VolumeRead : bool;
  jwt_FilerWrite : bool;
  jwt_FilerRead : bool;
  jwt_ExpiresAfterSeconds : option JWTExpiresAfterSecondsSpec;
}.
Record SecurityConfigSpec := {
  sec_JWTSigning : option JWTSigningSpec;
}.
Record BackupSpec := {
  bkp_Image : option string;
  bkp_Storages : gmap string BackupStorageSpec;
  bkp_Schedule : list BackupScheduleSpec;
  bkp_DataMirror : list BackupMirrorSpec;
}.

(** What every component can set, over the settings of the cluster.  The lists
    that are compared with nil are [option]s. *)
Record ProbeOverride := {
  po_InitialDelaySeconds : option Z;
  po_TimeoutSeconds : option Z;
  po_PeriodSeconds : option Z;
  po_SuccessThreshold : option Z;
  po_FailureThreshold : option Z;
}.
Record LivenessProbeOverride := {
  lpo_InitialDelaySeconds : option Z;
  lpo_TimeoutSeconds : option Z;
  lpo_PeriodSeconds : option Z;
  lpo_FailureThreshold : option Z;
}.
Record ComponentSpec := {
  cs_Version : option string;
  cs_ImagePullPolicy : option string;
  cs_ImagePullSecrets : option (list string);
  cs_HostNetwork : option bool;
  cs_Affinity : option Affinity;
  cs_PriorityClassName : option string;
  cs_ServiceAccountName : option string;
  cs_SchedulerName : option string;
  cs_NodeSelector : gmap string string;
  cs_Annotations : gmap string string;
  cs_Labels : gmap string string;
  cs_Tolerations : option (list Toleration);
  cs_Env : option (list EnvVar);
  cs_TerminationGracePeriodSeconds : option Z;
  cs_StatefulSetUpdateStrategy : string;
  cs_Volumes : list Volume;
  cs_VolumeMounts : list VolumeMount;
  cs_ExtraArgs : list string;
  cs_ReadinessProbe : option ProbeOverride;
  cs_LivenessProbe : option LivenessProbeOverride;
  cs_LoggingArgs : list string;
  cs_Sidecars : list Container;
  cs_InitContainers : list Container;
  cs_PodSecurityContext : option PodSecurityContext;
  cs_ContainerSecurityContext : option SecurityContext;
}.
Definition no_component_spec : ComponentSpec := {|
  cs_Version := None; cs_ImagePullPolicy := None; cs_ImagePullSecrets := None; cs_HostNetwork := None;
  cs_Affinity := None; cs_PriorityClassName := None; cs_ServiceAccountName := None;
  cs_SchedulerName := None; cs_NodeSelector := ∅; cs_Annotations := ∅; cs_Labels := ∅;
  cs_Tolerations := None; cs_Env := None; cs_TerminationGracePeriodSeconds := None;
  cs_StatefulSetUpdateStrategy := ""; cs_Volumes := []; cs_VolumeMounts := []; cs_ExtraArgs := [];
  cs_ReadinessProbe := None; cs_LivenessProbe := None; cs_LoggingArgs := []; cs_Sidecars := [];
  cs_InitContainers := []; cs_PodSecurityContext := None; cs_ContainerSecurityContext := None |}.
Record ServiceSpec := {
  ss_Type : string;
  ss_Annotations : gmap string string;
  ss_LoadBalancerIP : option string;
  ss_ClusterIP : option string;
}.
(** The resources of a claim are its storage requests. *)
Record PersistenceSpec := {
  ps_Enabled : bool;
  ps_ExistingClaim : option string;
  ps_MountPath : option string;
  ps_SubPath : option string;
  ps_AccessModes : list string;
  ps_Selector : option LabelSelector;
  ps_Resources : gmap string Quantity;
  ps_VolumeName : string;
  ps_StorageClassName : option string;
  ps_VolumeMode : option string;
  ps_DataSource : option (string * string * string);
  ps_Annotations : gmap string string;
  ps_Labels : gmap string string;
}.
Record MasterSpec := {
  master_Component : ComponentSpec;
  master_Resources : ResourceRequirements;
  master_Replicas : Z;
  master_Service : option ServiceSpec;
  master_Config : option string;
  master_ConfigSecret : option SecretKeySelector;
  master_MetricsPort : option Z;
  master_IPBind : option string;
  master_Persistence : option PersistenceSpec;
  master_VolumePreallocate : option bool;
  master_VolumeSizeLimitMB : option Z;
  master_GarbageThreshold : option string;
  master_PulseSeconds : option Z;
  master_DefaultReplication : option string;
  master_ConcurrentStart : option bool;
  master_Ingress : option IngressSpec;
}.
Record VolumeServerConfig := {
  vsc_Component : ComponentSpec;
  vsc_Resources : ResourceRequirements;
  vsc_Service : option ServiceSpec;
  vsc_StorageClassName : option string;
  vsc_StorageSelector : option LabelSelector;
  vsc_StorageAnnotations : gmap string string;
  vsc_StorageLabels : gmap string string;
  vsc_MetricsPort : option Z;
  vsc_IPBind : option string;
  vsc_CompactionMBps : option Z;
  vsc_FileSizeLimitMB : option Z;
  vsc_FixJpgOrientation : option bool;
  vsc_IdleTimeout : option Z;
  vsc_MaxVolumeCounts : option Z;
  vsc_MinFreeSpacePercent : option Z;
}.
Definition VolumeServerStatefulSet : string := "StatefulSet".
Definition VolumeServerDaemonSet : string := "DaemonSet".
Record VolumeServerHostPath := {
  hp_Path : string;
  hp_MaxVolumeCount : option Z;
  hp_Type : option string;
}.
Record VolumeSpec := {
  vspec_Config : VolumeServerConfig;
  vspec_Replicas : Z;
  vspec_Kind : string;
  vspec_HostPath : list VolumeServerHostPath;
  vspec_Rack : option string;
  vspec_DataCenter : option string;
  vspec_Ingress : option IngressSpec;
}.
Definition IsDaemonSet (v : VolumeSpec) : bool := bool_decide (vspec_Kind v = VolumeServerDaemonSet).
Record VolumeTopologySpec := {
  topo_Config : VolumeServerConfig;
  topo_Replicas : Z;
  topo_Rack : string;
  topo_DataCenter : string;
}.
Record S3Config := {
  s3c_Enabled : bool;
  s3c_ConfigSecret : option SecretKeySelector;
}.
Record IcebergConfig := {
  ice_Enabled : bool;
  ice_Port : option Z;
}.
Definition IcebergEffectivePort (c : IcebergConfig) : Z := default FilerIcebergPort (ice_Port c).
Record FilerSpec := {
  filer_Component : ComponentSpec;
  filer_Resources : ResourceRequirements;
  filer_Replicas : Z;
  filer_Service : option ServiceSpec;
  filer_Config : option string;
  filer_ConfigSecret : option SecretKeySelector;
  filer_MetricsPort : option Z;
  filer_IPBind : option string;
  filer_Persistence : option PersistenceSpec;
  filer_MaxMB : option Z;
  filer_S3 : option S3Config;
  filer_IAM : bool;
  filer_Iceberg : option IcebergConfig;
  filer_Ingress : option IngressSpec;
  filer_S3Ingress : option IngressSpec;
  filer_GRPCIngress : option IngressSpec;
}.
Record AdminSpec := {
  admin_Component : ComponentSpec;
  admin_Resources : ResourceRequirements;
  admin_Service : option ServiceSpec;
  admin_MetricsPort : option Z;
  admin_CredentialsSecret : option string;
  admin_Ingress : option IngressSpec;
}.
Record WorkerSpec := {
  worker_Component : ComponentSpec;
  worker_Resources : ResourceRequirements;
  worker_Replicas : Z;
  worker_MetricsPort : option Z;
  worker_Persistence : option PersistenceSpec;
  worker_JobType : option string;
  worker_MaxDetect : option Z;
  worker_MaxExecute : option Z;
}.
Record S3GatewaySpec := {
  s3gw_Component : ComponentSpec;
  s3gw_Resources : ResourceRequirements;
  s3gw_Replicas : Z;
  s3gw_Service : option ServiceSpec;
  s3gw_ConfigSecret : option SecretKeySelector;
  s3gw_MetricsPort : option Z;
  s3gw_Port : option Z;
  s3gw_DomainName : option string;
  s3gw_IAM : bool;
  s3gw_Ingress : option IngressSpec;
}.
Record SFTPSpec := {
  sftp_Component : ComponentSpec;
  sftp_Resources : ResourceRequirements;
  sftp_Replicas : Z;
  sftp_Service : option ServiceSpec;
  sftp_Port : option Z;
  sftp_MetricsPort : option Z;
  sftp_UserStoreSecret : option SecretKeySelector;
  sftp_HostKeysSecret : option string;
  sftp_AuthMethods : option string;
  sftp_MaxAuthTries : option Z;
  sftp_Ingress : option IngressSpec;
}.
(** The webhook refuses to create a cluster without a master spec; an update may drop it. *)
Record SeaweedSpec := {
  sw_TLS : option TLSSpec;
  sw_SecurityConfig : option SecurityConfigSpec;
  sw_MetricsAddress : string;
  sw_Image : string;
  sw_Version : string;
  sw_Master : option MasterSpec;
  sw_Volume : option VolumeSpec;
  sw_VolumeTopology : gmap string (option VolumeTopologySpec);
  sw_Filer : option FilerSpec;
  sw_Admin : option AdminSpec;
  sw_Worker : option WorkerSpec;
  sw_S3 : option S3GatewaySpec;
  sw_SFTP : option SFTPSpec;
  sw_Backup : option BackupSpec;
  sw_SchedulerName : string;
  sw_PVReclaimPolicy : option string;
  sw_ImagePullPolicy : string;
  sw_ImagePullSecrets : list string;
  sw_EnablePVReclaim : option bool;
  sw_HostNetwork : option bool;
  sw_Affinity : option Affinity;
  sw_NodeSelector : gmap string string;
  sw_Annotations : gmap string string;
  sw_Labels : gmap string string;
  sw_Tolerations : list Toleration;
  sw_StatefulSetUpdateStrategy : string;
  sw_VolumeServerDiskCount : option Z;
  sw_HostSuffix : option string;
  sw_LoggingArgs : list string;
}.
Definition minimal_master (replicas : Z) : MasterSpec := {|
  master_Component := no_component_spec; master_Resources := no_resources; master_Replicas := replicas;
  master_Service := None; master_Config := None; master_ConfigSecret := None; master_MetricsPort := None;
  master_IPBind := None; master_Persistence := None; master_VolumePreallocate := None;
  master_VolumeSizeLimitMB := None; master_GarbageThreshold := None; master_PulseSeconds := None;
  master_DefaultReplication := None; master_ConcurrentStart := None; master_Ingress := None |}.
Definition minimal_volume_config : VolumeServerConfig := {|
  vsc_Component := no_component_spec; vsc_Resources := no_resources; vsc_Service := None;
  vsc_StorageClassName := None; vsc_StorageSelector := None; vsc_StorageAnnotations := ∅;
  vsc_StorageLabels := ∅; vsc_MetricsPort := None; vsc_IPBind := None; vsc_CompactionMBps := None;
  vsc_FileSizeLimitMB := None; vsc_FixJpgOrientation := None; vsc_IdleTimeout := None;
  vsc_MaxVolumeCounts := None; vsc_MinFreeSpacePercent := None |}.
Definition minimal_volume (replicas : Z) : VolumeSpec := {|
  vspec_Config := minimal_volume_config; vspec_Replicas := replicas; vspec_Kind := ""; vspec_HostPath := [];
  vspec_Rack := None; vspec_DataCenter := None; vspec_Ingress := None |}.
Definition minimal_topology (replicas : Z) (rack dataCenter : string) : VolumeTopologySpec := {|
  topo_Config := minimal_volume_config; topo_Replicas := replicas; topo_Rack := rack;
  topo_DataCenter := dataCenter |}.
(** A cluster with these fields and every other field at its zero value. *)
Definition cluster_spec (master : MasterSpec) (volume : option VolumeSpec)
    (topology : gmap string (option VolumeTopologySpec)) (security : option SecurityConfigSpec)
    (tls : option TLSSpec) (backup : option BackupSpec) : SeaweedSpec := {|
  sw_TLS := tls; sw_SecurityConfig := security; sw_MetricsAddress := ""; sw_Image := ""; sw_Version := "";
  sw_Master := Some master; sw_Volume := volume; sw_VolumeTopology := topology; sw_Filer := None;
  sw_Admin := None; sw_Worker := None; sw_S3 := None; sw_SFTP := None; sw_Backup := backup;
  sw_SchedulerName := ""; sw_PVReclaimPolicy := None; sw_ImagePullPolicy := ""; sw_ImagePullSecrets := [];
  sw_EnablePVReclaim := None; sw_HostNetwork := None; sw_Affinity := None; sw_NodeSelector := ∅;
  sw_Annotations := ∅; sw_Labels := ∅; sw_Tolerations := []; sw_StatefulSetUpdateStrategy := "";
  sw_VolumeServerDiskCount := None; sw_HostSuffix := None; sw_LoggingArgs := [] |}.
Definition minimal_spec (masters : Z) (tls : option TLSSpec) (backup : option BackupSpec) : SeaweedSpec :=
  cluster_spec (minimal_master masters) None ∅ None tls backup.
Record ComponentStatus := {
  Replicas : Z;
  ReadyReplicas : Z;
}.
Definition no_component : ComponentStatus := {| Replicas := 0; ReadyReplicas := 0 |}.
(** backup_types.go: the state of a data mirror. *)
Record BackupMirrorStatus := {
  ms_StorageName : string;
  ms_DeploymentName : string;
  ms_Ready : bool;
}.
Record SeaweedStatus := {
  swst_ObservedGeneration : Z;
  swst_Conditions : list Condition;
  swst_Master : ComponentStatus;
  swst_Volume : ComponentStatus;
  swst_Filer : ComponentStatus;
  swst_Admin : ComponentStatus;
  swst_Worker : ComponentStatus;
  swst_S3 : ComponentStatus;
  swst_SFTP : ComponentStatus;
  swst_BackupMirrors : list BackupMirrorStatus;
}.
Definition no_status : SeaweedStatus := {|
  swst_ObservedGeneration := 0; swst_Conditions := []; swst_Master := no_component;
  swst_Volume := no_component; swst_Filer := no_component; swst_Admin := no_component;
  swst_Worker := no_component; swst_S3 := no_component; swst_SFTP := no_component;
  swst_BackupMirrors := [] |}.
Record Seaweed := {
  sw_Meta : ObjectMeta;
  sw_Spec : SeaweedSpec;
  sw_Status : SeaweedStatus;
}.

(** ** adminscript_types.go

    The cluster is referenced by name, in the namespace of the script. *)
Record AdminScriptSpec := {
  as_ClusterRef : string;
  as_Schedule : string;
  as_Script : string;
  as_TimeZone : option string;
  as_Suspend : option bool;
  as_ConcurrencyPolicy : string;
  as_StartingDeadlineSeconds : option Z;
  as_SuccessfulJobsHistoryLimit : option Z;
  as_FailedJobsHistoryLimit : option Z;
  as_BackoffLimit : option Z;
  as_ActiveDeadlineSeconds : option Z;
  as_RestartPolicy : string;
  as_CredentialsSecret : option string;
  as_Image : option string;
  as_ImagePullSecrets : list string;
  as_Resources : ResourceRequirements;
  as_ServiceAccountName : string;
  as_NodeSelector : gmap string string;
  as_Tolerations : list Toleration;
  as_Affinity : option Affinity;
}.
Definition AdminScriptPhasePending : string := "Pending".
Definition AdminScriptPhaseActive : string := "Active".
Definition AdminScriptPhaseSuspended : string := "Suspended".
Definition AdminScriptConditionReady : string := "Ready".
Record AdminScriptStatus := {
  asst_ObservedGeneration : Z;
  asst_Phase : string;
  asst_Conditions : list Condition;
  asst_CronJobName : string;
  asst_Active : Z;
  asst_LastScheduleTime : option Time;
  asst_LastSuccessfulTime : option Time;
}.
Record AdminScript := {
  as_Meta : ObjectMeta;
  as_Spec : AdminScriptSpec;
  as_Status : AdminScriptStatus;
}.

(** ** seaweedcsidriver_types.go *)
Definition DefaultCSIMountImage : string := "chrislusf/seaweedfs-mount:v1.4.20".
Definition DefaultKubeletPath : string := "/var/lib/kubelet".
Definition DefaultMountSocketDir : string := "/var/lib/seaweedfs-mount".
Record CSISidecarImages := {
  scar_Provisioner : string;
  scar_Attacher : string;
  scar_Resizer : string;
  scar_NodeDriverRegistrar : string;
  scar_LivenessProbe : string;
}.
Record CSIControllerSpec := {
  csic_Replicas : option Z;
  csic_AttacherEnabled : option bool;
  csic_Resources : ResourceRequirements;
  csic_NodeSelector : gmap string string;
  csic_Tolerations : list Toleration;
  csic_Affinity : option Affinity;
}.
Record CSINodeSpec := {
  csin_KubeletPath : string;
  csin_HostPID : option bool;
  csin_Resources : ResourceRequirements;
  csin_NodeSelector : gmap string string;
  csin_Tolerations : list Toleration;
  csin_UpdateStrategy : string;
}.
Record CSIMountServiceSpec := {
  csim_Enabled : option bool;
  csim_Image : string;
  csim_SocketDir : string;
  csim_Resources : ResourceRequirements;
  csim_NodeSelector : gmap string string;
  csim_Tolerations : list Toleration;
  csim_UpdateStrategy : string;
}.
Record CSIStorageClassSpec := {
  csis_Name : string;
  csis_IsDefaultClass : bool;
  csis_ReclaimPolicy : option string;
  csis_VolumeBindingMode : option string;
  csis_AllowVolumeExpansion : option bool;
  csis_Parameters : gmap string string;
  csis_MountOptions : list string;
}.
Record SeaweedCSIDriverSpec := {
  csi_SeaweedRef : option SeaweedReference;
  csi_FilerAddress : string;
  csi_DriverName : string;
  csi_Image : string;
  csi_ImagePullPolicy : option string;
  csi_ImagePullSecrets : list string;
  csi_LogVerbosity : option Z;
  csi_CacheCapacityMB : option Z;
  csi_ConcurrentWriters : option Z;
  csi_ConcurrentReaders : option Z;
  csi_Sidecars : CSISidecarImages;
  csi_Controller : CSIControllerSpec;
  csi_Node : CSINodeSpec;
  csi_MountService : CSIMountServiceSpec;
  csi_StorageClass : option CSIStorageClassSpec;
}.
Definition CSIDriverPhasePending : string := "Pending".
Definition CSIDriverPhaseReady : string := "Ready".
Definition CSIDriverPhaseDegraded : string := "Degraded".
Definition CSIDriverPhaseFailed : string := "Failed".
Definition CSIDriverPhaseTerminating : string := "Terminating".
Definition CSIConditionReady : string := "Ready".
Definition CSIConditionClusterReachable : string := "ClusterReachable".
Definition CSIConditionReferenceGranted : string := "ReferenceGranted".
Definition CSIConditionControllerAvailable : string := "ControllerAvailable".
Definition CSIConditionNodeAvailable : string := "NodeAvailable".
Definition CSIConditionDriverNameConflict : string := "DriverNameConflict".
Record CSIComponentStatus := {
  csicomp_Desired : Z;
  csicomp_Ready : Z;
}.
Record SeaweedCSIDriverStatus := {
  csist_ObservedGeneration : Z;
  csist_Phase : string;
  csist_Conditions : list Condition;
  csist_DriverName : string;
  csist_ResolvedFilerAddress : string;
  csist_Controller : CSIComponentStatus;
  csist_Node : CSIComponentStatus;
}.
Record SeaweedCSIDriver := {
  csi_Meta : ObjectMeta;
  csi_Spec : SeaweedCSIDriverSpec;
  csi_Status : SeaweedCSIDriverStatus;
}.
