(* ===== verification/Effects.v ===== *)
(** * Effects

    The calls the controllers make: the controller-runtime client ([kubeE]), the
    IAM admin interface of iam_admin.go ([iamE]), the bucket admin interface of
    bucket_admin.go ([bucketE]) and the volume admin interface of
    volume_admin.go ([volumeE]).  The third-party helpers that are pure are the
    class [ApiMachinery], with what the code relies on as [ApiMachineryLaws]. *)
From S2P Require Import Prelude Prog CoreTypes ApiTypes.

(** ** The Kubernetes client *)
Inductive Kind :=
| KSeaweed | KSecret | KNamespace | KStatefulSet | KGrant
| KS3Identity | KS3Policy | KS3PolicyBinding | KS3Credentials | KS3OIDCProvider
| KBucket | KLifecyclePolicy | KBackup | KRestore | KJob | KConfigMap | KDeployment | KDaemonSet
| KPod | KService | KServiceMonitor | KIngress | KIssuer | KCertificate
| KAdminScript | KCronJob | KSeaweedCSIDriver | KServiceAccount | KClusterRole | KClusterRoleBinding
| KRole | KRoleBinding | KCSIDriver | KStorageClass.

Definition Obj (k : Kind) : Type :=
  match k with
  | KSeaweed => Seaweed
  | KSecret => Secret
  | KNamespace => NamespaceObj
  | KStatefulSet => StatefulSet
  | KGrant => ResourceReferenceGrant
  | KS3Identity => S3Identity
  | KS3Policy => S3Policy
  | KS3PolicyBinding => S3PolicyBinding
  | KS3Credentials => S3Credentials
  | KS3OIDCProvider => S3OIDCProvider
  | KBucket => Bucket
  | KLifecyclePolicy => BucketLifecyclePolicy
  | KBackup => SeaweedBackup
  | KRestore => SeaweedRestore
  | KJob => Job
  | KConfigMap => ConfigMap
  | KDeployment => Deployment
  | KDaemonSet => DaemonSet
  | KPod => Pod
  | KService => Service
  | KServiceMonitor => ServiceMonitor
  | KIngress => Ingress
  | KIssuer => Issuer
  | KCertificate => Certificate
  | KAdminScript => AdminScript
  | KCronJob => CronJob
  | KSeaweedCSIDriver => SeaweedCSIDriver
  | KServiceAccount => ServiceAccount
  | KClusterRole | KRole => Role
  | KClusterRoleBinding | KRoleBinding => RoleBinding
  | KCSIDriver => CSIDriver
  | KStorageClass => StorageClass
  end.

#[global] Arguments Obj : simpl never.

(** [types.NamespacedName] *)
Record NamespacedName := { nn_Namespace : string; nn_Name : string }.
#[export] Instance NamespacedName_eq_dec : EqDecision NamespacedName.
Proof. solve_decision. Defined.

(** [KUpdate] is [r.Update], [KStatusUpdate] is [r.Status().Update]; [KPatch]
    and [KStatusPatch] return the object as decoded from the response, which
    the client writes back into its argument.  [KDeleteUID] is a delete with a
    precondition on the UID, [KDeleteAllOf] is [r.DeleteAllOf] with a label selector,
    and [KCreateOrUpdate] is [controllerutil.CreateOrUpdate] of controller-runtime:
    it creates the mutated object when there is none of its name, and otherwise
    mutates the existing one and updates it if that changed it. *)
Inductive kubeE : Type -> Type :=
| KGet (k : Kind) (key : NamespacedName) : kubeE (result (Obj k))
| KList (k : Kind) (ns : option string) (labels : gmap string string)
    : kubeE (result (list (Obj k)))
| KCreate (k : Kind) (o : Obj k) : kubeE (option error)
| KUpdate (k : Kind) (o : Obj k) : kubeE (option error)
| KStatusUpdate (k : Kind) (o : Obj k) : kubeE (option error)
| KPatch (k : Kind) (base o : Obj k) : kubeE (result (Obj k))
| KStatusPatch (k : Kind) (base o : Obj k) : kubeE (option error)
| KDelete (k : Kind) (o : Obj k) : kubeE (option error)
| KDeleteUID (k : Kind) (o : Obj k) (uid : string) : kubeE (option error)
| KDeleteAllOf (k : Kind) (labels : gmap string string) : kubeE (option error)
| KCreateOrUpdate (k : Kind) (o : Obj k) (mutate : Obj k -> result (Obj k)) : kubeE (option error).

(** ** Admin clients

    [filerTarget] of iam_controller_common.go.  A [grpc.DialOption] is opaque;
    it is identified by the (ca, cert, key) it was built from. *)
Definition DialOption := option (string * string * string).
Record filerTarget := {
  address : string;
  adminSigningKey : string;
  grpcDialOption : DialOption;
  tlsFingerprint : string;
}.

(** [swadmin.IAMCredential], [swadmin.IAMUser] and [swadmin.OIDCProvider]. *)
Record IAMCredential := {
  AccessKey : string;
  SecretKey : string;
}.
Record IAMUser := {
  user_Name : string;
  user_Disabled : bool;
  user_DisplayName : string;
  user_Email : string;
  user_PolicyNames : list string;
  user_Credentials : list IAMCredential;
}.
Record OIDCProvider := {
  IssuerURL : string;
  ClientIDs : list string;
  Thumbprints : list string;
}.
#[export] Instance IAMCredential_eq_dec : EqDecision IAMCredential.
Proof. solve_decision. Defined.

(** The [IAMAdmin] interface (iam_admin.go).  [GetUser] may return a nil user
    with a nil error. *)
Inductive iamE : Type -> Type :=
| GetUser (name : string) : iamE (result (option IAMUser))
| CreateUser (name displayName email : string) (disabled : bool) : iamE (option error)
| SetUserState (name displayName email : string) (disabled : bool) : iamE (option error)
| DeleteUser (name : string) : iamE (option error)
| CreateAccessKey (user accessKey secretKey : string) : iamE (option error)
| UpdateAccessKey (user accessKey secretKey : string) : iamE (option error)
| DeleteAccessKey (user accessKey : string) : iamE (option error)
| PutPolicy (name document : string) : iamE (option error)
| GetPolicy (name : string) : iamE (result string)
| DeletePolicy (name : string) : iamE (option error)
| AttachPolicy (user policy : string) : iamE (option error)
| DetachPolicy (user policy : string) : iamE (option error)
| PutOIDCProvider (provider : OIDCProvider) : iamE (result string)
| DeleteOIDCProvider (issuerURL : string) : iamE (option error).

(** [BucketCollectionStats] and the [BucketAdmin] interface (bucket_admin.go). *)
Record BucketCollectionStats := {
  FileCount : Z;
  SizeBytes : Z;
}.
Inductive bucketE : Type -> Type :=
| BucketExists (name : string) : bucketE (result bool)
| CreateBucket (name owner : string) (withLock : bool) : bucketE (option error)
| DeleteBucket (name : string) : bucketE (option error)
| SetVersioning (name status : string) : bucketE (option error)
| EnableObjectLock (name : string) : bucketE (option error)
| SetQuota (name : string) (sizeMiB : Z) (enforce : bool) : bucketE (option error)
| RemoveQuota (name : string) : bucketE (option error)
| SetOwner (name owner : string) : bucketE (option error)
| RemoveOwner (name : string) : bucketE (option error)
| SetAccess (name user actions : string) : bucketE (option error)
| Configure (prefix : string) (args : list string) : bucketE (option error)
| GetBucketLifecycle (name : string) : bucketE (result string)
| SetBucketLifecycle (name xml : string) : bucketE (option error)
| ClearLegacyBucketTTLs (name : string) : bucketE (option error)
| ListCollectionStats : bucketE (result (gmap string BucketCollectionStats)).

(** The [VolumeAdmin] interface (volume_admin.go). *)
Inductive volumeE : Type -> Type :=
| VolumeServerVolumeCounts : volumeE (result (gmap string Z))
| EvacuateServer (node : string) : volumeE (option error).

(** The evacuation tracker (volume_evacuation.go) as the reconciler uses it; its
    implementation is the subject of [VolumeEvac.Tracker]. *)
Inductive trackE : Type -> Type :=
| TLastErr (node : string) : trackE (option error)
| TStart (node masters : string) (d : DialOption) : trackE bool
| TForget (node : string) : trackE ().

(** ** All effects

    [OAdminFactory] and [OBucketFactory] build an admin client; the calls on an
    admin carry the target it was built for.  [ORandRead] is [rand.Read] of
    crypto/rand and [ONow] the clock.  [OGenerateKeyPair] is
    [swadmin.GenerateKeyPair]; [OMonitorAvailable] reads the cached result of the
    probe for the ServiceMonitor kind and [OMonitorUnavailable] clears it; [ODialTLS] is [swadmin.ClientTLSDialOption],
    which can fail on the material it is given. *)
Inductive opE : Type -> Type :=
| OKube {X} (e : kubeE X) : opE X
| OAdminFactory (t : filerTarget) : opE (option error)
| OIam {X} (t : filerTarget) (e : iamE X) : opE X
| OBucketFactory (masters : string) (t : filerTarget) : opE (option error)
| OBucket {X} (masters : string) (t : filerTarget) (e : bucketE X) : opE X
| OVolumeFactory (masters : string) (d : DialOption) : opE (option error)
| OVolume {X} (masters : string) (d : DialOption) (e : volumeE X) : opE X
| OTrack {X} (e : trackE X) : opE X
| ODialTLS (ca cert key : string) : opE (option error)
| OGenerateKeyPair : opE (result (string * string))
| ORandRead (n : nat) : opE (result string)
| OMonitorAvailable : opE bool
| OMonitorUnavailable : opE ()
| ONow : opE Time
| OEvent (eventtype reason message : string) : opE ().

Abbreviation op := (prog opE).
Definition kube {X} (e : kubeE X) : op X := call (OKube e).
Definition iam {X} (t : filerTarget) (e : iamE X) : op X := call (OIam t e).
Definition bkt {X} (masters : string) (t : filerTarget) (e : bucketE X) : op X :=
  call (OBucket masters t e).

(** ** Reconcile results *)
Record Result := {
  Requeue : bool;
  RequeueAfter : Z;
}.
#[export] Instance Result_eq_dec : EqDecision Result.
Proof. solve_decision. Defined.
Definition noResult : Result := {| Requeue := false; RequeueAfter := 0 |}.
Definition requeueNow : Result := {| Requeue := true; RequeueAfter := 0 |}.
Definition requeueIn (d : Z) : Result := {| Requeue := false; RequeueAfter := d |}.

(** A handler returns [(ctrl.Result, error)] or panics. *)
Inductive outcome :=
| Done (r : Result) (err : option error)
| Panic.

(** How a function that returns [(T, error)] can end without a value: with its error,
    or in a panic, which ends the handler too.  Functions that cannot panic fail with an
    [error] alone. *)
Inductive failure :=
| Failed (err : error)
| Panicked.
Class Fails (E : Type) := {
  failed : error -> E;
  outcome_of : E -> outcome;
}.
#[export] Instance error_fails : Fails error :=
  {| failed e := e; outcome_of e := Done noResult (Some e) |}.
#[export] Instance failure_fails : Fails failure :=
  {| failed := Failed;
     outcome_of f := match f with Failed e => Done noResult (Some e) | Panicked => Panic end |}.

Definition Second : Z := 1000000000.
Definition Minute : Z := (60 * Second)%Z.
Definition requeueAfterTransient : Z := (30 * Second)%Z.
Definition iamResyncInterval : Z := (5 * Minute)%Z.

(** ** Third-party pure helpers

    [apimachinery]'s condition list, [controllerutil]'s finalizers (on the
    finalizer list) and [metav1.LabelSelectorAsSelector(..).Matches], [None]
    being an invalid selector. *)
Class ApiMachinery := {
  SetStatusCondition : list Condition -> Condition -> list Condition;
  RemoveStatusCondition : list Condition -> string -> list Condition;
  ContainsFinalizer : list string -> string -> bool;
  AddFinalizer : list string -> string -> list string;
  RemoveFinalizer : list string -> string -> list string;
  SelectorMatches : LabelSelector -> gmap string string -> option bool;
}.

Definition FindStatusCondition (cs : list Condition) (ty : string) : option Condition :=
  snd <$> list_find (fun c => cond_Type c = ty) cs.

Class ApiMachineryLaws `{ApiMachinery} := {
  find_set_same cs c :
    FindStatusCondition (SetStatusCondition cs c) (cond_Type c) = Some c;
  find_set_other cs c ty :
    ty <> cond_Type c ->
    FindStatusCondition (SetStatusCondition cs c) ty = FindStatusCondition cs ty;
  find_remove_same cs ty : FindStatusCondition (RemoveStatusCondition cs ty) ty = None;
  find_remove_other cs ty ty' :
    ty' <> ty ->
    FindStatusCondition (RemoveStatusCondition cs ty) ty' = FindStatusCondition cs ty';
  contains_spec fs f : ContainsFinalizer fs f = true <-> f ∈ fs;
  add_spec fs f g : g ∈ AddFinalizer fs f <-> g = f \/ g ∈ fs;
  remove_spec fs f g : g ∈ RemoveFinalizer fs f <-> g ∈ fs /\ g <> f;
}.

Definition with_finalizers (m : ObjectMeta) (fs : list string) : ObjectMeta := {|
  Name := Name m; Namespace := Namespace m; Generation := Generation m;
  CreationTimestamp := CreationTimestamp m; DeletionTimestamp := DeletionTimestamp m;
  Labels := Labels m; Annotations := Annotations m; Finalizers := fs;
  OwnerReferences := OwnerReferences m; UID := UID m |}.

(** [controllerutil.SetControllerReference] and [metav1.IsControlledBy], on the
    metadata; the kind of the owner comes from the scheme. *)
Class Owners := {
  SetControllerReference : ObjectMeta -> string -> ObjectMeta -> result ObjectMeta;
  IsControlledBy : ObjectMeta -> ObjectMeta -> bool;
}.
Definition with_owners (m : ObjectMeta) (os : list OwnerReference) : ObjectMeta := {|
  Name := Name m; Namespace := Namespace m; Generation := Generation m;
  CreationTimestamp := CreationTimestamp m; DeletionTimestamp := DeletionTimestamp m;
  Labels := Labels m; Annotations := Annotations m; Finalizers := Finalizers m;
  OwnerReferences := os; UID := UID m |}.
Class OwnersLaws `{Owners} := {
  set_controller_owners owner kind m m' :
    SetControllerReference owner kind m = Ok m' -> exists os, m' = with_owners m os;
  set_controller_fresh owner kind m :
    OwnerReferences m = [] -> exists m', SetControllerReference owner kind m = Ok m';
  set_controller_controls owner kind m m' :
    SetControllerReference owner kind m = Ok m' -> IsControlledBy m' owner = true;
}.
