(* ===== verification/Machinery.v ===== *)
(** * A reference implementation of the third-party helpers

    The theorems hold for every [ApiMachinery] that satisfies
    [ApiMachineryLaws]; this instance shows the laws can hold and lets the
    models be evaluated.  It also holds the sample metadata of the evaluations. *)
From S2P Require Import Prelude Prog CoreTypes ApiTypes Effects.

Fixpoint set_condition (cs : list Condition) (c : Condition) : list Condition :=
  match cs with
  | [] => [c]
  | d :: cs' => if decide (cond_Type d = cond_Type c) then c :: cs'
                else d :: set_condition cs' c
  end.

Definition match_expression (labels : gmap string string)
    (e : string * string * list string) : option bool :=
  let '(key, o, values) := e in
  let present := bool_decide (is_Some (labels !! key)) in
  let member := match labels !! key with
                | Some v => bool_decide (v ∈ values) | None => false end in
  if decide (o = "In") then Some member
  else if decide (o = "NotIn") then Some (negb member)
  else if decide (o = "Exists") then Some present
  else if decide (o = "DoesNotExist") then Some (negb present)
  else None.

Definition selector_matches (s : LabelSelector) (labels : gmap string string) : option bool :=
  foldr (fun e r => match match_expression labels e, r with
                    | Some a, Some b => Some (a && b) | _, _ => None end)
    (Some (bool_decide (map_Forall (fun k v => labels !! k = Some v) (sel_MatchLabels s))))
    (sel_MatchExpressions s).

#[export] Instance machinery : ApiMachinery := {|
  SetStatusCondition := set_condition;
  RemoveStatusCondition cs ty := filter (fun c => cond_Type c <> ty) cs;
  ContainsFinalizer fs f := bool_decide (f ∈ fs);
  AddFinalizer fs f := if decide (f ∈ fs) then fs else fs ++ [f];
  RemoveFinalizer fs f := filter (fun g => g <> f) fs;
  SelectorMatches := selector_matches;
|}.

Lemma FindStatusCondition_cons c cs ty :
  FindStatusCondition (c :: cs) ty =
  if decide (cond_Type c = ty) then Some c else FindStatusCondition cs ty.
Proof.
  unfold FindStatusCondition; simpl. case_decide; [done|].
  by destruct (list_find _ cs) as [[i d]|].
Qed.

#[export] Instance machinery_laws : ApiMachineryLaws.
Proof.
  split; simpl; intros.
  - induction cs as [|d cs IH]; simpl; [by rewrite FindStatusCondition_cons, decide_True|].
    case_decide as Hd; rewrite FindStatusCondition_cons;
      [by rewrite decide_True|by rewrite decide_False].
  - induction cs as [|d cs IH]; simpl; [by rewrite FindStatusCondition_cons, decide_False|].
    case_decide as Hd; rewrite !FindStatusCondition_cons.
    + rewrite !decide_False; congruence.
    + by rewrite IH.
  - induction cs as [|d cs IH]; [done|]. rewrite filter_cons.
    case_decide; [by rewrite FindStatusCondition_cons, decide_False|done].
  - induction cs as [|d cs IH]; [done|].
    rewrite filter_cons, (FindStatusCondition_cons d cs).
    case_decide as Hd; [by rewrite FindStatusCondition_cons, IH|].
    rewrite decide_False; congruence.
  - by rewrite bool_decide_eq_true.
  - case_decide; set_solver.
  - rewrite list_elem_of_filter. naive_solver.
Qed.

Definition controller_of (m : ObjectMeta) : option OwnerReference :=
  List.find owner_Controller (OwnerReferences m).
Definition owner_ref (owner : ObjectMeta) (kind : string) : OwnerReference := {|
  owner_Kind := kind; owner_Name := Name owner; owner_Controller := true; owner_UID := UID owner |}.
#[export] Instance owners : Owners := {|
  SetControllerReference owner kind m :=
    match controller_of m with
    | Some r => if bool_decide (owner_UID r = UID owner) then Ok (with_owners m (OwnerReferences m))
                else Err (ErrOther "already owned by another controller")
    | None => Ok (with_owners m (OwnerReferences m ++ [owner_ref owner kind]))
    end;
  IsControlledBy m owner :=
    match controller_of m with Some r => bool_decide (owner_UID r = UID owner) | None => false end;
|}.
#[export] Instance owners_laws : OwnersLaws.
Proof.
  split; simpl.
  - intros owner kind m m'. repeat case_match; intros [= <-]; by eexists.
  - intros owner kind m Hm. unfold controller_of. rewrite Hm. by eexists.
  - intros owner kind m m'. destruct (controller_of m) as [r|] eqn:Hc.
    + case_bool_decide as Hu; intros [= <-]. unfold controller_of in *. simpl. rewrite Hc.
      by apply bool_decide_eq_true.
    + intros [= <-]. unfold controller_of in *. simpl.
      induction (OwnerReferences m) as [|r l IH]; simpl; [by apply bool_decide_eq_true|].
      simpl in Hc. destruct (owner_Controller r); [done|]. by apply IH.
Qed.

(** Sample metadata. *)
Definition sample_meta (ns name : string) (created : Time) : ObjectMeta := {|
  Name := name; Namespace := ns; Generation := 1; CreationTimestamp := created;
  DeletionTimestamp := None; Labels := ∅; Annotations := ∅; Finalizers := [];
  OwnerReferences := []; UID := "" |}.
