(* ===== verification/Sim.v ===== *)
(** * A reference environment

    A deterministic handler for all the effects over an in-memory cluster: the
    objects of the API server by kind, the IAM users, policies and OIDC providers
    of a filer, its buckets and the volume counts of its volume servers.  The
    theorems quantify over environments; this one shows their hypotheses can
    hold and lets the models run on concrete inputs. *)
From S2P Require Import Prelude Prog CoreTypes ApiTypes Effects.

Definition obj_meta {k : Kind} : Obj k -> ObjectMeta :=
  match k with
  | KSeaweed => sw_Meta | KSecret => sec_Meta | KNamespace => ns_Meta
  | KStatefulSet => sts_Meta | KGrant => grant_Meta | KS3Identity => id_Meta
  | KS3Policy => pol_Meta | KS3PolicyBinding => bind_Meta | KS3Credentials => cred_Meta
  | KS3OIDCProvider => oidc_Meta | KBucket => b_Meta | KLifecyclePolicy => lp_Meta
  | KBackup => bk_Meta | KRestore => rs_Meta | KJob => job_Meta | KConfigMap => cm_Meta
  | KDeployment => dep_Meta | KDaemonSet => ds_Meta
  | KPod => p_Meta | KService => svc_Meta | KServiceMonitor => sm_Meta | KIngress => ing_Meta
  | KIssuer => iss_Meta | KCertificate => crt_Meta
  | KAdminScript => as_Meta | KCronJob => cron_Meta | KSeaweedCSIDriver => csi_Meta
  | KServiceAccount => sa_Meta | KClusterRole => role_Meta | KRole => role_Meta
  | KClusterRoleBinding => rb_Meta | KRoleBinding => rb_Meta
  | KCSIDriver => csid_Meta | KStorageClass => sc_Meta
  end.

Definition obj_key {k : Kind} (o : Obj k) : NamespacedName :=
  {| nn_Namespace := Namespace (obj_meta o); nn_Name := Name (obj_meta o) |}.

#[export] Instance Kind_eq_dec : EqDecision Kind.
Proof. solve_decision. Defined.

Record SimBucket := {
  sb_Owner : string;
  sb_ObjectLock : bool;
  sb_Versioning : string;
  sb_Quota : option (Z * bool);
  sb_Access : gmap string string;
  sb_Lifecycle : string;
}.

Record Sim := {
  sim_objs : forall k, list (Obj k);
  sim_users : gmap string IAMUser;
  sim_policies : gmap string string;
  sim_oidc : gmap string string;
  sim_buckets : gmap string SimBucket;
  sim_counts : gmap string Z;
}.

Definition sim_empty : Sim :=
  {| sim_objs := fun _ => []; sim_users := ∅; sim_policies := ∅; sim_oidc := ∅;
     sim_buckets := ∅; sim_counts := ∅ |}.

Definition set_objs (k : Kind) (l : list (Obj k)) (s : Sim) : Sim :=
  {| sim_objs := fun k' => match decide (k = k') with
                           | left e => eq_rect k (fun k => list (Obj k)) l k' e
                           | right _ => sim_objs s k'
                           end;
     sim_users := sim_users s; sim_policies := sim_policies s; sim_oidc := sim_oidc s;
     sim_buckets := sim_buckets s; sim_counts := sim_counts s |}.
Definition set_users (u : gmap string IAMUser) (s : Sim) : Sim :=
  {| sim_objs := sim_objs s; sim_users := u; sim_policies := sim_policies s;
     sim_oidc := sim_oidc s; sim_buckets := sim_buckets s; sim_counts := sim_counts s |}.
Definition set_policies (p : gmap string string) (s : Sim) : Sim :=
  {| sim_objs := sim_objs s; sim_users := sim_users s; sim_policies := p;
     sim_oidc := sim_oidc s; sim_buckets := sim_buckets s; sim_counts := sim_counts s |}.
Definition set_oidc (p : gmap string string) (s : Sim) : Sim :=
  {| sim_objs := sim_objs s; sim_users := sim_users s; sim_policies := sim_policies s;
     sim_oidc := p; sim_buckets := sim_buckets s; sim_counts := sim_counts s |}.
Definition set_buckets (b : gmap string SimBucket) (s : Sim) : Sim :=
  {| sim_objs := sim_objs s; sim_users := sim_users s; sim_policies := sim_policies s;
     sim_oidc := sim_oidc s; sim_buckets := b; sim_counts := sim_counts s |}.
Definition set_counts (c : gmap string Z) (s : Sim) : Sim :=
  {| sim_objs := sim_objs s; sim_users := sim_users s; sim_policies := sim_policies s;
     sim_oidc := sim_oidc s; sim_buckets := sim_buckets s; sim_counts := c |}.

(** ** The API server *)
Definition in_namespace {k} (ns : option string) (o : Obj k) : bool :=
  match ns with None => true | Some n => bool_decide (Namespace (obj_meta o) = n) end.
Definition has_labels {k} (ls : gmap string string) (o : Obj k) : bool :=
  bool_decide (map_Forall (fun key v => Labels (obj_meta o) !! key = Some v) ls).
Definition same_key {k} (o o' : Obj k) : bool := bool_decide (obj_key o = obj_key o').
Definition replace_obj {k} (o : Obj k) (l : list (Obj k)) : list (Obj k) :=
  map (fun o' => if same_key o o' then o else o') l.

Definition sim_kube {X} (e : kubeE X) (s : Sim) : Sim * X :=
  match e in kubeE X return Sim * X with
  | KGet k key =>
      (s, match List.find (fun o => bool_decide (obj_key o = key)) (sim_objs s k) with
          | Some o => Ok o
          | None => Err (ErrNotFound "not found")
          end)
  | KList k ns ls =>
      (s, Ok (List.filter (fun o => in_namespace ns o && has_labels ls o) (sim_objs s k)))
  | KCreate k o =>
      if existsb (same_key o) (sim_objs s k) then (s, Some (ErrAlreadyExists "already exists"))
      else (set_objs k (sim_objs s k ++ [o]) s, None)
  | KUpdate k o | KStatusUpdate k o | KStatusPatch k _ o =>
      (set_objs k (replace_obj o (sim_objs s k)) s, None)
  | KPatch k _ o => (set_objs k (replace_obj o (sim_objs s k)) s, Ok o)
  | KDelete k o =>
      (set_objs k (List.filter (fun o' => negb (same_key o o')) (sim_objs s k)) s, None)
  | KDeleteUID k o uid =>
      match List.find (same_key o) (sim_objs s k) with
      | Some o' =>
          if bool_decide (UID (obj_meta o') = uid)
          then (set_objs k (List.filter (fun o' => negb (same_key o o')) (sim_objs s k)) s, None)
          else (s, Some (ErrConflict "the UID in the precondition differs"))
      | None => (s, Some (ErrNotFound "not found"))
      end
  | KDeleteAllOf k ls =>
      (set_objs k (List.filter (fun o => negb (has_labels ls o)) (sim_objs s k)) s, None)
  | KCreateOrUpdate k o f =>
      match List.find (same_key o) (sim_objs s k) with
      | Some o' => match f o' with
                   | inr new => (set_objs k (replace_obj new (sim_objs s k)) s, None)
                   | inl err => (s, Some err)
                   end
      | None => match f o with
                | inr new => (set_objs k (sim_objs s k ++ [new]) s, None)
                | inl err => (s, Some err)
                end
      end
  end.

(** ** The IAM service behind the admin interface *)
Definition with_user (s : Sim) (name : string) (f : IAMUser -> option IAMUser)
    : Sim * option error :=
  match sim_users s !! name with
  | None => (s, Some ErrIAMNotFound)
  | Some u => match f u with
              | None => (s, Some ErrIAMNotFound)
              | Some u' => (set_users (<[name := u']> (sim_users s)) s, None)
              end
  end.
Definition new_user (name displayName email : string) (disabled : bool) : IAMUser :=
  {| user_Name := name; user_Disabled := disabled; user_DisplayName := displayName;
     user_Email := email; user_PolicyNames := []; user_Credentials := [] |}.
Definition user_state (displayName email : string) (disabled : bool) (u : IAMUser) :=
  {| user_Name := user_Name u; user_Disabled := disabled; user_DisplayName := displayName;
     user_Email := email; user_PolicyNames := user_PolicyNames u;
     user_Credentials := user_Credentials u |}.
Definition user_policies (ps : list string) (u : IAMUser) :=
  {| user_Name := user_Name u; user_Disabled := user_Disabled u;
     user_DisplayName := user_DisplayName u; user_Email := user_Email u;
     user_PolicyNames := ps; user_Credentials := user_Credentials u |}.
Definition user_creds (cs : list IAMCredential) (u : IAMUser) :=
  {| user_Name := user_Name u; user_Disabled := user_Disabled u;
     user_DisplayName := user_DisplayName u; user_Email := user_Email u;
     user_PolicyNames := user_PolicyNames u; user_Credentials := cs |}.

(** The first credential under the access key gets the new secret key. *)
Fixpoint update_first (ak sk : string) (l : list IAMCredential) : list IAMCredential :=
  match l with
  | [] => []
  | c :: l' => if bool_decide (AccessKey c = ak) then {| AccessKey := ak; SecretKey := sk |} :: l'
               else c :: update_first ak sk l'
  end.

Definition sim_iam {X} (e : iamE X) (s : Sim) : Sim * X :=
  match e in iamE X return Sim * X with
  | GetUser n => (s, match sim_users s !! n with
                     | Some u => Ok (Some u) | None => Err ErrIAMNotFound end)
  | CreateUser n d m b =>
      match sim_users s !! n with
      | Some _ => (s, Some ErrIAMUserAlreadyExists)
      | None => (set_users (<[n := new_user n d m b]> (sim_users s)) s, None)
      end
  | SetUserState n d m b => with_user s n (fun u => Some (user_state d m b u))
  | DeleteUser n => (set_users (delete n (sim_users s)) s, None)
  | CreateAccessKey n ak sk =>
      with_user s n (fun u =>
        Some (user_creds (user_Credentials u ++ [{| AccessKey := ak; SecretKey := sk |}]) u))
  | UpdateAccessKey n ak sk =>
      with_user s n (fun u =>
        if existsb (fun c => bool_decide (AccessKey c = ak)) (user_Credentials u)
        then Some (user_creds (update_first ak sk (user_Credentials u)) u)
        else None)
  | DeleteAccessKey n ak =>
      let '(s', _) := with_user s n (fun u =>
        Some (user_creds (List.filter (fun c => negb (bool_decide (AccessKey c = ak)))
                            (user_Credentials u)) u)) in (s', None)
  | PutPolicy n d => (set_policies (<[n := d]> (sim_policies s)) s, None)
  | GetPolicy n => (s, match sim_policies s !! n with
                       | Some d => Ok d | None => Err ErrIAMNotFound end)
  | DeletePolicy n => (set_policies (delete n (sim_policies s)) s, None)
  | AttachPolicy n p =>
      with_user s n (fun u =>
        Some (if bool_decide (p ∈ user_PolicyNames u) then u
              else user_policies (user_PolicyNames u ++ [p]) u))
  | DetachPolicy n p =>
      with_user s n (fun u =>
        Some (user_policies (List.filter (fun q => negb (bool_decide (q = p)))
                               (user_PolicyNames u)) u))
  | PutOIDCProvider p =>
      (set_oidc (<[IssuerURL p := "arn:" +:+ IssuerURL p]> (sim_oidc s)) s,
       Ok ("arn:" +:+ IssuerURL p))
  | DeleteOIDCProvider u => (set_oidc (delete u (sim_oidc s)) s, None)
  end.

(** ** The filer's buckets *)
Definition with_bucket (s : Sim) (name : string) (f : SimBucket -> SimBucket)
    : Sim * option error :=
  match sim_buckets s !! name with
  | None => (s, Some ErrBucketNotFound)
  | Some b => (set_buckets (<[name := f b]> (sim_buckets s)) s, None)
  end.
Definition mk_bucket o l v q a y : SimBucket :=
  {| sb_Owner := o; sb_ObjectLock := l; sb_Versioning := v; sb_Quota := q;
     sb_Access := a; sb_Lifecycle := y |}.

Definition sim_bucket {X} (e : bucketE X) (s : Sim) : Sim * X :=
  match e in bucketE X return Sim * X with
  | BucketExists n => (s, Ok (bool_decide (is_Some (sim_buckets s !! n))))
  | CreateBucket n o l =>
      match sim_buckets s !! n with
      | Some _ => (s, Some ErrBucketAlreadyExists)
      | None => (set_buckets (<[n := mk_bucket o l "" None ∅ ""]> (sim_buckets s)) s, None)
      end
  | DeleteBucket n =>
      match sim_buckets s !! n with
      | None => (s, Some ErrBucketNotFound)
      | Some _ => (set_buckets (delete n (sim_buckets s)) s, None)
      end
  | SetVersioning n v => with_bucket s n (fun b =>
      mk_bucket (sb_Owner b) (sb_ObjectLock b) v (sb_Quota b) (sb_Access b) (sb_Lifecycle b))
  | EnableObjectLock n => with_bucket s n (fun b =>
      mk_bucket (sb_Owner b) true (sb_Versioning b) (sb_Quota b) (sb_Access b) (sb_Lifecycle b))
  | SetQuota n q e => with_bucket s n (fun b =>
      mk_bucket (sb_Owner b) (sb_ObjectLock b) (sb_Versioning b) (Some (q, e)) (sb_Access b)
        (sb_Lifecycle b))
  | RemoveQuota n => with_bucket s n (fun b =>
      mk_bucket (sb_Owner b) (sb_ObjectLock b) (sb_Versioning b) None (sb_Access b)
        (sb_Lifecycle b))
  | SetOwner n o => with_bucket s n (fun b =>
      mk_bucket o (sb_ObjectLock b) (sb_Versioning b) (sb_Quota b) (sb_Access b) (sb_Lifecycle b))
  | RemoveOwner n => with_bucket s n (fun b =>
      mk_bucket "" (sb_ObjectLock b) (sb_Versioning b) (sb_Quota b) (sb_Access b) (sb_Lifecycle b))
  | SetAccess n u a => with_bucket s n (fun b =>
      mk_bucket (sb_Owner b) (sb_ObjectLock b) (sb_Versioning b) (sb_Quota b)
        (if bool_decide (a = "none") then delete u (sb_Access b) else <[u := a]> (sb_Access b))
        (sb_Lifecycle b))
  | Configure _ _ => (s, None)
  | GetBucketLifecycle n => (s, match sim_buckets s !! n with
                                | Some b => Ok (sb_Lifecycle b)
                                | None => Err ErrBucketNotFound end)
  | SetBucketLifecycle n x => with_bucket s n (fun b =>
      mk_bucket (sb_Owner b) (sb_ObjectLock b) (sb_Versioning b) (sb_Quota b) (sb_Access b) x)
  | ClearLegacyBucketTTLs _ => (s, None)
  | ListCollectionStats => (s, Ok ∅)
  end.

Definition sim_volume {X} (e : volumeE X) (s : Sim) : Sim * X :=
  match e in volumeE X return Sim * X with
  | VolumeServerVolumeCounts => (s, Ok (sim_counts s))
  | EvacuateServer n => (set_counts (<[n := 0%Z]> (sim_counts s)) s, None)
  end.

Definition sim : Handler opE Sim := fun X e s =>
  match e in opE X return Sim * X with
  | OKube e => sim_kube e s
  | OAdminFactory _ | OBucketFactory _ _ | OVolumeFactory _ _ | ODialTLS _ _ _ => (s, None)
  | OIam _ e => sim_iam e s
  | OBucket _ _ e => sim_bucket e s
  | OVolume _ _ e => sim_volume e s
  | OTrack e =>
      match e in trackE X return Sim * X with
      | TLastErr _ => (s, None)
      | TStart _ _ _ => (s, true)
      | TForget _ => (s, tt)
      end
  | OGenerateKeyPair => (s, Ok ("AK", "SK"))
  | OMonitorAvailable => (s, true)
  | OMonitorUnavailable => (s, tt)
  | ORandRead n => (s, Ok (String.concat "" (repeat "r" n)))
  | ONow => (s, 1%Z)
  | OEvent _ _ _ => (s, tt)
  end.
