(* ===== verification/Store.v ===== *)
(** * The objects of an API server that works

    A store of all objects by kind and key, for the environments of the convergence
    theorems, and what a read of it answers. *)
From S2P Require Import Prelude Prog CoreTypes ApiTypes Effects Machinery Sim.

Definition Store := forall k, NamespacedName -> option (Obj k).
Definition put (s : Store) (k : Kind) (key : NamespacedName) (o : option (Obj k)) : Store := fun k' key' =>
  match decide (k = k') with
  | left E => if decide (key = key') then eq_rect k (fun k => option (Obj k)) o k' E else s k' key'
  | right _ => s k' key'
  end.
Lemma put_same s k key o : put s k key o k key = o.
Proof.
  unfold put. destruct (decide (k = k)) as [E|]; [|done]. rewrite decide_True by done.
  by rewrite (proof_irrel E eq_refl).
Qed.
Lemma put_other s k key o k' key' : (k, key) <> (k', key') -> put s k key o k' key' = s k' key'.
Proof.
  intros Hne. unfold put. destruct (decide (k = k')) as [->|]; [|done]. rewrite decide_False; [done|]. congruence.
Qed.

(** A read answers what is there, or that it is not there. *)
Definition found {A} (x : option A) (r : result A) : Prop :=
  match x with
  | Some a => r = Ok a
  | None => exists e, IsNotFound e = true /\ r = Err e
  end.
