(* ===== verification/RefGrant.v ===== *)
(** * Cross-namespace reference grants (internal/controller/referencegrant.go)

    [referenceGrantPermits] decides whether a resource in one namespace may
    reference a resource in another.  The model follows the file function by
    function; the abstract specification is [permitted], and the refinement
    theorem says the code computes it from the grants the API server lists. *)
From Stdlib Require Import Bool.
From S2P Require Import Prelude Prog CoreTypes ApiTypes Effects Machinery Sim.

Definition groupSeaweed : string := "seaweed.seaweedfs.com".
Definition groupCore : string := "".
Definition kindSeaweed : string := "Seaweed".
Definition kindSecret : string := "Secret".
Definition kindS3Identity : string := "S3Identity".
Definition kindS3Credentials : string := "S3Credentials".
Definition kindS3Policy : string := "S3Policy".
Definition kindS3PolicyBinding : string := "S3PolicyBinding".
Definition kindS3OIDCProvider : string := "S3OIDCProvider".
Definition kindBucket : string := "Bucket".

Record referent := {
  r_Group : string;
  r_Kind : string;
  r_Namespace : string;
  r_Name : string;
}.

Section refgrant.
Context `{ApiMachinery}.

Definition fromNamespaceMatches (f : ReferenceGrantFrom) (namespace : string)
    (nsLabels : gmap string string) : bool :=
  match from_NamespaceSelector f with
  | None => bool_decide (from_Namespace f = namespace)
  | Some sel => match SelectorMatches sel nsLabels with
                | None => false
                | Some b => b
                end
  end.

Definition grantAllows (spec : ResourceReferenceGrantSpec) (from to : referent)
    (fromLabels : gmap string string) : bool :=
  let fromMatched :=
    existsb (fun f => bool_decide (from_Group f = r_Group from) &&
                      bool_decide (from_Kind f = r_Kind from) &&
                      fromNamespaceMatches f (r_Namespace from) fromLabels)
      (grant_From spec) in
  if negb fromMatched then false
  else existsb (fun t =>
         if negb (bool_decide (to_Group t = r_Group to)) ||
            negb (bool_decide (to_Kind t = r_Kind to)) then false
         else bool_decide (to_Name t = "") || bool_decide (to_Name t = r_Name to))
       (grant_To spec).

Definition usesSelector (grants : list ResourceReferenceGrant) : bool :=
  existsb (fun g => existsb (fun f => bool_decide (is_Some (from_NamespaceSelector f)))
                      (grant_From (grant_Spec g))) grants.

Definition sourceNamespaceLabels (grants : list ResourceReferenceGrant)
    (namespace : string) : op (result (gmap string string)) :=
  if negb (usesSelector grants) then Ret (Ok ∅)
  else try ns <- kube (KGet KNamespace {| nn_Namespace := ""; nn_Name := namespace |})
         catch err => Ret (Err err);
       Ret (Ok (Labels (ns_Meta ns))).

Definition referenceGrantPermits (from to : referent) : op (result bool) :=
  if bool_decide (r_Namespace from = r_Namespace to) then Ret (Ok true)
  else
    try grants <- kube (KList KGrant (Some (r_Namespace to)) ∅) catch err => Ret (Err err);
    try fromLabels <- sourceNamespaceLabels grants (r_Namespace from)
      catch err => Ret (Err err);
    Ret (Ok (existsb (fun g => grantAllows (grant_Spec g) from to fromLabels) grants)).

Definition refNamespace (ref : SeaweedReference) (own : string) : string :=
  if bool_decide (ref_Namespace ref = "") then own else ref_Namespace ref.

Definition seaweedRefPermitted (ref : SeaweedReference) (fromKind fromNamespace : string)
    : op (result bool) :=
  referenceGrantPermits
    {| r_Group := groupSeaweed; r_Kind := fromKind; r_Namespace := fromNamespace;
       r_Name := "" |}
    {| r_Group := groupSeaweed; r_Kind := kindSeaweed;
       r_Namespace := refNamespace ref fromNamespace; r_Name := ref_Name ref |}.

Definition secretRefPermitted (secretNamespace secretName fromNamespace : string)
    : op (result bool) :=
  referenceGrantPermits
    {| r_Group := groupSeaweed; r_Kind := kindS3Credentials;
       r_Namespace := fromNamespace; r_Name := "" |}
    {| r_Group := groupCore; r_Kind := kindSecret; r_Namespace := secretNamespace;
       r_Name := secretName |}.

(** ** Abstract specification: deny by default. *)
Definition from_covers (f : ReferenceGrantFrom) (from : referent)
    (labels : gmap string string) : Prop :=
  from_Group f = r_Group from /\ from_Kind f = r_Kind from /\
  match from_NamespaceSelector f with
  | None => from_Namespace f = r_Namespace from
  | Some sel => SelectorMatches sel labels = Some true
  end.
Definition to_covers (t : ReferenceGrantTo) (to : referent) : Prop :=
  to_Group t = r_Group to /\ to_Kind t = r_Kind to /\
  (to_Name t = "" \/ to_Name t = r_Name to).
Definition permitted (grants : list ResourceReferenceGrant)
    (labels : gmap string string) (from to : referent) : Prop :=
  r_Namespace from = r_Namespace to \/
  exists g, g ∈ grants /\
    (exists f, f ∈ grant_From (grant_Spec g) /\ from_covers f from labels) /\
    (exists t, t ∈ grant_To (grant_Spec g) /\ to_covers t to).

Lemma existsb_elem {A} (p : A -> bool) l :
  existsb p l = true <-> exists x, x ∈ l /\ p x = true.
Proof. rewrite existsb_exists. by setoid_rewrite <-list_elem_of_In. Qed.

Lemma from_covers_bool f from labels :
  bool_decide (from_Group f = r_Group from) && bool_decide (from_Kind f = r_Kind from) &&
    fromNamespaceMatches f (r_Namespace from) labels = true <-> from_covers f from labels.
Proof.
  unfold from_covers, fromNamespaceMatches.
  rewrite !andb_true_iff, !bool_decide_eq_true.
  destruct (from_NamespaceSelector f) as [sel|]; [|rewrite bool_decide_eq_true; tauto].
  destruct (SelectorMatches sel labels) as [[]|]; naive_solver.
Qed.

Lemma to_covers_bool t to :
  (if negb (bool_decide (to_Group t = r_Group to)) ||
      negb (bool_decide (to_Kind t = r_Kind to)) then false
   else bool_decide (to_Name t = "") || bool_decide (to_Name t = r_Name to)) = true <->
  to_covers t to.
Proof. unfold to_covers. repeat case_bool_decide; simpl; naive_solver. Qed.

Lemma grantAllows_spec spec from to labels :
  grantAllows spec from to labels = true <->
  (exists f, f ∈ grant_From spec /\ from_covers f from labels) /\
  (exists t, t ∈ grant_To spec /\ to_covers t to).
Proof.
  unfold grantAllows. setoid_rewrite <-from_covers_bool.
  setoid_rewrite <-to_covers_bool. rewrite <-!existsb_elem.
  destruct (existsb _ (grant_From spec)); simpl; naive_solver.
Qed.

(** Without selectors the labels are not consulted. *)
Lemma grantAllows_no_selector grants g from to l1 l2 :
  usesSelector grants = false -> g ∈ grants ->
  grantAllows (grant_Spec g) from to l1 = grantAllows (grant_Spec g) from to l2.
Proof.
  intros Hno Hg. apply eq_true_iff_eq. rewrite !grantAllows_spec.
  assert (forall f, f ∈ grant_From (grant_Spec g) -> from_NamespaceSelector f = None) as Hf.
  { intros f Hf. destruct (from_NamespaceSelector f) as [sel|] eqn:Hsel; [|done].
    exfalso. apply not_true_iff_false in Hno. apply Hno, existsb_elem.
    exists g. split; [done|]. apply existsb_elem. exists f.
    rewrite bool_decide_eq_true, Hsel. eauto. }
  unfold from_covers.
  split; intros [(f & Hin & Hc) Ht]; (split; [|done]); exists f; (split; [done|]);
    rewrite (Hf f Hin) in *; done.
Qed.

(** ** Correctness

    The environment: a store of grants per namespace and of namespace labels
    read through the client.  A read changes nothing; it may fail with the
    errors [fails] allows. *)
Section correctness.
Context {S : Type} (env : Env opE S)
  (grants : S -> string -> list ResourceReferenceGrant)
  (nslabels : S -> string -> gmap string string)
  (fails : S -> error -> Prop).
Context
  (list_grants : forall s ns r s1,
     env _ (OKube (KList KGrant (Some ns) ∅)) s r s1 ->
     s1 = s /\ match r with inr l => l = grants s ns | inl e => fails s e end)
  (get_namespace : forall s name r s1,
     env _ (OKube (KGet KNamespace {| nn_Namespace := ""; nn_Name := name |})) s r s1 ->
     s1 = s /\ match r with inr o => Labels (ns_Meta o) = nslabels s name
                          | inl e => fails s e end).

Lemma sourceNamespaceLabels_wp s gs from to :
  wp env (sourceNamespaceLabels gs (r_Namespace from))
    (fun r s1 => s1 = s /\ match r with
       | inr labels => forall g, g ∈ gs ->
           grantAllows (grant_Spec g) from to labels =
           grantAllows (grant_Spec g) from to (nslabels s (r_Namespace from))
       | inl e => fails s e end) s.
Proof using get_namespace.
  unfold sourceNamespaceLabels. destruct (usesSelector gs) eqn:Hu; simpl.
  - intros [e|o] s1 [-> Ho]%get_namespace; simpl; [done|]. by rewrite Ho.
  - split; [done|]. intros g Hg. by eapply grantAllows_no_selector.
Qed.

Lemma referenceGrantPermits_wp s from to :
  wp env (referenceGrantPermits from to)
    (fun r s1 => s1 = s /\ match r with
       | inr b => b = true <-> permitted (grants s (r_Namespace to))
                               (nslabels s (r_Namespace from)) from to
       | inl e => fails s e end) s.
Proof using get_namespace list_grants.
  unfold referenceGrantPermits, permitted. case_bool_decide as Hns; simpl; [naive_solver|].
  intros [e|gs] s1 [-> Hgs]%list_grants; simpl; [done|]. subst gs.
  eapply wp_seq; [apply (sourceNamespaceLabels_wp _ _ _ to)|].
  intros [e|labels] s1 [-> Hl]; simpl; [done|]. split; [done|].
  rewrite existsb_elem. split.
  - intros (g & Hg & Ha). right. exists g. split; [done|].
    by rewrite Hl, grantAllows_spec in Ha.
  - intros [Heq|(g & Hg & Ha)]; [done|]. exists g. split; [done|].
    by rewrite Hl, grantAllows_spec.
Qed.

(** C8. every execution of [referenceGrantPermits]
    leaves the cluster unchanged and answers exactly what the deny-by-default
    specification [permitted] says of the grants in the target namespace and
    of the source namespace's labels: same namespace, or a grant whose from
    entry covers the source and whose to entry covers the target.  The only
    other outcome is the error of a failed read, so a failure never permits. *)
Theorem referenceGrantPermits_refines s s' from to r :
  exec env (referenceGrantPermits from to) s s' r ->
  s' = s /\
  match r with
  | inr b => b = true <-> permitted (grants s (r_Namespace to))
                          (nslabels s (r_Namespace from)) from to
  | inl e => fails s e
  end.
Proof using get_namespace list_grants.
  intros Hx. pose proof (referenceGrantPermits_wp s from to) as Hwp.
  rewrite wp_exec in Hwp. by apply Hwp.
Qed.
End correctness.
End refgrant.

(** A cluster in which namespace [b] grants identities of the namespaces labelled
    [team=x] the use of any Seaweed. *)
Definition sample_grant : ResourceReferenceGrant := {|
  grant_Meta := sample_meta "b" "g" 5%Z;
  grant_Spec := {|
    grant_From := [{| from_Group := groupSeaweed; from_Kind := kindS3Identity;
                      from_Namespace := "";
                      from_NamespaceSelector :=
                        Some {| sel_MatchLabels := {["team" := "x"]};
                                sel_MatchExpressions := [] |} |}];
    grant_To := [{| to_Group := groupSeaweed; to_Kind := kindSeaweed; to_Name := "" |}] |} |}.
Definition sample_ns : NamespaceObj := {|
  ns_Meta := {| Name := "a"; Namespace := ""; Generation := 1; CreationTimestamp := 1%Z;
                DeletionTimestamp := None; Labels := {["team" := "x"]}; Annotations := ∅;
                Finalizers := []; OwnerReferences := []; UID := "" |} |}.
Definition sample_cluster : Sim :=
  set_objs KGrant [sample_grant] (set_objs KNamespace [sample_ns] sim_empty).
Definition sample_from : referent :=
  {| r_Group := groupSeaweed; r_Kind := kindS3Identity; r_Namespace := "a"; r_Name := "" |}.
Definition sample_to : referent :=
  {| r_Group := groupSeaweed; r_Kind := kindSeaweed; r_Namespace := "b"; r_Name := "sw" |}.

(** The grants and labels of the reference environment. *)
Definition sim_grants (s : Sim) (ns : string) : list ResourceReferenceGrant :=
  List.filter (fun o : Obj KGrant => in_namespace (Some ns) o && has_labels ∅ o)
    (sim_objs s KGrant).
Definition sim_nslabels (s : Sim) (name : string) : gmap string string :=
  match List.find (fun o : Obj KNamespace =>
          bool_decide (obj_key o = {| nn_Namespace := ""; nn_Name := name |}))
          (sim_objs s KNamespace) with
  | Some o => Labels (ns_Meta o)
  | None => ∅
  end.

Lemma referenceGrantPermits_refines_witness :
  let r := run sim (referenceGrantPermits sample_from sample_to) sample_cluster in
  r.2 = Ok true /\
  (true = true <-> permitted (sim_grants sample_cluster "b")
                     (sim_nslabels sample_cluster "a") sample_from sample_to).
Proof.
  split; [by vm_compute|].
  refine (proj2 (referenceGrantPermits_refines (env_of sim) sim_grants sim_nslabels
            (fun _ e => e = ErrNotFound "not found") _ _
            sample_cluster _ sample_from sample_to (Ok true)
            (run_exec_eq _ sim _ _ _ (env_of_refines sim) _))).
  - intros s ns r s1 Hx. by injection Hx as <- <-.
  - intros s name r s1 Hx. unfold sim_nslabels. injection Hx as <- <-.
    split; [done|]. by destruct (List.find _ _).
  - by vm_compute.
Defined.
