(* ===== verification/Cluster.v ===== *)
(** * Cluster names, addresses and credentials

    helper.go, controller_tls.go and iam_controller_common.go: the names and
    addresses derived from a Seaweed resource, the reading of the admin signing
    key out of security.toml, the transport credentials and the target of an
    admin client. *)
From Stdlib Require Import Ascii.
From S2P Require Import Prelude Prog CoreTypes ApiTypes Effects RefGrant.


Definition masterAddress (namespace name : string) (i : Z) : string :=
  name +:+ "-master-" +:+ fmt_d i +:+ "." +:+ name +:+ "-master-peer." +:+ namespace +:+ ":9333".

Definition getMasterAddresses (namespace name : string) (replicas : Z) : list string :=
  map (fun i => masterAddress namespace name (Z.of_nat i)) (seq 0 (Z.to_nat replicas)).

(** It dereferences spec.master: [None] is the panic on a cluster without one. *)
Definition getMasterPeersString (m : Seaweed) : option string :=
  (fun s => Join (getMasterAddresses (Namespace (sw_Meta m)) (Name (sw_Meta m)) (master_Replicas s)) ",")
    <$> sw_Master (sw_Spec m).
(** The peers where the call cannot panic any more: its caller, or an earlier step of the
    pass, has dereferenced spec.master before. *)
Definition master_peers (m : Seaweed) : string := default "" (getMasterPeersString m).

Definition getFilerAddress (m : Seaweed) : string :=
  Name (sw_Meta m) +:+ "-filer." +:+ Namespace (sw_Meta m) +:+ ":" +:+ fmt_d FilerHTTPPort.

Definition tlsEnabled (m : Seaweed) : bool :=
  match sw_TLS (sw_Spec m) with Some t => tls_Enabled t | None => false end.

Definition tlsSecretSuffix : string := "-server-tls".
Definition securitySecretSuffix : string := "-security-config".
Definition TLSServerSecretName (m : Seaweed) : string :=
  Name (sw_Meta m) +:+ tlsSecretSuffix.
Definition SecurityConfigSecretName (m : Seaweed) : string :=
  Name (sw_Meta m) +:+ securitySecretSuffix.

(** ** security.toml *)
Fixpoint splitLines_from (acc s : string) : list string :=
  match s with
  | EmptyString => if bool_decide (acc = "") then [] else [acc]
  | String c s' =>
      if Ascii.eqb c "010"%char then acc :: splitLines_from "" s'
      else splitLines_from (acc +:+ String c EmptyString) s'
  end.
(** [start < len(s)] holds of the tail exactly when it is not empty. *)
Definition splitLines (s : string) : list string := splitLines_from "" s.

Definition toml_space (c : ascii) : bool :=
  Ascii.eqb c " " || Ascii.eqb c "009" || Ascii.eqb c "013".
Fixpoint trim_toml_left (s : string) : string :=
  match s with
  | EmptyString => EmptyString
  | String c s' => if toml_space c then trim_toml_left s' else s
  end.
Definition trimSpace (s : string) : string :=
  String.rev (trim_toml_left (String.rev (trim_toml_left s))).

(** [s[n:]] and [s[:n]] for n at most the length. *)
Fixpoint str_drop (n : nat) (s : string) : string :=
  match n, s with
  | O, _ => s
  | S n', String _ s' => str_drop n' s'
  | S _, EmptyString => EmptyString
  end.
Definition str_take (n : nat) (s : string) : string := String.substring 0 n s.

(** One line of the scan: the new [inSection], and the value when it returns. *)
Definition toml_line (section key : string) (inSection : bool) (line : string)
    : bool * option string :=
  let trimmed := trimSpace line in
  let want := "[" +:+ section +:+ "]" in
  if bool_decide (trimmed = want) then (true, None)
  else if HasPrefix trimmed "[" then (false, None)
  else if negb inSection then (inSection, None)
  else if (String.length trimmed <? String.length key + 4) ||
          negb (bool_decide (str_take (String.length key) trimmed = key))
  then (inSection, None)
  else
    let rest := trimSpace (str_drop (String.length key) trimmed) in
    if (String.length rest <? 3) || negb (HasPrefix rest "=") then (inSection, None)
    else
      let rest := trimSpace (str_drop 1 rest) in
      if (2 <=? String.length rest) && HasPrefix rest dquote && HasSuffix rest dquote
      then (inSection, Some (String.substring 1 (String.length rest - 2) rest))
      else (inSection, None).

Fixpoint toml_scan (section key : string) (inSection : bool) (lines : list string) : string :=
  match lines with
  | [] => ""
  | line :: lines' =>
      match toml_line section key inSection line with
      | (_, Some v) => v
      | (inSection', None) => toml_scan section key inSection' lines'
      end
  end.

Definition extractTOMLKey (toml section key : string) : string :=
  if bool_decide (toml = "") then "" else toml_scan section key false (splitLines toml).

(** ** Fingerprints

    SHA-256 is a parameter. *)
Class Digest := { sha256 : string -> string }.

Fixpoint hex_string (s : string) : string :=
  match s with
  | EmptyString => EmptyString
  | String c s' =>
      String (hex_digit (nat_of_ascii c / 16))
        (String (hex_digit (nat_of_ascii c mod 16)) (hex_string s'))
  end.

Section cluster.
Context `{Digest}.

Definition signingKeyFingerprint (key : string) : string :=
  if bool_decide (key = "") then "" else hex_string (str_take 8 (sha256 key)).

Definition tlsMaterialFingerprint (ca cert key : string) : string :=
  hex_string (str_take 8 (sha256 (Join [ca; cert; key] (String "000"%char EmptyString)))).

Definition secret_field (s : Secret) (f : string) : string := default "" (sec_Data s !! f).

Definition loadFilerAdminSigningKey (sw : Seaweed) : op (result string) :=
  do r <- kube (KGet KSecret {| nn_Namespace := Namespace (sw_Meta sw);
                                nn_Name := SecurityConfigSecretName sw |});
  match r with
  | inl err => if IsNotFound err then Ret (Ok "") else Ret (Err err)
  | inr secret =>
      Ret (Ok (extractTOMLKey (secret_field secret "security.toml")
                 "jwt.filer_signing" "key"))
  end.

Definition loadSeaweedGrpcDialOption (sw : Seaweed) : op (result (DialOption * string)) :=
  if negb (tlsEnabled sw) then Ret (Ok (None, ""))
  else
    do r <- kube (KGet KSecret {| nn_Namespace := Namespace (sw_Meta sw);
                                  nn_Name := TLSServerSecretName sw |});
    match r with
    | inl err => if IsNotFound err then Ret (Ok (None, "")) else Ret (Err err)
    | inr sec =>
        let ca := secret_field sec "ca.crt" in
        let cert := secret_field sec "tls.crt" in
        let key := secret_field sec "tls.key" in
        if bool_decide (ca = "") || bool_decide (cert = "") || bool_decide (key = "")
        then Ret (Ok (None, ""))
        else
          check call (ODialTLS ca cert key)
          catch err => Ret (Err (ErrOther ("build gRPC TLS credentials from secret " +:+
                          Namespace (sw_Meta sw) +:+ "/" +:+ TLSServerSecretName sw +:+
                          ": " +:+ error_string err)));
          Ret (Ok (Some (ca, cert, key), tlsMaterialFingerprint ca cert key))
    end.

(** [None] is [found = false] with a nil error. *)
Definition resolveSeaweedFiler (ref : SeaweedReference) (ownNamespace : string)
    : op (result (option filerTarget)) :=
  do r <- kube (KGet KSeaweed {| nn_Namespace := refNamespace ref ownNamespace;
                                 nn_Name := ref_Name ref |});
  match r with
  | inl err => if IsNotFound err then Ret (Ok None) else Ret (Err err)
  | inr sw =>
      try key <- loadFilerAdminSigningKey sw catch err => Ret (Err err);
      try d <- loadSeaweedGrpcDialOption sw catch err => Ret (Err err);
      Ret (Ok (Some {| address := getFilerAddress sw; adminSigningKey := key;
                       grpcDialOption := d.1; tlsFingerprint := d.2 |}))
  end.
End cluster.

(** ** Conditions of the IAM resources *)
Section conditions.
Context `{ApiMachinery}.

Definition setIAMCondition (conds : list Condition) (generation : Z) (condType : string)
    (status : ConditionStatus) (reason message : string) : list Condition :=
  SetStatusCondition conds
    {| cond_Type := condType; cond_Status := status; cond_ObservedGeneration := generation;
       cond_Reason := reason; cond_Message := message |}.

Definition clearIAMCondition (conds : list Condition) (condType : string) : list Condition :=
  RemoveStatusCondition conds condType.
End conditions.
