(* ===== verification/VolumeEvac.v ===== *)
(** * Volume server scale-down (internal/controller/volume_evacuation.go)

    The decision function, the handler that gates the replica count of a volume
    StatefulSet on it, and the in-memory tracker of background evacuations with
    its goroutines as a transition system. *)
From S2P Require Import Prelude Prog CoreTypes ApiTypes Effects Cluster Sim.

(** ** The scale-down decision *)
Section decision.
Context (nodeFor : Z -> string) (counts : gmap string Z).

(** The loop over ordinals [ord], [ord - 1], ... down to [desired]; [fuel] is
    the number of ordinals left, [ord - desired + 1]. *)
Fixpoint evac_loop (fuel : nat) (ord allowed : Z) : Z * string :=
  match fuel with
  | O => (allowed, "")
  | S fuel' =>
      let node := nodeFor ord in
      match counts !! node with
      | Some n =>
          if bool_decide (n = 0%Z) then evac_loop fuel' (ord - 1) ord
          else if bool_decide (0 < n)%Z then (allowed, node)
          else (allowed, "")
      | None => (allowed, "")
      end
  end.

Definition evacuationDecision (desired current : Z) : Z * string :=
  if bool_decide (desired >= current)%Z then (desired, "")
  else
    let '(allowed, evacuate) :=
      evac_loop (Z.to_nat (current - desired)) (current - 1) current in
    (if bool_decide (allowed < desired)%Z then desired else allowed, evacuate).

Definition drained (o : Z) : Prop := counts !! nodeFor o = Some 0%Z.

Definition evacuee (o : Z) : string :=
  match counts !! nodeFor o with
  | Some n => if bool_decide (0 < n)%Z then nodeFor o else ""
  | None => ""
  end.

Lemma evac_loop_spec fuel allowed a e :
  evac_loop fuel (allowed - 1) allowed = (a, e) ->
  (allowed - Z.of_nat fuel <= a <= allowed)%Z /\
  (forall o, (a <= o < allowed)%Z -> drained o) /\
  ((a = allowed - Z.of_nat fuel)%Z /\ e = "" \/
   (allowed - Z.of_nat fuel < a)%Z /\ ~ drained (a - 1) /\ e = evacuee (a - 1)).
Proof.
  revert allowed; induction fuel as [|fuel IH]; intros allowed; simpl.
  { intros [= <- <-]. split; [lia|]. split; [lia|]. left. split; [lia|done]. }
  unfold drained, evacuee in *.
  destruct (counts !! nodeFor (allowed - 1)) as [n|] eqn:Hn.
  2:{ intros [= <- <-]. split; [lia|]. split; [lia|]. right. rewrite Hn.
      split; [lia|done]. }
  case_bool_decide as H0.
  - subst n. intros (Hr & Hd & Hend)%IH. split; [lia|]. split.
    + intros o Ho. destruct (decide (o = allowed - 1)%Z) as [->|]; [done|]. apply Hd. lia.
    + destruct Hend as [[-> ->]|(Hlt & Hnd & ->)]; [left|right]; (split; [lia|done]).
  - case_bool_decide; intros [= <- <-]; (split; [lia|]); (split; [lia|]); right;
      rewrite Hn; (split; [lia|]); (split; [congruence|]).
    + by rewrite bool_decide_true.
    + by rewrite bool_decide_false.
Qed.

Lemma evacuationDecision_steady desired current :
  (current <= desired)%Z -> evacuationDecision desired current = (desired, "").
Proof. intros. unfold evacuationDecision. by rewrite bool_decide_true by lia. Qed.

Lemma evacuationDecision_down desired current allowed evacuate :
  (desired < current)%Z -> evacuationDecision desired current = (allowed, evacuate) ->
  (desired <= allowed <= current)%Z /\
  (forall o, (allowed <= o < current)%Z -> drained o) /\
  (allowed = desired /\ evacuate = "" \/
   (desired < allowed)%Z /\ ~ drained (allowed - 1) /\ evacuate = evacuee (allowed - 1)).
Proof.
  intros Hlt. unfold evacuationDecision. rewrite bool_decide_false by lia.
  destruct (evac_loop _ _ _) as [a e] eqn:Hl. apply evac_loop_spec in Hl.
  rewrite Z2Nat.id in Hl by lia. destruct Hl as (Hr & Hd & Hend).
  rewrite bool_decide_false by lia. intros [= <- <-].
  split; [lia|]. split; [done|].
  destruct Hend as [[-> ->]|(? & ? & ?)]; [left; split; [lia|done]|right].
  split; [lia|done].
Qed.
End decision.

(** C3. The replica count the decision allows is the least safe one, and the
    server it evacuates is the one in the way.  On a scale-down from [current]
    to [desired] the result lies between them; every ordinal at or above it is
    confirmed drained (the master reports it with no data), so no pod holding or
    possibly holding data is removed; and it is [desired] unless the server just
    below it is not confirmed drained, in which case exactly that server is
    named, provided the master reports data on it (an unknown server only
    holds). *)
Theorem evacuationDecision_spec nodeFor counts desired current allowed evacuate :
  evacuationDecision nodeFor counts desired current = (allowed, evacuate) ->
  ((current <= desired)%Z -> allowed = desired /\ evacuate = "") /\
  ((desired < current)%Z ->
   (desired <= allowed <= current)%Z /\
   (forall o, (allowed <= o < current)%Z -> counts !! nodeFor o = Some 0%Z) /\
   (allowed = desired /\ evacuate = "" \/
    (desired < allowed)%Z /\
    match counts !! nodeFor (allowed - 1)%Z with
    | Some n => n <> 0%Z /\
                evacuate = if bool_decide (0 < n)%Z then nodeFor (allowed - 1)%Z else ""
    | None => evacuate = ""
    end)).
Proof.
  intros Hd. split; intros Hle.
  - rewrite evacuationDecision_steady in Hd by done. by simplify_eq.
  - apply evacuationDecision_down in Hd as (Hr & Hdr & Hend); [|done].
    split; [done|]. split; [done|]. destruct Hend as [?|(Hlt & Hnd & ->)]; [by left|right].
    split; [done|]. unfold drained, evacuee in *.
    destruct (counts !! _); [split; [congruence|done]|done].
Qed.

Definition sample_node (o : Z) : string := "v" +:+ fmt_d o.

Lemma evacuationDecision_spec_witness :
  let counts : gmap string Z := {["v4" := 0%Z; "v3" := 7%Z; "v2" := 0%Z]} in
  evacuationDecision sample_node counts 1 5 = (4%Z, "v3") /\
  (forall o, (4 <= o < 5)%Z -> counts !! sample_node o = Some 0%Z).
Proof.
  intros counts.
  assert (evacuationDecision sample_node counts 1 5 = (4%Z, "v3")) as Hd by (by vm_compute).
  split; [done|]. apply evacuationDecision_spec in Hd as [_ Hd].
  by apply Hd.
Defined.

(** ** Progress

    Repeated passes in which the evacuation each one asks for completes. *)
Fixpoint drain_rounds (nodeFor : Z -> string) (n : nat) (desired current : Z)
    (counts : gmap string Z) : Z * string * gmap string Z :=
  match n with
  | O => (evacuationDecision nodeFor counts desired current, counts)
  | S n' =>
      let '(allowed, ev) := evacuationDecision nodeFor counts desired current in
      drain_rounds nodeFor n' desired allowed
        (if bool_decide (ev = "") then counts else <[ev := 0%Z]> counts)
  end.

Section progress.
Context (nodeFor : Z -> string) (node_named : forall o, nodeFor o <> "").

Definition all_known (desired current : Z) (counts : gmap string Z) : Prop :=
  forall o, (desired <= o < current)%Z ->
    exists n, counts !! nodeFor o = Some n /\ (0 <= n)%Z.

Lemma all_known_insert desired current counts ev :
  all_known desired current counts -> all_known desired current (<[ev := 0%Z]> counts).
Proof.
  intros Hk o Ho. destruct (decide (ev = nodeFor o)) as [->|].
  - rewrite lookup_insert_eq. exists 0%Z. split; [done|lia].
  - rewrite lookup_insert_ne by done. by apply Hk.
Qed.

(** After a pass and its evacuation, the top server is drained. *)
Lemma drain_step desired current counts allowed ev :
  (desired < current)%Z -> all_known desired current counts ->
  evacuationDecision nodeFor counts desired current = (allowed, ev) ->
  (desired < allowed)%Z -> ev = nodeFor (allowed - 1)%Z.
Proof using node_named.
  intros Hlt Hk Hd Hal. apply evacuationDecision_down in Hd as (Hr & _ & Hend); [|done].
  destruct Hend as [[? ?]|(_ & Hnd & ->)]; [lia|]. unfold drained, evacuee in *.
  destruct (Hk (allowed - 1)%Z) as (n & Hn & Hpos); [lia|]. rewrite Hn in *.
  rewrite bool_decide_true; [done|]. destruct (decide (n = 0)%Z); [congruence|lia].
Qed.

Lemma top_drained_shrinks desired current counts allowed ev :
  (desired < current)%Z -> counts !! nodeFor (current - 1)%Z = Some 0%Z ->
  evacuationDecision nodeFor counts desired current = (allowed, ev) ->
  (allowed < current)%Z.
Proof.
  intros Hlt H0 Hd. apply evacuationDecision_down in Hd as (Hr & _ & Hend); [|done].
  destruct Hend as [[? ?]|(? & Hnd & _)]; [lia|].
  destruct (decide (allowed = current)) as [->|]; [|lia]. by destruct Hnd.
Qed.

(** [n] rounds suffice from [current] when the top server may still hold data,
    one fewer when it is drained. *)
Lemma drain_rounds_converge n desired current counts :
  (0 <= desired)%Z -> all_known desired current counts ->
  (current <= desired + Z.of_nat n)%Z \/
  (current <= desired + Z.of_nat n + 1)%Z /\ counts !! nodeFor (current - 1)%Z = Some 0%Z ->
  (desired <= current)%Z ->
  (drain_rounds nodeFor n desired current counts).1 = (desired, "").
Proof using node_named.
  intros Hpos. revert current counts; induction n as [|n IH]; intros current counts Hk Hn Hle;
    simpl.
  - destruct (decide (current <= desired)%Z); [by apply evacuationDecision_steady|].
    destruct Hn as [?|[? H0]]; [lia|].
    destruct (evacuationDecision _ _ _ _) as [a e] eqn:Hd; simpl.
    pose proof (top_drained_shrinks desired current counts a e ltac:(lia) H0 Hd).
    apply evacuationDecision_down in Hd as (? & _ & [[-> ->]|[? _]]); [done|lia|lia].
  - destruct (evacuationDecision _ _ _ _) as [a e] eqn:Hd.
    destruct (decide (current <= desired)%Z) as [Hs|Hs].
    { rewrite evacuationDecision_steady in Hd by done. simplify_eq.
      rewrite bool_decide_true by done. apply IH; [|left; lia|lia].
      intros o Ho. lia. }
    assert (desired <= a <= current)%Z as Ha.
    { by apply evacuationDecision_down in Hd as (? & _); [|lia]. }
    assert (all_known desired a (if bool_decide (e = "") then counts
                                 else <[e:=0%Z]> counts)) as Hk'.
    { case_bool_decide; [|apply all_known_insert]; intros o Ho; apply Hk; lia. }
    destruct (decide (a = desired)) as [->|Hne]; [apply IH; [done|left; lia|lia]|].
    pose proof (drain_step desired current counts a e ltac:(lia) Hk Hd ltac:(lia)) as He.
    apply IH; [done| |lia]. right. rewrite bool_decide_false by (subst; apply node_named).
    rewrite He, lookup_insert_eq. split; [|done].
    destruct Hn as [?|[? H0]]; [lia|].
    pose proof (top_drained_shrinks desired current counts a e ltac:(lia) H0 Hd). lia.
Qed.
End progress.

(** C9. A scale-down makes progress: when the master knows every doomed server
    and each pass's evacuation completes before the next one, at most
    [current - desired] passes bring the allowed replica count down to [desired],
    with nothing left to evacuate. *)
Theorem scale_down_terminates nodeFor desired current counts :
  (0 <= desired <= current)%Z -> (forall o, nodeFor o <> "") ->
  (forall o, (desired <= o < current)%Z ->
     exists n, counts !! nodeFor o = Some n /\ (0 <= n)%Z) ->
  (drain_rounds nodeFor (Z.to_nat (current - desired)) desired current counts).1 =
  (desired, "").
Proof.
  intros Hr Hn Hk. apply drain_rounds_converge; [done|lia|done|left; lia|lia].
Qed.

Lemma scale_down_terminates_witness :
  let counts : gmap string Z := {["v3" := 4%Z; "v2" := 9%Z; "v1" := 0%Z]} in
  (drain_rounds sample_node 3 1 4 counts).1 = (1%Z, "").
Proof.
  intros counts. apply (scale_down_terminates sample_node 1 4 counts); [lia|done|].
  intros o Ho. assert (o = 1 \/ o = 2 \/ o = 3)%Z as [->|[->| ->]] by lia;
    eexists; (split; [by vm_compute|lia]).
Defined.

(** ** The gating handler *)
Definition volumeServerNodeAddress (m : Seaweed) (ordinal : Z) : string :=
  Name (sw_Meta m) +:+ "-volume-" +:+ fmt_d ordinal +:+ "." +:+ Name (sw_Meta m) +:+
  "-volume-peer." +:+ Namespace (sw_Meta m) +:+ ":" +:+ fmt_d VolumeHTTPPort.
Definition volumeServerTopologyNodeAddress (m : Seaweed) (topology : string) (ordinal : Z)
    : string :=
  Name (sw_Meta m) +:+ "-volume-" +:+ topology +:+ "-" +:+ fmt_d ordinal +:+ "." +:+
  Name (sw_Meta m) +:+ "-volume-" +:+ topology +:+ "-peer." +:+ Namespace (sw_Meta m) +:+
  ":" +:+ fmt_d VolumeHTTPPort.

Section gating.
Context `{Digest}.

Definition recordVolumeEvent (recorder : bool) (eventType reason message : string) : op () :=
  if recorder then call (OEvent eventType reason message) else Ret tt.

(** The body of the background goroutine. *)
Definition evacuationBody (masters : string) (d : DialOption) (node : string)
    : op (option error) :=
  check call (OVolumeFactory masters d) catch err => Ret (Some err);
  check call (OVolume masters d (EvacuateServer node)) catch err => Ret (Some err);
  Ret None.

Definition startVolumeServerEvacuation (recorder : bool) (m : Seaweed) (node : string)
    : op () :=
  let masters := master_peers m in
  try d <- loadSeaweedGrpcDialOption m catch _ => Ret tt;
  do prevErr <- call (OTrack (TLastErr node));
  do started <- call (OTrack (TStart node masters d.1));
  if negb started then Ret tt
  else match prevErr with
       | Some e => recordVolumeEvent recorder "Warning" "VolumeServerEvacuationFailed"
           ("Retrying evacuation of volume server " +:+ node +:+ " after failure: " +:+
            error_string e)
       | None => recordVolumeEvent recorder "Normal" "VolumeServerEvacuating"
           ("Evacuating volume server " +:+ node +:+ " before scale-down")
       end.

Definition volumeServerVolumeCounts (m : Seaweed) : op (result (gmap string Z)) :=
  let masters := master_peers m in
  try d <- loadSeaweedGrpcDialOption m catch err => Ret (Err err);
  check call (OVolumeFactory masters d.1) catch err => Ret (Err err);
  call (OVolume masters d.1 VolumeServerVolumeCounts).

Definition forgetRange (nodeFor : Z -> string) (allowed current : Z) : op () :=
  for_each (map (fun i => allowed + Z.of_nat i)%Z (seq 0 (Z.to_nat (current - allowed))))
    (fun o => call (OTrack (TForget (nodeFor o)))).

(** [wired] is [r.VolumeAdminFactory != nil && r.evac != nil]. *)
Definition allowedVolumeServerReplicas (wired recorder : bool) (m : Seaweed)
    (stsName : string) (desired : Z) (nodeFor : Z -> string) : op (Z * option error) :=
  if negb wired then Ret (desired, None)
  else
    do r <- kube (KGet KStatefulSet {| nn_Namespace := Namespace (sw_Meta m);
                                       nn_Name := stsName |});
    match r with
    | inl err => if IsNotFound err then Ret (desired, None) else Ret (desired, Some err)
    | inr sts =>
        let current := default 0%Z (sts_Replicas sts) in
        if bool_decide (desired >= current)%Z then Ret (desired, None)
        else
          try counts <- volumeServerVolumeCounts m catch _ => Ret (current, None);
          let '(allowed, evacuate) := evacuationDecision nodeFor counts desired current in
          do _ <- (if bool_decide (evacuate = "") then Ret tt
                   else startVolumeServerEvacuation recorder m evacuate);
          do _ <- forgetRange nodeFor allowed current;
          Ret (allowed, None)
    end.
End gating.

(** ** Safety of the gate

    A recording environment: it answers anything at all and remembers what it
    last answered about the StatefulSet's size and the masters' volume counts,
    and which nodes were handed to the evacuation tracker. *)
Record Seen := {
  seen_current : option Z;
  seen_counts : option (gmap string Z);
  seen_started : list string;
}.
Definition nothing_seen : Seen :=
  {| seen_current := None; seen_counts := None; seen_started := [] |}.

Definition observe (s : Seen) {X} (e : opE X) : X -> Seen :=
  match e in opE X return X -> Seen with
  | OKube e' =>
      match e' in kubeE X return X -> Seen with
      | KGet KStatefulSet _ => fun r : result StatefulSet =>
          match r with
          | inr sts => {| seen_current := Some (default 0%Z (sts_Replicas sts));
                          seen_counts := seen_counts s; seen_started := seen_started s |}
          | inl _ => s
          end
      | _ => fun _ => s
      end
  | OVolume _ _ e' =>
      match e' in volumeE X return X -> Seen with
      | VolumeServerVolumeCounts => fun r =>
          match r with
          | inr c => {| seen_current := seen_current s; seen_counts := Some c;
                        seen_started := seen_started s |}
          | inl _ => s
          end
      | EvacuateServer _ => fun _ => s
      end
  | OTrack e' =>
      match e' in trackE X return X -> Seen with
      | TStart n _ _ => fun _ =>
          {| seen_current := seen_current s; seen_counts := seen_counts s;
             seen_started := n :: seen_started s |}
      | _ => fun _ => s
      end
  | _ => fun _ => s
  end.

Definition seen_env : Env opE Seen := fun X e s x s1 => s1 = observe s e x.

Section gate_safety.
Context `{Digest}.

Lemma loadDial_seen m s :
  wp seen_env (loadSeaweedGrpcDialOption m) (fun _ s1 => s1 = s) s.
Proof.
  unfold loadSeaweedGrpcDialOption. destruct (tlsEnabled m); simpl; [|done].
  intros [e|sec] s1 ->; simpl; [by destruct (IsNotFound e)|].
  destruct (_ || _); simpl; [done|]. intros [e|] s1 ->; done.
Qed.

Lemma counts_seen m s :
  wp seen_env (volumeServerVolumeCounts m)
    (fun r s1 => seen_current s1 = seen_current s /\ seen_started s1 = seen_started s /\
       match r with inr c => seen_counts s1 = Some c
                  | inl _ => seen_counts s1 = seen_counts s end) s.
Proof.
  unfold volumeServerVolumeCounts. eapply wp_seq; [apply loadDial_seen|].
  intros [e|d] s1 ->; simpl; [done|]. intros [e|] s1 ->; simpl; [done|].
  intros [e|c] s1 ->; done.
Qed.

Lemma start_seen rec m node s :
  wp seen_env (startVolumeServerEvacuation rec m node)
    (fun _ s1 => seen_current s1 = seen_current s /\ seen_counts s1 = seen_counts s /\
       (seen_started s1 = seen_started s \/ seen_started s1 = node :: seen_started s)) s.
Proof.
  unfold startVolumeServerEvacuation. eapply wp_seq; [apply loadDial_seen|].
  intros [e|d] s1 ->; simpl; [tauto|]. intros prev s1 -> started s2 ->; simpl.
  destruct started; simpl; [|tauto].
  destruct prev, rec; simpl; try tauto; intros [] s3 ->; simpl; tauto.
Qed.

Lemma forget_seen nodeFor a c s :
  wp seen_env (forgetRange nodeFor a c) (fun _ s1 => s1 = s) s.
Proof.
  unfold forgetRange. induction (map _ _) as [|o l IH]; simpl; [done|].
  intros [] s1 ->. apply IH.
Qed.

Lemma allowed_wp wired rec m sts desired nodeFor :
  wp seen_env (allowedVolumeServerReplicas wired rec m sts desired nodeFor)
    (fun r s1 =>
       r.2 = None ->
       match seen_current s1 with
       | None => r.1 = desired
       | Some cur =>
           if bool_decide (cur <= desired)%Z then r.1 = desired
           else match seen_counts s1 with
                | None => r.1 = cur /\ seen_started s1 = []
                | Some c =>
                    r.1 = (evacuationDecision nodeFor c desired cur).1 /\
                    forall n, n ∈ seen_started s1 ->
                      n = (evacuationDecision nodeFor c desired cur).2
                end
       end) nothing_seen.
Proof.
  unfold allowedVolumeServerReplicas. destruct wired; simpl; [|done].
  intros [e|o] s1 ->; simpl; [by destruct (IsNotFound e)|].
  case_bool_decide as Hge; simpl; [by rewrite bool_decide_true by lia|].
  eapply wp_seq; [apply counts_seen|].
  intros [e|c] s1 (Hcur & Hst & Hcts); simpl in *.
  { intros _. rewrite Hcur, bool_decide_false by lia. rewrite Hcts; simpl. done. }
  destruct (evacuationDecision nodeFor c desired _) as [a ev] eqn:Hd.
  eapply (wp_seq _ _ _ (fun _ s2 => seen_current s2 = seen_current s1 /\
            seen_counts s2 = seen_counts s1 /\
            forall n, n ∈ seen_started s2 -> n = ev)).
  { case_bool_decide; simpl.
    - split; [done|]. split; [done|]. rewrite Hst. set_solver.
    - eapply wp_mono; [|apply start_seen]. intros _ s2 (? & ? & Hs2).
      split; [done|]. split; [done|]. rewrite Hst in Hs2.
      destruct Hs2 as [->| ->]; set_solver. }
  intros _ s2 (Hc2 & Hk2 & Hs2); simpl.
  eapply wp_seq; [apply forget_seen|]. intros _ s3 ->; simpl. intros _.
  rewrite Hc2, Hcur, bool_decide_false by lia. rewrite Hk2, Hcts.
  by rewrite Hd.
Qed.
End gate_safety.

(** C2. Whatever the API server and the masters answer, the replica count the
    gate returns without an error never removes a server that may hold data:
    every ordinal from that count up to the StatefulSet's current size was
    reported by the masters with zero volumes in this very pass.  A scale-up or
    steady state is passed through unchanged, and a failed topology read holds
    the current size. *)
Theorem allowedVolumeServerReplicas_safe `{Digest} wired recorder m sts desired nodeFor s' n :
  exec seen_env (allowedVolumeServerReplicas wired recorder m sts desired nodeFor)
    nothing_seen s' (n, None) ->
  match seen_current s' with
  | None => n = desired
  | Some cur =>
      ((cur <= desired)%Z -> n = desired) /\
      ((desired < cur)%Z -> (desired <= n <= cur)%Z) /\
      (forall o, (n <= o < cur)%Z ->
         exists c, seen_counts s' = Some c /\ c !! nodeFor o = Some 0%Z) /\
      (seen_counts s' = None -> (desired < cur)%Z -> n = cur /\ seen_started s' = [])
  end.
Proof.
  intros Hx. pose proof (allowed_wp wired recorder m sts desired nodeFor) as Hwp.
  rewrite wp_exec in Hwp. specialize (Hwp _ _ Hx eq_refl); simpl in Hwp.
  destruct (seen_current s') as [cur|]; [|done]. case_bool_decide as Hle.
  { subst n. repeat split; lia. }
  destruct (seen_counts s') as [c|]; [|naive_solver lia].
  destruct Hwp as [Hn _].
  destruct (evacuationDecision nodeFor c desired cur) as [a e] eqn:Hd; simpl in Hn; subst a.
  apply evacuationDecision_down in Hd as (Hr & Hdr & _); [|lia].
  split; [lia|]. split; [lia|]. split; [|done]. intros o Ho. exists c. by split; [|apply Hdr].
Qed.

(** A cluster whose volume StatefulSet runs four servers, scaled down to one. *)
Definition sample_seaweed : Seaweed := {|
  sw_Meta := {| Name := "sw"; Namespace := "ns"; Generation := 1%Z; CreationTimestamp := 1%Z;
                DeletionTimestamp := None; Labels := ∅; Annotations := ∅; Finalizers := [];
                OwnerReferences := []; UID := "" |};
  sw_Spec := minimal_spec 1 None None; sw_Status := no_status |}.
Definition sample_sts : StatefulSet :=
  bare_statefulset {| Name := "sw-volume"; Namespace := "ns"; Generation := 1%Z;
    CreationTimestamp := 1%Z; DeletionTimestamp := None; Labels := ∅; Annotations := ∅; Finalizers := [];
    OwnerReferences := []; UID := "" |} 4 [] 4.
Definition scale_cluster : Sim :=
  set_counts {[volumeServerNodeAddress sample_seaweed 3 := 0%Z;
               volumeServerNodeAddress sample_seaweed 2 := 5%Z]}
    (set_objs KStatefulSet [sample_sts] sim_empty).
#[export] Instance no_digest : Digest := {| sha256 s := s |}.

(** The reference environment with the recorder beside it. *)
Definition seen_sim : Handler opE (Sim * Seen) := fun X e s =>
  let '(s1, x) := sim X e s.1 in ((s1, observe s.2 e x), x).
Lemma run_seen {A} (p : op A) s g :
  exec seen_env p g (run seen_sim p (s, g)).1.2 (run seen_sim p (s, g)).2.
Proof.
  revert s g; induction p as [a|X e k IH]; intros s g; simpl; [done|].
  unfold seen_sim; simpl. destruct (sim X e s) as [s1 x] eqn:He.
  exists x, (observe g e x). split; [done|]. apply IH.
Qed.

Lemma allowedVolumeServerReplicas_safe_witness :
  let p := allowedVolumeServerReplicas true true sample_seaweed "sw-volume" 1
             (volumeServerNodeAddress sample_seaweed) in
  let r := run seen_sim p (scale_cluster, nothing_seen) in
  r.2 = (3%Z, None) /\ seen_current r.1.2 = Some 4%Z /\
  seen_started r.1.2 = [volumeServerNodeAddress sample_seaweed 2] /\
  exists c, seen_counts r.1.2 = Some c /\
            c !! volumeServerNodeAddress sample_seaweed 3 = Some 0%Z.
Proof.
  intros p r.
  assert (r.2 = (3%Z, None)) as Hr by (by vm_compute).
  assert (seen_current r.1.2 = Some 4%Z) as Hc by (by vm_compute).
  split; [done|]. split; [done|]. split; [by vm_compute|].
  pose proof (run_seen p scale_cluster nothing_seen) as Hx. fold r in Hx. rewrite Hr in Hx.
  apply allowedVolumeServerReplicas_safe in Hx. rewrite Hc in Hx.
  destruct Hx as (_ & _ & Hs & _). apply Hs. lia.
Defined.

(** ** The evacuation tracker

    [evacuationTracker] with its goroutines.  [states] maps a node to a pointer;
    the entry it points to is shared with the goroutine [start] launched, which
    keeps writing to it after [forget] has dropped the map entry, so the heap is
    explicit.  Each method is one critical section of [t.mu]; a goroutine's
    final section is [finish]. *)
Module Tracker.
Definition evacuationRetryBackoff : Z := (30 * Second)%Z.

Record evacuationState := {
  running : bool;
  lastErr : option error;
  nextRetry : Time;
}.
Definition fresh_state : evacuationState :=
  {| running := false; lastErr := None; nextRetry := 0%Z |}.

Record task := { task_node : string; task_ptr : nat }.
#[export] Instance task_eq_dec : EqDecision task.
Proof. solve_decision. Defined.

Record evacuationTracker := {
  states : gmap string nat;
  heap : gmap nat evacuationState;
  next : nat;              (** the next unused address *)
  tasks : list task;       (** goroutines running [fn] *)
}.
Definition newEvacuationTracker : evacuationTracker :=
  {| states := ∅; heap := ∅; next := 0; tasks := [] |}.

Definition deref (t : evacuationTracker) (p : nat) : evacuationState :=
  default fresh_state (heap t !! p).
Definition store (t : evacuationTracker) (p : nat) (st : evacuationState) :=
  {| states := states t; heap := <[p := st]> (heap t); next := next t; tasks := tasks t |}.
Definition with_tasks (t : evacuationTracker) (l : list task) :=
  {| states := states t; heap := heap t; next := next t; tasks := l |}.

(** The lookup-or-allocate at the head of [start]. *)
Definition entry (t : evacuationTracker) (node : string) : evacuationTracker * nat :=
  match states t !! node with
  | Some p => (t, p)
  | None => ({| states := <[node := next t]> (states t);
                heap := <[next t := fresh_state]> (heap t);
                next := S (next t); tasks := tasks t |}, next t)
  end.

Definition refused (st : evacuationState) (now : Time) : bool :=
  running st || (bool_decide (is_Some (lastErr st)) && bool_decide (now < nextRetry st)%Z).

Definition start (t : evacuationTracker) (node : string) (now : Time)
    : evacuationTracker * bool :=
  let '(t1, p) := entry t node in
  let st := deref t1 p in
  if refused st now then (t1, false)
  else
    let t2 := store t1 p {| running := true; lastErr := lastErr st;
                            nextRetry := nextRetry st |} in
    (with_tasks t2 ({| task_node := node; task_ptr := p |} :: tasks t2), true).

(** The goroutine's last critical section, after [fn] returned [err]. *)
Definition finish (t : evacuationTracker) (g : task) (err : option error) (now : Time)
    : evacuationTracker :=
  let st := deref t (task_ptr g) in
  let t1 := store t (task_ptr g)
    {| running := false; lastErr := err;
       nextRetry := match err with
                    | Some _ => (now + evacuationRetryBackoff)%Z
                    | None => nextRetry st
                    end |} in
  with_tasks t1 (filter (fun g' => g' <> g) (tasks t1)).

Definition getLastErr (t : evacuationTracker) (node : string) : option error :=
  match states t !! node with Some p => lastErr (deref t p) | None => None end.

Definition forget (t : evacuationTracker) (node : string) : evacuationTracker :=
  {| states := delete node (states t); heap := heap t; next := next t; tasks := tasks t |}.

(** Interleavings of the critical sections, labelled. *)
Inductive label :=
| LStart (node : string) (now : Time) (started : bool)
| LFinish (g : task) (err : option error) (now : Time)
| LForget (node : string).

Inductive step : evacuationTracker -> label -> evacuationTracker -> Prop :=
| step_start t node now t' b :
    start t node now = (t', b) -> step t (LStart node now b) t'
| step_finish t g err now :
    g ∈ tasks t -> step t (LFinish g err now) (finish t g err now)
| step_forget t node : step t (LForget node) (forget t node).

Inductive steps : evacuationTracker -> list label -> evacuationTracker -> Prop :=
| steps_nil t : steps t [] t
| steps_cons t l t1 ls t2 : step t l t1 -> steps t1 ls t2 -> steps t (l :: ls) t2.

Definition reachable (t : evacuationTracker) : Prop :=
  exists ls, steps newEvacuationTracker ls t.

Lemma step_invariant (I : evacuationTracker -> Prop) t ls t' :
  (forall t l t', step t l t' -> I t -> I t') -> steps t ls t' -> I t -> I t'.
Proof. intros HI. induction 1; eauto. Qed.

(** ** The invariant *)
Record wf (t : evacuationTracker) : Prop := {
  wf_heap : forall p, is_Some (heap t !! p) -> p < next t;
  wf_states : forall node p, states t !! node = Some p -> is_Some (heap t !! p);
  wf_inj : forall n1 n2 p, states t !! n1 = Some p -> states t !! n2 = Some p -> n1 = n2;
  wf_running : forall g, g ∈ tasks t ->
    exists st, heap t !! task_ptr g = Some st /\ running st = true;
  wf_tasks : NoDup (task_ptr <$> tasks t);
  wf_task_node : forall g n, g ∈ tasks t -> states t !! n = Some (task_ptr g) ->
    n = task_node g;
}.

Lemma deref_lookup t p st : heap t !! p = Some st -> deref t p = st.
Proof. unfold deref. by intros ->. Qed.

Lemma wf_new : wf newEvacuationTracker.
Proof.
  split; simpl; [by intros p ?%lookup_empty_is_Some|done|done| |constructor| ];
    intros; set_solver.
Qed.

Lemma wf_entry t node t1 p :
  entry t node = (t1, p) -> wf t ->
  wf t1 /\ states t1 !! node = Some p /\ tasks t1 = tasks t.
Proof.
  unfold entry. intros He Hwf. destruct (states t !! node) as [q|] eqn:Hq; simplify_eq; [done|].
  assert (heap t !! next t = None) as Hfree.
  { apply eq_None_not_Some. intros Hs. apply (wf_heap _ Hwf) in Hs. lia. }
  assert (forall n q, states t !! n = Some q -> q <> next t) as Hold.
  { intros n q Hn ->. apply (wf_states _ Hwf) in Hn as [? ?]. congruence. }
  assert (forall g, g ∈ tasks t -> task_ptr g <> next t) as Htsk.
  { intros g Hg Heq. destruct (wf_running _ Hwf g Hg) as (st & Hst & _). congruence. }
  split; [|split; [by simpl; simplify_map_eq|done]]. destruct Hwf. split; simpl.
  - intros q [st Hst]. destruct (decide (next t = q)) as [->|]; [lia|].
    rewrite lookup_insert_ne in Hst by done. pose proof (wf_heap0 q (ex_intro _ _ Hst)). lia.
  - intros n q. destruct (decide (node = n)) as [->|]; simplify_map_eq.
    { intros [= <-]. by rewrite lookup_insert_eq. }
    intros Hn. pose proof (Hold _ _ Hn). rewrite lookup_insert_ne by done. eauto.
  - intros n1 n2 q. destruct (decide (n1 = node)) as [->|], (decide (n2 = node)) as [->|];
      simplify_map_eq; naive_solver.
  - intros g Hg. destruct (wf_running0 g Hg) as (st & Hst & Hr). exists st.
    rewrite lookup_insert_ne; [done|]. intros Heq. by apply (Htsk g).
  - done.
  - intros g n Hg. destruct (decide (node = n)) as [->|]; simplify_map_eq; [|eauto].
    intros Heq. simplify_eq. exfalso. by apply (Htsk g).
Qed.

(** Overwriting an existing entry keeps the shape of the heap. *)
Lemma store_dom t p st q :
  is_Some (heap t !! p) -> is_Some (heap (store t p st) !! q) <-> is_Some (heap t !! q).
Proof.
  intros Hp. simpl. destruct (decide (p = q)) as [->|]; simplify_map_eq; naive_solver.
Qed.

Lemma NoDup_fmap_elem (l : list task) g1 g2 :
  NoDup (task_ptr <$> l) -> g1 ∈ l -> g2 ∈ l -> task_ptr g1 = task_ptr g2 -> g1 = g2.
Proof.
  induction l as [|g l IH]; simpl; [set_solver|]. rewrite NoDup_cons.
  intros [Hn Hd] H1 H2 Heq. rewrite elem_of_cons in H1, H2.
  destruct H1 as [->|H1], H2 as [->|H2]; [done| | |by apply IH]; exfalso; apply Hn;
    [rewrite Heq|rewrite <-Heq]; by apply list_elem_of_fmap_2.
Qed.

Lemma NoDup_filter_fmap (l : list task) (P : task -> Prop) `{!forall x, Decision (P x)} :
  NoDup (task_ptr <$> l) -> NoDup (task_ptr <$> filter P l).
Proof.
  induction l as [|g l IH]; simpl; [done|]. rewrite NoDup_cons. intros [Hn Hd].
  rewrite filter_cons. case_decide; simpl; [|by apply IH].
  constructor; [|by apply IH]. intros (g' & Heq & [_ Hg']%list_elem_of_filter)%list_elem_of_fmap.
  apply Hn. rewrite Heq. by apply list_elem_of_fmap_2.
Qed.

Lemma wf_start t node now t' b : start t node now = (t', b) -> wf t -> wf t'.
Proof.
  unfold start. intros Hs Hwf. destruct (entry t node) as [t1 p] eqn:He.
  apply (wf_entry _ _ _ _ He) in Hwf as (Hwf & Hp & _).
  destruct (refused _ _) eqn:Href; simplify_eq; [done|].
  apply orb_false_iff in Href as [Hrun _].
  pose proof (wf_states _ Hwf _ _ Hp) as Hsome.
  assert (forall g, g ∈ tasks t1 -> task_ptr g <> p) as Hfree.
  { intros g Hg Heq. destruct (wf_running _ Hwf g Hg) as (st & Hst & Hr).
    rewrite Heq in Hst. apply deref_lookup in Hst. congruence. }
  destruct Hwf. split; simpl.
  - intros q Hq. apply wf_heap0. by apply (store_dom t1 p) in Hq.
  - intros n q Hn. apply (store_dom t1 p); eauto.
  - done.
  - intros g [->|Hg]%elem_of_cons; simpl; [simplify_map_eq; eauto|].
    rewrite lookup_insert_ne by (intros ->; by apply (Hfree g)). auto.
  - constructor; [|done]. intros (g & Hg & Hin)%list_elem_of_fmap. by apply (Hfree g).
  - intros g n [->|Hg]%elem_of_cons; simpl; intros Hn; [by eapply wf_inj0|eauto].
Qed.

Lemma wf_finish t g err now : g ∈ tasks t -> wf t -> wf (finish t g err now).
Proof.
  intros Hg Hwf. pose proof (wf_running _ Hwf g Hg) as (st & Hst & _).
  assert (is_Some (heap t !! task_ptr g)) as Hsome by eauto.
  assert (forall g', g' ∈ tasks t -> g' <> g -> task_ptr g <> task_ptr g') as Hne.
  { intros g' Hg' Hneq Heq. apply Hneq. symmetry. eapply NoDup_fmap_elem; eauto using wf_tasks. }
  destruct Hwf. unfold finish. split; simpl.
  - intros q Hq. apply wf_heap0. by apply (store_dom t (task_ptr g)) in Hq.
  - intros n q Hn. apply (store_dom t (task_ptr g)); eauto.
  - done.
  - intros g' [Hneq Hg']%list_elem_of_filter. rewrite lookup_insert_ne by auto. auto.
  - by apply NoDup_filter_fmap.
  - intros g' n [_ Hg']%list_elem_of_filter. eauto.
Qed.

Lemma wf_forget t node : wf t -> wf (forget t node).
Proof.
  intros Hwf. destruct Hwf.
  assert (forall n p, delete node (states t) !! n = Some p -> states t !! n = Some p) as Hd.
  { intros n p [_ Hn]%lookup_delete_Some. done. }
  split; simpl; eauto.
Qed.

Lemma wf_step t l t' : step t l t' -> wf t -> wf t'.
Proof. destruct 1; eauto using wf_start, wf_finish, wf_forget. Qed.

Lemma reachable_wf t : reachable t -> wf t.
Proof. intros [ls Hs]. eapply step_invariant; eauto using wf_step, wf_new. Qed.

(** ** One evacuation at a time

    A node that is never forgotten has at most one entry, so at most one
    goroutine. *)
Definition forgets (node : string) (l : label) : bool :=
  match l with LForget n => bool_decide (n = node) | _ => false end.

(** Every goroutine for [node] works on the entry the map holds for it. *)
Definition owned (node : string) (t : evacuationTracker) : Prop :=
  forall g, g ∈ tasks t -> task_node g = node -> states t !! node = Some (task_ptr g).

Lemma owned_step node t l t' :
  step t l t' -> forgets node l = false -> wf t -> owned node t -> owned node t'.
Proof.
  intros Hs Hf Hwf Ho. destruct Hs as [t n now t' b Hst|t g err now Hg|t n].
  - unfold start in Hst. destruct (entry t n) as [t1 p] eqn:He.
    pose proof (wf_entry _ _ _ _ He Hwf) as (_ & Hp & Htk).
    assert (owned node t1) as Ho1.
    { intros g Hg Hn. rewrite Htk in Hg. specialize (Ho g Hg Hn).
      unfold entry in He. destruct (states t !! n) as [q|] eqn:Hq; simplify_eq; [done|].
      simpl. rewrite lookup_insert_ne; [done|]. intros ->. congruence. }
    destruct (refused _ _); simplify_eq; [done|].
    intros g [->|Hg]%elem_of_cons Hn; simpl in *; [congruence|by apply Ho1].
  - intros g' [_ Hg']%list_elem_of_filter Hn. by apply Ho.
  - intros g Hg Hn. simpl in Hf. apply bool_decide_eq_false in Hf. simpl.
    rewrite lookup_delete_ne by done. by apply Ho.
Qed.

Lemma owned_steps node t ls t' :
  steps t ls t' -> Forall (fun l => forgets node l = false) ls ->
  wf t -> owned node t -> wf t' /\ owned node t'.
Proof.
  induction 1 as [|t l t1 ls t2 Hs Hss IH]; [done|].
  rewrite Forall_cons. intros [Hf Hfs] Hwf Ho.
  apply IH; [done|by eapply wf_step|by eapply owned_step].
Qed.

Definition running_on (node : string) (t : evacuationTracker) : list task :=
  filter (fun g => task_node g = node) (tasks t).

Lemma at_most_one node t : wf t -> owned node t -> length (running_on node t) <= 1.
Proof.
  intros Hwf Ho. pose proof (NoDup_filter_fmap (tasks t) (fun g => task_node g = node)
    (wf_tasks _ Hwf)) as Hnd. unfold running_on.
  destruct (filter _ (tasks t)) as [|g1 [|g2 l]] eqn:Hl; simpl; [lia|lia|exfalso].
  assert (forall g, g ∈ g1 :: g2 :: l -> g ∈ tasks t /\ task_node g = node) as Hall.
  { intros g Hg. rewrite <-Hl in Hg. by apply list_elem_of_filter in Hg as [? ?]. }
  destruct (Hall g1) as [H1 Hn1]; [set_solver|].
  destruct (Hall g2) as [H2 Hn2]; [set_solver|].
  pose proof (Ho _ H1 Hn1) as E1. pose proof (Ho _ H2 Hn2) as E2.
  rewrite E1 in E2. injection E2 as E2. simpl in Hnd. rewrite E2 in Hnd.
  apply NoDup_cons in Hnd as [Hnd _]. set_solver.
Qed.

(** C10. Mutual exclusion.  In every interleaving of the tracker's methods and
    its goroutines that does not forget [node], at most one evacuation of
    [node] runs at any time. *)
Theorem tracker_one_evacuation ls t node :
  steps newEvacuationTracker ls t ->
  Forall (fun l => forgets node l = false) ls ->
  length (running_on node t) <= 1.
Proof.
  intros Hs Hf.
  destruct (owned_steps node _ _ _ Hs Hf wf_new) as [Hwf Ho]; [intros g Hg; set_solver|].
  by apply at_most_one.
Qed.

Definition g0 : task := {| task_node := "a"; task_ptr := 0 |}.
Lemma tracker_one_evacuation_witness :
  exists t, steps newEvacuationTracker
              [LStart "a" 5 true; LStart "a" 6 false; LStart "b" 6 true; LForget "b"] t /\
            running_on "a" t = [g0] /\ length (running_on "a" t) <= 1.
Proof.
  set (t1 := (start newEvacuationTracker "a" 5%Z).1).
  set (t2 := (start t1 "a" 6%Z).1). set (t3 := (start t2 "b" 6%Z).1).
  assert (steps newEvacuationTracker
    [LStart "a" 5 true; LStart "a" 6 false; LStart "b" 6 true; LForget "b"]
    (forget t3 "b")) as Hs.
  { apply (steps_cons _ _ t1); [by apply step_start|].
    apply (steps_cons _ _ t2); [by apply step_start|].
    apply (steps_cons _ _ t3); [by apply step_start|].
    apply (steps_cons _ _ (forget t3 "b")); constructor. }
  exists (forget t3 "b"). split; [done|]. split; [by vm_compute|].
  eapply tracker_one_evacuation; [exact Hs|]. repeat constructor.
Defined.

(** The guard is per entry, not per node: forgetting a node while its
    goroutine still runs lets [start] launch a second evacuation of the same
    node beside it. *)
Theorem tracker_forget_overlap node now :
  exists t, steps newEvacuationTracker
              [LStart node now true; LForget node; LStart node now true] t /\
            length (running_on node t) = 2.
Proof.
  set (t1 := (start newEvacuationTracker node now).1).
  set (t2 := forget t1 node). set (t3 := (start t2 node now).1).
  exists t3. split.
  - apply (steps_cons _ _ t1); [apply step_start|].
    { unfold t1, start, entry. simpl. rewrite lookup_empty.
      unfold deref; simpl. by rewrite lookup_insert_eq. }
    apply (steps_cons _ _ t2); [constructor|].
    apply (steps_cons _ _ t3); [apply step_start|constructor].
    unfold t3, t2, t1, start, entry. simpl. rewrite lookup_empty.
    unfold deref; simpl. rewrite lookup_insert_eq; simpl. rewrite lookup_delete_eq. simpl.
    by rewrite lookup_insert_eq.
  - unfold t3, t2, t1, start, entry. simpl. rewrite lookup_empty.
    unfold deref; simpl. rewrite lookup_insert_eq; simpl. rewrite lookup_delete_eq. simpl.
    rewrite lookup_insert_eq; simpl. unfold running_on; simpl.
    by rewrite !filter_cons_True.
Qed.

(** ** The retry floor *)
Lemma start_spec t node now t' b :
  start t node now = (t', b) ->
  b = match states t !! node with
      | Some p => negb (refused (deref t p) now)
      | None => true
      end.
Proof.
  unfold start, entry. destruct (states t !! node) as [p|] eqn:Hp; simpl.
  - destruct (refused _ _); by intros [= <- <-].
  - unfold deref at 1 2; simpl. rewrite lookup_insert_eq; simpl. by intros [= <- <-].
Qed.

(** The entry of [node] forbids a start before [until]. *)
Definition backing_off (node : string) (until : Time) (t : evacuationTracker) : Prop :=
  exists p st, states t !! node = Some p /\ heap t !! p = Some st /\
    (forall g, g ∈ tasks t -> task_ptr g <> p) /\
    is_Some (lastErr st) /\ (until <= nextRetry st)%Z.

Definition label_time (l : label) : option Time :=
  match l with LStart _ now _ | LFinish _ _ now => Some now | LForget _ => None end.

Lemma entry_other t n t1 q :
  entry t n = (t1, q) -> wf t ->
  (forall node p, states t !! node = Some p -> states t1 !! node = Some p) /\
  (forall p st, heap t !! p = Some st -> heap t1 !! p = Some st) /\
  (forall node p, states t !! node = Some p -> node <> n -> q <> p).
Proof.
  intros He Hwf. pose proof He as He'. unfold entry in He.
  destruct (states t !! n) as [q'|] eqn:Hq; simplify_eq.
  - split; [done|]. split; [done|]. intros node p Hp Hne ->.
    apply Hne. by eapply (wf_inj _ Hwf).
  - assert (heap t !! next t = None) as Hfree.
    { apply eq_None_not_Some. intros Hs. apply (wf_heap _ Hwf) in Hs. lia. }
    split; [|split]; simpl.
    + intros node p Hp. rewrite lookup_insert_ne; [done|]. congruence.
    + intros p st Hst. rewrite lookup_insert_ne; [done|]. congruence.
    + intros node p Hp _ <-. apply (wf_states _ Hwf) in Hp as [? ?]. congruence.
Qed.

Lemma backing_off_step node until t l t' :
  step t l t' -> forgets node l = false -> wf t ->
  (forall now, label_time l = Some now -> (now < until)%Z) ->
  backing_off node until t ->
  backing_off node until t' /\ (forall now, l <> LStart node now true).
Proof.
  intros Hs Hf Hwf Hnow (p & st & Hp & Hst & Hfree & Herr & Hret).
  destruct Hs as [t n now t' b Hstart|t g err now Hg|t n].
  - specialize (Hnow now eq_refl). pose proof Hstart as Hb. apply start_spec in Hb.
    assert (refused st now = true) as Href.
    { unfold refused. rewrite !bool_decide_true by (done || lia). apply orb_true_r. }
    unfold start in Hstart. destruct (entry t n) as [t1 q] eqn:He.
    pose proof (wf_entry _ _ _ _ He Hwf) as (_ & Hq & Htk).
    pose proof (entry_other _ _ _ _ He Hwf) as (Hst1 & Hhp1 & Hne1).
    destruct (decide (n = node)) as [->|Hne].
    + rewrite Hp, (deref_lookup _ _ _ Hst), Href in Hb. simpl in Hb. subst b.
      split; [|by intros now' [=]]. destruct (refused _ _); simplify_eq.
      exists p, st. rewrite Htk. auto.
    + split; [|intros now' [=]; congruence].
      assert (q <> p) as Hqp by (eapply Hne1; eauto).
      destruct (refused _ _); simplify_eq; exists p, st; simpl;
        (split; [by apply Hst1|]); [rewrite Htk; auto|].
      rewrite lookup_insert_ne by done. split; [by apply Hhp1|]. split; [|done].
      intros g [->|Hg]%elem_of_cons; [done|]. rewrite Htk in Hg. by apply Hfree.
  - split; [|done]. exists p, st. simpl. split; [done|].
    rewrite lookup_insert_ne by (by apply Hfree). split; [done|]. split; [|done].
    intros g' [_ Hg']%list_elem_of_filter. by apply Hfree.
  - split; [|done]. simpl in Hf. apply bool_decide_eq_false in Hf.
    exists p, st. simpl. by rewrite lookup_delete_ne by done.
Qed.

(** The retry floor.  When the evacuation of [node] fails at time [now0]
    and [node] is not forgotten, no interleaving of later critical sections
    that happen before [now0] plus the 30 second backoff starts another
    evacuation of [node]. *)
Theorem tracker_backoff ls0 t g e now0 ls t' :
  steps newEvacuationTracker ls0 t -> Forall (fun l => forgets (task_node g) l = false) ls0 ->
  g ∈ tasks t ->
  steps (finish t g (Some e) now0) ls t' ->
  Forall (fun l => forgets (task_node g) l = false /\
                   forall now, label_time l = Some now ->
                     (now < now0 + 30 * Second)%Z) ls ->
  forall now, LStart (task_node g) now true ∉ ls.
Proof.
  intros Hs0 Hf0 Hg Hs Hls now.
  destruct (owned_steps (task_node g) _ _ _ Hs0 Hf0 wf_new) as [Hwf Ho];
    [intros g' Hg'; set_solver|].
  assert (backing_off (task_node g) (now0 + 30 * Second)
            (finish t g (Some e) now0)) as Hb.
  { eexists (task_ptr g), _. simpl. rewrite lookup_insert_eq.
    split; [by apply Ho|]. split; [done|]. simpl.
    split; [|split; [done|unfold evacuationRetryBackoff; lia]].
    intros g' [Hne Hg']%list_elem_of_filter Heq. apply Hne.
    eapply NoDup_fmap_elem; eauto using wf_tasks. }
  pose proof (wf_finish t g (Some e) now0 Hg Hwf) as Hwf'.
  clear Hs0 Hf0 Ho. remember (finish t g (Some e) now0) as u eqn:Hu. clear Hu.
  revert Hls Hb Hwf'. induction Hs as [u|u l u1 ls u2 Hs1 Hss IH]; [set_solver|].
  rewrite Forall_cons. intros [[Hf Ht] Hls] Hb Hw.
  destruct (backing_off_step _ _ _ _ _ Hs1 Hf Hw Ht Hb) as [Hb1 Hn].
  apply not_elem_of_cons. split; [by intros ->%eq_sym; eapply Hn|].
  apply IH; [done|done|by eapply wf_step].
Qed.

Lemma tracker_backoff_witness :
  let t := (start newEvacuationTracker "a" 0%Z).1 in
  let u := finish t g0 (Some (ErrOther "x")) (10 * Second)%Z in
  exists t', steps u [LStart "a" (39 * Second)%Z false] t' /\
    forall now, LStart "a" now true ∉ [LStart "a" (39 * Second)%Z false].
Proof.
  intros t u. exists (start u "a" (39 * Second)%Z).1.
  assert (steps u [LStart "a" (39 * Second)%Z false] (start u "a" (39 * Second)%Z).1) as Hs.
  { eapply steps_cons; [apply step_start; by vm_compute|constructor]. }
  split; [done|].
  apply (tracker_backoff [LStart "a" 0%Z true] t g0 (ErrOther "x") (10 * Second)%Z
           _ (start u "a" (39 * Second)%Z).1); [| | |exact Hs|].
  - eapply steps_cons; [by apply step_start|constructor].
  - repeat constructor.
  - by left.
  - constructor; [|constructor]. split; [done|]. intros now [= <-]. by vm_compute.
Defined.
End Tracker.
