(* ===== verification/Trace.v ===== *)
(** * Traces and guards

    The environment in which every answer is possible: it only remembers the
    calls a handler made and the answers it got.  A [Guard] says, given the
    calls so far, which call is allowed next; [swp] is the weakest precondition
    of "every call is allowed when it is made, and the result satisfies [Q]".
    The safety theorems of the controllers are guards: they hold whatever the
    API server and the admin services answer. *)
From S2P Require Import Prelude Prog CoreTypes ApiTypes Effects.

Record event := Ev { ev_X : Type; ev_call : opE ev_X; ev_answer : ev_X }.
Arguments Ev {ev_X} ev_call ev_answer.
Abbreviation trace := (list event).

Definition trace_env : Env opE trace := fun X e tr x tr' => tr' = tr ++ [Ev e x].

(** The handler saw the answer [x] to the call [e]. *)
Definition saw (tr : trace) {X} (e : opE X) (x : X) : Prop := Ev e x ∈ tr.
Definition saw_kube (tr : trace) {X} (e : kubeE X) (x : X) : Prop := saw tr (OKube e) x.

Definition Guard := trace -> forall X, opE X -> Prop.

(** Every call of the trace was allowed by the calls before it. *)
Definition guarded (G : Guard) (tr : trace) : Prop :=
  forall pre ev post, tr = pre ++ ev :: post -> G pre _ (ev_call ev).

Fixpoint swp {A} (G : Guard) (p : op A) (Q : A -> trace -> Prop) (tr : trace) : Prop :=
  match p with
  | Ret a => Q a tr
  | Vis e k => G tr _ e /\ forall x, swp G (k x) Q (tr ++ [Ev e x])
  end.

Lemma saw_app_l tr tr' {X} (e : opE X) x : saw tr e x -> saw (tr ++ tr') e x.
Proof. unfold saw. set_solver. Qed.
Lemma saw_last tr {X} (e : opE X) x : saw (tr ++ [Ev e x]) e x.
Proof. unfold saw. set_solver. Qed.

#[export] Hint Resolve saw_last : trace.
#[export] Hint Extern 2 (saw (_ ++ _) _ _) => apply saw_app_l : trace.
#[export] Hint Unfold saw_kube : trace.

(** One step of symbolic execution: reduce the program constructors and nothing
    else, so that subprograms stay folded and their specifications apply. *)
Ltac sx := cbn [swp bind bind_seg call kube iam bkt negb] in *.

Ltac wx := cbn [wp bind bind_seg call kube iam bkt negb] in *.

Section swp.
Context (G : Guard).

Lemma swp_mono {A} (p : op A) (Q Q' : A -> trace -> Prop) tr :
  (forall a tr', Q a tr' -> Q' a tr') -> swp G p Q tr -> swp G p Q' tr.
Proof.
  intros HQ. revert tr; induction p as [a|X e k IH]; intros tr; simpl; [by apply HQ|].
  intros [HG H]. split; [done|]. intros x. by apply IH.
Qed.

Lemma swp_bind {A B} (p : op A) (f : A -> op B) Q tr :
  swp G (bind p f) Q tr <-> swp G p (fun a tr' => swp G (f a) Q tr') tr.
Proof.
  revert tr; induction p as [a|X e k IH]; intros tr; simpl; [done|].
  split; intros [HG H]; (split; [done|]); intros x; by apply IH.
Qed.

Lemma swp_seq {A B} (p : op A) (f : A -> op B) (R : A -> trace -> Prop) Q tr :
  swp G p R tr -> (forall a tr', R a tr' -> swp G (f a) Q tr') ->
  swp G (bind p f) Q tr.
Proof. intros Hp Hf. apply swp_bind. eapply swp_mono; [|exact Hp]. eauto. Qed.

(** Executions extend the trace. *)
Lemma exec_extends {A} (p : op A) tr tr' a :
  exec trace_env p tr tr' a -> exists new, tr' = tr ++ new.
Proof.
  revert tr; induction p as [b|X e k IH]; intros tr; simpl.
  - intros [-> _]. exists []. by rewrite app_nil_r.
  - intros (x & tr1 & -> & (new & ->)%IH). exists (Ev e x :: new). by rewrite <-app_assoc.
Qed.

Lemma swp_sound {A} (p : op A) Q tr tr' a :
  swp G p Q tr -> guarded G tr -> exec trace_env p tr tr' a -> guarded G tr' /\ Q a tr'.
Proof.
  revert tr; induction p as [b|X e k IH]; intros tr; simpl.
  - intros HQ Hg [-> ->]. done.
  - intros [HG Hk] Hg (x & tr1 & -> & He). apply (IH x (tr ++ [Ev e x])); [done| |done].
    intros pre ev post Heq. destruct post as [|ev' post _] using rev_ind.
    + apply app_inj_2 in Heq as [<- Heq]; [|done].
      assert (ev = Ev e x) as -> by congruence. done.
    + rewrite app_comm_cons, app_assoc in Heq. apply app_inj_2 in Heq as [Heq _]; [|done].
      by eapply Hg.
Qed.

(** The trace reaches the postcondition with everything seen before kept. *)
Lemma swp_extends {A} (p : op A) Q tr :
  swp G p Q tr -> swp G p (fun a tr' => (exists new, tr' = tr ++ new) /\ Q a tr') tr.
Proof.
  revert tr; induction p as [b|X e k IH]; intros tr; simpl.
  - intros HQ. split; [|done]. exists []. by rewrite app_nil_r.
  - intros [HG Hk]. split; [done|]. intros x. eapply swp_mono; [|apply IH, Hk].
    intros a tr' [[new ->] HQ]. split; [|done].
    exists (Ev e x :: new). by rewrite <-app_assoc.
Qed.

(** Sequencing after a subprogram with a known specification keeps what was
    seen before it. *)
Lemma swp_seq_keep {A B} (p : op A) (f : A -> op B) (R : A -> trace -> Prop) Q tr :
  swp G p R tr ->
  (forall a new, R a (tr ++ new) -> swp G (f a) Q (tr ++ new)) ->
  swp G (bind p f) Q tr.
Proof.
  intros Hp Hf. eapply swp_seq; [apply swp_extends, Hp|].
  intros a tr' [[new ->] HR]. eauto.
Qed.

(** A guard that allows more, after what was seen. *)
Lemma swp_weaken {A} (G' : Guard) (p : op A) Q tr :
  (forall new X (e : opE X), G (tr ++ new) X e -> G' (tr ++ new) X e) -> swp G p Q tr -> swp G' p Q tr.
Proof.
  revert tr; induction p as [b|X e k IH]; intros tr HG; simpl; [done|]. intros [Hg Hk]. split.
  - rewrite <-(app_nil_r tr). apply HG. by rewrite app_nil_r.
  - intros x. apply IH; [|done]. intros new. rewrite <-app_assoc. apply HG.
Qed.

(** Loops, with an assertion indexed by the elements already processed. *)
Lemma swp_fold_until {A B R} (body : A -> B -> op (R + B))
    (I : list A -> B -> trace -> Prop) (F : R -> trace -> Prop) (l dn : list A) b tr :
  (forall dn' a rest b tr, dn ++ l = dn' ++ a :: rest -> I dn' b tr ->
     swp G (body a b)
       (fun r tr1 => match r with inl x => F x tr1 | inr b' => I (dn' ++ [a]) b' tr1 end) tr) ->
  I dn b tr ->
  swp G (fold_until l b body)
    (fun r tr1 => match r with inl x => F x tr1 | inr b' => I (dn ++ l) b' tr1 end) tr.
Proof.
  revert dn b tr; induction l as [|a l IH]; intros dn b tr Hb HI; simpl.
  - by rewrite app_nil_r.
  - eapply swp_seq; [by apply (Hb dn a l)|]. intros [x|b'] tr1 H1; simpl; [done|].
    rewrite (cons_middle a dn l), (app_assoc dn [a] l). apply (IH (dn ++ [a])); [|done].
    intros dn' a' rest b0 s0 Heq. apply (Hb dn' a' rest). by rewrite <-Heq, <-app_assoc.
Qed.

Lemma swp_for_until {A R} (body : A -> op (option R))
    (I : list A -> trace -> Prop) (F : R -> trace -> Prop) (l dn : list A) tr :
  (forall dn' a rest tr, dn ++ l = dn' ++ a :: rest -> I dn' tr ->
     swp G (body a)
       (fun r tr1 => match r with Some x => F x tr1 | None => I (dn' ++ [a]) tr1 end) tr) ->
  I dn tr ->
  swp G (for_until l body)
    (fun r tr1 => match r with Some x => F x tr1 | None => I (dn ++ l) tr1 end) tr.
Proof.
  revert dn tr; induction l as [|a l IH]; intros dn tr Hb HI; simpl.
  - by rewrite app_nil_r.
  - eapply swp_seq; [by apply (Hb dn a l)|]. intros [x|] tr1 H1; simpl; [done|].
    rewrite (cons_middle a dn l), (app_assoc dn [a] l). apply (IH (dn ++ [a])); [|done].
    intros dn' a' rest s0 Heq. apply (Hb dn' a' rest). by rewrite <-Heq, <-app_assoc.
Qed.
End swp.

(** From a triple to the statement the theorems make. *)
Lemma swp_theorem (G : Guard) {A} (p : op A) Q tr a :
  swp G p Q [] -> exec trace_env p [] tr a -> guarded G tr /\ Q a tr.
Proof. intros Hp. apply swp_sound; [done|]. intros pre ev post Heq. by destruct pre. Qed.

(** The trace a deterministic handler produces. *)
Definition tracing {S} (h : Handler opE S) : Handler opE (S * trace) := fun X e s =>
  let '(s1, x) := h X e s.1 in ((s1, s.2 ++ [Ev e x]), x).
Lemma run_tracing {S A} (h : Handler opE S) (p : op A) s tr :
  exec trace_env p tr (run (tracing h) p (s, tr)).1.2 (run (tracing h) p (s, tr)).2.
Proof.
  revert s tr; induction p as [a|X e k IH]; intros s tr; [done|].
  simpl. destruct (tracing h X e (s, tr)) as [[s1 tr1] x] eqn:Ht.
  exists x, tr1. split; [|apply IH].
  unfold tracing in Ht; simpl in Ht. destruct (h X e s) as [s2 y]. by simplify_eq.
Qed.
