(* ===== verification/Upsert.v ===== *)
(** * Writing the operator's objects (controller_util.go)

    [CreateOrUpdate] and its instances for Secrets, ConfigMaps, Deployments,
    Services, Ingresses and ServiceMonitors, and the removal of an object the
    operator owns.  The spec a Deployment, Service or Ingress was last applied with
    is kept as JSON in an annotation. *)
From S2P Require Import Prelude Prog CoreTypes ApiTypes Effects Machinery Sim Trace.

(** ** Any object

    [Semantic.DeepEqual] compares two objects of a kind: their fields, and
    quantities by their value. *)
Class Semantic (k : Kind) := semantic_equal : Obj k -> Obj k -> bool.
Definition canonical (q : Quantity) : Quantity :=
  {| q_Sign := Z.sgn (q_Nano q); q_AsInt64 := None; q_String := ""; q_Nano := q_Nano q |}.
Definition canonical_container (c : Container) : Container := {|
  c_Name := c_Name c; c_Image := c_Image c; c_ImagePullPolicy := c_ImagePullPolicy c;
  c_SecurityContext := c_SecurityContext c; c_Env := c_Env c; c_EnvFrom := c_EnvFrom c;
  c_Resources := {| Requests := canonical <$> Requests (c_Resources c);
                    Limits := canonical <$> Limits (c_Resources c) |};
  c_Command := c_Command c; c_Args := c_Args c; c_Ports := c_Ports c; c_VolumeMounts := c_VolumeMounts c;
  c_ReadinessProbe := c_ReadinessProbe c; c_LivenessProbe := c_LivenessProbe c |}.
Definition canonical_pod (p : PodSpec) : PodSpec := {|
  pod_RestartPolicy := pod_RestartPolicy p; pod_SchedulerName := pod_SchedulerName p;
  pod_Affinity := pod_Affinity p; pod_NodeSelector := pod_NodeSelector p;
  pod_HostNetwork := pod_HostNetwork p; pod_HostPID := pod_HostPID p; pod_Tolerations := pod_Tolerations p;
  pod_PriorityClassName := pod_PriorityClassName p; pod_ServiceAccountName := pod_ServiceAccountName p;
  pod_ImagePullSecrets := pod_ImagePullSecrets p;
  pod_TerminationGracePeriodSeconds := pod_TerminationGracePeriodSeconds p;
  pod_SecurityContext := pod_SecurityContext p; pod_EnableServiceLinks := pod_EnableServiceLinks p;
  pod_Containers := map canonical_container (pod_Containers p);
  pod_InitContainers := map canonical_container (pod_InitContainers p); pod_Volumes := pod_Volumes p |}.
Definition with_dep_pod (p : PodSpec) (d : Deployment) : Deployment := {|
  dep_Meta := dep_Meta d; dep_Replicas := dep_Replicas d; dep_Selector := dep_Selector d;
  dep_StrategyType := dep_StrategyType d; dep_RollingUpdate := dep_RollingUpdate d;
  dep_TemplateLabels := dep_TemplateLabels d; dep_TemplateAnnotations := dep_TemplateAnnotations d;
  dep_Pod := p; dep_StatusReplicas := dep_StatusReplicas d; dep_AvailableReplicas := dep_AvailableReplicas d; dep_ReadyReplicas := dep_ReadyReplicas d |}.
Definition with_sts_pod (p : PodSpec) (s : StatefulSet) : StatefulSet := {|
  sts_Meta := sts_Meta s; sts_ServiceName := sts_ServiceName s;
  sts_PodManagementPolicy := sts_PodManagementPolicy s; sts_Replicas := sts_Replicas s;
  sts_UpdateStrategy := sts_UpdateStrategy s; sts_Selector := sts_Selector s;
  sts_TemplateLabels := sts_TemplateLabels s; sts_TemplateAnnotations := sts_TemplateAnnotations s;
  sts_Pod := p; sts_VolumeClaimTemplates := sts_VolumeClaimTemplates s;
  sts_RetentionPolicy := sts_RetentionPolicy s; sts_ReadyReplicas := sts_ReadyReplicas s |}.
Definition with_ds_pod (p : PodSpec) (d : DaemonSet) : DaemonSet := {|
  ds_Meta := ds_Meta d; ds_Selector := ds_Selector d; ds_UpdateStrategy := ds_UpdateStrategy d;
  ds_TemplateLabels := ds_TemplateLabels d; ds_TemplateAnnotations := ds_TemplateAnnotations d; ds_Pod := p;
  ds_DesiredNumberScheduled := ds_DesiredNumberScheduled d; ds_NumberReady := ds_NumberReady d |}.

#[export] Instance secret_semantic : Semantic KSecret := fun a b => bool_decide ((a : Secret) = b).
#[export] Instance configmap_semantic : Semantic KConfigMap := fun a b => bool_decide ((a : ConfigMap) = b).
#[export] Instance service_semantic : Semantic KService := fun a b => bool_decide ((a : Service) = b).
#[export] Instance ingress_semantic : Semantic KIngress := fun a b => bool_decide ((a : Ingress) = b).
#[export] Instance monitor_semantic : Semantic KServiceMonitor :=
  fun a b => bool_decide ((a : ServiceMonitor) = b).
#[export] Instance deployment_semantic : Semantic KDeployment := fun a b =>
  bool_decide (with_dep_pod (canonical_pod (dep_Pod a)) a = with_dep_pod (canonical_pod (dep_Pod b)) b).
#[export] Instance statefulset_semantic : Semantic KStatefulSet := fun a b =>
  bool_decide (with_sts_pod (canonical_pod (sts_Pod a)) a = with_sts_pod (canonical_pod (sts_Pod b)) b).
#[export] Instance daemonset_semantic : Semantic KDaemonSet := fun a b =>
  bool_decide (with_ds_pod (canonical_pod (ds_Pod a)) a = with_ds_pod (canonical_pod (ds_Pod b)) b).

(** [EmptyClone] and [InferObjectKind] only fail for kinds that are not registered
    in the scheme; the modelled kinds are.  A merge may have effects of its own. *)
Definition merge_existing (k : Kind) `{Semantic k} {E} `{Fails E} (obj : Obj k)
    (mergeFn : Obj k -> Obj k -> op (E + Obj k)) (existing : Obj k) : op (E + Obj k) :=
  try mutated <- mergeFn existing obj catch err => Ret (inl err);
  if negb (semantic_equal existing mutated) then
    check kube (KUpdate k mutated) catch err => Ret (inl (failed err));
    Ret (inr mutated)
  else Ret (inr mutated).
Definition CreateOrUpdate (k : Kind) `{Semantic k} {E} `{Fails E} (obj : Obj k)
    (mergeFn : Obj k -> Obj k -> op (E + Obj k)) : op (E + Obj k) :=
  let key := obj_key obj in
  do r <- kube (KGet k key);
  match r with
  | inr existing => merge_existing k obj mergeFn existing
  | inl getErr =>
      if negb (IsNotFound getErr) then Ret (inl (failed getErr))
      else
        do c <- kube (KCreate k obj);
        match c with
        | None => Ret (inr obj)
        | Some createErr =>
            if negb (IsAlreadyExists createErr) then Ret (inl (failed createErr))
            else try existing <- kube (KGet k key) catch err => Ret (inl (failed err));
                 merge_existing k obj mergeFn existing
        end
  end.
(** A merge without effects. *)
Definition pure_merge {k : Kind} {E} (f : Obj k -> Obj k -> E + Obj k) (existing desired : Obj k)
    : op (E + Obj k) := Ret (f existing desired).

(** ** What an upsert may do

    It reads the object, creates what was asked for when it was absent, and
    updates to a merge of what it read. *)
Lemma CreateOrUpdate_swp (k : Kind) `{Semantic k} {E} `{Fails E} (G : Guard) obj
    (mergeFn : Obj k -> Obj k -> op (E + Obj k)) tr Q :
  (forall tr', G (tr ++ tr') _ (OKube (KGet k (obj_key obj)))) ->
  (forall tr', G (tr ++ tr') _ (OKube (KCreate k obj))) ->
  (forall tr' existing,
     saw_kube (tr ++ tr') (KGet k (obj_key obj)) (Ok existing) ->
     swp G (mergeFn existing obj) (fun r tr1 =>
       match r with
       | inl e => Q (inl e) tr1
       | inr mutated => semantic_equal existing mutated = false -> G tr1 _ (OKube (KUpdate k mutated))
       end) (tr ++ tr')) ->
  (forall r tr', (forall f, r = inl f -> exists e, f = failed e) -> Q r (tr ++ tr')) ->
  swp G (CreateOrUpdate k obj mergeFn) Q tr.
Proof.
  intros Hget Hcreate Hmerge HQ'.
  assert (HQ : forall r tr', match r with inl f => exists e, f = failed e | inr _ => True end -> Q r (tr ++ tr')).
  { intros [f|o] tr' Hf; apply HQ'; [by intros ? [= <-]|done]. }
  assert (Hm : forall ex tr', saw_kube (tr ++ tr') (KGet k (obj_key obj)) (Ok ex) ->
            swp G (merge_existing k obj mergeFn ex) Q (tr ++ tr')).
  { intros ex tr' Hsaw. unfold merge_existing. eapply swp_seq_keep; [by apply Hmerge|].
    intros [e|m] new Hr; sx; [done|]. rewrite <-app_assoc in *.
    destruct (semantic_equal ex m); cbn [negb]; sx; [by apply HQ|].
    split; [by apply Hr|]. intros [e|]; sx; rewrite <-!app_assoc; apply HQ; [by eexists|done]. }
  unfold CreateOrUpdate. cbv zeta. sx. split; [rewrite <-(app_nil_r tr); apply Hget|].
  intros [e|ex]; sx; [|apply Hm, saw_last].
  destruct (IsNotFound e); cbn [negb]; sx; [|apply HQ; by eexists]. split; [apply Hcreate|].
  rewrite <-?app_assoc. intros [e'|]; rewrite <-?app_assoc; sx; [|by apply HQ].
  destruct (IsAlreadyExists e'); cbn [negb]; sx; [|apply HQ; by eexists]. split; [apply Hget|].
  intros [e''|ex]; rewrite <-?app_assoc; sx; [apply HQ; by eexists|]. apply Hm.
  rewrite app_assoc. rewrite (app_assoc _ [_]). apply saw_last.
Qed.
(** The same for a merge without effects. *)
Lemma CreateOrUpdate_pure_swp (k : Kind) `{Semantic k} {E} `{Fails E} (G : Guard) obj
    (f : Obj k -> Obj k -> E + Obj k) tr (Q : _ -> trace -> Prop) :
  (forall tr', G (tr ++ tr') _ (OKube (KGet k (obj_key obj)))) ->
  (forall tr', G (tr ++ tr') _ (OKube (KCreate k obj))) ->
  (forall tr' existing mutated,
     saw_kube (tr ++ tr') (KGet k (obj_key obj)) (Ok existing) ->
     f existing obj = inr mutated -> semantic_equal existing mutated = false ->
     G (tr ++ tr') _ (OKube (KUpdate k mutated))) ->
  (forall r tr', Q r (tr ++ tr')) ->
  swp G (CreateOrUpdate k obj (pure_merge f)) Q tr.
Proof.
  intros Hget Hcreate Hupdate HQ. apply CreateOrUpdate_swp; [done|done| |by intros].
  intros tr' ex Hsaw. unfold pure_merge. destruct (f ex obj) as [e|m] eqn:Hf; sx; [apply HQ|].
  by eapply Hupdate.
Qed.

(** ** Secrets and ConfigMaps *)
Definition set_meta (labels annotations : gmap string string) (m : ObjectMeta) : ObjectMeta := {|
  Name := Name m; Namespace := Namespace m; Generation := Generation m;
  CreationTimestamp := CreationTimestamp m; DeletionTimestamp := DeletionTimestamp m;
  Labels := labels; Annotations := annotations; Finalizers := Finalizers m;
  OwnerReferences := OwnerReferences m; UID := UID m |}.
(** Every instance merges the labels and annotations this way. *)
Definition merge_meta (existing desired : ObjectMeta) : ObjectMeta :=
  set_meta (Labels desired) (Annotations desired ∪ Annotations existing) existing.
Definition merge_secret (existing desired : Secret) : Secret := {|
  sec_Meta := merge_meta (sec_Meta existing) (sec_Meta desired);
  sec_Data := sec_Data desired |}.
Definition CreateOrUpdateSecret (secret : Secret) : op (result Secret) :=
  CreateOrUpdate KSecret secret (pure_merge (k:=KSecret) (fun existing desired => Ok (merge_secret existing desired))).
Definition merge_configmap (existing desired : ConfigMap) : ConfigMap := {|
  cm_Meta := merge_meta (cm_Meta existing) (cm_Meta desired);
  cm_Data := cm_Data desired |}.
Definition CreateOrUpdateConfigMap (configMap : ConfigMap) : op (result ConfigMap) :=
  CreateOrUpdate KConfigMap configMap
    (pure_merge (k:=KConfigMap) (fun existing desired => Ok (merge_configmap existing desired))).

(** ** Deployments

    The annotations hold specs as JSON; encoding them never fails. *)
Class SpecJSON (A : Type) := {
  marshal_spec : A -> string;
  unmarshal_spec : string -> option A;
}.
Class SpecJSONLaws (A : Type) `{SpecJSON A} := {
  spec_json_roundtrip x : unmarshal_spec (marshal_spec x) = Some x;
}.

Definition LastAppliedPodTemplate : string := "seaweedfs.com/last-applied-podtemplate".
Definition LastAppliedConfigAnnotation : string := "seaweedfs.com/last-applied-configuration".
Definition annotate (m : ObjectMeta) (key value : string) : ObjectMeta :=
  set_meta (Labels m) (<[key := value]> (Annotations m)) m.
(** The arguments of [DeepEqual] that [DeploymentPodSpecChanged] passes: a pod spec
    and a pointer to one.  [DeepEqual] of values of different types is false. *)
Inductive pod_argument :=
| PodSpecValue (p : PodSpec)
| PodSpecPointer (p : PodSpec).
Definition DeepEqual (a b : pod_argument) : bool :=
  match a, b with
  | PodSpecValue p, PodSpecValue q | PodSpecPointer p, PodSpecPointer q =>
      bool_decide (canonical_pod p = canonical_pod q)
  | _, _ => false
  end.

Section deployments.
Context `{SpecJSON PodSpec}.

Definition addSpecToAnnotation (d : Deployment) : Deployment := {|
  dep_Meta := annotate (dep_Meta d) LastAppliedPodTemplate (marshal_spec (dep_Pod d));
  dep_Replicas := dep_Replicas d; dep_Selector := dep_Selector d; dep_StrategyType := dep_StrategyType d;
  dep_RollingUpdate := dep_RollingUpdate d; dep_TemplateLabels := dep_TemplateLabels d;
  dep_TemplateAnnotations := dep_TemplateAnnotations d; dep_Pod := dep_Pod d;
  dep_StatusReplicas := dep_StatusReplicas d; dep_AvailableReplicas := dep_AvailableReplicas d; dep_ReadyReplicas := dep_ReadyReplicas d |}.

Definition GetDeploymentLastAppliedPodTemplate (dep : Deployment) : result PodSpec :=
  match Annotations (dep_Meta dep) !! LastAppliedPodTemplate with
  | None => Err (ErrOther ("deployment:[" +:+ Namespace (dep_Meta dep) +:+ "/" +:+ Name (dep_Meta dep) +:+
                           "] not found spec's apply config"))
  | Some applied => match unmarshal_spec applied with
                    | Some podSpec => Ok podSpec
                    | None => Err (ErrOther "json")
                    end
  end.
Definition DeploymentPodSpecChanged (newDep oldDep : Deployment) : bool :=
  match GetDeploymentLastAppliedPodTemplate oldDep with
  | inl _ => true
  | inr lastAppliedPodTemplate =>
      negb (DeepEqual (PodSpecValue (dep_Pod newDep)) (PodSpecPointer lastAppliedPodTemplate))
  end.

(** The assignment to an entry of a nil map panics. *)
Definition merge_template_annotations (existing desired : option (gmap string string))
    : failure + option (gmap string string) :=
  match desired with
  | None => inr existing
  | Some d => if bool_decide (d = ∅) then inr existing
              else match existing with Some e => inr (Some (d ∪ e)) | None => inl Panicked end
  end.
Definition merge_deployment (existing desired : Deployment) : failure + Deployment :=
  let meta := merge_meta (dep_Meta existing) (dep_Meta desired) in
  let explicit := negb (bool_decide (dep_StrategyType desired = "")) in
  match merge_template_annotations (dep_TemplateAnnotations existing) (dep_TemplateAnnotations desired) with
  | inl fail => inl fail
  | inr templateAnnotations =>
      let merged := {|
        dep_Meta := meta; dep_Replicas := dep_Replicas desired; dep_Selector := dep_Selector existing;
        dep_StrategyType := if explicit then dep_StrategyType desired else dep_StrategyType existing;
        dep_RollingUpdate := if explicit && bool_decide (dep_RollingUpdate existing <> None)
                             then dep_RollingUpdate desired else dep_RollingUpdate existing;
        dep_TemplateLabels := dep_TemplateLabels existing; dep_TemplateAnnotations := templateAnnotations;
        dep_Pod := dep_Pod existing; dep_StatusReplicas := dep_StatusReplicas existing; dep_AvailableReplicas := dep_AvailableReplicas existing;
        dep_ReadyReplicas := dep_ReadyReplicas existing |} in
      if DeploymentPodSpecChanged desired merged then
        inr {| dep_Meta := annotate meta LastAppliedConfigAnnotation (marshal_spec (dep_Pod desired));
              dep_Replicas := dep_Replicas merged; dep_Selector := dep_Selector merged;
              dep_StrategyType := dep_StrategyType merged; dep_RollingUpdate := dep_RollingUpdate merged;
              dep_TemplateLabels := dep_TemplateLabels merged;
              dep_TemplateAnnotations := dep_TemplateAnnotations merged;
              dep_Pod := dep_Pod desired; dep_StatusReplicas := dep_StatusReplicas merged; dep_AvailableReplicas := dep_AvailableReplicas merged;
              dep_ReadyReplicas := dep_ReadyReplicas merged |}
      else inr merged
  end.
Definition CreateOrUpdateDeployment (deploy : Deployment) : op (failure + Deployment) :=
  CreateOrUpdate KDeployment (addSpecToAnnotation deploy) (pure_merge (k:=KDeployment) merge_deployment).
End deployments.

(** ** Services *)
Definition ServiceTypeNodePort : string := "NodePort".
Definition ServiceTypeLoadBalancer : string := "LoadBalancer".
Definition external_type (type : string) : bool :=
  bool_decide (type = ServiceTypeNodePort) || bool_decide (type = ServiceTypeLoadBalancer).
(** The node port of a desired port is that of the existing port it matches. *)
Definition keep_node_port (ports : list ServicePort) (dport : ServicePort) : ServicePort :=
  match List.find (fun eport => bool_decide (sp_Port dport = sp_Port eport) &&
                                bool_decide (sp_Protocol dport = sp_Protocol eport)) ports with
  | Some eport => {| sp_Name := sp_Name dport; sp_Protocol := sp_Protocol dport; sp_Port := sp_Port dport;
                     sp_TargetPort := sp_TargetPort dport; sp_NodePort := sp_NodePort eport |}
  | None => dport
  end.
Section services.
Context `{SpecJSON ServiceObjSpec}.
Definition ServiceEqual (newSvc oldSvc : Service) : result bool :=
  match Annotations (svc_Meta oldSvc) !! LastAppliedConfigAnnotation with
  | Some lastAppliedConfig =>
      match unmarshal_spec lastAppliedConfig with
      | None => Err (ErrOther "json")
      | Some oldSpec => Ok (bool_decide (oldSpec = svc_Spec newSvc))
      end
  | None => Ok false
  end.
Definition merge_service (existing desired : Service) : result Service :=
  let meta := merge_meta (svc_Meta existing) (svc_Meta desired) in
  let old := svc_Spec existing in
  let new := svc_Spec desired in
  match ServiceEqual desired {| svc_Meta := meta; svc_Spec := old |} with
  | inl err => Err err
  | inr equal =>
      if negb equal then
        let ports := if external_type (svc_Type old) && external_type (svc_Type new)
                     then map (keep_node_port (svc_Ports old)) (svc_Ports new) else svc_Ports new in
        Ok {| svc_Meta := annotate meta LastAppliedConfigAnnotation (marshal_spec new);
              svc_Spec := {| svc_Type := svc_Type new; svc_ClusterIP := svc_ClusterIP old;
                             svc_LoadBalancerIP := svc_LoadBalancerIP new;
                             svc_PublishNotReadyAddresses := svc_PublishNotReadyAddresses new;
                             svc_Ports := ports; svc_Selector := svc_Selector new |} |}
      else Ok {| svc_Meta := meta; svc_Spec := old |}
  end.
Definition CreateOrUpdateService (svc : Service) : op (result Service) :=
  CreateOrUpdate KService svc (pure_merge (k:=KService) merge_service).
End services.

(** ** Ingresses and ServiceMonitors *)
Section ingresses.
Context `{SpecJSON IngressObjSpec}.
Definition IngressEqual (newIngress oldIngres : Ingress) : result bool :=
  match Annotations (ing_Meta oldIngres) !! LastAppliedConfigAnnotation with
  | Some lastAppliedConfig =>
      match unmarshal_spec lastAppliedConfig with
      | None => Err (ErrOther "json")
      | Some oldIngressSpec => Ok (bool_decide (oldIngressSpec = ing_Spec newIngress))
      end
  | None => Ok false
  end.
Definition merge_ingress (existing desired : Ingress) : result Ingress :=
  let meta := merge_meta (ing_Meta existing) (ing_Meta desired) in
  match IngressEqual desired {| ing_Meta := meta; ing_Spec := ing_Spec existing |} with
  | inl err => Err err
  | inr equal =>
      if negb equal then
        Ok {| ing_Meta := annotate meta LastAppliedConfigAnnotation (marshal_spec (ing_Spec desired));
              ing_Spec := ing_Spec desired |}
      else Ok {| ing_Meta := meta; ing_Spec := ing_Spec existing |}
  end.
Definition CreateOrUpdateIngress (ingress : Ingress) : op (result Ingress) :=
  CreateOrUpdate KIngress ingress (pure_merge (k:=KIngress) merge_ingress).
End ingresses.

(** A missing ServiceMonitor kind is found out once and is no error. *)
Definition probeServiceMonitorCRD : op bool :=
  do r <- kube (KList KServiceMonitor None ∅);
  match r with
  | inr _ => Ret true
  | inl err => if IsNoMatchError err then Ret false else Ret true
  end.
Definition merge_servicemonitor (existing desired : ServiceMonitor) : ServiceMonitor := {|
  sm_Meta := merge_meta (sm_Meta existing) (sm_Meta desired); sm_Selector := sm_Selector desired;
  sm_NamespaceSelector := sm_NamespaceSelector desired; sm_Endpoints := sm_Endpoints desired |}.
Definition CreateOrUpdateServiceMonitor (serviceMonitor : ServiceMonitor) : op (result (option ServiceMonitor)) :=
  do available <- call OMonitorAvailable;
  if negb available then Ret (Ok None)
  else
    do r <- CreateOrUpdate KServiceMonitor serviceMonitor
              (pure_merge (k:=KServiceMonitor) (fun existing desired => Ok (merge_servicemonitor existing desired)));
    match r with
    | inr sm => Ret (Ok (Some sm))
    | inl err => if IsNoMatchError err
                 then do _ <- call OMonitorUnavailable; Ret (Ok None)
                 else Ret (Err err)
    end.

(** ** What an upsert of a Deployment changes *)
Section applied.
Context `{SpecJSON PodSpec}.

(** The comparison is of a spec with a pointer to one, so it always finds a change. *)
Lemma DeploymentPodSpecChanged_always newDep oldDep : DeploymentPodSpecChanged newDep oldDep = true.
Proof. unfold DeploymentPodSpecChanged. by destruct (GetDeploymentLastAppliedPodTemplate oldDep). Qed.

(** The update of an existing Deployment, with these template annotations. *)
Definition applied (existing desired : Deployment) (ta : option (gmap string string)) : Deployment :=
  let explicit := negb (bool_decide (dep_StrategyType desired = "")) in {|
  dep_Meta := annotate (merge_meta (dep_Meta existing) (dep_Meta (addSpecToAnnotation desired)))
                LastAppliedConfigAnnotation (marshal_spec (dep_Pod desired));
  dep_Replicas := dep_Replicas desired; dep_Selector := dep_Selector existing;
  dep_StrategyType := if explicit then dep_StrategyType desired else dep_StrategyType existing;
  dep_RollingUpdate := if explicit && bool_decide (dep_RollingUpdate existing <> None)
                       then dep_RollingUpdate desired else dep_RollingUpdate existing;
  dep_TemplateLabels := dep_TemplateLabels existing; dep_TemplateAnnotations := ta;
  dep_Pod := dep_Pod desired; dep_StatusReplicas := dep_StatusReplicas existing; dep_AvailableReplicas := dep_AvailableReplicas existing;
  dep_ReadyReplicas := dep_ReadyReplicas existing |}.
Lemma merge_deployment_applied existing desired :
  merge_deployment existing (addSpecToAnnotation desired) =
  match merge_template_annotations (dep_TemplateAnnotations existing) (dep_TemplateAnnotations desired) with
  | inl fail => inl fail
  | inr ta => inr (applied existing desired ta)
  end.
Proof.
  unfold merge_deployment. change (dep_TemplateAnnotations (addSpecToAnnotation desired))
    with (dep_TemplateAnnotations desired).
  destruct (merge_template_annotations _ _) as [e|ta]; [done|]. cbv zeta.
  by rewrite DeploymentPodSpecChanged_always.
Qed.

Definition deployment_guard (desired : Deployment) : Guard := fun tr X e =>
  let key := obj_key (k:=KDeployment) desired in
  match e with
  | OKube (KGet KDeployment k) => k = key
  | OKube (KCreate KDeployment o) => o = addSpecToAnnotation desired
  | OKube (KUpdate KDeployment o) => exists existing ta,
      saw_kube tr (KGet KDeployment key) (Ok existing) /\ o = applied existing desired ta /\
      merge_template_annotations (dep_TemplateAnnotations existing) (dep_TemplateAnnotations desired) = inr ta
  | _ => False
  end.

(** Whatever the API server answers, [CreateOrUpdateDeployment] creates the
    object it is asked for, and otherwise only updates the one it read: the pod
    spec, the replicas and the labels become the desired ones, annotations are
    added, and the selector and the labels of the pods stay as they are. *)
Theorem deployment_upsert_applies desired tr r :
  exec trace_env (CreateOrUpdateDeployment desired) [] tr r -> guarded (deployment_guard desired) tr.
Proof.
  intros Hx. eapply swp_theorem in Hx as [Hg _]; [exact Hg|].
  apply (CreateOrUpdate_pure_swp KDeployment _ _ _ [] (fun _ _ => True)); [done|done| |done].
  intros tr' existing mutated Hsaw Hm Hne. rewrite merge_deployment_applied in Hm.
  destruct (merge_template_annotations _ _) as [e|ta] eqn:Hta; simplify_eq. by exists existing, ta.
Qed.
End applied.

(** ** Upserts of Services settle *)
Section settled.
Context `{SpecJSONLaws ServiceObjSpec}.

Lemma merge_meta_again existing desired :
  merge_meta (merge_meta existing desired) desired = merge_meta existing desired.
Proof.
  unfold merge_meta, set_meta. cbn. f_equal. apply map_eq. intros i. rewrite !lookup_union.
  by destruct (Annotations desired !! i), (Annotations existing !! i).
Qed.
Lemma merge_meta_annotated existing desired key value :
  Annotations desired !! key = None ->
  merge_meta (annotate (merge_meta existing desired) key value) desired =
  annotate (merge_meta existing desired) key value.
Proof.
  intros Hd. unfold annotate, merge_meta, set_meta. cbn. f_equal. apply map_eq. intros i.
  destruct (decide (i = key)) as [->|Hi].
  - by rewrite lookup_union, !lookup_insert_eq, Hd.
  - rewrite lookup_union, !lookup_insert_ne, lookup_union by done.
    by destruct (Annotations desired !! i), (Annotations existing !! i).
Qed.
(** Two ports that carry the same traffic. *)
Definition same_traffic (p q : ServicePort) : bool :=
  bool_decide (sp_Port p = sp_Port q) && bool_decide (sp_Protocol p = sp_Protocol q).
Definition same_port (p d : ServicePort) : Prop :=
  sp_Name p = sp_Name d /\ sp_Protocol p = sp_Protocol d /\ sp_Port p = sp_Port d /\
  sp_TargetPort p = sp_TargetPort d.
Lemma keep_node_port_same ports d : same_port (keep_node_port ports d) d.
Proof. unfold keep_node_port. by destruct (List.find _ ports). Qed.
Lemma keep_node_ports_same old new :
  Forall2 same_port (map (keep_node_port old) new) new.
Proof. induction new; constructor; [apply keep_node_port_same|done]. Qed.
Lemma keep_node_port_kept ports d e :
  List.find (same_traffic (keep_node_port ports d)) ports = Some e ->
  sp_NodePort (keep_node_port ports d) = sp_NodePort e.
Proof.
  destruct (keep_node_port_same ports d) as (_ & Hp & Hn & _). unfold same_traffic. rewrite Hp, Hn.
  unfold keep_node_port. by intros ->.
Qed.
Lemma same_port_refl l : Forall2 same_port l l.
Proof. by induction l; constructor. Qed.

(** What an upsert makes of the spec of an existing Service. *)
Definition service_applied (old new s : ServiceObjSpec) : Prop :=
  svc_Selector s = svc_Selector new /\ svc_Type s = svc_Type new /\
  Forall2 same_port (svc_Ports s) (svc_Ports new) /\
  (external_type (svc_Type old) = true -> external_type (svc_Type new) = true ->
   Forall (fun p => forall e, List.find (same_traffic p) (svc_Ports old) = Some e ->
             sp_NodePort p = sp_NodePort e) (svc_Ports s)).

(** A second upsert of the same Service changes nothing, and the first one
    never changes its cluster address.  Unless the spec is the one that was last
    applied - then it stays as it is - the selector, the type and the ports become
    the desired ones, and a port that was and stays reachable from outside keeps
    its node port. *)
Theorem service_upsert_settles existing desired s :
  Annotations (svc_Meta desired) !! LastAppliedConfigAnnotation = None ->
  merge_service existing desired = Ok s ->
  merge_service s desired = Ok s /\
  svc_ClusterIP (svc_Spec s) = svc_ClusterIP (svc_Spec existing) /\
  (svc_Spec s = svc_Spec existing /\
   (exists text, Annotations (svc_Meta existing) !! LastAppliedConfigAnnotation = Some text /\
      unmarshal_spec text = Some (svc_Spec desired)) \/
   service_applied (svc_Spec existing) (svc_Spec desired) (svc_Spec s)).
Proof using H0.
  intros Hd Hm. unfold merge_service, ServiceEqual in *. cbn [svc_Meta svc_Spec] in *.
  destruct (Annotations (merge_meta _ _) !! _) as [text|] eqn:Ht.
  1: destruct (unmarshal_spec text) as [last|] eqn:Hu; [|done]; case_bool_decide as Heq; cbn [negb] in Hm.
  1: { injection Hm as <-. cbn [svc_Meta svc_Spec]. rewrite merge_meta_again, Ht, Hu, bool_decide_true by done.
    cbn [negb]. split; [done|]. split; [done|]. left. split; [done|]. exists text. subst last.
    split; [|done]. cbn in Ht. rewrite lookup_union, Hd in Ht.
    by destruct (Annotations (svc_Meta existing) !! _). }
  all: injection Hm as <-; cbn [svc_Meta svc_Spec svc_ClusterIP svc_Type svc_Ports].
  all: rewrite merge_meta_annotated by done; cbn [annotate set_meta Annotations].
  all: rewrite lookup_insert_eq, spec_json_roundtrip, bool_decide_true by done; cbn [negb].
  all: split; [done|]; split; [done|]; right; split_and!; [done|done| |]; cbn [svc_Ports].
  all: destruct (external_type _ && external_type _) eqn:Hext.
  all: try apply keep_node_ports_same; try apply same_port_refl.
  all: intros He1 He2; rewrite ?He1, ?He2 in Hext; try done.
  all: apply Forall_forall; intros p (d & -> & _)%list_elem_of_fmap e; apply keep_node_port_kept.
Qed.
End settled.

(** ** Removing an owned object *)
Definition deleteIfExists (k : Kind) (key : NamespacedName) : op (bool * option error) :=
  do r <- kube (KGet k key);
  match r with
  | inl err => Ret (false, IgnoreNotFound err)
  | inr obj => do d <- kube (KDelete k obj);
               Ret (true, match d with Some err => IgnoreNotFound err | None => None end)
  end.

Section prune.
Context `{Owners}.

(** [obj.GetUID()] is the UID that was read. *)
Definition pruneOwned (m : ObjectMeta) (k : Kind) (name : string) : op (option error) :=
  do r <- kube (KGet k {| nn_Namespace := Namespace m; nn_Name := name |});
  match r with
  | inl err => Ret (IgnoreNotFound err)
  | inr obj =>
      if negb (IsControlledBy (obj_meta obj) m) then Ret None
      else
        do d <- kube (KDeleteUID k obj (UID (obj_meta obj)));
        match d with
        | None => Ret None
        | Some err => if IsConflict err then Ret None else Ret (IgnoreNotFound err)
        end
  end.
End prune.


(** ** Evaluations *)
(** A text for a pod spec, and an encoding of Service specs that can be decoded, in
    place of JSON. *)
#[export] Instance text_pods : SpecJSON PodSpec := {|
  marshal_spec p := Join (map c_Image (pod_Containers p)) ",";
  unmarshal_spec _ := None;
|}.
#[export] Instance ServicePort_countable : Countable ServicePort.
Proof.
  apply (inj_countable' (fun p => (sp_Name p, sp_Protocol p, sp_Port p, sp_TargetPort p, sp_NodePort p))
    (fun '(a, b, c, d, e) => {| sp_Name := a; sp_Protocol := b; sp_Port := c; sp_TargetPort := d;
                                sp_NodePort := e |})). by intros [].
Defined.
#[export] Instance ServiceObjSpec_countable : Countable ServiceObjSpec.
Proof.
  apply (inj_countable' (fun s => (svc_Type s, svc_ClusterIP s, svc_LoadBalancerIP s,
                                   svc_PublishNotReadyAddresses s, svc_Ports s, svc_Selector s))
    (fun '(a, b, c, d, e, f) => {| svc_Type := a; svc_ClusterIP := b; svc_LoadBalancerIP := c;
       svc_PublishNotReadyAddresses := d; svc_Ports := e; svc_Selector := f |})). by intros [].
Defined.
#[export] Instance coded_services : SpecJSON ServiceObjSpec := {|
  marshal_spec s := fmt_d (Zpos (encode s));
  unmarshal_spec t := decode (Z.to_pos (digits_value 0 t));
|}.
#[export] Instance coded_services_laws : SpecJSONLaws ServiceObjSpec.
Proof.
  split. intros s. unfold unmarshal_spec, marshal_spec, coded_services.
  destruct (fmt_d_digits (Zpos (encode s))) as [-> _]; [lia|]. apply decode_encode.
Qed.

Definition sample_deployment (image : string) (annotations : option (gmap string string)) : Deployment := {|
  dep_Meta := sample_meta "ns" "w-s3" 1; dep_Replicas := Some 1%Z; dep_Selector := ∅;
  dep_StrategyType := ""; dep_RollingUpdate := None; dep_TemplateLabels := ∅;
  dep_TemplateAnnotations := annotations;
  dep_Pod := command_pod "" [] None (command_container "c" image "" [] []) [];
  dep_StatusReplicas := 0; dep_AvailableReplicas := 0; dep_ReadyReplicas := 0 |}.
Definition upsert_images (s : Sim) (d : Deployment) : list string :=
  flat_map (fun d => map c_Image (pod_Containers (dep_Pod d)))
    (sim_objs (run sim (CreateOrUpdateDeployment d) s).1 KDeployment).

(** An upgrade of the image. *)
Lemma deployment_upsert_applies_witness :
  let old := sample_deployment "w:1" None in
  let new := sample_deployment "w:2" None in
  let s := (run sim (CreateOrUpdateDeployment old) sim_empty).1 in
  let x := run (tracing sim) (CreateOrUpdateDeployment new) (s, []) in
  upsert_images sim_empty old = ["w:1"] /\ upsert_images s new = ["w:2"] /\
  length x.1.2 = 2%nat /\ guarded (deployment_guard new) x.1.2.
Proof.
  intros old new s x. split; [by vm_compute|]. split; [by vm_compute|]. split; [by vm_compute|].
  apply (deployment_upsert_applies new x.1.2 x.2). exact (run_tracing sim (CreateOrUpdateDeployment new) s []).
Defined.

(** Annotations on the template of a Deployment that was created without any. *)
Lemma template_annotations_panic :
  let s := (run sim (CreateOrUpdateDeployment (sample_deployment "w:1" None)) sim_empty).1 in
  (run sim (CreateOrUpdateDeployment (sample_deployment "w:1" (Some {["a" := "b"]}))) s).2 = inl Panicked.
Proof. intros s. by vm_compute. Qed.

(** A load balancer gets a second port; its address and node port stay. *)
Definition sample_service (ports : list Z) (ip : string) (nodePort : Z) : Service := {|
  svc_Meta := sample_meta "ns" "w-master" 1;
  svc_Spec := {| svc_Type := ServiceTypeLoadBalancer; svc_ClusterIP := ip; svc_LoadBalancerIP := "";
                 svc_PublishNotReadyAddresses := true; svc_Selector := ∅;
                 svc_Ports := map (fun p => {| sp_Name := fmt_d p; sp_Protocol := "TCP"; sp_Port := p;
                                               sp_TargetPort := p; sp_NodePort := nodePort |}) ports |} |}.
Lemma service_upsert_settles_witness :
  exists s, merge_service (sample_service [80%Z] "10.0.0.1" 30080) (sample_service [80%Z; 81%Z] "" 0) = Ok s /\
    map sp_NodePort (svc_Ports (svc_Spec s)) = [30080%Z; 0%Z] /\ svc_ClusterIP (svc_Spec s) = "10.0.0.1" /\
    merge_service s (sample_service [80%Z; 81%Z] "" 0) = Ok s.
Proof.
  eexists. split; [reflexivity|]. split; [by vm_compute|]. split; [by vm_compute|].
  apply (service_upsert_settles (sample_service [80%Z] "10.0.0.1" 30080)); reflexivity.
Defined.
