(* ===== verification/NameClaim.v ===== *)
(** * Contested IAM names (internal/controller/iam_name_claim.go)

    IAM names are global per cluster while the resources that manage them are
    namespaced.  The file arbitrates: the oldest claimant owns the name.  The
    repository has one copy of the code for identities and one for policies; the
    class [Claimant] is what both rely on, and the ownership theorem is proved
    against it. *)
From S2P Require Import Prelude Prog CoreTypes ApiTypes Effects Machinery Sim RefGrant.

Definition identityIAMName (id : S3Identity) : string :=
  if bool_decide (idspec_Name (id_Spec id) <> "") then idspec_Name (id_Spec id)
  else Name (id_Meta id).
Definition policyIAMName (p : S3Policy) : string :=
  if bool_decide (polspec_Name (pol_Spec p) <> "") then polspec_Name (pol_Spec p)
  else Name (pol_Meta p).

Definition seaweedRefKey (ref : SeaweedReference) (ownNamespace : string) : string :=
  refNamespace ref ownNamespace +:+ "/" +:+ ref_Name ref.

Definition claimPrecedes (a b : ObjectMeta) : bool :=
  if negb (bool_decide (CreationTimestamp a = CreationTimestamp b))
  then bool_decide (CreationTimestamp a < CreationTimestamp b)%Z
  else if negb (bool_decide (Namespace a = Namespace b))
  then string_ltb (Namespace a) (Namespace b)
  else string_ltb (Name a) (Name b).

(** What the arbitration needs of a resource kind. *)
Class Claimant (T : Type) := {
  claim_meta : T -> ObjectMeta;
  claim_name : T -> string;
  claim_cluster : T -> string;
}.
#[export] Instance identity_claimant : Claimant S3Identity := {|
  claim_meta := id_Meta;
  claim_name := identityIAMName;
  claim_cluster id := seaweedRefKey (idspec_SeaweedRef (id_Spec id)) (Namespace (id_Meta id));
|}.
#[export] Instance policy_claimant : Claimant S3Policy := {|
  claim_meta := pol_Meta;
  claim_name := policyIAMName;
  claim_cluster p := seaweedRefKey (polspec_SeaweedRef (pol_Spec p)) (Namespace (pol_Meta p));
|}.

(** ** The two copies of the code *)
Definition identityClaimants (self : S3Identity) (name : string)
    : op (result (list S3Identity)) :=
  try items <- kube (KList KS3Identity None ∅) catch err => Ret (Err err);
  let cluster :=
    seaweedRefKey (idspec_SeaweedRef (id_Spec self)) (Namespace (id_Meta self)) in
  Ret (Ok (List.filter (fun peer : S3Identity =>
    if bool_decide (Namespace (id_Meta peer) = Namespace (id_Meta self)) &&
       bool_decide (Name (id_Meta peer) = Name (id_Meta self)) then false
    else if negb (live (id_Meta peer)) then false
    else if negb (bool_decide (identityIAMName peer = name)) ||
            negb (bool_decide (seaweedRefKey (idspec_SeaweedRef (id_Spec peer))
                                 (Namespace (id_Meta peer)) = cluster)) then false
    else true) items)).

Definition pick_winner {T} (meta : T -> ObjectMeta) (peers : list T) : option T :=
  fold_left (fun winner peer =>
    match winner with
    | None => Some peer
    | Some w => if claimPrecedes (meta peer) (meta w) then Some peer else winner
    end) peers None.

Definition identityConflict (self : S3Identity) (name : string)
    : op (result (option S3Identity)) :=
  try peers <- identityClaimants self name catch err => Ret (Err err);
  match pick_winner id_Meta peers with
  | None => Ret (Ok None)
  | Some winner =>
      if claimPrecedes (id_Meta self) (id_Meta winner) then Ret (Ok None)
      else Ret (Ok (Some winner))
  end.

Definition policyClaimants (self : S3Policy) (name : string)
    : op (result (list S3Policy)) :=
  try items <- kube (KList KS3Policy None ∅) catch err => Ret (Err err);
  let cluster :=
    seaweedRefKey (polspec_SeaweedRef (pol_Spec self)) (Namespace (pol_Meta self)) in
  Ret (Ok (List.filter (fun peer : S3Policy =>
    if bool_decide (Namespace (pol_Meta peer) = Namespace (pol_Meta self)) &&
       bool_decide (Name (pol_Meta peer) = Name (pol_Meta self)) then false
    else if negb (live (pol_Meta peer)) then false
    else if negb (bool_decide (policyIAMName peer = name)) ||
            negb (bool_decide (seaweedRefKey (polspec_SeaweedRef (pol_Spec peer))
                                 (Namespace (pol_Meta peer)) = cluster)) then false
    else true) items)).

Definition policyConflict (self : S3Policy) (name : string)
    : op (result (option S3Policy)) :=
  try peers <- policyClaimants self name catch err => Ret (Err err);
  match pick_winner pol_Meta peers with
  | None => Ret (Ok None)
  | Some winner =>
      if claimPrecedes (pol_Meta self) (pol_Meta winner) then Ret (Ok None)
      else Ret (Ok (Some winner))
  end.

Definition resolveIdentityIAMName (namespace ref clusterKey : string) : op (result string) :=
  do r <- kube (KGet KS3Identity {| nn_Namespace := namespace; nn_Name := ref |});
  match r with
  | inr id =>
      if bool_decide (seaweedRefKey (idspec_SeaweedRef (id_Spec id)) (Namespace (id_Meta id))
                      = clusterKey)
      then Ret (Ok (identityIAMName id)) else Ret (Ok ref)
  | inl err => if IsNotFound err then Ret (Ok ref) else Ret (Err err)
  end.

Definition resolvePolicyIAMName (namespace ref clusterKey : string) : op (result string) :=
  do r <- kube (KGet KS3Policy {| nn_Namespace := namespace; nn_Name := ref |});
  match r with
  | inr p =>
      if bool_decide (seaweedRefKey (polspec_SeaweedRef (pol_Spec p)) (Namespace (pol_Meta p))
                      = clusterKey)
      then Ret (Ok (policyIAMName p)) else Ret (Ok ref)
  | inl err => if IsNotFound err then Ret (Ok ref) else Ret (Err err)
  end.

(** ** The order on claims

    [claimPrecedes] is a strict order, total on resources with different
    namespaced names. *)
Lemma string_compare_refl t : String.compare t t = Eq.
Proof.
  induction t as [|c t IH]; simpl; [done|].
  unfold Ascii.compare. by rewrite N.compare_refl.
Qed.

Lemma string_ltb_spec s t : string_ltb s t = true <-> String.le s t /\ s <> t.
Proof.
  unfold string_ltb, String.ltb, String.le, String.leb.
  destruct (String.compare s t) eqn:Hc; simpl.
  - apply String.compare_eq_iff in Hc. naive_solver.
  - split; [|done]. intros _. split; [done|]. intros ->.
    by rewrite string_compare_refl in Hc.
  - naive_solver.
Qed.

Definition claim_lt (a b : ObjectMeta) : Prop :=
  (CreationTimestamp a < CreationTimestamp b)%Z \/
  CreationTimestamp a = CreationTimestamp b /\
  ((String.le (Namespace a) (Namespace b) /\ Namespace a <> Namespace b) \/
   Namespace a = Namespace b /\ String.le (Name a) (Name b) /\ Name a <> Name b).

Lemma claimPrecedes_spec a b : claimPrecedes a b = true <-> claim_lt a b.
Proof.
  unfold claimPrecedes, claim_lt. repeat case_bool_decide; simpl;
    rewrite ?string_ltb_spec; naive_solver lia.
Qed.

Definition meta_key (m : ObjectMeta) : string * string := (Namespace m, Name m).

Lemma claim_lt_irrefl a : ~ claim_lt a a.
Proof. unfold claim_lt. naive_solver lia. Qed.

Lemma string_lt_trans s t u :
  String.le s t /\ s <> t -> String.le t u /\ t <> u -> String.le s u /\ s <> u.
Proof.
  intros [H1 N1] [H2 N2]. split; [by etrans|]. intros ->. apply N1. by apply (anti_symm String.le).
Qed.

Lemma claim_lt_trans a b c : claim_lt a b -> claim_lt b c -> claim_lt a c.
Proof.
  unfold claim_lt. intros [H1|[E1 H1]] [H2|[E2 H2]]; [left; lia|left; lia|left; lia|].
  right. split; [congruence|].
  destruct H1 as [H1|[F1 H1]], H2 as [H2|[F2 H2]].
  - left. by eapply string_lt_trans.
  - left. by rewrite <-F2.
  - left. by rewrite F1.
  - right. split; [congruence|]. by eapply string_lt_trans.
Qed.

Lemma claim_lt_total a b :
  meta_key a <> meta_key b -> claim_lt a b \/ claim_lt b a.
Proof.
  unfold claim_lt, meta_key. intros Hne.
  destruct (Z.lt_trichotomy (CreationTimestamp a) (CreationTimestamp b)) as [?|[E|?]];
    [by left; left| |by right; left].
  destruct (decide (Namespace a = Namespace b)) as [F|F].
  - assert (Name a <> Name b) as Hn by congruence.
    destruct (total String.le (Name a) (Name b)); [left|right]; right;
      (split; [done|]); right; (split; [done|]); (split; [done|congruence]).
  - destruct (total String.le (Namespace a) (Namespace b)); [left|right]; right;
      (split; [done|]); left; (split; [done|congruence]).
Qed.

Lemma claimPrecedes_asym a b : claimPrecedes a b = true -> claimPrecedes b a = false.
Proof.
  rewrite claimPrecedes_spec. intros H1. destruct (claimPrecedes b a) eqn:H2; [|done].
  apply claimPrecedes_spec in H2. destruct (claim_lt_irrefl a). by eapply claim_lt_trans.
Qed.

Lemma claim_lt_weak a b c : claim_lt a c -> claim_lt a b \/ claim_lt b c.
Proof.
  intros H1. destruct (decide (meta_key a = meta_key b)) as [E|E].
  - unfold meta_key in E. injection E as E1 E2. unfold claim_lt in *.
    destruct (Z.lt_trichotomy (CreationTimestamp a) (CreationTimestamp b)) as [?|[Et|?]];
      [by left; left| |].
    + right. by rewrite <-Et, <-E1, <-E2.
    + right. left. destruct H1 as [?|[? _]]; lia.
  - destruct (claim_lt_total a b E); [by left|right]. by eapply claim_lt_trans.
Qed.

(** ** The winner of a list of claimants *)
Section winner.
Context {T : Type} (meta : T -> ObjectMeta).

Definition better (winner : option T) (peer : T) : option T :=
  match winner with
  | None => Some peer
  | Some w => if claimPrecedes (meta peer) (meta w) then Some peer else winner
  end.

Lemma winner_fold (l : list T) w0 :
  exists w, fold_left better l (Some w0) = Some w /\ w ∈ w0 :: l /\
    forall x, x ∈ w0 :: l -> ~ claim_lt (meta x) (meta w).
Proof.
  revert w0; induction l as [|y l IH]; intros w0; simpl.
  { exists w0. split; [done|]. split; [set_solver|].
    intros x ->%list_elem_of_singleton. apply claim_lt_irrefl. }
  destruct (claimPrecedes (meta y) (meta w0)) eqn:Hp.
  - destruct (IH y) as (w & -> & Hin & Hmin). exists w. split; [done|]. split; [set_solver|].
    intros x [->|Hx]%elem_of_cons; [|by apply Hmin]. intros Hlt.
    apply claimPrecedes_spec in Hp. eapply (Hmin y); [set_solver|]. by eapply claim_lt_trans.
  - destruct (IH w0) as (w & -> & Hin & Hmin). exists w. split; [done|]. split; [set_solver|].
    intros x Hx Hlt. apply elem_of_cons in Hx as [->|Hx]; [by apply (Hmin w0); [set_solver|]|].
    apply elem_of_cons in Hx as [->|Hx]; [|apply (Hmin x); [set_solver|done]].
    destruct (claim_lt_weak _ (meta w0) _ Hlt) as [H1|H1].
    + apply claimPrecedes_spec in H1. congruence.
    + apply (Hmin w0); [set_solver|done].
Qed.

Lemma pick_winner_spec l :
  match pick_winner meta l with
  | None => l = []
  | Some w => w ∈ l /\ forall x, x ∈ l -> ~ claim_lt (meta x) (meta w)
  end.
Proof.
  destruct l as [|y l]; [done|]. unfold pick_winner; simpl.
  destruct (winner_fold l y) as (w & Hw & ? & ?). fold better in *. by rewrite Hw.
Qed.
End winner.

(** ** Single ownership, against the interface *)
Section ownership.
Context `{Claimant T}.

Definition contends (name cluster : string) (x : T) : bool :=
  live (claim_meta x) && bool_decide (claim_name x = name) &&
  bool_decide (claim_cluster x = cluster).
Definition peers_of (self : T) (name cluster : string) (items : list T) : list T :=
  List.filter (fun x => negb (bool_decide (meta_key (claim_meta x) = meta_key (claim_meta self)))
                        && contends name cluster x) items.
Definition conflict_of (self : T) (peers : list T) : option T :=
  match pick_winner claim_meta peers with
  | None => None
  | Some winner =>
      if claimPrecedes (claim_meta self) (claim_meta winner) then None else Some winner
  end.

Definition unique_keys (items : list T) : Prop :=
  forall x y, x ∈ items -> y ∈ items ->
    meta_key (claim_meta x) = meta_key (claim_meta y) -> x = y.

Lemma elem_of_peers self name cluster items x :
  x ∈ peers_of self name cluster items <->
  x ∈ items /\ contends name cluster x = true /\
  meta_key (claim_meta x) <> meta_key (claim_meta self).
Proof.
  unfold peers_of. rewrite list_elem_of_In, filter_In, <-list_elem_of_In.
  rewrite andb_true_iff, negb_true_iff, bool_decide_eq_false. naive_solver.
Qed.

(** The owner: the claimant nobody precedes. *)
Definition owns (items : list T) (name cluster : string) (w : T) : Prop :=
  w ∈ items /\ contends name cluster w = true /\
  forall x, x ∈ items -> contends name cluster x = true ->
    meta_key (claim_meta x) <> meta_key (claim_meta w) ->
    claim_lt (claim_meta w) (claim_meta x).

Lemma owner_exists items name cluster self :
  self ∈ items -> contends name cluster self = true ->
  exists w, owns items name cluster w.
Proof.
  intros Hin Hc.
  set (l := List.filter (contends name cluster) items).
  assert (forall x, x ∈ l <-> x ∈ items /\ contends name cluster x = true) as Hl.
  { intros x. unfold l. by rewrite list_elem_of_In, filter_In, <-list_elem_of_In. }
  pose proof (pick_winner_spec claim_meta l) as Hw.
  destruct (pick_winner claim_meta l) as [w|].
  - destruct Hw as [[? ?]%Hl Hmin]. exists w. split; [done|]. split; [done|].
    intros x Hx Hcx Hne. destruct (claim_lt_total (claim_meta w) (claim_meta x)); [done..|].
    by destruct (Hmin x); [apply Hl|].
  - exfalso. assert (self ∈ l) as Hs by by apply Hl. rewrite Hw in Hs. set_solver.
Qed.

(** The owner meets no conflict and every other contender is told the owner. *)
Lemma conflict_of_owner items name cluster self w :
  unique_keys items -> self ∈ items -> contends name cluster self = true ->
  owns items name cluster w ->
  conflict_of self (peers_of self name cluster items) =
  if decide (meta_key (claim_meta self) = meta_key (claim_meta w)) then None else Some w.
Proof.
  intros Hu Hs Hcs (Hw & Hcw & Hmin). unfold conflict_of.
  pose proof (pick_winner_spec claim_meta (peers_of self name cluster items)) as Hp.
  destruct (pick_winner _ _) as [v|].
  - destruct Hp as [(Hv & Hcv & Hnv)%elem_of_peers Hpm]. case_decide as E.
    + rewrite (proj2 (claimPrecedes_spec _ _)); [done|].
      rewrite (Hu _ _ Hs Hw E). apply Hmin; congruence.
    + destruct (decide (meta_key (claim_meta v) = meta_key (claim_meta w))) as [Ev|Ev].
      * rewrite (Hu _ _ Hv Hw Ev).
        destruct (claimPrecedes _ _) eqn:Hlt; [|done].
        apply claimPrecedes_asym in Hlt.
        apply not_true_iff_false in Hlt. destruct Hlt.
        apply claimPrecedes_spec. by apply Hmin.
      * destruct (Hpm w); [apply elem_of_peers; split_and!; [done..|congruence]|].
        by apply Hmin.
  - case_decide as E; [done|]. exfalso.
    assert (w ∈ peers_of self name cluster items) as Hin
      by (apply elem_of_peers; split_and!; [done..|congruence]).
    rewrite Hp in Hin. set_solver.
Qed.
End ownership.

(** ** The programs compute [conflict_of] *)
Section programs.
Context {S : Type} (env : Env opE S).

Lemma filter_ext_bool {A} (f g : A -> bool) l :
  (forall x, f x = g x) -> List.filter f l = List.filter g l.
Proof. intros Hfg. induction l as [|x l IH]; simpl; [done|]. by rewrite Hfg, IH. Qed.

Lemma peer_test (m self : ObjectMeta) (p q : bool) :
  (if bool_decide (Namespace m = Namespace self) && bool_decide (Name m = Name self) then false
   else if negb (live m) then false
   else if negb p || negb q then false else true) =
  negb (bool_decide (meta_key m = meta_key self)) && (live m && p && q).
Proof.
  assert (bool_decide (Namespace m = Namespace self) && bool_decide (Name m = Name self) =
          bool_decide (meta_key m = meta_key self)) as ->.
  { rewrite <-bool_decide_and. apply bool_decide_ext. unfold meta_key.
    split; [intros [-> ->]; done|by intros [= -> ->]]. }
  destruct (bool_decide _), (live m), p, q; done.
Qed.

Lemma identityConflict_wp self name s (Q : result (option S3Identity) -> S -> Prop) :
  (forall r s1, env _ (OKube (KList KS3Identity None ∅)) s r s1 ->
     Q (match r with
        | inl e => Err e
        | inr items => Ok (conflict_of self
            (peers_of self name (claim_cluster self) items))
        end) s1) ->
  wp env (identityConflict self name) Q s.
Proof.
  intros Hq. unfold identityConflict, identityClaimants. simpl. intros r s1 Hr.
  specialize (Hq r s1 Hr). destruct r as [e|items]; simpl; [done|].
  erewrite filter_ext_bool by (intros; apply peer_test).
  cbv [conflict_of peers_of contends claim_meta claim_name claim_cluster identity_claimant] in Hq.
  destruct (pick_winner _ _) as [w|]; simpl; [|done]. by destruct (claimPrecedes _ _).
Qed.

Lemma policyConflict_wp self name s (Q : result (option S3Policy) -> S -> Prop) :
  (forall r s1, env _ (OKube (KList KS3Policy None ∅)) s r s1 ->
     Q (match r with
        | inl e => Err e
        | inr items => Ok (conflict_of self
            (peers_of self name (claim_cluster self) items))
        end) s1) ->
  wp env (policyConflict self name) Q s.
Proof.
  intros Hq. unfold policyConflict, policyClaimants. simpl. intros r s1 Hr.
  specialize (Hq r s1 Hr). destruct r as [e|items]; simpl; [done|].
  erewrite filter_ext_bool by (intros; apply peer_test).
  cbv [conflict_of peers_of contends claim_meta claim_name claim_cluster policy_claimant] in Hq.
  destruct (pick_winner _ _) as [w|]; simpl; [|done]. by destruct (claimPrecedes _ _).
Qed.
End programs.

(** C11. An IAM user name has exactly one owner per cluster.  Take the identities
    the API server lists, with distinct namespaced names, in any environment
    whose list call answers them.  Among those that are live, claim the name
    and target the cluster, there is one [owner], and it precedes all the
    others; the arbitration tells the owner that there is no conflict and every other claimant
    that [owner] holds the name.  So two resources never both go on to
    manage one IAM user, and the name never stays without a manager. *)
Theorem identity_name_single_owner {S} (env : Env opE S) items name cluster :
  (forall s r s1, env _ (OKube (KList KS3Identity None ∅)) s r s1 -> r = Ok items) ->
  unique_keys items ->
  (exists self, self ∈ items /\ contends name cluster self = true) ->
  exists owner, owns items name cluster owner /\
    forall self s s' r, self ∈ items -> contends name cluster self = true ->
      exec env (identityConflict self name) s s' r ->
      r = Ok (if decide (meta_key (id_Meta self) = meta_key (id_Meta owner))
              then None else Some owner).
Proof.
  intros Hlist Hu (x & Hx & Hcx). destruct (owner_exists _ _ _ _ Hx Hcx) as [w Hw].
  exists w. split; [done|]. intros self s s' r Hs Hcs. revert s' r. apply wp_exec.
  apply identityConflict_wp. intros r s1 ->%Hlist.
  assert (cluster = claim_cluster self) as ->.
  { unfold contends in Hcs. by apply andb_true_iff in Hcs as [_ ?%bool_decide_eq_true]. }
  cbv beta iota. f_equal. exact (conflict_of_owner (T:=S3Identity) items name _ self w Hu Hs Hcs Hw).
Qed.

(** The same for IAM policy names and S3Policy resources. *)
Theorem policy_name_single_owner {S} (env : Env opE S) items name cluster :
  (forall s r s1, env _ (OKube (KList KS3Policy None ∅)) s r s1 -> r = Ok items) ->
  unique_keys items ->
  (exists self, self ∈ items /\ contends name cluster self = true) ->
  exists owner, owns items name cluster owner /\
    forall self s s' r, self ∈ items -> contends name cluster self = true ->
      exec env (policyConflict self name) s s' r ->
      r = Ok (if decide (meta_key (pol_Meta self) = meta_key (pol_Meta owner))
              then None else Some owner).
Proof.
  intros Hlist Hu (x & Hx & Hcx). destruct (owner_exists _ _ _ _ Hx Hcx) as [w Hw].
  exists w. split; [done|]. intros self s s' r Hs Hcs. revert s' r. apply wp_exec.
  apply policyConflict_wp. intros r s1 ->%Hlist.
  assert (cluster = claim_cluster self) as ->.
  { unfold contends in Hcs. by apply andb_true_iff in Hcs as [_ ?%bool_decide_eq_true]. }
  cbv beta iota. f_equal. exact (conflict_of_owner (T:=S3Policy) items name _ self w Hu Hs Hcs Hw).
Qed.

(** Two identities of different namespaces that claim one user name. *)
Definition sample_ref : SeaweedReference := {| ref_Name := "sw"; ref_Namespace := "b" |}.
Definition sample_identity (ns name iam : string) (created : Time) : S3Identity := {|
  id_Meta := sample_meta ns name created;
  id_Spec := {| idspec_SeaweedRef := sample_ref; idspec_Name := iam; idspec_ReclaimPolicy := "";
                idspec_Disabled := false; idspec_Account := None |};
  id_Status := {| idst_ObservedGeneration := 0%Z; idst_Phase := ""; idst_Conditions := [];
                  idst_IdentityName := "" |} |}.
Definition sample_policy (ns name iam : string) (created : Time) : S3Policy := {|
  pol_Meta := sample_meta ns name created;
  pol_Spec := {| polspec_SeaweedRef := sample_ref; polspec_Name := iam;
                 polspec_ReclaimPolicy := ""; polspec_Statements := [];
                 polspec_PolicyDocument := "" |};
  pol_Status := {| polst_ObservedGeneration := 0%Z; polst_Phase := ""; polst_Conditions := [];
                   polst_PolicyName := "" |} |}.

(** An environment that answers every list call with the given objects and
    refuses everything else. *)
Definition lists_only (k : Kind) (items : list (Obj k)) : Env opE () := fun X e s x s1 =>
  s1 = s /\ match e in opE X return X -> Prop with
           | OKube e' => match e' in kubeE X return X -> Prop with
                         | KList k' _ _ => fun r =>
                             match decide (k = k') with
                             | left E => r = Ok (eq_rect k (fun k => list (Obj k)) items k' E)
                             | right _ => False
                             end
                         | _ => fun _ => False
                         end
           | _ => fun _ => False
           end x.

Lemma unique_keys_check `{Claimant T} (items : list T) :
  NoDup (meta_key ∘ claim_meta <$> items) -> unique_keys items.
Proof.
  intros Hnd x y Hx Hy E. apply list_elem_of_lookup in Hx as [i Hi], Hy as [j Hj].
  assert (i = j) as ->; [|congruence].
  eapply (NoDup_lookup _ i j (meta_key (claim_meta x)) Hnd); rewrite list_lookup_fmap;
    [by rewrite Hi|by rewrite Hj; simpl; rewrite E].
Qed.

Definition two_identities : list S3Identity :=
  [sample_identity "b" "y" "alice" 9%Z; sample_identity "a" "x" "alice" 5%Z].

Lemma identity_name_single_owner_witness :
  exists owner, owns two_identities "alice" "b/sw" owner /\
    Ok None = Ok (if decide (("a", "x") = meta_key (id_Meta owner)) then None else Some owner).
Proof.
  destruct (identity_name_single_owner (lists_only KS3Identity two_identities)
              two_identities "alice" "b/sw") as (w & Hw & H).
  - intros s r s1 [_ Hr]. exact Hr.
  - apply unique_keys_check. apply (bool_decide_unpack _). by vm_compute.
  - exists (sample_identity "a" "x" "alice" 5%Z). split; [|by vm_compute].
    right. left.
  - exists w. split; [done|].
    apply (H (sample_identity "a" "x" "alice" 5%Z) tt tt (Ok None)).
    + right. left.
    + by vm_compute.
    + exists (Ok two_identities), tt. split; [by split|]. by vm_compute.
Defined.

Definition two_policies : list S3Policy :=
  [sample_policy "a" "y" "rw" 5%Z; sample_policy "a" "x" "rw" 5%Z].

Lemma policy_name_single_owner_witness :
  exists owner, owns two_policies "rw" "b/sw" owner /\
    Ok None = Ok (if decide (("a", "x") = meta_key (pol_Meta owner)) then None else Some owner).
Proof.
  destruct (policy_name_single_owner (lists_only KS3Policy two_policies)
              two_policies "rw" "b/sw") as (w & Hw & H).
  - intros s r s1 [_ Hr]. exact Hr.
  - apply unique_keys_check. apply (bool_decide_unpack _). by vm_compute.
  - exists (sample_policy "a" "x" "rw" 5%Z). split; [|by vm_compute].
    right. left.
  - exists w. split; [done|].
    apply (H (sample_policy "a" "x" "rw" 5%Z) tt tt (Ok None)).
    + right. left.
    + by vm_compute.
    + exists (Ok two_policies), tt. split; [by split|]. by vm_compute.
Defined.
