(* ===== verification/IamCommon.v ===== *)
(** * What the IAM controllers share (iam_controller_common.go)

    The five IAM resources carry the same conditions and phases; [IamObject] is
    the interface through which the controllers update them.  The second half
    holds the trace specifications of the subprograms every controller runs:
    the grant check, the target resolution and the name arbitration, under any
    guard that allows reads. *)
From S2P Require Import Prelude Prog CoreTypes ApiTypes Effects Trace RefGrant Cluster.
From S2P Require Import NameClaim.

(** ** The common shape of the resources *)
Class IamObject (T : Type) := {
  io_Meta : T -> ObjectMeta;
  io_setMeta : ObjectMeta -> T -> T;
  io_Conditions : T -> list Condition;
  io_setConditions : list Condition -> T -> T;
  io_setPhase : string -> T -> T;
}.

#[export] Instance identity_object : IamObject S3Identity := {|
  io_Meta := id_Meta;
  io_setMeta m o := {| id_Meta := m; id_Spec := id_Spec o; id_Status := id_Status o |};
  io_Conditions o := idst_Conditions (id_Status o);
  io_setConditions cs o :=
    {| id_Meta := id_Meta o; id_Spec := id_Spec o;
       id_Status := {| idst_ObservedGeneration := idst_ObservedGeneration (id_Status o);
                       idst_Phase := idst_Phase (id_Status o); idst_Conditions := cs;
                       idst_IdentityName := idst_IdentityName (id_Status o) |} |};
  io_setPhase ph o :=
    {| id_Meta := id_Meta o; id_Spec := id_Spec o;
       id_Status := {| idst_ObservedGeneration := idst_ObservedGeneration (id_Status o);
                       idst_Phase := ph; idst_Conditions := idst_Conditions (id_Status o);
                       idst_IdentityName := idst_IdentityName (id_Status o) |} |};
|}.

#[export] Instance policy_object : IamObject S3Policy := {|
  io_Meta := pol_Meta;
  io_setMeta m o := {| pol_Meta := m; pol_Spec := pol_Spec o; pol_Status := pol_Status o |};
  io_Conditions o := polst_Conditions (pol_Status o);
  io_setConditions cs o :=
    {| pol_Meta := pol_Meta o; pol_Spec := pol_Spec o;
       pol_Status := {| polst_ObservedGeneration := polst_ObservedGeneration (pol_Status o);
                        polst_Phase := polst_Phase (pol_Status o); polst_Conditions := cs;
                        polst_PolicyName := polst_PolicyName (pol_Status o) |} |};
  io_setPhase ph o :=
    {| pol_Meta := pol_Meta o; pol_Spec := pol_Spec o;
       pol_Status := {| polst_ObservedGeneration := polst_ObservedGeneration (pol_Status o);
                        polst_Phase := ph; polst_Conditions := polst_Conditions (pol_Status o);
                        polst_PolicyName := polst_PolicyName (pol_Status o) |} |};
|}.

#[export] Instance binding_object : IamObject S3PolicyBinding := {|
  io_Meta := bind_Meta;
  io_setMeta m o := {| bind_Meta := m; bind_Spec := bind_Spec o; bind_Status := bind_Status o |};
  io_Conditions o := bindst_Conditions (bind_Status o);
  io_setConditions cs o :=
    {| bind_Meta := bind_Meta o; bind_Spec := bind_Spec o;
       bind_Status :=
         {| bindst_ObservedGeneration := bindst_ObservedGeneration (bind_Status o);
            bindst_Phase := bindst_Phase (bind_Status o); bindst_Conditions := cs;
            bindst_AttachedSubjects := bindst_AttachedSubjects (bind_Status o);
            bindst_PolicyName := bindst_PolicyName (bind_Status o) |} |};
  io_setPhase ph o :=
    {| bind_Meta := bind_Meta o; bind_Spec := bind_Spec o;
       bind_Status :=
         {| bindst_ObservedGeneration := bindst_ObservedGeneration (bind_Status o);
            bindst_Phase := ph; bindst_Conditions := bindst_Conditions (bind_Status o);
            bindst_AttachedSubjects := bindst_AttachedSubjects (bind_Status o);
            bindst_PolicyName := bindst_PolicyName (bind_Status o) |} |};
|}.

#[export] Instance credentials_object : IamObject S3Credentials := {|
  io_Meta := cred_Meta;
  io_setMeta m o := {| cred_Meta := m; cred_Spec := cred_Spec o; cred_Status := cred_Status o |};
  io_Conditions o := credst_Conditions (cred_Status o);
  io_setConditions cs o :=
    {| cred_Meta := cred_Meta o; cred_Spec := cred_Spec o;
       cred_Status :=
         {| credst_ObservedGeneration := credst_ObservedGeneration (cred_Status o);
            credst_Phase := credst_Phase (cred_Status o); credst_Conditions := cs;
            credst_AccessKey := credst_AccessKey (cred_Status o);
            credst_IdentityName := credst_IdentityName (cred_Status o);
            credst_SecretName := credst_SecretName (cred_Status o) |} |};
  io_setPhase ph o :=
    {| cred_Meta := cred_Meta o; cred_Spec := cred_Spec o;
       cred_Status :=
         {| credst_ObservedGeneration := credst_ObservedGeneration (cred_Status o);
            credst_Phase := ph; credst_Conditions := credst_Conditions (cred_Status o);
            credst_AccessKey := credst_AccessKey (cred_Status o);
            credst_IdentityName := credst_IdentityName (cred_Status o);
            credst_SecretName := credst_SecretName (cred_Status o) |} |};
|}.

#[export] Instance oidc_object : IamObject S3OIDCProvider := {|
  io_Meta := oidc_Meta;
  io_setMeta m o := {| oidc_Meta := m; oidc_Spec := oidc_Spec o; oidc_Status := oidc_Status o |};
  io_Conditions o := oidcst_Conditions (oidc_Status o);
  io_setConditions cs o :=
    {| oidc_Meta := oidc_Meta o; oidc_Spec := oidc_Spec o;
       oidc_Status :=
         {| oidcst_ObservedGeneration := oidcst_ObservedGeneration (oidc_Status o);
            oidcst_Phase := oidcst_Phase (oidc_Status o); oidcst_Conditions := cs;
            oidcst_ProviderArn := oidcst_ProviderArn (oidc_Status o) |} |};
  io_setPhase ph o :=
    {| oidc_Meta := oidc_Meta o; oidc_Spec := oidc_Spec o;
       oidc_Status :=
         {| oidcst_ObservedGeneration := oidcst_ObservedGeneration (oidc_Status o);
            oidcst_Phase := ph; oidcst_Conditions := oidcst_Conditions (oidc_Status o);
            oidcst_ProviderArn := oidcst_ProviderArn (oidc_Status o) |} |};
|}.

Section object_ops.
Context `{ApiMachinery} `{IamObject T}.

(** [setIAMCondition(&o.Status.Conditions, o.Generation, ...)] *)
Definition setCond (o : T) (condType : string) (status : ConditionStatus)
    (reason message : string) : T :=
  io_setConditions
    (setIAMCondition (io_Conditions o) (Generation (io_Meta o)) condType status reason message) o.
Definition clearCond (o : T) (condType : string) : T :=
  io_setConditions (clearIAMCondition (io_Conditions o) condType) o.

(** [controllerutil.ContainsFinalizer], [AddFinalizer] and [RemoveFinalizer]. *)
Definition hasFinalizer (o : T) (f : string) : bool :=
  ContainsFinalizer (Finalizers (io_Meta o)) f.
Definition addFinalizer (o : T) (f : string) : T :=
  io_setMeta (with_finalizers (io_Meta o) (AddFinalizer (Finalizers (io_Meta o)) f)) o.
Definition removeFinalizer (o : T) (f : string) : T :=
  io_setMeta (with_finalizers (io_Meta o) (RemoveFinalizer (Finalizers (io_Meta o)) f)) o.
End object_ops.

Definition s3IdentityFinalizer : string := "seaweed.seaweedfs.com/s3identity-protection".
Definition s3CredentialsFinalizer : string := "seaweed.seaweedfs.com/s3credentials-protection".
Definition s3PolicyFinalizer : string := "seaweed.seaweedfs.com/s3policy-protection".
Definition s3PolicyBindingFinalizer : string :=
  "seaweed.seaweedfs.com/s3policybinding-protection".
Definition s3OIDCProviderFinalizer : string :=
  "seaweed.seaweedfs.com/s3oidcprovider-protection".


(** [r.getIAMAdmin(target, log)]; the cache behind it is [AdminCache]. *)
Definition getIAMAdmin (target : filerTarget) : op (option error) := call (OAdminFactory target).

(** The messages of referencegrant.go. *)
Definition seaweedRefDeniedMessage (ref : SeaweedReference) (fromKind fromNamespace : string)
    : string :=
  let toNamespace := if bool_decide (ref_Namespace ref = "") then fromNamespace
                     else ref_Namespace ref in
  "cross-namespace seaweedRef to Seaweed " +:+ fmt_q (ref_Name ref) +:+ " in namespace " +:+
  fmt_q toNamespace +:+ " is not permitted; create a ResourceReferenceGrant in namespace " +:+
  fmt_q toNamespace +:+ " with from {group: " +:+ fmt_q groupSeaweed +:+ ", kind: " +:+
  fmt_q fromKind +:+ ", namespace: " +:+ fmt_q fromNamespace +:+ "} to {group: " +:+
  fmt_q groupSeaweed +:+ ", kind: " +:+ fmt_q kindSeaweed +:+ "}".
Definition secretRefDeniedMessage (secretNamespace secretName fromNamespace : string) : string :=
  "cross-namespace secretRef to Secret " +:+ fmt_q secretName +:+ " in namespace " +:+
  fmt_q secretNamespace +:+ " is not permitted; create a ResourceReferenceGrant in namespace " +:+
  fmt_q secretNamespace +:+ " with from {group: " +:+ fmt_q groupSeaweed +:+ ", kind: " +:+
  fmt_q kindS3Credentials +:+ ", namespace: " +:+ fmt_q fromNamespace +:+ "} to {group: " +:+
  fmt_q groupCore +:+ ", kind: " +:+ fmt_q kindSecret +:+ "}".

(** ** Trace facts *)
Section facts.
Context `{ApiMachinery}.

(** The grants seen in the trace permit the reference. *)
Definition granted (tr : trace) (from to : referent) : Prop :=
  r_Namespace from = r_Namespace to \/
  exists gs labels,
    saw_kube tr (KList KGrant (Some (r_Namespace to)) ∅) (Ok gs) /\
    (usesSelector gs = false /\ labels = ∅ \/
     exists ns, saw_kube tr (KGet KNamespace {| nn_Namespace := "";
                                                nn_Name := r_Namespace from |}) (Ok ns) /\
                labels = Labels (ns_Meta ns)) /\
    permitted gs labels from to.

Definition seaweed_granted (tr : trace) (ref : SeaweedReference) (fromKind ns : string) : Prop :=
  granted tr
    {| r_Group := groupSeaweed; r_Kind := fromKind; r_Namespace := ns; r_Name := "" |}
    {| r_Group := groupSeaweed; r_Kind := kindSeaweed; r_Namespace := refNamespace ref ns;
       r_Name := ref_Name ref |}.
Definition secret_granted (tr : trace) (secretNamespace secretName ns : string) : Prop :=
  granted tr
    {| r_Group := groupSeaweed; r_Kind := kindS3Credentials; r_Namespace := ns; r_Name := "" |}
    {| r_Group := groupCore; r_Kind := kindSecret; r_Namespace := secretNamespace;
       r_Name := secretName |}.

(** The reference resolved to a cluster of that name with this filer. *)
Definition seaweed_key (ref : SeaweedReference) (ns : string) : NamespacedName :=
  {| nn_Namespace := refNamespace ref ns; nn_Name := ref_Name ref |}.
Definition resolved (tr : trace) (ref : SeaweedReference) (ns : string) (t : filerTarget)
    : Prop :=
  exists sw, saw_kube tr (KGet KSeaweed (seaweed_key ref ns)) (Ok sw) /\
             address t = getFilerAddress sw.
Definition cluster_gone (tr : trace) (ref : SeaweedReference) (ns : string) : Prop :=
  exists e, IsNotFound e = true /\ saw_kube tr (KGet KSeaweed (seaweed_key ref ns)) (Err e).

(** Facts survive the growth of the trace. *)
Lemma saw_kube_mono tr new {X} (e : kubeE X) x : saw_kube tr e x -> saw_kube (tr ++ new) e x.
Proof. apply saw_app_l. Qed.
Lemma granted_mono tr new from to : granted tr from to -> granted (tr ++ new) from to.
Proof.
  intros [?|(gs & ls & Hl & Hns & Hp)]; [by left|right]. exists gs, ls.
  split; [by apply saw_app_l|]. split; [|done].
  destruct Hns as [?|(ns & Hn & ?)]; [by left|right]. exists ns.
  split; [by apply saw_app_l|done].
Qed.
Lemma resolved_mono tr new ref ns t : resolved tr ref ns t -> resolved (tr ++ new) ref ns t.
Proof. intros (sw & ? & ?). exists sw. split; [by apply saw_app_l|done]. Qed.
Lemma cluster_gone_mono tr new ref ns : cluster_gone tr ref ns -> cluster_gone (tr ++ new) ref ns.
Proof. intros (e & ? & ?). exists e. split; [done|by apply saw_app_l]. Qed.

(** A guard that allows every read, and the parsing of TLS material. *)
Definition allows_reads (G : Guard) : Prop :=
  (forall tr k key, G tr _ (OKube (KGet k key))) /\
  (forall tr k ns ls, G tr _ (OKube (KList k ns ls))) /\
  (forall tr ca cert key, G tr _ (ODialTLS ca cert key)).

#[local] Hint Resolve saw_kube_mono granted_mono resolved_mono cluster_gone_mono : trace.

Section reads.
Context (G : Guard) (G_reads : allows_reads G).

Lemma referenceGrantPermits_swp from to tr :
  swp G (referenceGrantPermits from to)
    (fun r tr' => r = Ok true -> granted tr' from to) tr.
Proof using G_reads.
  destruct G_reads as (Gget & Glist & _).
  unfold referenceGrantPermits, granted. case_bool_decide as Hns; sx; [by left|].
  split; [apply Glist|]. intros [e|gs]; sx; [done|].
  unfold sourceNamespaceLabels. destruct (usesSelector gs) eqn:Hu; sx.
  - split; [apply Gget|]. intros [e|ns]; sx; [done|]. intros [= Hp]. right.
    exists gs, (Labels (ns_Meta ns)). split; [auto with trace|]. split; [eauto with trace|].
    right. apply existsb_elem in Hp as (g & ? & Hg). exists g. split; [done|].
    by apply grantAllows_spec.
  - intros [= Hp]. right. exists gs, ∅. split; [auto with trace|]. split; [by left|].
    right. apply existsb_elem in Hp as (g & ? & Hg). exists g. split; [done|].
    by apply grantAllows_spec.
Qed.

Lemma seaweedRefPermitted_swp ref kind ns tr :
  swp G (seaweedRefPermitted ref kind ns)
    (fun r tr' => r = Ok true -> seaweed_granted tr' ref kind ns) tr.
Proof using G_reads. apply referenceGrantPermits_swp. Qed.

Lemma secretRefPermitted_swp sns sname ns tr :
  swp G (secretRefPermitted sns sname ns)
    (fun r tr' => r = Ok true -> secret_granted tr' sns sname ns) tr.
Proof using G_reads. apply referenceGrantPermits_swp. Qed.

Lemma loadFilerAdminSigningKey_swp sw tr :
  swp G (loadFilerAdminSigningKey sw) (fun _ _ => True) tr.
Proof using G_reads.
  destruct G_reads as (Gget & _). unfold loadFilerAdminSigningKey; sx.
  split; [apply Gget|]. intros [e|sec]; sx; [|done]. by destruct (IsNotFound e).
Qed.

Lemma loadSeaweedGrpcDialOption_swp `{Digest} sw tr :
  swp G (loadSeaweedGrpcDialOption sw) (fun _ _ => True) tr.
Proof using G_reads.
  destruct G_reads as (Gget & _ & Gdial). unfold loadSeaweedGrpcDialOption.
  destruct (tlsEnabled sw); sx; [|done]. split; [apply Gget|].
  intros [e|sec]; sx; [by destruct (IsNotFound e)|].
  destruct (_ || _); sx; [done|]. split; [apply Gdial|]. by intros [e|].
Qed.

Lemma resolveSeaweedFiler_swp `{Digest} ref ns tr :
  swp G (resolveSeaweedFiler ref ns)
    (fun r tr' => match r with
                  | inr (Some t) => resolved tr' ref ns t
                  | inr None => cluster_gone tr' ref ns
                  | inl _ => True
                  end) tr.
Proof using G_reads.
  unfold resolveSeaweedFiler. fold (seaweed_key ref ns). sx.
  split; [apply G_reads|]. intros [e|sw]; sx.
  { destruct (IsNotFound e) eqn:He; sx; [|done]. exists e. auto with trace. }
  eapply swp_seq_keep; [apply loadFilerAdminSigningKey_swp|].
  intros [e|key] new1 _; sx; [done|].
  eapply swp_seq_keep; [apply loadSeaweedGrpcDialOption_swp|].
  intros [e|d] new2 _; sx; [done|]. exists sw. auto with trace.
Qed.

Lemma identityClaimants_swp self name tr :
  swp G (identityClaimants self name)
    (fun r tr' => match r with
       | inl _ => True
       | inr l => exists items, saw_kube tr' (KList KS3Identity None ∅) (Ok items) /\
                                l = peers_of self name (claim_cluster self) items end) tr.
Proof using G_reads.
  destruct G_reads as (_ & Glist & _). unfold identityClaimants. sx.
  split; [apply Glist|]. intros [e|items]; sx; [done|].
  exists items. split; [auto with trace|].
  erewrite filter_ext_bool by (intros; apply peer_test). done.
Qed.

Lemma policyClaimants_swp self name tr :
  swp G (policyClaimants self name)
    (fun r tr' => match r with
       | inl _ => True
       | inr l => exists items, saw_kube tr' (KList KS3Policy None ∅) (Ok items) /\
                                l = peers_of self name (claim_cluster self) items end) tr.
Proof using G_reads.
  destruct G_reads as (_ & Glist & _). unfold policyClaimants. sx.
  split; [apply Glist|]. intros [e|items]; sx; [done|].
  exists items. split; [auto with trace|].
  erewrite filter_ext_bool by (intros; apply peer_test). done.
Qed.

(** No claimant seen in the trace precedes [self]. *)
Definition unconflicted (tr : trace) (k : Kind) `{Claimant (Obj k)} (self : Obj k)
    (name : string) : Prop :=
  exists items, saw_kube tr (KList k None ∅) (Ok items) /\
    conflict_of self (peers_of self name (claim_cluster self) items) = None.

Lemma unconflicted_mono tr new k `{Claimant (Obj k)} self name :
  unconflicted tr k self name -> unconflicted (tr ++ new) k self name.
Proof. intros (items & ? & ?). exists items. split; [by apply saw_app_l|done]. Qed.

Lemma identityConflict_swp self name tr :
  swp G (identityConflict self name)
    (fun r tr' => r = Ok None -> unconflicted tr' KS3Identity self name) tr.
Proof using G_reads.
  unfold identityConflict. eapply swp_seq; [apply identityClaimants_swp|].
  intros [e|l] tr' Hl; sx; [done|]. destruct Hl as (items & Hsaw & ->).
  unfold unconflicted, conflict_of; simpl.
  destruct (pick_winner _ _) as [w|] eqn:Hw; sx.
  - destruct (claimPrecedes _ _) eqn:Hlt; sx; [|done]. intros _. exists items.
    split; [done|]. cbv [Obj] in *. simpl in *. by rewrite Hw, Hlt.
  - intros _. exists items. split; [done|]. cbv [Obj] in *. simpl in *. by rewrite Hw.
Qed.

Lemma policyConflict_swp self name tr :
  swp G (policyConflict self name)
    (fun r tr' => r = Ok None -> unconflicted tr' KS3Policy self name) tr.
Proof using G_reads.
  unfold policyConflict. eapply swp_seq; [apply policyClaimants_swp|].
  intros [e|l] tr' Hl; sx; [done|]. destruct Hl as (items & Hsaw & ->).
  unfold unconflicted, conflict_of; simpl.
  destruct (pick_winner _ _) as [w|] eqn:Hw; sx.
  - destruct (claimPrecedes _ _) eqn:Hlt; sx; [|done]. intros _. exists items.
    split; [done|]. cbv [Obj] in *. simpl in *. by rewrite Hw, Hlt.
  - intros _. exists items. split; [done|]. cbv [Obj] in *. simpl in *. by rewrite Hw.
Qed.
End reads.
End facts.

#[export] Hint Extern 2 (saw_kube (_ ++ _) _ _) => apply saw_kube_mono : trace.
#[export] Hint Extern 2 (granted (_ ++ _) _ _) => apply granted_mono : trace.
#[export] Hint Extern 2 (seaweed_granted (_ ++ _) _ _ _) => apply granted_mono : trace.
#[export] Hint Extern 2 (secret_granted (_ ++ _) _ _ _) => apply granted_mono : trace.
#[export] Hint Extern 2 (resolved (_ ++ _) _ _ _) => apply resolved_mono : trace.
#[export] Hint Extern 2 (unconflicted (_ ++ _) _ _ _) => apply unconflicted_mono : trace.
