(* ===== verification/IamSpec.v ===== *)
(** * The IAM service the controllers rely on

    What iam_admin.go documents of the [IAMAdmin] interface, as an environment:
    a call acts on the store of users, policies and OIDC providers as documented
    (lookups of an absent object answer [ErrIAMNotFound], deletes are
    idempotent, ...) or fails with some other error and changes nothing.  API
    objects are read from a snapshot [objs]; a read may fail, and the answers to
    writes are arbitrary.  The functional theorems of the IAM controllers hold
    in this environment. *)
From S2P Require Import Prelude Prog CoreTypes ApiTypes Effects Machinery Sim Trace Cluster.
From S2P Require Import IamCommon.

(** A failed call, whatever its type: any error that is not a sentinel. *)
Definition other_error (e : error) : Prop := exists m, e = ErrOther m.
Definition iam_fails {X} (e : iamE X) : X -> Prop :=
  match e in iamE X return X -> Prop with
  | GetUser _ => fun r => exists err, r = Err err /\ other_error err
  | GetPolicy _ => fun r => exists err, r = Err err /\ other_error err
  | PutOIDCProvider _ => fun r => exists err, r = Err err /\ other_error err
  | CreateUser _ _ _ _ | SetUserState _ _ _ _ | DeleteUser _ | CreateAccessKey _ _ _
  | UpdateAccessKey _ _ _ | DeleteAccessKey _ _ | PutPolicy _ _ | DeletePolicy _
  | AttachPolicy _ _ | DetachPolicy _ _ | DeleteOIDCProvider _ =>
      fun r => exists err, r = Some err /\ other_error err
  end.

Section env.
Context (objs : forall k, NamespacedName -> option (Obj k)).

Definition kube_read {X} (e : kubeE X) : X -> Prop :=
  match e in kubeE X return X -> Prop with
  | KGet k key => fun r => match r with
      | inr o => objs k key = Some o
      | inl e => IsNotFound e = true -> objs k key = None
      end
  | _ => fun _ => True
  end.

Definition iam_env : Env opE Sim := fun X e s x s' =>
  match e in opE X return X -> Prop with
  | OIam _ e' => fun x => (s', x) = sim_iam e' s \/ s' = s /\ iam_fails e' x
  | OKube e' => fun x => s' = s /\ kube_read e' x
  | _ => fun _ => s' = s
  end x.

(** The reference environment is one of these when it starts from [objs]. *)
Definition reads_from (s : Sim) : Prop :=
  forall k key, objs k key = List.find (fun o => bool_decide (obj_key o = key)) (sim_objs s k).
End env.

(** The reference environment with the API objects held fixed. *)
Definition sim_iam_only (objs : forall k, NamespacedName -> option (Obj k)) : Handler opE Sim :=
  fun X e s =>
  match e in opE X return Sim * X with
  | OIam _ e => sim_iam e s
  | OKube e =>
      (s, match e in kubeE X return X with
          | KGet k key => match objs k key with
                          | Some o => Ok o | None => Err (ErrNotFound "not found") end
          | KList _ _ _ => Ok []
          | KCreate _ _ | KUpdate _ _ | KStatusUpdate _ _ | KStatusPatch _ _ _ | KDelete _ _
          | KDeleteUID _ _ _ | KDeleteAllOf _ _ | KCreateOrUpdate _ _ _ => None
          | KPatch _ _ o => Ok o
          end)
  | OAdminFactory _ | OBucketFactory _ _ | OVolumeFactory _ _ | ODialTLS _ _ _ => (s, None)
  | OBucket _ _ e => (s, (sim_bucket e s).2)
  | OVolume _ _ e => (s, (sim_volume e s).2)
  | OTrack e =>
      (s, match e in trackE X return X with
          | TLastErr _ => None | TStart _ _ _ => true | TForget _ => tt end)
  | OGenerateKeyPair => (s, Ok ("AK", "SK"))
  | OMonitorAvailable => (s, true)
  | OMonitorUnavailable => (s, tt)
  | ORandRead n => (s, Ok "")
  | ONow => (s, 1%Z)
  | OEvent _ _ _ => (s, tt)
  end.

Lemma sim_iam_only_refines objs : refines (sim_iam_only objs) (iam_env objs).
Proof.
  intros X e s. destruct e as [X e|t|X t e|ms t|X ms t e|ms d|X ms d e|X e|ca cert key| |n| | | |ty r m];
    simpl; try done.
  - destruct e; simpl; try done. split; [done|]. by destruct (objs k key) eqn:Ho.
  - left. by destruct (sim_iam e s).
Qed.

Lemma run_iam {A} objs (p : op A) s a :
  (run (sim_iam_only objs) p s).2 = a ->
  exec (iam_env objs) p s (run (sim_iam_only objs) p s).1 a.
Proof. apply run_exec_eq, sim_iam_only_refines. Qed.

(** ** Calls that leave the IAM service alone *)
Definition quiet {X} (e : opE X) : Prop := match e with OIam _ _ => False | _ => True end.
Definition quiet_guard : Guard := fun _ _ e => quiet e.

Lemma quiet_reads : allows_reads quiet_guard.
Proof. done. Qed.

(** A program of quiet calls changes nothing, and its results satisfy what the
    trace specification says of them. *)
Lemma quiet_wp objs {A} (p : op A) (Q : A -> Prop) tr s :
  swp quiet_guard p (fun a _ => Q a) tr ->
  wp (iam_env objs) p (fun a s1 => s1 = s /\ Q a) s.
Proof.
  revert tr s; induction p as [a|X e k IH]; intros tr s; simpl; [done|].
  intros [Hq Hk] x s1 Hx.
  assert (s1 = s) as ->.
  { destruct e; simpl in Hx; try done. by destruct Hx. }
  by eapply IH.
Qed.

(** The same inside a sequence. *)
Lemma quiet_seq objs {A B} (p : op A) (f : A -> op B) (R : A -> Prop) Q s :
  swp quiet_guard p (fun a _ => R a) [] ->
  (forall a, R a -> wp (iam_env objs) (f a) Q s) ->
  wp (iam_env objs) (bind p f) Q s.
Proof.
  intros Hp Hf. eapply wp_seq; [eapply quiet_wp, Hp|]. intros a s1 [-> HR]. by apply Hf.
Qed.

(** The resync result that ends a successful pass. *)
Definition resync : outcome := Done (requeueIn iamResyncInterval) None.

(** Sample data of the evaluations. *)
Definition sample_sw (ns : string) : Seaweed := {|
  sw_Meta := sample_meta ns "sw" 1%Z;
  sw_Spec := minimal_spec 1 None None; sw_Status := no_status |}.
#[export] Instance sample_digest : Digest := {| sha256 s := s |}.
