(* ===== verification/IamClient.v ===== *)
(** * The IAM client (internal/controller/swadmin/iam_client.go, iam_admin.go)

    The gRPC client and the [IAMAdmin] built on it, as programs over the RPCs of
    the filer's IAM service.  The service itself is not part of the repository:
    [server_env] states what the code relies on of it, and the refinement theorem
    says that over it the client implements the [IAMAdmin] contract that the
    controllers' theorems assume. *)
From Stdlib Require Import Ascii.
From S2P Require Import Prelude Prog CoreTypes ApiTypes Effects Sim Trace IamCommon IamSpec.

(** ** The service *)

(** A gRPC error by its status code; an error that is not a status has code
    Unknown. *)
Inductive rpc_error :=
| CodeNotFound (msg : string)
| CodeAlreadyExists (msg : string)
| CodeOther (msg : string).

Record pbCredential := {
  pbc_AccessKey : string;
  pbc_SecretKey : string;
  pbc_Status : string;
}.
Record pbAccount := {
  DisplayName : string;
  EmailAddress : string;
}.
(** [iam_pb.Identity]; [pb_Rest] stands for the fields the client never names
    and sends back as it received them. *)
Record pbIdentity := {
  pb_Name : string;
  pb_Credentials : list pbCredential;
  pb_Actions : list string;
  pb_Account : option pbAccount;
  pb_Disabled : bool;
  pb_PolicyNames : list string;
  pb_Rest : string;
}.

(** [Lock] is [iamUserLocks.lock], its result the mutex whose [Unlock] the caller
    defers; [Connect] is [grpc.NewClient] with the metadata of the call. *)
Inductive rpcE : Type -> Type :=
| Lock (key : string) : rpcE nat
| Unlock (m : nat) : rpcE ()
| Connect (address : string) (authorization : option string) : rpcE (option rpc_error)
| RGetUser (name : string) : rpcE (rpc_error + option pbIdentity)
| RCreateUser (id : pbIdentity) : rpcE (option rpc_error)
| RUpdateUser (name : string) (id : pbIdentity) : rpcE (option rpc_error)
| RDeleteUser (name : string) : rpcE (option rpc_error)
| RCreateAccessKey (user : string) (c : pbCredential) : rpcE (option rpc_error)
| RDeleteAccessKey (user accessKey : string) : rpcE (option rpc_error)
| RPutPolicy (name content : string) : rpcE (option rpc_error)
| RGetPolicy (name : string) : rpcE (rpc_error + string)
| RDeletePolicy (name : string) : rpcE (option rpc_error).
Abbreviation rpc := (prog rpcE).

(** ** The client *)
Section client.
Context (filerGrpcAddress adminSigningKey : string) (GenJwtForFilerAdmin : string -> string).

Definition authContext : option string :=
  if bool_decide (adminSigningKey = "") then None
  else let token := GenJwtForFilerAdmin adminSigningKey in
       if bool_decide (token = "") then None else Some ("Bearer " +:+ token).

(** [withClient] for calls that return a value and for calls that do not. *)
Definition withClient {A} (fn : rpc (rpc_error + A)) : rpc (rpc_error + A) :=
  check call (Connect filerGrpcAddress authContext) catch err => Ret (inl err); fn.
Definition withClient_ (fn : rpc (option rpc_error)) : rpc (option rpc_error) :=
  check call (Connect filerGrpcAddress authContext) catch err => Ret (Some err); fn.

Definition userKey (name : string) : string :=
  filerGrpcAddress +:+ String "000"%char name.
Definition lockUser {A} (name : string) (body : rpc A) : rpc A :=
  do m <- call (Lock (userKey name)); do r <- body; do _ <- call (Unlock m); Ret r.

Definition accountOrNil (displayName email : string) : option pbAccount :=
  if bool_decide (displayName = "") && bool_decide (email = "") then None
  else Some {| DisplayName := displayName; EmailAddress := email |}.

Definition identityToUser (id : pbIdentity) : IAMUser := {|
  user_Name := pb_Name id; user_Disabled := pb_Disabled id;
  user_DisplayName := match pb_Account id with Some a => DisplayName a | None => "" end;
  user_Email := match pb_Account id with Some a => EmailAddress a | None => "" end;
  user_PolicyNames := pb_PolicyNames id;
  user_Credentials := map (fun c => {| AccessKey := pbc_AccessKey c;
                                       SecretKey := pbc_SecretKey c |}) (pb_Credentials id) |}.

Definition emptyIdentity (user : string) : rpc_error :=
  CodeOther ("user " +:+ fmt_q user +:+ " returned empty identity").

Definition c_GetUser (name : string) : rpc (rpc_error + option IAMUser) :=
  withClient (
    do resp <- call (RGetUser name);
    match resp with
    | inl err => Ret (inl err)
    | inr id => Ret (inr (option_map identityToUser id))
    end).

Definition c_CreateUser (name displayName email : string) (disabled : bool)
    : rpc (option rpc_error) :=
  withClient_ (call (RCreateUser {|
    pb_Name := name; pb_Credentials := []; pb_Actions := [];
    pb_Account := accountOrNil displayName email; pb_Disabled := disabled;
    pb_PolicyNames := []; pb_Rest := "" |})).

Definition c_SetUserState (name displayName email : string) (disabled : bool)
    : rpc (option rpc_error) :=
  lockUser name (withClient_ (
    do resp <- call (RGetUser name);
    match resp with
    | inl err => Ret (Some err)
    | inr None => Ret (Some (emptyIdentity name))
    | inr (Some id) =>
        call (RUpdateUser name {|
          pb_Name := pb_Name id; pb_Credentials := pb_Credentials id;
          pb_Actions := pb_Actions id; pb_Account := accountOrNil displayName email;
          pb_Disabled := disabled; pb_PolicyNames := pb_PolicyNames id;
          pb_Rest := pb_Rest id |})
    end)).

Definition c_DeleteUser (name : string) : rpc (option rpc_error) :=
  withClient_ (call (RDeleteUser name)).

Definition AccessKeyStatusActive : string := "Active".
Definition c_CreateAccessKey (user accessKey secretKey : string) : rpc (option rpc_error) :=
  lockUser user (withClient_ (call (RCreateAccessKey user {|
    pbc_AccessKey := accessKey; pbc_SecretKey := secretKey;
    pbc_Status := AccessKeyStatusActive |}))).

(** The loop over the credentials: the first match is rewritten. *)
Fixpoint rewrite_secret (accessKey secretKey : string) (l : list pbCredential)
    : option (list pbCredential) :=
  match l with
  | [] => None
  | c :: l' =>
      if bool_decide (pbc_AccessKey c = accessKey)
      then Some ({| pbc_AccessKey := pbc_AccessKey c; pbc_SecretKey := secretKey;
                    pbc_Status := pbc_Status c |} :: l')
      else cons c <$> rewrite_secret accessKey secretKey l'
  end.
Definition c_UpdateAccessKey (user accessKey secretKey : string) : rpc (option rpc_error) :=
  lockUser user (withClient_ (
    do resp <- call (RGetUser user);
    match resp with
    | inl err => Ret (Some err)
    | inr None => Ret (Some (emptyIdentity user))
    | inr (Some id) =>
        match rewrite_secret accessKey secretKey (pb_Credentials id) with
        | None => Ret (Some (CodeNotFound ("access key " +:+ accessKey +:+
                               " not found on user " +:+ user)))
        | Some creds =>
            call (RUpdateUser user {|
              pb_Name := pb_Name id; pb_Credentials := creds;
              pb_Actions := pb_Actions id; pb_Account := pb_Account id;
              pb_Disabled := pb_Disabled id; pb_PolicyNames := pb_PolicyNames id;
              pb_Rest := pb_Rest id |})
        end
    end)).

Definition c_DeleteAccessKey (user accessKey : string) : rpc (option rpc_error) :=
  lockUser user (withClient_ (call (RDeleteAccessKey user accessKey))).

Definition with_policies (id : pbIdentity) (ps : list string) : pbIdentity := {|
  pb_Name := pb_Name id; pb_Credentials := pb_Credentials id; pb_Actions := pb_Actions id;
  pb_Account := pb_Account id; pb_Disabled := pb_Disabled id; pb_PolicyNames := ps;
  pb_Rest := pb_Rest id |}.

Definition c_AttachPolicy (user policy : string) : rpc (option rpc_error) :=
  lockUser user (withClient_ (
    do resp <- call (RGetUser user);
    match resp with
    | inl err => Ret (Some err)
    | inr None => Ret (Some (emptyIdentity user))
    | inr (Some id) =>
        if existsb (fun p => bool_decide (p = policy)) (pb_PolicyNames id) then Ret None
        else call (RUpdateUser user (with_policies id (pb_PolicyNames id ++ [policy])))
    end)).

Definition c_DetachPolicy (user policy : string) : rpc (option rpc_error) :=
  lockUser user (withClient_ (
    do resp <- call (RGetUser user);
    match resp with
    | inl err => Ret (Some err)
    | inr None => Ret (Some (emptyIdentity user))
    | inr (Some id) =>
        if negb (existsb (fun p => bool_decide (p = policy)) (pb_PolicyNames id)) then Ret None
        else call (RUpdateUser user (with_policies id
               (List.filter (fun p => negb (bool_decide (p = policy))) (pb_PolicyNames id))))
    end)).

Definition setBucketActions (id : pbIdentity) (bucket actions : string) : pbIdentity :=
  let suffix := ":" +:+ bucket in
  let kept := List.filter (fun a => negb (HasSuffix a suffix)) (pb_Actions id) in
  let added :=
    if negb (bool_decide (actions = "")) && negb (EqualFold actions "none")
    then flat_map (fun a => let a := TrimSpace a in
                            if bool_decide (a = "") then [] else [a +:+ suffix])
           (Split actions ","%char)
    else [] in
  {| pb_Name := pb_Name id; pb_Credentials := pb_Credentials id; pb_Actions := kept ++ added;
     pb_Account := pb_Account id; pb_Disabled := pb_Disabled id;
     pb_PolicyNames := pb_PolicyNames id; pb_Rest := pb_Rest id |}.

Definition new_identity (user : string) : pbIdentity := {|
  pb_Name := user; pb_Credentials := []; pb_Actions := []; pb_Account := None;
  pb_Disabled := false; pb_PolicyNames := []; pb_Rest := "" |}.

Definition c_SetBucketAccess (bucket user actions : string) : rpc (option rpc_error) :=
  lockUser user (withClient_ (
    do resp <- call (RGetUser user);
    match resp with
    | inl (CodeNotFound _) | inr None =>
        call (RCreateUser (setBucketActions (new_identity user) bucket actions))
    | inl err => Ret (Some err)
    | inr (Some id) => call (RUpdateUser user (setBucketActions id bucket actions))
    end)).

Definition c_PutPolicy (name document : string) : rpc (option rpc_error) :=
  withClient_ (call (RPutPolicy name document)).
Definition c_GetPolicy (name : string) : rpc (rpc_error + string) :=
  withClient (call (RGetPolicy name)).
Definition c_DeletePolicy (name : string) : rpc (option rpc_error) :=
  withClient_ (call (RDeletePolicy name)).

(** oidc_client.go: no transport is wired. *)
Definition ErrOIDCNotWired : rpc_error :=
  CodeOther "swadmin: OIDC provider management transport not wired (see oidc_client.go)".
Definition c_PutOIDCProvider (provider : OIDCProvider) : rpc (rpc_error + string) :=
  Ret (inl ErrOIDCNotWired).
Definition c_DeleteOIDCProvider (issuerURL : string) : rpc (option rpc_error) :=
  Ret (Some ErrOIDCNotWired).

(** ** The admin (iam_admin.go) *)
Definition mapIAMError (err : rpc_error) : error :=
  match err with
  | CodeNotFound _ => ErrIAMNotFound
  | CodeAlreadyExists _ => ErrIAMUserAlreadyExists
  | CodeOther m => ErrOther m
  end.
(** [return mapIAMError(...)], and the idempotent variant of the deletes. *)
Definition mapped (p : rpc (option rpc_error)) : rpc (option error) :=
  do r <- p; Ret (mapIAMError <$> r).
Definition mapped_delete (p : rpc (option rpc_error)) : rpc (option error) :=
  do r <- p;
  match mapIAMError <$> r with
  | Some err => if errors_Is err ErrIAMNotFound then Ret None else Ret (Some err)
  | None => Ret None
  end.
Definition mapped_value {A} (p : rpc (rpc_error + A)) : rpc (result A) :=
  do r <- p; Ret (match r with inl err => Err (mapIAMError err) | inr a => Ok a end).

Definition admin_GetPolicy (name : string) : rpc (result string) := mapped_value (c_GetPolicy name).
Definition admin_DeletePolicy (name : string) : rpc (option error) :=
  do r <- admin_GetPolicy name;
  match r with
  | inl err => if errors_Is err ErrIAMNotFound then Ret None else Ret (Some err)
  | inr _ => mapped (c_DeletePolicy name)
  end.

(** [swadminIAMAdmin], method by method. *)
Definition swadminIAMAdmin {X} (e : iamE X) : rpc X :=
  match e in iamE X return rpc X with
  | GetUser name => mapped_value (c_GetUser name)
  | CreateUser name d m b => mapped (c_CreateUser name d m b)
  | SetUserState name d m b => mapped (c_SetUserState name d m b)
  | DeleteUser name => mapped_delete (c_DeleteUser name)
  | CreateAccessKey u ak sk => mapped (c_CreateAccessKey u ak sk)
  | UpdateAccessKey u ak sk => mapped (c_UpdateAccessKey u ak sk)
  | DeleteAccessKey u ak => mapped_delete (c_DeleteAccessKey u ak)
  | PutPolicy name d => mapped (c_PutPolicy name d)
  | GetPolicy name => admin_GetPolicy name
  | DeletePolicy name => admin_DeletePolicy name
  | AttachPolicy u p => mapped (c_AttachPolicy u p)
  | DetachPolicy u p => mapped (c_DetachPolicy u p)
  | PutOIDCProvider p => mapped_value (c_PutOIDCProvider p)
  | DeleteOIDCProvider u => mapped_delete (c_DeleteOIDCProvider u)
  end.
End client.

(** ** What the code relies on of the service

    The documented answers of the RPCs: an absent user or policy is NotFound, a
    taken name AlreadyExists; [CreateAccessKey] appends the credential to an
    existing user; [UpdateUser] replaces the whole identity. *)
Record Server := {
  srv_users : gmap string pbIdentity;
  srv_policies : gmap string string;
}.
Definition set_srv_users (u : gmap string pbIdentity) (s : Server) : Server :=
  {| srv_users := u; srv_policies := srv_policies s |}.
Definition set_srv_policies (p : gmap string string) (s : Server) : Server :=
  {| srv_users := srv_users s; srv_policies := p |}.
Definition with_creds (id : pbIdentity) (cs : list pbCredential) : pbIdentity := {|
  pb_Name := pb_Name id; pb_Credentials := cs; pb_Actions := pb_Actions id;
  pb_Account := pb_Account id; pb_Disabled := pb_Disabled id;
  pb_PolicyNames := pb_PolicyNames id; pb_Rest := pb_Rest id |}.

(** Replacing the identity of an existing user. *)
Definition on_user (name : string) (f : pbIdentity -> pbIdentity) (s : Server)
    : Server * option rpc_error :=
  match srv_users s !! name with
  | None => (s, Some (CodeNotFound name))
  | Some id => (set_srv_users (<[name := f id]> (srv_users s)) s, None)
  end.

Definition server {X} (e : rpcE X) (s : Server) : Server * X :=
  match e in rpcE X return Server * X with
  | Lock _ => (s, 0)
  | Unlock _ => (s, tt)
  | Connect _ _ => (s, None)
  | RGetUser n => (s, match srv_users s !! n with
                      | Some id => inr (Some id) | None => inl (CodeNotFound n) end)
  | RCreateUser id =>
      match srv_users s !! pb_Name id with
      | Some _ => (s, Some (CodeAlreadyExists (pb_Name id)))
      | None => (set_srv_users (<[pb_Name id := id]> (srv_users s)) s, None)
      end
  | RUpdateUser n id => on_user n (fun _ => id) s
  | RDeleteUser n =>
      match srv_users s !! n with
      | None => (s, Some (CodeNotFound n))
      | Some _ => (set_srv_users (delete n (srv_users s)) s, None)
      end
  | RCreateAccessKey u c => on_user u (fun id => with_creds id (pb_Credentials id ++ [c])) s
  | RDeleteAccessKey u ak =>
      on_user u (fun id => with_creds id
        (List.filter (fun c => negb (bool_decide (pbc_AccessKey c = ak))) (pb_Credentials id))) s
  | RPutPolicy n d => (set_srv_policies (<[n := d]> (srv_policies s)) s, None)
  | RGetPolicy n => (s, match srv_policies s !! n with
                        | Some d => inr d | None => inl (CodeNotFound n) end)
  | RDeletePolicy n => (set_srv_policies (delete n (srv_policies s)) s, None)
  end.

(** A call that failed for another reason, and changed nothing. *)
Definition rpc_fails {X} (e : rpcE X) : X -> Prop :=
  match e in rpcE X return X -> Prop with
  | Lock _ | Unlock _ => fun _ => False
  | RGetUser _ => fun r => exists m, r = inl (CodeOther m)
  | RGetPolicy _ => fun r => exists m, r = inl (CodeOther m)
  | Connect _ _ | RCreateUser _ | RUpdateUser _ _ | RDeleteUser _ | RCreateAccessKey _ _
  | RDeleteAccessKey _ _ | RPutPolicy _ _ | RDeletePolicy _ =>
      fun r => exists m, r = Some (CodeOther m)
  end.

Definition server_env : Env rpcE Server := fun X e s x s' =>
  (s', x) = server e s \/ s' = s /\ rpc_fails e x.

Lemma server_refines : refines (fun X e s => server e s) server_env.
Proof. intros X e s. left. by destruct (server e s). Qed.

(** What the controllers' store holds of a server's. *)
Definition abstracts (s : Server) (a : Sim) : Prop :=
  sim_users a = identityToUser <$> srv_users s /\ sim_policies a = srv_policies s.

(** ** Verification rules *)
Lemma wp_rpc {X A} (e : rpcE X) (k : X -> rpc A) Q s :
  wp server_env (k (server e s).2) Q (server e s).1 ->
  (forall x, rpc_fails e x -> wp server_env (k x) Q s) ->
  wp server_env (Vis e k) Q s.
Proof.
  intros H1 H2 x s1 [He|[-> Hf]]; [|by apply H2].
  by rewrite <-He in H1.
Qed.

Section rules.
Context (addr key : string) (gen : string -> string).

Lemma wp_withClient_ (fn : rpc (option rpc_error)) Q s :
  wp server_env fn Q s -> (forall m, Q (Some (CodeOther m)) s) ->
  wp server_env (withClient_ addr key gen fn) Q s.
Proof. intros H1 H2. apply wp_rpc; [done|]. intros ? [m ->]. apply H2. Qed.

Lemma wp_withClient {A} (fn : rpc (rpc_error + A)) Q s :
  wp server_env fn Q s -> (forall m, Q (inl (CodeOther m)) s) ->
  wp server_env (withClient addr key gen fn) Q s.
Proof. intros H1 H2. apply wp_rpc; [done|]. intros ? [m ->]. apply H2. Qed.

Lemma wp_lockUser {A} (n : string) (body : rpc A) Q s :
  wp server_env body Q s -> wp server_env (lockUser addr n body) Q s.
Proof.
  intros Hb. apply wp_rpc; [|done]. simpl. eapply wp_seq; [exact Hb|].
  intros a s1 HQ. by apply wp_rpc.
Qed.

Lemma wp_mapped (p : rpc (option rpc_error)) Q s :
  wp server_env p (fun r s1 => Q (mapIAMError <$> r) s1) s -> wp server_env (mapped p) Q s.
Proof. intros Hp. eapply wp_seq; [exact Hp|]. by intros a s1 HQ. Qed.

Lemma wp_mapped_delete (p : rpc (option rpc_error)) Q s :
  wp server_env p (fun r s1 => Q (match r with
    | None | Some (CodeNotFound _) => None | _ => mapIAMError <$> r end) s1) s ->
  wp server_env (mapped_delete p) Q s.
Proof. intros Hp. eapply wp_seq; [exact Hp|]. by intros [[]|] s1 HQ. Qed.

Lemma wp_mapped_value {A} (p : rpc (rpc_error + A)) Q s :
  wp server_env p (fun r s1 =>
    Q (match r with inl err => Err (mapIAMError err) | inr a => Ok a end) s1) s ->
  wp server_env (mapped_value p) Q s.
Proof. intros Hp. eapply wp_seq; [exact Hp|]. by intros a s1 HQ. Qed.
(** The read-modify-write operations share their first half: the identity is
    read and the rest of the body runs on it. *)
Lemma wp_get_user {A} (n : string) (k : rpc_error + option pbIdentity -> rpc A) Q s :
  (forall id, srv_users s !! n = Some id -> wp server_env (k (inr (Some id))) Q s) ->
  (srv_users s !! n = None -> wp server_env (k (inl (CodeNotFound n))) Q s) ->
  (forall m, wp server_env (k (inl (CodeOther m))) Q s) ->
  wp server_env (Vis (RGetUser n) k) Q s.
Proof.
  intros H1 H2 H3. apply wp_rpc; simpl.
  - destruct (srv_users s !! n); eauto.
  - intros ? [m ->]. eauto.
Qed.

(** Writing back the identity of an existing user. *)
Lemma wp_update (n : string) id id' Q s :
  srv_users s !! n = Some id ->
  Q None (set_srv_users (<[n := id']> (srv_users s)) s) ->
  (forall m, Q (Some (CodeOther m)) s) ->
  wp server_env (call (RUpdateUser n id')) Q s.
Proof.
  intros Hn H1 H2. apply wp_rpc; simpl.
  - unfold on_user. by rewrite Hn.
  - by intros ? [m ->].
Qed.

End rules.

(** ** The client implements the interface *)
Lemma to_user_policies id ps :
  identityToUser (with_policies id ps) = user_policies ps (identityToUser id).
Proof. done. Qed.

(** Both stores look the same after one user has been replaced. *)
Lemma abstracts_insert s a n id u :
  abstracts s a -> identityToUser id = u ->
  abstracts (set_srv_users (<[n := id]> (srv_users s)) s) (set_users (<[n := u]> (sim_users a)) a).
Proof. intros [Hu Hp] <-. split; simpl; [|done]. by rewrite Hu, fmap_insert. Qed.

Lemma abstracts_delete s a n :
  abstracts s a ->
  abstracts (set_srv_users (delete n (srv_users s)) s) (set_users (delete n (sim_users a)) a).
Proof. intros [Hu Hp]. split; simpl; [|done]. by rewrite Hu, fmap_delete. Qed.

Lemma abstracts_lookup s a n :
  abstracts s a -> sim_users a !! n = identityToUser <$> srv_users s !! n.
Proof. intros [-> _]. by rewrite lookup_fmap. Qed.

(** A result of the client for the interface call [e]. *)
Definition answers {X} (e : iamE X) (a : Sim) (r : X) (s' : Server) : Prop :=
  exists a', abstracts s' a' /\ ((a', r) = sim_iam e a \/ a' = a /\ iam_fails e r).

Lemma answers_sim {X} (e : iamE X) a a' r s' :
  abstracts s' a' -> (a', r) = sim_iam e a -> answers e a r s'.
Proof. intros H1 H2. exists a'. auto. Qed.
Lemma answers_fails {X} (e : iamE X) a r s :
  abstracts s a -> iam_fails e r -> answers e a r s.
Proof. intros H1 H2. exists a. auto. Qed.

Lemma accountOrNil_name d m :
  match accountOrNil d m with Some x => DisplayName x | None => "" end = d.
Proof. unfold accountOrNil. by destruct (bool_decide_reflect (d = "")), (bool_decide (m = "")). Qed.
Lemma accountOrNil_email d m :
  match accountOrNil d m with Some x => EmailAddress x | None => "" end = m.
Proof. unfold accountOrNil. by destruct (bool_decide (d = "")), (bool_decide_reflect (m = "")). Qed.

Lemma rewrite_secret_spec ak sk l :
  match rewrite_secret ak sk l with
  | Some l' => map (fun c => {| AccessKey := pbc_AccessKey c; SecretKey := pbc_SecretKey c |}) l' =
      update_first ak sk
        (map (fun c => {| AccessKey := pbc_AccessKey c; SecretKey := pbc_SecretKey c |}) l) /\
      existsb (fun c => bool_decide (AccessKey c = ak))
        (map (fun c => {| AccessKey := pbc_AccessKey c; SecretKey := pbc_SecretKey c |}) l) = true
  | None => existsb (fun c => bool_decide (AccessKey c = ak))
        (map (fun c => {| AccessKey := pbc_AccessKey c; SecretKey := pbc_SecretKey c |}) l) = false
  end.
Proof.
  induction l as [|c l IH]; simpl; [done|].
  case_bool_decide as Hc; simpl; [by subst|].
  destruct (rewrite_secret ak sk l) as [l'|]; simpl; [|done].
  destruct IH as [-> ->]. done.
Qed.

Lemma map_filter_creds ak l :
  map (fun c => {| AccessKey := pbc_AccessKey c; SecretKey := pbc_SecretKey c |})
    (List.filter (fun c => negb (bool_decide (pbc_AccessKey c = ak))) l) =
  List.filter (fun c => negb (bool_decide (AccessKey c = ak)))
    (map (fun c => {| AccessKey := pbc_AccessKey c; SecretKey := pbc_SecretKey c |}) l).
Proof. induction l as [|c l IH]; simpl; [done|]. case_bool_decide; simpl; by rewrite IH. Qed.

Lemma filter_absent (p : string) l :
  existsb (fun q => bool_decide (q = p)) l = false ->
  List.filter (fun q => negb (bool_decide (q = p))) l = l.
Proof.
  induction l as [|q l IH]; simpl; [done|]. case_bool_decide; simpl; [done|].
  intros H1. by rewrite IH.
Qed.
Lemma existsb_elem_of (p : string) l :
  existsb (fun q => bool_decide (q = p)) l = bool_decide (p ∈ l).
Proof.
  induction l as [|q l IH]; simpl; [done|]. rewrite IH.
  repeat case_bool_decide; set_solver.
Qed.

(** Storing an equal user changes nothing. *)
Lemma set_users_id a n u : sim_users a !! n = Some u -> set_users (<[n := u]> (sim_users a)) a = a.
Proof. intros H. destruct a; unfold set_users; simpl in *. by rewrite insert_id. Qed.

Ltac client := apply wp_mapped || apply wp_mapped_value || apply wp_mapped_delete;
  repeat apply wp_lockUser; (apply wp_withClient_ || apply wp_withClient);
  [|intros ?; apply answers_fails; [done|]; simpl; repeat eexists].

Section refinement.
#[local] Set Default Proof Using "Type*".
Context (addr key : string) (gen : string -> string).
Context (s : Server) (a : Sim) (Habs : abstracts s a).

Abbreviation implements e := (wp server_env (swadminIAMAdmin addr key gen e) (answers e a) s).

Lemma sim_lookup n : sim_users a !! n = identityToUser <$> srv_users s !! n.
Proof. by apply abstracts_lookup. Qed.

Lemma with_user_some n id f :
  srv_users s !! n = Some id ->
  with_user a n f = match f (identityToUser id) with
                    | None => (a, Some ErrIAMNotFound)
                    | Some u' => (set_users (<[n := u']> (sim_users a)) a, None) end.
Proof. intros H. unfold with_user. by rewrite sim_lookup, H. Qed.
Lemma with_user_none n f : srv_users s !! n = None -> with_user a n f = (a, Some ErrIAMNotFound).
Proof. intros H. unfold with_user. by rewrite sim_lookup, H. Qed.

Ltac notfound := intros Hn; (eapply answers_sim; [done|]); simpl; by rewrite with_user_none.
Ltac failed := intros ? [? ->]; apply answers_fails; [done|]; simpl; repeat eexists.
Ltac other := intros ?; apply answers_fails; [done|]; simpl; repeat eexists.

Lemma GetUser_ok n : implements (GetUser n).
Proof.
  cbn [swadminIAMAdmin]. client. apply wp_get_user; simpl.
  - intros id Hn. eapply answers_sim; [done|]. simpl. by rewrite sim_lookup, Hn.
  - intros Hn. eapply answers_sim; [done|]. simpl. by rewrite sim_lookup, Hn.
  - other.
Qed.

Lemma CreateUser_ok n d m b : implements (CreateUser n d m b).
Proof.
  cbn [swadminIAMAdmin]. client. apply wp_rpc; simpl; [|failed].
  pose proof (sim_lookup n) as Hs. destruct (srv_users s !! n) as [id|]; simpl.
  - eapply answers_sim; [done|]. simpl. by rewrite Hs.
  - eapply answers_sim; [by apply abstracts_insert|]. simpl. rewrite Hs. unfold identityToUser, new_user.
    simpl. by rewrite accountOrNil_name, accountOrNil_email.
Qed.

Lemma SetUserState_ok n d m b : implements (SetUserState n d m b).
Proof.
  cbn [swadminIAMAdmin]. client. apply wp_get_user; simpl; [|notfound|other].
  intros id Hn. eapply wp_update; [done| |other].
  eapply answers_sim; [by apply abstracts_insert|]. simpl. erewrite with_user_some by done.
  unfold identityToUser, user_state. simpl. by rewrite accountOrNil_name, accountOrNil_email.
Qed.

Lemma DeleteUser_ok n : implements (DeleteUser n).
Proof.
  cbn [swadminIAMAdmin]. client. apply wp_rpc; simpl; [|failed].
  destruct (srv_users s !! n) as [id|] eqn:Hn; simpl.
  - eapply answers_sim; [by apply abstracts_delete|done].
  - eapply answers_sim; [done|]. simpl. rewrite delete_id by (by rewrite sim_lookup, Hn).
    by destruct a.
Qed.

Lemma CreateAccessKey_ok n ak sk : implements (CreateAccessKey n ak sk).
Proof.
  cbn [swadminIAMAdmin]. client. apply wp_rpc; simpl; [|failed].
  unfold on_user. destruct (srv_users s !! n) as [id|] eqn:Hn; simpl; [|by revert Hn; notfound].
  eapply answers_sim; [by apply abstracts_insert|]. simpl. erewrite with_user_some by done.
  unfold identityToUser, user_creds; simpl. by rewrite map_app.
Qed.

Lemma UpdateAccessKey_ok n ak sk : implements (UpdateAccessKey n ak sk).
Proof.
  cbn [swadminIAMAdmin]. client. apply wp_get_user; simpl; [|notfound|other].
  intros id Hn. pose proof (rewrite_secret_spec ak sk (pb_Credentials id)) as Hr.
  destruct (rewrite_secret _ _ _) as [cs|]; simpl.
  - destruct Hr as [Hc He]. eapply wp_update; [done| |other].
    eapply answers_sim; [by apply abstracts_insert|]. simpl. erewrite with_user_some by done.
    simpl. rewrite He. unfold identityToUser, user_creds; simpl. by rewrite Hc.
  - eapply answers_sim; [done|]. simpl. erewrite with_user_some by done. simpl. by rewrite Hr.
Qed.

Lemma DeleteAccessKey_ok n ak : implements (DeleteAccessKey n ak).
Proof.
  cbn [swadminIAMAdmin]. client. apply wp_rpc; simpl; [|failed].
  unfold on_user. destruct (srv_users s !! n) as [id|] eqn:Hn; simpl.
  - eapply answers_sim; [by apply abstracts_insert|]. simpl. erewrite with_user_some by done.
    unfold identityToUser, user_creds; simpl. by rewrite map_filter_creds.
  - eapply answers_sim; [done|]. simpl. by rewrite with_user_none.
Qed.

Lemma PutPolicy_ok n d : implements (PutPolicy n d).
Proof.
  cbn [swadminIAMAdmin]. client. apply wp_rpc; simpl; [|failed].
  eapply answers_sim; [|done]. destruct Habs as [Hu Hp]. split; simpl; [done|]. by rewrite Hp.
Qed.

Lemma wp_GetPolicy n Q :
  Q (match sim_policies a !! n with Some d => Ok d | None => Err ErrIAMNotFound end) s ->
  (forall m, Q (Err (ErrOther m)) s) ->
  wp server_env (admin_GetPolicy addr key gen n) Q s.
Proof.
  intros H1 H2. apply wp_mapped_value, wp_withClient; [|by intros ?; apply H2].
  apply wp_rpc; simpl; [|intros ? [m ->]; apply H2].
  destruct Habs as [_ Hp]. rewrite Hp in H1. by destruct (srv_policies s !! n).
Qed.
Lemma GetPolicy_ok n : implements (GetPolicy n).
Proof. cbn [swadminIAMAdmin]. apply wp_GetPolicy; [by eapply answers_sim; [done|]|other]. Qed.

Lemma DeletePolicy_ok n : implements (DeletePolicy n).
Proof.
  cbn [swadminIAMAdmin]. unfold admin_DeletePolicy. apply wp_bind, wp_GetPolicy; [|other].
  destruct (sim_policies a !! n) eqn:Hn.
  - client. apply wp_rpc; simpl; [|failed].
    eapply answers_sim; [|done]. destruct Habs as [Hu Hp]. split; simpl; [done|]. by rewrite Hp.
  - eapply answers_sim; [done|]. simpl. rewrite delete_id by done. by destruct a.
Qed.

Lemma AttachPolicy_ok n p : implements (AttachPolicy n p).
Proof.
  cbn [swadminIAMAdmin]. client. apply wp_get_user; simpl; [|notfound|other].
  intros id Hn. rewrite existsb_elem_of.
  pose proof (with_user_some n id) as Hw.
  case_bool_decide as Hp; simpl; [|eapply wp_update; [done| |other]].
  - eapply answers_sim; [done|]. simpl. rewrite (Hw _ Hn). simpl. rewrite bool_decide_true by done.
    rewrite set_users_id; [done|]. by rewrite sim_lookup, Hn.
  - eapply answers_sim; [by apply abstracts_insert|]. simpl. rewrite (Hw _ Hn). simpl.
    by rewrite bool_decide_false by done.
Qed.

Lemma DetachPolicy_ok n p : implements (DetachPolicy n p).
Proof.
  cbn [swadminIAMAdmin]. client. apply wp_get_user; simpl; [|notfound|other].
  intros id Hn. pose proof (with_user_some n id) as Hw.
  destruct (existsb _ _) eqn:He; simpl; [eapply wp_update; [done| |other]|].
  - eapply answers_sim; [by apply abstracts_insert|]. simpl. by rewrite (Hw _ Hn).
  - eapply answers_sim; [done|]. simpl. rewrite (Hw _ Hn), filter_absent by done.
    rewrite set_users_id; [done|]. by rewrite sim_lookup, Hn.
Qed.
End refinement.

(** C17. [swadminIAMAdmin] implements the [IAMAdmin] contract: over a service that
    answers its RPCs as documented, or fails, every call of the interface acts on
    the users and policies as [sim_iam] says (lookups of absent objects answer
    [ErrIAMNotFound], deletes are idempotent, the state, key and policy updates
    change only their own part of the identity), or returns another error and
    leaves the service as it was. *)
Theorem admin_refines {X} (addr key : string) (gen : string -> string) (e : iamE X) s s' a r :
  abstracts s a -> exec server_env (swadminIAMAdmin addr key gen e) s s' r ->
  exists a', abstracts s' a' /\ ((a', r) = sim_iam e a \/ a' = a /\ iam_fails e r).
Proof.
  intros Habs. revert s' r. change (forall s' r, exec server_env
    (swadminIAMAdmin addr key gen e) s s' r -> answers e a r s'). apply wp_exec.
  destruct e; auto using GetUser_ok, CreateUser_ok, SetUserState_ok, DeleteUser_ok,
    CreateAccessKey_ok, UpdateAccessKey_ok, DeleteAccessKey_ok, PutPolicy_ok, GetPolicy_ok,
    DeletePolicy_ok, AttachPolicy_ok, DetachPolicy_ok;
    simpl; (apply answers_fails; [done|]; repeat eexists).
Qed.

(** ** Bucket grants *)

(** The grants a comma-separated list asks for. *)
Definition requested (actions : string) : list string :=
  if negb (bool_decide (actions = "")) && negb (EqualFold actions "none")
  then List.filter (fun a => negb (bool_decide (a = ""))) (map TrimSpace (Split actions ","%char))
  else [].

Definition on_bucket (bucket : string) (a : string) : bool := HasSuffix a (":" +:+ bucket).

Lemma setBucketActions_actions id bucket actions :
  pb_Actions (setBucketActions id bucket actions) =
    List.filter (fun a => negb (on_bucket bucket a)) (pb_Actions id) ++
    map (fun a => a +:+ ":" +:+ bucket) (requested actions).
Proof.
  unfold setBucketActions, requested, on_bucket; simpl. f_equal.
  destruct (_ && _); [|done].
  induction (Split actions ","%char) as [|a l IH]; simpl; [done|].
  case_bool_decide; simpl; by rewrite IH.
Qed.

Lemma filter_filter_id {A} (f : A -> bool) l : List.filter f (List.filter f l) = List.filter f l.
Proof.
  induction l as [|x l IH]; simpl; [done|]. destruct (f x) eqn:Hf; simpl; [|done].
  by rewrite Hf, IH.
Qed.
Lemma filter_filter_neg {A} (f : A -> bool) l :
  List.filter f (List.filter (fun a => negb (f a)) l) = [].
Proof.
  induction l as [|x l IH]; simpl; [done|]. destruct (f x) eqn:Hf; simpl; [done|].
  by rewrite Hf, IH.
Qed.
Lemma filter_grants bucket l :
  List.filter (on_bucket bucket) (map (fun a => a +:+ ":" +:+ bucket) l) =
    map (fun a => a +:+ ":" +:+ bucket) l /\
  List.filter (fun a => negb (on_bucket bucket a)) (map (fun a => a +:+ ":" +:+ bucket) l) = [].
Proof.
  induction l as [|x l [IH1 IH2]]; cbn [map List.filter]; [done|].
  assert (on_bucket bucket (x +:+ ":" +:+ bucket) = true) as -> by apply HasSuffix_app.
  cbn [negb]. by rewrite IH1, IH2.
Qed.

(** The identity [id'] is [id] with the grants on [bucket] replaced. *)
Definition regranted (bucket actions : string) (id id' : pbIdentity) : Prop :=
  List.filter (on_bucket bucket) (pb_Actions id') =
    map (fun a => a +:+ ":" +:+ bucket) (requested actions) /\
  List.filter (fun a => negb (on_bucket bucket a)) (pb_Actions id') =
    List.filter (fun a => negb (on_bucket bucket a)) (pb_Actions id) /\
  pb_Name id' = pb_Name id /\ pb_Credentials id' = pb_Credentials id /\
  pb_Account id' = pb_Account id /\ pb_Disabled id' = pb_Disabled id /\
  pb_PolicyNames id' = pb_PolicyNames id /\ pb_Rest id' = pb_Rest id.

Lemma setBucketActions_regranted id bucket actions :
  regranted bucket actions id (setBucketActions id bucket actions).
Proof.
  unfold regranted. rewrite setBucketActions_actions, !List.filter_app.
  destruct (filter_grants bucket (requested actions)) as [-> ->].
  rewrite filter_filter_neg, filter_filter_id, app_nil_r. done.
Qed.

(** [SetBucketAccess] replaces a user's grants on one bucket: when it
    succeeds the user (created empty when it was absent) has exactly the requested
    grants on the bucket, in the order of the list, and its grants on other
    buckets, its keys, policies and account are as before; no other user and no
    policy changes.  When it fails nothing has changed. *)
Theorem SetBucketAccess_regrants (addr key : string) (gen : string -> string)
    (bucket user actions : string) s s' r :
  exec server_env (c_SetBucketAccess addr key gen bucket user actions) s s' r ->
  match r with
  | Some _ => s' = s
  | None =>
      exists id', regranted bucket actions (default (new_identity user) (srv_users s !! user)) id' /\
        srv_users s' = <[user := id']> (srv_users s) /\ srv_policies s' = srv_policies s
  end.
Proof.
  revert s' r. apply wp_exec. apply wp_lockUser, wp_withClient_; [|done].
  apply wp_get_user; cbn beta iota.
  - intros id Hu. eapply wp_update; [done| |done]. rewrite Hu.
    eexists. by split; [apply setBucketActions_regranted|].
  - intros Hu. apply wp_rpc; simpl; [|by intros ? [? ->]]. rewrite Hu. simpl.
    eexists. by split; [apply setBucketActions_regranted|].
  - done.
Qed.

(** *** Sample runs *)
Definition sample_identity : pbIdentity := {|
  pb_Name := "alice"; pb_Credentials := [{| pbc_AccessKey := "AK1"; pbc_SecretKey := "old";
                                            pbc_Status := "Active" |}];
  pb_Actions := ["Read:logs"; "Write:logs"; "Read:data"]; pb_Account := None;
  pb_Disabled := false; pb_PolicyNames := ["ro"]; pb_Rest := "" |}.
Definition sample_server : Server :=
  {| srv_users := {[ "alice" := sample_identity ]}; srv_policies := ∅ |}.
Definition sample_store : Sim :=
  set_users {[ "alice" := identityToUser sample_identity ]} sim_empty.
Definition run_client {A} (p : rpc A) (s : Server) : Server * A := run (fun X e s => server e s) p s.
Lemma run_client_exec {A} (p : rpc A) s a :
  (run_client p s).2 = a -> exec server_env p s (run_client p s).1 a.
Proof. apply run_exec_eq, server_refines. Qed.

Lemma admin_refines_witness :
  let p := swadminIAMAdmin "filer:18888" "" id (UpdateAccessKey "alice" "AK1" "new") in
  (user_Credentials <$> sim_users sample_store !! "alice") =
    Some [{| AccessKey := "AK1"; SecretKey := "old" |}] /\
  exists a', abstracts (run_client p sample_server).1 a' /\
    ((a', (run_client p sample_server).2) = sim_iam (UpdateAccessKey "alice" "AK1" "new") sample_store \/
     a' = sample_store /\ iam_fails (UpdateAccessKey "alice" "AK1" "new") (run_client p sample_server).2).
Proof.
  split; [by vm_compute|]. eapply admin_refines; [|by apply run_client_exec].
  split; [|done]. simpl. by rewrite map_fmap_singleton.
Defined.

Lemma SetBucketAccess_regrants_witness :
  let p := c_SetBucketAccess "filer:18888" "" id "logs" "alice" "Read, List" in
  (run_client p sample_server).2 = None /\
  (pb_Actions <$> srv_users (run_client p sample_server).1 !! "alice") =
    Some ["Read:data"; "Read:logs"; "List:logs"] /\
  exists id', regranted "logs" "Read, List" sample_identity id' /\
    srv_users (run_client p sample_server).1 = <["alice" := id']> (srv_users sample_server) /\
    srv_policies (run_client p sample_server).1 = ∅.
Proof.
  split; [by vm_compute|]. split; [by vm_compute|].
  apply (SetBucketAccess_regrants "filer:18888" "" id "logs" "alice" "Read, List"
           sample_server _ None).
  apply run_client_exec. by vm_compute.
Defined.
