(* ===== verification/IamLocks.v ===== *)
(** * Concurrent updates of IAM identities (internal/controller/swadmin/iam_client.go)

    The reconcilers run concurrently and update identities by reading and
    writing them back whole; [keyedMutex] keeps two updates of one user from
    overlapping.  Here threads run client operations interleaved call by call
    over one service and one [keyedMutex], and every run is shown to give each
    user a state that the operations on it reach one after the other. *)
From Stdlib Require Import Ascii.
From S2P Require Import Prelude Prog CoreTypes ApiTypes Effects IamClient.

(** ** The mutexes

    A [sync.Mutex] is the number it was allocated under; [getMutex] is what
    [lock] does while it holds [k.mu]. *)
Record keyedMutex := { locks : gmap string nat }.

Definition getMutex (k : keyedMutex) (key : string) : keyedMutex * nat :=
  match locks k !! key with
  | Some m => (k, m)
  | None => let m := size (locks k) in ({| locks := <[key := m]> (locks k) |}, m)
  end.

Definition km_wf (k : keyedMutex) : Prop :=
  (forall key m, locks k !! key = Some m -> m < size (locks k)) /\
  (forall key key' m, locks k !! key = Some m -> locks k !! key' = Some m -> key = key').

Lemma getMutex_spec k key :
  km_wf k ->
  km_wf (getMutex k key).1 /\ locks (getMutex k key).1 !! key = Some (getMutex k key).2 /\
  (forall key', key' <> key -> locks (getMutex k key).1 !! key' = locks k !! key') /\
  (forall m, locks k !! key = Some m -> (getMutex k key).2 = m) /\
  (locks k !! key = None -> forall key', locks k !! key' <> Some (getMutex k key).2).
Proof.
  intros [Hlt Hinj]. unfold getMutex. destruct (locks k !! key) as [m|] eqn:Hk; simpl.
  - repeat split; try done. by intros m' [= ->].
  - assert (Hfresh : forall key', locks k !! key' <> Some (size (locks k))).
    { intros key' H. apply Hlt in H. lia. }
    repeat split; try done.
    + simpl. intros key' m. rewrite map_size_insert_None by done.
      destruct (decide (key' = key)) as [->|Hne].
      * simpl. rewrite lookup_insert_eq. intros [= <-]. lia.
      * simpl. rewrite lookup_insert_ne by done. intros H%Hlt. lia.
    + intros k1 k2 m. simpl. rewrite !lookup_insert_Some.
      intros [[<- <-]|[Hn1 H1]] [[<- ?]|[Hn2 H2]]; try done; [by destruct (Hfresh k2)| |eauto].
      subst. by destruct (Hfresh k1).
    + by rewrite lookup_insert_eq.
    + intros key' Hne. by rewrite lookup_insert_ne.
Qed.

(** ** Threads

    A thread runs its program, or has looked up a mutex and waits for it. *)
Section threads.
Context {R : Type}.

Inductive thread :=
| Running (p : rpc R)
| Waiting (m : nat) (p : rpc R).

Record Shared := {
  sh_km : keyedMutex;
  sh_held : gset nat;
  sh_srv : Server;
}.
Definition set_held (h : gset nat) (w : Shared) : Shared :=
  {| sh_km := sh_km w; sh_held := h; sh_srv := sh_srv w |}.

(** A call of a running thread.  Unlocking a mutex that is not held is a fatal
    error of the Go runtime: no step. *)
Definition call_step {X} (e : rpcE X) (k : X -> rpc R) (w : Shared) (t' : thread) (w' : Shared)
    : Prop :=
  match e in rpcE X return (X -> rpc R) -> Prop with
  | Lock key => fun k =>
      t' = Waiting (getMutex (sh_km w) key).2 (k (getMutex (sh_km w) key).2) /\
      w' = {| sh_km := (getMutex (sh_km w) key).1; sh_held := sh_held w; sh_srv := sh_srv w |}
  | Unlock m => fun k =>
      m ∈ sh_held w /\ t' = Running (k tt) /\ w' = set_held (sh_held w ∖ {[m]}) w
  | e => fun k => exists x srv', server_env _ e (sh_srv w) x srv' /\ t' = Running (k x) /\
      w' = {| sh_km := sh_km w; sh_held := sh_held w; sh_srv := srv' |}
  end k.

Definition thread_step (t : thread) (w : Shared) (t' : thread) (w' : Shared) : Prop :=
  match t with
  | Running (Ret _) => False
  | Running (Vis e k) => call_step e k w t' w'
  | Waiting m p => m ∉ sh_held w /\ t' = Running p /\ w' = set_held (sh_held w ∪ {[m]}) w
  end.

(** One step of one thread of the pool. *)
Inductive step : list thread * Shared -> list thread * Shared -> Prop :=
| step_thread ts w i t t' w' :
    ts !! i = Some t -> thread_step t w t' w' -> step (ts, w) (<[i := t']> ts, w').

Definition result_of (t : thread) : option R :=
  match t with Running (Ret r) => Some r | _ => None end.
End threads.
Arguments thread : clear implicits.

(** ** Operations on one user *)
Definition local_call (u : string) {X} (e : rpcE X) : Prop :=
  match e with
  | Connect _ _ => True
  | RGetUser n | RUpdateUser n _ | RDeleteUser n | RCreateAccessKey n _
  | RDeleteAccessKey n _ => n = u
  | RCreateUser id => pb_Name id = u
  | Lock _ | Unlock _ | RPutPolicy _ _ | RGetPolicy _ | RDeletePolicy _ => False
  end.

Fixpoint local {A} (u : string) (p : rpc A) : Prop :=
  match p with
  | Ret _ => True
  | Vis e k => local_call u e /\ forall x, local u (k x)
  end.

Definition same (u : string) (s s' : Server) : Prop := srv_users s !! u = srv_users s' !! u.

(** Such a call answers from the user's identity alone, and changes no other. *)
Lemma local_call_sim {X} u (e : rpcE X) s1 s x s' :
  local_call u e -> same u s1 s -> server_env X e s x s' ->
  exists s1', server_env X e s1 x s1' /\ same u s1' s'.
Proof.
  intros Hl Hs [He|[-> Hf]]; [|by exists s1; split; [right|]].
  exists (server e s1).1. unfold server_env, same in *.
  destruct e; simpl in *; try done; subst; unfold on_user in *; rewrite ?Hs;
    try (destruct (srv_users s !! _) eqn:Hu); simplify_eq/=; (split; [by left|]);
    rewrite ?lookup_insert_eq, ?lookup_delete_eq; congruence.
Qed.

Lemma local_call_frame {X} u v (e : rpcE X) s x s' :
  local_call u e -> u <> v -> server_env X e s x s' -> same v s s'.
Proof.
  intros Hl Hne [He|[-> Hf]]; [|done].
  unfold same. destruct e; simpl in *; try done; subst; unfold on_user in *;
    repeat case_match; simplify_eq/=; try done;
    by rewrite ?lookup_insert_ne, ?lookup_delete_ne.
Qed.

Lemma local_call_step {R X} u (e : rpcE X) (k : X -> rpc R) w t' w' :
  local_call u e -> call_step e k w t' w' ->
  exists x srv', server_env _ e (sh_srv w) x srv' /\ t' = Running (k x) /\
    w' = {| sh_km := sh_km w; sh_held := sh_held w; sh_srv := srv' |}.
Proof. by destruct e. Qed.

(** ** Serialization *)
(** Programs one after the other. *)
Fixpoint sequence {A} (ps : list (rpc A)) : rpc (list A) :=
  match ps with
  | [] => Ret []
  | p :: ps' => do r <- p; do rs <- sequence ps'; Ret (r :: rs)
  end.

Lemma exec_sequence_snoc {A} (ps : list (rpc A)) (p : rpc A) s s1 s2 rs r :
  exec server_env (sequence ps) s s1 rs -> exec server_env p s1 s2 r ->
  exec server_env (sequence (ps ++ [p])) s s2 (rs ++ [r]).
Proof.
  revert s rs. induction ps as [|q ps IH]; intros s rs; simpl.
  - intros [-> ->] Hp. apply exec_bind. by exists r, s2.
  - rewrite exec_bind. intros (a & s3 & Hq & (l & s4 & Hl & [-> ->])%exec_bind) Hp.
    apply exec_bind. exists a, s3. split; [done|].
    apply exec_bind. exists (l ++ [r]), s2. split; [by apply IH|done].
Qed.

Lemma all_finished {R} (ts : list (thread R)) (Q : Prop) :
  (forall i t, ts !! i = Some t -> (exists r, t = Running (Ret r)) \/ Q) ->
  (exists rs, ts = fmap (fun r => Running (Ret r)) rs) \/ Q.
Proof.
  induction ts as [|t ts IH]; intros H; [left; by exists []|].
  destruct (H 0 t eq_refl) as [[r ->]|]; [|by right].
  destruct IH as [[rs ->]|]; [|left; by exists (r :: rs)|by right].
  intros i t' Ht. by apply (H (S i)).
Qed.

Section serialization.
Context {R : Type} (addr : string) (ops : list (string * rpc R)) (s0 : Server).

(** What follows once the mutex is taken. *)
Definition critical (m : nat) (p : rpc R) : rpc R := do r <- p; do _ <- call (Unlock m); Ret r.

Definition start : list (thread R) := (fun o => Running (lockUser addr o.1 o.2)) <$> ops.
Definition start_shared : Shared :=
  {| sh_km := {| locks := ∅ |}; sh_held := ∅; sh_srv := s0 |}.

Definition bodies (ord : list nat) : list (rpc R) := omap (fun i => snd <$> ops !! i) ord.
Definition results (ts : list (thread R)) (ord : list nat) : list R :=
  omap (fun i => t ← ts !! i; result_of t) ord.

Definition mutex_of (w : Shared) (u : string) : option nat := locks (sh_km w) !! userKey addr u.

(** A thread that has not entered its critical section. *)
Inductive pending (w : Shared) (u : string) (b : rpc R) : thread R -> Prop :=
| pending_fresh : pending w u b (Running (lockUser addr u b))
| pending_waiting m : mutex_of w u = Some m -> pending w u b (Waiting m (critical m b)).

(** The threads on [u] that are done, in order, explain its identity. *)
Record idle (u : string) (ts : list (thread R)) (w : Shared) (ord : list nat) : Prop := {
  idle_free m : mutex_of w u = Some m -> m ∉ sh_held w;
  idle_exec : exists s1, exec server_env (sequence (bodies ord)) s0 s1 (results ts ord) /\
                same u s1 (sh_srv w);
}.
(** The same with thread [i] in its critical section, [p] left to run. *)
Record busy (u : string) (ts : list (thread R)) (w : Shared) (ord : list nat) (i m : nat)
    (p b : rpc R) (s1 : Server) : Prop := {
  busy_op : ops !! i = Some (u, b);
  busy_new : i ∉ ord;
  busy_thread : ts !! i = Some (Running (critical m p));
  busy_mutex : mutex_of w u = Some m;
  busy_held : m ∈ sh_held w;
  busy_local : local u p;
  busy_same : same u s1 (sh_srv w);
  busy_exec s2 r : exec server_env p s1 s2 r ->
    exec server_env (sequence (bodies (ord ++ [i]))) s0 s2 (results ts ord ++ [r]);
}.

Record user_inv (u : string) (ts : list (thread R)) (w : Shared) (ord : list nat)
    (cur : option nat) : Prop := {
  inv_done i : i ∈ ord ->
    exists b r, ops !! i = Some (u, b) /\ ts !! i = Some (Running (Ret r));
  inv_nodup : NoDup ord;
  inv_all i b : ops !! i = Some (u, b) ->
    i ∈ ord \/ cur = Some i \/ exists t, ts !! i = Some t /\ pending w u b t;
  inv_cur : match cur with
            | None => idle u ts w ord
            | Some i => exists m p b s1, busy u ts w ord i m p b s1
            end;
}.

Record pool_inv (st : list (thread R) * Shared) : Prop := {
  pool_wf : km_wf (sh_km st.2);
  pool_len : length st.1 = length ops;
  pool_held m : m ∈ sh_held st.2 -> exists u, mutex_of st.2 u = Some m;
  pool_users u m : mutex_of st.2 u = Some m -> exists b, (u, b) ∈ ops;
  pool_user u : exists ord cur, user_inv u st.1 st.2 ord cur;
}.

Lemma userKey_inj u v : userKey addr u = userKey addr v -> u = v.
Proof.
  unfold userKey. induction addr as [|c a IH].
  - by intros [= ->].
  - intros H. apply IH. by injection H.
Qed.

Lemma results_insert ts i t ord : i ∉ ord -> results (<[i := t]> ts) ord = results ts ord.
Proof.
  intros Hi. apply list_omap_ext. induction ord as [|j ord IH]; constructor;
    apply not_elem_of_cons in Hi as [Hij Hi]; [|by apply IH].
  by rewrite list_lookup_insert_ne.
Qed.

Lemma bodies_app l l' : bodies (l ++ l') = bodies l ++ bodies l'.
Proof. apply omap_app. Qed.
Lemma results_app ts l l' : results ts (l ++ l') = results ts l ++ results ts l'.
Proof. apply omap_app. Qed.

(** A step of a thread on another user. *)
Lemma user_inv_other u ts w ord cur i t w' :
  (forall b, ops !! i <> Some (u, b)) ->
  mutex_of w' u = mutex_of w u ->
  (forall m, mutex_of w u = Some m -> m ∈ sh_held w' <-> m ∈ sh_held w) ->
  same u (sh_srv w) (sh_srv w') ->
  user_inv u ts w ord cur -> user_inv u (<[i := t]> ts) w' ord cur.
Proof.
  intros Hi Hm Hh Hs [Hdone Hnd Hall Hcur].
  assert (Hne : forall j b, ops !! j = Some (u, b) -> i <> j) by (intros j b Hj ->; by eapply Hi).
  assert (Hord : i ∉ ord) by (intros (b & r & Hb & _)%Hdone; by eapply Hi).
  split; [| done| |].
  - intros j (b & r & Hb & Ht)%Hdone. exists b, r. split; [done|].
    rewrite list_lookup_insert_ne; eauto.
  - intros j b Hj. destruct (Hall j b Hj) as [|[|(t' & Ht & Hp)]]; [tauto|tauto|].
    do 2 right. exists t'. rewrite list_lookup_insert_ne by eauto. split; [done|].
    destruct Hp; [constructor|]. constructor. by rewrite Hm.
  - destruct cur as [j|].
    + destruct Hcur as (m & p & b & s1 & []). exists m, p, b, s1.
      split; try done.
      * rewrite list_lookup_insert_ne; eauto.
      * by rewrite Hm.
      * by apply Hh.
      * by etrans.
      * rewrite results_insert by done. done.
    + destruct Hcur as [Hf (s1 & He & Hs1)]. split.
      * intros m Hm'. rewrite Hm in Hm'. rewrite Hh by done. auto.
      * exists s1. rewrite results_insert by done. split; [done|]. by etrans.
Qed.

(** *** Steps of a thread on the user itself *)
Lemma pending_mono w w' u b t :
  (forall m, mutex_of w u = Some m -> mutex_of w' u = Some m) ->
  pending w u b t -> pending w' u b t.
Proof. intros Hm []; constructor. auto. Qed.

Lemma inv_all_insert u (ts : list (thread R)) w w' (ord ord' : list nat) (cur cur' : option nat) i b t' :
  i < length ts -> ops !! i = Some (u, b) ->
  (forall m, mutex_of w u = Some m -> mutex_of w' u = Some m) ->
  (forall j b, ops !! j = Some (u, b) ->
     j ∈ ord \/ cur = Some j \/ exists t, ts !! j = Some t /\ pending w u b t) ->
  (forall j, j <> i -> j ∈ ord -> j ∈ ord') -> (forall j, j <> i -> cur = Some j -> cur' = Some j) ->
  i ∈ ord' \/ cur' = Some i \/ pending w' u b t' ->
  forall j b, ops !! j = Some (u, b) ->
    j ∈ ord' \/ cur' = Some j \/ exists t, <[i := t']> ts !! j = Some t /\ pending w' u b t.
Proof.
  intros Hlt Hi Hm Hall Hord Hcur Hnew j b' Hj. destruct (decide (j = i)) as [->|Hne].
  - rewrite Hi in Hj. simplify_eq. destruct Hnew as [|[|Hp]]; [tauto|tauto|].
    do 2 right. exists t'. by rewrite list_lookup_insert_eq.
  - destruct (Hall j b' Hj) as [|[|(t & Ht & Hp)]]; [eauto|eauto|].
    do 2 right. exists t. rewrite list_lookup_insert_ne by done.
    eauto using pending_mono.
Qed.

Lemma inv_done_insert u (ts : list (thread R)) (ord : list nat) i t :
  i ∉ ord ->
  (forall j, j ∈ ord -> exists b r, ops !! j = Some (u, b) /\ ts !! j = Some (Running (Ret r))) ->
  forall j, j ∈ ord ->
    exists b r, ops !! j = Some (u, b) /\ <[i := t]> ts !! j = Some (@Running R (Ret r)).
Proof.
  intros Hi Hdone j Hj. destruct (Hdone j Hj) as (b & r & Hb & Ht). exists b, r.
  split; [done|]. rewrite list_lookup_insert_ne; [done|]. by intros ->.
Qed.

(** The mutex is looked up. *)
Lemma own_lookup u ts w w' ord cur i b m :
  i < length ts -> ops !! i = Some (u, b) -> i ∉ ord -> cur <> Some i ->
  mutex_of w' u = Some m -> (forall m', mutex_of w u = Some m' -> m' = m) ->
  (mutex_of w u = None -> m ∉ sh_held w) ->
  sh_held w' = sh_held w -> sh_srv w' = sh_srv w ->
  user_inv u ts w ord cur -> user_inv u (<[i := Waiting m (critical m b)]> ts) w' ord cur.
Proof.
  intros Hlt Hi Hord Hc Hm' Hm Hnone Hh Hs [Hdone Hnd Hall Hcur].
  assert (Hmono : forall m', mutex_of w u = Some m' -> mutex_of w' u = Some m').
  { by intros m' ->%Hm. }
  split; [by apply inv_done_insert|done| |].
  - eapply (inv_all_insert u ts w w' ord ord cur cur); eauto. do 2 right. by constructor.
  - destruct cur as [j|].
    + destruct Hcur as (m2 & p & b2 & s1 & []). exists m2, p, b2, s1.
      split; rewrite ?Hh, ?Hs; auto.
      * rewrite list_lookup_insert_ne by congruence. done.
      * by rewrite results_insert.
    + destruct Hcur as [Hf (s1 & He & Hs1)]. split.
      * intros m2 Hm2. rewrite Hh. assert (m2 = m) as -> by congruence.
        destruct (mutex_of w u) eqn:Hw; [|by apply Hnone]. rewrite <-(Hm n) by done. by apply Hf.
      * exists s1. rewrite results_insert, Hs by done. done.
Qed.

(** The mutex is taken. *)
Lemma own_acquire u ts w ord cur i b m :
  i < length ts -> ops !! i = Some (u, b) -> i ∉ ord -> cur <> Some i ->
  mutex_of w u = Some m -> m ∉ sh_held w -> local u b ->
  user_inv u ts w ord cur ->
  user_inv u (<[i := Running (critical m b)]> ts) (set_held (sh_held w ∪ {[m]}) w) ord (Some i).
Proof.
  intros Hlt Hi Hord Hc Hm Hh Hl [Hdone Hnd Hall Hcur].
  destruct cur as [j|].
  { destruct Hcur as (m2 & p & b2 & s1 & []). congruence. }
  destruct Hcur as [Hf (s1 & He & Hs1)].
  split; [by apply inv_done_insert|done| |].
  - eapply (inv_all_insert u ts w _ ord ord None (Some i)); eauto. by intros ??.
  - exists m, b, b, s1. split; simpl; try done.
    + by rewrite list_lookup_insert_eq.
    + set_solver.
    + intros s2 r Hr. rewrite results_insert by done. rewrite bodies_app.
      assert (bodies [i] = [b]) as -> by (unfold bodies; simpl; by rewrite Hi).
      by eapply exec_sequence_snoc.
Qed.

(** The operation makes a call. *)
Lemma own_call u ts w ord i t t' w' :
  i < length ts -> user_inv u ts w ord (Some i) -> ts !! i = Some t -> thread_step t w t' w' ->
  (exists m, mutex_of w u = Some m /\ w' = set_held (sh_held w ∖ {[m]}) w /\
     user_inv u (<[i := t']> ts) w' (ord ++ [i]) None) \/
  (exists X (e : rpcE X) x srv', local_call u e /\ server_env X e (sh_srv w) x srv' /\
     w' = {| sh_km := sh_km w; sh_held := sh_held w; sh_srv := srv' |} /\
     user_inv u (<[i := t']> ts) w' ord (Some i)).
Proof.
  intros Hlt [Hdone Hnd Hall Hcur] Ht Hstep.
  destruct Hcur as (m & p & b & s1 & [Hop Hnew Hthr Hm Hheld Hloc Hsame Hex]).
  rewrite Hthr in Ht. injection Ht as <-. destruct p as [r|X e k].
  - left. destruct Hstep as (_ & -> & ->). exists m. repeat (split; [done|]).
    split.
    + intros j [Hj| ->%list_elem_of_singleton]%elem_of_app.
      * by apply (inv_done_insert u ts ord i _ Hnew Hdone).
      * exists b, r. by rewrite list_lookup_insert_eq.
    + apply NoDup_app. split; [done|]. split; [|apply NoDup_singleton]. set_solver.
    + eapply (inv_all_insert u ts w _ ord (ord ++ [i]) (Some i) None); eauto;
        [set_solver|by intros j ? [= ->]|left; set_solver].
    + split; [intros m2 Hm2; simpl; assert (m2 = m) as -> by (unfold mutex_of in *; simpl in *; congruence); set_solver|].
      exists s1. split; [|done]. rewrite results_app. rewrite results_insert by done.
      cbn [bind]. assert (results (<[i := Running (Ret r)]> ts) [i] = [r]) as ->
        by (unfold results; simpl; by rewrite list_lookup_insert_eq).
      by apply Hex.
  - right. destruct Hloc as [Hcall Hk].
    apply (local_call_step u) in Hstep as (x & srv' & He & -> & ->); [|done].
    exists X, e, x, srv'. repeat (split; [done|]).
    destruct (local_call_sim u e s1 (sh_srv w) x srv' Hcall Hsame He) as (s1' & He' & Hs').
    split; [by apply inv_done_insert|done| |].
    + eapply (inv_all_insert u ts w _ ord ord (Some i) (Some i)); eauto.
    + exists m, (k x), b, s1'. split; try done.
      * by rewrite list_lookup_insert_eq.
      * intros s2 r Hr. rewrite results_insert by done. apply Hex. simpl. eauto.
Qed.

(** *** Steps of the pool *)
#[local] Set Default Proof Using "Type*".
Hypothesis ops_local : Forall (fun o => local o.1 o.2) ops.

Lemma pool_inv_start : pool_inv (start, start_shared).
Proof.
  split; simpl.
  - split; simpl; intros *; by rewrite lookup_empty.
  - unfold start. by rewrite length_fmap.
  - set_solver.
  - intros u m. unfold mutex_of; simpl. by rewrite lookup_empty.
  - intros u. exists [], None. split.
    + set_solver.
    + constructor.
    + intros i b Hi. do 2 right. exists (Running (lockUser addr u b)). split; [|constructor].
      unfold start. by rewrite list_lookup_fmap, Hi.
    + split; simpl; [set_solver|]. by exists s0.
Qed.

(** The mutex of a user is nobody else's. *)
Lemma mutex_of_inj w u v m : km_wf (sh_km w) -> mutex_of w u = Some m -> mutex_of w v = Some m -> u = v.
Proof. intros [_ Hinj] Hu Hv. eapply userKey_inj, Hinj; eauto. Qed.

(** The threads on the other users do not see a step. *)
Lemma pool_inv_frame ts w i t' w' u b :
  pool_inv (ts, w) -> ops !! i = Some (u, b) ->
  km_wf (sh_km w') ->
  (forall m, m ∈ sh_held w' -> exists u, mutex_of w' u = Some m) ->
  (forall v, v <> u -> mutex_of w' v = mutex_of w v /\ same v (sh_srv w) (sh_srv w') /\
     forall m, mutex_of w v = Some m -> m ∈ sh_held w' <-> m ∈ sh_held w) ->
  (exists ord cur, user_inv u (<[i := t']> ts) w' ord cur) ->
  pool_inv (<[i := t']> ts, w').
Proof.
  intros [Hwf Hlen Hheld Husers Huser] Hi Hwf' Hheld' Hframe Hu. simpl in *. split; simpl; try done.
  - by rewrite length_insert.
  - intros v m Hm. destruct (decide (v = u)) as [->|Hne].
    + exists b. by eapply list_elem_of_lookup_2.
    + destruct (Hframe v Hne) as (Heq & _). rewrite Heq in Hm. by eapply Husers.
  - intros v. destruct (decide (v = u)) as [->|Hne]; [done|].
    destruct (Hframe v Hne) as (Heq & Hs & Hh). destruct (Huser v) as (ord & cur & Hv).
    exists ord, cur. eapply user_inv_other; eauto. congruence.
Qed.

Lemma pool_inv_step st st' : step st st' -> pool_inv st -> pool_inv st'.
Proof.
  intros Hstep Hinv. destruct Hstep as [ts w i t t' w' Ht Hth].
  pose proof Hinv as [Hwf Hlen Hheld Husers Huser]. simpl in *.
  assert (Hlt : i < length ts) by by eapply lookup_lt_Some.
  destruct (lookup_lt_is_Some_2 ops i) as [[u b] Hi]; [lia|].
  assert (Hloc : local u b) by exact (Forall_lookup_1 _ _ _ _ ops_local Hi).
  destruct (Huser u) as (ord & cur & Hu).
  assert (Hother : forall m v, mutex_of w u = Some m -> v <> u -> mutex_of w v <> Some m).
  { intros m v Hm Hne Hv. by eapply Hne, mutex_of_inj. }
  destruct (decide (cur = Some i)) as [->|Hc].
  { eapply own_call in Hth as [(m & Hm & -> & Hu')|(X & e & x & srv' & Hl & He & -> & Hu')]; [..|done|done|done].
    - eapply pool_inv_frame; eauto; simpl.
      + set_solver.
      + intros v Hne. split; [done|]. split; [done|]. intros m' Hm'.
        specialize (Hother m v Hm Hne). set_solver.
    - eapply pool_inv_frame; eauto; simpl. intros v Hne. split; [done|]. split; [|done].
      by eapply local_call_frame. }
  destruct (inv_all _ _ _ _ _ Hu i b Hi) as [Hin|[->|(t0 & Ht0 & Hp)]]; [|done|].
  { apply Hu in Hin as (b' & r & _ & Hr). rewrite Ht in Hr. by simplify_eq. }
  assert (Hord : i ∉ ord).
  { intros (b' & r & _ & Hr)%Hu. rewrite Ht0 in Hr. by simplify_eq. }
  rewrite Ht in Ht0. simplify_eq. destruct Hp as [|m Hm].
  - destruct Hth as [-> ->].
    destruct (getMutex_spec (sh_km w) (userKey addr u) Hwf) as (Hwf' & Hnew & Hkeep & Hsame & Hfresh).
    eapply pool_inv_frame; eauto; simpl.
    + intros m (v & Hv)%Hheld. exists v. unfold mutex_of in *; simpl.
      destruct (decide (userKey addr v = userKey addr u)) as [Heq|Hne]; [|by rewrite Hkeep].
      rewrite Heq in Hv |- *. rewrite Hnew. f_equal. by apply Hsame.
    + intros v Hne. split; [|done]. apply Hkeep. by intros ?%userKey_inj.
    + exists ord, cur. eapply (own_lookup u ts w); eauto.
      * intros m' Hm'. symmetry. by apply Hsame.
      * intros Hnone [v Hv]%Hheld. by eapply Hfresh.
  - destruct Hth as (Hfree & -> & ->). eapply pool_inv_frame; eauto; simpl.
    + intros m' [Hm'| ->%elem_of_singleton]%elem_of_union; eauto.
    + intros v Hne. split; [done|]. split; [done|]. intros m' Hm'.
      specialize (Hother m v Hm Hne). set_solver.
    + exists ord, (Some i). by eapply own_acquire.
Qed.

Lemma pool_inv_steps ts w : rtc step (start, start_shared) (ts, w) -> pool_inv (ts, w).
Proof.
  intros Hs. assert (forall st st', rtc step st st' -> pool_inv st -> pool_inv st') as Hp.
  { induction 1; eauto using pool_inv_step. }
  eapply Hp; [exact Hs|apply pool_inv_start].
Qed.

(** The operations on [u]. *)
Definition on (u : string) : list nat :=
  filter (fun i => fst <$> ops !! i = Some u) (seq 0 (length ops)).
Lemma elem_of_on u i : i ∈ on u <-> exists b, ops !! i = Some (u, b).
Proof.
  unfold on. rewrite list_elem_of_filter, elem_of_seq, fmap_Some. split.
  - intros [([u' b] & -> & ->) _]. eauto.
  - intros [b Hb]. split; [by exists (u, b)|]. apply lookup_lt_Some in Hb. lia.
Qed.

(** A finished pool: each user's identity is what its operations, run one after
    the other in some order, with the results they had, make of it. *)
Lemma finished_serial rs w u :
  rtc step (start, start_shared) (fmap (fun r => Running (Ret r)) rs, w) ->
  exists ord s1, ord ≡ₚ on u /\
    exec server_env (sequence (bodies ord)) s0 s1 (omap (fun i => rs !! i) ord) /\
    same u s1 (sh_srv w).
Proof.
  intros Hs%pool_inv_steps. destruct (pool_user _ Hs u) as (ord & cur & [Hdone Hnd Hall Hcur]).
  pose proof (pool_len _ Hs) as Hlen. simpl in *.
  assert (Hfin : forall i t, fmap (fun r => Running (Ret r)) rs !! i = Some t ->
    exists r, t = @Running R (Ret r)).
  { intros i t. rewrite list_lookup_fmap, fmap_Some. intros (r & _ & ->). by exists r. }
  destruct cur as [i|].
  { destruct Hcur as (m & p & b & s1 & []). apply Hfin in busy_thread0 as [r Hr].
    destruct p; by simplify_eq. }
  destruct Hcur as [_ (s1 & He & Hs1)]. exists ord, s1. split; [|split; [|done]].
  - apply NoDup_Permutation; [done|apply NoDup_filter, NoDup_seq|].
    intros i. rewrite elem_of_on. split.
    + intros (b & r & Hb & _)%Hdone. by exists b.
    + intros [b Hb]. destruct (Hall i b Hb) as [|[|(t & Ht & Hp)]]; [done|done|].
      apply Hfin in Ht as [r ->]. inversion Hp.
  - assert (results (fmap (fun r => Running (Ret r)) rs) ord = omap (fun i => rs !! i) ord) as <-;
      [|done].
    apply list_omap_ext, Forall_Forall2_diag, Forall_true. intros i. rewrite list_lookup_fmap. by destruct (rs !! i).
Qed.

(** Somebody can always go on. *)
Lemma can_step_call {X} (e : rpcE X) (k : X -> rpc R) u w :
  local_call u e -> exists t' w', call_step e k w t' w'.
Proof.
  intros Hl. assert (exists x srv', server_env _ e (sh_srv w) x srv') as (x & srv' & He).
  { exists (server e (sh_srv w)).2, (server e (sh_srv w)).1. left. by destruct (server _ _). }
  destruct e; try done; simpl; eauto 10.
Qed.

Lemma pool_progress ts w :
  rtc step (start, start_shared) (ts, w) ->
  (exists rs, ts = fmap (fun r => Running (Ret r)) rs) \/ exists st', step (ts, w) st'.
Proof.
  intros Hs%pool_inv_steps.
  assert (Hbusy : forall u i ord, user_inv u ts w ord (Some i) -> exists st', step (ts, w) st').
  { intros u i ord [_ _ _ (m & p & b & s1 & [])].
    assert (exists t' w', thread_step (Running (critical m p)) w t' w') as (t' & w' & Ht').
    { destruct p as [r|X e k]; simpl; [eauto|]. destruct busy_local0 as [Hl _].
      by eapply can_step_call. }
    eexists. by econstructor. }
  assert (Hone : forall i t, ts !! i = Some t ->
    (exists r, t = Running (Ret r)) \/ exists st', step (ts, w) st').
  { intros i t Ht. pose proof (pool_len _ Hs) as Hlen. simpl in Hlen.
    destruct (lookup_lt_is_Some_2 ops i) as [[u b] Hi].
    { apply lookup_lt_Some in Ht. lia. }
    destruct (pool_user _ Hs u) as (ord & cur & Hu). simpl in Hu.
    destruct cur as [j|]; [right; by eapply Hbusy|].
    destruct (inv_all _ _ _ _ _ Hu i b Hi) as [Hin|[?|(t0 & Ht0 & Hp)]]; [|done|].
    - apply Hu in Hin as (b' & r & _ & Hr). left. exists r. congruence.
    - right. rewrite Ht in Ht0. simplify_eq. destruct (inv_cur _ _ _ _ _ Hu) as [Hfree _].
      destruct Hp as [|m Hm]; (eexists; econstructor; [done|]).
      + by simpl.
      + split; [by apply Hfree|done]. }
  by apply all_finished.
Qed.
End serialization.

(** ** The updates of the client *)
Inductive update :=
| USetUserState (user displayName email : string) (disabled : bool)
| UCreateAccessKey (user accessKey secretKey : string)
| UUpdateAccessKey (user accessKey secretKey : string)
| UDeleteAccessKey (user accessKey : string)
| UAttachPolicy (user policy : string)
| UDetachPolicy (user policy : string)
| USetBucketAccess (bucket user actions : string).

Section updates.
Context (addr key : string) (gen : string -> string).

Definition update_user (o : update) : string :=
  match o with
  | USetUserState u _ _ _ | UCreateAccessKey u _ _ | UUpdateAccessKey u _ _
  | UDeleteAccessKey u _ | UAttachPolicy u _ | UDetachPolicy u _ | USetBucketAccess _ u _ => u
  end.
Definition update_prog (o : update) : rpc (option rpc_error) :=
  match o with
  | USetUserState u d m b => c_SetUserState addr key gen u d m b
  | UCreateAccessKey u ak sk => c_CreateAccessKey addr key gen u ak sk
  | UUpdateAccessKey u ak sk => c_UpdateAccessKey addr key gen u ak sk
  | UDeleteAccessKey u ak => c_DeleteAccessKey addr key gen u ak
  | UAttachPolicy u p => c_AttachPolicy addr key gen u p
  | UDetachPolicy u p => c_DetachPolicy addr key gen u p
  | USetBucketAccess b u a => c_SetBucketAccess addr key gen b u a
  end.

(** An update is its unlocked body between [lockUser] and its release. *)
Definition splits (u : string) (p : rpc (option rpc_error)) : Prop :=
  exists body, p = lockUser addr u body /\ local u body.

Lemma local_withClient u fn : local u fn -> local u (withClient_ addr key gen fn).
Proof. intros Hfn. split; [done|]. by intros [e|]. Qed.

Lemma update_splits o : splits (update_user o) (update_prog o).
Proof.
  destruct o; (eexists; split; [reflexivity|]); apply local_withClient; simpl;
    repeat first [done | intros ? | case_match | split].
Qed.

(** The operations behind a list of updates. *)
Definition split_into (o : update) (op : string * rpc (option rpc_error)) : Prop :=
  op.1 = update_user o /\ update_prog o = lockUser addr op.1 op.2 /\ local op.1 op.2.
Lemma updates_split ups : exists ops, Forall2 split_into ups ops.
Proof.
  induction ups as [|o ups [ops IH]]; [by exists []|].
  destruct (update_splits o) as (b & Hp & Hl). exists ((update_user o, b) :: ops).
  by constructor.
Qed.

Lemma exec_lockUser {A} u (b : rpc A) s s' r :
  exec server_env b s s' r -> exec server_env (lockUser addr u b) s s' r.
Proof.
  intros Hb. exists 0, s. split; [by left|]. apply (exec_bind server_env b). exists r, s'. split; [done|].
  exists tt, s'. split; [by left|done].
Qed.

Lemma exec_sequence_mono {A} (ps qs : list (rpc A)) s s' rs :
  Forall2 (fun p q => forall s s' r, exec server_env p s s' r -> exec server_env q s s' r) ps qs ->
  exec server_env (sequence ps) s s' rs -> exec server_env (sequence qs) s s' rs.
Proof.
  intros H. revert s s' rs.
  induction H as [|p q ps qs Hpq _ IH]; intros s s' rs; [done|]. simpl.
  intros (a & s1 & Hp & (l & s2 & Hl & Hr)%exec_bind)%exec_bind.
  apply exec_bind. exists a, s1. split; [auto|]. apply exec_bind. exists l, s2. auto.
Qed.

Definition updates_on (ups : list update) (u : string) : list nat :=
  filter (fun i => update_user <$> ups !! i = Some u) (seq 0 (length ups)).

Definition launch (ups : list update) : list (thread (option rpc_error)) :=
  (fun o => Running (update_prog o)) <$> ups.
Definition finished (rs : list (option rpc_error)) : list (thread (option rpc_error)) :=
  (fun r => Running (Ret r)) <$> rs.

Lemma launch_start ups ops : Forall2 split_into ups ops -> launch ups = start addr ops.
Proof.
  unfold launch, start. induction 1 as [|o op ups ops (_ & Hp & _) _ IH]; [done|].
  rewrite !fmap_cons. by rewrite Hp, IH.
Qed.

Lemma split_local ups ops : Forall2 split_into ups ops -> Forall (fun o => local o.1 o.2) ops.
Proof. induction 1 as [|o op ups ops (_ & _ & Hl) _ IH]; by constructor. Qed.

Lemma split_lookup ups ops i :
  Forall2 split_into ups ops ->
  (exists o op, ups !! i = Some o /\ ops !! i = Some op /\ split_into o op) \/
  ups !! i = None /\ ops !! i = None.
Proof.
  intros H. destruct (ups !! i) as [o|] eqn:Ho.
  - destruct (Forall2_lookup_l _ _ _ _ _ H Ho) as (op & Hop & Hs). left. eauto.
  - right. split; [done|]. apply lookup_ge_None. apply lookup_ge_None in Ho.
    by rewrite <-(Forall2_length _ _ _ H).
Qed.

Lemma split_on ups ops u : Forall2 split_into ups ops -> on ops u = updates_on ups u.
Proof.
  intros H. unfold on, updates_on. rewrite (Forall2_length _ _ _ H).
  apply list_filter_iff. intros i.
  destruct (split_lookup ups ops i H) as [(o & op & -> & -> & Hs & _)|[-> ->]]; [|done].
  simpl. by rewrite Hs.
Qed.

Lemma split_bodies ups ops ord :
  Forall2 split_into ups ops ->
  Forall2 (fun p q => forall s s' r, exec server_env p s s' r -> exec server_env q s s' r)
    (bodies ops ord) (omap (fun i => update_prog <$> ups !! i) ord).
Proof.
  intros H. unfold bodies. induction ord as [|i ord IH]; [constructor|]. simpl.
  destruct (split_lookup ups ops i H) as [(o & op & -> & -> & _ & Hp & _)|[-> ->]]; [|done].
  simpl. constructor; [|done]. intros s s' r Hb. rewrite Hp. by apply exec_lockUser.
Qed.

(** C18. No update is lost: when any number of concurrent updates have run, in any
    interleaving of their calls (failing ones included), the identity each user
    ends with is the one its updates produce when they run one after the other
    in some order, each returning what it returned; the updates of other users
    play no part. *)
Theorem updates_serialize ups s0 rs w u :
  rtc step (launch ups, start_shared s0) (finished rs, w) ->
  exists ord s1, ord ≡ₚ updates_on ups u /\
    exec server_env (sequence (omap (fun i => update_prog <$> ups !! i) ord)) s0 s1
      (omap (fun i => rs !! i) ord) /\
    srv_users s1 !! u = srv_users (sh_srv w) !! u.
Proof.
  destruct (updates_split ups) as [ops Hops]. rewrite (launch_start ups ops Hops).
  intros Hs. eapply finished_serial in Hs as (ord & s1 & Hord & He & Hu); [|by eapply split_local].
  exists ord, s1. split; [by rewrite <-(split_on ups ops)|]. split; [|done].
  eapply exec_sequence_mono; [by eapply split_bodies|done].
Qed.

(** The mutexes cannot deadlock: however far the concurrent updates have got,
    all of them have returned or one of them can go on; in particular none ever
    unlocks a mutex it does not hold. *)
Theorem updates_progress ups s0 ts w :
  rtc step (launch ups, start_shared s0) (ts, w) ->
  (exists rs, ts = finished rs) \/ exists st', step (ts, w) st'.
Proof.
  destruct (updates_split ups) as [ops Hops]. rewrite (launch_start ups ops Hops).
  apply pool_progress. by eapply split_local.
Qed.
End updates.

(** *** A scheduler *)
Section scheduler.
Context {R : Type}.

Definition call_next {X} (e : rpcE X) (k : X -> rpc R) (w : Shared) : option (thread R * Shared) :=
  match e in rpcE X return (X -> rpc R) -> option (thread R * Shared) with
  | Lock key => fun k =>
      let '(km, m) := getMutex (sh_km w) key in
      Some (Waiting m (k m), {| sh_km := km; sh_held := sh_held w; sh_srv := sh_srv w |})
  | Unlock m => fun k =>
      if bool_decide (m ∈ sh_held w)
      then Some (Running (k tt), set_held (sh_held w ∖ {[m]}) w) else None
  | e => fun k =>
      let '(srv', x) := server e (sh_srv w) in
      Some (Running (k x), {| sh_km := sh_km w; sh_held := sh_held w; sh_srv := srv' |})
  end k.
Definition thread_next (t : thread R) (w : Shared) : option (thread R * Shared) :=
  match t with
  | Running (Ret _) => None
  | Running (Vis e k) => call_next e k w
  | Waiting m p => if bool_decide (m ∈ sh_held w) then None
                   else Some (Running p, set_held (sh_held w ∪ {[m]}) w)
  end.

(** Threads step in the order of the schedule; one that cannot is skipped. *)
Fixpoint schedule (l : list nat) (st : list (thread R) * Shared) : list (thread R) * Shared :=
  match l with
  | [] => st
  | i :: l' =>
      schedule l' (match st.1 !! i with
                   | Some t => match thread_next t st.2 with
                               | Some (t', w') => (<[i := t']> st.1, w')
                               | None => st
                               end
                   | None => st
                   end)
  end.

Lemma thread_next_step t w t' w' : thread_next t w = Some (t', w') -> thread_step t w t' w'.
Proof.
  destruct t as [[r|X e k]|m p]; [done| |simpl; by case_bool_decide; intros [= <- <-]].
  destruct e; cbn [thread_step thread_next call_step call_next];
    try (destruct (getMutex _ _) eqn:Hm; intros [= <- <-]; split; by simplify_eq/=);
    try (case_bool_decide; intros [= <- <-]; done).
  all: match goal with |- context [server ?e ?s] => destruct (server e s) eqn:He end.
  all: intros [= <- <-]; do 2 eexists; split; [by left|done].
Qed.

Lemma schedule_steps l st : rtc step st (schedule l st).
Proof.
  revert st; induction l as [|i l IH]; intros [ts w]; [constructor|]. simpl.
  destruct (ts !! i) as [t|] eqn:Ht; [|apply IH].
  destruct (thread_next t w) as [[t' w']|] eqn:Hn; [|apply IH].
  eapply rtc_l; [|apply IH]. econstructor; [done|]. by apply thread_next_step.
Qed.
End scheduler.

(** Two policies attached to one user at once, while its account is updated. *)
Definition sample_updates : list update :=
  [UAttachPolicy "alice" "rw"; USetUserState "alice" "Alice" "" false;
   UAttachPolicy "alice" "admin"].
Definition sample_schedule : list nat := concat (repeat [0; 2; 1] 30).
Definition sample_run : list (thread (option rpc_error)) * Shared :=
  schedule sample_schedule (launch "filer:18888" "" id sample_updates, start_shared sample_server).

Lemma sample_run_steps :
  rtc step (launch "filer:18888" "" id sample_updates, start_shared sample_server) sample_run.
Proof. apply schedule_steps. Qed.

Lemma updates_serialize_witness :
  sample_run.1 = finished [None; None; None] /\
  (pb_PolicyNames <$> srv_users (sh_srv sample_run.2) !! "alice") = Some ["ro"; "rw"; "admin"] /\
  exists ord s1, ord ≡ₚ updates_on sample_updates "alice" /\
    exec server_env (sequence (omap (fun i => update_prog "filer:18888" "" id <$>
      sample_updates !! i) ord)) sample_server s1
      (omap (fun i => [None; None; None] !! i) ord) /\
    srv_users s1 !! "alice" = srv_users (sh_srv sample_run.2) !! "alice".
Proof.
  split; [by vm_compute|]. split; [by vm_compute|].
  apply (updates_serialize "filer:18888" "" id). apply sample_run_steps.
Defined.

Lemma updates_progress_witness :
  (exists rs, sample_run.1 = finished rs) \/ exists st', step (sample_run.1, sample_run.2) st'.
Proof.
  apply (updates_progress "filer:18888" "" id sample_updates sample_server).
  apply sample_run_steps.
Defined.
