(* ===== verification/IdentityController.v ===== *)
(** * The S3Identity controller (internal/controller/s3identity_controller.go) *)
From S2P Require Import Prelude Prog CoreTypes ApiTypes Effects Machinery Sim Trace RefGrant.
From S2P Require Import Cluster.
From S2P Require Import NameClaim IamCommon IamSpec.

Section controller.
Context `{ApiMachinery} `{Digest}.

Definition userStateDiffers (user : option IAMUser) (displayName email : string)
    (disabled : bool) : bool :=
  match user with
  | None => true
  | Some user =>
      negb (bool_decide (user_DisplayName user = displayName)) ||
      negb (bool_decide (user_Email user = email)) ||
      negb (bool_decide (user_Disabled user = disabled))
  end.

(** A status write that fails is reported to the caller of Reconcile. *)
Definition fail (identity : S3Identity) (reason message : string) : op outcome :=
  let identity := io_setPhase S3PhaseFailed identity in
  let identity := setCond identity S3ConditionReady ConditionFalse reason message in
  check kube (KStatusUpdate KS3Identity identity) catch err => Ret (Done noResult (Some err));
  Ret (Done (requeueIn requeueAfterTransient) None).

Definition refForbidden (identity : S3Identity) (message : string) : op outcome :=
  let identity := setCond identity S3ConditionReferenceGranted ConditionFalse
                    "ReferenceGrantMissing" message in
  let identity := io_setPhase S3PhasePending identity in
  check kube (KStatusUpdate KS3Identity identity) catch err => Ret (Done noResult (Some err));
  Ret (Done (requeueIn requeueAfterTransient) None).

(** Here a failed status write is only logged. *)
Definition clusterNotFound (identity : S3Identity) : op outcome :=
  let identity := setCond identity S3ConditionClusterReachable ConditionFalse
                    "ClusterRefNotFound"
                    ("Seaweed " +:+ fmt_q (ref_Name (idspec_SeaweedRef (id_Spec identity))) +:+
                     " not found") in
  let identity := io_setPhase S3PhasePending identity in
  do _ <- kube (KStatusUpdate KS3Identity identity);
  Ret (Done (requeueIn requeueAfterTransient) None).

Definition handleDeletion (identity : S3Identity) (name : string) (target : filerTarget)
    : op outcome :=
  if negb (hasFinalizer identity s3IdentityFinalizer) then Ret (Done noResult None)
  else
    let identity := io_setPhase S3PhaseTerminating identity in
    try claimants <- identityClaimants identity name
      catch err => Ret (Done noResult (Some err));
    do failed <-
      (if negb (bool_decide (idspec_ReclaimPolicy (id_Spec identity) = S3ReclaimRetain)) &&
          (length claimants =? 0)
       then
         do r <- iam target (DeleteUser name);
         match r with
         | Some err =>
             if negb (errors_Is err ErrIAMNotFound)
             then
               let identity := setCond identity S3ConditionReady ConditionFalse "DeleteFailed"
                                 (error_string err) in
               do _ <- kube (KStatusUpdate KS3Identity identity);
               Ret (Some err)
             else Ret None
         | None => Ret None
         end
       else Ret None);
    match failed with
    | Some err => Ret (Done noResult (Some err))
    | None =>
        let identity := removeFinalizer identity s3IdentityFinalizer in
        check kube (KUpdate KS3Identity identity) catch err => Ret (Done noResult (Some err));
        Ret (Done noResult None)
    end.

(** The head of Reconcile, up to the target: reference grant and ownership of
    the name, checked unless the resource is being deleted. *)
Definition admission (identity : S3Identity) (name : string) : segment opE outcome S3Identity :=
  if live (id_Meta identity) then
    let ref := idspec_SeaweedRef (id_Spec identity) in
    let ns := Namespace (id_Meta identity) in
    do r <- seaweedRefPermitted ref kindS3Identity ns;
    match r with
    | inl err => Ret (inl (Done noResult (Some err)))
    | inr permitted =>
        if negb permitted
        then do o <- refForbidden identity (seaweedRefDeniedMessage ref kindS3Identity ns);
             Ret (inl o)
        else
          let identity := clearCond identity S3ConditionReferenceGranted in
          do r <- identityConflict identity name;
          match r with
          | inl err => Ret (inl (Done noResult (Some err)))
          | inr (Some owner) =>
              do o <- fail identity "Conflict"
                ("IAM user " +:+ fmt_q name +:+ " on Seaweed " +:+ seaweedRefKey ref ns +:+
                 " is already managed by S3Identity " +:+ Namespace (id_Meta owner) +:+ "/" +:+
                 Name (id_Meta owner));
              Ret (inl o)
          | inr None => Ret (inr identity)
          end
    end
  else Ret (inr identity).

(** Creating the user, or updating its managed fields when they drift. *)
Definition ensureUser (identity : S3Identity) (name : string) (target : filerTarget)
    : segment opE outcome () :=
  let '(displayName, email) :=
    match idspec_Account (id_Spec identity) with
    | Some a => (acc_DisplayName a, acc_Email a) | None => ("", "") end in
  let disabled := idspec_Disabled (id_Spec identity) in
  do r <- iam target (GetUser name);
  match r with
  | inl err =>
      if errors_Is err ErrIAMNotFound
      then check iam target (CreateUser name displayName email disabled)
           catch err => (do o <- fail identity "CreateFailed" (error_string err); Ret (inl o));
           Ret (inr tt)
      else do o <- fail identity "LookupFailed" (error_string err); Ret (inl o)
  | inr user =>
      if userStateDiffers user displayName email disabled
      then check iam target (SetUserState name displayName email disabled)
           catch err => (do o <- fail identity "UpdateFailed" (error_string err); Ret (inl o));
           Ret (inr tt)
      else Ret (inr tt)
  end.

Definition recordReady (identity : S3Identity) (name : string) : S3Identity :=
  let identity := {|
    id_Meta := id_Meta identity; id_Spec := id_Spec identity;
    id_Status := {| idst_ObservedGeneration := Generation (id_Meta identity);
                    idst_Phase := S3PhaseReady;
                    idst_Conditions := idst_Conditions (id_Status identity);
                    idst_IdentityName := name |} |} in
  setCond identity S3ConditionReady ConditionTrue "Reconciled" "".

Definition Reconcile (req : NamespacedName) : op outcome :=
  try identity <- kube (KGet KS3Identity req)
    catch err => Ret (Done noResult (IgnoreNotFound err));
  let name := if bool_decide (idspec_Name (id_Spec identity) = "")
              then Name (id_Meta identity) else idspec_Name (id_Spec identity) in
  let provisioned := idst_IdentityName (id_Status identity) in
  if negb (bool_decide (provisioned = "")) && negb (bool_decide (provisioned = name))
  then fail identity "IdentityRenameNotSupported"
         ("identity name change from " +:+ fmt_q provisioned +:+ " to " +:+ fmt_q name +:+
          " is not supported; restore the original name or recreate the resource")
  else
    do admitted <- admission identity name;
    match admitted with
    | inl o => Ret o
    | inr identity =>
        do r <- resolveSeaweedFiler (idspec_SeaweedRef (id_Spec identity))
                  (Namespace (id_Meta identity));
        match r with
        | inl err => Ret (Done noResult (Some err))
        | inr None => clusterNotFound identity
        | inr (Some target) =>
            let identity := setCond identity S3ConditionClusterReachable ConditionTrue
                              "Reachable" "" in
            check getIAMAdmin target catch err => Ret (Done noResult (Some err));
            if negb (live (id_Meta identity)) then handleDeletion identity name target
            else if negb (hasFinalizer identity s3IdentityFinalizer) then
              let identity := addFinalizer identity s3IdentityFinalizer in
              check kube (KUpdate KS3Identity identity)
              catch err => Ret (Done noResult (Some err));
              Ret (Done requeueNow None)
            else
              do done <- ensureUser identity name target;
              match done with
              | inl o => Ret o
              | inr _ =>
                  check kube (KStatusUpdate KS3Identity (recordReady identity name))
                  catch err => Ret (Done noResult (Some err));
                  Ret (Done (requeueIn iamResyncInterval) None)
              end
        end
    end.

Definition mapToNameClaimants (id : S3Identity) : op (list NamespacedName) :=
  try peers <- identityClaimants id (identityIAMName id) catch _ => Ret [];
  Ret (map (fun p => {| nn_Namespace := Namespace (id_Meta p); nn_Name := Name (id_Meta p) |})
         peers).

(** ** What the controller may do

    [identity_guard] allows a call only when what the handler has seen so far
    justifies it. *)
Definition fetched (tr : trace) (req : NamespacedName) (id : S3Identity) : Prop :=
  saw_kube tr (KGet KS3Identity req) (Ok id).

(** The name is the resource's own, was never provisioned under another, and
    [t] is the filer of the cluster it references. *)
Definition manages (tr : trace) (req : NamespacedName) (id : S3Identity) (name : string)
    (t : filerTarget) : Prop :=
  fetched tr req id /\ name = identityIAMName id /\
  (idst_IdentityName (id_Status id) = "" \/ idst_IdentityName (id_Status id) = name) /\
  resolved tr (idspec_SeaweedRef (id_Spec id)) (Namespace (id_Meta id)) t.

Definition wanted_account (id : S3Identity) : string * string :=
  match idspec_Account (id_Spec id) with
  | Some a => (acc_DisplayName a, acc_Email a) | None => ("", "") end.

(** A live resource with its finalizer in place, permitted to use the cluster
    and with no claimant ahead of it. *)
Definition may_write (tr : trace) (req : NamespacedName) (t : filerTarget)
    (name displayName email : string) (disabled : bool) : Prop :=
  exists id, manages tr req id name t /\ live (id_Meta id) = true /\
    hasFinalizer id s3IdentityFinalizer = true /\
    seaweed_granted tr (idspec_SeaweedRef (id_Spec id)) kindS3Identity (Namespace (id_Meta id)) /\
    unconflicted tr KS3Identity id name /\
    (displayName, email) = wanted_account id /\ disabled = idspec_Disabled (id_Spec id).

Definition no_claimant (tr : trace) (id : S3Identity) (name : string) : Prop :=
  exists items, saw_kube tr (KList KS3Identity None ∅) (Ok items) /\
    peers_of id name (claim_cluster id) items = [].

Definition may_delete (tr : trace) (req : NamespacedName) (t : filerTarget) (name : string)
    : Prop :=
  exists id, manages tr req id name t /\ live (id_Meta id) = false /\
    hasFinalizer id s3IdentityFinalizer = true /\
    idspec_ReclaimPolicy (id_Spec id) <> S3ReclaimRetain /\ no_claimant tr id name.

(** The user needs no deletion any more. *)
Definition released (tr : trace) (id : S3Identity) (name : string) : Prop :=
  idspec_ReclaimPolicy (id_Spec id) = S3ReclaimRetain \/
  (exists items, saw_kube tr (KList KS3Identity None ∅) (Ok items) /\
     peers_of id name (claim_cluster id) items <> []) \/
  exists t r, saw tr (OIam t (DeleteUser name)) r /\ (r = None \/ r = Some ErrIAMNotFound).

Definition finalizer_update (tr : trace) (req : NamespacedName) (o : S3Identity) : Prop :=
  exists id, fetched tr req id /\ id_Spec o = id_Spec id /\
    (live (id_Meta id) = true /\
       id_Meta o = with_finalizers (id_Meta id)
                     (AddFinalizer (Finalizers (id_Meta id)) s3IdentityFinalizer) \/
     live (id_Meta id) = false /\
       id_Meta o = with_finalizers (id_Meta id)
                     (RemoveFinalizer (Finalizers (id_Meta id)) s3IdentityFinalizer) /\
       released tr id (identityIAMName id)).

Definition status_update (tr : trace) (req : NamespacedName) (o : S3Identity) : Prop :=
  exists id, fetched tr req id /\ id_Spec o = id_Spec id /\ id_Meta o = id_Meta id.

Definition identity_guard (req : NamespacedName) : Guard := fun tr X e =>
  match e with
  | OKube (KGet _ _) | OKube (KList _ _ _) => True
  | OKube (KUpdate KS3Identity o) => finalizer_update tr req o
  | OKube (KStatusUpdate KS3Identity o) => status_update tr req o
  | OIam _ (GetUser _) => True
  | OIam t (CreateUser n d m b) => may_write tr req t n d m b
  | OIam t (SetUserState n d m b) => may_write tr req t n d m b
  | OIam t (DeleteUser n) => may_delete tr req t n
  | OAdminFactory _ | ODialTLS _ _ _ => True
  | _ => False
  end.

Lemma identity_fetched_mono tr new req id : fetched tr req id -> fetched (tr ++ new) req id.
Proof. apply saw_app_l. Qed.
Lemma identity_manages_mono tr new req id name t :
  manages tr req id name t -> manages (tr ++ new) req id name t.
Proof.
  intros (? & ? & ? & ?). split_and!; [by apply identity_fetched_mono|done..|by apply resolved_mono].
Qed.
#[local] Hint Extern 2 (fetched (_ ++ _) _ _) => apply identity_fetched_mono : trace.
#[local] Hint Extern 2 (manages (_ ++ _) _ _ _ _) => apply identity_manages_mono : trace.

Lemma identity_guard_reads req : allows_reads (identity_guard req).
Proof. done. Qed.

Section safety.
Context (req : NamespacedName) (id : S3Identity).
Notation G := (identity_guard req).
Definition same (o : S3Identity) : Prop := id_Meta o = id_Meta id /\ id_Spec o = id_Spec id.

Lemma identity_peers_same o name items :
  same o -> peers_of o name (claim_cluster o) items = peers_of id name (claim_cluster id) items.
Proof.
  intros [Hm Hs]. destruct o as [m sp st], id as [m' sp' st']; simpl in *. by subst.
Qed.

Lemma identity_fail_swp o reason message tr :
  fetched tr req id -> same o -> swp G (fail o reason message) (fun _ _ => True) tr.
Proof.
  intros Hf [Hm Hs]. unfold fail. sx. split; [by exists id|]. by intros [e|].
Qed.

Lemma identity_refForbidden_swp o message tr :
  fetched tr req id -> same o -> swp G (refForbidden o message) (fun _ _ => True) tr.
Proof.
  intros Hf [Hm Hs]. unfold refForbidden. sx. split; [by exists id|]. by intros [e|].
Qed.

Lemma identity_clusterNotFound_swp o tr :
  fetched tr req id -> same o -> swp G (clusterNotFound o) (fun _ _ => True) tr.
Proof. intros Hf [Hm Hs]. unfold clusterNotFound. sx. split; [by exists id|done]. Qed.

Lemma identity_admission_swp o name tr :
  fetched tr req id -> same o ->
  swp G (admission o name)
    (fun r tr' => match r with
       | inl _ => True
       | inr o' => same o' /\ (live (id_Meta id) = true ->
           seaweed_granted tr' (idspec_SeaweedRef (id_Spec id)) kindS3Identity
             (Namespace (id_Meta id)) /\
           unconflicted tr' KS3Identity id name)
       end) tr.
Proof.
  intros Hf [Hm Hs]. unfold admission. rewrite Hm. destruct (live (id_Meta id)); [|by sx].
  eapply swp_seq_keep; [apply seaweedRefPermitted_swp, identity_guard_reads|].
  intros [e|[]] new Hg; sx; [done| |].
  - specialize (Hg eq_refl).
    eapply swp_seq_keep; [apply identityConflict_swp, identity_guard_reads|].
    intros [e|[owner|]] new2 Hu; sx; [done| |].
    + eapply swp_seq; [apply identity_fail_swp; [auto with trace|done]|].
      done.
    + split; [done|]. intros _. rewrite Hs in Hg. split; [auto with trace|].
      specialize (Hu eq_refl). destruct Hu as (items & Hsaw & Hc). exists items.
      split; [done|]. rewrite identity_peers_same in Hc by done.
      unfold conflict_of in *. simpl in *. by rewrite Hm in Hc.
  - eapply swp_seq; [apply identity_refForbidden_swp; [auto with trace|done]|].
    done.
Qed.

Lemma identity_handleDeletion_swp o name t tr :
  same o -> live (id_Meta id) = false -> manages tr req id name t ->
  swp G (handleDeletion o name t) (fun _ _ => True) tr.
Proof.
  intros [Hm Hs] Hdel Hman. unfold handleDeletion.
  assert (hasFinalizer o s3IdentityFinalizer = hasFinalizer id s3IdentityFinalizer) as ->.
  { unfold hasFinalizer; simpl. by rewrite Hm. }
  destruct (hasFinalizer id _) eqn:Hfin; sx; [|done].
  eapply swp_seq_keep; [apply identityClaimants_swp, identity_guard_reads|].
  intros [e|peers] new; sx; [done|]. intros (items & Hsaw & ->).
  rewrite identity_peers_same by done.
  destruct Hman as (Hf & -> & Hprov & Hres).
  eapply (swp_seq_keep _ _ _ (fun failed tr' => failed = None ->
            released tr' id (identityIAMName id))).
  - assert (idspec_ReclaimPolicy (id_Spec (io_setPhase S3PhaseTerminating o)) =
            idspec_ReclaimPolicy (id_Spec id)) as -> by (simpl; by rewrite Hs).
    case_bool_decide as Hrec; sx; [by left|]. cbn [andb].
    destruct (peers_of id _ _ items) as [|p ps] eqn:Hp; cbn [length Nat.eqb]; sx.
    + split.
      { exists id. split; [apply identity_manages_mono; by split_and!|].
        split_and!; [done..|]. by exists items. }
      intros [e|]; sx.
      * destruct (errors_Is e _) eqn:He; sx.
        -- intros _. right; right. exists t, (Some e). split; [auto with trace|right].
           unfold errors_Is in He. apply bool_decide_eq_true in He. by subst.
        -- split; [|done]. exists id. auto with trace.
      * intros _. right; right. exists t, None. split; [auto with trace|by left].
    + intros _. right; left. exists items. split; [done|]. by rewrite Hp.
  - intros [e|] new2 Hrel; sx; [done|]. split; [|by intros [e|]].
    exists id. split; [auto with trace|]. split; [done|]. right.
    split; [done|]. split; [by simpl; rewrite Hm|]. auto with trace.
Qed.

Lemma ensureUser_swp o name t tr :
  same o -> manages tr req id name t -> live (id_Meta id) = true ->
  hasFinalizer id s3IdentityFinalizer = true ->
  seaweed_granted tr (idspec_SeaweedRef (id_Spec id)) kindS3Identity (Namespace (id_Meta id)) ->
  unconflicted tr KS3Identity id name ->
  swp G (ensureUser o name t) (fun _ _ => True) tr.
Proof.
  intros Hsame (Hf & Hname & Hprov & Hres) Hlive Hfin Hg Hu.
  assert (forall new d m b, (d, m) = wanted_account id -> b = idspec_Disabled (id_Spec id) ->
            may_write (tr ++ new) req t name d m b) as Hmay.
  { intros new d m b Hd Hb. exists id. split; [by apply identity_manages_mono|].
    split_and!; auto with trace. }
  unfold ensureUser. destruct (match idspec_Account _ with
    | Some a => (acc_DisplayName a, acc_Email a) | None => ("", "") end) as [d m] eqn:Hacc.
  assert ((d, m) = wanted_account id) as Hacc'.
  { unfold wanted_account. by rewrite <-(proj2 Hsame). }
  assert (idspec_Disabled (id_Spec o) = idspec_Disabled (id_Spec id)) as -> by
    by rewrite (proj2 Hsame).
  assert (forall new msg r, swp G (do o0 <- fail o r msg; Ret (inl o0))
            (fun (_ : outcome + ()) _ => True) (tr ++ new)) as Hfail.
  { intros new msg r. eapply swp_seq; [apply identity_fail_swp; [|done]|done].
    auto with trace. }
  sx. split; [done|]. intros [e|user]; sx.
  - destruct (errors_Is e _); sx; [|apply Hfail]. split; [by apply Hmay|].
    intros [e'|]; sx; [|done]. rewrite <-app_assoc. apply Hfail.
  - destruct (userStateDiffers _ _ _ _); sx; [|done]. split; [by apply Hmay|].
    intros [e'|]; sx; [|done]. rewrite <-app_assoc. apply Hfail.
Qed.
End safety.

Lemma identity_Reconcile_swp req tr :
  swp (identity_guard req) (Reconcile req) (fun _ _ => True) tr.
Proof.
  unfold Reconcile. sx. split; [done|]. intros [e|id]; sx; [done|].
  set (tr1 := tr ++ _). assert (fetched tr1 req id) as Hf by (unfold fetched, tr1; auto with trace).
  set (name := if bool_decide (idspec_Name (id_Spec id) = "") then _ else _).
  assert (name = identityIAMName id) as Hname.
  { unfold name, identityIAMName. repeat case_bool_decide; done. }
  destruct (negb (bool_decide (idst_IdentityName _ = "")) && _) eqn:Hren.
  { by apply (identity_fail_swp req id). }
  assert (idst_IdentityName (id_Status id) = "" \/ idst_IdentityName (id_Status id) = name)
    as Hprov.
  { repeat case_bool_decide; simpl in *; naive_solver. }
  eapply swp_seq_keep; [by apply (identity_admission_swp req id)|].
  intros [o|o] new; sx; [done|]. intros [Hsame Hadm].
  eapply swp_seq_keep; [apply resolveSeaweedFiler_swp, identity_guard_reads|].
  assert (idspec_SeaweedRef (id_Spec o) = idspec_SeaweedRef (id_Spec id)) as ->
    by by rewrite (proj2 Hsame).
  assert (Namespace (id_Meta o) = Namespace (id_Meta id)) as -> by by rewrite (proj1 Hsame).
  intros [e|[t|]] new2; sx; [done| |]; intros Hres.
  - unfold getIAMAdmin. sx. split; [done|]. intros [e|]; sx; [done|].
    set (o' := setCond o _ _ _ _).
    assert (same id o') as Hsame' by done. clearbody o'.
    assert (live (id_Meta o') = live (id_Meta id)) as -> by by rewrite (proj1 Hsame').
    assert (hasFinalizer o' s3IdentityFinalizer = hasFinalizer id s3IdentityFinalizer) as ->.
    { unfold hasFinalizer; simpl. by rewrite (proj1 Hsame'). }
    set (tr2 := ((tr1 ++ new) ++ new2) ++ _).
    assert (manages tr2 req id name t) as Hman.
    { unfold tr2. split_and!; [auto with trace|done..|auto with trace]. }
    destruct (live (id_Meta id)) eqn:Hl; sx; [|by apply (identity_handleDeletion_swp req id)].
    destruct (hasFinalizer id _) eqn:Hfin; sx.
    + destruct (Hadm eq_refl) as [Hg Hu].
      eapply swp_seq_keep.
      { apply (ensureUser_swp req id); try done; unfold tr2; auto 10 with trace. }
      intros [o0|[]] new3 _; sx; [done|]. split; [|by intros [e|]].
      exists id. split; [by apply identity_fetched_mono, Hman|]. exact (conj (proj2 Hsame') (proj1 Hsame')).
    + split; [|by intros [e|]]. exists id. split; [apply Hman|]. split; [apply Hsame'|].
      left. split; [done|]. simpl. by rewrite (proj1 Hsame').
  - apply (identity_clusterNotFound_swp req id); [|done]. auto with trace.
Qed.

(** ** What a pass achieves *)
Definition not_resync (o : outcome) : Prop := o <> resync.

Lemma identity_fail_quiet o reason message :
  swp quiet_guard (fail o reason message) (fun r _ => not_resync r) [].
Proof. unfold fail. sx. split; [done|]. by intros [e|]. Qed.
Lemma identity_refForbidden_quiet o message :
  swp quiet_guard (refForbidden o message) (fun r _ => not_resync r) [].
Proof. unfold refForbidden. sx. split; [done|]. by intros [e|]. Qed.
Lemma identity_clusterNotFound_quiet o :
  swp quiet_guard (clusterNotFound o) (fun r _ => not_resync r) [].
Proof. unfold clusterNotFound. sx. by split. Qed.

Lemma identity_admission_quiet id o name :
  same id o ->
  swp quiet_guard (admission o name)
    (fun r _ => match r with inl out => not_resync out | inr o' => same id o' end) [].
Proof.
  intros Hs. unfold admission. destruct (live _); [|by sx].
  eapply swp_seq; [apply seaweedRefPermitted_swp, quiet_reads|].
  intros [e|[]] tr _; sx; [done| |].
  - eapply swp_seq; [apply identityConflict_swp, quiet_reads|].
    intros [e|[w|]] tr2 _; sx; [done| |done]. by split; [|intros [e|]].
  - by split; [|intros [e|]].
Qed.

(** Only the user [name] of the store differs. *)
Definition only_user (name : string) (s s' : Sim) : Prop :=
  (forall n, n <> name -> sim_users s' !! n = sim_users s !! n) /\
  sim_policies s' = sim_policies s /\ sim_oidc s' = sim_oidc s.

(** The user is as the spec of [id] wants it; credentials and attached policies
    are those it had before. *)
Definition provisioned (id : S3Identity) (s s' : Sim) : Prop :=
  exists u, sim_users s' !! identityIAMName id = Some u /\
    (user_DisplayName u, user_Email u) = wanted_account id /\
    user_Disabled u = idspec_Disabled (id_Spec id) /\
    match sim_users s !! identityIAMName id with
    | Some u0 => user_Credentials u = user_Credentials u0 /\
                 user_PolicyNames u = user_PolicyNames u0
    | None => user_Credentials u = [] /\ user_PolicyNames u = []
    end.

Lemma only_user_refl name s : only_user name s s.
Proof. done. Qed.
Lemma only_user_insert name u s : only_user name s (set_users (<[name := u]> (sim_users s)) s).
Proof. split; [|done]. intros n Hn. simpl. by rewrite lookup_insert_ne by done. Qed.
Lemma only_user_delete name s : only_user name s (set_users (delete name (sim_users s)) s).
Proof. split; [|done]. intros n Hn. simpl. by rewrite lookup_delete_ne by done. Qed.
#[local] Hint Resolve only_user_refl only_user_insert only_user_delete : iam.

Lemma userStateDiffers_false u d m b :
  userStateDiffers (Some u) d m b = false ->
  user_DisplayName u = d /\ user_Email u = m /\ user_Disabled u = b.
Proof. simpl. repeat case_bool_decide; naive_solver. Qed.

Section achieves.
Context (objs : forall k, NamespacedName -> option (Obj k)) (id : S3Identity).
Notation env := (iam_env objs).
Notation name := (identityIAMName id).

Lemma identity_fail_wp o reason message s (Q : outcome + () -> Sim -> Prop) :
  (forall r, not_resync r -> Q (inl r) s) ->
  wp env (do r <- fail o reason message; Ret (inl r)) Q s.
Proof. intros HQ. eapply quiet_seq; [apply identity_fail_quiet|]. intros r Hr. by apply HQ. Qed.

Lemma ensureUser_wp o t s :
  same id o ->
  wp env (ensureUser o name t)
    (fun r s' => only_user name s s' /\
       match r with inl out => not_resync out | inr _ => provisioned id s s' end) s.
Proof.
  intros [_ Hs]. unfold ensureUser. rewrite Hs. fold (wanted_account id).
  destruct (wanted_account id) as [d m] eqn:Hacc.
  assert (forall msg r s', only_user name s s' ->
    wp env (do o0 <- fail o r msg; Ret (inl o0))
      (fun (r : outcome + ()) s' => only_user name s s' /\
         match r with inl out => not_resync out | inr _ => provisioned id s s' end) s') as Hfail.
  { intros msg r s' Ho. apply identity_fail_wp. done. }
  wx. intros r s1 [Hr|(-> & e & -> & e' & ->)]; [|by apply Hfail].
  cbn [sim_iam] in Hr. destruct (sim_users s !! name) as [u|] eqn:Hu; simplify_eq; wx.
  - destruct (userStateDiffers (Some u) d m (idspec_Disabled (id_Spec id))) eqn:Hdiff; wx.
    + intros r s1 [Hr|(-> & e & -> & _)]; [|by apply Hfail].
      cbn [sim_iam] in Hr. unfold with_user in Hr. rewrite Hu in Hr. simplify_eq; wx.
      split; [apply only_user_insert|]. eexists. simpl. rewrite lookup_insert_eq, Hu, Hacc.
      by split_and!.
    + apply userStateDiffers_false in Hdiff as (? & ? & ?).
      split; [done|]. exists u. rewrite Hu, Hacc. split_and!; congruence.
  - intros r s1 [Hr|(-> & e & -> & _)]; [|by apply Hfail].
    cbn [sim_iam] in Hr. rewrite Hu in Hr. simplify_eq; wx.
    split; [apply only_user_insert|]. eexists. simpl. rewrite lookup_insert_eq, Hu, Hacc.
    by split_and!.
Qed.

Lemma identity_handleDeletion_wp o t s :
  same id o ->
  wp env (handleDeletion o name t) (fun r s' => only_user name s s' /\ not_resync r) s.
Proof.
  intros [Hm Hs]. unfold handleDeletion. destruct (hasFinalizer _ _); wx; [|done].
  eapply quiet_seq; [eapply swp_mono, identityClaimants_swp, quiet_reads|].
  { intros r tr _. exact I. }
  intros [e|peers] _; wx; [done|].
  apply (wp_seq _ _ _ (fun _ s' => only_user name s s')).
  - destruct (_ && _); wx; [|done].
    intros r s1 [[= -> ->]|(-> & e & -> & _)]; wx; [auto with iam|].
    destruct (errors_Is _ _); wx; [done|]. by intros r s1 [-> _].
  - intros [e|] s1 Ho; wx; [done|]. by intros [e|] s2 [-> _].
Qed.

Lemma identity_Reconcile_wp req s :
  objs KS3Identity req = Some id ->
  wp env (Reconcile req)
    (fun r s' => only_user name s s' /\
       (r = resync -> live (id_Meta id) = true /\ provisioned id s s')) s.
Proof.
  intros Hget. unfold Reconcile. wx. intros [e|o] s1 [-> Ho]; wx; [done|].
  simpl in Ho. rewrite Hget in Ho. injection Ho as <-.
  assert ((if bool_decide (idspec_Name (id_Spec id) = "") then Name (id_Meta id)
           else idspec_Name (id_Spec id)) = name) as ->.
  { unfold identityIAMName. repeat case_bool_decide; done. }
  destruct (_ && _).
  { eapply wp_mono; [|eapply quiet_wp, identity_fail_quiet]. intros r s' [-> Hr]. done. }
  eapply quiet_seq; [by apply (identity_admission_quiet id)|]. intros [r|o] Hsame; wx; [done|].
  eapply quiet_seq; [eapply swp_mono, resolveSeaweedFiler_swp, quiet_reads|].
  { intros r tr _. exact I. }
  intros [e|[t|]] _; wx; [done| |].
  2: { eapply wp_mono; [|eapply quiet_wp, identity_clusterNotFound_quiet]. intros r s' [-> Hr]. done. }
  intros [e|] s1 ->; wx; [done|].
  set (o' := setCond o _ _ _ _). assert (same id o') as Hsame' by done. clearbody o'.
  rewrite (proj1 Hsame'). destruct (live (id_Meta id)) eqn:Hl; wx.
  - destruct (hasFinalizer _ _); wx; [|by intros [e|] s2 [-> _]].
    eapply wp_seq; [by apply ensureUser_wp|]. intros [r|[]] s2 [Ho Hp]; wx; [done|].
    intros [e|] s3 [-> _]; wx; done.
  - eapply wp_mono; [|by apply identity_handleDeletion_wp]. intros r s' [? ?]. done.
Qed.
End achieves.

(** C13. The S3Identity controller acts on the IAM service only when it may.
    Whatever the API server and the filer answer, every call of a pass is
    allowed by what the handler has seen before it: a user is created or updated only for
    a live resource that has its finalizer, a grant for the cluster it references and no
    older claimant of the name, with the account and disabled flag of its spec, at the
    filer of that cluster; a user is deleted only for a resource being deleted, not
    retained, whose name no other live resource claims; the finalizer is dropped
    only when the resource is retained, another claimant takes the user over, or
    the deletion succeeded (or found nothing).  No other IAM call, and no write to
    any other object, is ever made. *)
Theorem identity_reconcile_guarded req tr r :
  exec trace_env (Reconcile req) [] tr r -> guarded (identity_guard req) tr.
Proof. intros Hx. by eapply swp_theorem in Hx as [? _]; [|apply identity_Reconcile_swp]. Qed.

(** A pass over an S3Identity changes no IAM object but the user it names,
    and a pass that ends with the periodic resync leaves that user with the
    account and the disabled flag of the spec, and with the credentials and attached
    policies it had before (none when it was just created). *)
Theorem identity_reconcile_converges objs req id s s' r :
  objs KS3Identity req = Some id ->
  exec (iam_env objs) (Reconcile req) s s' r ->
  only_user (identityIAMName id) s s' /\
  (r = resync -> live (id_Meta id) = true /\ provisioned id s s').
Proof.
  intros Hget Hx. pose proof (identity_Reconcile_wp objs id req s Hget) as Hwp.
  rewrite wp_exec in Hwp. by apply Hwp.
Qed.
End controller.

(** A cluster with an identity whose user has drifted. *)
Definition sample_user : IAMUser :=
  user_creds [{| AccessKey := "AK1"; SecretKey := "SK1" |}]
    (new_user "alice" "old" "old@example.com" true).
Definition managed_identity (deleting : bool) : S3Identity := {|
  id_Meta := {| Name := "x"; Namespace := "a"; Generation := 1%Z; CreationTimestamp := 5%Z;
                DeletionTimestamp := if deleting then Some 9%Z else None; Labels := ∅;
                Annotations := ∅; Finalizers := [s3IdentityFinalizer];
                OwnerReferences := []; UID := "" |};
  id_Spec := {| idspec_SeaweedRef := {| ref_Name := "sw"; ref_Namespace := "" |};
                idspec_Name := "alice"; idspec_ReclaimPolicy := S3ReclaimDelete;
                idspec_Disabled := false;
                idspec_Account := Some {| acc_DisplayName := "Alice"; acc_Email := "a@x" |} |};
  id_Status := {| idst_ObservedGeneration := 0%Z; idst_Phase := ""; idst_Conditions := [];
                  idst_IdentityName := "alice" |} |}.
Definition identity_cluster (deleting : bool) : Sim :=
  set_users {["alice" := sample_user]}
    (set_objs KS3Identity [managed_identity deleting]
       (set_objs KSeaweed [sample_sw "a"] sim_empty)).
Definition identity_req : NamespacedName := {| nn_Namespace := "a"; nn_Name := "x" |}.

Lemma identity_reconcile_guarded_witness :
  let x := run (tracing sim) (Reconcile identity_req) (identity_cluster true, []) in
  x.2 = Done noResult None /\ length x.1.2 = 7 /\
  guarded (identity_guard identity_req) x.1.2.
Proof.
  intros x. split; [by vm_compute|]. split; [by vm_compute|].
  apply (identity_reconcile_guarded identity_req x.1.2 x.2). apply run_tracing.
Defined.

Definition sample_objs : forall k, NamespacedName -> option (Obj k) := fun k key =>
  List.find (fun o => bool_decide (obj_key o = key)) (sim_objs (identity_cluster false) k).

Lemma identity_reconcile_converges_witness :
  let s := identity_cluster false in
  let s' := (run (sim_iam_only sample_objs) (Reconcile identity_req) s).1 in
  only_user "alice" s s' /\ provisioned (managed_identity false) s s'.
Proof.
  intros s s'.
  destruct (identity_reconcile_converges sample_objs identity_req (managed_identity false)
              s s' resync) as [Ho Hp].
  - by vm_compute.
  - apply run_iam. by vm_compute.
  - split; [exact Ho|]. by apply Hp.
Defined.
