(* ===== verification/Json.v ===== *)
(** * encoding/json

    The part of Go's standard library the policy documents use: [Marshal] of
    strings, arrays and structs, and the validity of a text under [Unmarshal]
    with the value it denotes.  The parser follows the library's scanner: its
    white space, string, number and literal syntax, its limit on nesting, and
    the replacement of malformed UTF-8. *)
From Stdlib Require Import Ascii.
From S2P Require Import Prelude.

Inductive json :=
| JNull
| JBool (b : bool)
| JNum (lit : string)
| JStr (s : string)
| JArr (l : list json)
| JObj (l : list (string * json)).

(** ** UTF-8 *)
Definition byte (a : ascii) : nat := nat_of_ascii a.
Definition between (lo hi : nat) (a : ascii) : bool := (lo <=? byte a) && (byte a <=? hi).
Definition cont (a : ascii) : bool := between 128 191 a.
Definition utf8_2 (a b : ascii) : bool := between 194 223 a && cont b.
Definition utf8_3 (a b c : ascii) : bool :=
  ((between 224 224 a && between 160 191 b) || (between 225 236 a && cont b) ||
   (between 237 237 a && between 128 159 b) || (between 238 239 a && cont b)) && cont c.
Definition utf8_4 (a b c d : ascii) : bool :=
  ((between 240 240 a && between 144 191 b) || (between 241 243 a && cont b) ||
   (between 244 244 a && between 128 143 b)) && cont c && cont d.

(** A string as the runes [range] sees: ASCII, a well-formed multi-byte rune, or
    one malformed byte. *)
Inductive chunk :=
| CAscii (a : ascii)
| CTwo (a b : ascii)
| CThree (a b c : ascii)
| CFour (a b c d : ascii)
| CBad.

Fixpoint chunks (s : string) : list chunk :=
  match s with
  | EmptyString => []
  | String a s1 =>
      if byte a <? 128 then CAscii a :: chunks s1
      else match s1 with
      | EmptyString => [CBad]
      | String b s2 =>
          if utf8_2 a b then CTwo a b :: chunks s2
          else match s2 with
          | EmptyString => CBad :: chunks s1
          | String c s3 =>
              if utf8_3 a b c then CThree a b c :: chunks s3
              else match s3 with
              | EmptyString => CBad :: chunks s1
              | String d s4 =>
                  if utf8_4 a b c d then CFour a b c d :: chunks s4 else CBad :: chunks s1
              end
          end
      end
  end.

(** U+FFFD *)
Definition rune_error : string :=
  String "239"%char (String "191"%char (String "189"%char EmptyString)).
Definition chunk_bytes (c : chunk) : string :=
  match c with
  | CAscii a => String a EmptyString
  | CTwo a b => String a (String b EmptyString)
  | CThree a b c => String a (String b (String c EmptyString))
  | CFour a b c d => String a (String b (String c (String d EmptyString)))
  | CBad => rune_error
  end.
Definition to_valid_utf8 (s : string) : string := concat_strings (chunk_bytes <$> chunks s).

(** ** Marshal *)
Definition backslash (s : string) : string := String "092"%char s.
Definition escape_ascii (a : ascii) : string :=
  let n := byte a in
  if (n =? 92) || (n =? 34) then backslash (String a EmptyString)
  else if n =? 8 then backslash "b" else if n =? 12 then backslash "f"
  else if n =? 10 then backslash "n" else if n =? 13 then backslash "r"
  else if n =? 9 then backslash "t"
  else if (n <? 32) || (n =? 60) || (n =? 62) || (n =? 38)
  then backslash ("u00" +:+ String (hex_digit (n / 16))
                              (String (hex_digit (n mod 16)) EmptyString))
  else String a EmptyString.
Definition escape_chunk (c : chunk) : string :=
  match c with
  | CAscii a => escape_ascii a
  | CThree a b c =>
      if (byte a =? 226) && (byte b =? 128) && ((byte c =? 168) || (byte c =? 169))
      then backslash ("u202" +:+ String (hex_digit (byte c - 160)) EmptyString)
      else chunk_bytes (CThree a b c)
  | CBad => backslash "ufffd"
  | _ => chunk_bytes c
  end.
Definition marshal_string (s : string) : string :=
  dquote +:+ concat_strings (escape_chunk <$> chunks s) +:+ dquote.

Fixpoint marshal (v : json) : string :=
  match v with
  | JNull => "null"
  | JBool b => if b then "true" else "false"
  | JNum lit => lit
  | JStr s => marshal_string s
  | JArr l => "[" +:+ Join (map marshal l) "," +:+ "]"
  | JObj l => "{" +:+ Join (map (fun kv => marshal_string kv.1 +:+ ":" +:+ marshal kv.2) l) ","
              +:+ "}"
  end.

(** ** Unmarshal *)
Fixpoint skip_space (s : string) : string :=
  match s with
  | String a s' =>
      if (byte a =? 32) || (byte a =? 9) || (byte a =? 10) || (byte a =? 13)
      then skip_space s' else s
  | EmptyString => EmptyString
  end.

Definition hex_value (a : ascii) : option nat :=
  let n := byte a in
  if (48 <=? n) && (n <=? 57) then Some (n - 48)
  else if (97 <=? n) && (n <=? 102) then Some (n - 87)
  else if (65 <=? n) && (n <=? 70) then Some (n - 55)
  else None.
Definition hex4 (a b c d : ascii) : option N :=
  match hex_value a, hex_value b, hex_value c, hex_value d with
  | Some w, Some x, Some y, Some z =>
      Some (N.of_nat w * 4096 + N.of_nat x * 256 + N.of_nat y * 16 + N.of_nat z)%N
  | _, _, _, _ => None
  end.

Definition chr (n : N) : ascii := ascii_of_N n.
Definition encode_rune (r : N) : string :=
  (if r <? 128 then String (chr r) EmptyString
   else if r <? 2048
   then String (chr (192 + r / 64)) (String (chr (128 + r mod 64)) EmptyString)
   else if r <? 65536
   then String (chr (224 + r / 4096))
          (String (chr (128 + r / 64 mod 64)) (String (chr (128 + r mod 64)) EmptyString))
   else String (chr (240 + r / 262144))
          (String (chr (128 + r / 4096 mod 64))
             (String (chr (128 + r / 64 mod 64)) (String (chr (128 + r mod 64)) EmptyString))))%N.
Definition surrogate (r : N) : bool := ((55296 <=? r) && (r <? 57344))%N.
(** [utf16.DecodeRune]: [None] when the pair is not a surrogate pair. *)
Definition decode_pair (r1 r2 : N) : option N :=
  (if (55296 <=? r1) && (r1 <? 56320) && (56320 <=? r2) && (r2 <? 57344)
   then Some ((r1 - 55296) * 1024 + (r2 - 56320) + 65536) else None)%N.

Definition simple_escape (a : ascii) : option ascii :=
  let n := byte a in
  if (n =? 34) || (n =? 92) || (n =? 47) then Some a
  else if n =? 98 then Some "008"%char else if n =? 102 then Some "012"%char
  else if n =? 110 then Some "010"%char else if n =? 114 then Some "013"%char
  else if n =? 116 then Some "009"%char else None.

(** The rest of a string literal after its opening quote: the bytes it denotes,
    malformed UTF-8 not yet replaced, and the text after the closing quote. *)
Definition prepend (p : string) (r : option (string * string)) : option (string * string) :=
  match r with Some (v, rest) => Some (p +:+ v, rest) | None => None end.
Fixpoint parse_string (s : string) : option (string * string) :=
  match s with
  | EmptyString => None
  | String a s1 =>
      if byte a =? 34 then Some (EmptyString, s1)
      else if byte a =? 92 then
        match s1 with
        | String e s2 =>
            if byte e =? 117 then
              match s2 with
              | String h1 (String h2 (String h3 (String h4 s3))) =>
                  match hex4 h1 h2 h3 h4 with
                  | None => None
                  | Some r =>
                      if negb (surrogate r) then prepend (encode_rune r) (parse_string s3)
                      else match s3 with
                      | String b (String u (String g1 (String g2 (String g3 (String g4 s4))))) =>
                          if (byte b =? 92) && (byte u =? 117) then
                            match hex4 g1 g2 g3 g4 with
                            | Some r2 =>
                                match decode_pair r r2 with
                                | Some p => prepend (encode_rune p) (parse_string s4)
                                | None => prepend rune_error (parse_string s3)
                                end
                            | None => None
                            end
                          else prepend rune_error (parse_string s3)
                      | _ => prepend rune_error (parse_string s3)
                      end
                  end
              | _ => None
              end
            else match simple_escape e with
                 | Some c => prepend (String c EmptyString) (parse_string s2)
                 | None => None
                 end
        | EmptyString => None
        end
      else if byte a <? 32 then None
      else prepend (String a EmptyString) (parse_string s1)
  end.

(** Number literals: [-? (0 | [1-9][0-9]* ) (. [0-9]+)? ([eE] [+-]? [0-9]+)?]. *)
Definition digit (a : ascii) : bool := between 48 57 a.
Fixpoint digits (s : string) : string * string :=
  match s with
  | String a s' => if digit a then let '(d, r) := digits s' in (String a d, r)
                   else (EmptyString, s)
  | EmptyString => (EmptyString, EmptyString)
  end.
Definition one_of (s : string) (a : ascii) : bool := Contains s (String a EmptyString).
Definition parse_exponent (s : string) : option (string * string) :=
  match s with
  | String e s1 =>
      if one_of "eE" e then
        let '(sign, s2) := match s1 with
                           | String g s2 => if one_of "+-" g then (String g EmptyString, s2)
                                            else (EmptyString, s1)
                           | EmptyString => (EmptyString, s1) end in
        let '(d, rest) := digits s2 in
        if String.eqb d "" then None else Some (String e (sign +:+ d), rest)
      else Some (EmptyString, s)
  | EmptyString => Some (EmptyString, s)
  end.
Definition parse_fraction (s : string) : option (string * string) :=
  match s with
  | String p s1 =>
      if byte p =? 46 then
        let '(d, rest) := digits s1 in
        if String.eqb d "" then None else prepend (String p d) (parse_exponent rest)
      else parse_exponent s
  | EmptyString => Some (EmptyString, s)
  end.
Definition parse_unsigned (s : string) : option (string * string) :=
  match s with
  | String a s1 =>
      if byte a =? 48 then prepend "0" (parse_fraction s1)
      else if digit a then
        let '(d, rest) := digits s in prepend d (parse_fraction rest)
      else None
  | EmptyString => None
  end.
Definition parse_number (s : string) : option (string * string) :=
  match s with
  | String a s1 => if byte a =? 45 then prepend "-" (parse_unsigned s1) else parse_unsigned s
  | EmptyString => None
  end.

Definition expect (word : string) (v : json) (s : string) : option (json * string) :=
  if HasPrefix s word
  then Some (v, String.substring (String.length word) (String.length s) s) else None.

Definition maxNestingDepth : nat := 100 * 100.

(** [fuel] bounds the calls (the length of the text is enough); [depth] counts
    the arrays and objects around the value. *)
Fixpoint parse_value (fuel depth : nat) (s : string) : option (json * string) :=
  match fuel with
  | O => None
  | S fuel' =>
      match skip_space s with
      | EmptyString => None
      | String a s1 as t =>
          let n := byte a in
          if n =? 34 then
            match parse_string s1 with
            | Some (v, rest) => Some (JStr (to_valid_utf8 v), rest) | None => None end
          else if n =? 91 then
            if maxNestingDepth <=? depth then None
            else match skip_space s1 with
                 | String "]" rest => Some (JArr [], rest)
                 | _ => match parse_elements fuel' (S depth) s1 with
                        | Some (l, rest) => Some (JArr l, rest) | None => None end
                 end
          else if n =? 123 then
            if maxNestingDepth <=? depth then None
            else match skip_space s1 with
                 | String "}" rest => Some (JObj [], rest)
                 | _ => match parse_members fuel' (S depth) s1 with
                        | Some (l, rest) => Some (JObj l, rest) | None => None end
                 end
          else if n =? 110 then expect "null" JNull t
          else if n =? 116 then expect "true" (JBool true) t
          else if n =? 102 then expect "false" (JBool false) t
          else match parse_number t with
               | Some (lit, rest) => Some (JNum lit, rest) | None => None end
      end
  end
with parse_elements (fuel depth : nat) (s : string) : option (list json * string) :=
  match fuel with
  | O => None
  | S fuel' =>
      match parse_value fuel' depth s with
      | None => None
      | Some (v, rest) =>
          match skip_space rest with
          | String "," rest' =>
              match parse_elements fuel' depth rest' with
              | Some (l, rest'') => Some (v :: l, rest'') | None => None end
          | String "]" rest' => Some ([v], rest')
          | _ => None
          end
      end
  end
with parse_members (fuel depth : nat) (s : string) : option (list (string * json) * string) :=
  match fuel with
  | O => None
  | S fuel' =>
      match skip_space s with
      | String q s1 =>
          if negb (byte q =? 34) then None
          else match parse_string s1 with
          | None => None
          | Some (k, rest) =>
              match skip_space rest with
              | String ":" rest1 =>
                  match parse_value fuel' depth rest1 with
                  | None => None
                  | Some (v, rest2) =>
                      let kv := (to_valid_utf8 k, v) in
                      match skip_space rest2 with
                      | String "," rest' =>
                          match parse_members fuel' depth rest' with
                          | Some (l, rest'') => Some (kv :: l, rest'') | None => None end
                      | String "}" rest' => Some ([kv], rest')
                      | _ => None
                      end
                  end
              | _ => None
              end
          end
      | EmptyString => None
      end
  end.

(** A whole text: one value and nothing but white space after it. *)
Definition parse_json (s : string) : option json :=
  match parse_value (2 * String.length s + 2) 0 s with
  | Some (v, rest) => if String.eqb (skip_space rest) "" then Some v else None
  | None => None
  end.

Example parse_example :
  parse_json (String "010" ("{" +:+ dquote +:+ "a" +:+ dquote +:+ " : [1.5e+3, true,null,{}] }")) =
  Some (JObj [("a", JArr [JNum "1.5e+3"; JBool true; JNull; JObj []])]).
Proof. by vm_compute. Qed.
Example parse_reject : parse_json "[01]" = None /\ parse_json "[1,]" = None.
Proof. by vm_compute. Qed.

(** [strconv.ParseFloat(lit, 64)] fails on a literal that rounds to an infinity:
    its magnitude is at least [2^1024 - 2^970]. *)
Fixpoint digits_value (acc : Z) (s : string) : Z :=
  match s with
  | String a s' => if digit a then digits_value (acc * 10 + Z.of_nat (byte a - 48)) s' else acc
  | EmptyString => acc
  end.
Definition exponent_value (s : string) : Z :=
  match s with
  | String e s1 =>
      if one_of "eE" e then
        match s1 with
        | String g s2 => if (byte g =? 45)%nat then - digits_value 0 s2
                         else if (byte g =? 43)%nat then digits_value 0 s2 else digits_value 0 s1
        | EmptyString => 0
        end
      else 0
  | EmptyString => 0
  end%Z.
Definition float_overflow (lit : string) : bool :=
  let unsigned := match lit with
                  | String a s => if byte a =? 45 then s else lit | EmptyString => lit end in
  let '(i, rest) := digits unsigned in
  let '(f, rest) := match rest with
                    | String p s => if byte p =? 46 then digits s else (EmptyString, rest)
                    | EmptyString => (EmptyString, rest) end in
  let m := digits_value 0 (i +:+ f) in
  let k := (exponent_value rest - Z.of_nat (String.length f))%Z in
  bool_decide ((2 ^ 1024 - 2 ^ 970) * 10 ^ Z.max 0 (- k) <= m * 10 ^ Z.max 0 k)%Z.

(** Decoding into [any] fails only on such a number. *)
Fixpoint decodable (v : json) : bool :=
  match v with
  | JNum lit => negb (float_overflow lit)
  | JArr l => forallb decodable l
  | JObj l => forallb (fun kv => decodable kv.2) l
  | _ => true
  end.

(** [json.Unmarshal(text, &m)] for a [map[string]any] succeeds. *)
Definition unmarshals_to_map (text : string) : bool :=
  match parse_json text with
  | Some (JObj l) => decodable (JObj l)
  | Some JNull => true
  | _ => false
  end.

(** ** Strings round-trip *)
Lemma append_cons a p q : String a p +:+ q = String a (p +:+ q).
Proof. done. Qed.
Lemma append_nil q : "" +:+ q = q.
Proof. done. Qed.
Lemma prepend_prepend p q r : prepend p (prepend q r) = prepend (p +:+ q) r.
Proof. destruct r as [[v rest]|]; simpl; [|done]. by rewrite string_app_assoc. Qed.

Definition wf_chunk (c : chunk) : bool :=
  match c with
  | CAscii a => byte a <? 128
  | CTwo a b => utf8_2 a b
  | CThree a b c => utf8_3 a b c
  | CFour a b c d => utf8_4 a b c d
  | CBad => true
  end.

Lemma chunks_wf s : Forall (fun c => wf_chunk c = true) (chunks s).
Proof.
  assert (forall n s, String.length s <= n -> Forall (fun c => wf_chunk c = true) (chunks s)) as H;
    [|by eapply H].
  clear s. induction n as [|n IH]; intros s Hn; destruct s as [|a s1]; simpl in *; try lia; try done.
  destruct (byte a <? 128) eqn:Ha; [constructor; [done|apply IH; lia]|].
  destruct s1 as [|b s2]; [by repeat constructor|].
  destruct (utf8_2 a b) eqn:H2; [constructor; [done|apply IH; simpl in *; lia]|].
  destruct s2 as [|c s3]; [constructor; [done|apply IH; simpl in *; lia]|].
  destruct (utf8_3 a b c) eqn:H3; [constructor; [done|apply IH; simpl in *; lia]|].
  destruct s3 as [|d s4]; [constructor; [done|apply IH; simpl in *; lia]|].
  destruct (utf8_4 a b c d) eqn:H4; constructor; try done; apply IH; simpl in *; lia.
Qed.

Lemma parse_string_plain a t :
  128 <= byte a -> parse_string (String a t) = prepend (String a EmptyString) (parse_string t).
Proof.
  intros Ha. simpl. destruct (Nat.eqb_spec (byte a) 34); [lia|].
  destruct (Nat.eqb_spec (byte a) 92); [lia|]. destruct (Nat.ltb_spec (byte a) 32); [lia|done].
Qed.

Lemma cont_high a : cont a = true -> 128 <= byte a.
Proof. unfold cont, between. rewrite andb_true_iff, !Nat.leb_le. lia. Qed.
Lemma between_high lo hi a : 128 <= lo -> between lo hi a = true -> 128 <= byte a.
Proof. unfold between. rewrite andb_true_iff, !Nat.leb_le. lia. Qed.

Ltac high :=
  repeat match goal with
  | H : _ && _ = true |- _ => apply andb_true_iff in H as [? ?]
  | H : _ || _ = true |- _ => apply orb_true_iff in H as [?|?]
  | H : cont _ = true |- _ => apply cont_high in H
  | H : between _ _ _ = true |- _ => apply between_high in H; [|lia]
  end.

Lemma wf_two a b : utf8_2 a b = true -> 128 <= byte a /\ 128 <= byte b.
Proof. unfold utf8_2. intros H. high. done. Qed.
Lemma wf_three a b c :
  utf8_3 a b c = true -> 128 <= byte a /\ 128 <= byte b /\ 128 <= byte c.
Proof. unfold utf8_3. intros H. high; split_and!; lia. Qed.
Lemma wf_four a b c d :
  utf8_4 a b c d = true -> 128 <= byte a /\ 128 <= byte b /\ 128 <= byte c /\ 128 <= byte d.
Proof. unfold utf8_4. intros H. high; split_and!; lia. Qed.

Lemma byte_inj a n : byte a = n -> a = ascii_of_nat n.
Proof. intros <-. by rewrite ascii_nat_embedding. Qed.

Lemma parse_escape_ascii a t :
  byte a <? 128 = true ->
  parse_string (escape_ascii a +:+ t) = prepend (String a EmptyString) (parse_string t).
Proof.
  destruct a as [[] [] [] [] [] [] [] []]; intros Ha; try (by vm_compute in Ha); reflexivity.
Qed.

Lemma parse_escape c t :
  wf_chunk c = true ->
  parse_string (escape_chunk c +:+ t) = prepend (chunk_bytes c) (parse_string t).
Proof.
  destruct c as [a|a b|a b c|a b c d|]; cbn [wf_chunk escape_chunk chunk_bytes].
  - apply parse_escape_ascii.
  - intros [Ha Hb]%wf_two. rewrite ?append_cons, ?append_nil.
    by rewrite !parse_string_plain, !prepend_prepend.
  - intros Hw. destruct (_ && _) eqn:Hsep.
    + apply andb_true_iff in Hsep as [Hab Hc]. apply andb_true_iff in Hab as [Ha Hb].
      apply Nat.eqb_eq, byte_inj in Ha as ->. apply Nat.eqb_eq, byte_inj in Hb as ->.
      apply orb_true_iff in Hc as [Hc|Hc]; apply Nat.eqb_eq, byte_inj in Hc as ->; reflexivity.
    + apply wf_three in Hw as (Ha & Hb & Hc). rewrite ?append_cons, ?append_nil.
      by rewrite !parse_string_plain, !prepend_prepend.
  - intros (Ha & Hb & Hc & Hd)%wf_four. rewrite ?append_cons, ?append_nil.
    by rewrite !parse_string_plain, !prepend_prepend.
  - reflexivity.
Qed.

Lemma parse_escapes cs t :
  Forall (fun c => wf_chunk c = true) cs ->
  parse_string (concat_strings (escape_chunk <$> cs) +:+ dquote +:+ t) =
  Some (concat_strings (chunk_bytes <$> cs), t).
Proof.
  induction 1 as [|c cs Hc _ IH]; [done|]. cbn [fmap list_fmap concat_strings foldr].
  rewrite string_app_assoc, parse_escape by done. unfold concat_strings in IH. by rewrite IH.
Qed.

(** The value of a marshalled string is the string with malformed UTF-8 replaced. *)
Lemma parse_marshal_string s t :
  parse_string (concat_strings (escape_chunk <$> chunks s) +:+ dquote +:+ t) =
  Some (to_valid_utf8 s, t).
Proof. apply parse_escapes, chunks_wf. Qed.

Lemma chunks_valid c cs t :
  wf_chunk c = true -> chunks t = cs ->
  chunks (chunk_bytes c +:+ t) =
  (match c with CBad => CThree "239" "191" "189" | _ => c end) :: cs.
Proof.
  destruct c as [a|a b|a b c|a b c d|]; cbn [wf_chunk chunk_bytes]; rewrite ?append_cons, ?append_nil; cbn [chunks];
    intros Hw <-.
  - by rewrite Hw.
  - destruct (wf_two a b Hw) as [Ha _]. destruct (Nat.ltb_spec (byte a) 128); [lia|].
    by rewrite Hw.
  - destruct (wf_three a b c Hw) as [Ha _]. destruct (Nat.ltb_spec (byte a) 128); [lia|].
    assert (utf8_2 a b = false) as ->; [|by rewrite Hw].
    apply not_true_iff_false. unfold utf8_2, utf8_3, between in *.
    intros [H1 _]%andb_true_iff. apply andb_true_iff in Hw as [Hw _].
    repeat setoid_rewrite orb_true_iff in Hw. repeat setoid_rewrite andb_true_iff in Hw.
    repeat setoid_rewrite Nat.leb_le in Hw. rewrite andb_true_iff, !Nat.leb_le in H1. lia.
  - destruct (wf_four a b c d Hw) as [Ha _]. destruct (Nat.ltb_spec (byte a) 128); [lia|].
    assert (240 <= byte a) as H240.
    { unfold utf8_4, between in Hw. apply andb_true_iff in Hw as [[Hw _]%andb_true_iff _].
      repeat setoid_rewrite orb_true_iff in Hw. repeat setoid_rewrite andb_true_iff in Hw.
      repeat setoid_rewrite Nat.leb_le in Hw. lia. }
    assert (utf8_2 a b = false) as ->.
    { apply not_true_iff_false. unfold utf8_2, between. rewrite !andb_true_iff, !Nat.leb_le. lia. }
    assert (utf8_3 a b c = false) as ->; [|by rewrite Hw].
    apply not_true_iff_false. unfold utf8_3, between. intros [H1 _]%andb_true_iff.
    repeat setoid_rewrite orb_true_iff in H1. repeat setoid_rewrite andb_true_iff in H1.
    repeat setoid_rewrite Nat.leb_le in H1. lia.
  - reflexivity.
Qed.

Lemma to_valid_idempotent s : to_valid_utf8 (to_valid_utf8 s) = to_valid_utf8 s.
Proof.
  unfold to_valid_utf8 at 1 2 3. pose proof (chunks_wf s) as Hwf.
  induction Hwf as [|c cs Hc _ IH]; [done|]. cbn [fmap list_fmap concat_strings foldr].
  rewrite (chunks_valid c _ _ Hc eq_refl). cbn [fmap list_fmap concat_strings foldr].
  unfold concat_strings in IH |- *. unfold fmap in IH |- *. rewrite IH. by destruct c.
Qed.

(** ** Values built of strings, arrays and objects round-trip *)
Fixpoint plain (v : json) : bool :=
  match v with
  | JStr _ => true
  | JArr l => forallb plain l
  | JObj l => forallb (fun kv => plain kv.2) l
  | _ => false
  end.
Fixpoint sanitize (v : json) : json :=
  match v with
  | JStr s => JStr (to_valid_utf8 s)
  | JArr l => JArr (map sanitize l)
  | JObj l => JObj (map (fun kv => (to_valid_utf8 kv.1, sanitize kv.2)) l)
  | _ => v
  end.
Fixpoint height (v : json) : nat :=
  match v with
  | JArr l => S (list_max (map height l))
  | JObj l => S (list_max (map (fun kv => height kv.2) l))
  | _ => 0
  end.
(** Fuel that suffices. *)
Fixpoint need (v : json) : nat :=
  match v with
  | JArr l => S (list_sum (map (fun v => S (need v)) l))
  | JObj l => S (list_sum (map (fun kv => S (need kv.2)) l))
  | _ => 1
  end.

Section json_ind.
Context (P : json -> Prop).
Context (HStr : forall s, P (JStr s)) (HArr : forall l, Forall P l -> P (JArr l))
  (HObj : forall l, Forall (fun kv => P kv.2) l -> P (JObj l))
  (HNull : P JNull) (HBool : forall b, P (JBool b)) (HNum : forall s, P (JNum s)).
Fixpoint json_induction (v : json) : P v :=
  match v with
  | JNull => HNull
  | JBool b => HBool b
  | JNum s => HNum s
  | JStr s => HStr s
  | JArr l => HArr l ((fix go l := match l return Forall P l with
                       | [] => Forall_nil_2 _
                       | v :: l => Forall_cons_2 _ _ _ (json_induction v) (go l) end) l)
  | JObj l => HObj l ((fix go l := match l return Forall (fun kv => P kv.2) l with
                       | [] => Forall_nil_2 _
                       | kv :: l => Forall_cons_2 _ _ _ (json_induction kv.2) (go l) end) l)
  end.
End json_ind.

Lemma marshal_head v :
  plain v = true ->
  exists a r, marshal v = String a r /\ (byte a = 34 \/ byte a = 91 \/ byte a = 123).
Proof.
  destruct v as [| | |s|l|l]; try done; intros _;
    [exists "034"%char|exists "["%char|exists "{"%char]; eexists; (split; [reflexivity|auto]).
Qed.

Lemma skip_space_marshal v t : plain v = true -> skip_space (marshal v +:+ t) = marshal v +:+ t.
Proof.
  intros (a & r & -> & Ha)%marshal_head. rewrite append_cons. simpl.
  by destruct Ha as [->|[->| ->]].
Qed.

Lemma Join_cons w l : Join (w :: l) "," = w +:+ match l with [] => "" | _ => "," +:+ Join l "," end.
Proof. destruct l as [|x l]; [|done]. simpl. induction w as [|a w IH]; [done|]. by rewrite append_cons, <-IH. Qed.

Definition marshal_member (kv : string * json) : string :=
  marshal_string kv.1 +:+ ":" +:+ marshal kv.2.
Definition sanitize_member (kv : string * json) : string * json :=
  (to_valid_utf8 kv.1, sanitize kv.2).

Lemma skip_space_quote t : skip_space (String "034" t) = String "034" t.
Proof. done. Qed.

(** What the induction hypothesis provides for an element. *)
Definition parses (v : json) : Prop := forall fuel depth t,
  plain v = true -> need v <= fuel -> depth + height v <= maxNestingDepth ->
  parse_value fuel depth (marshal v +:+ t) = Some (sanitize v, t).

Lemma parse_elements_marshal v l fuel depth t :
  Forall parses (v :: l) -> forallb plain (v :: l) = true ->
  list_sum (map (fun v => S (need v)) (v :: l)) <= fuel ->
  depth + list_max (map height (v :: l)) <= maxNestingDepth ->
  parse_elements fuel depth (Join (map marshal (v :: l)) "," +:+ "]" +:+ t) =
  Some (map sanitize (v :: l), t).
Proof.
  revert v fuel; induction l as [|w l IH]; intros v fuel Hf Hp Hn Hd;
    apply Forall_cons in Hf as [Hv Hf]; cbn [forallb] in Hp;
    apply andb_true_iff in Hp as [Hpv Hp]; destruct fuel as [|fuel]; simpl in Hn; try lia;
    cbn [map list_max foldr fold_right] in Hd; cbn [map]; rewrite Join_cons;
    cbn [map]; rewrite string_app_assoc; cbn [parse_elements].
  - rewrite Hv by (done || lia). reflexivity.
  - rewrite Hv by (done || lia). rewrite ?string_app_assoc, append_cons, append_nil.
    cbn [skip_space]. change (byte ",") with 44. cbn [Nat.eqb orb].
    change (marshal w :: map marshal l) with (map marshal (w :: l)).
    rewrite (IH w) by (first [done|cbn [map list_max foldr fold_right]; simpl; lia]). done.
Qed.

Lemma parse_members_marshal kv l fuel depth t :
  Forall (fun kv => parses kv.2) (kv :: l) ->
  forallb (fun kv => plain kv.2) (kv :: l) = true ->
  list_sum (map (fun kv => S (need kv.2)) (kv :: l)) <= fuel ->
  depth + list_max (map (fun kv => height kv.2) (kv :: l)) <= maxNestingDepth ->
  parse_members fuel depth (Join (map marshal_member (kv :: l)) "," +:+ "}" +:+ t) =
  Some (map sanitize_member (kv :: l), t).
Proof.
  revert kv fuel; induction l as [|kw l IH]; intros kv fuel Hf Hp Hn Hd;
    apply Forall_cons in Hf as [Hv Hf]; cbn [forallb] in Hp;
    apply andb_true_iff in Hp as [Hpv Hp]; destruct fuel as [|fuel]; simpl in Hn; try lia;
    cbn [map list_max foldr fold_right] in Hd; cbn [map]; rewrite Join_cons;
    unfold marshal_member at 1; unfold marshal_string; rewrite !string_app_assoc;
    cbn [parse_members]; unfold dquote at 1; rewrite append_cons, append_nil;
    rewrite skip_space_quote; change (negb (byte "034" =? 34)) with false; cbv iota;
    rewrite parse_marshal_string, to_valid_idempotent; rewrite append_cons, append_nil; cbn [skip_space];
    change (byte ":") with 58; cbn [Nat.eqb orb]; cbn [map].
  - rewrite Hv by (done || lia). reflexivity.
  - rewrite Hv by (done || lia). rewrite ?string_app_assoc, append_cons, append_nil.
    cbn [skip_space]. change (byte ",") with 44. cbn [Nat.eqb orb].
    change (marshal_member kw :: map marshal_member l) with (map marshal_member (kw :: l)).
    rewrite (IH kw) by (first [done|cbn [map list_max foldr fold_right]; simpl; lia]). done.
Qed.

Lemma length_app s t : String.length (s +:+ t) = String.length s + String.length t.
Proof. induction s as [|a s IH]; [done|]. rewrite append_cons. simpl. by rewrite IH. Qed.

Lemma need_elements l :
  Forall (fun v => need v <= String.length (marshal v)) l ->
  list_sum (map (fun v => S (need v)) l) <= S (String.length (Join (map marshal l) ",")).
Proof.
  induction 1 as [|v l Hv _ IH]; [simpl; lia|]. cbn [map]. rewrite Join_cons, length_app.
  destruct l as [|w l]; [simpl; lia|]. cbn [map list_sum foldr fold_right] in *.
  rewrite append_cons, append_nil. cbn [String.length]. lia.
Qed.
Lemma need_members l :
  Forall (fun kv => need kv.2 <= String.length (marshal kv.2)) l ->
  list_sum (map (fun kv => S (need kv.2)) l) <=
  S (String.length (Join (map marshal_member l) ",")).
Proof.
  induction 1 as [|kv l Hv _ IH]; [simpl; lia|]. cbn [map]. rewrite Join_cons, length_app.
  unfold marshal_member at 1. rewrite !length_app.
  destruct l as [|kw l]; [simpl; lia|]. cbn [map list_sum foldr fold_right] in *.
  rewrite append_cons, append_nil. cbn [String.length]. lia.
Qed.

Lemma need_length v : plain v = true -> need v <= String.length (marshal v).
Proof.
  induction v as [s|l IH|l IH| | |] using json_induction; try done; intros Hp.
  - cbn [need marshal]. unfold marshal_string. rewrite !length_app. simpl. lia.
  - cbn [need marshal]. rewrite !length_app. pose proof (need_elements l) as Hn.
    simpl. apply le_n_S. etrans; [apply Hn|simpl; lia].
    rewrite Forall_forall in *. intros v Hv. apply IH; [done|].
    simpl in Hp. rewrite forallb_forall in Hp. by apply Hp, list_elem_of_In.
  - cbn [need marshal]. rewrite !length_app. pose proof (need_members l) as Hn.
    simpl. apply le_n_S. etrans; [apply Hn|unfold marshal_member; simpl; lia].
    rewrite Forall_forall in *. intros v Hv. apply IH; [done|].
    simpl in Hp. rewrite forallb_forall in Hp. by apply Hp, list_elem_of_In.
Qed.

(** The three heads of a plain value. *)
Definition heads_with (s : string) (c : ascii) : Prop := exists r, skip_space s = String c r.

Lemma parse_value_string fuel depth s :
  parse_value (S fuel) depth (String "034" s) =
  match parse_string s with
  | Some (v, rest) => Some (JStr (to_valid_utf8 v), rest) | None => None end.
Proof. done. Qed.

Lemma parse_value_array fuel depth s c :
  depth < maxNestingDepth -> heads_with s c -> byte c <> 93 ->
  parse_value (S fuel) depth (String "[" s) =
  match parse_elements fuel (S depth) s with
  | Some (l, rest) => Some (JArr l, rest) | None => None end.
Proof.
  intros Hd [r Hr] Hc. apply Nat.leb_gt in Hd.
  transitivity (if maxNestingDepth <=? depth then None
    else match skip_space s with
         | String "]" rest => Some (JArr [], rest)
         | _ => match parse_elements fuel (S depth) s with
                | Some (l, rest) => Some (JArr l, rest) | None => None end
         end); [done|].
  rewrite Hd, Hr. destruct c as [[] [] [] [] [] [] [] []]; try reflexivity. by destruct Hc.
Qed.

Lemma parse_value_object fuel depth s c :
  depth < maxNestingDepth -> heads_with s c -> byte c <> 125 ->
  parse_value (S fuel) depth (String "{" s) =
  match parse_members fuel (S depth) s with
  | Some (l, rest) => Some (JObj l, rest) | None => None end.
Proof.
  intros Hd [r Hr] Hc. apply Nat.leb_gt in Hd.
  transitivity (if maxNestingDepth <=? depth then None
    else match skip_space s with
         | String "}" rest => Some (JObj [], rest)
         | _ => match parse_members fuel (S depth) s with
                | Some (l, rest) => Some (JObj l, rest) | None => None end
         end); [done|].
  rewrite Hd, Hr. destruct c as [[] [] [] [] [] [] [] []]; try reflexivity. by destruct Hc.
Qed.

Lemma parse_value_empty fuel depth t :
  depth < maxNestingDepth ->
  parse_value (S fuel) depth (String "[" (String "]" t)) = Some (JArr [], t) /\
  parse_value (S fuel) depth (String "{" (String "}" t)) = Some (JObj [], t).
Proof.
  intros Hd. apply Nat.leb_gt in Hd.
  split.
  - transitivity (if maxNestingDepth <=? depth then None else Some (JArr [], t)); [done|].
    by rewrite Hd.
  - transitivity (if maxNestingDepth <=? depth then None else Some (JObj [], t)); [done|].
    by rewrite Hd.
Qed.

Lemma elements_head v l t : plain v = true ->
  exists c, heads_with (Join (map marshal (v :: l)) "," +:+ t) c /\ byte c <> 93.
Proof.
  intros Hp. cbn [map]. rewrite Join_cons, string_app_assoc. unfold heads_with.
  rewrite skip_space_marshal by done. apply marshal_head in Hp as (a & r & -> & Ha).
  exists a. rewrite append_cons. split; [by eexists|lia].
Qed.

Lemma parses_plain v : parses v.
Proof.
  induction v as [s|l IH|l IH| | |] using json_induction; intros fuel depth t Hp Hn Hd;
    try done; (destruct fuel as [|fuel]; [simpl in Hn; lia|]); cbn [marshal].
  - unfold marshal_string. rewrite !string_app_assoc. unfold dquote at 1.
    rewrite append_cons, append_nil, parse_value_string.
    by rewrite parse_marshal_string, to_valid_idempotent.
  - rewrite !string_app_assoc, append_cons, append_nil. simpl in Hd.
    destruct l as [|v l]; [by apply parse_value_empty; lia|].
    simpl in Hp. apply andb_true_iff in Hp as Hp'. destruct Hp' as [Hpv _].
    destruct (elements_head v l ("]" +:+ t) Hpv) as (c & Hc & Hne).
    rewrite (parse_value_array _ _ _ c) by (done || lia).
    rewrite parse_elements_marshal; [done|done|done|simpl in *; lia|simpl in *; lia].
  - rewrite !string_app_assoc, append_cons, append_nil. simpl in Hd.
    destruct l as [|v l]; [by apply parse_value_empty; lia|].
    fold marshal_member. change (fun kv : string * json => _) with marshal_member.
    rewrite (parse_value_object _ _ _ "034"); [|lia| |done].
    + rewrite parse_members_marshal; [done|done|done|simpl in *; lia|simpl in *; lia].
    + cbn [map]. rewrite Join_cons. unfold marshal_member at 1, marshal_string, dquote at 1.
      rewrite !string_app_assoc, append_cons. by eexists.
Qed.

(** Decoding an encoded value gives it back, up to malformed UTF-8. *)
Lemma parse_marshal v :
  plain v = true -> height v <= maxNestingDepth -> parse_json (marshal v) = Some (sanitize v).
Proof.
  intros Hp Hh. unfold parse_json. pose proof (need_length v Hp) as Hn.
  pose proof (parses_plain v (2 * String.length (marshal v) + 2) 0 "" Hp) as H.
  assert (marshal v +:+ "" = marshal v) as Happ.
  { generalize (marshal v). intros s. induction s as [|a s IH]; [done|].
    by rewrite append_cons, IH. }
  rewrite Happ in H. rewrite H by lia. done.
Qed.
