(* ===== verification/IamPolicy.v ===== *)
(** * IAM policy documents (internal/controller/iam_policy.go)

    The JSON document an S3Policy resolves to, and what the policy engine reads
    back out of it. *)
From S2P Require Import Prelude CoreTypes ApiTypes Json.

Definition policyDocumentVersion : string := "2012-10-17".
Definition s3ARNPrefix : string := "arn:aws:s3:::".

Record policyStatement := {
  Sid : string;
  Effect : string;
  Action : list string;
  Resource : list string;
}.
Record policyDocument := {
  Version : string;
  Statement : list policyStatement;
}.

(** [json.Marshal] of the two structs: field names from the tags, [Sid] left out
    when empty. *)
Definition json_strings (l : list string) : json := JArr (map JStr l).
Definition statement_json (st : policyStatement) : json :=
  JObj ((if bool_decide (Sid st = "") then [] else [("Sid", JStr (Sid st))]) ++
        [("Effect", JStr (Effect st)); ("Action", json_strings (Action st));
         ("Resource", json_strings (Resource st))]).
Definition document_json (d : policyDocument) : json :=
  JObj [("Version", JStr (Version d)); ("Statement", JArr (map statement_json (Statement d)))].

Definition normalizeActions (actions : list string) : list string :=
  map (fun a => if bool_decide (a = "*") then "s3:*" else a) actions.

Definition expandResources (resources : list string) : list string :=
  map (fun r => if bool_decide (r = "*") then "*"
                else if HasPrefix r "arn:" then r
                else s3ARNPrefix +:+ r) resources.

(** The text of a [json.Unmarshal] error. *)
Class JsonErrors := { unmarshal_error : string -> string }.

Section build.
Context `{JsonErrors}.

Fixpoint build_statements (i : Z) (sts : list S3PolicyStatement)
    : result (list policyStatement) :=
  match sts with
  | [] => Ok []
  | st :: rest =>
      if bool_decide (stm_Actions st = [])
      then Err (ErrOther ("statement " +:+ fmt_d i +:+ " has no actions"))
      else if bool_decide (stm_Resources st = [])
      then Err (ErrOther ("statement " +:+ fmt_d i +:+ " has no resources"))
      else
        match build_statements (i + 1) rest with
        | inl e => Err e
        | inr out => Ok ({| Sid := stm_Sid st; Effect := stm_Effect st;
                            Action := normalizeActions (stm_Actions st);
                            Resource := expandResources (stm_Resources st) |} :: out)
        end
  end.

Definition buildPolicyDocument (spec : S3PolicySpec) : result string :=
  if negb (bool_decide (TrimSpace (polspec_PolicyDocument spec) = "")) then
    if unmarshals_to_map (polspec_PolicyDocument spec)
    then Ok (polspec_PolicyDocument spec)
    else Err (ErrOther ("policyDocument is not valid JSON: " +:+
                        unmarshal_error (polspec_PolicyDocument spec)))
  else if bool_decide (polspec_Statements spec = [])
  then Err (ErrOther "policy has neither statements nor policyDocument")
  else
    match build_statements 0 (polspec_Statements spec) with
    | inl e => Err e
    | inr sts => Ok (marshal (document_json {| Version := policyDocumentVersion;
                                               Statement := sts |}))
    end.
End build.

(** ** Reading a document back *)
Definition read_string (v : json) : option string :=
  match v with JStr s => Some s | _ => None end.
Definition read_strings (v : json) : option (list string) :=
  match v with JArr l => mapM read_string l | _ => None end.
Definition field (l : list (string * json)) (k : string) : option json :=
  snd <$> List.find (fun kv => String.eqb kv.1 k) l.
Definition read_statement (v : json) : option policyStatement :=
  match v with
  | JObj l =>
      eff ← field l "Effect" ≫= read_string;
      act ← field l "Action" ≫= read_strings;
      res ← field l "Resource" ≫= read_strings;
      Some {| Sid := default "" (field l "Sid" ≫= read_string); Effect := eff;
              Action := act; Resource := res |}
  | _ => None
  end.
Definition read_document (text : string) : option policyDocument :=
  match parse_json text with
  | Some (JObj l) =>
      ver ← field l "Version" ≫= read_string;
      sts ← (match field l "Statement" with Some (JArr sts) => mapM read_statement sts
             | _ => None end);
      Some {| Version := ver; Statement := sts |}
  | _ => None
  end.

Definition valid_statement (st : policyStatement) : policyStatement :=
  {| Sid := to_valid_utf8 (Sid st); Effect := to_valid_utf8 (Effect st);
     Action := map to_valid_utf8 (Action st); Resource := map to_valid_utf8 (Resource st) |}.

(** ** Lemmas *)
Lemma plain_strings l : plain (json_strings l) = true.
Proof. simpl. induction l as [|s l IH]; [done|]. by simpl. Qed.
Lemma plain_statement st : plain (statement_json st) = true.
Proof.
  unfold statement_json. pose proof (plain_strings (Action st)). pose proof (plain_strings (Resource st)).
  case_bool_decide; simpl in *; by rewrite H, H0.
Qed.
Lemma plain_document d : plain (document_json d) = true.
Proof.
  simpl. rewrite andb_true_r. induction (Statement d) as [|st l IH]; [done|].
  cbn [map forallb]. by rewrite plain_statement.
Qed.

Lemma height_strings l : height (json_strings l) <= 1.
Proof. simpl. apply le_n_S. induction l as [|s l IH]; simpl; [done|]. done. Qed.
Lemma height_statement st : height (statement_json st) <= 2.
Proof.
  unfold statement_json. pose proof (height_strings (Action st)).
  pose proof (height_strings (Resource st)).
  case_bool_decide; simpl in *; lia.
Qed.
Lemma height_document d : height (document_json d) <= 4.
Proof.
  cbn [document_json height map list_max foldr fold_right snd].
  assert (list_max (map height (map statement_json (Statement d))) <= 2); [|lia].
  induction (Statement d) as [|st l IH]; [simpl; lia|].
  cbn [map list_max foldr fold_right]. pose proof (height_statement st). unfold list_max in IH. lia.
Qed.

Lemma document_parses d :
  parse_json (marshal (document_json d)) = Some (sanitize (document_json d)).
Proof.
  apply parse_marshal; [apply plain_document|].
  etrans; [apply height_document|]. apply Nat.leb_le. by vm_compute.
Qed.

Lemma read_strings_spec l :
  read_strings (sanitize (json_strings l)) = Some (map to_valid_utf8 l).
Proof.
  simpl. induction l as [|s l IH]; [done|]. simpl in *. by rewrite IH.
Qed.

Lemma read_statement_spec st :
  read_statement (sanitize (statement_json st)) = Some (valid_statement st).
Proof.
  unfold statement_json, valid_statement. pose proof (read_strings_spec (Action st)) as Ha.
  pose proof (read_strings_spec (Resource st)) as Hr.
  case_bool_decide as Hs; cbn [app sanitize map fst snd read_statement];
    change (to_valid_utf8 "Sid") with "Sid"; change (to_valid_utf8 "Effect") with "Effect";
    change (to_valid_utf8 "Action") with "Action";
    change (to_valid_utf8 "Resource") with "Resource";
    revert Ha Hr; generalize (sanitize (json_strings (Action st)));
    generalize (sanitize (json_strings (Resource st))); intros r a Ha Hr;
    cbn -[read_strings to_valid_utf8]; rewrite Ha; cbn -[read_strings to_valid_utf8];
    rewrite Hr; [by rewrite Hs|done].
Qed.

Lemma read_document_spec d :
  read_document (marshal (document_json d)) =
  Some {| Version := to_valid_utf8 (Version d); Statement := map valid_statement (Statement d) |}.
Proof.
  unfold read_document. rewrite document_parses. destruct d as [v sts].
  cbn [document_json sanitize map Version Statement fst snd].
  change (to_valid_utf8 "Version") with "Version".
  change (to_valid_utf8 "Statement") with "Statement".
  cbn -[read_statement sanitize statement_json to_valid_utf8 mapM].
  assert (mapM read_statement (map sanitize (map statement_json sts)) =
          Some (map valid_statement sts)) as ->; [|done].
  apply mapM_Some. induction sts as [|st l IH]; constructor; [apply read_statement_spec|done].
Qed.

Lemma build_statements_spec `{JsonErrors} i sts :
  match build_statements i sts with
  | inr out =>
      (forall st, st ∈ sts -> stm_Actions st <> [] /\ stm_Resources st <> []) /\
      out = map (fun st => {| Sid := stm_Sid st; Effect := stm_Effect st;
                              Action := normalizeActions (stm_Actions st);
                              Resource := expandResources (stm_Resources st) |}) sts
  | inl _ => exists st, st ∈ sts /\ (stm_Actions st = [] \/ stm_Resources st = [])
  end.
Proof.
  revert i; induction sts as [|st sts IH]; intros i; simpl; [split; [set_solver|done]|].
  case_bool_decide as Ha; [exists st; set_solver|].
  case_bool_decide as Hr; [exists st; set_solver|].
  specialize (IH (i + 1)%Z). destruct (build_statements _ sts) as [e|out].
  - destruct IH as (st' & ? & ?). exists st'. set_solver.
  - destruct IH as [IH ->]. split; [|done]. intros st' [->|?]%elem_of_cons; [done|by apply IH].
Qed.

(** The statement the policy engine reads for a statement of the spec. *)
Definition engine_statement (st : S3PolicyStatement) : policyStatement :=
  valid_statement {| Sid := stm_Sid st; Effect := stm_Effect st;
                     Action := normalizeActions (stm_Actions st);
                     Resource := expandResources (stm_Resources st) |}.

Lemma plain_decodable v : plain v = true -> decodable (sanitize v) = true.
Proof.
  induction v as [s|l IH|l IH| | |] using json_induction; try done; simpl; intros Hp.
  - induction IH as [|v l Hv _ IHl]; [done|]. simpl in *.
    apply andb_true_iff in Hp as [? ?]. rewrite Hv by done. by apply IHl.
  - induction IH as [|v l Hv _ IHl]; [done|]. simpl in *.
    apply andb_true_iff in Hp as [? ?]. rewrite Hv by done. by apply IHl.
Qed.

(** C14. [buildPolicyDocument] hands the IAM service a well-formed document or
    fails.  An explicit document is passed on verbatim exactly when it decodes
    as a JSON object.  Otherwise the result is an error exactly when there are
    no statements or some statement has no actions or no resources; and when it
    is a text, decoding that text gives back the statements in order, each with
    the sid, effect, normalised actions and expanded resources of the spec: no
    string of the spec, whatever characters it contains, can change the
    structure of the document. *)
Theorem buildPolicyDocument_roundtrip `{JsonErrors} spec :
  (TrimSpace (polspec_PolicyDocument spec) <> "" ->
     (unmarshals_to_map (polspec_PolicyDocument spec) = true ->
        buildPolicyDocument spec = Ok (polspec_PolicyDocument spec)) /\
     (unmarshals_to_map (polspec_PolicyDocument spec) = false ->
        exists e, buildPolicyDocument spec = Err e)) /\
  (TrimSpace (polspec_PolicyDocument spec) = "" ->
     match buildPolicyDocument spec with
     | inl _ => polspec_Statements spec = [] \/
                exists st, st ∈ polspec_Statements spec /\
                           (stm_Actions st = [] \/ stm_Resources st = [])
     | inr text =>
         polspec_Statements spec <> [] /\
         (forall st, st ∈ polspec_Statements spec ->
            stm_Actions st <> [] /\ stm_Resources st <> []) /\
         unmarshals_to_map text = true /\
         read_document text =
           Some {| Version := policyDocumentVersion;
                   Statement := map engine_statement (polspec_Statements spec) |}
     end).
Proof.
  split; intros Hdoc; unfold buildPolicyDocument.
  - rewrite bool_decide_false by done. simpl. split; intros ->; [done|by eexists].
  - rewrite bool_decide_true by done. cbn [negb]. case_bool_decide as Hs; [by left|].
    pose proof (build_statements_spec 0 (polspec_Statements spec)) as Hb.
    destruct (build_statements 0 _) as [e|out]; [by right|]. destruct Hb as [Hne ->].
    split; [done|]. split; [done|]. split.
    + unfold unmarshals_to_map. rewrite document_parses.
      set (d := {| Version := _; Statement := _ |}).
      pose proof (plain_decodable (document_json d) (plain_document d)) as Hok. exact Hok.
    + rewrite read_document_spec. simpl. by rewrite map_map.
Qed.

Definition sample_spec : S3PolicySpec := {|
  polspec_SeaweedRef := {| ref_Name := "sw"; ref_Namespace := "" |};
  polspec_Name := ""; polspec_ReclaimPolicy := ""; polspec_PolicyDocument := " ";
  polspec_Statements :=
    [{| stm_Sid := ""; stm_Effect := "Allow"; stm_Actions := ["*"; "s3:GetObject"];
        stm_Resources := ["b/" +:+ dquote +:+ "}]"; "arn:aws:s3:::x"] |}] |}.
#[export] Instance sample_json_errors : JsonErrors := {| unmarshal_error _ := "invalid" |}.

Lemma buildPolicyDocument_roundtrip_witness :
  exists text, buildPolicyDocument sample_spec = Ok text /\
    read_document text = Some {| Version := "2012-10-17"; Statement :=
      [{| Sid := ""; Effect := "Allow"; Action := ["s3:*"; "s3:GetObject"];
          Resource := ["arn:aws:s3:::b/" +:+ dquote +:+ "}]"; "arn:aws:s3:::x"] |}] |}.
Proof.
  destruct (buildPolicyDocument sample_spec) as [e|text] eqn:Hb; [by vm_compute in Hb|].
  exists text. split; [done|].
  destruct (buildPolicyDocument_roundtrip sample_spec) as [_ H].
  rewrite Hb in H. destruct H as (_ & _ & _ & ->); by vm_compute.
Defined.
