(* ===== verification/PolicyController.v ===== *)
(** * The S3Policy controller (internal/controller/s3policy_controller.go) *)
From S2P Require Import Prelude Prog CoreTypes ApiTypes Effects Machinery Sim Trace RefGrant.
From S2P Require Import Cluster.
From S2P Require Import NameClaim IamCommon IamSpec IamPolicy.

Section controller.
Context `{ApiMachinery} `{Digest} `{JsonErrors}.

Definition fail (policy : S3Policy) (reason message : string) : op outcome :=
  let policy := io_setPhase S3PhaseFailed policy in
  let policy := setCond policy S3ConditionReady ConditionFalse reason message in
  check kube (KStatusUpdate KS3Policy policy) catch err => Ret (Done noResult (Some err));
  Ret (Done (requeueIn requeueAfterTransient) None).

Definition refForbidden (policy : S3Policy) (message : string) : op outcome :=
  let policy := setCond policy S3ConditionReferenceGranted ConditionFalse
                  "ReferenceGrantMissing" message in
  let policy := io_setPhase S3PhasePending policy in
  check kube (KStatusUpdate KS3Policy policy) catch err => Ret (Done noResult (Some err));
  Ret (Done (requeueIn requeueAfterTransient) None).

Definition clusterNotFound (policy : S3Policy) : op outcome :=
  let policy := setCond policy S3ConditionClusterReachable ConditionFalse
                  "ClusterRefNotFound"
                  ("Seaweed " +:+ fmt_q (ref_Name (polspec_SeaweedRef (pol_Spec policy))) +:+
                   " not found") in
  let policy := io_setPhase S3PhasePending policy in
  do _ <- kube (KStatusUpdate KS3Policy policy);
  Ret (Done (requeueIn requeueAfterTransient) None).

Definition handleDeletion (policy : S3Policy) (name : string) (target : filerTarget)
    : op outcome :=
  if negb (hasFinalizer policy s3PolicyFinalizer) then Ret (Done noResult None)
  else
    let policy := io_setPhase S3PhaseTerminating policy in
    try claimants <- policyClaimants policy name
      catch err => Ret (Done noResult (Some err));
    do failed <-
      (if negb (bool_decide (polspec_ReclaimPolicy (pol_Spec policy) = S3ReclaimRetain)) &&
          (length claimants =? 0)
       then
         do r <- iam target (DeletePolicy name);
         match r with
         | Some err =>
             if negb (errors_Is err ErrIAMNotFound)
             then
               let policy := setCond policy S3ConditionReady ConditionFalse "DeleteFailed"
                               (error_string err) in
               do _ <- kube (KStatusUpdate KS3Policy policy);
               Ret (Some err)
             else Ret None
         | None => Ret None
         end
       else Ret None);
    match failed with
    | Some err => Ret (Done noResult (Some err))
    | None =>
        let policy := removeFinalizer policy s3PolicyFinalizer in
        check kube (KUpdate KS3Policy policy) catch err => Ret (Done noResult (Some err));
        Ret (Done noResult None)
    end.

(** The head of Reconcile, up to the target. *)
Definition admission (policy : S3Policy) (name : string) : segment opE outcome S3Policy :=
  if live (pol_Meta policy) then
    let ref := polspec_SeaweedRef (pol_Spec policy) in
    let ns := Namespace (pol_Meta policy) in
    do r <- seaweedRefPermitted ref kindS3Policy ns;
    match r with
    | inl err => Ret (inl (Done noResult (Some err)))
    | inr permitted =>
        if negb permitted
        then do o <- refForbidden policy (seaweedRefDeniedMessage ref kindS3Policy ns);
             Ret (inl o)
        else
          let policy := clearCond policy S3ConditionReferenceGranted in
          do r <- policyConflict policy name;
          match r with
          | inl err => Ret (inl (Done noResult (Some err)))
          | inr (Some owner) =>
              do o <- fail policy "Conflict"
                ("IAM policy " +:+ fmt_q name +:+ " on Seaweed " +:+ seaweedRefKey ref ns +:+
                 " is already managed by S3Policy " +:+ Namespace (pol_Meta owner) +:+ "/" +:+
                 Name (pol_Meta owner));
              Ret (inl o)
          | inr None => Ret (inr policy)
          end
    end
  else Ret (inr policy).

Definition recordReady (policy : S3Policy) (name : string) : S3Policy :=
  let policy := {|
    pol_Meta := pol_Meta policy; pol_Spec := pol_Spec policy;
    pol_Status := {| polst_ObservedGeneration := Generation (pol_Meta policy);
                     polst_Phase := S3PhaseReady;
                     polst_Conditions := polst_Conditions (pol_Status policy);
                     polst_PolicyName := name |} |} in
  setCond policy S3ConditionReady ConditionTrue "Reconciled" "".

Definition Reconcile (req : NamespacedName) : op outcome :=
  try policy <- kube (KGet KS3Policy req)
    catch err => Ret (Done noResult (IgnoreNotFound err));
  let name := if bool_decide (polspec_Name (pol_Spec policy) = "")
              then Name (pol_Meta policy) else polspec_Name (pol_Spec policy) in
  let provisioned := polst_PolicyName (pol_Status policy) in
  if negb (bool_decide (provisioned = "")) && negb (bool_decide (provisioned = name))
  then fail policy "PolicyRenameNotSupported"
         ("policy name change from " +:+ fmt_q provisioned +:+ " to " +:+ fmt_q name +:+
          " is not supported; restore the original name or recreate the resource")
  else
    do admitted <- admission policy name;
    match admitted with
    | inl o => Ret o
    | inr policy =>
        do r <- resolveSeaweedFiler (polspec_SeaweedRef (pol_Spec policy))
                  (Namespace (pol_Meta policy));
        match r with
        | inl err => Ret (Done noResult (Some err))
        | inr None => clusterNotFound policy
        | inr (Some target) =>
            let policy := setCond policy S3ConditionClusterReachable ConditionTrue
                            "Reachable" "" in
            check getIAMAdmin target catch err => Ret (Done noResult (Some err));
            if negb (live (pol_Meta policy)) then handleDeletion policy name target
            else if negb (hasFinalizer policy s3PolicyFinalizer) then
              let policy := addFinalizer policy s3PolicyFinalizer in
              check kube (KUpdate KS3Policy policy)
              catch err => Ret (Done noResult (Some err));
              Ret (Done requeueNow None)
            else
              match buildPolicyDocument (pol_Spec policy) with
              | inl err => fail policy "InvalidPolicy" (error_string err)
              | inr document =>
                  check iam target (PutPolicy name document)
                  catch err => fail policy "PutFailed" (error_string err);
                  check kube (KStatusUpdate KS3Policy (recordReady policy name))
                  catch err => Ret (Done noResult (Some err));
                  Ret (Done (requeueIn iamResyncInterval) None)
              end
        end
    end.

Definition mapToNameClaimants (p : S3Policy) : op (list NamespacedName) :=
  try peers <- policyClaimants p (policyIAMName p) catch _ => Ret [];
  Ret (map (fun p => {| nn_Namespace := Namespace (pol_Meta p); nn_Name := Name (pol_Meta p) |})
         peers).

(** ** What the controller may do *)
Definition fetched (tr : trace) (req : NamespacedName) (p : S3Policy) : Prop :=
  saw_kube tr (KGet KS3Policy req) (Ok p).

Definition manages (tr : trace) (req : NamespacedName) (p : S3Policy) (name : string)
    (t : filerTarget) : Prop :=
  fetched tr req p /\ name = policyIAMName p /\
  (polst_PolicyName (pol_Status p) = "" \/ polst_PolicyName (pol_Status p) = name) /\
  resolved tr (polspec_SeaweedRef (pol_Spec p)) (Namespace (pol_Meta p)) t.

Definition may_write (tr : trace) (req : NamespacedName) (t : filerTarget)
    (name document : string) : Prop :=
  exists p, manages tr req p name t /\ live (pol_Meta p) = true /\
    hasFinalizer p s3PolicyFinalizer = true /\
    seaweed_granted tr (polspec_SeaweedRef (pol_Spec p)) kindS3Policy (Namespace (pol_Meta p)) /\
    unconflicted tr KS3Policy p name /\ buildPolicyDocument (pol_Spec p) = Ok document.

Definition no_claimant (tr : trace) (p : S3Policy) (name : string) : Prop :=
  exists items, saw_kube tr (KList KS3Policy None ∅) (Ok items) /\
    peers_of p name (claim_cluster p) items = [].

Definition may_delete (tr : trace) (req : NamespacedName) (t : filerTarget) (name : string)
    : Prop :=
  exists p, manages tr req p name t /\ live (pol_Meta p) = false /\
    hasFinalizer p s3PolicyFinalizer = true /\
    polspec_ReclaimPolicy (pol_Spec p) <> S3ReclaimRetain /\ no_claimant tr p name.

Definition released (tr : trace) (p : S3Policy) (name : string) : Prop :=
  polspec_ReclaimPolicy (pol_Spec p) = S3ReclaimRetain \/
  (exists items, saw_kube tr (KList KS3Policy None ∅) (Ok items) /\
     peers_of p name (claim_cluster p) items <> []) \/
  exists t r, saw tr (OIam t (DeletePolicy name)) r /\ (r = None \/ r = Some ErrIAMNotFound).

Definition finalizer_update (tr : trace) (req : NamespacedName) (o : S3Policy) : Prop :=
  exists p, fetched tr req p /\ pol_Spec o = pol_Spec p /\
    (live (pol_Meta p) = true /\
       pol_Meta o = with_finalizers (pol_Meta p)
                      (AddFinalizer (Finalizers (pol_Meta p)) s3PolicyFinalizer) \/
     live (pol_Meta p) = false /\
       pol_Meta o = with_finalizers (pol_Meta p)
                      (RemoveFinalizer (Finalizers (pol_Meta p)) s3PolicyFinalizer) /\
       released tr p (policyIAMName p)).

Definition status_update (tr : trace) (req : NamespacedName) (o : S3Policy) : Prop :=
  exists p, fetched tr req p /\ pol_Spec o = pol_Spec p /\ pol_Meta o = pol_Meta p.

Definition policy_guard (req : NamespacedName) : Guard := fun tr X e =>
  match e with
  | OKube (KGet _ _) | OKube (KList _ _ _) => True
  | OKube (KUpdate KS3Policy o) => finalizer_update tr req o
  | OKube (KStatusUpdate KS3Policy o) => status_update tr req o
  | OIam t (PutPolicy n d) => may_write tr req t n d
  | OIam t (DeletePolicy n) => may_delete tr req t n
  | OAdminFactory _ | ODialTLS _ _ _ => True
  | _ => False
  end.

Lemma policy_fetched_mono tr new req p : fetched tr req p -> fetched (tr ++ new) req p.
Proof. apply saw_app_l. Qed.
Lemma policy_manages_mono tr new req p name t :
  manages tr req p name t -> manages (tr ++ new) req p name t.
Proof.
  intros (? & ? & ? & ?). split_and!; [by apply policy_fetched_mono|done..|by apply resolved_mono].
Qed.
#[local] Hint Extern 2 (fetched (_ ++ _) _ _) => apply policy_fetched_mono : trace.
#[local] Hint Extern 2 (manages (_ ++ _) _ _ _ _) => apply policy_manages_mono : trace.

Lemma policy_guard_reads req : allows_reads (policy_guard req).
Proof. done. Qed.

Section safety.
Context (req : NamespacedName) (p : S3Policy).
Notation G := (policy_guard req).
Definition same (o : S3Policy) : Prop := pol_Meta o = pol_Meta p /\ pol_Spec o = pol_Spec p.

Lemma policy_peers_same o name items :
  same o -> peers_of o name (claim_cluster o) items = peers_of p name (claim_cluster p) items.
Proof.
  intros [Hm Hs]. destruct o as [m sp st], p as [m' sp' st']; simpl in *. by subst.
Qed.

Lemma policy_fail_swp o reason message tr :
  fetched tr req p -> same o -> swp G (fail o reason message) (fun _ _ => True) tr.
Proof.
  intros Hf [Hm Hs]. unfold fail. sx. split; [by exists p|]. by intros [e|].
Qed.

Lemma policy_refForbidden_swp o message tr :
  fetched tr req p -> same o -> swp G (refForbidden o message) (fun _ _ => True) tr.
Proof.
  intros Hf [Hm Hs]. unfold refForbidden. sx. split; [by exists p|]. by intros [e|].
Qed.

Lemma policy_clusterNotFound_swp o tr :
  fetched tr req p -> same o -> swp G (clusterNotFound o) (fun _ _ => True) tr.
Proof. intros Hf [Hm Hs]. unfold clusterNotFound. sx. split; [by exists p|done]. Qed.

Lemma policy_admission_swp o name tr :
  fetched tr req p -> same o ->
  swp G (admission o name)
    (fun r tr' => match r with
       | inl _ => True
       | inr o' => same o' /\ (live (pol_Meta p) = true ->
           seaweed_granted tr' (polspec_SeaweedRef (pol_Spec p)) kindS3Policy
             (Namespace (pol_Meta p)) /\
           unconflicted tr' KS3Policy p name)
       end) tr.
Proof.
  intros Hf [Hm Hs]. unfold admission. rewrite Hm. destruct (live (pol_Meta p)); [|by sx].
  eapply swp_seq_keep; [apply seaweedRefPermitted_swp, policy_guard_reads|].
  intros [e|[]] new Hg; sx; [done| |].
  - specialize (Hg eq_refl).
    eapply swp_seq_keep; [apply policyConflict_swp, policy_guard_reads|].
    intros [e|[owner|]] new2 Hu; sx; [done| |].
    + eapply swp_seq; [apply policy_fail_swp; [auto with trace|done]|].
      done.
    + split; [done|]. intros _. rewrite Hs in Hg. split; [auto with trace|].
      specialize (Hu eq_refl). destruct Hu as (items & Hsaw & Hc). exists items.
      split; [done|]. rewrite policy_peers_same in Hc by done.
      unfold conflict_of in *. simpl in *. by rewrite Hm in Hc.
  - eapply swp_seq; [apply policy_refForbidden_swp; [auto with trace|done]|].
    done.
Qed.

Lemma policy_handleDeletion_swp o name t tr :
  same o -> live (pol_Meta p) = false -> manages tr req p name t ->
  swp G (handleDeletion o name t) (fun _ _ => True) tr.
Proof.
  intros [Hm Hs] Hdel Hman. unfold handleDeletion.
  assert (hasFinalizer o s3PolicyFinalizer = hasFinalizer p s3PolicyFinalizer) as ->.
  { unfold hasFinalizer; simpl. by rewrite Hm. }
  destruct (hasFinalizer p _) eqn:Hfin; sx; [|done].
  eapply swp_seq_keep; [apply policyClaimants_swp, policy_guard_reads|].
  intros [e|peers] new; sx; [done|]. intros (items & Hsaw & ->).
  rewrite policy_peers_same by done.
  destruct Hman as (Hf & -> & Hprov & Hres).
  eapply (swp_seq_keep _ _ _ (fun failed tr' => failed = None ->
            released tr' p (policyIAMName p))).
  - assert (polspec_ReclaimPolicy (pol_Spec (io_setPhase S3PhaseTerminating o)) =
            polspec_ReclaimPolicy (pol_Spec p)) as -> by (simpl; by rewrite Hs).
    case_bool_decide as Hrec; sx; [by left|]. cbn [andb].
    destruct (peers_of p _ _ items) as [|q ps] eqn:Hp; cbn [length Nat.eqb]; sx.
    + split.
      { exists p. split; [apply policy_manages_mono; by split_and!|].
        split_and!; [done..|]. by exists items. }
      intros [e|]; sx.
      * destruct (errors_Is e _) eqn:He; sx.
        -- intros _. right; right. exists t, (Some e). split; [auto with trace|right].
           unfold errors_Is in He. apply bool_decide_eq_true in He. by subst.
        -- split; [|done]. exists p. auto with trace.
      * intros _. right; right. exists t, None. split; [auto with trace|by left].
    + intros _. right; left. exists items. split; [done|]. by rewrite Hp.
  - intros [e|] new2 Hrel; sx; [done|]. split; [|by intros [e|]].
    exists p. split; [auto with trace|]. split; [done|]. right.
    split; [done|]. split; [by simpl; rewrite Hm|]. auto with trace.
Qed.
End safety.

Lemma policy_Reconcile_swp req tr :
  swp (policy_guard req) (Reconcile req) (fun _ _ => True) tr.
Proof.
  unfold Reconcile. sx. split; [done|]. intros [e|p]; sx; [done|].
  set (tr1 := tr ++ _). assert (fetched tr1 req p) as Hf by (unfold fetched, tr1; auto with trace).
  set (name := if bool_decide (polspec_Name (pol_Spec p) = "") then _ else _).
  assert (name = policyIAMName p) as Hname.
  { unfold name, policyIAMName. repeat case_bool_decide; done. }
  destruct (negb (bool_decide (polst_PolicyName _ = "")) && _) eqn:Hren.
  { by apply (policy_fail_swp req p). }
  assert (polst_PolicyName (pol_Status p) = "" \/ polst_PolicyName (pol_Status p) = name)
    as Hprov.
  { repeat case_bool_decide; simpl in *; naive_solver. }
  eapply swp_seq_keep; [by apply (policy_admission_swp req p)|].
  intros [o|o] new; sx; [done|]. intros [Hsame Hadm].
  eapply swp_seq_keep; [apply resolveSeaweedFiler_swp, policy_guard_reads|].
  assert (polspec_SeaweedRef (pol_Spec o) = polspec_SeaweedRef (pol_Spec p)) as ->
    by by rewrite (proj2 Hsame).
  assert (Namespace (pol_Meta o) = Namespace (pol_Meta p)) as -> by by rewrite (proj1 Hsame).
  intros [e|[t|]] new2; sx; [done| |]; intros Hres.
  - unfold getIAMAdmin. sx. split; [done|]. intros [e|]; sx; [done|].
    set (o' := setCond o _ _ _ _).
    assert (same p o') as Hsame' by done. clearbody o'.
    assert (live (pol_Meta o') = live (pol_Meta p)) as -> by by rewrite (proj1 Hsame').
    assert (hasFinalizer o' s3PolicyFinalizer = hasFinalizer p s3PolicyFinalizer) as ->.
    { unfold hasFinalizer; simpl. by rewrite (proj1 Hsame'). }
    set (tr2 := ((tr1 ++ new) ++ new2) ++ _).
    assert (manages tr2 req p name t) as Hman.
    { unfold tr2. split_and!; [auto with trace|done..|auto with trace]. }
    destruct (live (pol_Meta p)) eqn:Hl; sx; [|by apply (policy_handleDeletion_swp req p)].
    destruct (hasFinalizer p _) eqn:Hfin; sx.
    + destruct (Hadm eq_refl) as [Hg Hu].
      destruct (buildPolicyDocument (pol_Spec o')) as [e|doc] eqn:Hdoc.
      { apply (policy_fail_swp req p); [apply Hman|done]. }
      sx. split.
      { exists p. rewrite <-(proj2 Hsame'). split_and!; try done; unfold tr2;
          rewrite ?(proj2 Hsame'); auto 10 with trace. }
      intros [e|]; sx; [apply (policy_fail_swp req p); [by apply policy_fetched_mono, Hman|done]|].
      split; [|by intros [e|]]. exists p. split; [by apply policy_fetched_mono, Hman|].
      exact (conj (proj2 Hsame') (proj1 Hsame')).
    + split; [|by intros [e|]]. exists p. split; [apply Hman|]. split; [apply Hsame'|].
      left. split; [done|]. simpl. by rewrite (proj1 Hsame').
  - apply (policy_clusterNotFound_swp req p); [|done]. auto with trace.
Qed.

(** ** What a pass achieves *)
Definition not_resync (o : outcome) : Prop := o <> resync.

Lemma policy_fail_quiet o reason message :
  swp quiet_guard (fail o reason message) (fun r _ => not_resync r) [].
Proof. unfold fail. sx. split; [done|]. by intros [e|]. Qed.
Lemma policy_refForbidden_quiet o message :
  swp quiet_guard (refForbidden o message) (fun r _ => not_resync r) [].
Proof. unfold refForbidden. sx. split; [done|]. by intros [e|]. Qed.
Lemma policy_clusterNotFound_quiet o :
  swp quiet_guard (clusterNotFound o) (fun r _ => not_resync r) [].
Proof. unfold clusterNotFound. sx. by split. Qed.

Lemma policy_admission_quiet p o name :
  same p o ->
  swp quiet_guard (admission o name)
    (fun r _ => match r with inl out => not_resync out | inr o' => same p o' end) [].
Proof.
  intros Hs. unfold admission. destruct (live _); [|by sx].
  eapply swp_seq; [apply seaweedRefPermitted_swp, quiet_reads|].
  intros [e|[]] tr _; sx; [done| |].
  - eapply swp_seq; [apply policyConflict_swp, quiet_reads|].
    intros [e|[w|]] tr2 _; sx; [done| |done]. by split; [|intros [e|]].
  - by split; [|intros [e|]].
Qed.

(** Only the policy [name] of the store differs. *)
Definition only_policy (name : string) (s s' : Sim) : Prop :=
  (forall n, n <> name -> sim_policies s' !! n = sim_policies s !! n) /\
  sim_users s' = sim_users s /\ sim_oidc s' = sim_oidc s.

Lemma only_policy_refl name s : only_policy name s s.
Proof. done. Qed.
Lemma only_policy_insert name d s :
  only_policy name s (set_policies (<[name := d]> (sim_policies s)) s).
Proof. split; [|done]. intros n Hn. simpl. by rewrite lookup_insert_ne by done. Qed.
Lemma only_policy_delete name s :
  only_policy name s (set_policies (delete name (sim_policies s)) s).
Proof. split; [|done]. intros n Hn. simpl. by rewrite lookup_delete_ne by done. Qed.
#[local] Hint Resolve only_policy_refl only_policy_insert only_policy_delete : iam.

(** The policy is stored with the document of the spec. *)
Definition applied (p : S3Policy) (s' : Sim) : Prop :=
  exists document, buildPolicyDocument (pol_Spec p) = Ok document /\
    sim_policies s' !! policyIAMName p = Some document.

Section achieves.
Context (objs : forall k, NamespacedName -> option (Obj k)) (p : S3Policy).
Notation env := (iam_env objs).
Notation name := (policyIAMName p).

Lemma policy_handleDeletion_wp o t s :
  same p o ->
  wp env (handleDeletion o name t) (fun r s' => only_policy name s s' /\ not_resync r) s.
Proof.
  intros [Hm Hs]. unfold handleDeletion. destruct (hasFinalizer _ _); wx; [|done].
  eapply quiet_seq; [eapply swp_mono, policyClaimants_swp, quiet_reads|].
  { intros r tr _. exact I. }
  intros [e|peers] _; wx; [done|].
  apply (wp_seq _ _ _ (fun _ s' => only_policy name s s')).
  - destruct (_ && _); wx; [|done].
    intros r s1 [[= -> ->]|(-> & e & -> & _)]; wx; [auto with iam|].
    destruct (errors_Is _ _); wx; [done|]. by intros r s1 [-> _].
  - intros [e|] s1 Ho; wx; [done|]. by intros [e|] s2 [-> _].
Qed.

Lemma fail_done o reason message s s0 (P : Sim -> Prop) :
  only_policy name s0 s ->
  wp env (fail o reason message) (fun r s' => only_policy name s0 s' /\ (r = resync -> P s')) s.
Proof.
  intros Ho. eapply wp_mono; [|eapply quiet_wp, policy_fail_quiet]. by intros r s' [-> Hr].
Qed.

Lemma policy_Reconcile_wp req s :
  objs KS3Policy req = Some p ->
  wp env (Reconcile req)
    (fun r s' => only_policy name s s' /\
       (r = resync -> live (pol_Meta p) = true /\ applied p s')) s.
Proof.
  intros Hget. unfold Reconcile. wx. intros [e|o] s1 [-> Ho]; wx; [done|].
  simpl in Ho. rewrite Hget in Ho. injection Ho as <-.
  assert ((if bool_decide (polspec_Name (pol_Spec p) = "") then Name (pol_Meta p)
           else polspec_Name (pol_Spec p)) = name) as ->.
  { unfold policyIAMName. repeat case_bool_decide; done. }
  destruct (_ && _); [by apply fail_done|].
  eapply quiet_seq; [by apply (policy_admission_quiet p)|]. intros [r|o] Hsame; wx; [done|].
  eapply quiet_seq; [eapply swp_mono, resolveSeaweedFiler_swp, quiet_reads|].
  { intros r tr _. exact I. }
  intros [e|[t|]] _; wx; [done| |].
  2: { eapply wp_mono; [|eapply quiet_wp, policy_clusterNotFound_quiet]. intros r s' [-> Hr]. done. }
  intros [e|] s1 ->; wx; [done|].
  set (o' := setCond o _ _ _ _). assert (same p o') as Hsame' by done. clearbody o'.
  rewrite (proj1 Hsame'). destruct (live (pol_Meta p)) eqn:Hl; wx.
  - destruct (hasFinalizer _ _); wx; [|by intros [e|] s2 [-> _]].
    rewrite (proj2 Hsame').
    destruct (buildPolicyDocument (pol_Spec p)) as [e|doc] eqn:Hdoc; [by apply fail_done|]. wx.
    intros r s1 [Hr|(-> & e & -> & _)]; [|by apply fail_done].
    cbn [sim_iam] in Hr. simplify_eq. wx. intros [e|] s2 [-> _]; wx.
    + split; [apply only_policy_insert|done].
    + split; [apply only_policy_insert|]. intros _. split; [done|]. exists doc.
      split; [done|]. simpl. apply lookup_insert_eq.
  - eapply wp_mono; [|by apply policy_handleDeletion_wp]. intros r s' [? ?]. done.
Qed.
End achieves.

(** C23. The S3Policy controller acts on the IAM service only when it may.
    Whatever the API server and the filer answer, every call of a pass is
    allowed by what the handler has seen before it: a policy is stored only for a live
    resource that has its finalizer, a grant for the cluster it references and no older
    claimant of the name, at the filer of that cluster, and with the document built from its
    spec; a policy is deleted only for a resource being deleted, not retained,
    whose name no other live resource claims; the finalizer is dropped only when
    the resource is retained, another claimant takes the policy over, or the
    deletion succeeded (or found nothing).  No other IAM call is ever made. *)
Theorem policy_reconcile_guarded req tr r :
  exec trace_env (Reconcile req) [] tr r -> guarded (policy_guard req) tr.
Proof. intros Hx. by eapply swp_theorem in Hx as [? _]; [|apply policy_Reconcile_swp]. Qed.

(** A pass over an S3Policy changes no IAM object but the policy it names,
    and a pass that ends with the periodic resync has stored the document the spec
    builds. *)
Theorem policy_reconcile_converges objs req p s s' r :
  objs KS3Policy req = Some p ->
  exec (iam_env objs) (Reconcile req) s s' r ->
  only_policy (policyIAMName p) s s' /\
  (r = resync -> live (pol_Meta p) = true /\ applied p s').
Proof.
  intros Hget Hx. pose proof (policy_Reconcile_wp objs p req s Hget) as Hwp.
  rewrite wp_exec in Hwp. by apply Hwp.
Qed.
End controller.

(** A cluster with one policy. *)
Definition managed_policy (deleting : bool) : S3Policy := {|
  pol_Meta := {| Name := "rw"; Namespace := "a"; Generation := 1%Z; CreationTimestamp := 5%Z;
                 DeletionTimestamp := if deleting then Some 9%Z else None; Labels := ∅;
                 Annotations := ∅; Finalizers := [s3PolicyFinalizer];
                 OwnerReferences := []; UID := "" |};
  pol_Spec := sample_spec;
  pol_Status := {| polst_ObservedGeneration := 0%Z; polst_Phase := ""; polst_Conditions := [];
                   polst_PolicyName := "rw" |} |}.
Definition policy_cluster (deleting : bool) : Sim :=
  set_policies {["rw" := "{}"; "ro" := "{}"]}
    (set_objs KS3Policy [managed_policy deleting]
       (set_objs KSeaweed [sample_sw "a"] sim_empty)).
Definition policy_req : NamespacedName := {| nn_Namespace := "a"; nn_Name := "rw" |}.

Lemma policy_reconcile_guarded_witness :
  let x := run (tracing sim) (Reconcile policy_req) (policy_cluster true, []) in
  x.2 = Done noResult None /\ length x.1.2 = 7 /\
  guarded (policy_guard policy_req) x.1.2.
Proof.
  intros x. split; [by vm_compute|]. split; [by vm_compute|].
  apply (policy_reconcile_guarded policy_req x.1.2 x.2). apply run_tracing.
Defined.

Definition policy_objs : forall k, NamespacedName -> option (Obj k) := fun k key =>
  List.find (fun o => bool_decide (obj_key o = key)) (sim_objs (policy_cluster false) k).

Lemma policy_reconcile_converges_witness :
  let s := policy_cluster false in
  let s' := (run (sim_iam_only policy_objs) (Reconcile policy_req) s).1 in
  only_policy "rw" s s' /\ applied (managed_policy false) s'.
Proof.
  intros s s'.
  destruct (policy_reconcile_converges policy_objs policy_req (managed_policy false)
              s s' resync) as [Ho Hp].
  - by vm_compute.
  - apply run_iam. by vm_compute.
  - split; [exact Ho|]. by apply Hp.
Defined.
