(* ===== verification/OidcController.v ===== *)
(** * The S3OIDCProvider controller (internal/controller/s3oidcprovider_controller.go) *)
From S2P Require Import Prelude Prog CoreTypes ApiTypes Effects Machinery Sim Trace RefGrant.
From S2P Require Import Cluster.
From S2P Require Import NameClaim IamCommon IamSpec.

Section controller.
Context `{ApiMachinery} `{Digest}.

Definition fail (provider : S3OIDCProvider) (reason message : string) : op outcome :=
  let provider := io_setPhase S3PhaseFailed provider in
  let provider := setCond provider S3ConditionReady ConditionFalse reason message in
  check kube (KStatusUpdate KS3OIDCProvider provider) catch err => Ret (Done noResult (Some err));
  Ret (Done (requeueIn requeueAfterTransient) None).

Definition refForbidden (provider : S3OIDCProvider) (message : string) : op outcome :=
  let provider := setCond provider S3ConditionReferenceGranted ConditionFalse
                  "ReferenceGrantMissing" message in
  let provider := io_setPhase S3PhasePending provider in
  check kube (KStatusUpdate KS3OIDCProvider provider) catch err => Ret (Done noResult (Some err));
  Ret (Done (requeueIn requeueAfterTransient) None).

Definition clusterNotFound (provider : S3OIDCProvider) : op outcome :=
  let provider := setCond provider S3ConditionClusterReachable ConditionFalse
                  "ClusterRefNotFound"
                  ("Seaweed " +:+ fmt_q (ref_Name (oidcspec_SeaweedRef (oidc_Spec provider))) +:+
                   " not found") in
  let provider := io_setPhase S3PhasePending provider in
  do _ <- kube (KStatusUpdate KS3OIDCProvider provider);
  Ret (Done (requeueIn requeueAfterTransient) None).

Definition handleDeletion (provider : S3OIDCProvider) (issuer : string) (target : filerTarget)
    : op outcome :=
  if negb (hasFinalizer provider s3OIDCProviderFinalizer) then Ret (Done noResult None)
  else
    let provider := io_setPhase S3PhaseTerminating provider in
    do failed <-
      (if negb (bool_decide (oidcspec_ReclaimPolicy (oidc_Spec provider) = S3ReclaimRetain)) &&
          negb (bool_decide (oidcst_ProviderArn (oidc_Status provider) = ""))
       then
         do r <- iam target (DeleteOIDCProvider issuer);
         match r with
         | Some err =>
             if negb (errors_Is err ErrIAMNotFound)
             then
               let provider := setCond provider S3ConditionReady ConditionFalse "DeleteFailed"
                                 (error_string err) in
               do _ <- kube (KStatusUpdate KS3OIDCProvider provider);
               Ret (Some err)
             else Ret None
         | None => Ret None
         end
       else Ret None);
    match failed with
    | Some err => Ret (Done noResult (Some err))
    | None =>
        let provider := removeFinalizer provider s3OIDCProviderFinalizer in
        check kube (KUpdate KS3OIDCProvider provider)
        catch err => Ret (Done noResult (Some err));
        Ret (Done noResult None)
    end.

(** The grant check at the head of Reconcile. *)
Definition admission (provider : S3OIDCProvider) : segment opE outcome S3OIDCProvider :=
  if live (oidc_Meta provider) then
    let ref := oidcspec_SeaweedRef (oidc_Spec provider) in
    let ns := Namespace (oidc_Meta provider) in
    do r <- seaweedRefPermitted ref kindS3OIDCProvider ns;
    match r with
    | inl err => Ret (inl (Done noResult (Some err)))
    | inr permitted =>
        if negb permitted
        then do o <- refForbidden provider (seaweedRefDeniedMessage ref kindS3OIDCProvider ns);
             Ret (inl o)
        else Ret (inr (clearCond provider S3ConditionReferenceGranted))
    end
  else Ret (inr provider).

Definition recordReady (provider : S3OIDCProvider) (arn : string) : S3OIDCProvider :=
  let provider := {|
    oidc_Meta := oidc_Meta provider; oidc_Spec := oidc_Spec provider;
    oidc_Status := {| oidcst_ObservedGeneration := Generation (oidc_Meta provider);
                      oidcst_Phase := S3PhaseReady;
                      oidcst_Conditions := oidcst_Conditions (oidc_Status provider);
                      oidcst_ProviderArn := arn |} |} in
  setCond provider S3ConditionReady ConditionTrue "Reconciled" "".

Definition Reconcile (req : NamespacedName) : op outcome :=
  try provider <- kube (KGet KS3OIDCProvider req)
    catch err => Ret (Done noResult (IgnoreNotFound err));
  let issuer := oidcspec_IssuerURL (oidc_Spec provider) in
  do admitted <- admission provider;
  match admitted with
  | inl o => Ret o
  | inr provider =>
      do r <- resolveSeaweedFiler (oidcspec_SeaweedRef (oidc_Spec provider))
                (Namespace (oidc_Meta provider));
      match r with
      | inl err => Ret (Done noResult (Some err))
      | inr None =>
          if negb (live (oidc_Meta provider)) then
            let provider := removeFinalizer provider s3OIDCProviderFinalizer in
            check kube (KUpdate KS3OIDCProvider provider)
            catch err => Ret (Done noResult (Some err));
            Ret (Done noResult None)
          else clusterNotFound provider
      | inr (Some target) =>
          let provider := setCond provider S3ConditionClusterReachable ConditionTrue
                            "Reachable" "" in
          check getIAMAdmin target catch err => Ret (Done noResult (Some err));
          if negb (live (oidc_Meta provider)) then handleDeletion provider issuer target
          else if negb (hasFinalizer provider s3OIDCProviderFinalizer) then
            let provider := addFinalizer provider s3OIDCProviderFinalizer in
            check kube (KUpdate KS3OIDCProvider provider)
            catch err => Ret (Done noResult (Some err));
            Ret (Done requeueNow None)
          else
            try arn <- iam target (PutOIDCProvider
              {| IssuerURL := issuer; ClientIDs := oidcspec_ClientIDs (oidc_Spec provider);
                 Thumbprints := oidcspec_Thumbprints (oidc_Spec provider) |})
            catch err => fail provider "PutFailed" (error_string err);
            check kube (KStatusUpdate KS3OIDCProvider (recordReady provider arn))
            catch err => Ret (Done noResult (Some err));
            Ret (Done (requeueIn iamResyncInterval) None)
      end
  end.

(** ** What the controller may do *)
Definition fetched (tr : trace) (req : NamespacedName) (p : S3OIDCProvider) : Prop :=
  saw_kube tr (KGet KS3OIDCProvider req) (Ok p).

Definition manages (tr : trace) (req : NamespacedName) (p : S3OIDCProvider)
    (t : filerTarget) : Prop :=
  fetched tr req p /\
  resolved tr (oidcspec_SeaweedRef (oidc_Spec p)) (Namespace (oidc_Meta p)) t.

Definition may_write (tr : trace) (req : NamespacedName) (t : filerTarget)
    (o : OIDCProvider) : Prop :=
  exists p, manages tr req p t /\ live (oidc_Meta p) = true /\
    hasFinalizer p s3OIDCProviderFinalizer = true /\
    seaweed_granted tr (oidcspec_SeaweedRef (oidc_Spec p)) kindS3OIDCProvider
      (Namespace (oidc_Meta p)) /\
    o = {| IssuerURL := oidcspec_IssuerURL (oidc_Spec p);
           ClientIDs := oidcspec_ClientIDs (oidc_Spec p);
           Thumbprints := oidcspec_Thumbprints (oidc_Spec p) |}.

Definition may_delete (tr : trace) (req : NamespacedName) (t : filerTarget) (issuer : string)
    : Prop :=
  exists p, manages tr req p t /\ live (oidc_Meta p) = false /\
    hasFinalizer p s3OIDCProviderFinalizer = true /\
    oidcspec_ReclaimPolicy (oidc_Spec p) <> S3ReclaimRetain /\
    oidcst_ProviderArn (oidc_Status p) <> "" /\ issuer = oidcspec_IssuerURL (oidc_Spec p).

Definition released (tr : trace) (p : S3OIDCProvider) : Prop :=
  oidcspec_ReclaimPolicy (oidc_Spec p) = S3ReclaimRetain \/
  oidcst_ProviderArn (oidc_Status p) = "" \/
  cluster_gone tr (oidcspec_SeaweedRef (oidc_Spec p)) (Namespace (oidc_Meta p)) \/
  exists t r, saw tr (OIam t (DeleteOIDCProvider (oidcspec_IssuerURL (oidc_Spec p)))) r /\
              (r = None \/ r = Some ErrIAMNotFound).

Definition finalizer_update (tr : trace) (req : NamespacedName) (o : S3OIDCProvider) : Prop :=
  exists p, fetched tr req p /\ oidc_Spec o = oidc_Spec p /\
    (live (oidc_Meta p) = true /\
       oidc_Meta o = with_finalizers (oidc_Meta p)
                      (AddFinalizer (Finalizers (oidc_Meta p)) s3OIDCProviderFinalizer) \/
     live (oidc_Meta p) = false /\
       oidc_Meta o = with_finalizers (oidc_Meta p)
                      (RemoveFinalizer (Finalizers (oidc_Meta p)) s3OIDCProviderFinalizer) /\
       released tr p).

Definition status_update (tr : trace) (req : NamespacedName) (o : S3OIDCProvider) : Prop :=
  exists p, fetched tr req p /\ oidc_Spec o = oidc_Spec p /\ oidc_Meta o = oidc_Meta p.

Definition oidc_guard (req : NamespacedName) : Guard := fun tr X e =>
  match e with
  | OKube (KGet _ _) | OKube (KList _ _ _) => True
  | OKube (KUpdate KS3OIDCProvider o) => finalizer_update tr req o
  | OKube (KStatusUpdate KS3OIDCProvider o) => status_update tr req o
  | OIam t (PutOIDCProvider o) => may_write tr req t o
  | OIam t (DeleteOIDCProvider u) => may_delete tr req t u
  | OAdminFactory _ | ODialTLS _ _ _ => True
  | _ => False
  end.

Lemma oidc_fetched_mono tr new req p : fetched tr req p -> fetched (tr ++ new) req p.
Proof. apply saw_app_l. Qed.
Lemma oidc_manages_mono tr new req p t : manages tr req p t -> manages (tr ++ new) req p t.
Proof. intros (? & ?). split; [by apply oidc_fetched_mono|by apply resolved_mono]. Qed.
#[local] Hint Extern 2 (fetched (_ ++ _) _ _) => apply oidc_fetched_mono : trace.
#[local] Hint Extern 2 (manages (_ ++ _) _ _ _) => apply oidc_manages_mono : trace.

Lemma oidc_guard_reads req : allows_reads (oidc_guard req).
Proof. done. Qed.

Section safety.
Context (req : NamespacedName) (p : S3OIDCProvider).
Notation G := (oidc_guard req).
(** The conditions and the phase may have changed, nothing else. *)
Definition same (o : S3OIDCProvider) : Prop :=
  oidc_Meta o = oidc_Meta p /\ oidc_Spec o = oidc_Spec p /\
  oidcst_ProviderArn (oidc_Status o) = oidcst_ProviderArn (oidc_Status p).

Lemma oidc_fail_swp o reason message tr :
  fetched tr req p -> same o -> swp G (fail o reason message) (fun _ _ => True) tr.
Proof. intros Hf (Hm & Hs & _). unfold fail. sx. split; [by exists p|]. by intros [e|]. Qed.
Lemma oidc_refForbidden_swp o message tr :
  fetched tr req p -> same o -> swp G (refForbidden o message) (fun _ _ => True) tr.
Proof.
  intros Hf (Hm & Hs & _). unfold refForbidden. sx. split; [by exists p|]. by intros [e|].
Qed.
Lemma oidc_clusterNotFound_swp o tr :
  fetched tr req p -> same o -> swp G (clusterNotFound o) (fun _ _ => True) tr.
Proof. intros Hf (Hm & Hs & _). unfold clusterNotFound. sx. split; [by exists p|done]. Qed.

Lemma oidc_admission_swp o tr :
  fetched tr req p -> same o ->
  swp G (admission o)
    (fun r tr' => match r with
       | inl _ => True
       | inr o' => same o' /\ (live (oidc_Meta p) = true ->
           seaweed_granted tr' (oidcspec_SeaweedRef (oidc_Spec p)) kindS3OIDCProvider
             (Namespace (oidc_Meta p)))
       end) tr.
Proof.
  intros Hf Hsame. pose proof Hsame as (Hm & Hs & _). unfold admission. rewrite Hm, Hs.
  destruct (live (oidc_Meta p)); [|by sx].
  eapply swp_seq_keep; [apply seaweedRefPermitted_swp, oidc_guard_reads|].
  intros [e|[]] new Hg; sx; [done| |].
  - split; [done|]. intros _. by apply Hg.
  - eapply swp_seq; [apply oidc_refForbidden_swp; [auto with trace|done]|]. done.
Qed.

Lemma drop_finalizer_swp o tr :
  same o -> live (oidc_Meta p) = false -> fetched tr req p -> released tr p ->
  swp G (check kube (KUpdate KS3OIDCProvider (removeFinalizer o s3OIDCProviderFinalizer))
         catch err => Ret (Done noResult (Some err)); Ret (Done noResult None))
    (fun _ _ => True) tr.
Proof.
  intros (Hm & Hs & _) Hdel Hf Hrel. sx. split; [|by intros [e|]].
  exists p. split; [done|]. split; [done|]. right. split; [done|]. split; [|done].
  simpl. by rewrite Hm.
Qed.

Lemma oidc_handleDeletion_swp o t tr :
  same o -> live (oidc_Meta p) = false -> manages tr req p t ->
  swp G (handleDeletion o (oidcspec_IssuerURL (oidc_Spec p)) t) (fun _ _ => True) tr.
Proof.
  intros Hsame Hdel Hman. pose proof Hsame as (Hm & Hs & Ha). unfold handleDeletion.
  assert (hasFinalizer o s3OIDCProviderFinalizer = hasFinalizer p s3OIDCProviderFinalizer) as ->.
  { unfold hasFinalizer; simpl. by rewrite Hm. }
  destruct (hasFinalizer p _) eqn:Hfin; sx; [|done].
  eapply (swp_seq_keep _ _ _ (fun failed tr' => failed = None -> released tr' p)).
  - assert (oidcspec_ReclaimPolicy (oidc_Spec (io_setPhase S3PhaseTerminating o)) =
            oidcspec_ReclaimPolicy (oidc_Spec p)) as -> by (simpl; by rewrite Hs).
    assert (oidcst_ProviderArn (oidc_Status (io_setPhase S3PhaseTerminating o)) =
            oidcst_ProviderArn (oidc_Status p)) as -> by done.
    case_bool_decide as Hrec; sx; [by left|]. cbn [andb].
    case_bool_decide as Harn; sx; [by right; left|].
    split; [by exists p; split_and!|]. intros [e|]; sx.
    + destruct (errors_Is e _) eqn:He; sx.
      * intros _. right; right; right. exists t, (Some e). split; [auto with trace|right].
        unfold errors_Is in He. apply bool_decide_eq_true in He. by subst.
      * split; [|done]. exists p. split; [by apply oidc_fetched_mono, Hman|done].
    + intros _. right; right; right. exists t, None. split; [auto with trace|by left].
  - intros [e|] new2 Hrel; sx; [done|].
    apply (drop_finalizer_swp (io_setPhase S3PhaseTerminating o));
      [done|done|by apply oidc_fetched_mono, Hman|by apply Hrel].
Qed.
End safety.

Lemma oidc_Reconcile_swp req tr :
  swp (oidc_guard req) (Reconcile req) (fun _ _ => True) tr.
Proof.
  unfold Reconcile. sx. split; [done|]. intros [e|p]; sx; [done|].
  set (tr1 := tr ++ _). assert (fetched tr1 req p) as Hf by (unfold fetched, tr1; auto with trace).
  eapply swp_seq_keep; [by apply (oidc_admission_swp req p)|].
  intros [o|o] new; sx; [done|]. intros [Hsame Hadm].
  eapply swp_seq_keep; [apply resolveSeaweedFiler_swp, oidc_guard_reads|].
  assert (oidcspec_SeaweedRef (oidc_Spec o) = oidcspec_SeaweedRef (oidc_Spec p)) as ->
    by by rewrite (proj1 (proj2 Hsame)).
  assert (Namespace (oidc_Meta o) = Namespace (oidc_Meta p)) as -> by by rewrite (proj1 Hsame).
  intros [e|[t|]] new2; sx; [done| |]; intros Hres.
  - unfold getIAMAdmin. sx. split; [done|]. intros [e|]; sx; [done|].
    set (o' := setCond o _ _ _ _).
    assert (same p o') as Hsame' by done. clearbody o'.
    assert (live (oidc_Meta o') = live (oidc_Meta p)) as -> by by rewrite (proj1 Hsame').
    assert (hasFinalizer o' s3OIDCProviderFinalizer = hasFinalizer p s3OIDCProviderFinalizer) as ->.
    { unfold hasFinalizer; simpl. by rewrite (proj1 Hsame'). }
    set (tr2 := ((tr1 ++ new) ++ new2) ++ _).
    assert (manages tr2 req p t) as Hman.
    { unfold tr2. split; auto with trace. }
    destruct (live (oidc_Meta p)) eqn:Hl; sx; [|by apply (oidc_handleDeletion_swp req p)].
    destruct (hasFinalizer p _) eqn:Hfin; sx.
    + specialize (Hadm eq_refl). split.
      { exists p. rewrite (proj1 (proj2 Hsame')). split_and!; try done.
        unfold tr2. auto 10 with trace. }
      intros [e|arn]; sx; [apply (oidc_fail_swp req p); [by apply oidc_fetched_mono, Hman|done]|].
      split; [|by intros [e|]]. exists p. split; [by apply oidc_fetched_mono, Hman|].
      exact (conj (proj1 (proj2 Hsame')) (proj1 Hsame')).
    + split; [|by intros [e|]]. exists p. split; [apply Hman|]. split; [apply Hsame'|].
      left. split; [done|]. simpl. by rewrite (proj1 Hsame').
  - assert (live (oidc_Meta o) = live (oidc_Meta p)) as -> by by rewrite (proj1 Hsame).
    destruct (live (oidc_Meta p)) eqn:Hl; sx.
    + apply (oidc_clusterNotFound_swp req p); [|done]. auto with trace.
    + apply (drop_finalizer_swp req p); [done|done|auto with trace|]. by right; right; left.
Qed.

(** The S3OIDCProvider controller acts on the IAM service only when it may.
    Whatever the API server and the filer answer: a provider is registered only for a live
    resource with its finalizer and a grant for the cluster it references, at that
    cluster's filer, with exactly the spec's data; it is deleted only for a
    resource being deleted, not retained, that had been registered; and the
    finalizer is dropped only when the resource is retained, was never registered, its
    cluster is gone, or the deletion succeeded (or found nothing). *)
Theorem oidc_reconcile_guarded req tr r :
  exec trace_env (Reconcile req) [] tr r -> guarded (oidc_guard req) tr.
Proof. intros Hx. by eapply swp_theorem in Hx as [? _]; [|apply oidc_Reconcile_swp]. Qed.
End controller.

(** A provider being deleted whose cluster is gone. *)
Definition orphan_provider : S3OIDCProvider := {|
  oidc_Meta := {| Name := "idp"; Namespace := "a"; Generation := 1%Z; CreationTimestamp := 5%Z;
                  DeletionTimestamp := Some 9%Z; Labels := ∅;
                  Annotations := ∅; Finalizers := [s3OIDCProviderFinalizer];
                  OwnerReferences := []; UID := "" |};
  oidc_Spec := {| oidcspec_SeaweedRef := {| ref_Name := "sw"; ref_Namespace := "" |};
                  oidcspec_IssuerURL := "https://idp"; oidcspec_ClientIDs := ["c"];
                  oidcspec_Thumbprints := []; oidcspec_ReclaimPolicy := S3ReclaimDelete |};
  oidc_Status := {| oidcst_ObservedGeneration := 0%Z; oidcst_Phase := ""; oidcst_Conditions := [];
                    oidcst_ProviderArn := "arn" |} |}.
Definition oidc_req : NamespacedName := {| nn_Namespace := "a"; nn_Name := "idp" |}.

Lemma oidc_reconcile_guarded_witness :
  let x := run (tracing sim) (Reconcile oidc_req)
             (set_objs KS3OIDCProvider [orphan_provider] sim_empty, []) in
  x.2 = Done noResult None /\ length x.1.2 = 3 /\ guarded (oidc_guard oidc_req) x.1.2.
Proof.
  intros x. split; [by vm_compute|]. split; [by vm_compute|].
  apply (oidc_reconcile_guarded oidc_req x.1.2 x.2). apply run_tracing.
Defined.
