(* ===== verification/BindingController.v ===== *)
(** * The S3PolicyBinding controller (internal/controller/s3policybinding_controller.go) *)
From S2P Require Import Prelude Prog CoreTypes ApiTypes Effects Machinery Sim Trace RefGrant.
From S2P Require Import Cluster.
From S2P Require Import NameClaim IamCommon IamSpec.

Section controller.
Context `{ApiMachinery} `{Digest}.

(** Names bound to the status of a binding. *)
Definition with_policy (name : string) (b : S3PolicyBinding) : S3PolicyBinding := {|
  bind_Meta := bind_Meta b; bind_Spec := bind_Spec b;
  bind_Status := {| bindst_ObservedGeneration := bindst_ObservedGeneration (bind_Status b);
                    bindst_Phase := bindst_Phase (bind_Status b);
                    bindst_Conditions := bindst_Conditions (bind_Status b);
                    bindst_AttachedSubjects := bindst_AttachedSubjects (bind_Status b);
                    bindst_PolicyName := name |} |}.
Definition with_attached (l : list string) (b : S3PolicyBinding) : S3PolicyBinding := {|
  bind_Meta := bind_Meta b; bind_Spec := bind_Spec b;
  bind_Status := {| bindst_ObservedGeneration := bindst_ObservedGeneration (bind_Status b);
                    bindst_Phase := bindst_Phase (bind_Status b);
                    bindst_Conditions := bindst_Conditions (bind_Status b);
                    bindst_AttachedSubjects := l;
                    bindst_PolicyName := bindst_PolicyName (bind_Status b) |} |}.

Definition fail (binding : S3PolicyBinding) (reason message : string) : op outcome :=
  let binding := io_setPhase S3PhaseFailed binding in
  let binding := setCond binding S3ConditionReady ConditionFalse reason message in
  check kube (KStatusUpdate KS3PolicyBinding binding) catch err => Ret (Done noResult (Some err));
  Ret (Done (requeueIn requeueAfterTransient) None).

Definition refForbidden (binding : S3PolicyBinding) (message : string) : op outcome :=
  let binding := setCond binding S3ConditionReferenceGranted ConditionFalse
                  "ReferenceGrantMissing" message in
  let binding := io_setPhase S3PhasePending binding in
  check kube (KStatusUpdate KS3PolicyBinding binding) catch err => Ret (Done noResult (Some err));
  Ret (Done (requeueIn requeueAfterTransient) None).

Definition clusterNotFound (binding : S3PolicyBinding) : op outcome :=
  let binding := setCond binding S3ConditionClusterReachable ConditionFalse
                  "ClusterRefNotFound"
                  ("Seaweed " +:+ fmt_q (ref_Name (bindspec_SeaweedRef (bind_Spec binding))) +:+
                   " not found") in
  let binding := io_setPhase S3PhasePending binding in
  do _ <- kube (KStatusUpdate KS3PolicyBinding binding);
  Ret (Done (requeueIn requeueAfterTransient) None).

(** A transient unmet dependency. *)
Definition pending (binding : S3PolicyBinding) (reason message : string) : op outcome :=
  let binding := io_setPhase S3PhasePending binding in
  let binding := setCond binding S3ConditionReady ConditionFalse reason message in
  check kube (KStatusUpdate KS3PolicyBinding binding) catch err => Ret (Done noResult (Some err));
  Ret (Done (requeueIn requeueAfterTransient) None).

(** [resolveSubjects]: the keys of [seen] are the elements of [out]. *)
Definition resolveSubjects (binding : S3PolicyBinding) : op (result (list string)) :=
  let clusterKey := seaweedRefKey (bindspec_SeaweedRef (bind_Spec binding))
                      (Namespace (bind_Meta binding)) in
  do r <- fold_until (bindspec_Subjects (bind_Spec binding)) []
    (fun s out =>
       try name <- resolveIdentityIAMName (Namespace (bind_Meta binding)) (sub_Name s) clusterKey
         catch err => Ret (inl err);
       if bool_decide (name ∈ out) then Ret (inr out) else Ret (inr (out ++ [name])));
  match r with
  | inl err => Ret (Err err)
  | inr out => Ret (Ok (sort_strings out))
  end.

Definition handleDeletion (binding : S3PolicyBinding) (policyName : string)
    (target : filerTarget) : op outcome :=
  if negb (hasFinalizer binding s3PolicyBindingFinalizer) then Ret (Done noResult None)
  else
    let binding := io_setPhase S3PhaseTerminating binding in
    do failed <-
      (if negb (bool_decide (bindspec_ReclaimPolicy (bind_Spec binding) = S3ReclaimRetain))
       then for_until (bindst_AttachedSubjects (bind_Status binding)) (fun user =>
         do r <- iam target (DetachPolicy user policyName);
         match r with
         | Some err =>
             if negb (errors_Is err ErrIAMNotFound)
             then
               let binding := setCond binding S3ConditionReady ConditionFalse "DetachFailed"
                                (error_string err) in
               do _ <- kube (KStatusUpdate KS3PolicyBinding binding);
               Ret (Some err)
             else Ret None
         | None => Ret None
         end)
       else Ret None);
    match failed with
    | Some err => Ret (Done noResult (Some err))
    | None =>
        let binding := removeFinalizer binding s3PolicyBindingFinalizer in
        check kube (KUpdate KS3PolicyBinding binding)
        catch err => Ret (Done noResult (Some err));
        Ret (Done noResult None)
    end.

(** The policy the binding is pinned to, or the one its reference resolves to. *)
Definition boundPolicy (binding : S3PolicyBinding) : op (result string) :=
  let st := bind_Status binding in
  if negb (bool_decide (bindst_PolicyName st = "")) then Ret (Ok (bindst_PolicyName st))
  else if negb (bool_decide (bindst_AttachedSubjects st = []))
  then Ret (Ok (bindspec_PolicyRef (bind_Spec binding)))
  else resolvePolicyIAMName (Namespace (bind_Meta binding)) (bindspec_PolicyRef (bind_Spec binding))
         (seaweedRefKey (bindspec_SeaweedRef (bind_Spec binding)) (Namespace (bind_Meta binding))).

(** The grant check. *)
Definition admission (binding : S3PolicyBinding) : segment opE outcome S3PolicyBinding :=
  if live (bind_Meta binding) then
    let ref := bindspec_SeaweedRef (bind_Spec binding) in
    let ns := Namespace (bind_Meta binding) in
    do r <- seaweedRefPermitted ref kindS3PolicyBinding ns;
    match r with
    | inl err => Ret (inl (Done noResult (Some err)))
    | inr permitted =>
        if negb permitted
        then do o <- refForbidden binding (seaweedRefDeniedMessage ref kindS3PolicyBinding ns);
             Ret (inl o)
        else Ret (inr (clearCond binding S3ConditionReferenceGranted))
    end
  else Ret (inr binding).

(** Detaching the subjects no longer listed. *)
Definition detachStale (binding : S3PolicyBinding) (policyName : string) (target : filerTarget)
    (desired : list string) : op (option outcome) :=
  for_until (bindst_AttachedSubjects (bind_Status binding)) (fun prev =>
    if bool_decide (prev ∈ desired) then Ret None
    else
      do r <- iam target (DetachPolicy prev policyName);
      match r with
      | Some err =>
          if negb (errors_Is err ErrIAMNotFound)
          then do o <- fail binding "DetachFailed"
                 ("detach " +:+ fmt_q policyName +:+ " from " +:+ fmt_q prev +:+ ": " +:+
                  error_string err);
               Ret (Some o)
          else Ret None
      | None => Ret None
      end).

(** Attaching the desired ones: those attached and those that do not exist. *)
Definition attachDesired (binding : S3PolicyBinding) (policyName : string)
    (target : filerTarget) (desired : list string)
    : segment opE outcome (list string * list string) :=
  fold_until desired ([], []) (fun user acc =>
    let '(attached, pendingSubjects) := acc in
    do r <- iam target (AttachPolicy user policyName);
    match r with
    | Some err =>
        if errors_Is err ErrIAMNotFound
        then Ret (inr (attached, pendingSubjects ++ [user]))
        else do o <- fail (with_attached attached binding) "AttachFailed"
               ("attach " +:+ fmt_q policyName +:+ " to " +:+ fmt_q user +:+ ": " +:+
                error_string err);
             Ret (inl o)
    | None => Ret (inr (attached ++ [user], pendingSubjects))
    end).

Definition recordReady (binding : S3PolicyBinding) : S3PolicyBinding :=
  let binding := {|
    bind_Meta := bind_Meta binding; bind_Spec := bind_Spec binding;
    bind_Status := {| bindst_ObservedGeneration := Generation (bind_Meta binding);
                      bindst_Phase := S3PhaseReady;
                      bindst_Conditions := bindst_Conditions (bind_Status binding);
                      bindst_AttachedSubjects := bindst_AttachedSubjects (bind_Status binding);
                      bindst_PolicyName := bindst_PolicyName (bind_Status binding) |} |} in
  setCond binding S3ConditionReady ConditionTrue "Reconciled" "".

(** From the policy lookup to the status write. *)
Definition reconcileSubjects (binding : S3PolicyBinding) (policyName : string)
    (target : filerTarget) : op outcome :=
  do p <- iam target (GetPolicy policyName);
  match p with
  | inl err =>
      if errors_Is err ErrIAMNotFound
      then pending binding "PolicyMissing" ("policy " +:+ fmt_q policyName +:+ " does not exist yet")
      else fail binding "PolicyLookupFailed" (error_string err)
  | inr _ =>
      let binding := with_policy policyName binding in
      try desired <- resolveSubjects binding catch err => Ret (Done noResult (Some err));
      do detached <- detachStale binding policyName target desired;
      match detached with
      | Some o => Ret o
      | None =>
          do r <- attachDesired binding policyName target desired;
          match r with
          | inl o => Ret o
          | inr (attached, pendingSubjects) =>
              let binding := with_attached attached binding in
              if negb (bool_decide (pendingSubjects = []))
              then pending binding "SubjectMissing"
                     ("identities do not exist yet: " +:+ Join pendingSubjects ", ")
              else
                check kube (KStatusUpdate KS3PolicyBinding (recordReady binding))
                catch err => Ret (Done noResult (Some err));
                Ret (Done (requeueIn iamResyncInterval) None)
          end
      end
  end.

Definition Reconcile (req : NamespacedName) : op outcome :=
  try binding <- kube (KGet KS3PolicyBinding req)
    catch err => Ret (Done noResult (IgnoreNotFound err));
  try policyName <- boundPolicy binding catch err => Ret (Done noResult (Some err));
  do admitted <- admission binding;
  match admitted with
  | inl o => Ret o
  | inr binding =>
      do r <- resolveSeaweedFiler (bindspec_SeaweedRef (bind_Spec binding))
                (Namespace (bind_Meta binding));
      match r with
      | inl err => Ret (Done noResult (Some err))
      | inr None => clusterNotFound binding
      | inr (Some target) =>
          let binding := setCond binding S3ConditionClusterReachable ConditionTrue
                           "Reachable" "" in
          check getIAMAdmin target catch err => Ret (Done noResult (Some err));
          if negb (live (bind_Meta binding)) then handleDeletion binding policyName target
          else if negb (hasFinalizer binding s3PolicyBindingFinalizer) then
            let binding := addFinalizer binding s3PolicyBindingFinalizer in
            check kube (KUpdate KS3PolicyBinding binding)
            catch err => Ret (Done noResult (Some err));
            Ret (Done requeueNow None)
          else reconcileSubjects binding policyName target
      end
  end.

(** ** What the controller may do *)
Definition fetched (tr : trace) (req : NamespacedName) (b : S3PolicyBinding) : Prop :=
  saw_kube tr (KGet KS3PolicyBinding req) (Ok b).
Definition own_ns (b : S3PolicyBinding) : string := Namespace (bind_Meta b).
Definition own_cluster (b : S3PolicyBinding) : string :=
  seaweedRefKey (bindspec_SeaweedRef (bind_Spec b)) (own_ns b).

(** What a reference by name stands for, from the lookup seen. *)
Definition resolves (tr : trace) (k : Kind) `{Claimant (Obj k)} (b : S3PolicyBinding)
    (ref name : string) : Prop :=
  let key := {| nn_Namespace := own_ns b; nn_Name := ref |} in
  (exists o, saw_kube tr (KGet k key) (Ok o) /\
     name = if bool_decide (claim_cluster o = own_cluster b) then claim_name o else ref) \/
  (exists e, IsNotFound e = true /\ saw_kube tr (KGet k key) (Err e) /\ name = ref).

(** The policy a binding stands for: pinned once it has attached anything. *)
Definition bound (tr : trace) (b : S3PolicyBinding) (p : string) : Prop :=
  if bool_decide (bindst_PolicyName (bind_Status b) = "")
  then if bool_decide (bindst_AttachedSubjects (bind_Status b) = [])
       then resolves tr KS3Policy b (bindspec_PolicyRef (bind_Spec b)) p
       else p = bindspec_PolicyRef (bind_Spec b)
  else p = bindst_PolicyName (bind_Status b).

(** [desired] is what the subjects resolved to. *)
Definition desired_set (tr : trace) (b : S3PolicyBinding) (desired : list string) : Prop :=
  (forall u, u ∈ desired ->
     exists s, s ∈ bindspec_Subjects (bind_Spec b) /\ resolves tr KS3Identity b (sub_Name s) u) /\
  (forall s, s ∈ bindspec_Subjects (bind_Spec b) ->
     exists u, u ∈ desired /\ resolves tr KS3Identity b (sub_Name s) u).

Definition manages (tr : trace) (req : NamespacedName) (b : S3PolicyBinding) (p : string)
    (t : filerTarget) : Prop :=
  fetched tr req b /\ bound tr b p /\
  resolved tr (bindspec_SeaweedRef (bind_Spec b)) (own_ns b) t /\
  hasFinalizer b s3PolicyBindingFinalizer = true.

Definition active (tr : trace) (b : S3PolicyBinding) (p : string) (t : filerTarget) : Prop :=
  live (bind_Meta b) = true /\
  seaweed_granted tr (bindspec_SeaweedRef (bind_Spec b)) kindS3PolicyBinding (own_ns b) /\
  exists doc, saw tr (OIam t (GetPolicy p)) (Ok doc).

Definition may_attach (tr : trace) (req : NamespacedName) (t : filerTarget) (u p : string)
    : Prop :=
  exists b desired, manages tr req b p t /\ active tr b p t /\
    desired_set tr b desired /\ u ∈ desired.

Definition may_detach (tr : trace) (req : NamespacedName) (t : filerTarget) (u p : string)
    : Prop :=
  exists b, manages tr req b p t /\ u ∈ bindst_AttachedSubjects (bind_Status b) /\
    ((active tr b p t /\ exists desired, desired_set tr b desired /\ u ∉ desired) \/
     (live (bind_Meta b) = false /\ bindspec_ReclaimPolicy (bind_Spec b) <> S3ReclaimRetain)).

Definition detached (tr : trace) (u p : string) : Prop :=
  exists t r, saw tr (OIam t (DetachPolicy u p)) r /\ (r = None \/ r = Some ErrIAMNotFound).

Definition finalizer_update (tr : trace) (req : NamespacedName) (o : S3PolicyBinding) : Prop :=
  exists b, fetched tr req b /\ bind_Spec o = bind_Spec b /\
    (live (bind_Meta b) = true /\
       bind_Meta o = with_finalizers (bind_Meta b)
                      (AddFinalizer (Finalizers (bind_Meta b)) s3PolicyBindingFinalizer) \/
     live (bind_Meta b) = false /\
       bind_Meta o = with_finalizers (bind_Meta b)
                      (RemoveFinalizer (Finalizers (bind_Meta b)) s3PolicyBindingFinalizer) /\
       (bindspec_ReclaimPolicy (bind_Spec b) = S3ReclaimRetain \/
        exists p, bound tr b p /\
          forall u, u ∈ bindst_AttachedSubjects (bind_Status b) -> detached tr u p)).

Definition status_update (tr : trace) (req : NamespacedName) (o : S3PolicyBinding) : Prop :=
  exists b, fetched tr req b /\ bind_Spec o = bind_Spec b /\ bind_Meta o = bind_Meta b.

Definition binding_guard (req : NamespacedName) : Guard := fun tr X e =>
  match e with
  | OKube (KGet _ _) | OKube (KList _ _ _) => True
  | OKube (KUpdate KS3PolicyBinding o) => finalizer_update tr req o
  | OKube (KStatusUpdate KS3PolicyBinding o) => status_update tr req o
  | OIam t (GetPolicy _) => True
  | OIam t (AttachPolicy u p) => may_attach tr req t u p
  | OIam t (DetachPolicy u p) => may_detach tr req t u p
  | OAdminFactory _ | ODialTLS _ _ _ => True
  | _ => False
  end.

Lemma binding_fetched_mono tr new req b : fetched tr req b -> fetched (tr ++ new) req b.
Proof. apply saw_app_l. Qed.
Lemma resolves_mono tr new k `{Claimant (Obj k)} b ref name :
  resolves tr k b ref name -> resolves (tr ++ new) k b ref name.
Proof.
  intros [(o & ? & ?)|(e & ? & ? & ?)]; [left; exists o|right; exists e];
    split_and!; try done; by apply saw_app_l.
Qed.
Lemma binding_bound_mono tr new b p : bound tr b p -> bound (tr ++ new) b p.
Proof. unfold bound. repeat case_bool_decide; auto using resolves_mono. Qed.
Lemma desired_mono tr new b d : desired_set tr b d -> desired_set (tr ++ new) b d.
Proof.
  intros [H1 H2]. split.
  - intros u (s & ? & ?)%H1. exists s. auto using resolves_mono.
  - intros s (u & ? & ?)%H2. exists u. auto using resolves_mono.
Qed.
Lemma binding_manages_mono tr new req b p t :
  manages tr req b p t -> manages (tr ++ new) req b p t.
Proof.
  intros (? & ? & ? & ?). split_and!;
    auto using binding_fetched_mono, binding_bound_mono, resolved_mono.
Qed.
Lemma binding_active_mono tr new b p t : active tr b p t -> active (tr ++ new) b p t.
Proof.
  intros (? & ? & doc & ?). split_and!; [done|by apply granted_mono|].
  exists doc. by apply saw_app_l.
Qed.
Lemma detached_mono tr new u p : detached tr u p -> detached (tr ++ new) u p.
Proof. intros (t & r & ? & ?). exists t, r. split; [by apply saw_app_l|done]. Qed.
#[local] Hint Extern 2 (fetched (_ ++ _) _ _) => apply binding_fetched_mono : trace.
#[local] Hint Extern 2 (bound (_ ++ _) _ _) => apply binding_bound_mono : trace.
#[local] Hint Extern 2 (manages (_ ++ _) _ _ _ _) => apply binding_manages_mono : trace.
#[local] Hint Extern 2 (active (_ ++ _) _ _ _) => apply binding_active_mono : trace.
#[local] Hint Extern 2 (desired_set (_ ++ _) _ _) => apply desired_mono : trace.
#[local] Hint Extern 2 (detached (_ ++ _) _ _) => apply detached_mono : trace.

Lemma binding_guard_reads req : allows_reads (binding_guard req).
Proof. done. Qed.

(** The lookups, under any guard that allows reads. *)
Section lookups.
Context (G : Guard) (G_reads : allows_reads G).

Lemma resolveIdentityIAMName_swp b ref tr :
  swp G (resolveIdentityIAMName (own_ns b) ref (own_cluster b))
    (fun r tr' => match r with
       | inl _ => True | inr name => resolves tr' KS3Identity b ref name end) tr.
Proof using G_reads.
  unfold resolveIdentityIAMName. sx. split; [apply G_reads|]. intros [e|o].
  - destruct (IsNotFound e) eqn:He; sx; [|done]. right. exists e. auto with trace.
  - destruct (bool_decide _) eqn:Hd; sx; left; exists o; (split; [auto with trace|]);
      change (claim_cluster o) with (seaweedRefKey (idspec_SeaweedRef (id_Spec o))
        (Namespace (id_Meta o))); by rewrite Hd.
Qed.

Lemma resolvePolicyIAMName_swp b ref tr :
  swp G (resolvePolicyIAMName (own_ns b) ref (own_cluster b))
    (fun r tr' => match r with
       | inl _ => True | inr name => resolves tr' KS3Policy b ref name end) tr.
Proof using G_reads.
  unfold resolvePolicyIAMName. sx. split; [apply G_reads|]. intros [e|o].
  - destruct (IsNotFound e) eqn:He; sx; [|done]. right. exists e. auto with trace.
  - destruct (bool_decide _) eqn:Hd; sx; left; exists o; (split; [auto with trace|]);
      change (claim_cluster o) with (seaweedRefKey (polspec_SeaweedRef (pol_Spec o))
        (Namespace (pol_Meta o))); by rewrite Hd.
Qed.

Lemma boundPolicy_swp b tr :
  swp G (boundPolicy b)
    (fun r tr' => match r with inl _ => True | inr p => bound tr' b p end) tr.
Proof using G_reads.
  unfold boundPolicy, bound. repeat case_bool_decide; sx; try done.
  apply resolvePolicyIAMName_swp.
Qed.

Lemma resolveSubjects_swp b tr :
  swp G (resolveSubjects b)
    (fun r tr' => match r with inl _ => True | inr d => desired_set tr' b d /\ NoDup d end) tr.
Proof using G_reads.
  unfold resolveSubjects.
  eapply swp_seq; [eapply (swp_fold_until _ _
    (fun dn out tr' => NoDup out /\
       (forall u, u ∈ out -> exists s, s ∈ bindspec_Subjects (bind_Spec b) /\
                                    resolves tr' KS3Identity b (sub_Name s) u) /\
       (forall s, s ∈ dn -> exists u, u ∈ out /\ resolves tr' KS3Identity b (sub_Name s) u))
    (fun _ _ => True) _ [])|].
  - intros dn s rest out tr1 Heq (Hnd & Hsound & Hcomplete).
    eapply swp_seq_keep; [apply (resolveIdentityIAMName_swp b)|].
    intros [e|name] new Hname; sx; [done|].
    assert (s ∈ bindspec_Subjects (bind_Spec b)) as Hs by (simpl in Heq; rewrite Heq; set_solver).
    assert (forall out', out ⊆ out' -> name ∈ out' ->
      forall s', s' ∈ dn ++ [s] -> exists u, u ∈ out' /\
        resolves (tr1 ++ new) KS3Identity b (sub_Name s') u) as Hc'.
    { intros out' Hsub Hin s' [Hs'| ->%list_elem_of_singleton]%elem_of_app; [|by exists name].
      destruct (Hcomplete s' Hs') as (u & ? & ?). exists u.
      split; [by apply Hsub|by apply resolves_mono]. }
    assert (forall u, u ∈ out -> exists s, s ∈ bindspec_Subjects (bind_Spec b) /\
      resolves (tr1 ++ new) KS3Identity b (sub_Name s) u) as Hs'.
    { intros u (s' & ? & ?)%Hsound. exists s'. auto using resolves_mono. }
    case_bool_decide as Hin; sx.
    + split; [done|]. split; [done|]. by apply Hc'.
    + split; [apply NoDup_app; split_and!; [done|set_solver|apply NoDup_singleton]|].
      split; [|apply Hc'; set_solver].
      intros u [Hu| ->%list_elem_of_singleton]%elem_of_app; [by apply Hs'|by exists s].
  - split_and!; [constructor|set_solver|set_solver].
  - intros [e|out] tr1; sx; [done|]. intros (Hnd & Hsound & Hcomplete).
    pose proof (merge_sort_Permutation String.le out) as Hperm.
    split; [|by rewrite Hperm]. split.
    + intros u Hu. apply Hsound. unfold sort_strings in Hu. by rewrite Hperm in Hu.
    + intros s (u & ? & ?)%Hcomplete. exists u. split; [|done].
      unfold sort_strings. by rewrite Hperm.
Qed.
End lookups.

Section safety.
Context (req : NamespacedName) (b : S3PolicyBinding).
Notation G := (binding_guard req).
(** Same object, up to its status. *)
Definition same (o : S3PolicyBinding) : Prop :=
  bind_Meta o = bind_Meta b /\ bind_Spec o = bind_Spec b.
(** The recorded subjects are still those fetched. *)
Definition same_subjects (o : S3PolicyBinding) : Prop :=
  same o /\ bindst_AttachedSubjects (bind_Status o) = bindst_AttachedSubjects (bind_Status b).

Lemma binding_fail_swp o reason message tr :
  fetched tr req b -> same o -> swp G (fail o reason message) (fun _ _ => True) tr.
Proof. intros Hf [Hm Hs]. unfold fail. sx. split; [by exists b|]. by intros [e|]. Qed.
Lemma binding_pending_swp o reason message tr :
  fetched tr req b -> same o -> swp G (pending o reason message) (fun _ _ => True) tr.
Proof. intros Hf [Hm Hs]. unfold pending. sx. split; [by exists b|]. by intros [e|]. Qed.
Lemma binding_refForbidden_swp o message tr :
  fetched tr req b -> same o -> swp G (refForbidden o message) (fun _ _ => True) tr.
Proof. intros Hf [Hm Hs]. unfold refForbidden. sx. split; [by exists b|]. by intros [e|]. Qed.
Lemma binding_clusterNotFound_swp o tr :
  fetched tr req b -> same o -> swp G (clusterNotFound o) (fun _ _ => True) tr.
Proof. intros Hf [Hm Hs]. unfold clusterNotFound. sx. split; [by exists b|done]. Qed.

Lemma same_desired o d tr : same o -> desired_set tr o d -> desired_set tr b d.
Proof.
  intros [Hm Hs]. unfold desired_set, resolves, own_cluster, own_ns. by rewrite Hm, Hs.
Qed.

Lemma detachStale_swp o p t desired tr :
  same_subjects o -> manages tr req b p t -> active tr b p t -> desired_set tr b desired ->
  swp G (detachStale o p t desired) (fun _ _ => True) tr.
Proof.
  intros [Hsame Hatt] Hman Hact Hdes. unfold detachStale. rewrite Hatt.
  eapply swp_mono; [|apply (swp_for_until _ _ (fun _ tr' => exists new, tr' = tr ++ new)
                      (fun _ _ => True) _ [])].
  { done. }
  2: { exists []. by rewrite app_nil_r. }
  intros dn u rest tr1 Heq [new ->]. case_bool_decide as Hin; sx; [by exists new|].
  assert (u ∈ bindst_AttachedSubjects (bind_Status b)) as Hu
    by (simpl in Heq; rewrite Heq; set_solver).
  split.
  { exists b. split; [auto with trace|]. split; [done|]. left. split; [auto with trace|].
    exists desired. auto with trace. }
  assert (exists r : option error, True) as _ by by exists None.
  intros [e|]; sx; [|by exists (new ++ [Ev (OIam t (DetachPolicy u p)) None]); rewrite app_assoc].
  destruct (errors_Is _ _); sx;
    [by exists (new ++ [Ev (OIam t (DetachPolicy u p)) (Some e)]); rewrite app_assoc|].
  eapply swp_seq; [apply binding_fail_swp; [|done]|done]. repeat apply binding_fetched_mono. apply Hman.
Qed.

Lemma attachDesired_swp o p t desired tr :
  same o -> manages tr req b p t -> active tr b p t -> desired_set tr b desired ->
  swp G (attachDesired o p t desired) (fun _ _ => True) tr.
Proof.
  intros Hsame Hman Hact Hdes. unfold attachDesired.
  eapply swp_mono; [|apply (swp_fold_until _ _ (fun _ _ tr' => exists new, tr' = tr ++ new)
                      (fun _ _ => True) _ [])].
  { done. }
  2: { exists []. by rewrite app_nil_r. }
  intros dn u rest [att pend] tr1 Heq [new ->]. sx.
  assert (u ∈ desired) as Hu by (simpl in Heq; rewrite Heq; set_solver).
  split; [exists b, desired; auto with trace|].
  intros [e|]; sx; [|by exists (new ++ [Ev (OIam t (AttachPolicy u p)) None]); rewrite app_assoc].
  destruct (errors_Is _ _); sx;
    [by exists (new ++ [Ev (OIam t (AttachPolicy u p)) (Some e)]); rewrite app_assoc|].
  eapply swp_seq; [apply binding_fail_swp; [|done]|done]. repeat apply binding_fetched_mono. apply Hman.
Qed.

Lemma reconcileSubjects_swp o p t tr :
  same_subjects o -> manages tr req b p t -> live (bind_Meta b) = true ->
  seaweed_granted tr (bindspec_SeaweedRef (bind_Spec b)) kindS3PolicyBinding (own_ns b) ->
  swp G (reconcileSubjects o p t) (fun _ _ => True) tr.
Proof.
  intros Hsame Hman Hl Hg. unfold reconcileSubjects. sx. split; [done|].
  assert (fetched tr req b) as Hf by apply Hman.
  intros [e|doc]; sx.
  { destruct (errors_Is _ _); [apply binding_pending_swp|apply binding_fail_swp];
      first [by apply Hsame|auto with trace]. }
  set (tr1 := tr ++ _).
  assert (active tr1 b p t) as Hact.
  { unfold tr1. split_and!; [done|auto with trace|]. exists doc. auto with trace. }
  assert (manages tr1 req b p t) as Hman1 by (unfold tr1; auto with trace).
  eapply swp_seq_keep; [apply resolveSubjects_swp, binding_guard_reads|].
  intros [e|d] new; sx; [done|]. intros [Hd _].
  apply (same_desired _ _ _ (proj1 Hsame)) in Hd.
  eapply swp_seq_keep; [apply detachStale_swp; auto with trace; exact Hsame|].
  intros [r|] new2 _; sx; [done|].
  eapply swp_seq_keep; [apply attachDesired_swp; auto with trace; apply Hsame|].
  intros [r|[att pend]] new3 _; sx; [done|]. case_bool_decide; sx.
  - split; [|by intros [e|]]. exists b. split; [do 3 apply binding_fetched_mono; apply Hman1|].
    exact (conj (proj2 (proj1 Hsame)) (proj1 (proj1 Hsame))).
  - apply binding_pending_swp; [do 3 apply binding_fetched_mono; apply Hman1|apply Hsame].
Qed.

Lemma binding_handleDeletion_swp o p t tr :
  same_subjects o -> live (bind_Meta b) = false -> fetched tr req b -> bound tr b p ->
  resolved tr (bindspec_SeaweedRef (bind_Spec b)) (own_ns b) t ->
  swp G (handleDeletion o p t) (fun _ _ => True) tr.
Proof.
  intros [[Hm Hs] Hatt] Hdel Hf Hb Hres. unfold handleDeletion.
  assert (hasFinalizer o s3PolicyBindingFinalizer = hasFinalizer b s3PolicyBindingFinalizer) as ->.
  { unfold hasFinalizer; simpl. by rewrite Hm. }
  destruct (hasFinalizer b _) eqn:Hfin; sx; [|done].
  eapply (swp_seq_keep _ _ _ (fun failed tr' => failed = None ->
    bindspec_ReclaimPolicy (bind_Spec b) = S3ReclaimRetain \/
    forall u, u ∈ bindst_AttachedSubjects (bind_Status b) -> detached tr' u p)).
  - assert (bindspec_ReclaimPolicy (bind_Spec (io_setPhase S3PhaseTerminating o)) =
            bindspec_ReclaimPolicy (bind_Spec b)) as -> by (simpl; by rewrite Hs).
    case_bool_decide as Hrec; sx; [by left|].
    assert (bindst_AttachedSubjects (bind_Status (io_setPhase S3PhaseTerminating o)) =
            bindst_AttachedSubjects (bind_Status b)) as -> by done.
    eapply swp_mono; [|apply (swp_for_until _ _ (fun dn tr' =>
       (exists new, tr' = tr ++ new) /\ forall u, u ∈ dn -> detached tr' u p)
       (fun _ _ => True) _ [])].
    + intros [e|] tr'; [done|]. intros [_ Hd] _. by right.
    + intros dn u rest tr1 Heq [[new ->] Hd]; sx.
      assert (u ∈ bindst_AttachedSubjects (bind_Status b)) as Hu
        by (simpl in Heq; rewrite Heq; set_solver).
      split.
      { exists b. split; [apply binding_manages_mono; by split_and!|]. split; [done|]. by right. }
      assert (forall r, (r = None \/ r = Some ErrIAMNotFound) ->
        let tr2 := (tr ++ new) ++ [Ev (OIam t (DetachPolicy u p)) r] in
        (exists new, tr2 = tr ++ new) /\ forall u0, u0 ∈ dn ++ [u] -> detached tr2 u0 p) as Hstep.
      { intros r Hr. split; [eexists; by rewrite <-app_assoc|].
        intros u0 [Hu0| ->%list_elem_of_singleton]%elem_of_app; [auto with trace|].
        exists t, r. auto with trace. }
      intros [e|]; sx; [|by apply Hstep; left].
      destruct (errors_Is e _) eqn:He; sx.
      * apply Hstep. unfold errors_Is in He. apply bool_decide_eq_true in He. subst. by right.
      * split; [|done]. exists b. auto with trace.
    + split; [exists []; by rewrite app_nil_r|set_solver].
  - intros [e|] new2 Hrel; sx; [done|]. split; [|by intros [e|]].
    exists b. split; [auto with trace|]. split; [done|]. right.
    split; [done|]. split; [by simpl; rewrite Hm|].
    destruct (Hrel eq_refl); [by left|right]. exists p. auto with trace.
Qed.
End safety.

Lemma binding_admission_swp req b tr :
  fetched tr req b ->
  swp (binding_guard req) (admission b)
    (fun r tr' => match r with
       | inl _ => True
       | inr o' => same_subjects b o' /\ (live (bind_Meta b) = true ->
           seaweed_granted tr' (bindspec_SeaweedRef (bind_Spec b)) kindS3PolicyBinding (own_ns b))
       end) tr.
Proof.
  intros Hf. unfold admission. destruct (live (bind_Meta b)); [|by sx].
  eapply swp_seq_keep; [apply seaweedRefPermitted_swp, binding_guard_reads|].
  intros [e|[]] new Hg; sx; [done| |].
  - split; [done|]. intros _. by apply Hg.
  - eapply swp_seq; [apply (binding_refForbidden_swp req b); [auto with trace|done]|]. done.
Qed.

Lemma binding_Reconcile_swp req tr :
  swp (binding_guard req) (Reconcile req) (fun _ _ => True) tr.
Proof.
  unfold Reconcile. sx. split; [done|]. intros [e|b]; sx; [done|].
  set (tr1 := tr ++ _). assert (fetched tr1 req b) as Hf by (unfold fetched, tr1; auto with trace).
  eapply swp_seq_keep; [apply boundPolicy_swp, binding_guard_reads|].
  intros [e|p] new0; sx; [done|]. intros Hb.
  eapply swp_seq_keep; [apply (binding_admission_swp req b); auto with trace|].
  intros [o|o] new; sx; [done|]. intros [Hsame Hadm].
  eapply swp_seq_keep; [apply resolveSeaweedFiler_swp, binding_guard_reads|].
  assert (bindspec_SeaweedRef (bind_Spec o) = bindspec_SeaweedRef (bind_Spec b)) as ->
    by by rewrite (proj2 (proj1 Hsame)).
  assert (Namespace (bind_Meta o) = own_ns b) as ->.
  { unfold own_ns. by rewrite (proj1 (proj1 Hsame)). }
  intros [e|[t|]] new2; sx; [done| |]; intros Hres.
  - unfold getIAMAdmin. sx. split; [done|]. intros [e|]; sx; [done|].
    set (o' := setCond o _ _ _ _).
    assert (same_subjects b o') as Hsame' by done. clearbody o'.
    pose proof Hsame' as [[Hm' Hs'] _].
    assert (live (bind_Meta o') = live (bind_Meta b)) as -> by by rewrite Hm'.
    assert (hasFinalizer o' s3PolicyBindingFinalizer = hasFinalizer b s3PolicyBindingFinalizer)
      as -> by (unfold hasFinalizer; simpl; by rewrite Hm').
    set (tr2 := (((tr1 ++ new0) ++ new) ++ new2) ++ _).
    assert (fetched tr2 req b) as Hf2 by (unfold tr2; auto with trace).
    assert (bound tr2 b p) as Hb2 by (unfold tr2; auto with trace).
    assert (resolved tr2 (bindspec_SeaweedRef (bind_Spec b)) (own_ns b) t) as Hres2
      by (unfold tr2; auto with trace).
    destruct (live (bind_Meta b)) eqn:Hl; sx; [|by apply (binding_handleDeletion_swp req b)].
    destruct (hasFinalizer b _) eqn:Hfin; sx.
    + apply (reconcileSubjects_swp req b); try done. unfold tr2. specialize (Hadm eq_refl).
      auto with trace.
    + split; [|by intros [e|]]. exists b. split; [done|]. split; [done|].
      left. split; [done|]. simpl. by rewrite Hm'.
  - apply (binding_clusterNotFound_swp req b); [auto with trace|apply Hsame].
Qed.

(** C15. The S3PolicyBinding controller attaches and detaches only what the
    binding stands for.  Whatever the API server and the filer answer: the
    policy is the one the binding is pinned to, or the one its reference resolves to
    while nothing is attached yet; it is attached only to users the listed subjects
    resolve to, for a live resource with its finalizer and a grant for the cluster,
    after the policy was seen to exist; it is detached only from users the status
    records, either because no subject resolves to them any more or because the
    resource is being deleted without Retain; and the finalizer is dropped only
    when every recorded user was detached (or is gone) or the resource is retained. *)
Theorem binding_reconcile_guarded req tr r :
  exec trace_env (Reconcile req) [] tr r -> guarded (binding_guard req) tr.
Proof. intros Hx. by eapply swp_theorem in Hx as [? _]; [|apply binding_Reconcile_swp]. Qed.

(** ** What a pass achieves *)
Definition deleted : outcome := Done noResult None.
Definition unfinished (o : outcome) : Prop := o <> resync /\ o <> deleted.

Lemma binding_fail_quiet o reason message tr :
  swp quiet_guard (fail o reason message) (fun r _ => unfinished r) tr.
Proof. unfold fail. sx. split; [done|]. by intros [e|]. Qed.
Lemma pending_quiet o reason message tr :
  swp quiet_guard (pending o reason message) (fun r _ => unfinished r) tr.
Proof. unfold pending. sx. split; [done|]. by intros [e|]. Qed.
Lemma binding_refForbidden_quiet o message tr :
  swp quiet_guard (refForbidden o message) (fun r _ => unfinished r) tr.
Proof. unfold refForbidden. sx. split; [done|]. by intros [e|]. Qed.
Lemma binding_clusterNotFound_quiet o tr :
  swp quiet_guard (clusterNotFound o) (fun r _ => unfinished r) tr.
Proof. unfold clusterNotFound. sx. by split. Qed.

Lemma binding_admission_quiet b :
  swp quiet_guard (admission b)
    (fun r _ => match r with inl out => unfinished out | inr o' => same_subjects b o' end) [].
Proof.
  unfold admission. destruct (live _); [|by sx].
  eapply swp_seq; [apply seaweedRefPermitted_swp, quiet_reads|].
  intros [e|[]] tr _; sx; [done|done|].
  eapply swp_seq; [apply binding_refForbidden_quiet|]. by intros.
Qed.

(** The effect of attaching and detaching on one user. *)
Definition attach (p : string) (u : IAMUser) : IAMUser :=
  if bool_decide (p ∈ user_PolicyNames u) then u
  else user_policies (user_PolicyNames u ++ [p]) u.
Definition detach (p : string) (u : IAMUser) : IAMUser :=
  user_policies (List.filter (fun q => negb (bool_decide (q = p))) (user_PolicyNames u)) u.

Lemma attach_idem p u : attach p (attach p u) = attach p u.
Proof.
  unfold attach. destruct (bool_decide (p ∈ user_PolicyNames u)) eqn:Hp; [by rewrite Hp|].
  rewrite bool_decide_true; [done|]. simpl. set_solver.
Qed.
Lemma detach_idem p u : detach p (detach p u) = detach p u.
Proof.
  unfold detach, user_policies; simpl. f_equal. induction (user_PolicyNames u) as [|q l IH];
    [done|]. simpl. destruct (negb _) eqn:Hq; simpl; [|done]. by rewrite Hq, IH.
Qed.

Section achieves.
Context (objs : forall k, NamespacedName -> option (Obj k)) (b : S3PolicyBinding).
Notation env := (iam_env objs).

(** What a reference by name stands for in the snapshot. *)
Definition referent_name (k : Kind) `{Claimant (Obj k)} (ref : string) : string :=
  match objs k {| nn_Namespace := own_ns b; nn_Name := ref |} with
  | Some o => if bool_decide (claim_cluster o = own_cluster b) then claim_name o else ref
  | None => ref
  end.
Definition desired_users : list string :=
  map (fun s => referent_name KS3Identity (sub_Name s)) (bindspec_Subjects (bind_Spec b)).
Definition bound_policy : string :=
  if bool_decide (bindst_PolicyName (bind_Status b) = "")
  then if bool_decide (bindst_AttachedSubjects (bind_Status b) = [])
       then referent_name KS3Policy (bindspec_PolicyRef (bind_Spec b))
       else bindspec_PolicyRef (bind_Spec b)
  else bindst_PolicyName (bind_Status b).

Lemma resolveIdentityIAMName_wp ref s :
  wp env (resolveIdentityIAMName (own_ns b) ref (own_cluster b))
    (fun r s' => s' = s /\ match r with
       | inl _ => True | inr name => name = referent_name KS3Identity ref end) s.
Proof.
  unfold resolveIdentityIAMName, referent_name. wx. intros [e|o] s1 [-> Ho]; simpl in Ho.
  - destruct (IsNotFound e); wx; [|done]. by rewrite Ho.
  - rewrite Ho. change (claim_cluster o) with (seaweedRefKey (idspec_SeaweedRef (id_Spec o))
      (Namespace (id_Meta o))). by destruct (bool_decide _) eqn:Hd; wx; rewrite ?Hd.
Qed.

Lemma boundPolicy_wp s :
  wp env (boundPolicy b)
    (fun r s' => s' = s /\ match r with inl _ => True | inr p => p = bound_policy end) s.
Proof.
  unfold boundPolicy, bound_policy. repeat case_bool_decide; wx; try done.
  unfold resolvePolicyIAMName, referent_name. wx. intros [e|o] s1 [-> Ho]; simpl in Ho;
    fold (own_ns b) in *.
  - destruct (IsNotFound e); wx; [|done]. by rewrite Ho.
  - rewrite Ho. fold (own_cluster b).
    change (claim_cluster o) with (seaweedRefKey (polspec_SeaweedRef (pol_Spec o))
      (Namespace (pol_Meta o))). by destruct (bool_decide _) eqn:Hd; wx; rewrite ?Hd.
Qed.

Lemma resolveSubjects_wp o s :
  same b o ->
  wp env (resolveSubjects o)
    (fun r s' => s' = s /\ match r with
       | inl _ => True | inr d => forall u, u ∈ d <-> u ∈ desired_users end) s.
Proof.
  intros [Hm Hs]. unfold resolveSubjects. rewrite Hm, Hs.
  change (Namespace (bind_Meta b)) with (own_ns b).
  change (seaweedRefKey (bindspec_SeaweedRef (bind_Spec b)) (own_ns b)) with (own_cluster b).
  eapply wp_seq; [eapply (wp_fold_until _ _
    (fun dn out s' => s' = s /\ forall u, u ∈ out <->
        u ∈ map (fun s => referent_name KS3Identity (sub_Name s)) dn)
    (fun _ s' => s' = s) _ [])|].
  - intros dn x rest out s1 _ [-> Hout].
    eapply wp_seq; [apply resolveIdentityIAMName_wp|].
    intros [e|name] s2 [-> Hname]; wx; [done|]. subst name.
    case_bool_decide as Hin; wx; (split; [done|]); intros u; rewrite map_app, elem_of_app;
      simpl; rewrite list_elem_of_singleton.
    + rewrite Hout in *. naive_solver.
    + rewrite elem_of_app, list_elem_of_singleton. by rewrite Hout.
  - split; [done|]. intros u. simpl. set_solver.
  - intros [e|out] s1; wx; [done|]. intros [-> Hout]. split; [done|]. intros u.
    unfold sort_strings. rewrite merge_sort_Permutation. apply Hout.
Qed.

Lemma binding_fail_wp {R} o reason message s (f : outcome -> R) (Q : R -> Sim -> Prop) :
  (forall r, unfinished r -> Q (f r) s) ->
  wp env (do r <- fail o reason message; Ret (f r)) Q s.
Proof. intros HQ. eapply quiet_seq; [apply binding_fail_quiet|]. intros r Hr. by apply HQ. Qed.

(** The users after detaching [p] from those of [l] that are not in [keep]. *)
Definition detached_users (p : string) (l keep : list string) (s s' : Sim) : Prop :=
  sim_policies s' = sim_policies s /\ sim_oidc s' = sim_oidc s /\
  forall u, sim_users s' !! u =
    if decide (u ∈ l /\ u ∉ keep) then detach p <$> sim_users s !! u else sim_users s !! u.

Lemma detach_step p dn x keep s s1 s2 r :
  detached_users p dn keep s s1 -> x ∉ keep ->
  (s2, r) = sim_iam (DetachPolicy x p) s1 -> detached_users p (dn ++ [x]) keep s s2.
Proof.
  intros (Hp & Ho & Hu) Hx Hr. cbn [sim_iam] in Hr. unfold with_user in Hr.
  assert (forall u, u <> x -> sim_users s1 !! u =
    if decide (u ∈ dn ++ [x] /\ u ∉ keep) then detach p <$> sim_users s !! u
    else sim_users s !! u) as Hother.
  { intros u Hne. rewrite Hu. repeat case_decide; set_solver. }
  assert (detach p <$> sim_users s1 !! x = detach p <$> sim_users s !! x) as Hself.
  { rewrite Hu. case_decide; [|done]. destruct (sim_users s !! x); simpl; [|done].
    by rewrite detach_idem. }
  destruct (sim_users s1 !! x) as [u|] eqn:Hux; simplify_eq; split_and!; try done; simpl; intros v.
  - destruct (decide (v = x)) as [->|Hne].
    + rewrite lookup_insert_eq, decide_True by set_solver. by rewrite <-Hself.
    + rewrite lookup_insert_ne by done. by apply Hother.
  - destruct (decide (v = x)) as [->|Hne]; [|by apply Hother].
    rewrite decide_True by set_solver. by rewrite <-Hself, Hux.
Qed.

Lemma detached_skip p dn x keep s s1 :
  detached_users p dn keep s s1 -> x ∈ keep -> detached_users p (dn ++ [x]) keep s s1.
Proof.
  intros (Hp & Ho & Hu) Hx. split_and!; [done|done|]. intros u. rewrite Hu.
  repeat case_decide; set_solver.
Qed.

Lemma detach_answer x p s s2 e :
  (s2, Some e) = sim_iam (DetachPolicy x p) s -> e = ErrIAMNotFound.
Proof. cbn [sim_iam]. unfold with_user. destruct (_ !! x); simpl; congruence. Qed.

Lemma detachStale_wp o p t desired s :
  bindst_AttachedSubjects (bind_Status o) = bindst_AttachedSubjects (bind_Status b) ->
  wp env (detachStale o p t desired)
    (fun r s' => match r with
       | Some out => unfinished out
       | None => detached_users p (bindst_AttachedSubjects (bind_Status b)) desired s s'
       end) s.
Proof.
  intros Hatt. unfold detachStale. rewrite Hatt.
  apply (wp_for_until _ _ (fun dn s' => detached_users p dn desired s s')
           (fun out _ => unfinished out) _ []).
  - intros dn x rest s1 _ Hs1. case_bool_decide as Hin; wx; [by apply detached_skip|].
    intros r s2 [Hr|(-> & e & -> & e' & ->)].
    + destruct r as [e|]; wx; [|by eapply detach_step].
      pose proof (detach_answer _ _ _ _ _ Hr) as ->. cbn. by eapply detach_step.
    + wx. by apply binding_fail_wp.
  - split_and!; [done|done|]. intros u. rewrite decide_False by set_solver. done.
Qed.

(** The users after attaching [p] to those of [l]. *)
Definition attached_users (p : string) (l : list string) (s s' : Sim) : Prop :=
  sim_policies s' = sim_policies s /\ sim_oidc s' = sim_oidc s /\
  forall u, sim_users s' !! u =
    if decide (u ∈ l) then attach p <$> sim_users s !! u else sim_users s !! u.

Lemma attach_step p dn x s s1 s2 r :
  attached_users p dn s s1 -> (s2, r) = sim_iam (AttachPolicy x p) s1 ->
  attached_users p (dn ++ [x]) s s2 /\ (r = None -> is_Some (sim_users s !! x)).
Proof.
  intros (Hp & Ho & Hu) Hr. cbn [sim_iam] in Hr. unfold with_user in Hr.
  assert (forall u, u <> x -> sim_users s1 !! u =
    if decide (u ∈ dn ++ [x]) then attach p <$> sim_users s !! u else sim_users s !! u) as Hother.
  { intros u Hne. rewrite Hu. repeat case_decide; set_solver. }
  assert (attach p <$> sim_users s1 !! x = attach p <$> sim_users s !! x) as Hself.
  { rewrite Hu. case_decide; [|done]. destruct (sim_users s !! x); simpl; [|done].
    by rewrite attach_idem. }
  destruct (sim_users s1 !! x) as [u|] eqn:Hux; simplify_eq.
  - assert (is_Some (sim_users s !! x)) as Hex.
    { destruct (sim_users s !! x); [by eexists|done]. }
    split; [|done]. split_and!; [done|done|]. intros v. simpl.
    destruct (decide (v = x)) as [->|Hne].
    + rewrite lookup_insert_eq, decide_True by set_solver. by rewrite <-Hself.
    + rewrite lookup_insert_ne by done. by apply Hother.
  - split; [|done]. split_and!; [done|done|]. intros v.
    destruct (decide (v = x)) as [->|Hne]; [|by apply Hother].
    rewrite decide_True by set_solver. by rewrite <-Hself, Hux.
Qed.

Lemma attach_answer x p s s2 e :
  (s2, Some e) = sim_iam (AttachPolicy x p) s -> e = ErrIAMNotFound.
Proof. cbn [sim_iam]. unfold with_user. destruct (_ !! x); simpl; congruence. Qed.

Lemma attachDesired_wp o p t desired s :
  wp env (attachDesired o p t desired)
    (fun r s' => match r with
       | inl out => unfinished out
       | inr (att, pend) => attached_users p desired s s' /\
           (pend = [] -> forall u, u ∈ desired -> is_Some (sim_users s !! u))
       end) s.
Proof.
  unfold attachDesired.
  eapply wp_mono; [|apply (wp_fold_until _ _ (fun dn acc s' => attached_users p dn s s' /\
           (acc.2 = [] -> forall u, u ∈ dn -> is_Some (sim_users s !! u)))
           (fun out _ => unfinished out) _ [])].
  - by intros [out|[att pend]] s'.
  - intros dn x rest [att pend] s1 _ [Hs1 Hp]. wx.
    intros r s2 [Hr|(-> & e & -> & e' & ->)]; [|wx; by apply binding_fail_wp].
    destruct (attach_step _ _ _ _ _ _ _ Hs1 Hr) as [Hs2 Hex].
    destruct r as [e|]; wx.
    + pose proof (attach_answer _ _ _ _ _ Hr) as ->. cbn. split; [done|].
      intros H1. by destruct pend.
    + split; [done|]. simpl. intros Hnil u [Hu| ->%list_elem_of_singleton]%elem_of_app;
        [by apply Hp|by apply Hex].
  - split; [|set_solver]. split_and!; [done|done|]. intros u.
    rewrite decide_False by set_solver. done.
Qed.

(** The store after a successful pass. *)
Definition converged (s s' : Sim) : Prop :=
  is_Some (sim_policies s !! bound_policy) /\
  sim_policies s' = sim_policies s /\ sim_oidc s' = sim_oidc s /\
  (forall u, u ∈ desired_users -> is_Some (sim_users s !! u)) /\
  forall u, sim_users s' !! u =
    if decide (u ∈ desired_users) then attach bound_policy <$> sim_users s !! u
    else if decide (u ∈ bindst_AttachedSubjects (bind_Status b))
    then detach bound_policy <$> sim_users s !! u
    else sim_users s !! u.

Lemma reconcileSubjects_wp o t s :
  same_subjects b o ->
  wp env (reconcileSubjects o bound_policy t)
    (fun r s' => r <> deleted /\ (r = resync -> converged s s')) s.
Proof.
  intros Hsame. unfold reconcileSubjects. wx. intros r s1 [Hr|(-> & e & -> & e' & ->)].
  2: { wx. eapply wp_mono; [|eapply (quiet_wp _ _ _ []), binding_fail_quiet]. by intros r s' [-> [? ?]]. }
  cbn [sim_iam] in Hr. destruct (sim_policies s !! bound_policy) as [doc|] eqn:Hpol; simplify_eq; wx.
  2: { eapply wp_mono; [|eapply (quiet_wp _ _ _ []), pending_quiet]. by intros r s' [-> [? ?]]. }
  eapply wp_seq; [apply resolveSubjects_wp, Hsame|].
  intros [e|d] s1 [-> Hd]; wx; [done|].
  eapply wp_seq; [apply detachStale_wp; apply Hsame|].
  intros [out|] s1 Hs1; wx; [by destruct Hs1|].
  eapply wp_seq; [apply attachDesired_wp|].
  intros [out|[att pend]] s2 Hs2; wx; [by destruct Hs2|].
  destruct Hs2 as [(Hp2 & Ho2 & Hu2) Hex]. destruct Hs1 as (Hp1 & Ho1 & Hu1).
  case_bool_decide as Hpend; wx.
  2: { eapply wp_mono; [|eapply (quiet_wp _ _ _ []), pending_quiet]. by intros r s' [-> [? ?]]. }
  intros [e|] s3 [-> _]; wx; [done|]. split; [done|]. intros _.
  specialize (Hex Hpend). unfold converged. rewrite Hp2, Ho2. split_and!; [by eexists|done|done| |].
  - intros u Hu. apply Hd, Hex in Hu. rewrite Hu1 in Hu.
    case_decide; [|done]. by destruct (sim_users s !! u).
  - intros u. specialize (Hd u). rewrite Hu2, Hu1.
    destruct (decide (u ∈ d)), (decide (u ∈ desired_users)); try tauto.
    + rewrite decide_False by tauto. done.
    + destruct (decide (u ∈ bindst_AttachedSubjects (bind_Status b)));
        [by rewrite decide_True|by rewrite decide_False by tauto].
Qed.

Lemma binding_handleDeletion_wp o t s :
  same_subjects b o ->
  wp env (handleDeletion o bound_policy t)
    (fun r s' => r <> resync /\ (r = deleted ->
       hasFinalizer b s3PolicyBindingFinalizer = true ->
       if bool_decide (bindspec_ReclaimPolicy (bind_Spec b) = S3ReclaimRetain) then s' = s
       else detached_users bound_policy (bindst_AttachedSubjects (bind_Status b)) [] s s')) s.
Proof.
  intros [[Hm Hs] Hatt]. unfold handleDeletion.
  assert (hasFinalizer o s3PolicyBindingFinalizer = hasFinalizer b s3PolicyBindingFinalizer) as ->.
  { unfold hasFinalizer; simpl. by rewrite Hm. }
  destruct (hasFinalizer b _) eqn:Hfin; wx; [|done].
  assert (bindspec_ReclaimPolicy (bind_Spec (io_setPhase S3PhaseTerminating o)) =
          bindspec_ReclaimPolicy (bind_Spec b)) as -> by (simpl; by rewrite Hs).
  assert (bindst_AttachedSubjects (bind_Status (io_setPhase S3PhaseTerminating o)) =
          bindst_AttachedSubjects (bind_Status b)) as -> by done.
  eapply (wp_seq _ _ _ (fun failed s' => failed = None ->
       if bool_decide (bindspec_ReclaimPolicy (bind_Spec b) = S3ReclaimRetain) then s' = s
       else detached_users bound_policy (bindst_AttachedSubjects (bind_Status b)) [] s s')).
  - case_bool_decide; wx; [done|].
    eapply wp_mono; [|apply (wp_for_until _ _
      (fun dn s' => detached_users bound_policy dn [] s s') (fun _ _ => True) _ [])].
    + by intros [e|] s'.
    + intros dn x rest s1 _ Hs1. wx. intros r s2 [Hr|(-> & e & -> & e' & ->)].
      * destruct r as [e|]; wx; [|eapply detach_step; [done|set_solver|done]].
        pose proof (detach_answer _ _ _ _ _ Hr) as ->. cbn.
        eapply detach_step; [done|set_solver|done].
      * cbn. intros r s2 [-> _]. done.
    + split_and!; [done|done|]. intros u. rewrite decide_False by set_solver. done.
  - intros [e|] s1 Hs1; wx; [done|]. intros [e|] s2 [-> _]; wx; [done|].
    split; [done|]. intros _ _. by apply Hs1.
Qed.

Lemma binding_Reconcile_wp req s :
  objs KS3PolicyBinding req = Some b ->
  wp env (Reconcile req)
    (fun r s' =>
       (r = resync -> live (bind_Meta b) = true /\ converged s s') /\
       (r = deleted -> live (bind_Meta b) = false ->
        hasFinalizer b s3PolicyBindingFinalizer = true ->
        if bool_decide (bindspec_ReclaimPolicy (bind_Spec b) = S3ReclaimRetain) then s' = s
        else detached_users bound_policy (bindst_AttachedSubjects (bind_Status b)) [] s s')) s.
Proof.
  intros Hget. unfold Reconcile. wx. intros [e|o] s1 [-> Ho]; wx.
  { simpl in Ho. unfold IgnoreNotFound. rewrite Hget in Ho.
    destruct (IsNotFound e); [by specialize (Ho eq_refl)|done]. }
  simpl in Ho. rewrite Hget in Ho. injection Ho as <-.
  eapply wp_seq; [apply boundPolicy_wp|]. intros [e|p] s1 [-> Hp]; wx; [done|]. subst p.
  eapply quiet_seq; [apply binding_admission_quiet|]. intros [r|o] Hsame; wx.
  { by destruct Hsame. }
  eapply quiet_seq; [eapply swp_mono, resolveSeaweedFiler_swp, quiet_reads|].
  { intros r tr _. exact I. }
  intros [e|[t|]] _; wx; [done| |].
  2: { eapply wp_mono; [|eapply (quiet_wp _ _ _ []), binding_clusterNotFound_quiet]. by intros r s' [-> [? ?]]. }
  intros [e|] s1 ->; wx; [done|].
  set (o' := setCond o _ _ _ _). assert (same_subjects b o') as Hsame' by done. clearbody o'.
  rewrite (proj1 (proj1 Hsame')). destruct (live (bind_Meta b)) eqn:Hl; wx.
  - destruct (hasFinalizer _ _); wx; [|by intros [e|] s2 [-> _]].
    eapply wp_mono; [|by apply reconcileSubjects_wp]. intros r s' [? ?]. split; [|done].
    intros Hr. split; [done|]. by auto.
  - eapply wp_mono; [|by apply binding_handleDeletion_wp]. intros r s' [? Hdel]. split; [done|].
    intros Hr _ Hfin. by apply Hdel.
Qed.
End achieves.

(** A pass over an S3PolicyBinding that ends with the periodic resync leaves
    exactly the listed subjects attached, among those the binding ever recorded: every user a
    subject resolves to exists and has the bound policy attached; every other user
    the status recorded has it detached; and no other user, no other attached policy, no
    credential, no policy and no provider is changed. *)
Theorem binding_reconcile_converges
    (objs : forall k, NamespacedName -> option (Obj k)) req b s s' :
  objs KS3PolicyBinding req = Some b ->
  exec (iam_env objs) (Reconcile req) s s' resync ->
  live (bind_Meta b) = true /\ converged objs b s s'.
Proof.
  intros Hget Hx. pose proof (binding_Reconcile_wp objs b req s Hget) as Hwp.
  rewrite wp_exec in Hwp. by apply (Hwp _ _ Hx).
Qed.

(** Deleting an S3PolicyBinding undoes it.  When the pass over a binding that
    is being deleted succeeds (the finalizer is gone), every user recorded in its
    status has the bound policy detached and nothing else has changed; with
    reclaimPolicy Retain nothing has changed at all. *)
Theorem binding_deletion_detaches
    (objs : forall k, NamespacedName -> option (Obj k)) req b s s' :
  objs KS3PolicyBinding req = Some b ->
  live (bind_Meta b) = false -> hasFinalizer b s3PolicyBindingFinalizer = true ->
  exec (iam_env objs) (Reconcile req) s s' (Done noResult None) ->
  if bool_decide (bindspec_ReclaimPolicy (bind_Spec b) = S3ReclaimRetain) then s' = s
  else detached_users (bound_policy objs b) (bindst_AttachedSubjects (bind_Status b)) [] s s'.
Proof.
  intros Hget Hl Hfin Hx. pose proof (binding_Reconcile_wp objs b req s Hget) as Hwp.
  rewrite wp_exec in Hwp. by apply (Hwp _ _ Hx).
Qed.

(** ** A failed attach *)

(** Any answers, except that attaching [p] to [u] fails with [err]. *)
Definition attach_down (t : filerTarget) (u p : string) (err : error) : Env opE trace :=
  fun X e tr x tr' =>
    tr' = tr ++ [Ev e x] /\
    match e in opE X return X -> Prop with
    | OIam _ e' => match e' in iamE X return X -> Prop with
                   | AttachPolicy u' p' => fun r => u' = u -> p' = p -> r = Some err
                   | _ => fun _ => True
                   end
    | _ => fun _ => True
    end x.

(** The calls a pass makes are status writes and attachments, no detachment. *)
Definition not_detach (ev : event) : Prop :=
  match ev_call ev with OIam _ (DetachPolicy _ _) => False | _ => True end.

(** A failed attach makes the binding forget what it attached.  When
    attaching the policy to the first desired user fails with anything but
    not-found, the status the pass records lists no attached subject at all,
    whatever it recorded before, and nothing is detached: the users of the
    earlier record that come later in the list keep the policy but are no longer
    tracked, so a later pass will not detach them when they are removed from the
    spec. *)
Theorem binding_attach_failure_forgets b p t u rest err tr tr' r :
  errors_Is err ErrIAMNotFound = false ->
  exec (attach_down t u p err) (attachDesired b p t (u :: rest)) tr tr' r ->
  exists o ans new, tr' = tr ++ new /\
    saw_kube tr' (KStatusUpdate KS3PolicyBinding o) ans /\
    bindst_AttachedSubjects (bind_Status o) = [] /\ Forall not_detach new.
Proof.
  intros Herr. revert tr' r. apply wp_exec. unfold attachDesired. cbn [fold_until]. wx.
  intros r tr1 [-> Hr]. rewrite (Hr eq_refl eq_refl), Herr. unfold fail. wx.
  intros ans tr2 [-> _].
  assert (forall o : S3PolicyBinding, bindst_AttachedSubjects (bind_Status o) = [] ->
    let tr3 := (tr ++ [Ev (OIam t (AttachPolicy u p)) (Some err)]) ++
               [Ev (OKube (KStatusUpdate KS3PolicyBinding o)) ans] in
    exists o ans new, tr3 = tr ++ new /\
      saw_kube tr3 (KStatusUpdate KS3PolicyBinding o) ans /\
      bindst_AttachedSubjects (bind_Status o) = [] /\ Forall not_detach new) as Hdone.
  { intros o Ho. exists o, ans. eexists. rewrite <-app_assoc. split; [done|].
    split; [rewrite app_assoc; auto with trace|]. split; [done|]. by repeat constructor. }
  destruct ans; wx; by apply Hdone.
Qed.
End controller.

(** A binding of one policy to two users, a third recorded from an earlier spec. *)
Definition sample_binding (deleting : bool) : S3PolicyBinding := {|
  bind_Meta := {| Name := "bd"; Namespace := "a"; Generation := 1%Z; CreationTimestamp := 5%Z;
                  DeletionTimestamp := if deleting then Some 9%Z else None; Labels := ∅;
                  Annotations := ∅; Finalizers := [s3PolicyBindingFinalizer];
                  OwnerReferences := []; UID := "" |};
  bind_Spec := {| bindspec_SeaweedRef := {| ref_Name := "sw"; ref_Namespace := "" |};
                  bindspec_PolicyRef := "rw";
                  bindspec_Subjects := [{| sub_Kind := ""; sub_Name := "alice" |};
                                        {| sub_Kind := ""; sub_Name := "bob" |}];
                  bindspec_ReclaimPolicy := S3ReclaimDelete |};
  bind_Status := {| bindst_ObservedGeneration := 0%Z; bindst_Phase := ""; bindst_Conditions := [];
                    bindst_AttachedSubjects := ["carol"; "alice"]; bindst_PolicyName := "rw" |} |}.
Definition binding_users : gmap string IAMUser :=
  {["alice" := user_policies ["rw"] (new_user "alice" "" "" false);
    "bob" := new_user "bob" "" "" false;
    "carol" := user_policies ["ro"; "rw"] (new_user "carol" "" "" false)]}.
Definition binding_cluster (deleting : bool) : Sim :=
  set_users binding_users (set_policies {["rw" := "{}"]}
    (set_objs KS3PolicyBinding [sample_binding deleting]
       (set_objs KSeaweed [sample_sw "a"] sim_empty))).
Definition binding_req : NamespacedName := {| nn_Namespace := "a"; nn_Name := "bd" |}.
Definition binding_objs (deleting : bool) : forall k, NamespacedName -> option (Obj k) :=
  fun k key => List.find (fun o => bool_decide (obj_key o = key))
                 (sim_objs (binding_cluster deleting) k).

Lemma binding_reconcile_guarded_witness :
  let x := run (tracing sim) (Reconcile binding_req) (binding_cluster false, []) in
  x.2 = resync /\ length x.1.2 = 11 /\ guarded (binding_guard binding_req) x.1.2.
Proof.
  intros x. split; [by vm_compute|]. split; [by vm_compute|].
  apply (binding_reconcile_guarded binding_req x.1.2 x.2). apply run_tracing.
Defined.

Lemma binding_reconcile_converges_witness :
  let s := binding_cluster false in
  let s' := (run (sim_iam_only (binding_objs false)) (Reconcile binding_req) s).1 in
  converged (binding_objs false) (sample_binding false) s s' /\
  (user_PolicyNames <$> sim_users s' !! "bob") = Some ["rw"] /\
  (user_PolicyNames <$> sim_users s' !! "carol") = Some ["ro"].
Proof.
  intros s s'. split; [|by vm_compute].
  destruct (binding_reconcile_converges (binding_objs false) binding_req (sample_binding false)
              s s') as [_ Hc].
  - by vm_compute.
  - apply run_iam. by vm_compute.
  - exact Hc.
Defined.

Lemma binding_deletion_detaches_witness :
  let s := binding_cluster true in
  let s' := (run (sim_iam_only (binding_objs true)) (Reconcile binding_req) s).1 in
  detached_users (bound_policy (binding_objs true) (sample_binding true))
    ["carol"; "alice"] [] s s'.
Proof.
  intros s s'.
  apply (binding_deletion_detaches (binding_objs true) binding_req (sample_binding true) s s').
  - by vm_compute.
  - by vm_compute.
  - by vm_compute.
  - apply run_iam. by vm_compute.
Defined.

Definition down_handler : Handler opE trace := fun X e tr =>
  let x := match e in opE X return X with
           | OIam _ e' => match e' in iamE X return X with
                          | AttachPolicy _ _ => Some (ErrOther "unavailable")
                          | e' => (sim_iam e' sim_empty).2
                          end
           | e => (sim _ e sim_empty).2
           end in
  (tr ++ [Ev e x], x).
Definition sample_target : filerTarget :=
  {| address := "f"; adminSigningKey := ""; grpcDialOption := None; tlsFingerprint := "" |}.

Lemma down_refines u p :
  refines down_handler (attach_down sample_target u p (ErrOther "unavailable")).
Proof.
  intros X e s. split; [done|].
  destruct e as [Y e|t|Y t e|ms t|Y ms t e|ms d|Y ms d e|Y e|ca cert key| |n| | | |ty r m]; try done.
  by destruct e.
Qed.

Lemma binding_attach_failure_forgets_witness :
  exists o ans new, saw_kube new (KStatusUpdate KS3PolicyBinding o) ans /\
    bindst_AttachedSubjects (bind_Status (sample_binding false)) = ["carol"; "alice"] /\
    bindst_AttachedSubjects (bind_Status o) = [] /\ Forall not_detach new.
Proof.
  destruct (binding_attach_failure_forgets (sample_binding false) "rw" sample_target "bob"
    ["carol"] (ErrOther "unavailable") [] _ _ eq_refl
    (run_exec_eq _ down_handler
       (attachDesired (sample_binding false) "rw" sample_target ["bob"; "carol"]) [] _
       (down_refines "bob" "rw") eq_refl)) as (o & ans & new & Hnew & Hsaw & Ho & Hnd).
  exists o, ans, new. split; [|by split_and!]. rewrite <-(app_nil_l new), <-Hnew. exact Hsaw.
Defined.
