(* ===== verification/CredentialsController.v ===== *)
(** * The S3Credentials controller (internal/controller/s3credentials_controller.go) *)
From S2P Require Import Prelude Prog CoreTypes ApiTypes Effects Machinery Sim Trace RefGrant.
From S2P Require Import Cluster.
From S2P Require Import NameClaim IamCommon IamSpec.

Definition s3CredentialsManagedAnnotation : string :=
  "s3credentials.seaweed.seaweedfs.com/managed".
Definition defaultAccessKeyField : string := "accessKey".
Definition defaultSecretKeyField : string := "secretKey".

(** [controllerutil.SetControllerReference(owner, controlled, scheme)]: the
    controlled object's metadata with the owner reference added, or an error. *)
Class ControllerRef := {
  SetControllerReference : ObjectMeta -> ObjectMeta -> result ObjectMeta
}.
(** It changes nothing but the owner references. *)
Class ControllerRefLaws `{ControllerRef} := {
  set_controller_frame owner m m' :
    SetControllerReference owner m = Ok m' ->
    Name m' = Name m /\ Namespace m' = Namespace m /\ Annotations m' = Annotations m;
}.

(** [IAMUser.Credential] of swadmin/iam_client.go, on a non-nil user. *)
Definition Credential (u : IAMUser) (accessKey : string) : option IAMCredential :=
  List.find (fun c => bool_decide (AccessKey c = accessKey)) (user_Credentials u).

Definition credentialFields (cred : S3Credentials) : string * string :=
  let ref := credspec_SecretRef (cred_Spec cred) in
  (if bool_decide (sref_AccessKeyField ref = "") then defaultAccessKeyField
   else sref_AccessKeyField ref,
   if bool_decide (sref_SecretKeyField ref = "") then defaultSecretKeyField
   else sref_SecretKeyField ref).

Definition secretKeyName (cred : S3Credentials) : string :=
  let n := sref_Name (credspec_SecretRef (cred_Spec cred)) in
  if bool_decide (n = "") then Name (cred_Meta cred) else n.
Definition secretKeyNamespace (cred : S3Credentials) : string :=
  let n := sref_Namespace (credspec_SecretRef (cred_Spec cred)) in
  if bool_decide (n = "") then Namespace (cred_Meta cred) else n.

Section controller.
Context `{ApiMachinery} `{Digest} `{ControllerRef}.

Definition fail (cred : S3Credentials) (reason message : string) : op outcome :=
  let cred := io_setPhase S3PhaseFailed cred in
  let cred := setCond cred S3ConditionReady ConditionFalse reason message in
  check kube (KStatusUpdate KS3Credentials cred) catch err => Ret (Done noResult (Some err));
  Ret (Done (requeueIn requeueAfterTransient) None).

Definition refForbidden (cred : S3Credentials) (message : string) : op outcome :=
  let cred := setCond cred S3ConditionReferenceGranted ConditionFalse
                  "ReferenceGrantMissing" message in
  let cred := io_setPhase S3PhasePending cred in
  check kube (KStatusUpdate KS3Credentials cred) catch err => Ret (Done noResult (Some err));
  Ret (Done (requeueIn requeueAfterTransient) None).

Definition clusterNotFound (cred : S3Credentials) : op outcome :=
  let cred := setCond cred S3ConditionClusterReachable ConditionFalse
                  "ClusterRefNotFound"
                  ("Seaweed " +:+ fmt_q (ref_Name (credspec_SeaweedRef (cred_Spec cred))) +:+
                   " not found") in
  let cred := io_setPhase S3PhasePending cred in
  do _ <- kube (KStatusUpdate KS3Credentials cred);
  Ret (Done (requeueIn requeueAfterTransient) None).

Definition pending (cred : S3Credentials) (reason message : string) : op outcome :=
  let cred := io_setPhase S3PhasePending cred in
  let cred := setCond cred S3ConditionReady ConditionFalse reason message in
  check kube (KStatusUpdate KS3Credentials cred) catch err => Ret (Done noResult (Some err));
  Ret (Done (requeueIn requeueAfterTransient) None).

(** [Ok None] is a missing Secret. *)
Definition getSecret (namespace name : string) : op (result (option Secret)) :=
  do r <- kube (KGet KSecret {| nn_Namespace := namespace; nn_Name := name |});
  match r with
  | inl err => if IsNotFound err then Ret (Ok None) else Ret (Err err)
  | inr secret => Ret (Ok (Some secret))
  end.

Definition managed (secret : Secret) : bool :=
  bool_decide (Annotations (sec_Meta secret) !! s3CredentialsManagedAnnotation = Some "true").

Definition deleteManagedSecret (namespace name : string) : op (option error) :=
  try secret <- getSecret namespace name catch err => Ret (Some err);
  match secret with
  | None => Ret None
  | Some secret =>
      if negb (managed secret) then Ret None
      else
        do r <- kube (KDelete KSecret secret);
        match r with
        | Some err => if negb (IsNotFound err) then Ret (Some err) else Ret None
        | None => Ret None
        end
  end.

Definition without_owners (m : ObjectMeta) : ObjectMeta := {|
  Name := Name m; Namespace := Namespace m; Generation := Generation m;
  CreationTimestamp := CreationTimestamp m; DeletionTimestamp := DeletionTimestamp m;
  Labels := Labels m; Annotations := Annotations m; Finalizers := Finalizers m;
  OwnerReferences := []; UID := UID m |}.

Definition orphanManagedSecret (namespace name : string) : op (option error) :=
  try secret <- getSecret namespace name catch err => Ret (Some err);
  match secret with
  | None => Ret None
  | Some secret =>
      if negb (managed secret) || bool_decide (OwnerReferences (sec_Meta secret) = [])
      then Ret None
      else kube (KUpdate KSecret {| sec_Meta := without_owners (sec_Meta secret);
                                    sec_Data := sec_Data secret |})
  end.

Definition writeSecret (cred : S3Credentials) (secret : option Secret)
    (secretName secretNamespace akField skField ak sk : string) : op (option error) :=
  match secret with
  | None =>
      let meta := {| Name := secretName; Namespace := secretNamespace; Generation := 0%Z;
                     CreationTimestamp := 0%Z; DeletionTimestamp := None; Labels := ∅;
                     Annotations := {[s3CredentialsManagedAnnotation := "true"]};
                     Finalizers := []; OwnerReferences := []; UID := "" |} in
      match SetControllerReference (cred_Meta cred) meta with
      | inl err => Ret (Some err)
      | inr meta =>
          kube (KCreate KSecret {| sec_Meta := meta;
                                   sec_Data := <[skField := sk]> {[akField := ak]} |})
      end
  | Some secret =>
      if bool_decide (secret_field secret akField = ak) &&
         bool_decide (secret_field secret skField = sk)
      then Ret None
      else kube (KUpdate KSecret {| sec_Meta := sec_Meta secret;
                                    sec_Data := <[skField := sk]> (<[akField := ak]>
                                                  (sec_Data secret)) |})
  end.

Definition recordReady (cred : S3Credentials) (user ak secretName : string) : S3Credentials :=
  let cred := {|
    cred_Meta := cred_Meta cred; cred_Spec := cred_Spec cred;
    cred_Status := {| credst_ObservedGeneration := Generation (cred_Meta cred);
                      credst_Phase := S3PhaseReady;
                      credst_Conditions := credst_Conditions (cred_Status cred);
                      credst_AccessKey := ak; credst_IdentityName := user;
                      credst_SecretName := secretName |} |} in
  setCond cred S3ConditionReady ConditionTrue "Reconciled" "".

(** The pair to provision: the Secret's when complete, a fresh one otherwise. *)
Definition desiredPair (cred : S3Credentials) (secret : option Secret)
    : segment opE outcome (string * string) :=
  let '(akField, skField) := credentialFields cred in
  let existingAK := match secret with Some s => secret_field s akField | None => "" end in
  let existingSK := match secret with Some s => secret_field s skField | None => "" end in
  if bool_decide (existingAK = "") || bool_decide (existingSK = "")
  then try kp <- call OGenerateKeyPair
       catch err => (do o <- fail cred "GenerateFailed" (error_string err); Ret (inl o));
       Ret (inr kp)
  else Ret (inr (existingAK, existingSK)).

(** Registering the pair on the identity. *)
Definition registerKey (cred : S3Credentials) (user : string) (iamUser : IAMUser)
    (target : filerTarget) (desiredAK desiredSK : string) : op (option outcome) :=
  match Credential iamUser desiredAK with
  | None =>
      check iam target (CreateAccessKey user desiredAK desiredSK)
      catch err => (do o <- fail cred "CreateAccessKeyFailed" (error_string err); Ret (Some o));
      Ret None
  | Some existing =>
      if negb (bool_decide (SecretKey existing = desiredSK))
      then check iam target (UpdateAccessKey user desiredAK desiredSK)
           catch err => (do o <- fail cred "UpdateAccessKeyFailed" (error_string err);
                         Ret (Some o));
           Ret None
      else Ret None
  end.

(** From the desired pair to the status write. *)
Definition provision (cred : S3Credentials) (user secretName secretNamespace : string)
    (iamUser : IAMUser) (target : filerTarget) (secret : option Secret)
    (desiredAK desiredSK : string) : op outcome :=
  let '(akField, skField) := credentialFields cred in
  do registered <- registerKey cred user iamUser target desiredAK desiredSK;
  match registered with
  | Some o => Ret o
  | None =>
      check writeSecret cred secret secretName secretNamespace akField skField
              desiredAK desiredSK
      catch err => Ret (Done noResult (Some err));
      let old := credst_AccessKey (cred_Status cred) in
      do cleaned <-
        (if negb (bool_decide (old = "")) && negb (bool_decide (old = desiredAK))
         then check iam target (DeleteAccessKey user old)
              catch err => (do o <- fail cred "RotateCleanupFailed" (error_string err);
                            Ret (Some o));
              Ret None
         else Ret None);
      match cleaned with
      | Some o => Ret o
      | None =>
          let recorded := if negb (bool_decide (secretNamespace = Namespace (cred_Meta cred)))
                          then secretNamespace +:+ "/" +:+ secretName else secretName in
          check kube (KStatusUpdate KS3Credentials (recordReady cred user desiredAK recorded))
          catch err => Ret (Done noResult (Some err));
          Ret (Done (requeueIn iamResyncInterval) None)
      end
  end.

(** [iamUser] is a pointer: [None] is nil, on which [Credential] panics. *)
Definition reconcileKey (cred : S3Credentials) (user secretName secretNamespace : string)
    (iamUser : option IAMUser) (target : filerTarget) : op outcome :=
  let crossNamespace := negb (bool_decide (secretNamespace = Namespace (cred_Meta cred))) in
  do gate <-
    (if crossNamespace
     then try permitted <- secretRefPermitted secretNamespace secretName
                             (Namespace (cred_Meta cred))
          catch err => Ret (Some (Done noResult (Some err)));
          if negb permitted
          then do o <- refForbidden cred (secretRefDeniedMessage secretNamespace secretName
                                            (Namespace (cred_Meta cred)));
               Ret (Some o)
          else Ret None
     else Ret None);
  match gate with
  | Some o => Ret o
  | None =>
      try secret <- getSecret secretNamespace secretName
      catch err => Ret (Done noResult (Some err));
      if crossNamespace && bool_decide (secret = None)
      then pending cred "SecretNotFound"
             ("cross-namespace Secret " +:+ secretNamespace +:+ "/" +:+ secretName +:+
              " does not exist")
      else
        do kp <- desiredPair cred secret;
        match kp with
        | inl o => Ret o
        | inr (desiredAK, desiredSK) =>
            match iamUser with
            | None => Ret Panic
            | Some iamUser =>
                provision cred user secretName secretNamespace iamUser target secret
                  desiredAK desiredSK
            end
        end
  end.

Definition handleDeletion (cred : S3Credentials) (user secretName secretNamespace : string)
    (target : filerTarget) : op outcome :=
  if negb (hasFinalizer cred s3CredentialsFinalizer) then Ret (Done noResult None)
  else
    let cred := io_setPhase S3PhaseTerminating cred in
    let own := bool_decide (secretNamespace = Namespace (cred_Meta cred)) in
    do failed <-
      (if negb (bool_decide (credspec_ReclaimPolicy (cred_Spec cred) = S3ReclaimRetain))
       then
         do failed <-
           (if negb (bool_decide (credst_AccessKey (cred_Status cred) = ""))
            then
              do r <- iam target (DeleteAccessKey user (credst_AccessKey (cred_Status cred)));
              match r with
              | Some err =>
                  if negb (errors_Is err ErrIAMNotFound)
                  then
                    let cred := setCond cred S3ConditionReady ConditionFalse
                                  "DeleteAccessKeyFailed" (error_string err) in
                    do _ <- kube (KStatusUpdate KS3Credentials cred);
                    Ret (Some err)
                  else Ret None
              | None => Ret None
              end
            else Ret None);
         match failed with
         | Some err => Ret (Some err)
         | None => if own then deleteManagedSecret secretNamespace secretName else Ret None
         end
       else if own then orphanManagedSecret secretNamespace secretName else Ret None);
    match failed with
    | Some err => Ret (Done noResult (Some err))
    | None =>
        let cred := removeFinalizer cred s3CredentialsFinalizer in
        check kube (KUpdate KS3Credentials cred) catch err => Ret (Done noResult (Some err));
        Ret (Done noResult None)
    end.

(** The IAM user the credential is pinned to, or the one its reference
    resolves to. *)
Definition boundUser (cred : S3Credentials) : op (result string) :=
  let st := cred_Status cred in
  if negb (bool_decide (credst_IdentityName st = "")) then Ret (Ok (credst_IdentityName st))
  else if negb (bool_decide (credst_AccessKey st = ""))
  then Ret (Ok (credspec_IdentityRef (cred_Spec cred)))
  else resolveIdentityIAMName (Namespace (cred_Meta cred)) (credspec_IdentityRef (cred_Spec cred))
         (seaweedRefKey (credspec_SeaweedRef (cred_Spec cred)) (Namespace (cred_Meta cred))).

Definition admission (cred : S3Credentials) : segment opE outcome S3Credentials :=
  if live (cred_Meta cred) then
    let ref := credspec_SeaweedRef (cred_Spec cred) in
    let ns := Namespace (cred_Meta cred) in
    do r <- seaweedRefPermitted ref kindS3Credentials ns;
    match r with
    | inl err => Ret (inl (Done noResult (Some err)))
    | inr permitted =>
        if negb permitted
        then do o <- refForbidden cred (seaweedRefDeniedMessage ref kindS3Credentials ns);
             Ret (inl o)
        else Ret (inr (clearCond cred S3ConditionReferenceGranted))
    end
  else Ret (inr cred).

Definition Reconcile (req : NamespacedName) : op outcome :=
  try cred <- kube (KGet KS3Credentials req)
    catch err => Ret (Done noResult (IgnoreNotFound err));
  try user <- boundUser cred catch err => Ret (Done noResult (Some err));
  let secretName := secretKeyName cred in
  let secretNamespace := secretKeyNamespace cred in
  do admitted <- admission cred;
  match admitted with
  | inl o => Ret o
  | inr cred =>
      do r <- resolveSeaweedFiler (credspec_SeaweedRef (cred_Spec cred))
                (Namespace (cred_Meta cred));
      match r with
      | inl err => Ret (Done noResult (Some err))
      | inr None => clusterNotFound cred
      | inr (Some target) =>
          let cred := setCond cred S3ConditionClusterReachable ConditionTrue "Reachable" "" in
          check getIAMAdmin target catch err => Ret (Done noResult (Some err));
          if negb (live (cred_Meta cred))
          then handleDeletion cred user secretName secretNamespace target
          else if negb (hasFinalizer cred s3CredentialsFinalizer) then
            let cred := addFinalizer cred s3CredentialsFinalizer in
            check kube (KUpdate KS3Credentials cred)
            catch err => Ret (Done noResult (Some err));
            Ret (Done requeueNow None)
          else
            do r <- iam target (GetUser user);
            match r with
            | inl err =>
                if errors_Is err ErrIAMNotFound
                then pending cred "IdentityMissing"
                       ("identity " +:+ fmt_q user +:+ " does not exist yet")
                else fail cred "IdentityLookupFailed" (error_string err)
            | inr iamUser => reconcileKey cred user secretName secretNamespace iamUser target
            end
      end
  end.

(** ** What the controller may do *)
Definition fetched (tr : trace) (req : NamespacedName) (c : S3Credentials) : Prop :=
  saw_kube tr (KGet KS3Credentials req) (Ok c).
Definition own_ns (c : S3Credentials) : string := Namespace (cred_Meta c).

(** What the identity reference stands for, from the lookup seen. *)
Definition identity_resolves (tr : trace) (c : S3Credentials) (name : string) : Prop :=
  let ref := credspec_IdentityRef (cred_Spec c) in
  let key := {| nn_Namespace := own_ns c; nn_Name := ref |} in
  (exists o, saw_kube tr (KGet KS3Identity key) (Ok o) /\
     name = if bool_decide (seaweedRefKey (idspec_SeaweedRef (id_Spec o)) (Namespace (id_Meta o)) =
                            seaweedRefKey (credspec_SeaweedRef (cred_Spec c)) (own_ns c))
            then identityIAMName o else ref) \/
  (exists e, IsNotFound e = true /\ saw_kube tr (KGet KS3Identity key) (Err e) /\ name = ref).
Definition bound (tr : trace) (c : S3Credentials) (user : string) : Prop :=
  if bool_decide (credst_IdentityName (cred_Status c) = "")
  then if bool_decide (credst_AccessKey (cred_Status c) = "")
       then identity_resolves tr c user
       else user = credspec_IdentityRef (cred_Spec c)
  else user = credst_IdentityName (cred_Status c).

Definition manages (tr : trace) (req : NamespacedName) (c : S3Credentials) (user : string)
    (t : filerTarget) : Prop :=
  fetched tr req c /\ bound tr c user /\
  resolved tr (credspec_SeaweedRef (cred_Spec c)) (own_ns c) t /\
  hasFinalizer c s3CredentialsFinalizer = true.

(** Live, and both references permitted. *)
Definition active (tr : trace) (c : S3Credentials) : Prop :=
  live (cred_Meta c) = true /\
  seaweed_granted tr (credspec_SeaweedRef (cred_Spec c)) kindS3Credentials (own_ns c) /\
  (secretKeyNamespace c = own_ns c \/
   secret_granted tr (secretKeyNamespace c) (secretKeyName c) (own_ns c)).

Definition secret_key (c : S3Credentials) : NamespacedName :=
  {| nn_Namespace := secretKeyNamespace c; nn_Name := secretKeyName c |}.
Definition read_secret (tr : trace) (c : S3Credentials) (so : option Secret) : Prop :=
  match so with
  | Some s => saw_kube tr (KGet KSecret (secret_key c)) (Ok s)
  | None => exists e, IsNotFound e = true /\ saw_kube tr (KGet KSecret (secret_key c)) (Err e)
  end.
Definition held (c : S3Credentials) (so : option Secret) : string * string :=
  match so with
  | Some s => (secret_field s (credentialFields c).1, secret_field s (credentialFields c).2)
  | None => ("", "")
  end.
(** The pair is the Secret's when it is complete, else a fresh one. *)
Definition chosen (tr : trace) (c : S3Credentials) (so : option Secret) (ak sk : string) : Prop :=
  read_secret tr c so /\
  if bool_decide ((held c so).1 = "") || bool_decide ((held c so).2 = "")
  then saw tr OGenerateKeyPair (Ok (ak, sk)) else held c so = (ak, sk).

Definition user_seen (tr : trace) (t : filerTarget) (user : string) (iu : IAMUser) : Prop :=
  saw tr (OIam t (GetUser user)) (Ok (Some iu)).
Definition registered (tr : trace) (t : filerTarget) (user ak sk : string) : Prop :=
  (exists iu ex, user_seen tr t user iu /\ Credential iu ak = Some ex /\ SecretKey ex = sk) \/
  saw tr (OIam t (CreateAccessKey user ak sk)) None \/
  saw tr (OIam t (UpdateAccessKey user ak sk)) None.
(** The Secret holds the pair: it was read so, or it was written so. *)
Definition holds_pair (c : S3Credentials) (s : Secret) (ak sk : string) : Prop :=
  let '(akField, skField) := credentialFields c in
  sec_Data s !! skField = Some sk /\ (akField <> skField -> sec_Data s !! akField = Some ak).
Definition stored (tr : trace) (c : S3Credentials) (ak sk : string) : Prop :=
  (exists s, read_secret tr c (Some s) /\ held c (Some s) = (ak, sk)) \/
  (exists s, holds_pair c s ak sk /\
     (saw_kube tr (KCreate KSecret s) None \/ saw_kube tr (KUpdate KSecret s) None)).

Definition may_register (tr : trace) (req : NamespacedName) (t : filerTarget)
    (user ak sk : string) (present : option IAMCredential -> Prop) : Prop :=
  exists c iu so, manages tr req c user t /\ active tr c /\ user_seen tr t user iu /\
    chosen tr c so ak sk /\ present (Credential iu ak).
Definition may_delete_key (tr : trace) (req : NamespacedName) (t : filerTarget)
    (user ak : string) : Prop :=
  exists c, manages tr req c user t /\ ak = credst_AccessKey (cred_Status c) /\ ak <> "" /\
    ((live (cred_Meta c) = false /\ credspec_ReclaimPolicy (cred_Spec c) <> S3ReclaimRetain) \/
     (active tr c /\ exists so ak' sk', chosen tr c so ak' sk' /\ ak' <> ak /\
        registered tr t user ak' sk' /\ stored tr c ak' sk')).

Definition may_create_secret (tr : trace) (req : NamespacedName) (s : Secret) : Prop :=
  exists c user t ak sk, manages tr req c user t /\ active tr c /\
    chosen tr c None ak sk /\ registered tr t user ak sk /\ holds_pair c s ak sk /\
    secretKeyNamespace c = own_ns c /\ Namespace (sec_Meta s) = own_ns c /\
    Name (sec_Meta s) = secretKeyName c /\ managed s = true.
Definition may_update_secret (tr : trace) (req : NamespacedName) (s : Secret) : Prop :=
  exists c s0, fetched tr req c /\ read_secret tr c (Some s0) /\
    ((exists user t ak sk, manages tr req c user t /\ active tr c /\
        chosen tr c (Some s0) ak sk /\ registered tr t user ak sk /\ holds_pair c s ak sk /\
        sec_Meta s = sec_Meta s0 /\
        forall f, f <> (credentialFields c).1 -> f <> (credentialFields c).2 ->
          sec_Data s !! f = sec_Data s0 !! f) \/
     (live (cred_Meta c) = false /\ credspec_ReclaimPolicy (cred_Spec c) = S3ReclaimRetain /\
        secretKeyNamespace c = own_ns c /\ managed s0 = true /\
        s = {| sec_Meta := without_owners (sec_Meta s0); sec_Data := sec_Data s0 |})).
Definition may_delete_secret (tr : trace) (req : NamespacedName) (s : Secret) : Prop :=
  exists c, fetched tr req c /\ read_secret tr c (Some s) /\ live (cred_Meta c) = false /\
    credspec_ReclaimPolicy (cred_Spec c) <> S3ReclaimRetain /\
    secretKeyNamespace c = own_ns c /\ managed s = true.

Definition key_gone (tr : trace) (c : S3Credentials) : Prop :=
  credst_AccessKey (cred_Status c) = "" \/
  exists t user r, bound tr c user /\
    saw tr (OIam t (DeleteAccessKey user (credst_AccessKey (cred_Status c)))) r /\
    (r = None \/ r = Some ErrIAMNotFound).

Definition finalizer_update (tr : trace) (req : NamespacedName) (o : S3Credentials) : Prop :=
  exists c, fetched tr req c /\ cred_Spec o = cred_Spec c /\
    (live (cred_Meta c) = true /\
       cred_Meta o = with_finalizers (cred_Meta c)
                      (AddFinalizer (Finalizers (cred_Meta c)) s3CredentialsFinalizer) \/
     live (cred_Meta c) = false /\
       cred_Meta o = with_finalizers (cred_Meta c)
                      (RemoveFinalizer (Finalizers (cred_Meta c)) s3CredentialsFinalizer) /\
       (credspec_ReclaimPolicy (cred_Spec c) = S3ReclaimRetain \/ key_gone tr c)).

Definition status_update (tr : trace) (req : NamespacedName) (o : S3Credentials) : Prop :=
  exists c, fetched tr req c /\ cred_Spec o = cred_Spec c /\ cred_Meta o = cred_Meta c.

Definition credentials_guard (req : NamespacedName) : Guard := fun tr X e =>
  match e with
  | OKube (KGet _ _) | OKube (KList _ _ _) => True
  | OKube (KUpdate KS3Credentials o) => finalizer_update tr req o
  | OKube (KStatusUpdate KS3Credentials o) => status_update tr req o
  | OKube (KCreate KSecret s) => may_create_secret tr req s
  | OKube (KUpdate KSecret s) => may_update_secret tr req s
  | OKube (KDelete KSecret s) => may_delete_secret tr req s
  | OIam t (GetUser _) => True
  | OIam t (CreateAccessKey u ak sk) => may_register tr req t u ak sk (fun ex => ex = None)
  | OIam t (UpdateAccessKey u ak sk) =>
      may_register tr req t u ak sk (fun o => exists ex, o = Some ex /\ SecretKey ex <> sk)
  | OIam t (DeleteAccessKey u ak) => may_delete_key tr req t u ak
  | OAdminFactory _ | ODialTLS _ _ _ | OGenerateKeyPair => True
  | _ => False
  end.

(** What a completed pass has established. *)
Definition provisioned (tr : trace) (req : NamespacedName) : Prop :=
  exists c user t ak sk o, manages tr req c user t /\ active tr c /\
    registered tr t user ak sk /\ stored tr c ak sk /\
    (credst_AccessKey (cred_Status c) = "" \/ credst_AccessKey (cred_Status c) = ak \/
     saw tr (OIam t (DeleteAccessKey user (credst_AccessKey (cred_Status c)))) None) /\
    saw_kube tr (KStatusUpdate KS3Credentials o) None /\
    credst_AccessKey (cred_Status o) = ak /\ credst_IdentityName (cred_Status o) = user.

Lemma credentials_fetched_mono tr new req c : fetched tr req c -> fetched (tr ++ new) req c.
Proof. apply saw_app_l. Qed.
Lemma credentials_bound_mono tr new c u : bound tr c u -> bound (tr ++ new) c u.
Proof.
  unfold bound. repeat case_bool_decide; try done.
  intros [(o & ? & ?)|(e & ? & ? & ?)]; [left; exists o|right; exists e];
    split_and!; try done; by apply saw_app_l.
Qed.
Lemma credentials_manages_mono tr new req c u t : manages tr req c u t -> manages (tr ++ new) req c u t.
Proof.
  intros (? & ? & ? & ?). split_and!; auto using credentials_fetched_mono, credentials_bound_mono, resolved_mono.
Qed.
Lemma credentials_active_mono tr new c : active tr c -> active (tr ++ new) c.
Proof.
  intros (? & ? & Hs). split_and!; [done|by apply granted_mono|].
  destruct Hs as [?|?]; [by left|right; by apply granted_mono].
Qed.
Lemma read_secret_mono tr new c so : read_secret tr c so -> read_secret (tr ++ new) c so.
Proof.
  destruct so as [s|]; [apply saw_app_l|]. intros (e & ? & ?). exists e.
  split; [done|by apply saw_app_l].
Qed.
Lemma chosen_mono tr new c so ak sk : chosen tr c so ak sk -> chosen (tr ++ new) c so ak sk.
Proof.
  intros [? Hc]. split; [by apply read_secret_mono|]. destruct (_ || _); [|done].
  by apply saw_app_l.
Qed.
Lemma user_seen_mono tr new t u iu : user_seen tr t u iu -> user_seen (tr ++ new) t u iu.
Proof. apply saw_app_l. Qed.
Lemma registered_mono tr new t u ak sk :
  registered tr t u ak sk -> registered (tr ++ new) t u ak sk.
Proof.
  intros [(iu & ex & ? & ? & ?)|[?|?]]; [left; exists iu, ex|right; left|right; right];
    split_and?; try done; by apply saw_app_l.
Qed.
Lemma stored_mono tr new c ak sk : stored tr c ak sk -> stored (tr ++ new) c ak sk.
Proof.
  intros [(s & ? & ?)|(s & ? & [?|?])]; [left; exists s|right; exists s; split; [done|left]|
    right; exists s; split; [done|right]]; split_and?; try done; by apply saw_app_l.
Qed.
#[local] Hint Extern 2 (fetched (_ ++ _) _ _) => apply credentials_fetched_mono : trace.
#[local] Hint Extern 2 (bound (_ ++ _) _ _) => apply credentials_bound_mono : trace.
#[local] Hint Extern 2 (manages (_ ++ _) _ _ _ _) => apply credentials_manages_mono : trace.
#[local] Hint Extern 2 (active (_ ++ _) _) => apply credentials_active_mono : trace.
#[local] Hint Extern 2 (read_secret (_ ++ _) _ _) => apply read_secret_mono : trace.
#[local] Hint Extern 2 (chosen (_ ++ _) _ _ _ _) => apply chosen_mono : trace.
#[local] Hint Extern 2 (user_seen (_ ++ _) _ _ _) => apply user_seen_mono : trace.
#[local] Hint Extern 2 (registered (_ ++ _) _ _ _ _) => apply registered_mono : trace.
#[local] Hint Extern 2 (stored (_ ++ _) _ _ _) => apply stored_mono : trace.

Lemma credentials_guard_reads req : allows_reads (credentials_guard req).
Proof. done. Qed.

Section safety.
Context (req : NamespacedName) (c : S3Credentials).
Notation G := (credentials_guard req).
(** Same object, up to its conditions and phase. *)
Definition same (o : S3Credentials) : Prop :=
  cred_Meta o = cred_Meta c /\ cred_Spec o = cred_Spec c /\
  credst_AccessKey (cred_Status o) = credst_AccessKey (cred_Status c).
Definition unfinished (o : outcome) : Prop := o <> resync /\ o <> Panic.

Lemma credentials_fail_swp o reason message tr :
  fetched tr req c -> same o -> swp G (fail o reason message) (fun r _ => unfinished r) tr.
Proof. intros Hf (Hm & Hs & _). unfold fail. sx. split; [by exists c|]. by intros [e|]. Qed.
Lemma credentials_pending_swp o reason message tr :
  fetched tr req c -> same o -> swp G (pending o reason message) (fun r _ => unfinished r) tr.
Proof. intros Hf (Hm & Hs & _). unfold pending. sx. split; [by exists c|]. by intros [e|]. Qed.
Lemma credentials_refForbidden_swp o message tr :
  fetched tr req c -> same o -> swp G (refForbidden o message) (fun r _ => unfinished r) tr.
Proof.
  intros Hf (Hm & Hs & _). unfold refForbidden. sx. split; [by exists c|]. by intros [e|].
Qed.
Lemma credentials_clusterNotFound_swp o tr :
  fetched tr req c -> same o -> swp G (clusterNotFound o) (fun r _ => unfinished r) tr.
Proof.
  intros Hf (Hm & Hs & _). unfold clusterNotFound. sx. split; [by exists c|done].
Qed.

Lemma getSecret_swp tr :
  swp G (getSecret (secretKeyNamespace c) (secretKeyName c))
    (fun r tr' => match r with inl _ => True | inr so => read_secret tr' c so end) tr.
Proof.
  unfold getSecret. sx. split; [done|]. intros [e|s]; sx; [|apply saw_last].
  destruct (IsNotFound e) eqn:He; sx; [|done]. exists e. auto with trace.
Qed.

Lemma desiredPair_swp o so tr :
  fetched tr req c -> same o -> read_secret tr c so ->
  swp G (desiredPair o so)
    (fun r tr' => match r with
       | inl out => unfinished out | inr (ak, sk) => chosen tr' c so ak sk end) tr.
Proof.
  intros Hf Hsame Hso. pose proof Hsame as (Hm & Hs & _). unfold desiredPair.
  assert (credentialFields o = credentialFields c) as ->
    by (unfold credentialFields; by rewrite Hs).
  assert (held c so = (match so with Some s => secret_field s (credentialFields c).1 | None => "" end,
                       match so with Some s => secret_field s (credentialFields c).2 | None => "" end))
    as Hheld by by destruct so.
  unfold chosen. rewrite Hheld. destruct (credentialFields c) as [akf skf]; cbn [fst snd] in *.
  destruct (_ || _) eqn:Hc; sx; [|by split].
  split; [done|]. intros [e|[ak sk]]; sx.
  - eapply swp_seq; [apply credentials_fail_swp; auto with trace|]. done.
  - split; [by apply read_secret_mono|auto with trace].
Qed.

Lemma registerKey_swp o user iu t so ak sk tr :
  same o -> manages tr req c user t -> active tr c -> user_seen tr t user iu ->
  chosen tr c so ak sk ->
  swp G (registerKey o user iu t ak sk)
    (fun r tr' => match r with
       | Some out => unfinished out | None => registered tr' t user ak sk end) tr.
Proof.
  intros Hsame Hman Hact Hiu Hch. unfold registerKey.
  assert (fetched tr req c) as Hf by apply Hman.
  destruct (Credential iu ak) as [ex|] eqn:Hcr; sx.
  - case_bool_decide as Hsk; sx; [left; by exists iu, ex|].
    split; [exists c, iu, so; split_and!; try done; by exists ex|].
    intros [e|]; sx; [|right; right; apply saw_last].
    eapply swp_seq; [apply credentials_fail_swp; auto with trace|]. done.
  - split; [by exists c, iu, so|]. intros [e|]; sx; [|right; left; apply saw_last].
    eapply swp_seq; [apply credentials_fail_swp; auto with trace|]. done.
Qed.

Lemma secret_field_holds s ak sk :
  held c (Some s) = (ak, sk) -> ak <> "" -> sk <> "" -> holds_pair c s ak sk.
Proof.
  unfold held, holds_pair, secret_field. destruct (credentialFields c) as [akf skf]; simpl.
  intros [= <- <-] Ha Hs. split; [|intros _].
  - by destruct (sec_Data s !! skf).
  - by destruct (sec_Data s !! akf).
Qed.

Lemma writeSecret_swp `{!ControllerRefLaws} o user t so ak sk tr :
  same o -> manages tr req c user t -> active tr c -> chosen tr c so ak sk ->
  registered tr t user ak sk ->
  (so = None -> secretKeyNamespace c = own_ns c) ->
  swp G (writeSecret o so (secretKeyName c) (secretKeyNamespace c) (credentialFields c).1
           (credentialFields c).2 ak sk)
    (fun r tr' => r = None -> stored tr' c ak sk) tr.
Proof.
  intros (Hm & Hs & _) Hman Hact Hch Hreg Hown. unfold writeSecret.
  assert (forall d, holds_pair c {| sec_Meta := d; sec_Data :=
            <[(credentialFields c).2 := sk]> {[(credentialFields c).1 := ak]} |} ak sk) as Hnew.
  { intros d. unfold holds_pair. destruct (credentialFields c) as [akf skf]; simpl.
    split; [apply lookup_insert_eq|]. intros Hne. rewrite lookup_insert_ne by done.
    apply lookup_singleton_eq. }
  destruct so as [s|].
  - case_bool_decide as Ha; [case_bool_decide as Hb|]; sx; cbn [andb]; sx.
    { intros _. left. exists s. split; [apply Hch|]. unfold held. by rewrite Ha, Hb. }
    all: split; [|intros r ->; right; eexists; split; [|right; apply saw_last]].
    1, 3: exists c, s; split; [apply Hman|]; split; [apply Hch|]; left;
      exists user, t, ak, sk; split_and!; try done.
    all: unfold holds_pair; destruct (credentialFields c) as [akf skf]; simpl in *.
    all: try (split; [apply lookup_insert_eq|]; intros Hne;
              rewrite lookup_insert_ne by done; apply lookup_insert_eq).
    all: intros f Hf1 Hf2; by rewrite !lookup_insert_ne by done.
  - destruct (SetControllerReference _ _) as [e|m] eqn:Href; sx; [done|].
    apply set_controller_frame in Href as (Hn & Hns & Hann). simpl in *.
    split; [|intros r ->; right; eexists; split; [apply Hnew|left; apply saw_last]].
    exists c, user, t, ak, sk. split_and!; try done; simpl.
    + by apply Hown.
    + rewrite Hns. by apply Hown.
    + unfold managed; simpl. rewrite Hann, lookup_singleton_eq. by rewrite bool_decide_true.
Qed.

Lemma provision_swp `{!ControllerRefLaws} o user iu t so ak sk tr :
  same o -> manages tr req c user t -> active tr c -> user_seen tr t user iu ->
  chosen tr c so ak sk -> (so = None -> secretKeyNamespace c = own_ns c) ->
  swp G (provision o user (secretKeyName c) (secretKeyNamespace c) iu t so ak sk)
    (fun r tr' => (r = resync -> provisioned tr' req) /\ r <> Panic) tr.
Proof.
  intros Hsame Hman Hact Hiu Hch Hown. unfold provision.
  assert (credentialFields o = credentialFields c) as ->.
  { unfold credentialFields. by rewrite (proj1 (proj2 Hsame)). }
  rewrite (surjective_pairing (credentialFields c)).
  eapply swp_seq_keep; [by eapply registerKey_swp|].
  intros [out|] new1; sx; [by intros [? ?]|]. intros Hreg.
  eapply swp_seq_keep; [eapply (writeSecret_swp o user t so); auto with trace|].
  intros [e|] new2 Hst; sx; [done|]. specialize (Hst eq_refl).
  destruct Hsame as (Hm & Hs & Hak).
  eapply (swp_seq_keep _ _ _ (fun r tr' => match r with
     | Some out => unfinished out
     | None => credst_AccessKey (cred_Status c) = "" \/ credst_AccessKey (cred_Status c) = ak \/
         saw tr' (OIam t (DeleteAccessKey user (credst_AccessKey (cred_Status c)))) None
     end)).
  - rewrite Hak. case_bool_decide as Ho1; sx; [by left|].
    case_bool_decide as Ho2; sx; cbn [andb]; sx; [by right; left|].
    split.
    + exists c. split; [auto with trace|]. split; [done|]. split; [done|]. right.
      split; [auto with trace|]. exists so, ak, sk. split_and!; auto with trace.
    + intros [e|]; sx; [|right; right; apply saw_last].
      eapply swp_seq; [apply credentials_fail_swp; [|done]|done].
      do 3 apply credentials_fetched_mono. apply Hman.
  - intros [out|] new3 Hold; sx; [by destruct Hold|].
    set (st := recordReady _ _ _ _).
    split; [exists c; split; [do 3 apply credentials_fetched_mono; apply Hman|done]|].
    intros [e|]; sx; [done|]. split; [|done]. intros _.
    exists c, user, t, ak, sk, st. split_and!; auto 10 with trace.
    destruct Hold as [?|[?|?]]; [by left|by right; left|right; right; auto with trace].
Qed.

Lemma reconcileKey_swp `{!ControllerRefLaws} o user iu t tr :
  same o -> manages tr req c user t -> live (cred_Meta c) = true ->
  seaweed_granted tr (credspec_SeaweedRef (cred_Spec c)) kindS3Credentials (own_ns c) ->
  saw tr (OIam t (GetUser user)) (Ok iu) ->
  swp G (reconcileKey o user (secretKeyName c) (secretKeyNamespace c) iu t)
    (fun r tr' => (r = resync -> provisioned tr' req) /\ (r = Panic -> iu = None)) tr.
Proof.
  intros Hsame Hman Hl Hg Hiu. pose proof Hsame as (Hm & _). unfold reconcileKey. rewrite Hm.
  change (Namespace (cred_Meta c)) with (own_ns c).
  assert (fetched tr req c) as Hf by apply Hman.
  eapply (swp_seq_keep _ _ _ (fun r tr' => match r with
     | Some out => unfinished out
     | None => secretKeyNamespace c = own_ns c \/
               secret_granted tr' (secretKeyNamespace c) (secretKeyName c) (own_ns c) end)).
  - case_bool_decide as Hns; sx; [by left|].
    eapply swp_seq_keep; [apply secretRefPermitted_swp, credentials_guard_reads|].
    intros [e|[]] new Hp; sx; [done|by right; apply Hp|].
    unfold refForbidden. sx. split; [exists c; split; [auto with trace|]; by destruct Hsame as (?&?&?)|].
    by intros [e|].
  - intros [out|] new1; sx; [by intros [? ?]|]. intros Hsec.
    eapply swp_seq_keep; [apply getSecret_swp|]. intros [e|so] new2; sx; [done|]. intros Hso.
    destruct (negb (bool_decide (secretKeyNamespace c = own_ns c)) && _) eqn:Hcross.
    { unfold pending. sx. split; [exists c; split; [auto with trace|]; by destruct Hsame as (?&?&?)|].
      by intros [e|]. }
    eapply swp_seq_keep; [apply (desiredPair_swp o so); auto with trace|].
    intros [out|[ak sk]] new3; sx.
    { by intros [? ?]. }
    intros Hch. destruct iu as [iu|]; sx; [|done].
    eapply swp_mono; [|eapply (provision_swp o user iu t so); auto 10 with trace].
    + by intros r tr' [? ?].
    + split_and!; [done|do 3 apply granted_mono; done|].
      destruct Hsec; [by left|right; do 2 apply granted_mono; done].
    + intros ->. apply andb_false_iff in Hcross. repeat case_bool_decide; naive_solver.
Qed.

Lemma dropFinalizer_swp o tr :
  same o -> live (cred_Meta c) = false -> fetched tr req c ->
  (credspec_ReclaimPolicy (cred_Spec c) = S3ReclaimRetain \/ key_gone tr c) ->
  swp G (check kube (KUpdate KS3Credentials (removeFinalizer o s3CredentialsFinalizer))
         catch err => Ret (Done noResult (Some err)); Ret (Done noResult None))
    (fun r _ => unfinished r) tr.
Proof.
  intros (Hm & Hs & _) Hl Hf Hrel. sx. split; [|by intros [e|]].
  exists c. split; [done|]. split; [done|]. right. split; [done|]. split; [|done].
  simpl. by rewrite Hm.
Qed.

Lemma deleteManagedSecret_swp tr :
  fetched tr req c -> live (cred_Meta c) = false ->
  credspec_ReclaimPolicy (cred_Spec c) <> S3ReclaimRetain ->
  secretKeyNamespace c = own_ns c ->
  swp G (deleteManagedSecret (secretKeyNamespace c) (secretKeyName c)) (fun _ _ => True) tr.
Proof.
  intros Hf Hl Hr Hns. unfold deleteManagedSecret.
  eapply swp_seq_keep; [apply getSecret_swp|]. intros [e|[s|]] new; sx; [done| |done].
  intros Hs. destruct (managed s) eqn:Hmg; sx; [|done].
  split; [exists c; split_and!; auto with trace|].
  intros [e|]; sx; [|done]. by destruct (IsNotFound e).
Qed.

Lemma orphanManagedSecret_swp tr :
  fetched tr req c -> live (cred_Meta c) = false ->
  credspec_ReclaimPolicy (cred_Spec c) = S3ReclaimRetain ->
  secretKeyNamespace c = own_ns c ->
  swp G (orphanManagedSecret (secretKeyNamespace c) (secretKeyName c)) (fun _ _ => True) tr.
Proof.
  intros Hf Hl Hr Hns. unfold orphanManagedSecret.
  eapply swp_seq_keep; [apply getSecret_swp|]. intros [e|[s|]] new; sx; [done| |done].
  intros Hs. destruct (managed s) eqn:Hmg; sx; cbn [orb]; [|done].
  destruct (bool_decide _); sx; [done|]. split; [|done].
  exists c, s. split; [auto with trace|]. split; [done|]. by right.
Qed.

Lemma credentials_handleDeletion_swp o user t tr :
  same o -> live (cred_Meta c) = false -> fetched tr req c -> bound tr c user ->
  resolved tr (credspec_SeaweedRef (cred_Spec c)) (own_ns c) t ->
  swp G (handleDeletion o user (secretKeyName c) (secretKeyNamespace c) t)
    (fun r _ => unfinished r) tr.
Proof.
  intros Hsame Hdel Hf Hb Hres. pose proof Hsame as (Hm & Hs & Hak). unfold handleDeletion.
  assert (hasFinalizer o s3CredentialsFinalizer = hasFinalizer c s3CredentialsFinalizer) as ->.
  { unfold hasFinalizer; simpl. by rewrite Hm. }
  destruct (hasFinalizer c _) eqn:Hfin; sx; [|done].
  set (o' := io_setPhase S3PhaseTerminating o).
  assert (same o') as Hsame' by done.
  assert (credspec_ReclaimPolicy (cred_Spec o') = credspec_ReclaimPolicy (cred_Spec c)) as ->
    by (simpl; by rewrite Hs).
  assert (credst_AccessKey (cred_Status o') = credst_AccessKey (cred_Status c)) as -> by done.
  assert (Namespace (cred_Meta o') = own_ns c) as -> by (simpl; by rewrite Hm).
  eapply (swp_seq_keep _ _ _ (fun failed tr' => failed = None ->
     credspec_ReclaimPolicy (cred_Spec c) = S3ReclaimRetain \/ key_gone tr' c)).
  - case_bool_decide as Hrec; sx.
    { case_bool_decide as Hns; sx; [|by left].
      eapply swp_mono; [|by apply orphanManagedSecret_swp]. by left. }
    eapply (swp_seq_keep _ _ _ (fun failed tr' => failed = None -> key_gone tr' c)).
    + case_bool_decide as Hak0; sx; [by left|].
      split; [exists c; split_and!; try done; by left|].
      assert (forall r, r = None \/ r = Some ErrIAMNotFound -> key_gone (tr ++ [Ev (OIam t
        (DeleteAccessKey user (credst_AccessKey (cred_Status c)))) r]) c) as Hgone.
      { intros r Hr. right. exists t, user, r. split_and!; auto with trace. }
      intros [e|]; sx; [|intros _; apply Hgone; by left].
      destruct (errors_Is e _) eqn:He; sx.
      * intros _. apply Hgone. right. unfold errors_Is in He.
        apply bool_decide_eq_true in He. by subst.
      * split; [|done]. exists c. split; [auto with trace|]. by destruct Hsame as (? & ? & ?).
    + intros [e|] new Hgone; sx; [done|]. specialize (Hgone eq_refl).
      case_bool_decide as Hns; sx; [|by right].
      eapply swp_mono; [|apply swp_extends, deleteManagedSecret_swp; auto with trace].
      intros [e|] tr' [[new2 ->] _] ?; [done|right].
      destruct Hgone as [?|(t' & u' & r & ? & ? & ?)]; [by left|right].
      exists t', u', r. split_and!; auto with trace.
  - intros [e|] new2 Hrel; sx; [done|]. apply dropFinalizer_swp; auto with trace.
Qed.
End safety.

Lemma boundUser_swp req cr tr :
  swp (credentials_guard req) (boundUser cr)
    (fun r tr' => match r with inl _ => True | inr u => bound tr' cr u end) tr.
Proof.
  unfold boundUser, bound. repeat case_bool_decide; sx; try done.
  unfold resolveIdentityIAMName. sx. split; [done|]. intros [e|o].
  - destruct (IsNotFound e) eqn:He; sx; [|done]. right. exists e. auto with trace.
  - destruct (bool_decide (seaweedRefKey (idspec_SeaweedRef (id_Spec o)) _ = _)) eqn:Hd; sx;
      left; exists o; (split; [auto with trace|]); unfold own_ns; by rewrite Hd.
Qed.

Lemma credentials_admission_swp req cr tr :
  fetched tr req cr ->
  swp (credentials_guard req) (admission cr)
    (fun r tr' => match r with
       | inl out => unfinished out
       | inr o' => same cr o' /\ (live (cred_Meta cr) = true ->
           seaweed_granted tr' (credspec_SeaweedRef (cred_Spec cr)) kindS3Credentials (own_ns cr))
       end) tr.
Proof.
  intros Hf. unfold admission. destruct (live (cred_Meta cr)); [|by sx].
  eapply swp_seq_keep; [apply seaweedRefPermitted_swp, credentials_guard_reads|].
  intros [e|[]] new Hg; sx; [done| |].
  - split; [done|]. intros _. by apply Hg.
  - eapply swp_seq; [apply (credentials_refForbidden_swp req cr); [auto with trace|done]|]. done.
Qed.

Lemma credentials_Reconcile_swp `{!ControllerRefLaws} req tr :
  swp (credentials_guard req) (Reconcile req)
    (fun r tr' => (r = resync -> provisioned tr' req) /\
       (r = Panic -> exists t user, saw tr' (OIam t (GetUser user)) (Ok None))) tr.
Proof.
  assert (forall r (P Q : Prop), unfinished r -> (r = resync -> P) /\ (r = Panic -> Q)) as Hun.
  { by intros r P Q [? ?]. }
  unfold Reconcile. sx. split; [done|]. intros [e|cr]; sx; [done|].
  set (tr1 := tr ++ _). assert (fetched tr1 req cr) as Hf by (unfold fetched, tr1; auto with trace).
  eapply swp_seq_keep; [apply boundUser_swp|].
  intros [e|user] new0; sx; [done|]. intros Hb.
  eapply swp_seq_keep; [apply (credentials_admission_swp req cr); auto with trace|].
  intros [o|o] new; sx; [apply Hun|]. intros [Hsame Hadm].
  eapply swp_seq_keep; [apply resolveSeaweedFiler_swp, credentials_guard_reads|].
  assert (credspec_SeaweedRef (cred_Spec o) = credspec_SeaweedRef (cred_Spec cr)) as ->
    by by rewrite (proj1 (proj2 Hsame)).
  assert (Namespace (cred_Meta o) = own_ns cr) as ->.
  { unfold own_ns. by rewrite (proj1 Hsame). }
  intros [e|[t|]] new2; sx; [done| |]; intros Hres.
  - unfold getIAMAdmin. sx. split; [done|]. intros [e|]; sx; [done|].
    set (o' := setCond o _ _ _ _).
    assert (same cr o') as Hsame' by done. clearbody o'. pose proof Hsame' as (Hm' & Hs' & _).
    assert (live (cred_Meta o') = live (cred_Meta cr)) as -> by by rewrite Hm'.
    assert (hasFinalizer o' s3CredentialsFinalizer = hasFinalizer cr s3CredentialsFinalizer)
      as -> by (unfold hasFinalizer; simpl; by rewrite Hm').
    set (tr2 := (((tr1 ++ new0) ++ new) ++ new2) ++ _).
    assert (fetched tr2 req cr) as Hf2 by (unfold tr2; auto with trace).
    assert (bound tr2 cr user) as Hb2 by (unfold tr2; auto with trace).
    assert (resolved tr2 (credspec_SeaweedRef (cred_Spec cr)) (own_ns cr) t) as Hres2
      by (unfold tr2; auto with trace).
    destruct (live (cred_Meta cr)) eqn:Hl; sx.
    2: { eapply swp_mono; [|by apply (credentials_handleDeletion_swp req cr)]. intros; by apply Hun. }
    destruct (hasFinalizer cr _) eqn:Hfin; sx.
    + specialize (Hadm eq_refl). split; [done|].
      assert (manages tr2 req cr user t) as Hman by by split_and!.
      intros [e|iu]; sx.
      { destruct (errors_Is e _);
          [eapply swp_mono; [|apply (credentials_pending_swp req cr); [auto with trace|done]]
          |eapply swp_mono; [|apply (credentials_fail_swp req cr); [auto with trace|done]]];
          intros; by apply Hun. }
      eapply swp_mono; [|apply swp_extends, (reconcileKey_swp req cr);
        [exact Hsame'|auto with trace|exact Hl
        |unfold tr2; do 3 apply granted_mono; exact Hadm|apply saw_last]].
      intros r tr' [[new3 ->] [? Hp]]. split; [done|]. intros Hr. exists t, user.
      apply saw_app_l. rewrite <-(Hp Hr). apply saw_last.
    + split; [|by intros [e|]]. exists cr. split; [done|]. split; [done|].
      left. split; [done|]. simpl. by rewrite Hm'.
  - eapply swp_mono; [|apply (credentials_clusterNotFound_swp req cr); [auto with trace|done]].
    intros; by apply Hun.
Qed.

(** C16. The S3Credentials controller touches access keys and Secrets only when
    it may.  Whatever the API server and the filer answer: a key is registered on the user the
    credential is pinned to (or its reference resolves to), only for a live
    resource with its finalizer and a grant for the cluster and, across namespaces, for the Secret,
    and it is the pair the Secret holds or, when that is incomplete, a fresh
    one; the superseded key is deleted only after the new one is registered and
    stored; a Secret is created only in the resource's own namespace and marked managed, updated
    only in its two fields (or orphaned on a Retain deletion), and deleted only
    on a non-Retain deletion when it is managed and in that namespace; the
    finalizer is dropped only when the resource is retained or its recorded key is gone. *)
Theorem credentials_reconcile_guarded `{!ControllerRefLaws} req tr r :
  exec trace_env (Reconcile req) [] tr r -> guarded (credentials_guard req) tr.
Proof. intros Hx. by eapply swp_theorem in Hx as [? _]; [|apply credentials_Reconcile_swp]. Qed.

(** A pass over an S3Credentials that ends with the periodic resync has made
    the IAM user and the Secret agree: one pair is registered on the user and held by
    the Secret, the previously recorded key is gone unless it is that pair's, and the
    status records the pair's key and the user.  The pass can panic only when
    the IAM service answers the user lookup with neither a user nor an error. *)
Theorem credentials_reconcile_consistent `{!ControllerRefLaws} req tr r :
  exec trace_env (Reconcile req) [] tr r ->
  (r = resync -> provisioned tr req) /\
  (r = Panic -> exists t user, saw tr (OIam t (GetUser user)) (Ok None)).
Proof. intros Hx. by eapply swp_theorem in Hx as [_ ?]; [|apply credentials_Reconcile_swp]. Qed.
End controller.

(** A credential whose Secret lost its secret key, so that the pair is rotated. *)
#[export] Instance sample_controller_ref : ControllerRef := {|
  SetControllerReference owner m := Ok {|
    Name := Name m; Namespace := Namespace m; Generation := Generation m;
    CreationTimestamp := CreationTimestamp m; DeletionTimestamp := DeletionTimestamp m;
    Labels := Labels m; Annotations := Annotations m; Finalizers := Finalizers m;
    OwnerReferences := [{| owner_Kind := "S3Credentials"; owner_Name := Name owner;
                           owner_Controller := true; owner_UID := UID owner |}];
    UID := "" |} |}.
#[export] Instance sample_controller_ref_laws : ControllerRefLaws.
Proof. split. by intros owner m m' [= <-]. Defined.

Definition sample_credentials : S3Credentials := {|
  cred_Meta := {| Name := "k"; Namespace := "a"; Generation := 1%Z; CreationTimestamp := 5%Z;
                  DeletionTimestamp := None; Labels := ∅;
                  Annotations := ∅; Finalizers := [s3CredentialsFinalizer];
                  OwnerReferences := []; UID := "" |};
  cred_Spec := {| credspec_SeaweedRef := {| ref_Name := "sw"; ref_Namespace := "" |};
                  credspec_IdentityRef := "alice";
                  credspec_SecretRef := {| sref_Name := "s"; sref_Namespace := "";
                                           sref_AccessKeyField := ""; sref_SecretKeyField := "" |};
                  credspec_ReclaimPolicy := S3ReclaimDelete |};
  cred_Status := {| credst_ObservedGeneration := 0%Z; credst_Phase := ""; credst_Conditions := [];
                    credst_AccessKey := "OLD"; credst_IdentityName := "alice";
                    credst_SecretName := "s" |} |}.
Definition credentials_cluster : Sim :=
  set_users {["alice" := user_creds [{| AccessKey := "OLD"; SecretKey := "x" |}]
                           (new_user "alice" "" "" false)]}
    (set_objs KS3Credentials [sample_credentials]
    (set_objs KSecret [{| sec_Meta := sample_meta "a" "s" 1%Z;
                          sec_Data := {["accessKey" := "OLD"]} |}]
       (set_objs KSeaweed [sample_sw "a"] sim_empty))).
Definition credentials_req : NamespacedName := {| nn_Namespace := "a"; nn_Name := "k" |}.

Lemma credentials_reconcile_guarded_witness :
  let x := run (tracing sim) (Reconcile credentials_req) (credentials_cluster, []) in
  x.2 = resync /\ length x.1.2 = 11 /\
  guarded (credentials_guard credentials_req) x.1.2.
Proof.
  intros x. split; [by vm_compute|]. split; [by vm_compute|].
  apply (credentials_reconcile_guarded credentials_req x.1.2 x.2). apply run_tracing.
Defined.

Lemma credentials_reconcile_consistent_witness :
  let x := run (tracing sim) (Reconcile credentials_req) (credentials_cluster, []) in
  (user_Credentials <$> sim_users x.1.1 !! "alice") = Some [{| AccessKey := "AK"; SecretKey := "SK" |}]
  /\ provisioned x.1.2 credentials_req.
Proof.
  intros x. split; [by vm_compute|].
  apply (credentials_reconcile_consistent credentials_req x.1.2 x.2).
  - apply run_tracing.
  - by vm_compute.
Defined.
