(* ===== verification/BucketAdmin.v ===== *)
(** * The bucket admin (internal/controller/bucket_admin.go, swadmin/seaweed_admin.go)

    The [BucketAdmin] the controllers use is a client of the embedded `weed
    shell`: each operation prints a command line, [ProcessCommand] splits it
    again and looks the command up, and the outcome is told from the error text.
    Here are the command lines, the splitting, the classifiers and the parser of
    the collection list; the shell's commands themselves are an effect. *)
From Stdlib Require Import Ascii.
From S2P Require Import Prelude Prog CoreTypes ApiTypes Effects IamClient.

(** [ShellDo] runs a shell command, giving its output and error text;
    [GetMaster] waits for a master connection. *)
Inductive shellE : Type -> Type :=
| GetMaster : shellE bool
| ShellDo (name : string) (args : list string) : shellE (string * option string)
| SIam {X} (e : rpcE X) : shellE X.
Abbreviation shell := (prog shellE).

Fixpoint lift_rpc {A} (p : rpc A) : shell A :=
  match p with
  | Ret a => Ret a
  | Vis e k => Vis (SIam e) (fun x => lift_rpc (k x))
  end.

(** ** Splitting a command line

    The matches of the regular expression of [NewSeaweedAdmin]: a quoted text on
    one line (single or double quotes), or a run of non-space characters. *)
Definition re_space (c : ascii) : bool :=
  let n := nat_of_ascii c in (n =? 32) || (n =? 9) || (n =? 10) || (n =? 12) || (n =? 13).
Definition newline : ascii := "010"%char.
Definition is_quote (c : ascii) : bool := Ascii.eqb c "034" || Ascii.eqb c "039".

(** The text up to and including the next [q], if it is on the same line. *)
Fixpoint until_quote (q : ascii) (s : string) : option (string * string) :=
  match s with
  | EmptyString => None
  | String c s' =>
      if Ascii.eqb c q then Some (String c EmptyString, s')
      else if Ascii.eqb c newline then None
      else match until_quote q s' with
           | Some (w, rest) => Some (String c w, rest)
           | None => None
           end
  end.
Fixpoint non_space (s : string) : string * string :=
  match s with
  | EmptyString => (EmptyString, EmptyString)
  | String c s' => if re_space c then (EmptyString, s)
                   else let '(w, rest) := non_space s' in (String c w, rest)
  end.
(** Each match consumes a character: the length of the line is fuel enough. *)
Fixpoint find_all (fuel : nat) (s : string) : list string :=
  match fuel, s with
  | O, _ | _, EmptyString => []
  | S fuel, String c s' =>
      if re_space c then find_all fuel s'
      else
        match (if is_quote c then until_quote c s' else None) with
        | Some (w, rest) => String c w :: find_all fuel rest
        | None => let '(w, rest) := non_space s in w :: find_all fuel rest
        end
  end.
Definition FindAllString (s : string) : list string := find_all (String.length s) s.

(** [strings.Trim] of both quote characters. *)
Fixpoint trim_quotes_left (s : string) : string :=
  match s with
  | EmptyString => EmptyString
  | String c s' => if is_quote c then trim_quotes_left s' else s
  end.
Definition trim_quotes (s : string) : string :=
  String.rev (trim_quotes_left (String.rev (trim_quotes_left s))).

(** ** Error texts *)
Definition isBucketNotFoundErr (msg : string) : bool :=
  Contains msg "lookup bucket" || Contains msg "did not find bucket" ||
  Contains msg "bucket not found".
Definition isAlreadyExistsErr (msg : string) : bool :=
  Contains msg "already exists" || Contains msg "file exists".
Definition isRetentionErr (msg : string) : bool :=
  Contains msg "Object Lock retention" || Contains msg "legal hold".
Definition isObjectLockSuspendErr (msg : string) : bool :=
  Contains msg "cannot suspend versioning" && Contains msg "Object Lock is enabled".

(** ** The collection list

    The regular expression [collectionListLine], tried from every position of a
    line: a quoted collection name, then the fields size and fileCount in this
    order, each starting a word, with anything between them. *)
Definition is_word (c : ascii) : bool :=
  let n := nat_of_ascii c in
  is_digit c || ((65 <=? n) && (n <=? 90)) || ((97 <=? n) && (n <=? 122)) || (n =? 95).

(** The text after a prefix. *)
Fixpoint strip (p s : string) : option string :=
  match p, s with
  | EmptyString, _ => Some s
  | String a p', String b s' => if Ascii.eqb a b then strip p' s' else None
  | String _ _, EmptyString => None
  end.
Fixpoint digits (s : string) : string * string :=
  match s with
  | EmptyString => (EmptyString, EmptyString)
  | String c s' => if is_digit c then let '(w, rest) := digits s' in (String c w, rest)
                   else (EmptyString, s)
  end.
(** A field, from a text whose previous character is a word character
    or not: the first place where the label starts a word and digits follow, and
    the continuation accepts what is left. *)
Fixpoint field {A} (label : string) (after_word : bool) (s : string)
    (k : string -> bool -> string -> option A) : option A :=
  let here :=
    if after_word then None
    else match strip label s with
         | Some r => let '(d, rest) := digits r in
                     if bool_decide (d = "") then None else k d true rest
         | None => None
         end in
  match here with
  | Some a => Some a
  | None => match s with
            | EmptyString => None
            | String c s' => if Ascii.eqb c newline then None else field label (is_word c) s' k
            end
  end.
Fixpoint not_quotes (s : string) : string * string :=
  match s with
  | EmptyString => (EmptyString, EmptyString)
  | String c s' => if Ascii.eqb c "034" then (EmptyString, s)
                   else let '(w, rest) := not_quotes s' in (String c w, rest)
  end.
Definition match_here (s : string) : option (string * string * string) :=
  match strip ("collection:" +:+ dquote) s with
  | None => None
  | Some r =>
      let '(name, rest) := not_quotes r in
      if bool_decide (name = "") then None
      else match strip dquote rest with
           | None => None
           | Some rest =>
               field "size:" false rest (fun size w rest =>
                 field "fileCount:" w rest (fun count _ _ => Some (name, size, count)))
           end
  end.
Fixpoint FindStringSubmatch (s : string) : option (string * string * string) :=
  match match_here s with
  | Some m => Some m
  | None => match s with EmptyString => None | String _ s' => FindStringSubmatch s' end
  end.

(** [strconv.ParseInt(s, 10, 64)] on digits. *)
Definition ParseInt (s : string) : option Z :=
  let z := digits_value 0 s in if (z <=? MaxInt64)%Z then Some z else None.

Definition parse_line (m : gmap string BucketCollectionStats) (line : string)
    : gmap string BucketCollectionStats :=
  match FindStringSubmatch line with
  | None => m
  | Some (name, size, count) =>
      match ParseInt size, ParseInt count with
      | Some size, Some count => <[name := {| FileCount := count; SizeBytes := size |}]> m
      | _, _ => m
      end
  end.
Definition parseCollectionListOutput (out : string) : gmap string BucketCollectionStats :=
  foldl parse_line ∅ (Split out newline).

(** ** The shell *)
Section admin.
Context (Commands : list string).

Definition ProcessCommand (cmd : string) : shell (string * option string) :=
  match FindAllString cmd with
  | [] => Ret ("", None)
  | name :: rest =>
      let args := map trim_quotes rest in
      match List.find (fun c => bool_decide (c = name) || bool_decide (c = "fs." +:+ name))
              Commands with
      | Some c =>
          do connected <- call GetMaster;
          if negb connected then Ret ("", Some "wait for master connection: context deadline exceeded")
          else call (ShellDo c args)
      | None => Ret ("", Some ("unknown command: " +:+ cmd))
      end
  end.

Fixpoint ProcessCommands_from (cmds : list string) : shell (option string) :=
  match cmds with
  | [] => Ret None
  | c :: cmds' =>
      do r <- ProcessCommand c;
      match r.2 with Some err => Ret (Some err) | None => ProcessCommands_from cmds' end
  end.
Definition ProcessCommands (cmds : string) : shell (option string) :=
  ProcessCommands_from (Split cmds ";"%char).

Section bucket.
Context (filerGrpcAddress adminSigningKey : string) (gen : string -> string).

Definition run_cmd (cmd : string) : shell (string * option string) := ProcessCommand cmd.
(** [return err] and the sentinel of the first classifier that matches. *)
Definition classified (cmd : string) (classes : list ((string -> bool) * error))
    : shell (option error) :=
  do r <- run_cmd cmd;
  Ret (match r.2 with
       | None => None
       | Some msg => Some (match List.find (fun c => c.1 msg) classes with
                           | Some c => c.2 | None => ErrOther msg end)
       end).

Definition a_BucketExists (name : string) : shell (result bool) :=
  do r <- run_cmd ("s3.bucket.versioning -name " +:+ name);
  Ret (match r.2 with
       | None => Ok true
       | Some msg => if isBucketNotFoundErr msg then Ok false else Err (ErrOther msg)
       end).
Definition create_parts (name owner : string) (withLock : bool) : list string :=
  ["s3.bucket.create"; "-name"; name] ++
  (if negb (bool_decide (owner = "")) then ["-owner"; owner] else []) ++
  (if withLock then ["-withLock"] else []).
Definition a_CreateBucket (name owner : string) (withLock : bool) : shell (option error) :=
  classified (Join (create_parts name owner withLock) " ")
    [(isAlreadyExistsErr, ErrBucketAlreadyExists)].
Definition a_DeleteBucket (name : string) : shell (option error) :=
  classified ("s3.bucket.delete -name " +:+ name)
    [(isRetentionErr, ErrRetentionBlocksDelete); (isBucketNotFoundErr, ErrBucketNotFound)].
Definition a_SetVersioning (name status : string) : shell (option error) :=
  classified ("s3.bucket.versioning -name " +:+ name +:+ " -status " +:+ status)
    [(isObjectLockSuspendErr, ErrObjectLockBlocksSuspend)].
Definition a_EnableObjectLock (name : string) : shell (option error) :=
  classified ("s3.bucket.lock -name " +:+ name +:+ " -enable") [].
Definition a_SetQuota (name : string) (sizeMiB : Z) (enforce : bool) : shell (option error) :=
  check classified ("s3.bucket.quota -name " +:+ name +:+ " -op set -sizeMB " +:+ fmt_d sizeMiB) []
  catch err => Ret (Some err);
  let op := if negb enforce then "disable" else "enable" in
  classified ("s3.bucket.quota -name " +:+ name +:+ " -op " +:+ op) [].
Definition a_RemoveQuota (name : string) : shell (option error) :=
  classified ("s3.bucket.quota -name " +:+ name +:+ " -op remove") [].
Definition a_SetOwner (name owner : string) : shell (option error) :=
  classified ("s3.bucket.owner -name " +:+ name +:+ " -owner " +:+ owner) [].
Definition a_RemoveOwner (name : string) : shell (option error) :=
  classified ("s3.bucket.owner -name " +:+ name +:+ " -delete") [].
(** The error of the IAM client is passed through. *)
Definition rpc_error_error (e : rpc_error) : error :=
  match e with CodeNotFound m | CodeAlreadyExists m | CodeOther m => ErrOther m end.
Definition a_SetAccess (name user actions : string) : shell (option error) :=
  let actions := if bool_decide (actions = "") then "none" else actions in
  do r <- lift_rpc (c_SetBucketAccess filerGrpcAddress adminSigningKey gen name user actions);
  Ret (rpc_error_error <$> r).
Definition configure_parts (prefix : string) (args : list string) : list string :=
  ["fs.configure"; "-locationPrefix=" +:+ prefix] ++ args ++ ["-apply"].
Definition a_Configure (prefix : string) (args : list string) : shell (option error) :=
  classified (Join (configure_parts prefix args) " ") [].
Definition a_ListCollectionStats : shell (result (gmap string BucketCollectionStats)) :=
  do r <- run_cmd "collection.list";
  Ret (match r.2 with
       | Some msg => Err (ErrOther msg)
       | None => Ok (parseCollectionListOutput r.1)
       end).
End bucket.
End admin.

(** ** The command line reaches the shell as it was meant *)
(** A word that survives the splitting: not empty, without spaces, and with no
    quote at either end. *)
Definition safe_word (w : string) : Prop :=
  w <> "" /\ all_chars (fun c => negb (re_space c)) w = true /\ trim_quotes w = w /\
  match w with String c _ => is_quote c = false | EmptyString => True end.
#[export] Instance safe_word_dec w : Decision (safe_word w).
Proof. unfold safe_word. destruct w; apply _. Defined.

Lemma non_space_word w rest :
  all_chars (fun c => negb (re_space c)) w = true ->
  match rest with String c _ => re_space c = true | EmptyString => True end ->
  non_space (w +:+ rest) = (w, rest).
Proof.
  intros Hw Hr. induction w as [|c w IH].
  - destruct rest as [|c rest]; [done|]. simpl in *.
    change ("" +:+ String c rest) with (String c rest). simpl. by rewrite Hr.
  - simpl in Hw. apply andb_true_iff in Hw as [Hc Hw].
    change (String c w +:+ rest) with (String c (w +:+ rest)). simpl.
    apply negb_true_iff in Hc. by rewrite Hc, IH.
Qed.

Lemma find_all_word fuel w rest :
  safe_word w -> match rest with String c _ => re_space c = true | EmptyString => True end ->
  find_all (S fuel) (w +:+ rest) = w :: find_all fuel rest.
Proof.
  intros (Hne & Hsp & _ & Hq) Hr. destruct w as [|c w]; [done|].
  pose proof (non_space_word (String c w) rest Hsp Hr) as Hns.
  change (String c w +:+ rest) with (String c (w +:+ rest)) in *.
  cbn [find_all]. simpl in Hsp. apply andb_true_iff in Hsp as [Hc _].
  apply negb_true_iff in Hc. by rewrite Hc, Hq, Hns.
Qed.


Lemma find_all_Join ws fuel :
  Forall safe_word ws -> String.length (Join ws " ") <= fuel -> find_all fuel (Join ws " ") = ws.
Proof.
  revert fuel; induction ws as [|w ws IH]; intros fuel Hs Hf.
  - by destruct fuel.
  - apply Forall_cons in Hs as [Hw Hs]. destruct ws as [|v ws].
    + simpl in *. destruct fuel as [|fuel].
      { destruct Hw as [Hne _]. destruct w; [done|]. simpl in Hf. lia. }
      rewrite <-(string_app_nil w) at 1. rewrite find_all_word by done. by destruct fuel.
    + rewrite Join_cons2 in *. rewrite !length_app_string in Hf. simpl in Hf.
      destruct fuel as [|fuel]; [lia|]. rewrite find_all_word; [|exact Hw|reflexivity]. f_equal.
      change (" " +:+ Join (v :: ws) " ") with (String " " (Join (v :: ws) " ")).
      destruct Hw as [Hne _]. destruct w; [done|]. simpl in Hf.
      destruct fuel as [|fuel]; [lia|]. cbn [find_all]. cbn [re_space]. apply IH; [done|]. simpl. lia.
Qed.
Lemma FindAllString_Join ws : Forall safe_word ws -> FindAllString (Join ws " ") = ws.
Proof. intros Hs. by apply find_all_Join. Qed.

Section commands.
Context (Commands : list string).

(** One command, once a master is connected. *)
Definition do_command (name : string) (args : list string) : shell (string * option string) :=
  do connected <- call GetMaster;
  if negb connected then Ret ("", Some "wait for master connection: context deadline exceeded")
  else call (ShellDo name args).

(** The command is known, and not under the fs. alias of another. *)
Definition known (name : string) : Prop := name ∈ Commands /\ ("fs." +:+ name) ∉ Commands.

Lemma find_known name :
  known name ->
  List.find (fun c => bool_decide (c = name) || bool_decide (c = "fs." +:+ name)) Commands = Some name.
Proof.
  intros [Hin Hout]. induction Commands as [|c cs IH]; [by apply not_elem_of_nil in Hin|].
  simpl. apply not_elem_of_cons in Hout as [Hc Hout].
  rewrite (bool_decide_false (c = "fs." +:+ name)) by congruence. rewrite orb_false_r.
  case_bool_decide as Hcn; [by subst|]. apply elem_of_cons in Hin as [?|Hin]; [congruence|]. auto.
Qed.

Lemma run_words name args :
  known name -> Forall safe_word (name :: args) ->
  run_cmd Commands (Join (name :: args) " ") = do_command name args.
Proof.
  intros Hk Hs. unfold run_cmd, ProcessCommand. rewrite FindAllString_Join by done.
  rewrite (find_known name Hk). unfold do_command.
  assert (map trim_quotes args = args) as ->; [|done].
  apply Forall_cons in Hs as [_ Hs]. induction Hs as [|w ws (_ & _ & Ht & _) _ IH]; [done|].
  simpl. by rewrite Ht, IH.
Qed.
End commands.


Lemma trim_quotes_none w : all_chars (fun c => negb (is_quote c)) w = true -> trim_quotes w = w.
Proof.
  intros Hw. assert (Hl : forall v, all_chars (fun c => negb (is_quote c)) v = true -> trim_quotes_left v = v).
  { intros [|c v]; simpl; [done|]. intros [Hc _]%andb_true_iff. apply negb_true_iff in Hc. by rewrite Hc. }
  unfold trim_quotes. rewrite (Hl w Hw), Hl, string_rev_rev; [done|].
  unfold String.rev. by rewrite all_chars_rev_app, Hw.
Qed.

Lemma digit_plain c : is_digit c = true -> re_space c = false /\ is_quote c = false.
Proof. destruct c as [[] [] [] [] [] [] [] []]; by cbv. Qed.
Lemma safe_number z : (0 <= z)%Z -> safe_word (fmt_d z).
Proof.
  intros Hz. destruct (fmt_d_digits z Hz) as (_ & Hd & Hne). split_and!; [done| | |].
  - eapply all_chars_impl; [|exact Hd]. intros c Hc. by rewrite (proj1 (digit_plain c Hc)).
  - apply trim_quotes_none. eapply all_chars_impl; [|exact Hd].
    intros c Hc. by rewrite (proj2 (digit_plain c Hc)).
  - destruct (fmt_d z) as [|c s]; [done|]. simpl in Hd. apply andb_true_iff in Hd as [Hc _].
    by apply digit_plain.
Qed.

Definition shell_commands : list string :=
  ["s3.bucket.versioning"; "s3.bucket.create"; "s3.bucket.delete"; "s3.bucket.lock";
   "s3.bucket.quota"; "s3.bucket.owner"; "fs.configure"; "collection.list"].

(** Every operation of the bucket admin reaches the shell as it was meant: when
    the bucket name and the other arguments hold no spaces and no quotes at their
    ends, the command line an operation prints is split into exactly its command
    and its arguments, each argument whole. *)
Theorem bucket_commands Commands name owner status prefix args withLock sizeMiB enforce :
  Forall (known Commands) shell_commands ->
  safe_word name -> safe_word owner -> safe_word status -> (0 <= sizeMiB)%Z ->
  safe_word ("-locationPrefix=" +:+ prefix) -> Forall safe_word args ->
  let run := run_cmd Commands in
  run ("s3.bucket.versioning -name " +:+ name) = do_command "s3.bucket.versioning" ["-name"; name] /\
  run (Join (create_parts name owner withLock) " ") =
    do_command "s3.bucket.create"
      (["-name"; name; "-owner"; owner] ++ if withLock then ["-withLock"] else []) /\
  run (Join (create_parts name "" withLock) " ") =
    do_command "s3.bucket.create" (["-name"; name] ++ if withLock then ["-withLock"] else []) /\
  run ("s3.bucket.delete -name " +:+ name) = do_command "s3.bucket.delete" ["-name"; name] /\
  run ("s3.bucket.versioning -name " +:+ name +:+ " -status " +:+ status) =
    do_command "s3.bucket.versioning" ["-name"; name; "-status"; status] /\
  run ("s3.bucket.lock -name " +:+ name +:+ " -enable") =
    do_command "s3.bucket.lock" ["-name"; name; "-enable"] /\
  run ("s3.bucket.quota -name " +:+ name +:+ " -op set -sizeMB " +:+ fmt_d sizeMiB) =
    do_command "s3.bucket.quota" ["-name"; name; "-op"; "set"; "-sizeMB"; fmt_d sizeMiB] /\
  run ("s3.bucket.quota -name " +:+ name +:+ " -op " +:+ if negb enforce then "disable" else "enable") =
    do_command "s3.bucket.quota" ["-name"; name; "-op"; if enforce then "enable" else "disable"] /\
  run ("s3.bucket.quota -name " +:+ name +:+ " -op remove") =
    do_command "s3.bucket.quota" ["-name"; name; "-op"; "remove"] /\
  run ("s3.bucket.owner -name " +:+ name +:+ " -owner " +:+ owner) =
    do_command "s3.bucket.owner" ["-name"; name; "-owner"; owner] /\
  run ("s3.bucket.owner -name " +:+ name +:+ " -delete") =
    do_command "s3.bucket.owner" ["-name"; name; "-delete"] /\
  run (Join (configure_parts prefix args) " ") =
    do_command "fs.configure" (["-locationPrefix=" +:+ prefix] ++ args ++ ["-apply"]) /\
  run "collection.list" = do_command "collection.list" [].
Proof.
  intros Hk Hn Ho Hst Hz Hp Ha run.
  assert (Hknown : forall c, c ∈ shell_commands -> known Commands c) by by apply Forall_forall.
  pose proof (safe_number sizeMiB Hz) as Hmib.
  assert (Hrun : forall line c ws, line = Join (c :: ws) " " -> c ∈ shell_commands -> safe_word c ->
    Forall safe_word ws -> run line = do_command c ws).
  { intros line c ws -> Hc Hsc Hw. apply run_words; [by apply Hknown|by constructor]. }
  assert (Howner : bool_decide (owner = "") = false) by (by apply bool_decide_false, Ho).
  unfold create_parts. rewrite Howner.
  split_and!; apply Hrun.
  all: try (destruct enforce; reflexivity).
  all: try match goal with |- _ ∈ _ => apply (bool_decide_unpack _); vm_compute; exact I end.
  all: repeat first [assumption | apply Forall_app; split | apply Forall_cons; split
                    | apply Forall_nil; exact I
                    | match goal with |- context [if ?b then _ else _] => destruct b end
                    | apply (bool_decide_unpack _); vm_compute; exact I ].
Qed.

(** Nothing quotes an argument: an owner with a space in it, which the resource
    allows, becomes two arguments, and what follows the space is read by the
    command as an option of its own. *)
Theorem owner_splits Commands name first second :
  known Commands "s3.bucket.owner" -> safe_word name -> safe_word first -> safe_word second ->
  run_cmd Commands ("s3.bucket.owner -name " +:+ name +:+ " -owner " +:+ (first +:+ " " +:+ second)) =
    do_command "s3.bucket.owner" ["-name"; name; "-owner"; first; second].
Proof.
  intros Hk Hn Hf Hs.
  change ("s3.bucket.owner -name " +:+ name +:+ " -owner " +:+ (first +:+ " " +:+ second))
    with (Join ["s3.bucket.owner"; "-name"; name; "-owner"; first; second] " ").
  apply run_words; [done|].
  repeat first [assumption | apply Forall_cons; split | apply Forall_nil; exact I
               | apply (bool_decide_unpack _); vm_compute; exact I ].
Qed.

(** ** The collection list reads back *)
(** A line of the documented format, and the summary at the end. *)
Definition tab : string := String "009"%char EmptyString.
Record collection := {
  coll_name : string;
  coll_volumes : Z;
  coll_size : Z;
  coll_files : Z;
  coll_rest : string;
}.
Definition print_line (c : collection) : string :=
  "collection:" +:+ dquote +:+ coll_name c +:+ dquote +:+ tab +:+
  "volumeCount:" +:+ fmt_d (coll_volumes c) +:+ tab +:+
  "size:" +:+ fmt_d (coll_size c) +:+ tab +:+
  "fileCount:" +:+ fmt_d (coll_files c) +:+ tab +:+ coll_rest c.
Definition print_list (cs : list collection) : string :=
  Join (map print_line cs ++ ["Total " +:+ fmt_d (Z.of_nat (length cs)) +:+ " collections."; ""])
    (String newline EmptyString).

Record collection_ok (c : collection) : Prop := {
  name_ok : coll_name c <> "" /\
    all_chars (fun x => negb (Ascii.eqb x "034") && negb (Ascii.eqb x newline)) (coll_name c) = true;
  rest_ok : has_char newline (coll_rest c) = false;
  size_ok : (0 <= coll_size c <= MaxInt64)%Z;
  files_ok : (0 <= coll_files c <= MaxInt64)%Z;
  volumes_ok : (0 <= coll_volumes c)%Z;
}.

Lemma strip_app p s : strip p (p +:+ s) = Some s.
Proof.
  induction p as [|c p IH]; [done|]. change (String c p +:+ s) with (String c (p +:+ s)).
  simpl. by rewrite Ascii.eqb_refl.
Qed.
Lemma digits_app d rest :
  all_chars is_digit d = true ->
  match rest with String c _ => is_digit c = false | EmptyString => True end ->
  digits (d +:+ rest) = (d, rest).
Proof.
  intros Hd Hr. induction d as [|c d IH].
  - destruct rest as [|c rest]; [done|]. change ("" +:+ String c rest) with (String c rest).
    simpl. by rewrite Hr.
  - simpl in Hd. apply andb_true_iff in Hd as [Hc Hd].
    change (String c d +:+ rest) with (String c (d +:+ rest)). simpl. by rewrite Hc, IH.
Qed.
Lemma not_quotes_app w rest :
  all_chars (fun x => negb (Ascii.eqb x "034")) w = true ->
  not_quotes (w +:+ (dquote +:+ rest)) = (w, dquote +:+ rest).
Proof.
  intros Hw. induction w as [|c w IH]; [done|]. simpl in Hw.
  apply andb_true_iff in Hw as [Hc Hw]. apply negb_true_iff in Hc.
  change (String c w +:+ (dquote +:+ rest)) with (String c (w +:+ (dquote +:+ rest))). simpl.
  by rewrite Hc, IH.
Qed.

(** Characters that cannot start the label are skipped. *)
Definition skippable (label : string) (c : ascii) : bool :=
  match label with String l _ => negb (Ascii.eqb l c) | EmptyString => false end &&
  negb (Ascii.eqb c newline).
Fixpoint last_word (b : bool) (w : string) : bool :=
  match w with EmptyString => b | String c w' => last_word (is_word c) w' end.
Lemma field_skip {A} label b w rest (k : string -> bool -> string -> option A) :
  all_chars (skippable label) w = true ->
  field label b (w +:+ rest) k = field label (last_word b w) rest k.
Proof.
  revert b; induction w as [|c w IH]; intros b; [done|]. simpl.
  intros [Hc Hw]%andb_true_iff. change (String c w +:+ rest) with (String c (w +:+ rest)).
  apply andb_true_iff in Hc as [Hl Hn]. apply negb_true_iff in Hn.
  assert (strip label (String c (w +:+ rest)) = None) as Hs.
  { destruct label as [|l label]; [done|]. apply negb_true_iff in Hl. simpl. by rewrite Hl. }
  cbn [field]. rewrite Hs, Hn. destruct b; by rewrite IH.
Qed.
Lemma field_here {A} label d rest (k : string -> bool -> string -> option A) a :
  all_chars is_digit d = true -> d <> "" ->
  match rest with String c _ => is_digit c = false | EmptyString => True end ->
  k d true rest = Some a -> field label false (label +:+ d +:+ rest) k = Some a.
Proof.
  intros Hd Hne Hr Hk.
  assert (field label false (label +:+ d +:+ rest) k = match (match strip label (label +:+ d +:+ rest) with
    | Some r => let '(d, rest) := digits r in if bool_decide (d = "") then None else k d true rest
    | None => None end) with Some a => Some a | None =>
      match label +:+ d +:+ rest with EmptyString => None
      | String c s' => if Ascii.eqb c newline then None else field label (is_word c) s' k end end) as ->.
  { by destruct (label +:+ d +:+ rest). }
  rewrite strip_app, digits_app by done. rewrite bool_decide_false by done. by rewrite Hk.
Qed.

Lemma digits_skippable label d :
  all_chars is_digit d = true ->
  match label with String l _ => is_digit l = false | EmptyString => False end ->
  all_chars (skippable label) d = true.
Proof.
  intros Hd Hl. eapply all_chars_impl; [|exact Hd]. intros c Hc. unfold skippable.
  destruct label as [|l label]; [done|]. apply andb_true_iff. split; apply negb_true_iff, Ascii.eqb_neq.
  - intros ->. congruence.
  - intros ->. done.
Qed.

Lemma match_line c :
  collection_ok c ->
  match_here (print_line c) = Some (coll_name c, fmt_d (coll_size c), fmt_d (coll_files c)).
Proof.
  intros [[Hne Hname] _ [Hs0 _] [Hf0 _] Hv0].
  destruct (fmt_d_digits _ Hs0) as (_ & Hsd & Hsn). destruct (fmt_d_digits _ Hf0) as (_ & Hfd & Hfn).
  destruct (fmt_d_digits _ Hv0) as (_ & Hvd & _).
  unfold match_here, print_line.
  set (r4 := "fileCount:" +:+ _). set (r3 := "size:" +:+ _).
  set (r2 := "volumeCount:" +:+ _).
  change ("collection:" +:+ dquote +:+ coll_name c +:+ dquote +:+ tab +:+ r2)
    with (("collection:" +:+ dquote) +:+ (coll_name c +:+ (dquote +:+ tab +:+ r2))).
  rewrite strip_app, not_quotes_app.
  2: { eapply all_chars_impl; [|exact Hname]. intros x Hx. by apply andb_true_iff in Hx as [? _]. }
  rewrite bool_decide_false by done. rewrite strip_app.
  change (tab +:+ r2) with ((tab +:+ "volumeCount:") +:+ (fmt_d (coll_volumes c) +:+ (tab +:+ r3))).
  rewrite field_skip by reflexivity. rewrite field_skip by by apply digits_skippable.
  rewrite field_skip by reflexivity. unfold r3. apply field_here; [done|done|reflexivity|].
  rewrite field_skip by reflexivity. unfold r4. by apply field_here.
Qed.

Lemma find_here s m : match_here s = Some m -> FindStringSubmatch s = Some m.
Proof. intros Hm. destruct s; cbn [FindStringSubmatch]; by rewrite Hm. Qed.
Lemma find_skip w rest :
  all_chars (fun c => negb (Ascii.eqb c "c")) w = true ->
  FindStringSubmatch (w +:+ rest) = FindStringSubmatch rest.
Proof.
  induction w as [|c w IH]; [done|]. simpl. intros [Hc Hw]%andb_true_iff.
  change (String c w +:+ rest) with (String c (w +:+ rest)). cbn [FindStringSubmatch].
  assert (match_here (String c (w +:+ rest)) = None) as ->; [|by apply IH].
  unfold match_here. change ("collection:" +:+ dquote) with (String "c" ("ollection:" +:+ dquote)).
  cbn [strip]. rewrite Ascii.eqb_sym. apply negb_true_iff in Hc. by rewrite Hc.
Qed.

Lemma parse_print_line m c :
  collection_ok c ->
  parse_line m (print_line c) =
    <[coll_name c := {| FileCount := coll_files c; SizeBytes := coll_size c |}]> m.
Proof.
  intros Hc. unfold parse_line. rewrite (find_here _ _ (match_line c Hc)).
  destruct Hc as [_ _ Hs Hf _]. unfold ParseInt.
  destruct (fmt_d_digits (coll_size c)) as (-> & _); [lia|].
  destruct (fmt_d_digits (coll_files c)) as (-> & _); [lia|].
  destruct (coll_size c <=? MaxInt64)%Z eqn:?; [|lia].
  destruct (coll_files c <=? MaxInt64)%Z eqn:?; [done|lia].
Qed.
Lemma parse_summary m n :
  (0 <= n)%Z -> parse_line m ("Total " +:+ fmt_d n +:+ " collections.") = m.
Proof.
  intros Hn. destruct (fmt_d_digits n Hn) as (_ & Hd & _). unfold parse_line.
  rewrite find_skip by reflexivity. rewrite find_skip; [done|].
  eapply all_chars_impl; [|exact Hd]. intros c Hc. apply negb_true_iff, Ascii.eqb_neq.
  by intros ->.
Qed.

Lemma fmt_d_no_newline z : (0 <= z)%Z -> has_char newline (fmt_d z) = false.
Proof. intros Hz. destruct (fmt_d_digits z Hz) as (_ & Hd & _). by eapply has_char_none. Qed.
Lemma line_no_newline c : collection_ok c -> has_char newline (print_line c) = false.
Proof.
  intros [[_ Hname] Hrest [? _] [? _] ?]. unfold print_line. rewrite !has_char_app.
  rewrite !fmt_d_no_newline, Hrest by done.
  rewrite (has_char_none _ newline _ Hname) by reflexivity. reflexivity.
Qed.

Definition stats_of (c : collection) : BucketCollectionStats :=
  {| FileCount := coll_files c; SizeBytes := coll_size c |}.

Lemma foldl_lines m cs :
  Forall collection_ok cs ->
  foldl parse_line m (map print_line cs) =
  foldl (fun m c => <[coll_name c := stats_of c]> m) m cs.
Proof.
  intros Hcs. revert m. induction Hcs as [|c cs Hc _ IH]; intros m; [done|]. simpl.
  by rewrite parse_print_line, IH.
Qed.
Lemma foldl_lookup (cs : list collection) (m : gmap string BucketCollectionStats) n st :
  NoDup (map coll_name cs) -> (forall c, c ∈ cs -> m !! coll_name c = None) ->
  foldl (fun m c => <[coll_name c := stats_of c]> m) m cs !! n = Some st <->
  m !! n = Some st \/ exists c, c ∈ cs /\ coll_name c = n /\ st = stats_of c.
Proof.
  revert m. induction cs as [|c cs IH]; intros m Hnd Hm; simpl.
  - split; [by left|]. intros [?|(c & Hc & _)]; [done|]. by apply not_elem_of_nil in Hc.
  - apply NoDup_cons in Hnd as [Hc Hnd]. rewrite IH; [|done|].
    + rewrite lookup_insert_Some. split.
      * intros [[[<- <-]|[_ ?]]|(d & Hd & ?)]; [right; exists c; set_solver|by left|right; exists d; set_solver].
      * intros [Hn|(d & [->|Hd]%elem_of_cons & Hn & ->)]; [|by left; left|right; eauto].
        left. right. split; [|done]. intros <-. rewrite Hm in Hn; [done|left].
    + intros d Hd. rewrite lookup_insert_ne; [apply Hm; by right|]. intros Heq.
      apply Hc. rewrite Heq. apply list_elem_of_In, in_map, list_elem_of_In, Hd.
Qed.

(** The parser reads back the listing the shell prints: from a listing of
    collections with distinct names, every field of every line, whatever fields
    follow, yields exactly one entry per collection with its size and file count,
    and the summary line none. *)
Theorem collection_list_roundtrip cs n st :
  Forall collection_ok cs -> NoDup (map coll_name cs) ->
  parseCollectionListOutput (print_list cs) !! n = Some st <->
  exists c, c ∈ cs /\ coll_name c = n /\ st = stats_of c.
Proof.
  intros Hcs Hnd. unfold parseCollectionListOutput, print_list. rewrite Split_Join.
  - rewrite foldl_app, foldl_lines by done. cbn [foldl]. rewrite parse_summary by lia.
    change (parse_line ?m "") with m. rewrite foldl_lookup; [|done|done].
    split; [intros [?|?]; done|by right].
  - by destruct cs.
  - apply Forall_app. split.
    + apply Forall_fmap. eapply Forall_impl; [exact Hcs|]. apply line_no_newline.
    + repeat constructor. rewrite !has_char_app, fmt_d_no_newline by lia. reflexivity.
Qed.

(** *** Witnesses *)
Lemma bucket_commands_witness :
  run_cmd shell_commands "s3.bucket.create -name photos -owner alice -withLock" =
    do_command "s3.bucket.create" ["-name"; "photos"; "-owner"; "alice"; "-withLock"].
Proof.
  destruct (bucket_commands shell_commands "photos" "alice" "Enabled" "/buckets/photos/"
              ["-replication=001"] true 5 true) as (_ & Hc & _);
    [by apply (bool_decide_unpack _); vm_compute..|done| | |exact Hc];
    by apply (bool_decide_unpack _); vm_compute.
Defined.

Lemma owner_splits_witness :
  run_cmd shell_commands "s3.bucket.owner -name photos -owner alice -delete" =
    do_command "s3.bucket.owner" ["-name"; "photos"; "-owner"; "alice"; "-delete"].
Proof.
  apply (owner_splits shell_commands "photos" "alice" "-delete");
    by apply (bool_decide_unpack _); vm_compute.
Defined.

Definition sample_collections : list collection := [
  {| coll_name := "photos"; coll_volumes := 3; coll_size := 107374182400; coll_files := 12483;
     coll_rest := "deletedBytes:0" |};
  {| coll_name := "logs"; coll_volumes := 1; coll_size := 0; coll_files := 0; coll_rest := "" |}].

Lemma collection_list_roundtrip_witness :
  parseCollectionListOutput (print_list sample_collections) !! "photos" =
    Some {| FileCount := 12483; SizeBytes := 107374182400 |}.
Proof.
  apply (collection_list_roundtrip sample_collections).
  - repeat constructor; by vm_compute.
  - by apply (bool_decide_unpack _); vm_compute.
  - eexists. split; [left|]. done.
Defined.
