(* ===== verification/BucketController.v ===== *)
(** * The Bucket controller (internal/controller/bucket_controller.go)

    The reconciler as programs, in segments that follow the source: existence
    and ownership, object lock, versioning, quota, owner, access grants,
    placement and the final status.  The guard theorem says when each call may
    be made whatever the API server and the filer answer; the functional theorem
    says what a bucket looks like after a successful pass over filers that do
    what bucket_admin.go documents. *)
From Stdlib Require Import Ascii.
From S2P Require Import Prelude Prog CoreTypes ApiTypes Effects Machinery Sim Trace RefGrant.
From S2P Require Import Cluster.
From S2P Require Import IamCommon IamSpec.

Definition BucketFinalizer : string := "seaweed.seaweedfs.com/bucket-protection".
Definition AnnotationAppliedAccess : string := "bucket.seaweed.seaweedfs.com/applied-access".
Definition AnonymousIdentity : string := "anonymous".

(** The conditions, phase and finalizers of a Bucket are handled as those of the
    IAM resources. *)
Definition set_bst (m : BucketStatus -> BucketStatus) (b : Bucket) : Bucket :=
  {| b_Meta := b_Meta b; b_Spec := b_Spec b; b_Status := m (b_Status b) |}.
#[export] Instance bucket_object : IamObject Bucket := {|
  io_Meta := b_Meta;
  io_setMeta m o := {| b_Meta := m; b_Spec := b_Spec o; b_Status := b_Status o |};
  io_Conditions o := bst_Conditions (b_Status o);
  io_setConditions cs := set_bst (fun s =>
    {| bst_ObservedGeneration := bst_ObservedGeneration s; bst_Phase := bst_Phase s;
       bst_Conditions := cs; bst_BucketName := bst_BucketName s;
       bst_Versioning := bst_Versioning s; bst_ObjectLockEnabled := bst_ObjectLockEnabled s;
       bst_Quota := bst_Quota s; bst_OwnerIdentity := bst_OwnerIdentity s;
       bst_Usage := bst_Usage s |});
  io_setPhase ph := set_bst (fun s =>
    {| bst_ObservedGeneration := bst_ObservedGeneration s; bst_Phase := ph;
       bst_Conditions := bst_Conditions s; bst_BucketName := bst_BucketName s;
       bst_Versioning := bst_Versioning s; bst_ObjectLockEnabled := bst_ObjectLockEnabled s;
       bst_Quota := bst_Quota s; bst_OwnerIdentity := bst_OwnerIdentity s;
       bst_Usage := bst_Usage s |});
|}.

(** ** Helpers *)
Definition resolvedBucketName (b : Bucket) : string :=
  if negb (bool_decide (bspec_Name (b_Spec b) = "")) then bspec_Name (b_Spec b)
  else Name (b_Meta b).

(** [(bytes + mib - 1) / mib] in int64, whose division truncates. *)
Definition quantityToMiB (q : Quantity) : result Z :=
  if (q_Sign q <? 0)%Z
  then Err (ErrOther ("quota size must be non-negative, got " +:+ q_String q))
  else match q_AsInt64 q with
       | None => Err (ErrOther ("quota size " +:+ q_String q +:+
                                " cannot be represented as int64 bytes"))
       | Some bytes =>
           let mib := (1024 * 1024)%Z in
           if bool_decide (bytes = 0%Z) then Ok 0%Z
           else Ok (Z.quot (int64 (int64 (bytes + mib) - 1)) mib)
       end.

Definition joinActions (actions : list string) : string :=
  match actions with
  | [] => "none"
  | _ => Join (sort_strings actions) ","
  end.

(** The keys of the set, which the source collects in map order and sorts. *)
Definition withAnonymousRead (actions : string) : string :=
  let words := omap (fun a => let a := TrimSpace a in
                     if bool_decide (a = "") || EqualFold a "none" then None else Some a)
                 (Split actions ","%char) in
  Join (sort_strings (remove_dups (BucketAccessRead :: words))) ",".

Definition placementArgs (p : option BucketPlacement) : list string :=
  match p with
  | None => []
  | Some p =>
      let arg (b : bool) (s : string) := if b then [s] else [] in
      let set (v : string) := negb (bool_decide (v = "")) in
      arg (set (pl_Replication p)) ("-replication=" +:+ pl_Replication p) ++
      arg (set (pl_DiskType p)) ("-disk=" +:+ pl_DiskType p) ++
      arg (set (pl_TTL p)) ("-ttl=" +:+ pl_TTL p) ++
      arg (pl_Fsync p) "-fsync=true" ++
      arg (pl_WORM p) "-worm=true" ++
      arg (pl_ReadOnly p) "-readOnly=true" ++
      arg (set (pl_DataCenter p)) ("-dataCenter=" +:+ pl_DataCenter p) ++
      arg (set (pl_Rack p)) ("-rack=" +:+ pl_Rack p) ++
      arg (set (pl_DataNode p)) ("-dataNode=" +:+ pl_DataNode p) ++
      match pl_VolumeGrowthCount p with
      | Some n => ["-volumeGrowthCount=" +:+ fmt_d n] | None => [] end
  end.

Definition boolToCondStatus (b : bool) : ConditionStatus :=
  if b then ConditionTrue else ConditionFalse.

Definition readAppliedAccessAnnotation (b : Bucket) : list string :=
  let val := default "" (Annotations (b_Meta b) !! AnnotationAppliedAccess) in
  if bool_decide (val = "") then []
  else omap (fun p => let p := TrimSpace p in if bool_decide (p = "") then None else Some p)
         (Split val ","%char).

(** The grants wanted, by user; a later entry for a user replaces an earlier. *)
Definition desiredAccess (b : Bucket) : gmap string string :=
  let desired := foldl (fun m g => <[acc_User g := joinActions (acc_Actions g)]> m) ∅
                   (bspec_Access (b_Spec b)) in
  if bspec_AnonymousRead (b_Spec b)
  then <[AnonymousIdentity := withAnonymousRead (default "" (desired !! AnonymousIdentity))]>
         desired
  else desired.

(** Go ranges over a map in an unspecified order. *)
Class MapRange := {
  map_range : gmap string string -> list (string * string);
  map_range_spec m : map_range m ≡ₚ map_to_list m;
}.
#[export] Instance map_range_to_list : MapRange := {| map_range_spec m := reflexivity _ |}.

(** The target of a bucket admin: its cache needs no TLS fingerprint. *)
Definition adminTarget (seaweed : Seaweed) (adminKey : string) (d : DialOption) : filerTarget :=
  {| address := getFilerAddress seaweed; adminSigningKey := adminKey; grpcDialOption := d;
     tlsFingerprint := "" |}.

(** ** Reconcile *)
Section controller.
Context `{ApiMachinery} `{Digest} `{MapRange}.
Context (Recorder : bool) (ResyncInterval : Z).

Definition recordEvent (eventType reason message : string) : op () :=
  if negb Recorder then Ret tt else call (OEvent eventType reason message).

Definition failPhase (bucket : Bucket) (phase reason message : string) : op outcome :=
  let bucket := io_setPhase phase bucket in
  let bucket := setCond bucket BucketConditionReady ConditionFalse reason message in
  check kube (KStatusUpdate KBucket bucket) catch err => Ret (Done noResult (Some err));
  Ret (Done (requeueIn requeueAfterTransient) None).
(** [return r.failPhase(...)] in a segment. *)
Definition stop {A} (bucket : Bucket) (reason message : string) : segment opE outcome A :=
  do o <- failPhase bucket BucketPhaseFailed reason message; Ret (inl o).

Definition claimName (bucketName : string) : Bucket -> Bucket := set_bst (fun s =>
  {| bst_ObservedGeneration := bst_ObservedGeneration s; bst_Phase := bst_Phase s;
     bst_Conditions := bst_Conditions s; bst_BucketName := bucketName;
     bst_Versioning := bst_Versioning s; bst_ObjectLockEnabled := bst_ObjectLockEnabled s;
     bst_Quota := bst_Quota s; bst_OwnerIdentity := bst_OwnerIdentity s;
     bst_Usage := bst_Usage s |}).

Definition adoptBucket (bucket : Bucket) (bucketName : string) : op Bucket :=
  do _ <- recordEvent "Normal" "BucketAdopted"
            ("adopted existing bucket " +:+ fmt_q bucketName +:+ " on cluster " +:+
             fmt_q (ref_Name (bspec_ClusterRef (b_Spec bucket))));
  Ret (claimName bucketName bucket).

Section pass.
Context (masters : string) (target : filerTarget).
Abbreviation admin e := (bkt masters target e).

(** Existence and ownership. *)
Definition ensureBucket (bucket : Bucket) (bucketName : string) : segment opE outcome Bucket :=
  do r <- admin (BucketExists bucketName);
  match r with
  | inl err => stop bucket "ExistsCheckFailed" (error_string err)
  | inr exists_ =>
      seg bucket <-
        (if exists_ && bool_decide (bst_BucketName (b_Status bucket) = "") then
           if negb (bspec_AdoptExisting (b_Spec bucket)) then
             let bucket := setCond bucket BucketConditionBucketAlreadyExists ConditionTrue
               "AlreadyExists"
               ("a bucket named " +:+ fmt_q bucketName +:+ " already exists on cluster " +:+
                fmt_q (ref_Name (bspec_ClusterRef (b_Spec bucket))) +:+
                " and was not created by this resource; set spec.adoptExisting: true to adopt it") in
             stop bucket "BucketAlreadyExists"
               ("bucket " +:+ fmt_q bucketName +:+
                " already exists; set spec.adoptExisting: true to adopt it")
           else do bucket <- adoptBucket bucket bucketName; Ret (inr bucket)
         else Ret (inr bucket));
      if exists_ then Ret (inr bucket)
      else
        do r <- admin (CreateBucket bucketName (bspec_Owner (b_Spec bucket))
                         (bspec_ObjectLock (b_Spec bucket)));
        match r with
        | None => Ret (inr (claimName bucketName bucket))
        | Some err =>
            if errors_Is err ErrBucketAlreadyExists then
              if negb (bspec_AdoptExisting (b_Spec bucket)) then
                let bucket := setCond bucket BucketConditionBucketAlreadyExists ConditionTrue
                  "AlreadyExists"
                  ("bucket " +:+ fmt_q bucketName +:+
                   " was created by another agent between exists check and create; " +:+
                   "set spec.adoptExisting: true to adopt it") in
                stop bucket "BucketAlreadyExists" (error_string err)
              else do bucket <- adoptBucket bucket bucketName; Ret (inr bucket)
            else stop bucket "CreateFailed" (error_string err)
        end
  end.

Definition ensureObjectLock (bucket : Bucket) (bucketName : string)
    : segment opE outcome Bucket :=
  seg _ <-
    (if bspec_ObjectLock (b_Spec bucket) && negb (bst_ObjectLockEnabled (b_Status bucket))
     then check admin (EnableObjectLock bucketName)
          catch err => stop bucket "ObjectLockFailed" (error_string err);
          Ret (inr tt)
     else Ret (inr tt));
  Ret (inr (setCond bucket BucketConditionObjectLockEnabled
              (boolToCondStatus (bspec_ObjectLock (b_Spec bucket))) "Reconciled" "")).

Definition ensureVersioning (bucket : Bucket) (bucketName : string) : segment opE outcome () :=
  let v := bspec_Versioning (b_Spec bucket) in
  if negb (bool_decide (v = "")) && negb (bool_decide (v = VersioningOff)) then
    check admin (SetVersioning bucketName v)
    catch err => (if errors_Is err ErrObjectLockBlocksSuspend
                  then stop bucket "VersioningSuspendBlocked" (error_string err)
                  else stop bucket "VersioningFailed" (error_string err));
    Ret (inr tt)
  else Ret (inr tt).

Definition ensureQuota (bucket : Bucket) (bucketName : string) : segment opE outcome Bucket :=
  match bspec_Quota (b_Spec bucket) with
  | Some q =>
      match quantityToMiB (quota_Size q) with
      | inl err => stop bucket "QuotaInvalid" (error_string err)
      | inr sizeMiB =>
          seg _ <-
            (if (sizeMiB <=? 0)%Z
             then check admin (RemoveQuota bucketName)
                  catch err => stop bucket "QuotaRemoveFailed" (error_string err);
                  Ret (inr tt)
             else check admin (SetQuota bucketName sizeMiB (quota_Enforce q))
                  catch err => stop bucket "QuotaFailed" (error_string err);
                  Ret (inr tt));
          Ret (inr (setCond bucket BucketConditionQuotaEnforced
                      (boolToCondStatus (quota_Enforce q && (0 <? sizeMiB)%Z)) "Reconciled" ""))
      end
  | None =>
      match bst_Quota (b_Status bucket) with
      | Some _ =>
          check admin (RemoveQuota bucketName)
          catch err => stop bucket "QuotaRemoveFailed" (error_string err);
          Ret (inr (setCond bucket BucketConditionQuotaEnforced ConditionFalse "Removed" ""))
      | None => Ret (inr bucket)
      end
  end.

Definition ensureOwner (bucket : Bucket) (bucketName : string) : segment opE outcome () :=
  let owner := bspec_Owner (b_Spec bucket) in
  let current := bst_OwnerIdentity (b_Status bucket) in
  if negb (bool_decide (owner = "")) then
    if negb (bool_decide (current = owner)) then
      check admin (SetOwner bucketName owner)
      catch err => stop bucket "OwnerFailed" (error_string err);
      Ret (inr tt)
    else Ret (inr tt)
  else if negb (bool_decide (current = "")) then
    check admin (RemoveOwner bucketName)
    catch err => stop bucket "OwnerFailed" (error_string err);
    Ret (inr tt)
  else Ret (inr tt).

Definition annotate (v : string) (m : ObjectMeta) : ObjectMeta := {|
  Name := Name m; Namespace := Namespace m; Generation := Generation m;
  CreationTimestamp := CreationTimestamp m; DeletionTimestamp := DeletionTimestamp m;
  Labels := Labels m; Annotations := <[AnnotationAppliedAccess := v]> (Annotations m);
  Finalizers := Finalizers m; OwnerReferences := OwnerReferences m; UID := UID m |}.

(** The bucket afterwards is the one of the patch response. *)
Definition writeAppliedAccessAnnotation (bucket : Bucket) (desired : gmap string string)
    : op (result Bucket) :=
  let newVal := Join (sort_strings (map fst (map_range desired))) "," in
  if bool_decide (default "" (Annotations (b_Meta bucket) !! AnnotationAppliedAccess) = newVal)
  then Ret (Ok bucket)
  else kube (KPatch KBucket bucket (io_setMeta (annotate newVal (b_Meta bucket)) bucket)).

Definition ensureAccess (bucket : Bucket) (bucketName : string) : segment opE outcome Bucket :=
  let prevUsers := readAppliedAccessAnnotation bucket in
  let desired := desiredAccess bucket in
  do r <- for_until (map_range desired) (fun '(user, actions) =>
    check admin (SetAccess bucketName user actions)
    catch err => (do o <- failPhase bucket BucketPhaseFailed "AccessFailed"
                    ("set access for user " +:+ fmt_q user +:+ ": " +:+ error_string err);
                  Ret (Some o));
    Ret None);
  match r with
  | Some o => Ret (inl o)
  | None =>
  do r <- for_until prevUsers (fun user =>
    match desired !! user with
    | Some _ => Ret None
    | None =>
        check admin (SetAccess bucketName user "none")
        catch err => (do o <- failPhase bucket BucketPhaseFailed "AccessRevokeFailed"
                        ("revoke access for user " +:+ fmt_q user +:+ ": " +:+
                         error_string err);
                      Ret (Some o));
        Ret None
    end);
  match r with
  | Some o => Ret (inl o)
  | None =>
      do r <- writeAppliedAccessAnnotation bucket desired;
      match r with
      | inl err => Ret (inl (Done noResult (Some err)))
      | inr bucket => Ret (inr bucket)
      end
  end
  end.

Definition ensurePlacement (bucket : Bucket) (bucketName : string) : segment opE outcome () :=
  let args := placementArgs (bspec_Placement (b_Spec bucket)) in
  if 0 <? length args then
    check admin (Configure ("/buckets/" +:+ bucketName +:+ "/") args)
    catch err => stop bucket "PlacementFailed" (error_string err);
    Ret (inr tt)
  else Ret (inr tt).

Definition recordReady (bucket : Bucket) (bucketName : string) : Bucket :=
  let sp := b_Spec bucket in
  let bucket := set_bst (fun s =>
    {| bst_ObservedGeneration := Generation (b_Meta bucket); bst_Phase := BucketPhaseReady;
       bst_Conditions := bst_Conditions s; bst_BucketName := bucketName;
       bst_Versioning := bspec_Versioning sp; bst_ObjectLockEnabled := bspec_ObjectLock sp;
       bst_Quota := match bspec_Quota sp with
                    | Some q =>
                        let sizeMiB := match quantityToMiB (quota_Size q) with
                                       | inr z => z | inl _ => 0%Z end in
                        Some {| squota_SizeBytes := int64 (int64 (sizeMiB * 1024) * 1024);
                                squota_Enforced := quota_Enforce q && (0 <? sizeMiB)%Z |}
                    | None => None
                    end;
       bst_OwnerIdentity := bspec_Owner sp; bst_Usage := bst_Usage s |}) bucket in
  let bucket := setCond bucket BucketConditionReady ConditionTrue "Reconciled" "" in
  let bucket := clearCond bucket BucketConditionBucketAlreadyExists in
  clearCond bucket BucketConditionDeleteBlockedByRetention.

Definition reconcileBucket (bucket : Bucket) (bucketName : string) : op outcome :=
  let baseStatus := b_Status bucket in
  do r <-
    (seg bucket <- ensureBucket bucket bucketName;
     seg bucket <- ensureObjectLock bucket bucketName;
     seg _ <- ensureVersioning bucket bucketName;
     seg bucket <- ensureQuota bucket bucketName;
     seg _ <- ensureOwner bucket bucketName;
     seg bucket <- ensureAccess bucket bucketName;
     seg _ <- ensurePlacement bucket bucketName;
     Ret (inr bucket));
  match r with
  | inl o => Ret o
  | inr bucket =>
      let bucket := recordReady bucket bucketName in
      if negb (bool_decide (baseStatus = b_Status bucket)) then
        check kube (KStatusUpdate KBucket bucket) catch err => Ret (Done noResult (Some err));
        Ret (Done (requeueIn ResyncInterval) None)
      else Ret (Done (requeueIn ResyncInterval) None)
  end.

Definition handleDeletion (bucket : Bucket) (bucketName : string) : op outcome :=
  if negb (hasFinalizer bucket BucketFinalizer) then Ret (Done noResult None)
  else
    let bucket := io_setPhase BucketPhaseTerminating bucket in
    do r <-
      (if bool_decide (bspec_ReclaimPolicy (b_Spec bucket) = BucketReclaimDelete) &&
          bool_decide (bst_BucketName (b_Status bucket) = bucketName)
       then
         do r <- admin (DeleteBucket bucketName);
         match r with
         | None => Ret None
         | Some err =>
             if errors_Is err ErrBucketNotFound then Ret None
             else if errors_Is err ErrRetentionBlocksDelete then
               let bucket := setCond bucket BucketConditionDeleteBlockedByRetention ConditionTrue
                 "RetentionActive"
                 ("bucket has objects under Object Lock retention or legal hold; " +:+
                  "flip reclaimPolicy to Retain and clear retention manually " +:+
                  "if you intend to delete") in
               do _ <- kube (KStatusUpdate KBucket bucket);
               Ret (Some (Done (requeueIn requeueAfterTransient) None))
             else
               let bucket := setCond bucket BucketConditionReady ConditionFalse "DeleteFailed"
                               (error_string err) in
               do _ <- kube (KStatusUpdate KBucket bucket);
               Ret (Some (Done noResult (Some err)))
         end
       else Ret None);
    match r with
    | Some o => Ret o
    | None =>
        let bucket := removeFinalizer bucket BucketFinalizer in
        check kube (KUpdate KBucket bucket) catch err => Ret (Done noResult (Some err));
        Ret (Done noResult None)
    end.
End pass.

(** The grant for the cluster, unless the Bucket is being deleted. *)
Definition admission (bucket : Bucket) : segment opE outcome Bucket :=
  let ref := bspec_ClusterRef (b_Spec bucket) in
  let seaweedNS := refNamespace ref (Namespace (b_Meta bucket)) in
  if live (b_Meta bucket) then
    do r <- seaweedRefPermitted ref kindBucket (Namespace (b_Meta bucket));
    match r with
    | inl err => Ret (inl (Done noResult (Some err)))
    | inr permitted =>
        if negb permitted then
          let bucket := setCond bucket BucketConditionClusterRefForbidden ConditionTrue
            "ReferenceGrantMissing"
            ("cross-namespace clusterRef to Seaweed " +:+ fmt_q (ref_Name ref) +:+
             " in namespace " +:+ fmt_q seaweedNS +:+
             " is not permitted; create a ResourceReferenceGrant in namespace " +:+
             fmt_q seaweedNS +:+ " with from {group: " +:+ fmt_q groupSeaweed +:+ ", kind: " +:+
             fmt_q kindBucket +:+ ", namespace: " +:+ fmt_q (Namespace (b_Meta bucket)) +:+
             "} to {group: " +:+ fmt_q groupSeaweed +:+ ", kind: " +:+ fmt_q kindSeaweed +:+
             "}") in
          let bucket := io_setPhase BucketPhasePending bucket in
          check kube (KStatusUpdate KBucket bucket)
          catch err => Ret (inl (Done noResult (Some err)));
          Ret (inl (Done (requeueIn requeueAfterTransient) None))
        else Ret (inr (clearCond bucket BucketConditionClusterRefForbidden))
    end
  else Ret (inr bucket).

Definition Reconcile (req : NamespacedName) : op outcome :=
  try bucket <- kube (KGet KBucket req) catch err => Ret (Done noResult (IgnoreNotFound err));
  let bucketName := resolvedBucketName bucket in
  let recorded := bst_BucketName (b_Status bucket) in
  if negb (bool_decide (recorded = "")) && negb (bool_decide (recorded = bucketName)) then
    failPhase bucket BucketPhaseFailed "BucketRenameNotSupported"
      ("bucket name change from " +:+ fmt_q recorded +:+ " to " +:+ fmt_q bucketName +:+
       " is not supported; restore the original name or recreate the resource")
  else
    let ref := bspec_ClusterRef (b_Spec bucket) in
    let seaweedNS := refNamespace ref (Namespace (b_Meta bucket)) in
    do r <- admission bucket;
    match r with
    | inl o => Ret o
    | inr bucket =>
        do r <- kube (KGet KSeaweed {| nn_Namespace := seaweedNS; nn_Name := ref_Name ref |});
        match r with
        | inl err =>
            if IsNotFound err then
              let bucket := setCond bucket BucketConditionClusterReachable ConditionFalse
                "ClusterRefNotFound"
                ("Seaweed " +:+ fmt_q (ref_Name ref) +:+ " not found in namespace " +:+
                 fmt_q seaweedNS) in
              let bucket := io_setPhase BucketPhasePending bucket in
              do _ <- kube (KStatusUpdate KBucket bucket);
              Ret (Done (requeueIn requeueAfterTransient) None)
            else Ret (Done noResult (Some err))
        | inr seaweed =>
            let bucket := setCond bucket BucketConditionClusterReachable ConditionTrue
                            "Reachable" "" in
            match getMasterPeersString seaweed with None => Ret Panic | Some masters =>
            try adminKey <- loadFilerAdminSigningKey seaweed
              catch err => Ret (Done noResult (Some err));
            try d <- loadSeaweedGrpcDialOption seaweed
              catch err => Ret (Done noResult (Some err));
            let target := adminTarget seaweed adminKey d.1 in
            check call (OBucketFactory masters target) catch err => Ret (Done noResult (Some err));
            if negb (live (b_Meta bucket)) then handleDeletion masters target bucket bucketName
            else if negb (hasFinalizer bucket BucketFinalizer) then
              check kube (KUpdate KBucket (addFinalizer bucket BucketFinalizer))
              catch err => Ret (Done noResult (Some err));
              Ret (Done requeueNow None)
            else reconcileBucket masters target bucket bucketName
            end
        end
    end.

(** ** What the controller may do *)
Definition fetched (tr : trace) (req : NamespacedName) (b : Bucket) : Prop :=
  saw_kube tr (KGet KBucket req) (Ok b).

(** [ms] and [t] reach the cluster the Bucket references, and its name is its
    own and was never recorded differently. *)
Definition manages (tr : trace) (req : NamespacedName) (b : Bucket) (n ms : string)
    (t : filerTarget) : Prop :=
  fetched tr req b /\ n = resolvedBucketName b /\
  (bst_BucketName (b_Status b) = "" \/ bst_BucketName (b_Status b) = n) /\
  exists sw, saw_kube tr (KGet KSeaweed (seaweed_key (bspec_ClusterRef (b_Spec b))
                            (Namespace (b_Meta b)))) (Ok sw) /\
             getMasterPeersString sw = Some ms /\ address t = getFilerAddress sw.

(** A live Bucket with its finalizer, permitted to use the cluster. *)
Definition may_reconcile (tr : trace) (req : NamespacedName) (b : Bucket) (n ms : string)
    (t : filerTarget) : Prop :=
  manages tr req b n ms t /\ live (b_Meta b) = true /\ hasFinalizer b BucketFinalizer = true /\
  seaweed_granted tr (bspec_ClusterRef (b_Spec b)) kindBucket (Namespace (b_Meta b)).

(** The bucket is this resource's: recorded, created in this pass, or adoptable. *)
Definition owned (tr : trace) (b : Bucket) (n ms : string) (t : filerTarget) : Prop :=
  bst_BucketName (b_Status b) = n \/ bspec_AdoptExisting (b_Spec b) = true \/
  exists o l, saw tr (OBucket ms t (CreateBucket n o l)) None.

Definition may_change (tr : trace) (req : NamespacedName) (b : Bucket) (n ms : string)
    (t : filerTarget) : Prop :=
  may_reconcile tr req b n ms t /\ owned tr b n ms t.

(** The resource as the API server last returned it in this pass. *)
Definition current (tr : trace) (b cur : Bucket) : Prop :=
  cur = b \/ exists base o, saw_kube tr (KPatch KBucket base o) (Ok cur).

(** A grant of the spec, or the revocation of a grant applied before. *)
Definition access_wanted (b : Bucket) (u a : string) : Prop :=
  desiredAccess b !! u = Some a \/
  desiredAccess b !! u = None /\ u ∈ readAppliedAccessAnnotation b /\ a = "none".

(** The annotation lists the users of the spec once all grants are in place. *)
Definition access_patch (tr : trace) (req : NamespacedName) (base o : Bucket) : Prop :=
  exists b n ms t, may_change tr req b n ms t /\
    b_Meta base = b_Meta b /\ b_Spec base = b_Spec b /\ b_Spec o = b_Spec b /\
    b_Meta o = annotate (Join (sort_strings (map fst (map_range (desiredAccess b)))) ",")
                 (b_Meta b) /\
    forall u a, access_wanted b u a -> saw tr (OBucket ms t (SetAccess n u a)) None.

(** The bucket needs no deletion any more. *)
Definition released (tr : trace) (b : Bucket) (n : string) : Prop :=
  bspec_ReclaimPolicy (b_Spec b) <> BucketReclaimDelete \/ bst_BucketName (b_Status b) <> n \/
  exists ms t r, saw tr (OBucket ms t (DeleteBucket n)) r /\
                 (r = None \/ r = Some ErrBucketNotFound).

Definition finalizer_update (tr : trace) (req : NamespacedName) (o : Bucket) : Prop :=
  exists b, fetched tr req b /\ b_Spec o = b_Spec b /\
    (live (b_Meta b) = true /\
       b_Meta o = with_finalizers (b_Meta b) (AddFinalizer (Finalizers (b_Meta b)) BucketFinalizer) \/
     live (b_Meta b) = false /\
       b_Meta o = with_finalizers (b_Meta b)
                    (RemoveFinalizer (Finalizers (b_Meta b)) BucketFinalizer) /\
       released tr b (resolvedBucketName b)).

(** A status names the bucket only when the resource owns it. *)
Definition status_update (tr : trace) (req : NamespacedName) (o : Bucket) : Prop :=
  exists b cur, fetched tr req b /\ current tr b cur /\ b_Spec o = b_Spec cur /\
    b_Meta o = b_Meta cur /\
    (bst_BucketName (b_Status o) = bst_BucketName (b_Status cur) \/
     exists n ms t, bst_BucketName (b_Status o) = n /\ may_change tr req b n ms t).

Definition quota_wanted (b : Bucket) (mib : Z) (enforce : bool) : Prop :=
  exists q, bspec_Quota (b_Spec b) = Some q /\ quantityToMiB (quota_Size q) = Ok mib /\
    (0 < mib)%Z /\ enforce = quota_Enforce q.
Definition no_quota_wanted (b : Bucket) : Prop :=
  (exists q mib, bspec_Quota (b_Spec b) = Some q /\ quantityToMiB (quota_Size q) = Ok mib /\
     (mib <= 0)%Z) \/
  bspec_Quota (b_Spec b) = None /\ bst_Quota (b_Status b) <> None.

Definition may_delete (tr : trace) (req : NamespacedName) (n ms : string) (t : filerTarget)
    : Prop :=
  exists b, manages tr req b n ms t /\ live (b_Meta b) = false /\
    hasFinalizer b BucketFinalizer = true /\
    bspec_ReclaimPolicy (b_Spec b) = BucketReclaimDelete /\ bst_BucketName (b_Status b) = n.

Definition admin_guard (tr : trace) (req : NamespacedName) (ms : string) (t : filerTarget) {X}
    (e : bucketE X) : Prop :=
  match e with
  | BucketExists n => exists b, may_reconcile tr req b n ms t
  | CreateBucket n o l => exists b, may_reconcile tr req b n ms t /\
      saw tr (OBucket ms t (BucketExists n)) (Ok false) /\
      o = bspec_Owner (b_Spec b) /\ l = bspec_ObjectLock (b_Spec b)
  | EnableObjectLock n => exists b, may_change tr req b n ms t /\
      bspec_ObjectLock (b_Spec b) = true
  | SetVersioning n v => exists b, may_change tr req b n ms t /\
      v = bspec_Versioning (b_Spec b) /\ v <> "" /\ v <> VersioningOff
  | SetQuota n mib en => exists b, may_change tr req b n ms t /\ quota_wanted b mib en
  | RemoveQuota n => exists b, may_change tr req b n ms t /\ no_quota_wanted b
  | SetOwner n o => exists b, may_change tr req b n ms t /\ o = bspec_Owner (b_Spec b) /\ o <> ""
  | RemoveOwner n => exists b, may_change tr req b n ms t /\ bspec_Owner (b_Spec b) = ""
  | SetAccess n u a => exists b, may_change tr req b n ms t /\ access_wanted b u a
  | Configure p args => exists b cur n, may_change tr req b n ms t /\ current tr b cur /\
      p = "/buckets/" +:+ n +:+ "/" /\ args = placementArgs (bspec_Placement (b_Spec cur)) /\
      args <> []
  | DeleteBucket n => may_delete tr req n ms t
  | GetBucketLifecycle _ | SetBucketLifecycle _ _ | ClearLegacyBucketTTLs _
  | ListCollectionStats => False
  end.

Definition bucket_guard (req : NamespacedName) : Guard := fun tr X e =>
  match e with
  | OKube (KGet _ _) | OKube (KList _ _ _) => True
  | OKube (KUpdate KBucket o) => finalizer_update tr req o
  | OKube (KStatusUpdate KBucket o) => status_update tr req o
  | OKube (KPatch KBucket base o) => access_patch tr req base o
  | OBucket ms t e => admin_guard tr req ms t e
  | OBucketFactory _ _ | ODialTLS _ _ _ => True
  | OEvent ty reason _ => ty = "Normal" /\ reason = "BucketAdopted"
  | _ => False
  end.

Lemma bucket_fetched_mono tr new req b : fetched tr req b -> fetched (tr ++ new) req b.
Proof. apply saw_app_l. Qed.
Lemma manages_mono tr new req b n ms t :
  manages tr req b n ms t -> manages (tr ++ new) req b n ms t.
Proof.
  intros (? & ? & ? & sw & ? & ?). split_and!; [by apply bucket_fetched_mono|done..|].
  exists sw. split; [by apply saw_app_l|done].
Qed.
Lemma may_reconcile_mono tr new req b n ms t :
  may_reconcile tr req b n ms t -> may_reconcile (tr ++ new) req b n ms t.
Proof.
  intros (? & ? & ? & ?). split_and!; [by apply manages_mono|done..|by apply granted_mono].
Qed.
Lemma owned_mono tr new b n ms t : owned tr b n ms t -> owned (tr ++ new) b n ms t.
Proof.
  intros [?|[?|(o & l & ?)]]; [by left|by right; left|]. right; right. exists o, l.
  by apply saw_app_l.
Qed.
Lemma may_change_mono tr new req b n ms t :
  may_change tr req b n ms t -> may_change (tr ++ new) req b n ms t.
Proof. intros [? ?]. split; [by apply may_reconcile_mono|by apply owned_mono]. Qed.
Lemma current_mono tr new b cur : current tr b cur -> current (tr ++ new) b cur.
Proof. intros [?|(base & o & ?)]; [by left|]. right. exists base, o. by apply saw_app_l. Qed.
#[local] Hint Extern 2 (fetched (_ ++ _) _ _) => apply bucket_fetched_mono : trace.
#[local] Hint Extern 2 (may_reconcile (_ ++ _) _ _ _ _ _) => apply may_reconcile_mono : trace.
#[local] Hint Extern 2 (may_change (_ ++ _) _ _ _ _ _) => apply may_change_mono : trace.
#[local] Hint Extern 2 (owned (_ ++ _) _ _ _ _) => apply owned_mono : trace.
#[local] Hint Extern 2 (current (_ ++ _) _ _) => apply current_mono : trace.

Lemma bucket_guard_reads req : allows_reads (bucket_guard req).
Proof. done. Qed.

Section safety.
Context (req : NamespacedName) (b : Bucket) (ms : string) (t : filerTarget).
Abbreviation G := (bucket_guard req).
Abbreviation n := (resolvedBucketName b).

Definition same (o : Bucket) : Prop :=
  b_Meta o = b_Meta b /\ b_Spec o = b_Spec b /\ bst_Quota (b_Status o) = bst_Quota (b_Status b).
Definition keeps_name (f : BucketStatus -> BucketStatus) : Prop :=
  forall s, bst_BucketName (f s) = bst_BucketName s /\ bst_Quota (f s) = bst_Quota s.
(** The bucket of the program is the fetched one up to its status, whose name is
    the recorded one or one this resource may claim. *)
Definition tracks (tr : trace) (o : Bucket) : Prop :=
  same o /\ (bst_BucketName (b_Status o) = bst_BucketName (b_Status b) \/
             bst_BucketName (b_Status o) = n /\ may_change tr req b n ms t).

Lemma tracks_mono tr new o : tracks tr o -> tracks (tr ++ new) o.
Proof. intros [? [?|[? ?]]]; split; [done|by left|done|right]. auto with trace. Qed.
Hint Extern 2 (tracks (_ ++ _) _) => apply tracks_mono : trace.

(** Conditions and the phase do not matter. *)
Lemma tracks_status tr o f :
  tracks tr o -> keeps_name f -> tracks tr (set_bst f o).
Proof.
  intros [(? & ? & ?) Hn] Hf. split; [|simpl; by rewrite (proj1 (Hf _))].
  split_and!; [done|done|]. simpl. by rewrite (proj2 (Hf _)).
Qed.

Lemma tracks_update tr o : fetched tr req b -> tracks tr o -> status_update tr req o.
Proof.
  intros Hf [(Hm & Hs & _) Hn]. exists b, b. split_and!; [done|by left|done|done|].
  destruct Hn as [?|[? ?]]; [by left|right]. by exists n, ms, t.
Qed.

Lemma failPhase_swp tr o ph reason message :
  fetched tr req b -> tracks tr o -> swp G (failPhase o ph reason message) (fun _ _ => True) tr.
Proof.
  intros Hf Ht. unfold failPhase. sx. split; [|by intros [e|]].
  apply tracks_update; [done|]. by apply tracks_status; [apply tracks_status|].
Qed.
Lemma stop_swp {A} tr o reason message (Q : outcome + A -> trace -> Prop) :
  fetched tr req b -> tracks tr o -> (forall x tr', Q (inl x) tr') ->
  swp G (stop o reason message) Q tr.
Proof.
  intros Hf Ht HQ. unfold stop. eapply swp_seq; [by apply failPhase_swp|]. intros r tr' _. apply HQ.
Qed.

(** The assertion between the segments. *)
Definition holding (tr : trace) (o : Bucket) : Prop := may_change tr req b n ms t /\ tracks tr o.
Lemma holding_mono tr new o : holding tr o -> holding (tr ++ new) o.
Proof. intros [? ?]. split; auto with trace. Qed.
Hint Extern 2 (holding (_ ++ _) _) => apply holding_mono : trace.
Lemma holding_status tr o f :
  holding tr o -> keeps_name f -> holding tr (set_bst f o).
Proof. intros [? ?] ?. split; [done|]. by apply tracks_status. Qed.
Lemma holding_fetched tr o : holding tr o -> fetched tr req b.
Proof. by intros [[[[? _] _] _] _]. Qed.

(** One admin call followed by a failure report or the rest. *)
Lemma admin_check_swp {A} tr o (e : bucketE (option error)) (reason : error -> string)
    (message : error -> string) (q : segment opE outcome A) Q :
  holding tr o -> admin_guard tr req ms t e -> (forall x tr', Q (inl x) tr') ->
  (forall tr', holding tr' o -> saw tr' (OBucket ms t e) None -> swp G q Q tr') ->
  swp G (check bkt ms t e catch err => stop o (reason err) (message err); q) Q tr.
Proof.
  intros Hh Hg HQ Hq. sx. split; [done|]. intros [err|]; sx.
  - apply stop_swp; [|by apply tracks_mono, Hh|done]. eapply bucket_fetched_mono, holding_fetched, Hh.
  - apply Hq; [by apply holding_mono|apply saw_last].
Qed.

Lemma recordEvent_swp tr message :
  swp G (recordEvent "Normal" "BucketAdopted" message) (fun _ _ => True) tr.
Proof. unfold recordEvent. destruct Recorder; sx; [|done]. by split; [split|]. Qed.

Lemma adoptBucket_swp tr o :
  may_change tr req b n ms t -> same o ->
  swp G (adoptBucket o n) (fun o' tr' => holding tr' o') tr.
Proof.
  intros Hm Hs. unfold adoptBucket. eapply swp_seq_keep; [apply recordEvent_swp|].
  intros [] new _. sx. split; [auto with trace|]. split; [done|]. right. split; [done|].
  auto with trace.
Qed.

Lemma ensureBucket_swp tr o :
  may_reconcile tr req b n ms t -> same o ->
  bst_BucketName (b_Status o) = bst_BucketName (b_Status b) ->
  swp G (ensureBucket ms t o n)
    (fun r tr' => match r with inl _ => True | inr o' => holding tr' o' end) tr.
Proof.
  intros Hmay Hs Hname.
  assert (Hf : fetched tr req b) by apply Hmay.
  assert (Htr : forall tr' o', same o' -> bst_BucketName (b_Status o') = bst_BucketName (b_Status b) ->
            tracks tr' o') by (by intros; split; [|left]).
  unfold ensureBucket. sx. split; [by exists b|]. intros [err|ex]; sx.
  { apply stop_swp; [auto with trace|by apply Htr|done]. }
  set (tr1 := tr ++ _). assert (Hmay1 : may_reconcile tr1 req b n ms t) by (unfold tr1; auto with trace).
  assert (Hsaw : saw tr1 (OBucket ms t (BucketExists n)) (Ok ex)) by apply saw_last.
  clearbody tr1. clear Hmay Hf. assert (Hf : fetched tr1 req b) by apply Hmay1.
  assert (Hspec : bspec_AdoptExisting (b_Spec o) = bspec_AdoptExisting (b_Spec b)) by by rewrite (proj1 (proj2 Hs)).
  unfold bind_seg at 1.
  destruct ex; cbn [andb].
  - eapply (swp_seq _ _ _ (fun r tr' => match r with inl _ => True | inr o' => holding tr' o' end)).
    + case_bool_decide as Hrec; cbn [negb]; [|sx; split].
      * rewrite Hspec. destruct (bspec_AdoptExisting (b_Spec b)) eqn:Ha; cbn [negb].
        -- eapply swp_seq; [apply adoptBucket_swp; [|done]|done].
           split; [done|]. by right; left.
        -- apply stop_swp; [done| |done]. by apply tracks_status; [apply Htr|].
      * split; [done|]. left. destruct Hmay1 as [(_ & _ & [He|He] & _) _]; [|done]. congruence.
      * by apply Htr.
    + intros [x|o'] tr' Hh; sx; done.
  - sx. split.
    { exists b. split_and!; [done..|by rewrite (proj1 (proj2 Hs))|by rewrite (proj1 (proj2 Hs))]. }
    intros [err|]; sx.
    + destruct (errors_Is err _); [|apply stop_swp; [auto with trace|by apply Htr|done]].
      rewrite Hspec. destruct (bspec_AdoptExisting (b_Spec b)) eqn:Ha; cbn [negb].
      * eapply swp_seq; [apply adoptBucket_swp; [|done]|done].
        split; [auto with trace|]. by right; left.
      * apply stop_swp; [auto with trace| |done]. by apply tracks_status; [apply Htr|].
    + assert (may_change (tr1 ++ [Ev (OBucket ms t (CreateBucket n (bspec_Owner (b_Spec o))
        (bspec_ObjectLock (b_Spec o)))) None]) req b n ms t).
      { split; [auto with trace|]. right; right. do 2 eexists. apply saw_last. }
      split; [done|]. split; [done|]. by right.
Qed.

(** What the following segments promise. *)
Abbreviation keeps_holding :=
  (fun (r : outcome + Bucket) tr' => match r with inl _ => True | inr o' => holding tr' o' end).
Abbreviation keeps o :=
  (fun (r : outcome + ()) tr' => match r with inl _ => True | inr _ => holding tr' o end).

Lemma ensureObjectLock_swp tr o :
  holding tr o -> swp G (ensureObjectLock ms t o n) keeps_holding tr.
Proof.
  intros Hh. unfold ensureObjectLock. unfold bind_seg.
  eapply (swp_seq _ _ _ (keeps o)).
  - destruct (bspec_ObjectLock (b_Spec o)) eqn:Hl; cbn [andb]; [|by sx].
    destruct (negb _); [|by sx]. eapply admin_check_swp; [done| |done|by intros; sx].
    exists b. split; [apply Hh|]. by rewrite <-(proj1 (proj2 (proj1 (proj2 Hh)))).
  - intros [x|[]] tr' Hh'; sx; [done|]. by apply holding_status.
Qed.

Lemma ensureVersioning_swp tr o : holding tr o -> swp G (ensureVersioning ms t o n) (keeps o) tr.
Proof.
  intros Hh. unfold ensureVersioning. destruct (_ && _) eqn:Hv; [|by sx].
  assert (bspec_Versioning (b_Spec o) <> "" /\ bspec_Versioning (b_Spec o) <> VersioningOff) as [Hv1 Hv2].
  { repeat case_bool_decide; done. }
  sx. split.
  { exists b. split; [apply Hh|]. by rewrite <-(proj1 (proj2 (proj1 (proj2 Hh)))). }
  intros [err|]; sx; [|by apply holding_mono].
  assert (Hh' := holding_mono tr [Ev (OBucket ms t (SetVersioning n (bspec_Versioning (b_Spec o))))
                                   (Some err)] o Hh).
  destruct (errors_Is _ _); (apply stop_swp; [by eapply holding_fetched|apply Hh'|done]).
Qed.

Lemma ensureQuota_swp tr o : holding tr o -> swp G (ensureQuota ms t o n) keeps_holding tr.
Proof.
  intros Hh. unfold ensureQuota. pose proof (proj1 (proj2 (proj1 (proj2 Hh)))) as Hs.
  destruct (bspec_Quota (b_Spec o)) as [q|] eqn:Hq.
  - destruct (quantityToMiB (quota_Size q)) as [err|mib] eqn:Hmib.
    { apply stop_swp; [by eapply holding_fetched|apply Hh|done]. }
    unfold bind_seg. eapply (swp_seq _ _ _ (keeps o)).
    + destruct (mib <=? 0)%Z eqn:Hz; (eapply admin_check_swp; [done| |done|by intros; sx]);
        exists b; (split; [apply Hh|]); rewrite Hs in Hq.
      * left. exists q, mib. split_and!; [done|done|lia].
      * exists q. split_and!; [done|done|lia|done].
    + intros [x|[]] tr' Hh'; sx; [done|]. by apply holding_status.
  - destruct (bst_Quota (b_Status o)) eqn:Hsq; [|by sx].
    eapply admin_check_swp; [done| |done|intros; sx; by apply holding_status].
    exists b. split; [apply Hh|]. right. rewrite <-Hs. split; [done|].
    rewrite <-(proj2 (proj2 (proj1 (proj2 Hh)))). congruence.
Qed.

Lemma ensureOwner_swp tr o : holding tr o -> swp G (ensureOwner ms t o n) (keeps o) tr.
Proof.
  intros Hh. unfold ensureOwner. pose proof (proj1 (proj2 (proj1 (proj2 Hh)))) as Hs.
  case_bool_decide as Ho; cbn [negb]; case_bool_decide as Hc; cbn [negb]; try (by sx);
    (eapply admin_check_swp; [done| |done|by intros; sx]); exists b; (split; [apply Hh|]).
  - congruence.
  - split; congruence.
Qed.

(** After the grants the Bucket may be the one of the patch response. *)
Definition granting (tr : trace) (o : Bucket) : Prop :=
  may_change tr req b n ms t /\ exists cur, current tr b cur /\ b_Meta o = b_Meta cur /\
    b_Spec o = b_Spec cur /\
    (bst_BucketName (b_Status o) = bst_BucketName (b_Status cur) \/
     bst_BucketName (b_Status o) = n).
Lemma granting_update tr o : granting tr o -> status_update tr req o.
Proof.
  intros (Hm & cur & Hc & ? & ? & Hn). exists b, cur. split_and!; [apply Hm|done..|].
  destruct Hn; [by left|right]. by exists n, ms, t.
Qed.
Lemma granting_status tr o f :
  granting tr o -> keeps_name f -> granting tr (set_bst f o).
Proof.
  intros (Hm & cur & Hc & ? & ? & Hn) Hf. split; [done|]. exists cur.
  split_and!; [done..|]. simpl. by rewrite (proj1 (Hf _)).
Qed.
Lemma granting_mono tr new o : granting tr o -> granting (tr ++ new) o.
Proof.
  intros (Hm & cur & Hc & ? & ? & Hn). split; [auto with trace|]. exists cur.
  split_and!; auto with trace.
Qed.

Lemma access_loop_swp tr o (reason : string) (message : string -> error -> string)
    (l : list (string * string)) :
  holding tr o -> (forall u a, (u, a) ∈ l -> access_wanted b u a) ->
  swp G (for_until l (fun '(user, actions) =>
      check bkt ms t (SetAccess n user actions)
      catch err => (do r <- failPhase o BucketPhaseFailed reason (message user err); Ret (Some r));
      Ret None))
    (fun r tr' => match r with
       | Some _ => True
       | None => holding tr' o /\
           forall u a, (u, a) ∈ l -> saw tr' (OBucket ms t (SetAccess n u a)) None end) tr.
Proof.
  intros Hh Hl. eapply (swp_for_until _ _ (fun dn tr' => holding tr' o /\
    forall u a, (u, a) ∈ dn -> saw tr' (OBucket ms t (SetAccess n u a)) None) (fun _ _ => True) l []);
    [|split; [done|]; set_solver].
  intros dn [u a] rest tr' Heq [Hh' Hsaw]. simpl in Heq. sx. split.
  { exists b. split; [apply Hh'|]. apply Hl. rewrite Heq. set_solver. }
  intros [err|]; sx.
  - eapply swp_seq; [apply failPhase_swp|done].
    + eapply bucket_fetched_mono, holding_fetched, Hh'.
    + apply tracks_mono, Hh'.
  - split; [by apply holding_mono|]. intros u' a' [Hin|Hin]%elem_of_app.
    + by apply saw_app_l, Hsaw.
    + apply list_elem_of_singleton in Hin. simplify_eq. apply saw_last.
Qed.

Lemma desired_same o : same o -> desiredAccess o = desiredAccess b.
Proof. intros (_ & Hs & _). unfold desiredAccess. by rewrite Hs. Qed.
Lemma applied_same o : same o -> readAppliedAccessAnnotation o = readAppliedAccessAnnotation b.
Proof. intros (Hm & _). unfold readAppliedAccessAnnotation. by rewrite Hm. Qed.

(** The users whose grants are revoked. *)
Definition revoked (o : Bucket) : list (string * string) :=
  map (fun u => (u, "none"))
    (List.filter (fun u => match desiredAccess o !! u with Some _ => false | None => true end)
       (readAppliedAccessAnnotation o)).

Lemma revoke_loop (body : string -> string -> op (option outcome)) (d : gmap string string) l :
  for_until l (fun u => match d !! u with Some _ => Ret None | None => body u "none" end) =
  for_until (map (fun u => (u, "none"))
               (List.filter (fun u => match d !! u with Some _ => false | None => true end) l))
    (fun '(u, a) => body u a).
Proof.
  induction l as [|u l IH]; [done|]. simpl. destruct (d !! u); simpl; [done|]. by rewrite IH.
Qed.

Lemma elem_of_revoked o u a :
  (u, a) ∈ revoked o <->
  desiredAccess o !! u = None /\ u ∈ readAppliedAccessAnnotation o /\ a = "none".
Proof.
  unfold revoked. rewrite list_elem_of_In, in_map_iff. split.
  - intros (u' & [= -> <-] & [Hin Hd]%filter_In). destruct (desiredAccess o !! u) eqn:He; [done|].
    by rewrite list_elem_of_In.
  - intros (Hd & Hin%list_elem_of_In & ->). exists u. split; [done|]. apply filter_In.
    by rewrite Hd.
Qed.
Lemma elem_of_desired (d : gmap string string) u a : (u, a) ∈ map_range d <-> d !! u = Some a.
Proof. rewrite map_range_spec. apply elem_of_map_to_list. Qed.

Lemma writeApplied_swp tr o :
  holding tr o ->
  (forall u a, access_wanted b u a -> saw tr (OBucket ms t (SetAccess n u a)) None) ->
  swp G (writeAppliedAccessAnnotation o (desiredAccess o))
    (fun r tr' => match r with inl _ => True | inr o' => granting tr' o' end) tr.
Proof.
  intros [Hm [Hs Hn]] Hall. pose proof Hs as (Hme & Hsp & _).
  unfold writeAppliedAccessAnnotation. case_bool_decide; sx.
  - split; [done|]. exists b. split_and!; [by left|done|done|]. tauto.
  - split.
    { exists b, n, ms, t. split_and!; [done..| |done]. simpl. rewrite Hme.
      by rewrite desired_same. }
    intros [err|cur]; sx; [done|]. split; [auto with trace|]. exists cur.
    split_and!; [|done|done|by left]. right. do 2 eexists. apply saw_last.
Qed.

Lemma ensureAccess_swp tr o :
  holding tr o ->
  swp G (ensureAccess ms t o n)
    (fun r tr' => match r with inl _ => True | inr o' => granting tr' o' end) tr.
Proof.
  intros Hh. pose proof (proj1 (proj2 Hh)) as Hs.
  unfold ensureAccess.
  rewrite (revoke_loop (fun user a => check bkt ms t (SetAccess n user a)
    catch err => (do o <- failPhase o BucketPhaseFailed "AccessRevokeFailed"
                    ("revoke access for user " +:+ fmt_q user +:+ ": " +:+ error_string err);
                  Ret (Some o));
    Ret None)). fold (revoked o).
  eapply swp_seq_keep; [apply (access_loop_swp _ _ "AccessFailed" (fun user err =>
    "set access for user " +:+ fmt_q user +:+ ": " +:+ error_string err)); [done|]|].
  { intros u a Hin. left. by rewrite <-(desired_same o), <-elem_of_desired. }
  intros [x|] new1; [done|]. intros [Hh1 Hset].
  eapply swp_seq_keep; [apply (access_loop_swp _ _ "AccessRevokeFailed" (fun user err =>
    "revoke access for user " +:+ fmt_q user +:+ ": " +:+ error_string err)); [exact Hh1|]|].
  { intros u a (Hd & Hin & ->)%elem_of_revoked. right. by rewrite <-(desired_same o), <-(applied_same o). }
  intros [x|] new2; [done|]. intros [Hh2 Hrev].
  eapply swp_seq; [apply writeApplied_swp; [exact Hh2|]|].
  { intros u a [Hd|(Hd & Hin & ->)].
    - apply saw_app_l, Hset. by rewrite elem_of_desired, desired_same.
    - apply Hrev, elem_of_revoked. by rewrite desired_same, applied_same. }
  by intros [err|o'] tr' Ho'.
Qed.

Lemma ensurePlacement_swp tr o :
  granting tr o ->
  swp G (ensurePlacement ms t o n)
    (fun r tr' => match r with inl _ => True | inr _ => granting tr' o end) tr.
Proof.
  intros Hg. unfold ensurePlacement. destruct (0 <? _) eqn:Hlen; [|by sx].
  pose proof Hg as (Hm & cur & Hc & _ & Hs & _). sx. split.
  { exists b, cur, n. rewrite Hs in *. split_and!; [done..|]. intros He.
    rewrite He in Hlen. by cbv in Hlen. }
  intros [err|]; sx; [|by apply granting_mono].
  unfold stop, failPhase. sx. split; [|by intros [e|]].
  apply granting_update. by apply granting_status; [apply granting_status; [apply granting_mono|]|].
Qed.

Lemma reconcileBucket_swp tr o :
  may_reconcile tr req b n ms t -> same o ->
  bst_BucketName (b_Status o) = bst_BucketName (b_Status b) ->
  swp G (reconcileBucket ms t o n) (fun _ _ => True) tr.
Proof.
  intros Hmay Hs Hn. unfold reconcileBucket.
  eapply (swp_seq _ _ _ (fun r tr' => match r with inl _ => True | inr o' => granting tr' o' end)).
  - unfold bind_seg.
    eapply swp_seq; [by apply ensureBucket_swp|]. intros [x|o1] tr1 Hh1; [done|].
    eapply swp_seq; [by apply ensureObjectLock_swp|]. intros [x|o2] tr2 Hh2; [done|].
    eapply swp_seq; [by apply ensureVersioning_swp|]. intros [x|[]] tr3 Hh3; [done|].
    eapply swp_seq; [by apply ensureQuota_swp|]. intros [x|o4] tr4 Hh4; [done|].
    eapply swp_seq; [by apply ensureOwner_swp|]. intros [x|[]] tr5 Hh5; [done|].
    eapply swp_seq; [by apply ensureAccess_swp|]. intros [x|o6] tr6 Hh6; [done|].
    eapply swp_seq; [by apply ensurePlacement_swp|]. by intros [x|[]] tr7 Hh7.
  - intros [x|o'] tr' Hg; [done|]. destruct (negb _); [|done]. sx. split; [|by intros [e|]].
    apply granting_update. destruct Hg as (Hm & cur & Hc & ? & ? & _). split; [done|].
    exists cur. split_and!; [done..|by right].
Qed.

Lemma handleDeletion_swp tr o :
  manages tr req b n ms t -> live (b_Meta b) = false -> same o ->
  bst_BucketName (b_Status o) = bst_BucketName (b_Status b) ->
  swp G (handleDeletion ms t o n) (fun _ _ => True) tr.
Proof.
  intros Hman Hdel Hs Hname. pose proof Hs as (Hme & Hsp & _). unfold handleDeletion.
  assert (hasFinalizer o BucketFinalizer = hasFinalizer b BucketFinalizer) as ->.
  { unfold hasFinalizer; simpl. by rewrite Hme. }
  destruct (hasFinalizer b _) eqn:Hfin; cbn [negb]; [|done].
  assert (Hf : fetched tr req b) by apply Hman.
  assert (Htr : forall tr' o', same o' ->
            bst_BucketName (b_Status o') = bst_BucketName (b_Status b) -> tracks tr' o').
  { by intros; split; [|left]. }
  eapply (swp_seq_keep _ _ _ (fun r tr' => r = None -> released tr' b n)).
  - set (c := bool_decide (bspec_ReclaimPolicy _ = _) && _).
    assert (Hc : c = bool_decide (bspec_ReclaimPolicy (b_Spec b) = BucketReclaimDelete) &&
                     bool_decide (bst_BucketName (b_Status b) = n)).
    { unfold c. simpl. by rewrite Hsp, Hname. }
    clearbody c. subst c.
    case_bool_decide as Hrec; [|by left]. case_bool_decide as Hown; [|by right; left]. cbn [andb].
    sx. split; [by exists b|]. intros [err|]; sx.
    + destruct (errors_Is err ErrBucketNotFound) eqn:He.
      { intros _. right; right. exists ms, t, (Some err). split; [apply saw_last|right].
        unfold errors_Is in He. apply bool_decide_eq_true in He. by subst. }
      destruct (errors_Is err ErrRetentionBlocksDelete); sx; (split; [|done]);
        (apply tracks_update; [auto with trace|]); by apply Htr.
    + intros _. right; right. exists ms, t, None. split; [apply saw_last|by left].
  - intros [x|] new Hrel; [done|]. sx. split; [|by intros [e|]]. exists b.
    split; [auto with trace|]. split; [done|]. right. split; [done|].
    split; [by simpl; rewrite Hme|auto].
Qed.

Lemma admission_swp tr :
  fetched tr req b ->
  swp G (admission b)
    (fun r tr' => match r with
       | inl _ => True
       | inr o => same o /\ bst_BucketName (b_Status o) = bst_BucketName (b_Status b) /\
           (live (b_Meta b) = true -> seaweed_granted tr' (bspec_ClusterRef (b_Spec b)) kindBucket
                                        (Namespace (b_Meta b)))
       end) tr.
Proof using All.
  intros Hf. unfold admission. destruct (live (b_Meta b)); [|by sx].
  eapply swp_seq_keep; [apply seaweedRefPermitted_swp, bucket_guard_reads|].
  intros [e|[]] new Hg; sx; [done|by split_and!; auto|].
  split; [|by intros [e|]]. apply (tracks_update _ _ (bucket_fetched_mono _ _ _ _ Hf)).
  by split; [|left].
Qed.
End safety.

Lemma bucket_Reconcile_swp req tr :
  swp (bucket_guard req) (Reconcile req) (fun _ _ => True) tr.
Proof.
  unfold Reconcile. sx. split; [done|]. intros [e|b]; sx; [done|].
  set (tr1 := tr ++ _). assert (fetched tr1 req b) as Hf by (unfold fetched, tr1; auto with trace).
  clearbody tr1. destruct (_ && _) eqn:Hren.
  { apply (failPhase_swp req b "" (Build_filerTarget "" "" None "")); [done|]. by split; [|left]. }
  assert (bst_BucketName (b_Status b) = "" \/
          bst_BucketName (b_Status b) = resolvedBucketName b) as Hprov.
  { repeat case_bool_decide; simpl in *; naive_solver. }
  eapply swp_seq_keep; [by apply (admission_swp req b "" (Build_filerTarget "" "" None ""))|].
  intros [x|o] new; sx; [done|]. intros (Hsame & Hname & Hadm).
  split; [done|]. intros [e|sw]; sx.
  - destruct (IsNotFound e); sx; [|done]. split; [|done].
    apply (tracks_update req b "" (Build_filerTarget "" "" None "")); [auto with trace|].
    by split; [|left].
  - destruct (getMasterPeersString sw) as [ms|] eqn:Hms; [|done]. set (tr2 := (tr1 ++ new) ++ _).
    assert (Hman : forall new2 key d,
      manages (tr2 ++ new2) req b (resolvedBucketName b) ms
        (adminTarget sw key d)).
    { intros new2 key d. split_and!; [unfold tr2; auto with trace|done..|].
      exists sw. split; [apply saw_kube_mono, saw_last|done]. }
    eapply swp_seq_keep; [apply loadFilerAdminSigningKey_swp, bucket_guard_reads|].
    intros [e|key] new2 _; [done|].
    eapply swp_seq_keep; [apply loadSeaweedGrpcDialOption_swp, bucket_guard_reads|].
    intros [e|d] new3 _; [done|]. sx. split; [done|]. intros [e|]; [done|].
    rewrite <-!app_assoc. set (new4 := new2 ++ _). clearbody new4.
    set (o' := setCond o _ _ _ _). assert (Hsame' : same b o') by done.
    assert (Hname' : bst_BucketName (b_Status o') = bst_BucketName (b_Status b)) by done.
    clearbody o'. destruct (Hsame') as (Hm & Hsp & _).
    assert (live (b_Meta o') = live (b_Meta b)) as -> by by rewrite Hm.
    assert (hasFinalizer o' BucketFinalizer = hasFinalizer b BucketFinalizer) as ->.
    { unfold hasFinalizer; simpl. by rewrite Hm. }
    destruct (live (b_Meta b)) eqn:Hl; cbn [negb]; [|by apply (handleDeletion_swp req b)].
    destruct (hasFinalizer b _) eqn:Hfin; cbn [negb].
    + apply (reconcileBucket_swp req b); [|done..]. split_and!; [apply Hman|done..|].
      unfold tr2. by do 2 apply granted_mono; apply Hadm.
    + sx. split; [|by intros [e|]]. exists b. split; [apply (Hman new4 key d.1)|].
      split; [done|]. left. split; [done|]. simpl. by rewrite Hm.
Qed.

(** ** What a pass achieves *)
(** The filer behind bucket_admin.go: a call acts on the buckets as documented or
    fails, and a call that fails may leave the bucket it names in any state (a
    quota is set in two commands).  API objects come from a snapshot; a patch is
    answered with the spec it was sent. *)
Definition bucket_of {X} (e : bucketE X) : option string :=
  match e with
  | BucketExists n | CreateBucket n _ _ | DeleteBucket n | SetVersioning n _
  | EnableObjectLock n | SetQuota n _ _ | RemoveQuota n | SetOwner n _ | RemoveOwner n
  | SetAccess n _ _ | GetBucketLifecycle n | SetBucketLifecycle n _
  | ClearLegacyBucketTTLs n => Some n
  | Configure _ _ | ListCollectionStats => None
  end.
Definition only_bucket (n : string) (s s' : Sim) : Prop :=
  s' = set_buckets (sim_buckets s') s /\
  forall m, m <> n -> sim_buckets s' !! m = sim_buckets s !! m.

Definition bucket_fails {X} (e : bucketE X) (s s' : Sim) : X -> Prop :=
  match e in bucketE X return X -> Prop with
  | BucketExists _ => fun r => s' = s /\ exists err, r = Err err
  | GetBucketLifecycle _ => fun r => s' = s /\ exists err, r = Err err
  | ListCollectionStats => fun r => s' = s /\ exists err, r = Err err
  | CreateBucket n _ _ => fun r => only_bucket n s s' /\ exists err, r = Some err /\
      (err = ErrBucketAlreadyExists -> s' = s /\ is_Some (sim_buckets s !! n))
  | DeleteBucket n => fun r => only_bucket n s s' /\ exists err, r = Some err /\
      (err = ErrBucketNotFound -> sim_buckets s' !! n = None)
  | SetBucketLifecycle n _ => fun r => only_bucket n s s' /\ exists err, r = Some err /\
      (err = ErrBucketNotFound -> sim_buckets s' !! n = None)
  | SetVersioning n _ | EnableObjectLock n | SetQuota n _ _ | RemoveQuota n | SetOwner n _
  | RemoveOwner n | SetAccess n _ _ | ClearLegacyBucketTTLs n =>
      fun r => only_bucket n s s' /\ exists err, r = Some err
  | Configure _ _ => fun r => s' = s /\ exists err, r = Some err
  end.

Definition bucket_kube (objs : forall k, NamespacedName -> option (Obj k)) {X} (e : kubeE X)
    : X -> Prop :=
  match e in kubeE X return X -> Prop with
  | KGet k key => fun r => match r with
      | inr o => objs k key = Some o
      | inl e => IsNotFound e = true -> objs k key = None
      end
  | KPatch KBucket base o => fun r => match r with inr o' => b_Spec o' = b_Spec o | inl _ => True end
  | _ => fun _ => True
  end.

Definition bucket_env (objs : forall k, NamespacedName -> option (Obj k)) : Env opE Sim :=
  fun X e s x s' =>
  match e in opE X return X -> Prop with
  | OBucket _ _ e' => fun x => (s', x) = sim_bucket e' s \/ bucket_fails e' s s' x
  | OKube e' => fun x => s' = s /\ bucket_kube objs e' x
  | _ => fun _ => s' = s
  end x.

(** Programs without admin calls leave the filer alone. *)
Definition no_admin : Guard := fun _ _ e => match e with OBucket _ _ _ => False | _ => True end.
Lemma no_admin_wp objs {A} (p : op A) (Q : A -> Prop) tr s :
  swp no_admin p (fun a _ => Q a) tr -> wp (bucket_env objs) p (fun a s1 => s1 = s /\ Q a) s.
Proof.
  revert tr s; induction p as [a|X e k IH]; intros tr s; simpl; [done|].
  intros [Hq Hk] x s1 Hx. assert (s1 = s) as ->.
  { destruct e; simpl in Hx; try done. by destruct Hx. }
  by eapply IH.
Qed.
Lemma no_admin_seq objs {A B} (p : op A) (f : A -> op B) (R : A -> Prop) Q s :
  swp no_admin p (fun a _ => R a) [] ->
  (forall a, R a -> wp (bucket_env objs) (f a) Q s) ->
  wp (bucket_env objs) (bind p f) Q s.
Proof.
  intros Hp Hf. eapply wp_seq; [eapply no_admin_wp, Hp|]. intros a s1 [-> HR]. by apply Hf.
Qed.

Lemma only_bucket_refl n s : only_bucket n s s.
Proof. split; [by destruct s|done]. Qed.
Lemma only_bucket_trans n s1 s2 s3 : only_bucket n s1 s2 -> only_bucket n s2 s3 -> only_bucket n s1 s3.
Proof.
  intros [H1' H2] [H3 H4]. split.
  - rewrite H3, H1'. by destruct s1.
  - intros m Hm. by rewrite H4, H2.
Qed.
Lemma only_bucket_insert n x s : only_bucket n s (set_buckets (<[n := x]> (sim_buckets s)) s).
Proof. split; [done|]. intros m Hm. simpl. by rewrite lookup_insert_ne. Qed.
Lemma only_bucket_delete n s : only_bucket n s (set_buckets (delete n (sim_buckets s)) s).
Proof. split; [done|]. intros m Hm. simpl. by rewrite lookup_delete_ne. Qed.
#[local] Hint Resolve only_bucket_refl only_bucket_insert only_bucket_delete : bucket.

(** *** The bucket a spec asks for *)
Definition with_lock (l : bool) (x : SimBucket) : SimBucket :=
  mk_bucket (sb_Owner x) l (sb_Versioning x) (sb_Quota x) (sb_Access x) (sb_Lifecycle x).
Definition with_versioning (v : string) (x : SimBucket) : SimBucket :=
  mk_bucket (sb_Owner x) (sb_ObjectLock x) v (sb_Quota x) (sb_Access x) (sb_Lifecycle x).
Definition with_quota (q : option (Z * bool)) (x : SimBucket) : SimBucket :=
  mk_bucket (sb_Owner x) (sb_ObjectLock x) (sb_Versioning x) q (sb_Access x) (sb_Lifecycle x).
Definition with_owner (o : string) (x : SimBucket) : SimBucket :=
  mk_bucket o (sb_ObjectLock x) (sb_Versioning x) (sb_Quota x) (sb_Access x) (sb_Lifecycle x).
Definition with_access (a : gmap string string) (x : SimBucket) : SimBucket :=
  mk_bucket (sb_Owner x) (sb_ObjectLock x) (sb_Versioning x) (sb_Quota x) a (sb_Lifecycle x).

Definition wanted_lock (b : Bucket) (x : SimBucket) : SimBucket :=
  if bspec_ObjectLock (b_Spec b) && negb (bst_ObjectLockEnabled (b_Status b))
  then with_lock true x else x.
Definition wanted_versioning (b : Bucket) (x : SimBucket) : SimBucket :=
  if bool_decide (bspec_Versioning (b_Spec b) = "") ||
     bool_decide (bspec_Versioning (b_Spec b) = VersioningOff)
  then x else with_versioning (bspec_Versioning (b_Spec b)) x.
Definition wanted_quota (b : Bucket) (x : SimBucket) : SimBucket :=
  match bspec_Quota (b_Spec b) with
  | Some q =>
      with_quota (match quantityToMiB (quota_Size q) with
                  | inr mib => if (mib <=? 0)%Z then None else Some (mib, quota_Enforce q)
                  | inl _ => None end) x
  | None => match bst_Quota (b_Status b) with Some _ => with_quota None x | None => x end
  end.
Definition wanted_owner (b : Bucket) (x : SimBucket) : SimBucket :=
  if bool_decide (bspec_Owner (b_Spec b) = bst_OwnerIdentity (b_Status b)) then x
  else with_owner (bspec_Owner (b_Spec b)) x.
(** The grants of the spec replace those recorded by the annotation; grants of
    other users stay. *)
Definition wanted_access (b : Bucket) (old new : gmap string string) : Prop :=
  forall u, new !! u =
    match desiredAccess b !! u with
    | Some a => if bool_decide (a = "none") then None else Some a
    | None => if bool_decide (u ∈ readAppliedAccessAnnotation b) then None else old !! u
    end.

(** The bucket at the start of the changes: the one that was there, or a fresh
    one with the owner and lock of the spec. *)
Definition starting (b : Bucket) (old : option SimBucket) : SimBucket :=
  default (mk_bucket (bspec_Owner (b_Spec b)) (bspec_ObjectLock (b_Spec b)) "" None ∅ "") old.

(** The quota of the spec is a size. *)
Definition sized (b : Bucket) : Prop :=
  match bspec_Quota (b_Spec b) with Some q => exists mib, quantityToMiB (quota_Size q) = inr mib | None => True end.
Definition reconciled (b : Bucket) (s s' : Sim) : Prop :=
  let x := starting b (sim_buckets s !! resolvedBucketName b) in
  sized b /\ exists a, wanted_access b (sb_Access x) a /\
    sim_buckets s' !! resolvedBucketName b =
      Some (with_access a (wanted_owner b (wanted_quota b (wanted_versioning b
              (wanted_lock b x))))).

Section achieves.
Context (objs : forall k, NamespacedName -> option (Obj k)) (b : Bucket).
Context (ms : string) (t : filerTarget).
Context (Hresync : ResyncInterval <> requeueAfterTransient).
#[local] Set Default Proof Using "Type Hresync".
Abbreviation env := (bucket_env objs).
Abbreviation n := (resolvedBucketName b).
Abbreviation ready := (Done (requeueIn ResyncInterval) None).

(** The program's copy agrees with the resource on all it reads of it. *)
Definition alike (o : Bucket) : Prop :=
  b_Spec o = b_Spec b /\ b_Meta o = b_Meta b /\
  bst_BucketName (b_Status o) = bst_BucketName (b_Status b) /\
  bst_ObjectLockEnabled (b_Status o) = bst_ObjectLockEnabled (b_Status b) /\
  bst_Quota (b_Status o) = bst_Quota (b_Status b) /\
  bst_OwnerIdentity (b_Status o) = bst_OwnerIdentity (b_Status b).
(** The same but for the recorded name. *)
Definition alike' (o : Bucket) : Prop :=
  b_Spec o = b_Spec b /\ b_Meta o = b_Meta b /\
  bst_ObjectLockEnabled (b_Status o) = bst_ObjectLockEnabled (b_Status b) /\
  bst_Quota (b_Status o) = bst_Quota (b_Status b) /\
  bst_OwnerIdentity (b_Status o) = bst_OwnerIdentity (b_Status b).

Lemma failPhase_quiet o ph reason message :
  swp no_admin (failPhase o ph reason message) (fun r _ => r <> ready) [].
Proof. unfold failPhase. sx. split; [done|]. intros [e|]; sx; intros Heq; [done|]. injection Heq. congruence. Qed.

Lemma stop_wp {A} o reason message (Q : outcome + A -> Sim -> Prop) s :
  (forall r, r <> ready -> Q (inl r) s) -> wp env (stop o reason message) Q s.
Proof. intros HQ. unfold stop. eapply no_admin_seq; [apply failPhase_quiet|]. intros r Hr. by apply HQ. Qed.

(** A setter of bucket_admin.go: on success the bucket [n] is [f] of what it was. *)
Definition setter (e : bucketE (option error)) (f : SimBucket -> SimBucket) : Prop :=
  (forall s x, sim_buckets s !! n = Some x ->
     sim_bucket e s = (set_buckets (<[n := f x]> (sim_buckets s)) s, None)) /\
  (forall s s' r, bucket_fails e s s' r -> only_bucket n s s' /\ exists err, r = Some err).

Lemma setter_call {A} (e : bucketE (option error)) f (k : option error -> op A) Q s x :
  setter e f -> sim_buckets s !! n = Some x ->
  (forall s' err, only_bucket n s s' -> wp env (k (Some err)) Q s') ->
  wp env (k None) Q (set_buckets (<[n := f x]> (sim_buckets s)) s) ->
  wp env (bind (bkt ms t e) k) Q s.
Proof.
  intros [Hs Hf] Hx Hfail Hok. wx. intros r s' [Hr|Hr].
  - rewrite (Hs _ x Hx) in Hr. by simplify_eq.
  - apply Hf in Hr as [Ho [err ->]]. by apply Hfail.
Qed.
Lemma setter_lock : setter (EnableObjectLock n) (with_lock true).
Proof. split; [|done]. intros s x Hx. simpl. unfold with_bucket. by rewrite Hx. Qed.
Lemma setter_versioning v : setter (SetVersioning n v) (with_versioning v).
Proof. split; [|done]. intros s x Hx. simpl. unfold with_bucket. by rewrite Hx. Qed.
Lemma setter_quota mib en : setter (SetQuota n mib en) (with_quota (Some (mib, en))).
Proof. split; [|done]. intros s x Hx. simpl. unfold with_bucket. by rewrite Hx. Qed.
Lemma setter_no_quota : setter (RemoveQuota n) (with_quota None).
Proof. split; [|done]. intros s x Hx. simpl. unfold with_bucket. by rewrite Hx. Qed.
Lemma setter_owner w : setter (SetOwner n w) (with_owner w).
Proof. split; [|done]. intros s x Hx. simpl. unfold with_bucket. by rewrite Hx. Qed.
Lemma setter_no_owner : setter (RemoveOwner n) (with_owner "").
Proof. split; [|done]. intros s x Hx. simpl. unfold with_bucket. by rewrite Hx. Qed.
Definition granting_to (u a : string) (m : gmap string string) : gmap string string :=
  if bool_decide (a = "none") then delete u m else <[u := a]> m.
Lemma setter_access u a : setter (SetAccess n u a) (fun x => with_access (granting_to u a (sb_Access x)) x).
Proof. split; [|done]. intros s x Hx. simpl. unfold with_bucket. by rewrite Hx. Qed.

(** What a segment achieves: the bucket [n], if it started as [x], is [f x]. *)
Definition does (s : Sim) (y : SimBucket) : outcome + () -> Sim -> Prop := fun r s' =>
  only_bucket n s s' /\
  match r with inl out => out <> ready | inr _ => sim_buckets s' !! n = Some y end.
Definition does_obj (P : Bucket -> Prop) (s : Sim) (y : SimBucket) : outcome + Bucket -> Sim -> Prop :=
  fun r s' => only_bucket n s s' /\
    match r with inl out => out <> ready | inr o => P o /\ sim_buckets s' !! n = Some y end.

Lemma setter_does o (e : bucketE (option error)) f (reason message : error -> string) s x :
  setter e f -> sim_buckets s !! n = Some x ->
  wp env (check bkt ms t e catch err => stop o (reason err) (message err); Ret (inr tt))
    (does s (f x)) s.
Proof.
  intros He Hx. eapply setter_call; [done|done| |].
  - intros s' err Ho. apply stop_wp. by split.
  - split; [apply only_bucket_insert|]. simpl. by rewrite lookup_insert_eq.
Qed.
Lemma nothing_does s x : sim_buckets s !! n = Some x -> wp env (Ret (inr tt)) (does s x) s.
Proof. intros Hx. by split; [apply only_bucket_refl|]. Qed.

Lemma ensureObjectLock_wp o s x :
  alike' o -> sim_buckets s !! n = Some x ->
  wp env (ensureObjectLock ms t o n) (does_obj alike' s (wanted_lock b x)) s.
Proof.
  intros Ha Hx. pose proof Ha as (Hsp & _ & Hl & _). unfold ensureObjectLock, bind_seg.
  apply (wp_seq _ _ _ (does s (wanted_lock b x))).
  - unfold wanted_lock. rewrite Hsp, Hl. destruct (_ && _);
      [by apply (setter_does o _ _ (fun _ => "ObjectLockFailed") error_string s x setter_lock)|
       by apply nothing_does].
  - intros [out|[]] s' [Ho Hr]; by split.
Qed.

Lemma ensureVersioning_wp o s x :
  alike' o -> sim_buckets s !! n = Some x ->
  wp env (ensureVersioning ms t o n) (does s (wanted_versioning b x)) s.
Proof.
  intros Ha Hx. pose proof Ha as (Hsp & _). unfold ensureVersioning, wanted_versioning.
  rewrite Hsp. rewrite <-negb_orb. destruct (_ || _); cbn [negb]; [by apply nothing_does|].
  eapply setter_call; [apply setter_versioning|done| |].
  - intros s' err Ho. by destruct (errors_Is _ _); apply stop_wp.
  - split; [apply only_bucket_insert|]. simpl. by rewrite lookup_insert_eq.
Qed.

Lemma ensureQuota_wp o s x :
  alike' o -> sim_buckets s !! n = Some x ->
  wp env (ensureQuota ms t o n) (does_obj (fun o => alike' o /\ sized b) s (wanted_quota b x)) s.
Proof.
  intros Ha Hx. pose proof Ha as (Hsp & _ & _ & Hq & _). unfold ensureQuota, wanted_quota, sized.
  rewrite Hsp, Hq. destruct (bspec_Quota (b_Spec b)) as [q|].
  - destruct (quantityToMiB (quota_Size q)) as [err|mib] eqn:Hmib.
    { apply stop_wp. intros r Hr. by split; [apply only_bucket_refl|]. }
    unfold bind_seg. apply (wp_seq _ _ _ (does s (with_quota
      (if (mib <=? 0)%Z then None else Some (mib, quota_Enforce q)) x))).
    + destruct (mib <=? 0)%Z;
        [by apply (setter_does o _ _ (fun _ => "QuotaRemoveFailed") error_string s x setter_no_quota)|
         by apply (setter_does o _ _ (fun _ => "QuotaFailed") error_string s x (setter_quota _ _))].
    + intros [out|[]] s' [Ho Hr]; [by split|]. split; [done|]. split; [|done]. split; [done|by exists mib].
  - destruct (bst_Quota (b_Status b)); [|by split; [apply only_bucket_refl|]].
    eapply setter_call; [apply setter_no_quota|done| |].
    + intros s' err Ho. by apply stop_wp.
    + split; [apply only_bucket_insert|]. split; [done|]. simpl. by rewrite lookup_insert_eq.
Qed.

Lemma ensureOwner_wp o s x :
  alike' o -> sim_buckets s !! n = Some x ->
  wp env (ensureOwner ms t o n) (does s (wanted_owner b x)) s.
Proof.
  intros Ha Hx. pose proof Ha as (Hsp & _ & _ & _ & Hw). unfold ensureOwner, wanted_owner.
  rewrite Hsp, Hw. case_bool_decide as Ho; cbn [negb].
  - rewrite Ho. case_bool_decide as Hc; cbn [negb].
    + rewrite Hc, bool_decide_true by done. by apply nothing_does.
    + rewrite bool_decide_false by congruence.
      by apply (setter_does o _ _ (fun _ => "OwnerFailed") error_string s x setter_no_owner).
  - rewrite (bool_decide_ext (bspec_Owner (b_Spec b) = bst_OwnerIdentity (b_Status b))
      (bst_OwnerIdentity (b_Status b) = bspec_Owner (b_Spec b))) by done.
    case_bool_decide as Hc; cbn [negb]; [by apply nothing_does|].
    by apply (setter_does o _ _ (fun _ => "OwnerFailed") error_string s x (setter_owner _)).
Qed.
(** *** The access grants *)
Definition grant_all (l : list (string * string)) (m : gmap string string) : gmap string string :=
  foldl (fun m g => granting_to g.1 g.2 m) m l.

Lemma granting_to_same u a m :
  granting_to u a m !! u = if bool_decide (a = "none") then None else Some a.
Proof.
  unfold granting_to. case_bool_decide; [by rewrite lookup_delete_eq|by rewrite lookup_insert_eq].
Qed.
Lemma granting_to_other u v a m : u <> v -> granting_to u a m !! v = m !! v.
Proof.
  intros Hne. unfold granting_to.
  case_bool_decide; [by rewrite lookup_delete_ne|by rewrite lookup_insert_ne].
Qed.

Lemma grant_all_absent l m u : (forall a, (u, a) ∉ l) -> grant_all l m !! u = m !! u.
Proof.
  revert m; induction l as [|[v a] l IH]; intros m Hl; [done|]. simpl. rewrite IH.
  - apply granting_to_other. intros ->. apply (Hl a). left.
  - intros a' Hin. apply (Hl a'). by right.
Qed.
Lemma grant_all_present l m u a :
  (forall a', (u, a') ∈ l -> a' = a) ->
  (u, a) ∈ l \/ m !! u = (if bool_decide (a = "none") then None else Some a) ->
  grant_all l m !! u = if bool_decide (a = "none") then None else Some a.
Proof.
  revert m; induction l as [|[v c] l IH]; intros m Hfun Hor; simpl.
  - destruct Hor as [Hin|?]; [by apply not_elem_of_nil in Hin|done].
  - apply IH; [intros a' Hin; apply Hfun; by right|].
    destruct (decide (v = u)) as [->|Hne].
    + right. assert (c = a) as -> by (apply Hfun; left). apply granting_to_same.
    + rewrite granting_to_other by done. destruct Hor as [Hin|?]; [|by right].
      apply elem_of_cons in Hin as [?|?]; [congruence|by left].
Qed.

(** Granting what is desired and then revoking the rest. *)
Lemma grant_all_wanted o old :
  alike' o -> wanted_access b old (grant_all (revoked o) (grant_all (map_range (desiredAccess o)) old)).
Proof.
  intros (Hsp & Hm & _).
  assert (desiredAccess o = desiredAccess b) as Hd by (unfold desiredAccess; by rewrite Hsp).
  assert (readAppliedAccessAnnotation o = readAppliedAccessAnnotation b) as Hp
    by (unfold readAppliedAccessAnnotation; by rewrite Hm).
  intros u. rewrite Hd. destruct (desiredAccess b !! u) as [a|] eqn:Hu.
  - rewrite grant_all_absent.
    + apply grant_all_present; [|left; by apply elem_of_desired].
      intros a' Hin%elem_of_desired. congruence.
    + intros a' (Hn & _)%elem_of_revoked. congruence.
  - case_bool_decide as Hin.
    + rewrite (grant_all_present _ _ _ "none"); [done| |].
      * by intros a' (_ & _ & ->)%elem_of_revoked.
      * left. apply elem_of_revoked. by rewrite Hd, Hp.
    + rewrite !grant_all_absent; [done| |].
      * intros a Ha%elem_of_desired. congruence.
      * intros a (_ & Hr & _)%elem_of_revoked. by rewrite Hp in Hr.
Qed.

Lemma access_loop_wp o (reason : string) (message : string -> error -> string) l s x :
  sim_buckets s !! n = Some x ->
  wp env (for_until l (fun '(user, actions) =>
      check bkt ms t (SetAccess n user actions)
      catch err => (do r <- failPhase o BucketPhaseFailed reason (message user err); Ret (Some r));
      Ret None))
    (fun r s' => only_bucket n s s' /\
       match r with
       | Some out => out <> ready
       | None => sim_buckets s' !! n = Some (with_access (grant_all l (sb_Access x)) x)
       end) s.
Proof.
  revert s x; induction l as [|[u a] l IH]; intros s x Hx.
  - split; [apply only_bucket_refl|]. rewrite Hx. by destruct x.
  - cbn [for_until]. apply wp_bind. eapply setter_call; [apply setter_access|done| |].
    + intros s' err Ho. eapply no_admin_seq; [apply failPhase_quiet|]. intros r Hr. by split.
    + cbn [wp]. eapply wp_mono; [|eapply IH; simpl; by rewrite lookup_insert_eq].
      intros r s' [Ho Hr]. split; [by eapply only_bucket_trans; [apply only_bucket_insert|]|done].
Qed.

Lemma ensureAccess_wp o s x :
  alike' o -> sim_buckets s !! n = Some x ->
  wp env (ensureAccess ms t o n)
    (fun r s' => only_bucket n s s' /\
       match r with
       | inl out => out <> ready
       | inr o' => b_Spec o' = b_Spec b /\ exists a, wanted_access b (sb_Access x) a /\
           sim_buckets s' !! n = Some (with_access a x)
       end) s.
Proof.
  intros Ha Hx. unfold ensureAccess.
  rewrite (revoke_loop (fun user a => check bkt ms t (SetAccess n user a)
    catch err => (do o <- failPhase o BucketPhaseFailed "AccessRevokeFailed"
                    ("revoke access for user " +:+ fmt_q user +:+ ": " +:+ error_string err);
                  Ret (Some o));
    Ret None)). fold (revoked o).
  eapply wp_seq; [apply (access_loop_wp o "AccessFailed" (fun user err =>
    "set access for user " +:+ fmt_q user +:+ ": " +:+ error_string err)); exact Hx|].
  intros [out|] s1 [Ho1 Hr1]; [by split|].
  eapply wp_seq; [apply (access_loop_wp o "AccessRevokeFailed" (fun user err =>
    "revoke access for user " +:+ fmt_q user +:+ ": " +:+ error_string err)); exact Hr1|].
  intros [out|] s2 [Ho2 Hr2].
  { split; [by eapply only_bucket_trans|done]. }
  assert (Hend : forall o', b_Spec o' = b_Spec b ->
    only_bucket n s s2 /\ b_Spec o' = b_Spec b /\ exists a, wanted_access b (sb_Access x) a /\
      sim_buckets s2 !! n = Some (with_access a x)).
  { intros o' Hsp. split; [by eapply only_bucket_trans|]. split; [done|].
    eexists. split; [by apply (grant_all_wanted o)|]. by rewrite Hr2. }
  unfold writeAppliedAccessAnnotation. case_bool_decide; wx; [apply Hend, Ha|].
  intros [err|o'] s3 [-> Hk]; wx; [split; [by eapply only_bucket_trans|done]|].
  apply Hend. simpl in Hk. rewrite Hk. apply Ha.
Qed.
(** *** The whole pass *)
Lemma adoptBucket_wp o s (Q : Bucket -> Sim -> Prop) :
  Q (claimName n o) s -> wp env (adoptBucket o n) Q s.
Proof.
  intros HQ. unfold adoptBucket, recordEvent. destruct Recorder; cbn [negb]; [|done].
  by intros [] s1 ->.
Qed.

Lemma ensureBucket_wp o s :
  alike o ->
  wp env (ensureBucket ms t o n) (does_obj alike' s (starting b (sim_buckets s !! n))) s.
Proof.
  intros (Hsp & Hm & Hname & Hl & Hq & Hw).
  assert (Ha : alike' o) by done. assert (Hc : alike' (claimName n o)) by done.
  unfold ensureBucket, bind_seg. wx. intros r s1 [Hr|Hr].
  2: { destruct Hr as [-> [err ->]]. wx. apply stop_wp. intros. split; [apply only_bucket_refl|done]. }
  cbn [sim_bucket] in Hr. simplify_eq; wx.
  destruct (sim_buckets s !! n) as [x|] eqn:Hx; cbn [is_Some].
  - rewrite bool_decide_true by by exists x. cbn [andb].
    apply (wp_seq _ _ _ (does_obj alike' s (starting b (Some x)))).
    + case_bool_decide as Hrec; [|by split; [apply only_bucket_refl|]].
      destruct (bspec_AdoptExisting (b_Spec o)); cbn [negb].
      * apply wp_bind, adoptBucket_wp. by split; [apply only_bucket_refl|].
      * apply stop_wp. intros. split; [apply only_bucket_refl|done].
    + intros [out|o'] s' [Ho Hr]; by split.
  - rewrite bool_decide_false by by intros [? ?]. cbn [andb]. wx.
    intros r s1 [Hr|(Ho & err & -> & He)].
    + cbn [sim_bucket] in Hr. rewrite Hx in Hr. simplify_eq. wx.
      split; [apply only_bucket_insert|]. split; [done|]. simpl. rewrite lookup_insert_eq. by rewrite Hsp.
    + wx. destruct (errors_Is err ErrBucketAlreadyExists) eqn:Hex.
      { apply bool_decide_eq_true in Hex as ->. destruct (He eq_refl) as [_ [? ?]]. congruence. }
      apply stop_wp. intros. by split.
Qed.

Lemma ensurePlacement_wp o s :
  wp env (ensurePlacement ms t o n)
    (fun r s' => s' = s /\ match r with inl out => out <> ready | inr _ => True end) s.
Proof.
  unfold ensurePlacement. destruct (0 <? _); [|done]. wx. intros r s1 [Hr|[-> [err ->]]].
  - cbn [sim_bucket] in Hr. by simplify_eq.
  - wx. by apply stop_wp.
Qed.

Lemma wanted_keeps_access x :
  sb_Access (wanted_owner b (wanted_quota b (wanted_versioning b (wanted_lock b x)))) = sb_Access x.
Proof.
  unfold wanted_owner, wanted_quota, wanted_versioning, wanted_lock. repeat case_match; done.
Qed.

Lemma reconcileBucket_wp o s :
  alike o ->
  wp env (reconcileBucket ms t o n)
    (fun r s' => only_bucket n s s' /\ (r = ready -> reconciled b s s')) s.
Proof.
  intros Ha. unfold reconcileBucket.
  eapply (wp_seq _ _ _ (fun r s' => only_bucket n s s' /\
    match r with inl out => out <> ready | inr _ => reconciled b s s' end)).
  - unfold bind_seg.
    eapply wp_seq; [by apply ensureBucket_wp|]. intros [x|o1] s1 [Ho1 Hr1]; [by split|].
    destruct Hr1 as [Ha1 Hx1].
    eapply wp_seq; [by eapply ensureObjectLock_wp|]. intros [x|o2] s2 [Ho2 Hr2];
      (assert (O2 : only_bucket n s s2) by (by eapply only_bucket_trans)); [by split|].
    destruct Hr2 as [Ha2 Hx2].
    eapply wp_seq; [by eapply ensureVersioning_wp|]. intros [x|[]] s3 [Ho3 Hx3];
      (assert (O3 : only_bucket n s s3) by (by eapply only_bucket_trans)); [by split|].
    eapply wp_seq; [by eapply ensureQuota_wp|]. intros [x|o4] s4 [Ho4 Hr4];
      (assert (O4 : only_bucket n s s4) by (by eapply only_bucket_trans)); [by split|].
    destruct Hr4 as [[Ha4 Hsized] Hx4].
    eapply wp_seq; [by eapply ensureOwner_wp|]. intros [x|[]] s5 [Ho5 Hx5];
      (assert (O5 : only_bucket n s s5) by (by eapply only_bucket_trans)); [by split|].
    eapply wp_seq; [by eapply ensureAccess_wp|]. intros [x|o6] s6 [Ho6 Hr6];
      (assert (O6 : only_bucket n s s6) by (by eapply only_bucket_trans)); [by split|].
    destruct Hr6 as (_ & a & Hw & Hx6). rewrite wanted_keeps_access in Hw.
    eapply wp_seq; [apply ensurePlacement_wp|]. intros [x|[]] s7 [-> Hr7]; [by split|].
    split; [done|]. split; [done|]. by exists a.
  - intros [out|o'] s' [Ho Hr]; [by split|]. destruct (negb _); wx; [|by split].
    by intros [e|] s1 [-> _]; wx.
Qed.

Lemma handleDeletion_wp (H0r : ResyncInterval <> 0%Z) o s :
  wp env (handleDeletion ms t o n) (fun r s' => only_bucket n s s' /\ r <> ready) s.
Proof using Hresync.
  assert (Hn0 : Done noResult None <> ready) by (intros [= He]; congruence).
  assert (Hn1 : Done (requeueIn requeueAfterTransient) None <> ready) by (intros [= He]; congruence).
  unfold handleDeletion. destruct (hasFinalizer _ _); cbn [negb]; [|by split; [apply only_bucket_refl|]].
  eapply (wp_seq _ _ _ (fun r s' => only_bucket n s s' /\
    match r with Some out => out <> ready | None => True end)).
  - destruct (_ && _); wx; [|by split; [apply only_bucket_refl|]].
    intros r s1 Hr. assert (only_bucket n s s1) as Ho.
    { destruct Hr as [Hr|[? _]]; [|done]. cbn [sim_bucket] in Hr.
      destruct (sim_buckets s !! n); simplify_eq; [apply only_bucket_delete|apply only_bucket_refl]. }
    destruct r as [err|]; wx; [|by split].
    repeat case_match; wx; [by split|by intros x s2 [-> _]..].
  - intros [out|] s' [Ho Hr]; [by split|]. wx. by intros [e|] s1 [-> _]; wx.
Qed.
End achieves.


Lemma admission_quiet b :
  ResyncInterval <> requeueAfterTransient ->
  swp no_admin (admission b)
    (fun r _ => match r with
                | inl out => out <> Done (requeueIn ResyncInterval) None
                | inr o => alike b o
                end) [].
Proof.
  intros Hr. unfold admission. destruct (live _); [|by sx].
  eapply swp_seq; [apply seaweedRefPermitted_swp; done|].
  intros [e|[]] tr _; sx; [done|done|]. split; [done|]. intros [e|]; sx; [done|].
  intros [= He]. congruence.
Qed.

Lemma bucket_Reconcile_wp objs req b s :
  ResyncInterval <> requeueAfterTransient -> ResyncInterval <> 0%Z ->
  objs KBucket req = Some b ->
  wp (bucket_env objs) (Reconcile req)
    (fun r s' => only_bucket (resolvedBucketName b) s s' /\
       (r = Done (requeueIn ResyncInterval) None -> live (b_Meta b) = true /\ reconciled b s s')) s.
Proof.
  intros Hres Hres0 Hget.
  assert (Hn0 : Done noResult None <> Done (requeueIn ResyncInterval) None) by (intros [= He]; congruence).
  assert (Hn1 : Done (requeueIn requeueAfterTransient) None <> Done (requeueIn ResyncInterval) None)
    by (intros [= He]; congruence).
  assert (Hkeep : forall r : outcome, r <> Done (requeueIn ResyncInterval) None ->
    only_bucket (resolvedBucketName b) s s /\
    (r = Done (requeueIn ResyncInterval) None -> live (b_Meta b) = true /\ reconciled b s s)).
  { intros r Hr. split; [apply only_bucket_refl|done]. }
  unfold Reconcile. wx. intros [e|o] s1 [-> Ho]; wx.
  { apply Hkeep. unfold IgnoreNotFound. by destruct (IsNotFound e). }
  simpl in Ho. rewrite Hget in Ho. injection Ho as <-. destruct (_ && _).
  { eapply wp_mono; [|eapply no_admin_wp, failPhase_quiet, Hres]. intros r s' [-> Hr]. by apply Hkeep. }
  eapply no_admin_seq; [by apply admission_quiet|]. intros [r|o] Ha; wx; [by apply Hkeep|].
  intros [e|sw] s1 [-> _]; wx.
  { destruct (IsNotFound e); wx; [|by apply Hkeep]. intros x s1 [-> _]. wx. by apply Hkeep. }
  destruct (getMasterPeersString sw) as [ms|]; [|by apply Hkeep].
  eapply no_admin_seq; [by apply loadFilerAdminSigningKey_swp|]. intros [e|key] _; [by apply Hkeep|].
  eapply no_admin_seq; [by apply loadSeaweedGrpcDialOption_swp|]. intros [e|d] _; [by apply Hkeep|].
  wx. intros [e|] s1 ->; [by apply Hkeep|].
  set (o' := setCond o _ _ _ _). assert (Ha' : alike b o') by done. clearbody o'.
  pose proof Ha' as (_ & Hm & _). rewrite Hm.
  destruct (live (b_Meta b)) eqn:Hl; cbn [negb].
  - destruct (hasFinalizer _ _); cbn [negb]; wx.
    + eapply wp_mono; [|by apply reconcileBucket_wp]. intros r s' [Ho Hr]. split; [done|]. auto.
    + intros [e|] s2 [-> _]; wx; by apply Hkeep.
  - eapply wp_mono; [|by apply handleDeletion_wp]. intros r s' [Ho Hr]. by split.
Qed.

(** C19. The Bucket controller touches a bucket only when it may.  Whatever the API
    server and the filer answer: a bucket is created, changed or its access set
    only for a live Bucket with its finalizer and a grant for the cluster, under
    the resource's own name at that cluster, and - except for the existence check
    and the creation of a bucket that was reported absent - only when the
    resource owns it: the status records the name, the pass created it, or the
    spec adopts existing buckets.  Each change is the one the spec asks for; a
    grant is revoked only from users the annotation records; the annotation is
    written only after every grant and revocation succeeded; a bucket is deleted
    only for a resource being deleted whose policy is Delete and whose status
    records this very bucket; the finalizer is dropped only when no deletion is
    due or it succeeded; and the status never claims a bucket the resource does
    not own. *)
Theorem bucket_reconcile_guarded req tr r :
  exec trace_env (Reconcile req) [] tr r -> guarded (bucket_guard req) tr.
Proof. intros Hx. by eapply swp_theorem in Hx as [? _]; [|apply bucket_Reconcile_swp]. Qed.

(** *** What the resource says, and what the bucket is *)
(** The status is true of the bucket that is there, if there is one: it names the owner,
    and records a lock only of a locked bucket and no quota only of one without. *)
Definition described (b : Bucket) (old : option SimBucket) : Prop :=
  match old with
  | Some x => sb_Owner x = bst_OwnerIdentity (b_Status b) /\
      (bst_ObjectLockEnabled (b_Status b) = true -> sb_ObjectLock x = true) /\
      (bst_Quota (b_Status b) = None -> sb_Quota x = None)
  | None => True
  end.
(** [x] is the bucket the spec asks for, given the one that was there. *)
Record as_specified (b : Bucket) (old : option SimBucket) (x : SimBucket) : Prop := {
  spec_owner : sb_Owner x = bspec_Owner (b_Spec b);
  spec_lock : bspec_ObjectLock (b_Spec b) = true -> sb_ObjectLock x = true;
  spec_versioning v : bspec_Versioning (b_Spec b) = v -> v <> "" -> v <> VersioningOff -> sb_Versioning x = v;
  spec_no_quota : bspec_Quota (b_Spec b) = None -> sb_Quota x = None;
  spec_quota q : bspec_Quota (b_Spec b) = Some q -> exists mib, quantityToMiB (quota_Size q) = inr mib /\
    sb_Quota x = if (mib <=? 0)%Z then None else Some (mib, quota_Enforce q);
  spec_access : wanted_access b (default ∅ (sb_Access <$> old)) (sb_Access x);
  spec_lifecycle : sb_Lifecycle x = default "" (sb_Lifecycle <$> old);
}.
Lemma reconciled_specified b s s' :
  let old := sim_buckets s !! resolvedBucketName b in
  described b old -> reconciled b s s' ->
  exists x, sim_buckets s' !! resolvedBucketName b = Some x /\ as_specified b old x.
Proof.
  intros old Hd (Hsized & a & Ha & Hx). eexists. split; [exact Hx|]. fold old in Ha |- *. clear Hx. clearbody old. revert Ha.
  unfold starting, described, sized, wanted_owner, wanted_quota, wanted_versioning, wanted_lock in *.
  intros Ha. split.
  - case_bool_decide as Ho; [|done]. destruct old as [x|]; cbn in *; [destruct Hd as [Hd _]|]; repeat case_match; cbn; congruence.
  - intros Hl. rewrite Hl. destruct (bst_ObjectLockEnabled (b_Status b)) eqn:He, old as [x|]; cbn [default andb negb];
      repeat case_match; cbn; try done; by apply Hd.
  - intros v -> Hv Ho. rewrite (bool_decide_false (v = "")), (bool_decide_false (v = VersioningOff)) by done. cbn [orb]. repeat case_match; done.
  - intros Hq. rewrite Hq. destruct (bst_Quota (b_Status b)) eqn:He, old as [x|]; repeat case_match; cbn; try done; by apply Hd.
  - intros q Hq. rewrite Hq in *. destruct Hsized as [mib Hmib]. exists mib. rewrite Hmib. split; [done|]. repeat case_match; done.
  - cbn [with_access sb_Access]. by destruct old.
  - destruct old; repeat case_match; done.
Qed.

End controller.

(** ** Quota sizes *)
Lemma quantityToMiB_wraps bytes :
  (MaxInt64 - 1048575 < bytes <= MaxInt64)%Z -> (Z.quot (int64 (int64 (bytes + 1048576) - 1)) 1048576 <= 0)%Z.
Proof.
  intros Hb. rewrite int64_sub.
  assert (Hi : int64 (bytes + 1048576 - 1) = (bytes + 1048575 - 2 ^ 64)%Z).
  { unfold int64, wrap, MaxInt64 in *.
    rewrite <-(Z.mod_unique_pos (bytes + 1048576 - 1 + 2 ^ (64 - 1)) (2 ^ 64) 1
                 (bytes + 1048575 - 2 ^ 63)); lia. }
  rewrite Hi. change 0%Z with (0 ÷ 1048576)%Z. apply Z.quot_le_mono; unfold MaxInt64 in *; lia.
Qed.

(** C21. [quantityToMiB] refuses exactly the negative sizes and those that are no int64.
    What it accepts it rounds up to whole MiB, never below the size, and zero stays zero -
    up to 1 MiB below the largest int64; above that the addition wraps around, and the
    result is no positive number of MiB, which the reconciler takes for "no quota". *)
Theorem quantityToMiB_rounds_up q :
  match quantityToMiB q with
  | inl _ => (q_Sign q < 0)%Z \/ q_AsInt64 q = None
  | inr mib => (0 <= q_Sign q)%Z /\ exists bytes, q_AsInt64 q = Some bytes /\
      ((0 <= bytes <= MaxInt64 - 1048575)%Z -> (bytes <= mib * 1048576 < bytes + 1048576)%Z) /\
      ((MaxInt64 - 1048575 < bytes <= MaxInt64)%Z -> (mib <= 0)%Z)
  end.
Proof.
  unfold quantityToMiB. destruct (q_Sign q <? 0)%Z eqn:Hs; [left; lia|].
  destruct (q_AsInt64 q) as [bytes|]; [|by right]. change (1024 * 1024)%Z with 1048576%Z.
  case_bool_decide as Hz; (split; [lia|]); exists bytes; (split; [done|]).
  { split; intros; [|unfold MaxInt64 in *]; lia. }
  split; [|apply quantityToMiB_wraps]. intros Hb.
  rewrite int64_sub, int64_small by (unfold MaxInt64 in *; lia).
  replace (bytes + 1048576 - 1)%Z with (bytes + 1048575)%Z by lia.
  rewrite Z.quot_div_nonneg by lia.
  pose proof (Z.div_mod (bytes + 1048575) 1048576).
  pose proof (Z.mod_pos_bound (bytes + 1048575) 1048576). lia.
Qed.

(** ** The annotation *)
(** A user name that survives the annotation: not empty, no comma, no space at
    either end. *)
Definition plain_user (u : string) : Prop :=
  u <> "" /\ TrimSpace u = u /\ has_char ","%char u = false.

#[export] Instance plain_user_dec u : Decision (plain_user u).
Proof. unfold plain_user. apply _. Defined.

Lemma read_joined l m :
  Forall plain_user l ->
  Annotations (b_Meta m) !! AnnotationAppliedAccess = Some (Join l ",") ->
  readAppliedAccessAnnotation m = l.
Proof.
  intros Hl Ha. unfold readAppliedAccessAnnotation. rewrite Ha. simpl.
  destruct l as [|u l]; [done|].
  rewrite bool_decide_false.
  - rewrite (Split_Join _ ","%char); [|done|eapply Forall_impl; [exact Hl|]; by intros ? (_ & _ & ?)].
    clear Ha. induction Hl as [|v vs (Hv & Ht & _) _ IH]; [done|]. simpl. rewrite Ht, bool_decide_false by done.
    f_equal. exact IH.
  - apply Forall_inv in Hl as (Hu & _). destruct l as [|v l]; [done|].
    intros He. by destruct u.
Qed.

(** The annotation is a faithful record: the users read back from what a pass
    writes are exactly the users of its grants, for user names without commas and
    without spaces at their ends. *)
Theorem applied_access_roundtrip (o : Bucket) (desired : gmap string string) :
  map_Forall (fun u _ => plain_user u) desired ->
  readAppliedAccessAnnotation
    (io_setMeta (annotate (Join (sort_strings (map fst (map_range desired))) ",") (b_Meta o)) o)
    ≡ₚ map fst (map_to_list desired).
Proof.
  intros Hd. set (l := sort_strings _).
  assert (Hl : l ≡ₚ map fst (map_to_list desired)).
  { unfold l, sort_strings. rewrite merge_sort_Permutation. apply fmap_Permutation, map_range_spec. }
  rewrite (read_joined l); [done| |simpl; by rewrite lookup_insert_eq].
  rewrite Hl. apply Forall_fmap, Forall_forall. intros [u a] Hu. simpl.
  apply elem_of_map_to_list in Hu. by eapply Hd.
Qed.

(** ** Sample runs *)
Definition sample_bucket (owner : string) (access : list BucketAccessGrant) (quota : option BucketQuota)
    : Bucket := {|
  b_Meta := {| Name := "data"; Namespace := "a"; Generation := 1; CreationTimestamp := 5%Z;
               DeletionTimestamp := None; Labels := ∅; Annotations := ∅;
               Finalizers := [BucketFinalizer]; OwnerReferences := []; UID := "" |};
  b_Spec := {| bspec_Name := ""; bspec_ClusterRef := {| ref_Name := "sw"; ref_Namespace := "" |};
               bspec_ReclaimPolicy := BucketReclaimDelete; bspec_AdoptExisting := false;
               bspec_Versioning := VersioningEnabled; bspec_ObjectLock := true;
               bspec_Quota := quota; bspec_Owner := owner; bspec_Access := access;
               bspec_Placement := None; bspec_AnonymousRead := true |};
  b_Status := {| bst_ObservedGeneration := 0; bst_Phase := ""; bst_Conditions := [];
                 bst_BucketName := ""; bst_Versioning := ""; bst_ObjectLockEnabled := false;
                 bst_Quota := None; bst_OwnerIdentity := ""; bst_Usage := None |} |}.
Definition sample_access : list BucketAccessGrant :=
  [{| acc_User := "alice"; acc_Actions := ["Write"; "Read"] |}].
Definition gib (k : Z) : Quantity :=
  {| q_Sign := 1; q_AsInt64 := Some (k * 2 ^ 30)%Z; q_String := ""; q_Nano := (k * 2 ^ 30 * 10 ^ 9)%Z |}.
Definition bucket_cluster (b : Bucket) : Sim :=
  set_objs KBucket [b] (set_objs KSeaweed [sample_sw "a"] sim_empty).
Definition bucket_req : NamespacedName := {| nn_Namespace := "a"; nn_Name := "data" |}.
Definition resyncIn : Z := (5 * Minute)%Z.

Lemma bucket_reconcile_guarded_witness :
  let b := sample_bucket "alice" sample_access (Some {| quota_Size := gib 1; quota_Enforce := true |}) in
  let x := run (tracing sim) (Reconcile true resyncIn bucket_req) (bucket_cluster b, []) in
  x.2 = Done (requeueIn resyncIn) None /\ length x.1.2 = 14 /\
  guarded (bucket_guard bucket_req) x.1.2.
Proof.
  intros b x. split; [by vm_compute|]. split; [by vm_compute|].
  apply (bucket_reconcile_guarded true resyncIn bucket_req x.1.2 x.2). exact (run_tracing sim (Reconcile true resyncIn bucket_req) (bucket_cluster b) []).
Defined.

(** The reference filer with the API objects held fixed. *)
Definition sim_bucket_only (objs : forall k, NamespacedName -> option (Obj k)) : Handler opE Sim :=
  fun X e s =>
  match e in opE X return Sim * X with
  | OBucket _ _ e' => sim_bucket e' s
  | OIam _ e' => (s, (sim_iam e' s).2)
  | e' => sim_iam_only objs _ e' s
  end.
Lemma sim_bucket_only_refines objs : refines (sim_bucket_only objs) (bucket_env objs).
Proof.
  intros X e s. destruct e as [X e|t|X t e|ms t|X ms t e|ms d|X ms d e|X e|ca cert key| |n| | | |ty r m];
    simpl; try done.
  - destruct e; simpl; try done; split; try done; [by destruct (objs k key) eqn:Ho|by destruct k].
  - left. by destruct (sim_bucket e s).
Qed.

Definition bucket_objs (b : Bucket) : forall k, NamespacedName -> option (Obj k) := fun k key =>
  List.find (fun o => bool_decide (obj_key o = key)) (sim_objs (bucket_cluster b) k).



Example largest_quota_wraps :
  quantityToMiB {| q_Sign := 1; q_AsInt64 := Some MaxInt64; q_String := "8Ei"; q_Nano := 0 |} = Ok (-8796093022207)%Z.
Proof. by vm_compute. Qed.

Lemma applied_access_roundtrip_witness :
  readAppliedAccessAnnotation
    (io_setMeta (annotate (Join (sort_strings (map fst (map_range
       (desiredAccess (sample_bucket "" sample_access None))))) ",")
       (b_Meta (sample_bucket "" sample_access None))) (sample_bucket "" sample_access None))
    ≡ₚ ["alice"; "anonymous"].
Proof.
  etrans; [apply (applied_access_roundtrip (sample_bucket "" sample_access None))|].
  - by apply (bool_decide_unpack _); vm_compute.
  - by apply (bool_decide_unpack _); vm_compute.
Defined.

(** ** Two passes that lose track of the bucket *)
(** The reference environment with the grants of one user failing. *)
Definition failing (user : string) : Handler opE Sim := fun X e s =>
  match e in opE X return Sim * X with
  | OBucket ms t e' =>
      match e' in bucketE X return Sim * X with
      | SetAccess n v a =>
          if bool_decide (v = user) then (s, Some (ErrOther "unavailable"))
          else sim_bucket (SetAccess n v a) s
      | e'' => sim_bucket e'' s
      end
  | e' => sim _ e' s
  end.

Definition respec (f : BucketSpec -> BucketSpec) (b : Bucket) : Bucket :=
  {| b_Meta := b_Meta b; b_Spec := f (b_Spec b); b_Status := b_Status b |}.
Definition spec_with (owner : string) (access : list BucketAccessGrant) (sp : BucketSpec)
    : BucketSpec := {|
  bspec_Name := bspec_Name sp; bspec_ClusterRef := bspec_ClusterRef sp;
  bspec_ReclaimPolicy := bspec_ReclaimPolicy sp; bspec_AdoptExisting := bspec_AdoptExisting sp;
  bspec_Versioning := bspec_Versioning sp; bspec_ObjectLock := bspec_ObjectLock sp;
  bspec_Quota := bspec_Quota sp; bspec_Owner := owner; bspec_Access := access;
  bspec_Placement := bspec_Placement sp; bspec_AnonymousRead := false |}.

(** The user edits the resource between two passes. *)
Definition edit (f : BucketSpec -> BucketSpec) (s : Sim) : Sim :=
  set_objs KBucket (map (respec f) (sim_objs s KBucket)) s.

Definition pass (h : Handler opE Sim) (s : Sim) : Sim * outcome :=
  run h (Reconcile true resyncIn bucket_req) s.
Definition granted_to (s : Sim) (user : string) : option string :=
  sim_buckets s !! "data" ≫= fun x => sb_Access x !! user.

(** A pass whose grant to one user fails after the grant to another records
    neither: when the grants are then removed from the spec, the next pass ends
    ready and the user that was granted access still has it, for no annotation
    says so. *)
Theorem access_failure_leaks :
  let b := respec (spec_with "" [ {| acc_User := "alice"; acc_Actions := ["Read"] |};
                                  {| acc_User := "bob"; acc_Actions := ["Read"] |} ])
             (sample_bucket "" [] None) in
  exists failed,
    let p1 := pass (failing failed) (bucket_cluster b) in
    let p2 := pass sim (edit (spec_with "" []) p1.1) in
    p1.2 = Done (requeueIn requeueAfterTransient) None /\
    p2.2 = Done (requeueIn resyncIn) None /\
    exists user, user <> failed /\ granted_to p2.1 user = Some "Read".
Proof.
  intros b.
  first [exists "bob"; split; [by vm_compute|]; split; [by vm_compute|]; exists "alice"; by split; vm_compute
        |exists "alice"; split; [by vm_compute|]; split; [by vm_compute|]; exists "bob"; by split; vm_compute].
Qed.

(** The API server while the user edits the spec just before the patch of the
    annotation arrives: the patch applies to, and answers with, the edited object. *)
Definition racing (f : BucketSpec -> BucketSpec) : Handler opE Sim := fun X e s =>
  match e in opE X return Sim * X with
  | OKube e' =>
      match e' in kubeE X return Sim * X with
      | KPatch k base o =>
          match k return Obj k -> Sim * result (Obj k) with
          | KBucket => fun o =>
              let stored := {| b_Meta := b_Meta o; b_Spec := f (b_Spec o);
                               b_Status := default (b_Status o)
                                 (b_Status <$> List.find (same_key (k:=KBucket) o) (sim_objs s KBucket)) |} in
              (set_objs KBucket (replace_obj (k:=KBucket) stored (sim_objs s KBucket)) s, Ok stored)
          | k' => fun o => sim_kube (KPatch k' o o) s
          end o
      | e'' => sim_kube e'' s
      end
  | e' => sim _ e' s
  end.

(** The patch of the annotation answers with the resource as stored, and the
    rest of the pass records its spec as applied: when the owner is edited in
    between, the status records the new owner that was never set, and every later
    pass takes it for set.  The bucket keeps its old owner and the resource is
    ready. *)
Theorem patch_race_skips_owner :
  let b := respec (spec_with "alice" [ {| acc_User := "alice"; acc_Actions := ["Read"] |} ])
             (sample_bucket "" [] None) in
  let p1 := pass (racing (fun sp => spec_with "bob" (bspec_Access sp) sp)) (bucket_cluster b) in
  let p2 := pass sim p1.1 in
  p1.2 = Done (requeueIn resyncIn) None /\ p2.2 = Done (requeueIn resyncIn) None /\
  map (fun o : Bucket => (bspec_Owner (b_Spec o), bst_OwnerIdentity (b_Status o)))
    (sim_objs p2.1 KBucket) = [("bob", "bob")] /\
  (sb_Owner <$> sim_buckets p2.1 !! "data") = Some "alice".
Proof. intros b p1 p2. by split_and!; vm_compute. Qed.
