(* ===== verification/LifecyclePolicy.v ===== *)
(** * Bucket lifecycle policies (bucketlifecyclepolicy_controller.go, bucketlifecyclepolicy_xml.go)

    The reconciler that keeps a bucket's S3 lifecycle configuration equal to the
    rules of the one policy that owns the bucket, and the XML it writes.  The
    canonical parser of lifecycle XML belongs to SeaweedFS and is a parameter. *)
From Stdlib Require Import Ascii.
From S2P Require Import Prelude Prog CoreTypes ApiTypes Effects Machinery Sim Trace RefGrant.
From S2P Require Import Cluster.
From S2P Require Import IamCommon IamSpec Json BucketController.

Definition BucketLifecyclePolicyFinalizer : string :=
  "seaweed.seaweedfs.com/bucketlifecyclepolicy-protection".

(** ** encoding/xml *)
Definition xml_escape (c : chunk) : string :=
  match c with
  | CAscii a =>
      match byte a with
      | 34 => "&#34;" | 39 => "&#39;" | 38 => "&amp;" | 60 => "&lt;" | 62 => "&gt;"
      | 9 => "&#x9;" | 10 => "&#xA;" | 13 => "&#xD;"
      | n => if n <? 32 then rune_error else String a EmptyString
      end
  | CThree a b c =>
      if (byte a =? 239) && (byte b =? 191) && (190 <=? byte c)
      then rune_error else chunk_bytes (CThree a b c)
  | _ => chunk_bytes c
  end.
Definition EscapeString (s : string) : string := concat_strings (xml_escape <$> chunks s).
Definition element (name content : string) : string :=
  "<" +:+ name +:+ ">" +:+ content +:+ "</" +:+ name +:+ ">".
Definition optional (present : bool) (text : string) : string := if present then text else "".
Definition number (name : string) (n : Z) : string := element name (fmt_d n).

Definition expiration_xml (e : BucketLifecycleExpiration) : string :=
  element "Expiration"
    (optional (negb (bool_decide (exp_Days e = 0%Z))) (number "Days" (exp_Days e)) +:+
     optional (exp_ExpiredObjectDeleteMarker e) (element "ExpiredObjectDeleteMarker" "true")).
Definition noncurrent_xml (e : BucketLifecycleNoncurrentVersionExpiration) : string :=
  element "NoncurrentVersionExpiration"
    (number "NoncurrentDays" (ncv_NoncurrentDays e) +:+
     optional (negb (bool_decide (ncv_NewerNoncurrentVersions e = 0%Z)))
       (number "NewerNoncurrentVersions" (ncv_NewerNoncurrentVersions e))).
Definition abort_xml (e : BucketLifecycleAbortIncompleteMultipartUpload) : string :=
  element "AbortIncompleteMultipartUpload"
    (number "DaysAfterInitiation" (abort_DaysAfterInitiation e)).
Definition option_xml {A} (f : A -> string) (o : option A) : string :=
  match o with Some a => f a | None => "" end.
Definition rule_xml (r : BucketLifecycleRule) : string :=
  element "Rule"
    (optional (negb (bool_decide (rule_ID r = ""))) (element "ID" (EscapeString (rule_ID r))) +:+
     element "Status" (EscapeString (rule_Status r)) +:+
     element "Prefix" (EscapeString (rule_Prefix r)) +:+
     option_xml expiration_xml (rule_Expiration r) +:+
     option_xml noncurrent_xml (rule_NoncurrentVersionExpiration r) +:+
     option_xml abort_xml (rule_AbortIncompleteMultipartUpload r)).

(** No configuration is the empty text. *)
Definition buildLifecycleXML (rules : list BucketLifecycleRule) : result string :=
  match rules with
  | [] => Ok ""
  | _ => Ok (element "LifecycleConfiguration" (concat_strings (map rule_xml rules)))
  end.

(** [lifecycle_xml.ParseCanonical]; [None] is an error. *)
Class LifecycleXml := {
  Canonical : Type;
  canonical_eq_dec :: EqDecision Canonical;
  ParseCanonical : string -> option Canonical;
}.

#[export] Instance lifecycle_object : IamObject BucketLifecyclePolicy := {|
  io_Meta := lp_Meta;
  io_setMeta m o := {| lp_Meta := m; lp_Spec := lp_Spec o; lp_Status := lp_Status o |};
  io_Conditions o := lpst_Conditions (lp_Status o);
  io_setConditions cs o :=
    {| lp_Meta := lp_Meta o; lp_Spec := lp_Spec o;
       lp_Status :=
         {| lpst_ObservedGeneration := lpst_ObservedGeneration (lp_Status o);
            lpst_Phase := lpst_Phase (lp_Status o); lpst_Conditions := cs;
            lpst_BucketName := lpst_BucketName (lp_Status o);
            lpst_ClusterName := lpst_ClusterName (lp_Status o);
            lpst_ClusterNamespace := lpst_ClusterNamespace (lp_Status o);
            lpst_AppliedRules := lpst_AppliedRules (lp_Status o) |} |};
  io_setPhase ph o :=
    {| lp_Meta := lp_Meta o; lp_Spec := lp_Spec o;
       lp_Status :=
         {| lpst_ObservedGeneration := lpst_ObservedGeneration (lp_Status o);
            lpst_Phase := ph; lpst_Conditions := lpst_Conditions (lp_Status o);
            lpst_BucketName := lpst_BucketName (lp_Status o);
            lpst_ClusterName := lpst_ClusterName (lp_Status o);
            lpst_ClusterNamespace := lpst_ClusterNamespace (lp_Status o);
            lpst_AppliedRules := lpst_AppliedRules (lp_Status o) |} |};
|}.

(** ** The reconciler *)
Section controller.
Context `{ApiMachinery} `{Digest} `{LifecycleXml}.
Context (ResyncInterval : Z).

Definition lifecycleConfigEqual (current desired : string) : bool :=
  if bool_decide (current = "") && bool_decide (desired = "") then true
  else match ParseCanonical current with
       | None => false
       | Some c => match ParseCanonical desired with
                   | None => false
                   | Some d => bool_decide (c = d)
                   end
       end.

Definition policyPrecedes (a b : BucketLifecyclePolicy) : bool :=
  let ta := CreationTimestamp (lp_Meta a) in
  let tb := CreationTimestamp (lp_Meta b) in
  if negb (bool_decide (ta = tb)) then (ta <? tb)%Z
  else string_ltb (Name (lp_Meta a)) (Name (lp_Meta b)).

(** The loop of [bucketOwner] over the listed policies. *)
Definition pick_owner (policy : BucketLifecyclePolicy) (items : list BucketLifecyclePolicy)
    : BucketLifecyclePolicy :=
  foldl (fun owner p =>
    if bool_decide (Name (lp_Meta p) = Name (lp_Meta policy)) ||
       negb (bool_decide (lpspec_BucketRef (lp_Spec p) = lpspec_BucketRef (lp_Spec policy))) ||
       negb (live (lp_Meta p))
    then owner
    else if policyPrecedes p owner then p else owner) policy items.
Definition bucketOwner (policy : BucketLifecyclePolicy) : op (result string) :=
  try items <- kube (KList KLifecyclePolicy (Some (Namespace (lp_Meta policy))) ∅)
    catch err => Ret (Err err);
  Ret (Ok (Name (lp_Meta (pick_owner policy items)))).

(** These only change the policy in memory; its status is written on return. *)
Definition failPhase (policy : BucketLifecyclePolicy) (reason message : string)
    : BucketLifecyclePolicy * Result :=
  (setCond (io_setPhase BucketPhaseFailed policy) BucketLifecyclePolicyConditionReady
     ConditionFalse reason message, requeueIn requeueAfterTransient).
Definition pending (policy : BucketLifecyclePolicy) (reason message : string)
    : BucketLifecyclePolicy * Result :=
  let policy := io_setPhase BucketPhasePending policy in
  let policy := setCond policy BucketLifecyclePolicyConditionBucketResolved ConditionFalse
                  reason message in
  (setCond policy BucketLifecyclePolicyConditionReady ConditionFalse reason message,
   requeueIn requeueAfterTransient).
Definition set_target (policy : BucketLifecyclePolicy) (bucketName clusterName clusterNS : string)
    (appliedRules : Z) : BucketLifecyclePolicy :=
  {| lp_Meta := lp_Meta policy; lp_Spec := lp_Spec policy;
     lp_Status :=
       {| lpst_ObservedGeneration := lpst_ObservedGeneration (lp_Status policy);
          lpst_Phase := lpst_Phase (lp_Status policy);
          lpst_Conditions := lpst_Conditions (lp_Status policy);
          lpst_BucketName := bucketName; lpst_ClusterName := clusterName;
          lpst_ClusterNamespace := clusterNS; lpst_AppliedRules := appliedRules |} |}.
Definition conflict (policy : BucketLifecyclePolicy) (owner : string)
    : BucketLifecyclePolicy * Result :=
  failPhase (set_target policy "" "" "" 0) "Conflict"
    ("bucket " +:+ fmt_q (lpspec_BucketRef (lp_Spec policy)) +:+
     " lifecycle is managed by BucketLifecyclePolicy " +:+ fmt_q owner).

Definition removeFinalizer (policy : BucketLifecyclePolicy) : op outcome :=
  if negb (hasFinalizer policy BucketLifecyclePolicyFinalizer) then Ret (Done noResult None)
  else
    check kube (KUpdate KLifecyclePolicy
                  (IamCommon.removeFinalizer policy BucketLifecyclePolicyFinalizer))
    catch err => Ret (Done noResult (Some err));
    Ret (Done noResult None).

Definition cleanupFailed (policy : BucketLifecyclePolicy) (err : error) : op outcome :=
  let policy := io_setPhase BucketPhaseTerminating policy in
  let policy := setCond policy BucketLifecyclePolicyConditionReady ConditionFalse "CleanupFailed"
                  (error_string err) in
  do _ <- kube (KStatusUpdate KLifecyclePolicy policy);
  Ret (Done noResult (Some err)).

Definition adminFor (seaweed : Seaweed) : op (failure + string * filerTarget) :=
  try adminKey <- loadFilerAdminSigningKey seaweed catch err => Ret (inl (Failed err));
  try d <- loadSeaweedGrpcDialOption seaweed catch err => Ret (inl (Failed err));
  match getMasterPeersString seaweed with
  | None => Ret (inl Panicked)
  | Some masters =>
      let target := adminTarget seaweed adminKey d.1 in
      check call (OBucketFactory masters target) catch err => Ret (inl (Failed err));
      Ret (inr (masters, target))
  end.

Definition handleDeletion (policy : BucketLifecyclePolicy) : op outcome :=
  let st := lp_Status policy in
  if negb (hasFinalizer policy BucketLifecyclePolicyFinalizer) then Ret (Done noResult None)
  else if bool_decide (lpst_BucketName st = "") ||
          bool_decide (lpspec_ReclaimPolicy (lp_Spec policy) = BucketReclaimRetain)
  then removeFinalizer policy
  else
    do r <- kube (KGet KSeaweed {| nn_Namespace := lpst_ClusterNamespace st;
                                   nn_Name := lpst_ClusterName st |});
    match r with
    | inl err => if IsNotFound err then removeFinalizer policy else Ret (Done noResult (Some err))
    | inr seaweed =>
        try admin <- adminFor seaweed catch fail => Ret (outcome_of fail);
        check bkt admin.1 admin.2 (ClearLegacyBucketTTLs (lpst_BucketName st))
        catch err => cleanupFailed policy err;
        check bkt admin.1 admin.2 (SetBucketLifecycle (lpst_BucketName st) "")
        catch err => (if errors_Is err ErrBucketNotFound then removeFinalizer policy
                      else cleanupFailed policy err);
        removeFinalizer policy
    end.

Definition reconcilePolicy (policy : BucketLifecyclePolicy) (clusterNS clusterName bucketName : string)
    (masters : string) (target : filerTarget) : op (BucketLifecyclePolicy * Result) :=
  match buildLifecycleXML (lpspec_Rules (lp_Spec policy)) with
  | inl err => Ret (failPhase policy "BuildFailed" (error_string err))
  | inr desired =>
      check bkt masters target (ClearLegacyBucketTTLs bucketName)
      catch err => Ret (failPhase policy "TTLCleanupFailed" (error_string err));
      try current <- bkt masters target (GetBucketLifecycle bucketName)
        catch err => Ret (failPhase policy "ReadFailed" (error_string err));
      do r <-
        (if negb (lifecycleConfigEqual current desired)
         then bkt masters target (SetBucketLifecycle bucketName desired)
         else Ret None);
      match r with
      | Some err => Ret (failPhase policy "ApplyFailed" (error_string err))
      | None =>
          let policy := set_target policy bucketName clusterName clusterNS
                          (int32 (Z.of_nat (length (lpspec_Rules (lp_Spec policy))))) in
          let policy :=
            {| lp_Meta := lp_Meta policy; lp_Spec := lp_Spec policy;
               lp_Status :=
                 {| lpst_ObservedGeneration := Generation (lp_Meta policy);
                    lpst_Phase := BucketPhaseReady;
                    lpst_Conditions := lpst_Conditions (lp_Status policy);
                    lpst_BucketName := lpst_BucketName (lp_Status policy);
                    lpst_ClusterName := lpst_ClusterName (lp_Status policy);
                    lpst_ClusterNamespace := lpst_ClusterNamespace (lp_Status policy);
                    lpst_AppliedRules := lpst_AppliedRules (lp_Status policy) |} |} in
          Ret (setCond policy BucketLifecyclePolicyConditionReady ConditionTrue "Reconciled" "",
               requeueIn ResyncInterval)
      end
  end.

(** Between the finalizer and the deferred status write: an error, or the policy
    as left in memory and the result. *)
Definition reconcileLive (policy : BucketLifecyclePolicy)
    : op (failure + BucketLifecyclePolicy * Result) :=
  let ns := Namespace (lp_Meta policy) in
  let ref := lpspec_BucketRef (lp_Spec policy) in
  do r <- kube (KGet KBucket {| nn_Namespace := ns; nn_Name := ref |});
  match r with
  | inl err =>
      if IsNotFound err
      then Ret (inr (pending policy "BucketNotFound"
             ("Bucket " +:+ fmt_q ref +:+ " not found in namespace " +:+ fmt_q ns)))
      else Ret (inl (Failed err))
  | inr bucket =>
      let bucketName := bst_BucketName (b_Status bucket) in
      if bool_decide (bucketName = "")
      then Ret (inr (pending policy "BucketNotReady"
                      ("Bucket " +:+ fmt_q ref +:+ " is not provisioned yet")))
      else
        let policy := setCond policy BucketLifecyclePolicyConditionBucketResolved ConditionTrue
                        "Resolved" "" in
        try owner <- bucketOwner policy catch err => Ret (inl (Failed err));
        if negb (bool_decide (owner = Name (lp_Meta policy))) then Ret (inr (conflict policy owner))
        else
          let cref := bspec_ClusterRef (b_Spec bucket) in
          let seaweedNS := refNamespace cref (Namespace (b_Meta bucket)) in
          do r <- kube (KGet KSeaweed {| nn_Namespace := seaweedNS; nn_Name := ref_Name cref |});
          match r with
          | inl err =>
              if IsNotFound err
              then Ret (inr (pending policy "ClusterRefNotFound"
                     ("Seaweed " +:+ fmt_q (ref_Name cref) +:+ " not found in namespace " +:+
                      fmt_q seaweedNS)))
              else Ret (inl (Failed err))
          | inr seaweed =>
              try admin <- adminFor seaweed catch fail => Ret (inl fail);
              do done <- reconcilePolicy policy seaweedNS (Name (sw_Meta seaweed)) bucketName
                           admin.1 admin.2;
              Ret (inr done)
          end
  end.

Definition Reconcile (req : NamespacedName) : op outcome :=
  try policy <- kube (KGet KLifecyclePolicy req)
    catch err => Ret (Done noResult (IgnoreNotFound err));
  if negb (live (lp_Meta policy)) then handleDeletion policy
  else if negb (hasFinalizer policy BucketLifecyclePolicyFinalizer) then
    check kube (KUpdate KLifecyclePolicy (addFinalizer policy BucketLifecyclePolicyFinalizer))
    catch err => Ret (Done noResult (Some err));
    Ret (Done requeueNow None)
  else
    let base := lp_Status policy in
    try done <- reconcileLive policy catch fail => Ret (outcome_of fail);
    if bool_decide (base = lp_Status done.1) then Ret (Done done.2 None)
    else
      check kube (KStatusUpdate KLifecyclePolicy done.1)
      catch uerr => Ret (Done noResult (Some uerr));
      Ret (Done done.2 None).

Definition nn (m : ObjectMeta) : NamespacedName :=
  {| nn_Namespace := Namespace m; nn_Name := Name m |}.
Definition mapBucketToPolicies (bucket : Bucket) : op (list NamespacedName) :=
  try items <- kube (KList KLifecyclePolicy (Some (Namespace (b_Meta bucket))) ∅) catch _ => Ret [];
  Ret (map (fun p => nn (lp_Meta p))
         (List.filter (fun p => bool_decide (lpspec_BucketRef (lp_Spec p) = Name (b_Meta bucket)))
            items)).
Definition mapPolicyToPeers (changed : BucketLifecyclePolicy) : op (list NamespacedName) :=
  try items <- kube (KList KLifecyclePolicy (Some (Namespace (lp_Meta changed))) ∅)
    catch _ => Ret [];
  Ret (map (fun p => nn (lp_Meta p))
         (List.filter (fun p => negb (bool_decide (Name (lp_Meta p) = Name (lp_Meta changed))) &&
            bool_decide (lpspec_BucketRef (lp_Spec p) = lpspec_BucketRef (lp_Spec changed))) items)).

(** ** What the controller may do *)
Definition fetched (tr : trace) (req : NamespacedName) (p : BucketLifecyclePolicy) : Prop :=
  saw_kube tr (KGet KLifecyclePolicy req) (Ok p).
Definition bucket_key (p : BucketLifecyclePolicy) : NamespacedName :=
  {| nn_Namespace := Namespace (lp_Meta p); nn_Name := lpspec_BucketRef (lp_Spec p) |}.

(** The cluster behind an admin. *)
Definition reached (tr : trace) (key : NamespacedName) (ms : string) (t : filerTarget) : Prop :=
  exists sw, saw_kube tr (KGet KSeaweed key) (Ok sw) /\ getMasterPeersString sw = Some ms /\
             address t = getFilerAddress sw.

(** No listed policy of the bucket precedes the first to own it. *)
Definition owns (tr : trace) (p : BucketLifecyclePolicy) : Prop :=
  exists items, saw_kube tr (KList KLifecyclePolicy (Some (Namespace (lp_Meta p))) ∅) (Ok items) /\
    Name (lp_Meta (pick_owner p items)) = Name (lp_Meta p).

(** A live policy with its finalizer that owns the provisioned bucket [n]. *)
Definition may_apply (tr : trace) (req : NamespacedName) (p : BucketLifecyclePolicy) (n ms : string)
    (t : filerTarget) : Prop :=
  fetched tr req p /\ live (lp_Meta p) = true /\
  hasFinalizer p BucketLifecyclePolicyFinalizer = true /\ owns tr p /\ n <> "" /\
  exists b, saw_kube tr (KGet KBucket (bucket_key p)) (Ok b) /\ n = bst_BucketName (b_Status b) /\
    reached tr (seaweed_key (bspec_ClusterRef (b_Spec b)) (Namespace (b_Meta b))) ms t.

(** A policy being deleted that has applied rules to the bucket its status
    records and does not retain them. *)
Definition may_clear (tr : trace) (req : NamespacedName) (p : BucketLifecyclePolicy) (n ms : string)
    (t : filerTarget) : Prop :=
  fetched tr req p /\ live (lp_Meta p) = false /\
  hasFinalizer p BucketLifecyclePolicyFinalizer = true /\
  lpspec_ReclaimPolicy (lp_Spec p) <> BucketReclaimRetain /\ n <> "" /\
  n = lpst_BucketName (lp_Status p) /\
  reached tr {| nn_Namespace := lpst_ClusterNamespace (lp_Status p);
                nn_Name := lpst_ClusterName (lp_Status p) |} ms t.

Definition cleared_ttls (tr : trace) (n ms : string) (t : filerTarget) : Prop :=
  saw tr (OBucket ms t (ClearLegacyBucketTTLs n)) None.
Definition admin_guard (tr : trace) (req : NamespacedName) (ms : string) (t : filerTarget) {X}
    (e : bucketE X) : Prop :=
  match e with
  | ClearLegacyBucketTTLs n => exists p, may_apply tr req p n ms t \/ may_clear tr req p n ms t
  | GetBucketLifecycle n => exists p, may_apply tr req p n ms t
  | SetBucketLifecycle n xml =>
      cleared_ttls tr n ms t /\ exists p,
        may_clear tr req p n ms t /\ xml = "" \/
        may_apply tr req p n ms t /\ buildLifecycleXML (lpspec_Rules (lp_Spec p)) = Ok xml /\
          exists cur, saw tr (OBucket ms t (GetBucketLifecycle n)) (Ok cur) /\
                      lifecycleConfigEqual cur xml = false
  | _ => False
  end.

(** The bucket holds nothing of this policy any more, or its rules stay. *)
Definition released (tr : trace) (p : BucketLifecyclePolicy) : Prop :=
  lpst_BucketName (lp_Status p) = "" \/
  lpspec_ReclaimPolicy (lp_Spec p) = BucketReclaimRetain \/
  (exists e, IsNotFound e = true /\
     saw_kube tr (KGet KSeaweed {| nn_Namespace := lpst_ClusterNamespace (lp_Status p);
                                   nn_Name := lpst_ClusterName (lp_Status p) |}) (Err e)) \/
  exists ms t r, saw tr (OBucket ms t (SetBucketLifecycle (lpst_BucketName (lp_Status p)) "")) r /\
                 (r = None \/ r = Some ErrBucketNotFound).

Definition finalizer_update (tr : trace) (req : NamespacedName) (o : BucketLifecyclePolicy) : Prop :=
  exists p, fetched tr req p /\ lp_Spec o = lp_Spec p /\
    (live (lp_Meta p) = true /\
       lp_Meta o = with_finalizers (lp_Meta p)
         (AddFinalizer (Finalizers (lp_Meta p)) BucketLifecyclePolicyFinalizer) \/
     live (lp_Meta p) = false /\
       lp_Meta o = with_finalizers (lp_Meta p)
         (RemoveFinalizer (Finalizers (lp_Meta p)) BucketLifecyclePolicyFinalizer) /\
       released tr p).

(** A status may keep the recorded bucket, forget it, or name the bucket whose
    lifecycle was found or made equal to the rules of this policy. *)
Definition applied (tr : trace) (p : BucketLifecyclePolicy) (n ms : string) (t : filerTarget) : Prop :=
  exists xml, buildLifecycleXML (lpspec_Rules (lp_Spec p)) = Ok xml /\
    ((exists cur, saw tr (OBucket ms t (GetBucketLifecycle n)) (Ok cur) /\
        lifecycleConfigEqual cur xml = true) \/
     saw tr (OBucket ms t (SetBucketLifecycle n xml)) None).
Definition status_update (tr : trace) (req : NamespacedName) (o : BucketLifecyclePolicy) : Prop :=
  exists p, fetched tr req p /\ lp_Meta o = lp_Meta p /\ lp_Spec o = lp_Spec p /\
    (lpst_BucketName (lp_Status o) = lpst_BucketName (lp_Status p) \/
     lpst_BucketName (lp_Status o) = "" \/
     exists n ms t, lpst_BucketName (lp_Status o) = n /\ may_apply tr req p n ms t /\
                    applied tr p n ms t).

Definition lifecycle_guard (req : NamespacedName) : Guard := fun tr X e =>
  match e with
  | OKube (KGet _ _) | OKube (KList _ _ _) => True
  | OKube (KUpdate KLifecyclePolicy o) => finalizer_update tr req o
  | OKube (KStatusUpdate KLifecyclePolicy o) => status_update tr req o
  | OBucket ms t e => admin_guard tr req ms t e
  | OBucketFactory _ _ | ODialTLS _ _ _ => True
  | _ => False
  end.

Lemma lifecycle_fetched_mono tr new req p : fetched tr req p -> fetched (tr ++ new) req p.
Proof. apply saw_app_l. Qed.
Lemma reached_mono tr new key ms t : reached tr key ms t -> reached (tr ++ new) key ms t.
Proof. intros (sw & ? & ?). exists sw. split; [by apply saw_app_l|done]. Qed.
Lemma may_apply_mono tr new req p n ms t :
  may_apply tr req p n ms t -> may_apply (tr ++ new) req p n ms t.
Proof.
  intros (? & ? & ? & (items & ? & ?) & ? & b & ? & ? & ?).
  split_and!; [by apply lifecycle_fetched_mono|done|done| |done|].
  - exists items. split; [by apply saw_app_l|done].
  - exists b. split; [by apply saw_app_l|]. split; [done|by apply reached_mono].
Qed.
Lemma may_clear_mono tr new req p n ms t :
  may_clear tr req p n ms t -> may_clear (tr ++ new) req p n ms t.
Proof.
  intros (? & ? & ? & ? & ? & ? & ?). split_and!; [by apply lifecycle_fetched_mono|done..|by apply reached_mono].
Qed.
Lemma released_mono tr new p : released tr p -> released (tr ++ new) p.
Proof.
  intros [?|[?|[(e & ? & ?)|(ms & t & r & ? & ?)]]]; [by left|by right; left|right; right; left|
    right; right; right].
  - exists e. split; [done|by apply saw_app_l].
  - exists ms, t, r. split; [by apply saw_app_l|done].
Qed.
#[local] Hint Extern 2 (fetched (_ ++ _) _ _) => apply lifecycle_fetched_mono : trace.
#[local] Hint Extern 2 (reached (_ ++ _) _ _ _) => apply reached_mono : trace.
#[local] Hint Extern 2 (may_apply (_ ++ _) _ _ _ _ _) => apply may_apply_mono : trace.
#[local] Hint Extern 2 (may_clear (_ ++ _) _ _ _ _ _) => apply may_clear_mono : trace.
#[local] Hint Extern 2 (released (_ ++ _) _) => apply released_mono : trace.

Lemma lifecycle_guard_reads req : allows_reads (lifecycle_guard req).
Proof. done. Qed.

Section safety.
Context (req : NamespacedName) (p : BucketLifecyclePolicy).
Abbreviation G := (lifecycle_guard req).

Lemma adminFor_swp key sw tr :
  saw_kube tr (KGet KSeaweed key) (Ok sw) ->
  swp G (adminFor sw) (fun r tr' => match r with
    | inl _ => True | inr a => reached tr' key a.1 a.2 end) tr.
Proof.
  intros Hsw. unfold adminFor.
  eapply swp_seq_keep; [apply loadFilerAdminSigningKey_swp, lifecycle_guard_reads|].
  intros [e|k] new _; [done|].
  eapply swp_seq_keep; [apply loadSeaweedGrpcDialOption_swp, lifecycle_guard_reads|].
  intros [e|d] new2 _; [done|]. destruct (getMasterPeersString sw) as [ms|] eqn:Hms; [|done].
  sx. split; [done|]. intros [e|]; sx; [done|]. exists sw. split; [by do 3 apply saw_kube_mono|done].
Qed.

Lemma removeFinalizer_swp tr :
  fetched tr req p -> live (lp_Meta p) = false -> released tr p ->
  swp G (removeFinalizer p) (fun _ _ => True) tr.
Proof.
  intros Hf Hl Hr. unfold removeFinalizer. destruct (hasFinalizer _ _); sx; [|done].
  split; [|by intros [e|]]. exists p. split; [done|]. split; [done|]. right. by split_and!.
Qed.
Lemma cleanupFailed_swp tr err :
  fetched tr req p -> swp G (cleanupFailed p err) (fun _ _ => True) tr.
Proof. intros Hf. unfold cleanupFailed. sx. split; [|done]. exists p. split_and!; auto. Qed.

Lemma lifecycle_handleDeletion_swp tr :
  fetched tr req p -> live (lp_Meta p) = false -> swp G (handleDeletion p) (fun _ _ => True) tr.
Proof.
  intros Hf Hl. unfold handleDeletion. destruct (hasFinalizer _ _) eqn:Hfin; cbn [negb]; [|done].
  case_bool_decide as Hn; cbn [orb]; [apply removeFinalizer_swp; [done..|by left]|].
  case_bool_decide as Hr; [apply removeFinalizer_swp; [done..|by right; left]|].
  sx. split; [done|]. intros [e|sw]; sx.
  - destruct (IsNotFound e) eqn:He; [|done]. apply removeFinalizer_swp; [auto with trace|done|].
    right; right; left. exists e. auto with trace.
  - eapply swp_seq_keep; [by apply adminFor_swp, saw_last|]. intros [e|[ms t]] new Hreach; [done|].
    cbn [fst snd] in *. set (tr1 := (tr ++ _) ++ new) in *.
    assert (Hmay : may_clear tr1 req p (lpst_BucketName (lp_Status p)) ms t).
    { split_and!; [unfold tr1; auto with trace|done..]. }
    clearbody tr1. sx. split; [exists p; by right|].
    intros [e|]; sx; [apply cleanupFailed_swp, lifecycle_fetched_mono, Hmay|].
    split; [split; [apply saw_last|exists p; left; by split; [apply may_clear_mono|]]|].
    intros [e|]; sx.
    + destruct (errors_Is e _) eqn:He; [|apply cleanupFailed_swp; do 2 apply lifecycle_fetched_mono; apply Hmay].
      apply removeFinalizer_swp; [do 2 apply lifecycle_fetched_mono; apply Hmay|done|].
      right; right; right. exists ms, t, (Some e). split; [apply saw_last|right].
      apply bool_decide_eq_true in He. by subst.
    + apply removeFinalizer_swp; [do 2 apply lifecycle_fetched_mono; apply Hmay|done|].
      right; right; right. exists ms, t, None. split; [apply saw_last|by left].
Qed.

(** The policy in memory is the fetched one up to its status. *)
Definition same (o : BucketLifecyclePolicy) : Prop :=
  lp_Meta o = lp_Meta p /\ lp_Spec o = lp_Spec p.
Definition writable (tr : trace) (o : BucketLifecyclePolicy) : Prop :=
  same o /\
  (lpst_BucketName (lp_Status o) = lpst_BucketName (lp_Status p) \/
   lpst_BucketName (lp_Status o) = "" \/
   exists n ms t, lpst_BucketName (lp_Status o) = n /\ may_apply tr req p n ms t /\
                  applied tr p n ms t).

Lemma reconcilePolicy_swp o cns cn n ms t tr :
  same o -> lpst_BucketName (lp_Status o) = lpst_BucketName (lp_Status p) ->
  may_apply tr req p n ms t ->
  swp G (reconcilePolicy o cns cn n ms t) (fun r tr' => writable tr' r.1) tr.
Proof.
  intros Hs Hn Hmay. pose proof Hs as [_ Hsp]. unfold reconcilePolicy. rewrite Hsp.
  destruct (buildLifecycleXML _) as [e|xml] eqn:Hxml; [by split; [|left]|].
  sx. split; [exists p; by left|]. intros [e|]; sx; [by split; [|left]|].
  set (tr1 := tr ++ _). assert (Hm1 : may_apply tr1 req p n ms t) by by apply may_apply_mono.
  assert (Hc1 : cleared_ttls tr1 n ms t) by apply saw_last. clearbody tr1.
  split; [by exists p|]. intros [e|cur]; sx; [by split; [|left]|].
  set (tr2 := tr1 ++ _). assert (Hm2 : may_apply tr2 req p n ms t) by by apply may_apply_mono.
  assert (Hc2 : cleared_ttls tr2 n ms t) by by apply saw_app_l.
  assert (Hg : saw tr2 (OBucket ms t (GetBucketLifecycle n)) (Ok cur)) by apply saw_last.
  clearbody tr2. destruct (lifecycleConfigEqual cur xml) eqn:Heq; sx.
  - split; [done|]. right; right. exists n, ms, t. split_and!; [done|done|].
    exists xml. split; [done|]. left. by exists cur.
  - split.
    { split; [done|]. exists p. right. split_and!; [done|done|]. by exists cur. }
    intros [e|]; sx; [by split; [|left]|]. split; [done|]. right; right. exists n, ms, t.
    split_and!; [done|by apply may_apply_mono|]. exists xml. split; [done|]. right. apply saw_last.
Qed.

Lemma reconcileLive_swp tr :
  fetched tr req p -> live (lp_Meta p) = true ->
  hasFinalizer p BucketLifecyclePolicyFinalizer = true ->
  swp G (reconcileLive p) (fun r tr' => match r with inl _ => True | inr d => writable tr' d.1 end) tr.
Proof.
  intros Hf Hl Hfin. unfold reconcileLive. sx. split; [done|]. intros [e|b]; sx.
  { destruct (IsNotFound e); sx; [|done]. by split; [|left]. }
  case_bool_decide as Hn; sx; [by split; [|left]|].
  set (tr1 := tr ++ _). assert (Hf1 : fetched tr1 req p) by by apply lifecycle_fetched_mono.
  assert (Hb : saw_kube tr1 (KGet KBucket (bucket_key p)) (Ok b)) by apply saw_last. clearbody tr1.
  set (o := setCond p _ _ _ _). assert (Ho : same o) by done.
  assert (Hname : lpst_BucketName (lp_Status o) = lpst_BucketName (lp_Status p)) by done.
  unfold bucketOwner. sx. split; [done|]. intros [e|items]; sx; [done|].
  assert (Hpick : Name (lp_Meta (pick_owner o items)) = Name (lp_Meta (pick_owner p items))).
  { assert (forall q q' : BucketLifecyclePolicy, lp_Meta q = lp_Meta q' ->
      lp_Meta (foldl (fun owner x =>
        if bool_decide (Name (lp_Meta x) = Name (lp_Meta p)) ||
           negb (bool_decide (lpspec_BucketRef (lp_Spec x) = lpspec_BucketRef (lp_Spec p))) ||
           negb (live (lp_Meta x)) then owner
        else if policyPrecedes x owner then x else owner) q items) =
      lp_Meta (foldl (fun owner x =>
        if bool_decide (Name (lp_Meta x) = Name (lp_Meta p)) ||
           negb (bool_decide (lpspec_BucketRef (lp_Spec x) = lpspec_BucketRef (lp_Spec p))) ||
           negb (live (lp_Meta x)) then owner
        else if policyPrecedes x owner then x else owner) q' items)) as Hfold.
    { induction items as [|x items IH]; intros q q' Hq; simpl; [done|]. apply IH.
      destruct (_ || _); [done|]. unfold policyPrecedes. rewrite Hq. by destruct (if negb _ then _ else _). }
    unfold pick_owner. f_equal. by apply Hfold. }
  case_bool_decide as Hown; sx; [|split; [done|by right; left]].
  split; [done|]. intros [e|sw]; sx.
  { destruct (IsNotFound e); sx; [|done]. by split; [|left]. }
  eapply swp_seq_keep; [by apply adminFor_swp, saw_last|]. intros [e|[ms t]] new Hreach; sx; [done|].
  cbn [fst snd] in *. eapply swp_seq; [apply reconcilePolicy_swp; [done|done|]|].
  - split_and!; [auto 6 with trace|done|done| |done|].
    + exists items. split; [|by rewrite <-Hpick]. do 2 apply saw_kube_mono. apply saw_last.
    + exists b. split; [by do 3 apply saw_kube_mono|]. by split.
  - intros d tr' Hd. by sx.
Qed.
End safety.

Lemma lifecycle_Reconcile_swp req tr :
  swp (lifecycle_guard req) (Reconcile req) (fun _ _ => True) tr.
Proof.
  unfold Reconcile. sx. split; [done|]. intros [e|p]; sx; [done|].
  set (tr1 := tr ++ _). assert (Hf : fetched tr1 req p) by apply saw_last. clearbody tr1.
  destruct (live (lp_Meta p)) eqn:Hl; sx; [|by apply lifecycle_handleDeletion_swp].
  destruct (hasFinalizer p _) eqn:Hfin; sx.
  - eapply swp_seq_keep; [by apply reconcileLive_swp|]. intros [e|d] new Hd; [done|].
    case_bool_decide; sx; [done|]. split; [|by intros [e|]]. exists p. destruct Hd as [[??] ?].
    split_and!; auto with trace.
  - split; [|by intros [e|]]. exists p. split; [done|]. split; [done|]. by left.
Qed.

(** C22. The lifecycle controller writes a bucket's lifecycle only when it may.
    Whatever the API server and the filer answer: rules are written only for a
    live policy with its finalizer that owns the bucket among the policies the
    API server lists, to the provisioned bucket it references at that bucket's
    cluster, after the legacy TTLs are cleared, and only when the stored
    configuration was read and differs from the rules; a configuration is cleared
    only for a policy being deleted that does not retain it, on the bucket and
    cluster its status records - that policy need not own the bucket any more, and what
    is cleared need not be its own rules and is not read; the finalizer is dropped only when nothing was
    applied, the rules are retained, the cluster is gone, or the clearing
    succeeded (or found no bucket); and a status names a bucket anew only when the
    bucket holds the rules of this policy. *)
Theorem lifecycle_reconcile_guarded req tr r :
  exec trace_env (Reconcile req) [] tr r -> guarded (lifecycle_guard req) tr.
Proof. intros Hx. by eapply swp_theorem in Hx as [? _]; [|apply lifecycle_Reconcile_swp]. Qed.

(** ** What a pass achieves *)
Definition with_lifecycle (xml : string) (x : SimBucket) : SimBucket :=
  mk_bucket (sb_Owner x) (sb_ObjectLock x) (sb_Versioning x) (sb_Quota x) (sb_Access x) xml.

(** The bucket holds the rules: it already did, or they were written to it. *)
Definition holds_rules (p : BucketLifecyclePolicy) (n : string) (s s' : Sim) : Prop :=
  exists xml x, buildLifecycleXML (lpspec_Rules (lp_Spec p)) = Ok xml /\
    sim_buckets s !! n = Some x /\
    (lifecycleConfigEqual (sb_Lifecycle x) xml = true /\ s' = s \/
     sim_buckets s' !! n = Some (with_lifecycle xml x)).
Definition holds_none (n : string) (s' : Sim) : Prop :=
  forall x, sim_buckets s' !! n = Some x -> sb_Lifecycle x = "".

Section achieves.
Context (objs : forall k, NamespacedName -> option (Obj k)).
Context (Hres : ResyncInterval <> requeueAfterTransient) (Hres0 : ResyncInterval <> 0%Z).
Abbreviation env := (bucket_env objs).
Abbreviation ready := (Done (requeueIn ResyncInterval) None).

Lemma clear_ttls_call {A} ms t n (k : option error -> op A) Q s :
  wp env (k None) Q s -> (forall s' e, only_bucket n s s' -> wp env (k (Some e)) Q s') ->
  wp env (Vis (OBucket ms t (ClearLegacyBucketTTLs n)) k) Q s.
Proof.
  intros Hok Herr r s1 [Hr|[Ho [e ->]]]; [|by apply Herr]. cbn [sim_bucket] in Hr. by simplify_eq.
Qed.
Lemma set_lifecycle_call {A} ms t n xml (k : option error -> op A) Q s :
  (forall x s', sim_buckets s !! n = Some x -> only_bucket n s s' ->
     sim_buckets s' !! n = Some (with_lifecycle xml x) -> wp env (k None) Q s') ->
  (forall s' e, only_bucket n s s' -> (e = ErrBucketNotFound -> sim_buckets s' !! n = None) ->
     wp env (k (Some e)) Q s') ->
  wp env (Vis (OBucket ms t (SetBucketLifecycle n xml)) k) Q s.
Proof.
  intros Hok Herr r s1 [Hr|[Ho [e [-> He]]]]; [|by apply Herr].
  cbn [sim_bucket] in Hr. unfold with_bucket in Hr. destruct (sim_buckets s !! n) as [x|] eqn:Hx; simplify_eq.
  - apply (Hok x); [done|apply only_bucket_insert|]. simpl. by rewrite lookup_insert_eq.
  - apply Herr; [apply only_bucket_refl|done].
Qed.

Lemma lifecycle_reconcilePolicy_wp o cns cn n ms t s :
  wp env (reconcilePolicy o cns cn n ms t)
    (fun r s' => only_bucket n s s' /\ (r.2 = requeueIn ResyncInterval -> holds_rules o n s s')) s.
Proof using Hres.
  assert (Hfail : forall reason message, (failPhase o reason message).2 <> requeueIn ResyncInterval).
  { intros reason message [= He]. congruence. }
  unfold reconcilePolicy. destruct (buildLifecycleXML _) as [e|xml] eqn:Hxml; [by split; [apply only_bucket_refl|intros ?%Hfail]|].
  wx. apply clear_ttls_call; [|intros s' e Ho; by split; [|intros ?%Hfail]].
  wx. intros r s1 [Hr|[-> [e ->]]]; [|by split; [apply only_bucket_refl|intros ?%Hfail]].
  cbn [sim_bucket] in Hr. destruct (sim_buckets s !! n) as [x|] eqn:Hx; simplify_eq; wx;
    [|by split; [apply only_bucket_refl|intros ?%Hfail]].
  destruct (lifecycleConfigEqual _ xml) eqn:Heq; wx.
  - split; [apply only_bucket_refl|]. intros _. exists xml, x. split_and!; [done|done|by left].
  - apply set_lifecycle_call.
    + intros x' s' Hx' Ho Hs'. split; [done|]. intros _. exists xml, x. simplify_eq.
      split_and!; [done|done|by right].
    + intros s' e Ho _. by split; [|intros ?%Hfail].
Qed.

(** No admin call happens before the bucket of the policy is known. *)
Lemma adminFor_quiet sw tr : swp no_admin (adminFor sw) (fun _ _ => True) tr.
Proof.
  unfold adminFor. eapply swp_seq; [by apply loadFilerAdminSigningKey_swp|].
  intros [e|key] tr1 _; [done|]. eapply swp_seq; [by apply loadSeaweedGrpcDialOption_swp|].
  intros [e|d] tr2 _; [done|]. destruct (getMasterPeersString sw); [|done]. sx. split; [done|]. by intros [e|].
Qed.
Lemma admin_seq {B} sw (f : failure + string * filerTarget -> op B) Q s :
  (forall r, wp env (f r) Q s) -> wp env (bind (adminFor sw) f) Q s.
Proof. intros Hf. eapply (no_admin_seq _ _ _ (fun _ => True)); [apply adminFor_quiet|]. auto. Qed.
Lemma removeFinalizer_wp o Q s :
  Q (Done noResult None) s -> (forall e, Q (Done noResult (Some e)) s) ->
  wp env (removeFinalizer o) Q s.
Proof.
  intros Hok Herr. unfold removeFinalizer. destruct (negb _); wx; [done|].
  by intros [e|] s1 [-> _]; wx.
Qed.
Lemma cleanupFailed_wp o err Q s :
  Q (Done noResult (Some err)) s -> wp env (cleanupFailed o err) Q s.
Proof. intros HQ. unfold cleanupFailed. wx. by intros r s1 [-> _]. Qed.

(** A deletion that completes without an error has cleared the recorded bucket,
    unless the rules are retained or the cluster is gone. *)
Definition cleared (p : BucketLifecyclePolicy) (s' : Sim) (r : outcome) : Prop :=
  let st := lp_Status p in
  r = Done noResult None -> hasFinalizer p BucketLifecyclePolicyFinalizer = true ->
  lpst_BucketName st <> "" -> lpspec_ReclaimPolicy (lp_Spec p) <> BucketReclaimRetain ->
  is_Some (objs KSeaweed {| nn_Namespace := lpst_ClusterNamespace st; nn_Name := lpst_ClusterName st |}) ->
  holds_none (lpst_BucketName st) s'.

Lemma lifecycle_handleDeletion_wp o s :
  wp env (handleDeletion o)
    (fun r s' => only_bucket (lpst_BucketName (lp_Status o)) s s' /\ r <> ready /\ cleared o s' r) s.
Proof using Hres0.
  assert (Hn0 : Done noResult None <> ready) by (intros [= He]; congruence).
  assert (Herr : forall e, Done noResult (Some e) <> ready) by done.
  unfold handleDeletion. destruct (hasFinalizer _ _) eqn:Hf; cbn [negb];
    [|split; [apply only_bucket_refl|split; [done|]]; intros _ ?; congruence].
  destruct (_ || _) eqn:Hkeep.
  { apply removeFinalizer_wp; [|by intros e; split; [apply only_bucket_refl|]].
    split; [apply only_bucket_refl|split; [done|]]. intros _ _ Hn Hr.
    apply orb_true_iff in Hkeep as [?%bool_decide_eq_true|?%bool_decide_eq_true]; done. }
  wx. intros [e|sw] s1 [-> Ho].
  { destruct (IsNotFound e) eqn:He; wx; [|by split; [apply only_bucket_refl|]].
    apply removeFinalizer_wp; [|by intros e'; split; [apply only_bucket_refl|]].
    split; [apply only_bucket_refl|split; [done|]]. intros _ _ _ _ [sw Hsw]. by rewrite Ho in Hsw. }
  apply admin_seq. intros [[e|]|[ms t]]; wx; [by split; [apply only_bucket_refl|]..|].
  apply clear_ttls_call; [|intros s' e Hs'; by apply cleanupFailed_wp].
  wx. apply set_lifecycle_call.
  - intros x s' Hx Hs' Hl. wx. apply removeFinalizer_wp; [|by intros e; split].
    split; [done|split; [done|]]. intros _ _ _ _ _ y Hy. by simplify_eq.
  - intros s' e Hs' Hnf. wx. destruct (errors_Is e _) eqn:He; [|by apply cleanupFailed_wp].
    apply removeFinalizer_wp; [|by intros e'; split].
    split; [done|split; [done|]]. intros _ _ _ _ _ y. rewrite Hnf; [done|].
    by apply bool_decide_eq_true in He.
Qed.

(** The bucket a live policy works on. *)
Definition target_of (p : BucketLifecyclePolicy) : string :=
  match objs KBucket (bucket_key p) with Some b => bst_BucketName (b_Status b) | None => "" end.

Lemma reconcileLive_wp o s :
  wp env (reconcileLive o)
    (fun r s' => only_bucket (target_of o) s s' /\
       match r with inl _ => True
       | inr d => d.2 = requeueIn ResyncInterval -> holds_rules o (target_of o) s s' end) s.
Proof using Hres Hres0.
  assert (Hrefl := only_bucket_refl (target_of o) s).
  assert (Hpend : forall reason message, (pending o reason message).2 <> requeueIn ResyncInterval).
  { intros reason message [= He]. congruence. }
  unfold reconcileLive. wx. intros [e|b] s1 [-> Ho].
  { destruct (IsNotFound e); wx; [|done]. by split; [|intros ?%Hpend]. }
  simpl in Ho. assert (Ht : target_of o = bst_BucketName (b_Status b)).
  { unfold target_of, bucket_key. by rewrite Ho. }
  rewrite <-Ht. case_bool_decide; wx; [by split; [|intros ?%Hpend]|].
  unfold bucketOwner. wx. intros [e|items] s1 [-> _]; wx; [done|].
  destruct (negb _); wx; [split; [done|]; intros [= He]; congruence|].
  intros [e|sw] s1 [-> _].
  { destruct (IsNotFound e); wx; [|done]. split; [done|]. intros [= He]; congruence. }
  apply admin_seq. intros [e|[ms t]]; wx; [done|].
  eapply wp_seq; [apply lifecycle_reconcilePolicy_wp|]. intros d s1 [Hs1 Hd]. wx. by split.
Qed.

Lemma lifecycle_Reconcile_wp req p s :
  objs KLifecyclePolicy req = Some p ->
  wp env (Reconcile req)
    (fun r s' => exists n, only_bucket n s s' /\
       n = (if live (lp_Meta p) then target_of p else lpst_BucketName (lp_Status p)) /\
       (r = ready -> live (lp_Meta p) = true /\ holds_rules p n s s') /\
       (live (lp_Meta p) = false -> cleared p s' r)) s.
Proof using Hres Hres0.
  intros Hp. assert (Hnow : Done requeueNow None <> ready) by done.
  assert (Hn0 : Done noResult None <> ready) by (intros [= He]; congruence).
  assert (Hdel : live (lp_Meta p) = false -> forall s e, cleared p s (Done noResult (Some e))) by done.
  unfold Reconcile. wx. intros [e|o] s1 [-> Ho]; wx.
  { eexists. split; [apply only_bucket_refl|]. split; [done|]. split.
    - intros [= He]. congruence.
    - unfold IgnoreNotFound. intros _. destruct (IsNotFound e) eqn:He; [|done].
      simpl in Ho. rewrite Hp in Ho. by specialize (Ho He). }
  simpl in Ho. rewrite Hp in Ho. injection Ho as <-.
  destruct (live (lp_Meta p)) eqn:Hl; cbn [negb].
  - destruct (hasFinalizer _ _); cbn [negb]; wx.
    + eapply wp_seq; [apply reconcileLive_wp|]. intros [[e|]|d] s1 [Hs1 Hd]; wx; [by eexists..|].
      case_bool_decide; wx; [|intros [e|] s2 [-> _]; wx; [by eexists|]];
        (eexists; split; [done|]; split; [done|]; split; [|done]; intros [= He]; split; [done|by apply Hd]).
    + intros [e|] s1 [-> _]; wx; (eexists; split; [apply only_bucket_refl|done]).
  - eapply wp_mono; [|apply lifecycle_handleDeletion_wp]. intros r s' (Ho & Hr & Hc).
    eexists. split; [done|]. split; [done|]. by split.
Qed.

(** A pass over a lifecycle policy changes at most the bucket it is about: the
    provisioned bucket it references, or, for a policy being deleted, the bucket
    its status records.  A pass that ends with the periodic resync leaves that
    bucket with the rules of the policy - either they were stored already and
    nothing was written, or exactly the rendered rules were written and the rest
    of the bucket is as before.  A deletion that ends without an error leaves the
    recorded bucket without lifecycle rules, unless they are retained or the
    cluster is gone. *)
Theorem lifecycle_reconcile_converges req p s s' r :
  objs KLifecyclePolicy req = Some p ->
  exec env (Reconcile req) s s' r ->
  exists n, only_bucket n s s' /\
    n = (if live (lp_Meta p) then target_of p else lpst_BucketName (lp_Status p)) /\
    (r = ready -> live (lp_Meta p) = true /\ holds_rules p n s s') /\
    (live (lp_Meta p) = false -> cleared p s' r).
Proof using Hres Hres0.
  intros Hget Hx. pose proof (lifecycle_Reconcile_wp req p s Hget) as Hwp.
  rewrite wp_exec in Hwp. by apply Hwp.
Qed.
End achieves.
End controller.

(** ** Sample runs *)
(** A parser that takes every text for canonical. *)
#[local] Instance literal_xml : LifecycleXml := {|
  Canonical := string; ParseCanonical := Some;
|}.
Definition sample_rule (days : Z) : BucketLifecycleRule := {|
  rule_ID := "old"; rule_Prefix := "logs/"; rule_Status := "Enabled";
  rule_Expiration := Some {| exp_Days := days; exp_ExpiredObjectDeleteMarker := false |};
  rule_NoncurrentVersionExpiration := None; rule_AbortIncompleteMultipartUpload := None |}.
Definition sample_policy (name : string) (created : Time) (deleted : option Time) (days : Z)
    (applied_to : string) : BucketLifecyclePolicy := {|
  lp_Meta := {| Name := name; Namespace := "a"; Generation := 1; CreationTimestamp := created;
                DeletionTimestamp := deleted; Labels := ∅; Annotations := ∅;
                Finalizers := [BucketLifecyclePolicyFinalizer]; OwnerReferences := []; UID := "" |};
  lp_Spec := {| lpspec_BucketRef := "data"; lpspec_Rules := [sample_rule days];
                lpspec_ReclaimPolicy := "Delete" |};
  lp_Status := {| lpst_ObservedGeneration := 0; lpst_Phase := ""; lpst_Conditions := [];
                  lpst_BucketName := applied_to; lpst_ClusterName := "sw";
                  lpst_ClusterNamespace := "a"; lpst_AppliedRules := 0 |} |}.
Definition provisioned : Bucket :=
  let b := sample_bucket "" [] None in
  {| b_Meta := b_Meta b; b_Spec := b_Spec b;
     b_Status := {| bst_ObservedGeneration := 1; bst_Phase := BucketPhaseReady; bst_Conditions := [];
                    bst_BucketName := "data"; bst_Versioning := ""; bst_ObjectLockEnabled := false;
                    bst_Quota := None; bst_OwnerIdentity := ""; bst_Usage := None |} |}.
Definition lifecycle_cluster (ps : list BucketLifecyclePolicy) (stored : string) : Sim :=
  set_buckets {[ "data" := mk_bucket "alice" false "" None ∅ stored ]}
    (set_objs KLifecyclePolicy ps (bucket_cluster provisioned)).
Definition lifecycle_objs (s : Sim) : forall k, NamespacedName -> option (Obj k) := fun k key =>
  List.find (fun o => bool_decide (obj_key o = key)) (sim_objs s k).
Definition lifecycle_req (name : string) : NamespacedName :=
  {| nn_Namespace := "a"; nn_Name := name |}.
Definition stored_rules (s : Sim) : option string := sb_Lifecycle <$> sim_buckets s !! "data".
Definition thirty_days : string :=
  "<LifecycleConfiguration><Rule><ID>old</ID><Status>Enabled</Status><Prefix>logs/</Prefix>" +:+
  "<Expiration><Days>30</Days></Expiration></Rule></LifecycleConfiguration>".

Lemma lifecycle_reconcile_guarded_witness :
  let s := lifecycle_cluster [sample_policy "p" 5 None 30 ""] "" in
  let x := run (tracing sim) (Reconcile resyncIn (lifecycle_req "p")) (s, []) in
  x.2 = Done (requeueIn resyncIn) None /\ stored_rules x.1.1 = Some thirty_days /\
  guarded (lifecycle_guard (lifecycle_req "p")) x.1.2.
Proof.
  intros s x. split; [by vm_compute|]. split; [by vm_compute|].
  apply (lifecycle_reconcile_guarded resyncIn (lifecycle_req "p") x.1.2 x.2).
  exact (run_tracing sim (Reconcile resyncIn (lifecycle_req "p")) s []).
Defined.

Lemma lifecycle_reconcile_converges_witness :
  let p := sample_policy "p" 5 None 30 "" in
  let s := lifecycle_cluster [p] "" in
  let s' := (run (sim_bucket_only (lifecycle_objs s)) (Reconcile resyncIn (lifecycle_req "p")) s).1 in
  stored_rules s' = Some thirty_days /\
  exists n, only_bucket n s s' /\ n = "data" /\ holds_rules p n s s'.
Proof.
  intros p s s'. split; [by vm_compute|].
  destruct (lifecycle_reconcile_converges resyncIn (lifecycle_objs s)) with (req := lifecycle_req "p")
    (p := p) (s := s) (s' := s') (r := Done (requeueIn resyncIn) None) as (n & Ho & Hn & Hr & _);
    [done|done|by vm_compute| |].
  - apply (run_exec_eq (bucket_env (lifecycle_objs s)) (sim_bucket_only (lifecycle_objs s))
             (Reconcile resyncIn (lifecycle_req "p")) s); [apply sim_bucket_only_refines|by vm_compute].
  - exists n. split; [done|]. split; [by rewrite Hn|by apply Hr].
Defined.

(** ** A retried clean-up *)
(** The reference environment while the filer cannot set a lifecycle. *)
Definition lifecycle_down : Handler opE Sim := fun X e s =>
  match e in opE X return Sim * X with
  | OBucket ms t e' =>
      match e' in bucketE X return Sim * X with
      | SetBucketLifecycle n x => (s, Some (ErrOther "unavailable"))
      | e'' => sim_bucket e'' s
      end
  | e' => sim _ e' s
  end.
Definition lifecycle_pass (h : Handler opE Sim) (name : string) (s : Sim) : Sim * outcome :=
  run h (Reconcile resyncIn (lifecycle_req name)) s.

(** A clean-up that is retried can clear rules the policy did not write: when
    the first attempt of a policy being deleted fails, the next policy in line
    takes the bucket over and is ready, and then the retry clears its rules. *)
Theorem lifecycle_handoff_wipes :
  let s := lifecycle_cluster [sample_policy "old" 5 (Some 9%Z) 90 "data"; sample_policy "new" 6 None 30 ""]
             "<LifecycleConfiguration></LifecycleConfiguration>" in
  let p1 := lifecycle_pass lifecycle_down "old" s in
  let p2 := lifecycle_pass sim "new" p1.1 in
  let p3 := lifecycle_pass sim "old" p2.1 in
  p1.2 = Done noResult (Some (ErrOther "unavailable")) /\
  p2.2 = Done (requeueIn resyncIn) None /\ stored_rules p2.1 = Some thirty_days /\
  p3.2 = Done noResult None /\ stored_rules p3.1 = Some "".
Proof. intros s p1 p2 p3. by split_and!; vm_compute. Qed.
