(* ===== verification/Calendar.v ===== *)
(** * Time stamps in names (package time, backup_common.go)

    Go's [time.Time] in UTC as nanoseconds since its zero time, the first instant
    of the year 1, and its [Format] with the layout the operator puts into object
    names; [fnvHash] and [boundedName] of backup_common.go. *)
From Stdlib Require Import Ascii.
From S2P Require Import Prelude CoreTypes ApiTypes.
Local Open Scope Z_scope.

(** ** Printing with leading zeros *)
Definition digit (n : Z) : ascii := ascii_of_nat (48 + Z.to_nat n).
(** At least [w] digits. *)
Fixpoint appendInt (n : Z) (w : nat) : string :=
  match w with
  | O => if bool_decide (n = 0) then "" else fmt_d n
  | S w => appendInt (n / 10) w +:+ String (digit (n mod 10)) ""
  end.
Fixpoint hex (n : Z) (w : nat) : string :=
  match w with
  | O => ""
  | S w => hex (n / 16) w +:+ String (hex_digit (Z.to_nat (n mod 16))) ""
  end.

(** ** The proleptic Gregorian calendar *)
Definition secondsPerDay : Z := 86400.
Definition daysPer400Years : Z := 365 * 400 + 97.
Definition daysPer100Years : Z := 365 * 100 + 24.
Definition daysPer4Years : Z := 365 * 4 + 1.

Definition isLeap (year : Z) : bool :=
  bool_decide (year mod 4 = 0) &&
  (negb (bool_decide (year mod 100 = 0)) || bool_decide (year mod 400 = 0)).
Definition month_lengths (leap : bool) : list Z :=
  [31; if leap then 29 else 28; 31; 30; 31; 30; 31; 31; 30; 31; 30; 31].

(** The year and the day of the year of a day since the first of year 1. *)
Definition year_day (d : Z) : Z * Z :=
  let n400 := d / daysPer400Years in
  let d := d - daysPer400Years * n400 in
  let n100 := Z.min 3 (d / daysPer100Years) in
  let d := d - daysPer100Years * n100 in
  let n4 := d / daysPer4Years in
  let d := d - daysPer4Years * n4 in
  let n1 := Z.min 3 (d / 365) in
  (400 * n400 + 100 * n100 + 4 * n4 + n1 + 1, d - 365 * n1).
Fixpoint month_day (lengths : list Z) (month : Z) (yday : Z) : Z * Z :=
  match lengths with
  | [] => (month, yday + 1)
  | l :: ls => if yday <? l then (month, yday + 1) else month_day ls (month + 1) (yday - l)
  end.

Record Civil := {
  year : Z; month : Z; day : Z; hour : Z; minute : Z; second : Z;
}.
Definition civil (t : Time) : Civil :=
  let s := t / 1000000000 in
  let '(y, yday) := year_day (s / secondsPerDay) in
  let '(m, d) := month_day (month_lengths (isLeap y)) 1 yday in
  let r := s mod secondsPerDay in
  {| year := y; month := m; day := d;
     hour := r / 3600; minute := r mod 3600 / 60; second := r mod 60 |}.

(** [t.UTC().Format("20060102150405")] *)
Definition Format14 (t : Time) : string :=
  let c := civil t in
  appendInt (year c) 4 +:+ appendInt (month c) 2 +:+ appendInt (day c) 2 +:+
  appendInt (hour c) 2 +:+ appendInt (minute c) 2 +:+ appendInt (second c) 2.

(** ** backup_common.go *)
(** [fnv.New32a]: the sum after the bytes of [s]. *)
Definition fnv_offset : Z := 2166136261.
Definition fnv_prime : Z := 16777619.
Fixpoint fnv32a (h : Z) (s : string) : Z :=
  match s with
  | EmptyString => h
  | String c s => fnv32a ((Z.lxor h (Z.of_nat (nat_of_ascii c)) * fnv_prime) mod 2 ^ 32) s
  end.
Definition fnvHash (s : string) : string := hex (fnv32a fnv_offset s) 8.

Definition max_name : nat := 63.
Definition boundedName (base suffix : string) : string :=
  if (String.length base + String.length suffix <=? max_name)%nat then base +:+ suffix
  else
    let h := fnvHash base in
    let keep := (max_name - String.length suffix - String.length h - 1)%nat in
    String.substring 0 keep base +:+ "-" +:+ h +:+ suffix.

Example format_zero : Format14 0 = "00010101000000".
Proof. reflexivity. Qed.
(** 2024-02-29 23:59:59, a leap day. *)
Example format_leap_day : Format14 (63844847999 * 1000000000) = "20240229235959".
Proof. vm_compute. reflexivity. Qed.
Example fnv_empty : fnvHash "" = "811c9dc5".
Proof. vm_compute. reflexivity. Qed.
Example fnv_foobar : fnvHash "foobar" = "bf9cf968".
Proof. vm_compute. reflexivity. Qed.

(** ** Digits *)
Definition ten (w : nat) : Z := 10 ^ Z.of_nat w.
Lemma ten_S w : ten (S w) = 10 * ten w.
Proof. unfold ten. rewrite Nat2Z.inj_succ, Z.pow_succ_r; lia. Qed.
Lemma ten_pos w : 0 < ten w.
Proof. unfold ten. apply Z.pow_pos_nonneg; lia. Qed.

Lemma digits_value_app acc a b : digits_value acc (a +:+ b) = digits_value (digits_value acc a) b.
Proof.
  revert acc; induction a as [|c a IH]; intros acc; [done|].
  change (digits_value (acc * 10 + (Z.of_nat (nat_of_ascii c) - 48)) (a +:+ b) =
          digits_value (digits_value acc (String c a)) b). by rewrite IH.
Qed.
Lemma digit_spec n :
  0 <= n < 10 -> is_digit (digit n) = true /\ Z.of_nat (nat_of_ascii (digit n)) - 48 = n.
Proof.
  intros Hn. rewrite <-(Z2Nat.id n) by lia. assert (Hk : (Z.to_nat n < 10)%nat) by lia.
  generalize dependent (Z.to_nat n). intros k Hk. do 10 (destruct k as [|k]; [done|]). lia.
Qed.

(** A number that fits is printed with exactly [w] digits and reads back. *)
Lemma appendInt_spec n w acc :
  0 <= n < ten w ->
  String.length (appendInt n w) = w /\ all_chars is_digit (appendInt n w) = true /\
  digits_value acc (appendInt n w) = acc * ten w + n.
Proof.
  revert n; induction w as [|w IH]; intros n Hn.
  - change (ten 0) with 1 in *. assert (n = 0) as -> by lia. simpl. split_and!; [done|done|lia].
  - rewrite ten_S in *. cbn [appendInt].
    assert (Hm : 0 <= n mod 10 < 10) by (apply Z.mod_pos_bound; lia).
    pose proof (Z.div_mod n 10) as Hdm.
    destruct (IH (n / 10)) as (Hl & Hd & Hv); [split; [apply Z.div_pos; lia|apply Z.div_lt_upper_bound; lia]|].
    destruct (digit_spec (n mod 10) Hm) as [Hdig Hval].
    rewrite length_app_string, all_chars_app, digits_value_app, Hl, Hd, Hv. cbn [String.length digits_value all_chars andb].
    rewrite Hdig, Hval. split_and!; [lia|done|lia].
Qed.

Lemma digits_value_bounds s acc :
  all_chars is_digit s = true ->
  acc * ten (String.length s) <= digits_value acc s < (acc + 1) * ten (String.length s).
Proof.
  revert acc; induction s as [|c s IH]; intros acc Hs.
  - simpl. change (ten 0) with 1. lia.
  - cbn [all_chars String.length digits_value] in *. apply andb_true_iff in Hs as [Hc Hs].
    unfold is_digit in Hc. apply andb_true_iff in Hc as [H48 H57].
    apply Nat.leb_le in H48, H57. specialize (IH (acc * 10 + (Z.of_nat (nat_of_ascii c) - 48)) Hs).
    rewrite ten_S. pose proof (ten_pos (String.length s)). nia.
Qed.

(** Byte-wise order of digit strings of one length is the order of their values. *)
Lemma digits_order acc a b :
  String.length a = String.length b -> all_chars is_digit a = true -> all_chars is_digit b = true ->
  digits_value acc a < digits_value acc b -> string_ltb a b = true.
Proof.
  revert acc b; induction a as [|c a IH]; intros acc [|d b] Hl Ha Hb Hlt; try done; [simpl in Hlt; lia|].
  cbn [all_chars String.length digits_value] in *. apply andb_true_iff in Ha as [Hc Ha], Hb as [Hd Hb].
  injection Hl as Hl. unfold string_ltb, String.ltb. cbn [String.compare].
  destruct (Ascii.compare c d) eqn:Hcmp; [|done|].
  - apply Ascii.compare_eq_iff in Hcmp as <-. by eapply IH.
  - exfalso. unfold Ascii.compare in Hcmp. rewrite N.compare_gt_iff in Hcmp.
    assert (nat_of_ascii d < nat_of_ascii c)%nat by (unfold nat_of_ascii; lia).
    pose proof (digits_value_bounds a (acc * 10 + (Z.of_nat (nat_of_ascii c) - 48)) Ha).
    pose proof (digits_value_bounds b (acc * 10 + (Z.of_nat (nat_of_ascii d) - 48)) Hb).
    pose proof (ten_pos (String.length b)). rewrite Hl in *. nia.
Qed.

(** ** Dates are ordered like the instants they name *)
Definition days_before (y : Z) : Z := let p := y - 1 in 365 * p + p / 4 - p / 100 + p / 400.

Lemma year_day_spec d :
  0 <= d -> let '(y, yd) := year_day d in
  1 <= y /\ d = days_before y + yd /\ 0 <= yd < 365 + (if isLeap y then 1 else 0).
Proof.
  intros Hd. unfold year_day, daysPer400Years, daysPer100Years, daysPer4Years.
  change (365 * 400 + 97) with 146097. change (365 * 100 + 24) with 36524.
  change (365 * 4 + 1) with 1461.
  set (a := d / 146097). set (d1 := d - 146097 * a).
  assert (H1 : 0 <= d1 < 146097 /\ 0 <= a) by (unfold d1, a; Z.to_euclidean_division_equations; lia).
  set (b := Z.min 3 (d1 / 36524)). set (d2 := d1 - 36524 * b).
  assert (H2 : 0 <= b <= 3 /\ 0 <= d2 /\ (b < 3 -> d2 < 36524) /\ d2 <= 36524)
    by (unfold d2, b; Z.to_euclidean_division_equations; lia).
  set (c := d2 / 1461). set (d3 := d2 - 1461 * c).
  assert (H3 : 0 <= c <= 24 /\ 0 <= d3 < 1461 /\ (c = 24 -> b < 3 -> d3 < 1460))
    by (unfold d3, c; Z.to_euclidean_division_equations; lia).
  set (e := Z.min 3 (d3 / 365)).
  assert (H4 : 0 <= e <= 3 /\ 0 <= d3 - 365 * e /\ d3 - 365 * e <= 365 /\ (e < 3 -> d3 - 365 * e < 365))
    by (unfold e; Z.to_euclidean_division_equations; lia).
  assert (Hd' : d = 146097 * a + 36524 * b + 1461 * c + 365 * e + (d3 - 365 * e)) by (unfold d3, d2, d1; lia).
  clearbody a b c e. generalize dependent (d3 - 365 * e). intros yd H4 Hd'.
  assert (H5 : c = 24 -> b < 3 -> e = 3 -> yd < 365) by lia.
  assert (Hr : 0 <= a /\ 0 <= b <= 3 /\ 0 <= c <= 24) by lia. clear H1 H2 H3 d1 d2 d3.
  assert (Hp : (400 * a + 100 * b + 4 * c + e + 1 - 1) = 400 * a + 100 * b + 4 * c + e) by lia.
  unfold days_before. rewrite Hp.
  assert (Hq4 : (400 * a + 100 * b + 4 * c + e) / 4 = 100 * a + 25 * b + c)
    by (Z.to_euclidean_division_equations; lia).
  assert (Hq100 : (400 * a + 100 * b + 4 * c + e) / 100 = 4 * a + b)
    by (Z.to_euclidean_division_equations; lia).
  assert (Hq400 : (400 * a + 100 * b + 4 * c + e) / 400 = a)
    by (Z.to_euclidean_division_equations; lia).
  rewrite Hq4, Hq100, Hq400. split; [lia|]. split; [lia|]. split; [lia|].
  assert (yd < 365 \/ (yd = 365 /\ e = 3)) as [?|[-> ->]] by lia; [destruct (isLeap _); lia|].
  unfold isLeap. replace (400 * a + 100 * b + 4 * c + 3 + 1) with ((100 * a + 25 * b + c + 1) * 4) by lia.
  rewrite bool_decide_true by (apply Z.mod_mul; lia). simpl.
  case_bool_decide as H100; [|simpl; lia]. simpl.
  rewrite bool_decide_true; [lia|]. assert (c = 24) as -> by (Z.to_euclidean_division_equations; lia).
  assert (b = 3) as -> by lia. replace ((100 * a + 25 * 3 + 24 + 1) * 4) with ((a + 1) * 400) by lia.
  apply Z.mod_mul. lia.
Qed.

Lemma days_before_step y : 1 <= y -> days_before (y + 1) = days_before y + 365 + (if isLeap y then 1 else 0).
Proof.
  intros Hy. unfold days_before, isLeap. replace (y + 1 - 1) with (y - 1 + 1) by lia.
  set (p := y - 1). replace y with (p + 1) by lia. assert (0 <= p) by lia. clearbody p.
  repeat case_bool_decide; simpl; Z.to_euclidean_division_equations; lia.
Qed.
Lemma days_before_mono y y' : 1 <= y -> y < y' -> days_before (y + 1) <= days_before y'.
Proof. unfold days_before. intros. Z.to_euclidean_division_equations; lia. Qed.

Definition lex (a b : Z * Z) : Prop := a.1 < b.1 \/ a.1 = b.1 /\ a.2 < b.2.
Lemma month_day_ge ls m d : 0 <= d -> m <= (month_day ls m d).1 /\ 1 <= (month_day ls m d).2.
Proof.
  revert m d; induction ls as [|l ls IH]; intros m d Hd; simpl; [lia|].
  destruct (Z.ltb_spec d l); simpl; [lia|]. assert (H0 : 0 <= d - l \/ d - l < 0) by lia.
  destruct (IH (m + 1) (d - l)); lia.
Qed.
(** Later days of one year are in a later month, or later in the same month. *)
Lemma month_day_mono ls m d d' :
  0 <= d -> d < d' -> lex (month_day ls m d) (month_day ls m d').
Proof.
  revert m d d'; induction ls as [|l ls IH]; intros m d d' Hd Hlt; simpl.
  - right. simpl. lia.
  - destruct (Z.ltb_spec d l), (Z.ltb_spec d' l); [right; simpl; lia| |lia|apply IH; lia].
    left. simpl. pose proof (month_day_ge ls (m + 1) (d' - l)). lia.
Qed.
Lemma month_day_bounds y d :
  0 <= d < 365 + (if isLeap y then 1 else 0) ->
  let r := month_day (month_lengths (isLeap y)) 1 d in 1 <= r.1 <= 12 /\ 1 <= r.2 <= 31.
Proof.
  intros Hd. destruct (isLeap y); unfold month_lengths;
    repeat (cbn [month_day]; match goal with |- context [Z.ltb ?a ?b] => destruct (Z.ltb_spec a b) end;
            [simpl; lia|]); lia.
Qed.

(** The number the 14 digits spell. *)
Definition spelled (c : Civil) : Z :=
  ((((year c * 100 + month c) * 100 + day c) * 100 + hour c) * 100 + minute c) * 100 + second c.
Definition well_formed (c : Civil) : Prop :=
  1 <= year c /\ 1 <= month c <= 12 /\ 1 <= day c <= 31 /\ 0 <= hour c < 24 /\
  0 <= minute c < 60 /\ 0 <= second c < 60.

Lemma civil_well_formed t : 0 <= t -> well_formed (civil t).
Proof.
  intros Ht. unfold civil. set (s := t / 1000000000). assert (0 <= s) by (apply Z.div_pos; lia).
  pose proof (year_day_spec (s / secondsPerDay)) as Hy. destruct (year_day _) as [y yd].
  destruct Hy as (H1 & _ & Hyd); [apply Z.div_pos; [done|]; unfold secondsPerDay; lia|].
  pose proof (month_day_bounds y yd Hyd) as Hm. destruct (month_day _ 1 yd) as [m d]. simpl in Hm.
  unfold well_formed. simpl. unfold secondsPerDay. Z.to_euclidean_division_equations; lia.
Qed.

Lemma civil_mono t t' :
  0 <= t -> t / 1000000000 < t' / 1000000000 -> spelled (civil t) < spelled (civil t').
Proof.
  intros Ht Hlt. assert (Ht' : 0 <= t') by (Z.to_euclidean_division_equations; lia).
  pose proof (civil_well_formed t Ht) as Hw. pose proof (civil_well_formed t' Ht') as Hw'.
  unfold civil in *. set (s := t / 1000000000) in *. set (s' := t' / 1000000000) in *.
  assert (0 <= s) by (apply Z.div_pos; lia). clearbody s s'.
  set (q := s / secondsPerDay) in *. set (q' := s' / secondsPerDay) in *.
  assert (Hq : 0 <= q /\ (q < q' \/ q = q' /\ s mod secondsPerDay < s' mod secondsPerDay))
    by (unfold q, q', secondsPerDay; Z.to_euclidean_division_equations; lia).
  set (r := s mod secondsPerDay) in *. set (r' := s' mod secondsPerDay) in *.
  assert (Hr : 0 <= r /\ 0 <= r') by (unfold r, r', secondsPerDay; Z.to_euclidean_division_equations; lia).
  clearbody q q' r r'. pose proof (year_day_spec q) as Hy. pose proof (year_day_spec q') as Hy'.
  destruct (decide (q = q')) as [<-|Hne].
  - destruct (year_day q) as [y yd]. destruct (month_day _ 1 yd) as [m d].
    unfold well_formed, spelled in *. simpl in *. Z.to_euclidean_division_equations; lia.
  - destruct (year_day q) as [y yd], (year_day q') as [y' yd'].
    destruct Hy as (Hy1 & Hyq & Hyb); [lia|]. destruct Hy' as (Hy1' & Hyq' & Hyb'); [lia|].
    assert (Hyy : y < y' \/ y = y' /\ yd < yd').
    { destruct (Z.lt_trichotomy y y') as [?|[->|Hgt]]; [by left|right; lia|].
      pose proof (days_before_mono y' y Hy1' Hgt). pose proof (days_before_step y' Hy1'). lia. }
    destruct Hyy as [Hyy|[<- Hdd]].
    + destruct (month_day _ 1 yd) as [m d], (month_day _ 1 yd') as [m' d'].
      unfold well_formed, spelled in *. simpl in *. lia.
    + pose proof (month_day_mono (month_lengths (isLeap y)) 1 yd yd') as Hm.
      destruct (month_day _ 1 yd) as [m d], (month_day _ 1 yd') as [m' d'].
      destruct Hm as [Hm|Hm]; [lia|lia| |]; unfold well_formed, spelled in *; simpl in *; lia.
Qed.

Lemma Format14_spec t :
  0 <= t -> year (civil t) <= 9999 ->
  String.length (Format14 t) = 14%nat /\ all_chars is_digit (Format14 t) = true /\
  digits_value 0 (Format14 t) = spelled (civil t).
Proof.
  intros Ht Hy. pose proof (civil_well_formed t Ht) as (H1 & H2 & H3 & H4 & H5 & H6).
  unfold Format14, spelled.
  assert (Ht2 : ten 2 = 100) by done. assert (Ht4 : ten 4 = 10000) by done.
  destruct (appendInt_spec (year (civil t)) 4 0) as (L1 & D1 & V1); [lia|].
  destruct (appendInt_spec (month (civil t)) 2 (year (civil t))) as (L2 & D2 & V2); [lia|].
  destruct (appendInt_spec (day (civil t)) 2 (year (civil t) * 100 + month (civil t)))
    as (L3 & D3 & V3); [lia|].
  destruct (appendInt_spec (hour (civil t)) 2
    ((year (civil t) * 100 + month (civil t)) * 100 + day (civil t))) as (L4 & D4 & V4); [lia|].
  destruct (appendInt_spec (minute (civil t)) 2
    (((year (civil t) * 100 + month (civil t)) * 100 + day (civil t)) * 100 + hour (civil t)))
    as (L5 & D5 & V5); [lia|].
  destruct (appendInt_spec (second (civil t)) 2
    ((((year (civil t) * 100 + month (civil t)) * 100 + day (civil t)) * 100 + hour (civil t)) * 100 +
     minute (civil t))) as (L6 & D6 & V6); [lia|].
  rewrite Ht2 in *. rewrite !length_app_string, !all_chars_app, !digits_value_app.
  rewrite L1, L2, L3, L4, L5, L6, D1, D2, D3, D4, D5, D6, V1, Z.mul_0_l, Z.add_0_l, V2, V3, V4, V5, V6.
  done.
Qed.

Lemma string_ltb_app p a b : string_ltb (p +:+ a) (p +:+ b) = string_ltb a b.
Proof.
  induction p as [|c p IH]; [done|].
  change (string_ltb (String c (p +:+ a)) (String c (p +:+ b)) = string_ltb a b).
  unfold string_ltb, String.ltb in *. cbn [String.compare].
  assert (Ascii.compare c c = Eq) as -> by (unfold Ascii.compare; apply N.compare_refl). done.
Qed.

Lemma length_substring n s : String.length (String.substring 0 n s) = Nat.min n (String.length s).
Proof.
  revert s; induction n as [|n IH]; intros [|c s]; try done. cbn [String.substring String.length].
  by rewrite IH.
Qed.
Lemma length_hex n w : String.length (hex n w) = w.
Proof.
  revert n; induction w as [|w IH]; intros n; [done|]. cbn [hex].
  rewrite length_app_string, IH. simpl. lia.
Qed.
Lemma boundedName_suffix base suffix :
  exists pre, boundedName base suffix = pre +:+ suffix /\
    (forall s, String.length s = String.length suffix -> boundedName base s = pre +:+ s).
Proof.
  unfold boundedName. destruct (_ <=? _)%nat eqn:Hc.
  - exists base. split; [done|]. intros s ->. by rewrite Hc.
  - eexists (String.substring 0 _ base +:+ "-" +:+ fnvHash base). split.
    + by rewrite !string_app_assoc.
    + intros s ->. rewrite Hc. by rewrite !string_app_assoc.
Qed.

(** A bounded name is the base and the suffix when they fit into 63 bytes;
    otherwise it ends with the suffix, and it is exactly 63 bytes long unless the
    suffix leaves no room for the 8 digits of the hash and their dash. *)
Theorem boundedName_length base suffix :
  HasSuffix (boundedName base suffix) suffix = true /\
  String.length (boundedName base suffix) =
    (if String.length base + String.length suffix <=? 63
     then String.length base + String.length suffix
     else Nat.max 63 (String.length suffix + 9))%nat.
Proof.
  split.
  - destruct (boundedName_suffix base suffix) as (pre & -> & _). apply HasSuffix_app.
  - unfold boundedName, max_name. destruct (Nat.leb_spec (String.length base + String.length suffix) 63).
    + apply length_app_string.
    + unfold fnvHash. rewrite !length_app_string, length_substring, length_hex. simpl. lia.
Qed.

Lemma spelled_year c c' :
  well_formed c -> well_formed c' -> spelled c < spelled c' -> year c <= year c'.
Proof. unfold well_formed, spelled. lia. Qed.
Lemma stamp_order base a a' :
  String.length a = String.length a' -> all_chars is_digit a = true -> all_chars is_digit a' = true ->
  digits_value 0 a < digits_value 0 a' ->
  string_ltb (boundedName base ("-" +:+ a)) (boundedName base ("-" +:+ a')) = true.
Proof.
  intros Hl Hd Hd' Hv. destruct (boundedName_suffix base ("-" +:+ a)) as (pre & -> & Hpre).
  rewrite Hpre by (rewrite !length_app_string, Hl; done). rewrite string_ltb_app, string_ltb_app.
  by apply (digits_order 0).
Qed.

Lemma stamp_names_lt base t t' :
  0 <= t -> t / 1000000000 < t' / 1000000000 -> year (civil t') <= 9999 ->
  string_ltb (boundedName base ("-" +:+ Format14 t)) (boundedName base ("-" +:+ Format14 t')) = true.
Proof.
  intros Ht Hlt Hy'. assert (Ht' : 0 <= t') by (Z.to_euclidean_division_equations; lia).
  pose proof (civil_mono t t' Ht Hlt) as Hs.
  assert (Hy : year (civil t) <= 9999).
  { etrans; [apply (spelled_year _ _ (civil_well_formed t Ht) (civil_well_formed t' Ht') Hs)|done]. }
  destruct (Format14_spec t Ht Hy) as (Hl & Hd & Hv), (Format14_spec t' Ht' Hy') as (Hl' & Hd' & Hv').
  apply stamp_order; [by rewrite Hl, Hl'|exact Hd|exact Hd'|by rewrite Hv, Hv'].
Qed.
Lemma string_ltb_irrefl a : string_ltb a a = false.
Proof.
  induction a as [|c a IH]; [done|]. unfold string_ltb, String.ltb in *. cbn [String.compare].
  assert (Ascii.compare c c = Eq) as -> by (unfold Ascii.compare; apply N.compare_refl). done.
Qed.

(** Names that differ only in their time stamp are ordered, byte by byte, like
    the seconds of their times, up to the year 9999: successive runs of one
    schedule get distinct names in the order of the runs. *)
Theorem stamped_names_ordered base t t' :
  0 <= t -> t / 1000000000 < t' / 1000000000 -> year (civil t') <= 9999 ->
  string_ltb (boundedName base ("-" +:+ Format14 t)) (boundedName base ("-" +:+ Format14 t')) = true.
Proof. apply stamp_names_lt. Qed.
Lemma stamped_names_ordered_witness :
  let t := 63844847999 * 1000000000 in
  boundedName "prod-nightly" ("-" +:+ Format14 t) = "prod-nightly-20240229235959" /\
  string_ltb (boundedName "prod-nightly" ("-" +:+ Format14 t))
    (boundedName "prod-nightly" ("-" +:+ Format14 (t + 1000000000))) = true.
Proof.
  intros t. split; [by vm_compute|].
  apply (stamped_names_ordered "prod-nightly" t (t + 1000000000)); by vm_compute.
Defined.
