(* ===== verification/BackupScheduler.v ===== *)
(** * The backup scheduler (backup_scheduler.go)

    Every tick evaluates the cron schedules of every cluster, creates the backups
    that are due and prunes old ones.  The anchors - the first time a schedule
    without history was seen - are the state a tick is given and returns.  The
    cron library is a parameter: [ParseStandard] and [Next]. *)
From S2P Require Import Prelude Prog CoreTypes ApiTypes Effects Machinery Sim Trace Calendar.
From S2P Require Import IamSpec.
Local Open Scope Z_scope.

(** [robfig/cron]: [Next] of an expression no date
    matches is the zero time. *)
Class Cron := {
  CronSchedule : Type;
  ParseStandard : string -> result CronSchedule;
  Next : CronSchedule -> Time -> Time;
}.
(** [sort.Slice]: a permutation, sorted when "not less" is a total preorder; not
    stable. *)
Class SliceSort := {
  sort_slice {A} : (A -> A -> bool) -> list A -> list A;
  sort_slice_perm {A} (less : A -> A -> bool) l : sort_slice less l ≡ₚ l;
  sort_slice_sorted {A} (less : A -> A -> bool) l :
    (forall x y z, less y x = false -> less z y = false -> less z x = false) ->
    (forall x y, less x y = false \/ less y x = false) ->
    StronglySorted (fun x y => less y x = false) (sort_slice less l);
}.

Definition backupSchedulerInterval : Z := 30 * Second.

Section scheduler.
Context `{Cron} `{SliceSort}.

(** ** Anchors *)
Abbreviation Anchors := (gmap string Time).
Definition anchorFor (anchors : Anchors) (key : string) (now : Time) : Anchors * Time :=
  match anchors !! key with
  | Some t => (anchors, t)
  | None => (<[key := now]> anchors, now)
  end.
Definition clearAnchor (anchors : Anchors) (key : string) : Anchors := delete key anchors.

Definition mostRecentCreation (backups : list SeaweedBackup) : Time :=
  foldl (fun latest b => let t := CreationTimestamp (bk_Meta b) in
                         if latest <? t then t else latest) 0 backups.

(** ** Creating *)
Definition schedule_labels (m : Seaweed) (schedule : string) : gmap string string :=
  <[LabelBackupSchedule := schedule]> {[ LabelBackupCluster := Name (sw_Meta m) ]}.
Definition listScheduleBackups (m : Seaweed) (schedule : string)
    : op (result (list SeaweedBackup)) :=
  kube (KList KBackup (Some (Namespace (sw_Meta m))) (schedule_labels m schedule)).
Definition scheduled_backup (m : Seaweed) (sched : BackupScheduleSpec) (fireTime : Time)
    : SeaweedBackup := {|
  bk_Meta := {| Name := boundedName (Name (sw_Meta m) +:+ "-" +:+ sched_Name sched)
                          ("-" +:+ Format14 fireTime);
                Namespace := Namespace (sw_Meta m); Generation := 0; CreationTimestamp := 0;
                DeletionTimestamp := None; Labels := schedule_labels m (sched_Name sched);
                Annotations := ∅; Finalizers := []; OwnerReferences := []; UID := "" |};
  bk_Spec := {| bkspec_ClusterName := Name (sw_Meta m);
                bkspec_StorageName := sched_StorageName sched;
                bkspec_FilerPath := sched_FilerPath sched |};
  bk_Status := {| bkst_ObservedGeneration := 0; bkst_Phase := ""; bkst_JobName := "";
                  bkst_Destination := ""; bkst_StartTime := None; bkst_CompletionTime := None;
                  bkst_Conditions := [] |} |}.
Definition createScheduledBackup (m : Seaweed) (sched : BackupScheduleSpec) (fireTime : Time)
    : op (option error) :=
  check kube (KCreate KBackup (scheduled_backup m sched fireTime))
  catch err => (if IsAlreadyExists err then Ret None else Ret (Some err));
  Ret None.

(** ** Pruning *)
Definition newer (a b : SeaweedBackup) : bool :=
  CreationTimestamp (bk_Meta b) <? CreationTimestamp (bk_Meta a).
Definition terminal (b : SeaweedBackup) : bool :=
  bool_decide (bkst_Phase (bk_Status b) = BackupPhaseCompleted) ||
  bool_decide (bkst_Phase (bk_Status b) = BackupPhaseFailed).
(** The loop, with its counter of terminal backups. *)
Fixpoint prune_loop (keep : Z) (count : Z) (backups : list SeaweedBackup) : op (option error) :=
  match backups with
  | [] => Ret None
  | b :: rest =>
      if negb (terminal b) then prune_loop keep count rest
      else
        let count := int32 (count + 1) in
        if count <=? keep then prune_loop keep count rest
        else
          do r <- kube (KDelete KBackup b);
          match r with
          | Some err => if negb (IsNotFound err) then Ret (Some err)
                        else prune_loop keep count rest
          | None => prune_loop keep count rest
          end
  end.
Definition pruneBackups (backups : list SeaweedBackup) (keep : Z) : op (option error) :=
  if keep <=? 0 then Ret None else prune_loop keep 0 (sort_slice newer backups).

(** ** A schedule and a tick *)
Definition anchor_key (m : Seaweed) (sched : BackupScheduleSpec) : string :=
  Namespace (sw_Meta m) +:+ "/" +:+ Name (sw_Meta m) +:+ "/" +:+ sched_Name sched.
Definition reconcileSchedule (anchors : Anchors) (m : Seaweed) (sched : BackupScheduleSpec)
    (now : Time) : op (Anchors * option error) :=
  match ParseStandard (sched_Schedule sched) with
  | inl err => Ret (anchors, Some (ErrOther ("invalid cron " +:+ fmt_q (sched_Schedule sched) +:+
                                              ": " +:+ error_string err)))
  | inr cronSched =>
      try existing <- listScheduleBackups m (sched_Name sched)
        catch err => Ret (anchors, Some err);
      let key := anchor_key m sched in
      let lastRun := mostRecentCreation existing in
      let '(anchors, lastRun) :=
        if IsZero lastRun then anchorFor anchors key now else (clearAnchor anchors key, lastRun) in
      if negb (now <? Next cronSched lastRun) then
        check createScheduledBackup m sched now catch err => Ret (anchors, Some err);
        do r <- pruneBackups existing (sched_Keep sched);
        Ret (clearAnchor anchors key, r)
      else
        do r <- pruneBackups existing (sched_Keep sched);
        Ret (anchors, r)
  end.

(** The two loops of [tick]; the error of one schedule is only logged. *)
Fixpoint schedules_loop (anchors : Anchors) (m : Seaweed) (l : list BackupScheduleSpec) (now : Time)
    : op Anchors :=
  match l with
  | [] => Ret anchors
  | sched :: l =>
      if sched_Suspend sched then schedules_loop anchors m l now
      else do r <- reconcileSchedule anchors m sched now;
           schedules_loop r.1 m l now
  end.
Fixpoint clusters_loop (anchors : Anchors) (l : list Seaweed) (now : Time) : op Anchors :=
  match l with
  | [] => Ret anchors
  | m :: l =>
      match sw_Backup (sw_Spec m) with
      | None => clusters_loop anchors l now
      | Some backup =>
          do anchors <- schedules_loop anchors m (bkp_Schedule backup) now;
          clusters_loop anchors l now
      end
  end.
Definition tick (anchors : Anchors) (now : Time) : op (Anchors * option error) :=
  try clusters <- kube (KList KSeaweed None ∅) catch err => Ret (anchors, Some err);
  do anchors <- clusters_loop anchors clusters now;
  Ret (anchors, None).

(** ** Pruning keeps the newest *)
Definition delete_event (ev : event) (b : SeaweedBackup) : Prop :=
  exists r, ev = Ev (OKube (KDelete KBackup b)) r /\
    match r with None => True | Some e => IsNotFound e = true end.

Lemma prune_loop_exec keep count l tr tr' :
  0 <= count -> count + Z.of_nat (length l) <= MaxInt32 ->
  exec trace_env (prune_loop keep count l) tr tr' None ->
  exists dels, tr' = tr ++ dels /\
    Forall2 delete_event dels (drop (Z.to_nat (keep - count)) (List.filter terminal l)).
Proof.
  revert count tr; induction l as [|b l IH]; intros count tr Hc Hmax.
  - intros [-> _]. exists []. rewrite app_nil_r. split; [done|]. simpl. rewrite drop_nil. constructor.
  - cbn [length] in Hmax. cbn [prune_loop List.filter]. destruct (terminal b); cbn [negb];
      [|apply IH; lia].
    rewrite int32_small by (unfold MaxInt32 in *; lia). destruct (Z.leb_spec (count + 1) keep) as [Hk|Hk].
    + intros Hx. destruct (IH (count + 1) tr) as (dels & -> & Hd); [lia|lia|done|].
      exists dels. split; [done|]. replace (Z.to_nat (keep - count)) with (S (Z.to_nat (keep - (count + 1)))) by lia.
      done.
    + intros (r & tr1 & -> & Hx). cbn [bind] in Hx.
      replace (Z.to_nat (keep - count)) with O by lia.
      assert (Hrest : exec trace_env (prune_loop keep (count + 1) l)
                 (tr ++ [Ev (OKube (KDelete KBackup b)) r]) tr' None /\
               match r with None => True | Some e => IsNotFound e = true end).
      { destruct r as [e|]; [|done]. destruct (IsNotFound e) eqn:He; cbn [negb] in Hx; [done|].
        by destruct Hx as [_ ?]. }
      destruct Hrest as [Hr Hok]. apply IH in Hr as (dels & -> & Hd); [|lia|lia].
      exists (Ev (OKube (KDelete KBackup b)) r :: dels). rewrite <-app_assoc. split; [done|].
      replace (Z.to_nat (keep - (count + 1))) with O in Hd by lia.
      constructor; [by exists r|done].
Qed.

Lemma newer_preorder :
  (forall x y z, newer y x = false -> newer z y = false -> newer z x = false) /\
  (forall x y, newer x y = false \/ newer y x = false).
Proof.
  split; unfold newer; intros; repeat match goal with H : Z.ltb _ _ = false |- _ => apply Z.ltb_ge in H end.
  - apply Z.ltb_ge. lia.
  - destruct (Z.le_gt_cases (CreationTimestamp (bk_Meta x)) (CreationTimestamp (bk_Meta y)));
      [left|right]; apply Z.ltb_ge; lia.
Qed.

Lemma filter_Permutation_bool {A} (f : A -> bool) l l' :
  l ≡ₚ l' -> List.filter f l ≡ₚ List.filter f l'.
Proof.
  induction 1 as [|x l l' _ IH|x y l|l l' l'' _ IH1 _ IH2]; simpl; [done| | |by etrans].
  - destruct (f x); by rewrite IH.
  - destruct (f x), (f y); constructor || done; done.
Qed.
Lemma filter_sorted {A} (R : A -> A -> Prop) (f : A -> bool) l :
  StronglySorted R l -> StronglySorted R (List.filter f l).
Proof.
  induction 1 as [|a l Hl IH Ha]; simpl; [constructor|]. destruct (f a); [|done].
  constructor; [done|]. rewrite List.Forall_forall in *. intros x [Hx _]%filter_In. auto.
Qed.
Lemma sorted_split {A} (R : A -> A -> Prop) n (l : list A) a b :
  StronglySorted R l -> a ∈ take n l -> b ∈ drop n l -> R a b.
Proof.
  intros Hl. revert n; induction Hl as [|c l _ IH Hc]; intros [|n] Ha Hb; simpl in *;
    [by apply elem_of_nil in Ha..|].
  apply elem_of_cons in Ha as [->|Ha]; [|by eapply IH].
  rewrite Forall_forall in Hc. apply Hc. rewrite <-(take_drop n l), elem_of_app. by right.
Qed.

(** Pruning without an error keeps the [keep] newest finished backups of a
    schedule - all of them when there are fewer - and deletes every other
    finished one, each once; backups that are still running are neither deleted
    nor counted. *)
Theorem prune_keeps_newest backups keep tr :
  0 < keep -> Z.of_nat (length backups) <= MaxInt32 ->
  exec trace_env (pruneBackups backups keep) [] tr None ->
  exists kept pruned,
    List.filter terminal backups ≡ₚ kept ++ pruned /\
    length kept = Nat.min (Z.to_nat keep) (length (List.filter terminal backups)) /\
    (forall k p, k ∈ kept -> p ∈ pruned ->
       CreationTimestamp (bk_Meta p) <= CreationTimestamp (bk_Meta k)) /\
    Forall2 delete_event tr pruned.
Proof.
  intros Hk Hmax. unfold pruneBackups. destruct (Z.leb_spec keep 0); [lia|].
  intros Hx. pose proof (sort_slice_perm newer backups) as Hp.
  assert (Hf : List.filter terminal (sort_slice newer backups) ≡ₚ List.filter terminal backups).
  { by apply filter_Permutation_bool. }
  apply prune_loop_exec in Hx as (dels & -> & Hd); [|done|by rewrite Hp].
  rewrite Z.sub_0_r in Hd. set (l := List.filter terminal _) in Hf, Hd.
  exists (take (Z.to_nat keep) l), (drop (Z.to_nat keep) l). split_and!.
  - by rewrite take_drop.
  - by rewrite length_take, Hf.
  - intros a b Ha Hb. assert (Hs : StronglySorted (fun x y => newer y x = false) l).
    { apply filter_sorted, sort_slice_sorted; apply newer_preorder. }
    pose proof (sorted_split _ _ _ _ _ Hs Ha Hb) as Hn. unfold newer in Hn. apply Z.ltb_ge in Hn. lia.
  - done.
Qed.

(** ** A schedule fires when it is due *)
Lemma prune_only_deletes backups keep tr tr' r :
  exec trace_env (pruneBackups backups keep) tr tr' r ->
  exists dels, tr' = tr ++ dels /\ Forall (fun ev => exists b x, ev = Ev (OKube (KDelete KBackup b)) x) dels.
Proof.
  assert (Hnil : forall t : trace, exists dels, t = t ++ dels /\
    Forall (fun ev => exists b x, ev = Ev (OKube (KDelete KBackup b)) x) dels).
  { intros t. exists []. by rewrite app_nil_r. }
  unfold pruneBackups. destruct (keep <=? 0); [intros [-> _]; apply Hnil|].
  generalize 0. revert tr. induction (sort_slice newer backups) as [|b l IH]; intros tr count.
  - intros [-> _]. apply Hnil.
  - cbn [prune_loop]. destruct (negb (terminal b)); [apply IH|].
    destruct (int32 (count + 1) <=? keep); [apply IH|]. intros (x & tr1 & -> & Hx). cbn [bind] in Hx.
    assert (Hrest : tr' = tr ++ [Ev (OKube (KDelete KBackup b)) x] \/
      exec trace_env (prune_loop keep (int32 (count + 1)) l) (tr ++ [Ev (OKube (KDelete KBackup b)) x]) tr' r).
    { destruct x as [e|]; [|by right]. destruct (negb (IsNotFound e)); [|by right].
      destruct Hx as [-> _]. by left. }
    destruct Hrest as [->|Hr].
    + eexists. split; [done|]. constructor; [by eexists _, _|constructor].
    + apply IH in Hr as (dels & -> & Hd). exists (Ev (OKube (KDelete KBackup b)) x :: dels).
      split; [by rewrite <-app_assoc|]. constructor; [by eexists _, _|done].
Qed.

(** Also a pass that ends with an error only deletes backups that a newer one outlives. *)
Definition prunes (backups : list SeaweedBackup) (dels : trace) : Prop :=
  exists kept pruned, backups ≡ₚ kept ++ pruned /\
    (forall p, p ∈ pruned -> exists k, k ∈ kept /\ CreationTimestamp (bk_Meta p) <= CreationTimestamp (bk_Meta k)) /\
    Forall (fun ev => exists p x, p ∈ pruned /\ ev = Ev (OKube (KDelete KBackup p)) x) dels.
Lemma prunes_nothing backups : prunes backups [].
Proof. exists backups, []. rewrite app_nil_r. split_and!; [done| |done]. by intros p ?%elem_of_nil. Qed.
Lemma prune_loop_deletes keep count l tr tr' r :
  0 <= count -> count + Z.of_nat (length l) <= MaxInt32 ->
  exec trace_env (prune_loop keep count l) tr tr' r ->
  exists dels, tr' = tr ++ dels /\
    Forall (fun ev => exists p x, p ∈ drop (Z.to_nat (keep - count)) (List.filter terminal l) /\
                                  ev = Ev (OKube (KDelete KBackup p)) x) dels.
Proof.
  revert count tr; induction l as [|b l IH]; intros count tr Hc Hmax.
  - intros [-> _]. exists []. by rewrite app_nil_r.
  - cbn [length] in Hmax. cbn [prune_loop List.filter]. destruct (terminal b); cbn [negb]; [|apply IH; lia].
    rewrite int32_small by (unfold MaxInt32 in *; lia). destruct (Z.leb_spec (count + 1) keep) as [Hk|Hk].
    + intros Hx. destruct (IH (count + 1) tr) as (dels & -> & Hd); [lia|lia|done|].
      exists dels. split; [done|]. by replace (Z.to_nat (keep - count)) with (S (Z.to_nat (keep - (count + 1)))) by lia.
    + intros (x & tr1 & -> & Hx). cbn [bind] in Hx. replace (Z.to_nat (keep - count)) with O by lia.
      set (ev := Ev (OKube (KDelete KBackup b)) x) in *.
      assert (Hrest : tr' = tr ++ [ev] \/ exec trace_env (prune_loop keep (count + 1) l) (tr ++ [ev]) tr' r).
      { destruct x as [e|]; [|by right]. destruct (negb (IsNotFound e)); [|by right].
        destruct Hx as [-> _]. by left. }
      assert (Hev : exists p x, p ∈ b :: List.filter terminal l /\ ev = Ev (OKube (KDelete KBackup p)) x).
      { exists b, x. split; [by left|done]. }
      destruct Hrest as [->|Hr].
      * exists [ev]. split; [done|]. by constructor.
      * apply IH in Hr as (dels & -> & Hd); [|lia|lia]. exists (ev :: dels). rewrite <-app_assoc. split; [done|].
        constructor; [done|]. replace (Z.to_nat (keep - (count + 1))) with O in Hd by lia.
        eapply Forall_impl; [exact Hd|]. intros ? (p & y & Hp & ->). exists p, y. split; [by right|done].
Qed.
Lemma prune_deletes_old backups keep tr tr' r :
  Z.of_nat (length backups) <= MaxInt32 -> exec trace_env (pruneBackups backups keep) tr tr' r ->
  exists dels, tr' = tr ++ dels /\ prunes backups dels.
Proof.
  intros Hmax. unfold pruneBackups. destruct (Z.leb_spec keep 0) as [Hk|Hk].
  { intros [-> _]. exists []. rewrite app_nil_r. split; [done|apply prunes_nothing]. }
  pose proof (sort_slice_perm newer backups) as Hp. intros Hx.
  apply prune_loop_deletes in Hx as (dels & -> & Hd); [|done|by rewrite Hp]. exists dels. split; [done|].
  rewrite Z.sub_0_r in Hd. set (l := sort_slice newer backups) in *. set (n := Z.to_nat keep) in *.
  exists (List.filter (fun b => negb (terminal b)) l ++ take n (List.filter terminal l)), (drop n (List.filter terminal l)).
  split_and!; [|intros p Hin|done].
  - rewrite <-app_assoc, take_drop, <-Hp. fold l. clear. induction l as [|b l IH]; [done|]. cbn [List.filter].
    destruct (terminal b); cbn [negb app]; [|by rewrite <-IH]. by rewrite <-Permutation_middle, <-IH.
  - assert (Hs : StronglySorted (fun x y => newer y x = false) (List.filter terminal l)).
    { apply filter_sorted, sort_slice_sorted; apply newer_preorder. }
    destruct (List.filter terminal l) as [|k rest] eqn:E; [by rewrite drop_nil in Hin; apply elem_of_nil in Hin|].
    assert (Hkin : k ∈ take n (k :: rest)) by (destruct n eqn:?; [lia|by left]).
    exists k. split; [apply elem_of_app; by right|].
    pose proof (sorted_split _ _ _ _ _ Hs Hkin Hin) as Hn. unfold newer in Hn. apply Z.ltb_ge in Hn. lia.
Qed.

Lemma prune_pass backups keep tr tr' r :
  exec trace_env (pruneBackups backups keep) tr tr' r ->
  exists dels, tr' = tr ++ dels /\ Forall (fun ev => exists b x, ev = Ev (OKube (KDelete KBackup b)) x) dels /\
    (Z.of_nat (length backups) <= MaxInt32 -> prunes backups dels).
Proof.
  intros Hx. destruct (prune_only_deletes _ _ _ _ _ Hx) as (dels & -> & Hd). exists dels. split_and!; [done..|].
  intros Hmax. by destruct (prune_deletes_old _ _ _ _ _ Hmax Hx) as (dels' & ->%app_inv_head & Hp).
Qed.

(** What a schedule counts from: its newest backup, or the time it was first seen. *)
Definition last_run (anchors : Anchors) (m : Seaweed) (sched : BackupScheduleSpec)
    (existing : list SeaweedBackup) (now : Time) : Time :=
  if IsZero (mostRecentCreation existing) then default now (anchors !! anchor_key m sched)
  else mostRecentCreation existing.
Definition create_ok (r : option error) : bool :=
  match r with None => true | Some e => IsAlreadyExists e end.

Lemma schedule_trace anchors m sched now cronSched tr anchors' err :
  ParseStandard (sched_Schedule sched) = Ok cronSched ->
  exec trace_env (reconcileSchedule anchors m sched now) [] tr (anchors', err) ->
  exists listed, let listing := Ev (OKube (KList KBackup (Some (Namespace (sw_Meta m)))
                                            (schedule_labels m (sched_Name sched)))) listed in
  match listed with
  | inl e => tr = [listing] /\ anchors' = anchors /\ err = Some e
  | inr existing =>
      let last := last_run anchors m sched existing now in
      exists dels, Forall (fun ev => exists b x, ev = Ev (OKube (KDelete KBackup b)) x) dels /\
      (Z.of_nat (length existing) <= MaxInt32 -> prunes existing dels) /\
      if Next cronSched last <=? now then
        exists created,
          tr = [listing; Ev (OKube (KCreate KBackup (scheduled_backup m sched now))) created] ++ dels /\
          (create_ok created = true -> anchors' = delete (anchor_key m sched) anchors) /\
          (create_ok created = false -> err = created /\ dels = [])
      else
        tr = [listing] ++ dels /\
        anchors' = if IsZero (mostRecentCreation existing)
                   then <[anchor_key m sched := last]> anchors
                   else delete (anchor_key m sched) anchors
  end.
Proof.
  intros Hparse. unfold reconcileSchedule. rewrite Hparse. intros (listed & tr1 & -> & Hx).
  exists listed. destruct listed as [e|existing]; [by destruct Hx as [-> [= -> ->]]|].
  cbn [bind] in Hx. unfold last_run.
  set (a := if IsZero (mostRecentCreation existing) then _ else _) in Hx.
  set (last := if IsZero (mostRecentCreation existing) then default _ _ else _).
  assert (Ha : a = (if IsZero (mostRecentCreation existing)
                    then <[anchor_key m sched := last]> anchors
                    else delete (anchor_key m sched) anchors, last)).
  { unfold a, last, anchorFor. destruct (IsZero _); [|done].
    destruct (anchors !! anchor_key m sched) as [t|] eqn:Hk; simpl; [|done]. by rewrite insert_id. }
  rewrite Ha in Hx. clear Ha a. replace (now <? Next cronSched last) with (negb (Next cronSched last <=? now)) in Hx
    by (rewrite Z.leb_antisym; by destruct (now <? _)).
  rewrite negb_involutive in Hx. destruct (Next cronSched last <=? now).
  - destruct Hx as (created & tr1 & -> & Hx).
    assert (Hclear : delete (anchor_key m sched)
        (if IsZero (mostRecentCreation existing) then <[anchor_key m sched := last]> anchors
         else delete (anchor_key m sched) anchors) = delete (anchor_key m sched) anchors).
    { destruct (IsZero _); [by rewrite delete_insert_eq|by rewrite delete_delete_eq]. }
    destruct (create_ok created) eqn:Hok.
    + assert (Hp : exec trace_env (do r <- pruneBackups existing (sched_Keep sched);
          Ret (delete (anchor_key m sched) anchors, r))
          ([] ++ [Ev (OKube (KList KBackup (Some (Namespace (sw_Meta m)))
                       (schedule_labels m (sched_Name sched)))) (Ok existing)] ++
           [Ev (OKube (KCreate KBackup (scheduled_backup m sched now))) created]) tr (anchors', err)).
      { destruct created as [e|]; cbn [bind call kube] in Hx.
        - unfold create_ok in Hok. rewrite Hok in Hx. cbn [bind] in Hx. unfold clearAnchor in Hx.
          rewrite Hclear in Hx. exact Hx.
        - unfold clearAnchor in Hx. rewrite Hclear in Hx. exact Hx. }
      apply exec_bind in Hp as (r & tr2 & Hp & [-> [= -> ->]]).
      apply prune_pass in Hp as (dels & -> & Hd & Hp). exists dels. split_and!; [done..|].
      exists created. split_and!; [done|done|by rewrite Hok].
    + destruct created as [e|]; [|done]. cbn [bind call kube] in Hx. unfold create_ok in Hok.
      rewrite Hok in Hx. destruct Hx as [-> [= -> ->]]. exists []. split_and!; [done|intros _; apply prunes_nothing|].
      exists (Some e). split_and!; [done|by unfold create_ok; rewrite Hok|done].
  - apply exec_bind in Hx as (r & tr2 & Hp & [-> [= -> ->]]).
    apply prune_pass in Hp as (dels & -> & Hd & Hp). exists dels. by split_and!.
Qed.

(** A schedule with a valid cron expression lists its backups and then creates
    one - the one its cluster, its settings and the time determine - exactly when
    the first date of the expression after its last run has come; everything else
    it does is deleting backups that a newer one outlives.  The last run is the newest of its backups or,
    without any, the time remembered from the first tick that saw the schedule; it
    is remembered until a backup has been created or one is found. *)
Theorem schedule_fires_iff_due anchors m sched now cronSched tr anchors' err :
  ParseStandard (sched_Schedule sched) = Ok cronSched ->
  exec trace_env (reconcileSchedule anchors m sched now) [] tr (anchors', err) ->
  exists listed, let listing := Ev (OKube (KList KBackup (Some (Namespace (sw_Meta m)))
                                            (schedule_labels m (sched_Name sched)))) listed in
  match listed with
  | inl e => tr = [listing] /\ anchors' = anchors /\ err = Some e
  | inr existing =>
      let last := last_run anchors m sched existing now in
      exists dels, Forall (fun ev => exists b x, ev = Ev (OKube (KDelete KBackup b)) x) dels /\
      (Z.of_nat (length existing) <= MaxInt32 -> prunes existing dels) /\
      if Next cronSched last <=? now then
        exists created,
          tr = [listing; Ev (OKube (KCreate KBackup (scheduled_backup m sched now))) created] ++ dels /\
          (create_ok created = true -> anchors' = delete (anchor_key m sched) anchors) /\
          (create_ok created = false -> err = created /\ dels = [])
      else
        tr = [listing] ++ dels /\
        anchors' = if IsZero (mostRecentCreation existing)
                   then <[anchor_key m sched := last]> anchors
                   else delete (anchor_key m sched) anchors
  end.
Proof. apply schedule_trace. Qed.

(** ** A tick serves every schedule *)
(** The schedules a tick evaluates, in order. *)
Definition active (clusters : list Seaweed) : list (Seaweed * BackupScheduleSpec) :=
  flat_map (fun m => match sw_Backup (sw_Spec m) with
                     | None => []
                     | Some b => map (pair m) (List.filter (fun x => negb (sched_Suspend x)) (bkp_Schedule b))
                     end) clusters.
(** One execution of [reconcileSchedule] after the other, with their traces. *)
Fixpoint one_by_one (now : Time) (anchors : Anchors) (l : list (Seaweed * BackupScheduleSpec))
    (trs : list trace) (anchors' : Anchors) : Prop :=
  match l, trs with
  | [], [] => anchors' = anchors
  | x :: l, tr :: trs => exists mid err,
      exec trace_env (reconcileSchedule anchors x.1 x.2 now) [] tr (mid, err) /\
      one_by_one now mid l trs anchors'
  | _, _ => False
  end.

Lemma one_by_one_app now anchors l l' trs trs' mid anchors' :
  one_by_one now anchors l trs mid -> one_by_one now mid l' trs' anchors' ->
  one_by_one now anchors (l ++ l') (trs ++ trs') anchors'.
Proof.
  revert anchors trs; induction l as [|x l IH]; intros anchors [|tr trs]; simpl; try done.
  - by intros ->.
  - intros (a & err & Hx & Hl) Hl'. eauto.
Qed.
Lemma exec_from {A} (p : op A) tr tr' a :
  exec trace_env p tr tr' a -> exists new, tr' = tr ++ new /\ exec trace_env p [] new a.
Proof.
  assert (Hgen : forall pre, exec trace_env p tr tr' a -> forall tr0, tr = pre ++ tr0 ->
    exists new, tr' = pre ++ new /\ exec trace_env p tr0 new a).
  { intros pre. revert tr. induction p as [b|X e k IH]; intros tr.
    - intros [-> ->] tr0 ->. by exists tr0.
    - intros (x & tr1 & -> & Hx) tr0 ->. rewrite <-app_assoc in Hx.
      destruct (IH x _ Hx (tr0 ++ [Ev e x]) eq_refl) as (new & -> & Hn).
      exists new. split; [done|]. by eexists _, _. }
  intros Hx. destruct (Hgen tr Hx []) as (new & -> & Hn); [by rewrite app_nil_r|]. by exists new.
Qed.
Lemma schedules_loop_exec anchors m l now tr tr' anchors' :
  exec trace_env (schedules_loop anchors m l now) tr tr' anchors' ->
  exists trs, tr' = tr ++ concat trs /\
    one_by_one now anchors (map (pair m) (List.filter (fun x => negb (sched_Suspend x)) l)) trs anchors'.
Proof.
  revert anchors tr; induction l as [|x l IH]; intros anchors tr; cbn [schedules_loop List.filter].
  - intros [-> ->]. exists []. by rewrite app_nil_r.
  - destruct (sched_Suspend x); cbn [negb]; [apply IH|].
    intros ([mid err] & tr1 & (new & -> & Hx)%exec_from & (trs & -> & Hl)%IH)%exec_bind.
    exists (new :: trs). split; [by rewrite <-app_assoc|]. by exists mid, err.
Qed.

(** A tick that can list the clusters evaluates every schedule that is not
    suspended, of every cluster, in order, each starting from the anchors the one
    before left; an error in one does not keep the others from being evaluated. *)
Theorem tick_serves_every_schedule anchors now tr anchors' err :
  exec trace_env (tick anchors now) [] tr (anchors', err) ->
  match err with
  | Some e => tr = [Ev (OKube (KList KSeaweed None ∅)) (Err e)] /\ anchors' = anchors
  | None => exists clusters trs,
      tr = Ev (OKube (KList KSeaweed None ∅)) (Ok clusters) :: concat trs /\
      one_by_one now anchors (active clusters) trs anchors'
  end.
Proof.
  intros (listed & tr1 & -> & Hx). destruct listed as [e|clusters]; [by destruct Hx as [-> [= -> ->]]|].
  cbn [bind] in Hx. apply exec_bind in Hx as (a & tr1 & Hx & [-> [= -> ->]]).
  enough (exists trs, tr1 = ([] ++ [Ev (OKube (KList KSeaweed None ∅)) (Ok clusters)]) ++ concat trs /\
    one_by_one now anchors (active clusters) trs a) as (trs & -> & Hl) by by exists clusters, trs.
  revert anchors Hx. generalize ([] ++ [Ev (OKube (KList KSeaweed None ∅)) (Ok clusters)] : trace).
  induction clusters as [|m l IH]; intros tr anchors; cbn [clusters_loop].
  - intros [-> ->]. exists []. by rewrite app_nil_r.
  - unfold active. cbn [flat_map]. destruct (sw_Backup _) as [b|]; [|apply IH].
    intros (mid & tr2 & (trs & -> & H1)%schedules_loop_exec & (trs' & -> & H2)%IH)%exec_bind.
    exists (trs ++ trs'). rewrite concat_app, app_assoc. split; [done|]. by eapply one_by_one_app.
Qed.

(** ** An expression no date matches *)
(** A cron expression that no date matches - the library answers the zero time,
    as for February 30 - is due at every tick: whenever the backups can be listed,
    a backup is created, and at later seconds under ever new names. *)
Theorem impossible_cron_floods anchors m sched now cronSched tr anchors' err :
  ParseStandard (sched_Schedule sched) = Ok cronSched ->
  (forall t, Next cronSched t = 0) -> 0 <= now ->
  exec trace_env (reconcileSchedule anchors m sched now) [] tr (anchors', err) ->
  (exists e, tr = [Ev (OKube (KList KBackup (Some (Namespace (sw_Meta m)))
                                (schedule_labels m (sched_Name sched)))) (Err e)]) \/
  (exists created, Ev (OKube (KCreate KBackup (scheduled_backup m sched now))) created ∈ tr) /\
  (forall earlier, 0 <= earlier -> earlier / 1000000000 < now / 1000000000 ->
     year (civil now) <= 9999 ->
     Name (bk_Meta (scheduled_backup m sched earlier)) <> Name (bk_Meta (scheduled_backup m sched now))).
Proof.
  intros Hparse Hnext Hnow Hx.
  destruct (schedule_trace anchors m sched now cronSched tr anchors' err Hparse Hx) as ([e|existing] & Hl).
  { destruct Hl as (-> & _). left. by exists e. }
  right. split.
  - destruct Hl as (dels & _ & _ & Hl). rewrite Hnext in Hl. destruct (Z.leb_spec 0 now); [|lia].
    destruct Hl as (created & -> & _). exists created. set_solver.
  - intros earlier He Hlt Hy Heq. simpl in Heq.
    pose proof (stamp_names_lt (Name (sw_Meta m) +:+ "-" +:+ sched_Name sched) earlier now He Hlt Hy) as Hn.
    rewrite Heq in Hn. by rewrite string_ltb_irrefl in Hn.
Qed.
End scheduler.

(** ** Sample runs *)
Definition not_less {A} (less : A -> A -> bool) : relation A := fun a b => less b a = false.
#[local] Instance not_less_dec {A} (less : A -> A -> bool) : RelDecision (not_less less).
Proof. intros a b. unfold not_less. apply _. Defined.
#[local] Instance sample_sort : SliceSort.
Proof.
  refine {| sort_slice A less l := merge_sort (not_less less) l |}.
  - intros A less l. apply merge_sort_Permutation.
  - intros A less l Htrans Htot. apply Sorted_StronglySorted.
    + intros x y z. apply Htrans.
    + assert (Total (not_less less)) by (intros x y; destruct (Htot y x); [by left|by right]).
      by apply Sorted_merge_sort.
Defined.

Definition one_day : Z := 86400 * Second.
(** Midnight, and an expression for a date that does not exist. *)
#[local] Instance sample_cron : Cron := {|
  CronSchedule := bool;
  ParseStandard s := if bool_decide (s = "0 0 * * *") then Ok true
                     else if bool_decide (s = "0 0 30 2 *") then Ok false
                     else Err (ErrOther "expected exactly 5 fields");
  Next daily t := if daily : bool then (t / one_day + 1) * one_day else 0;
|}.
Definition midnight : CronSchedule := true.
Definition february_30 : CronSchedule := false.
Definition sample_schedule (name cron : string) (keep : Z) : BackupScheduleSpec := {|
  sched_Name := name; sched_Schedule := cron; sched_StorageName := "s3"; sched_Keep := keep;
  sched_FilerPath := "/"; sched_Suspend := false |}.
Definition backed_up (name : string) (schedules : list BackupScheduleSpec) : Seaweed := {|
  sw_Meta := sample_meta "ns" name 1;
  sw_Spec := minimal_spec 1 None (Some {| bkp_Image := None; bkp_Storages := ∅; bkp_Schedule := schedules;
                                                 bkp_DataMirror := [] |}); sw_Status := no_status |}.

(** The API server stamps what it stores, and the backups complete at once. *)
Definition stamped (now : Time) (b : SeaweedBackup) : SeaweedBackup := {|
  bk_Meta := {| Name := Name (bk_Meta b); Namespace := Namespace (bk_Meta b); Generation := 1;
                CreationTimestamp := now; DeletionTimestamp := None; Labels := Labels (bk_Meta b);
                Annotations := ∅; Finalizers := []; OwnerReferences := []; UID := "" |};
  bk_Spec := bk_Spec b;
  bk_Status := {| bkst_ObservedGeneration := 1; bkst_Phase := BackupPhaseCompleted;
                  bkst_JobName := ""; bkst_Destination := ""; bkst_StartTime := Some now;
                  bkst_CompletionTime := Some now; bkst_Conditions := [] |} |}.
Definition stamping (now : Time) : Handler opE Sim := fun X e s =>
  match e in opE X return Sim * X with
  | OKube e' =>
      match e' in kubeE X return Sim * X with
      | KCreate k o =>
          match k return Obj k -> Sim * option error with
          | KBackup => fun o => sim_kube (KCreate KBackup (stamped now o)) s
          | k' => fun o => sim_kube (KCreate k' o) s
          end o
      | e'' => sim_kube e'' s
      end
  | e' => sim _ e' s
  end.
Definition ticks (times : list Time) (s : Sim) : Sim :=
  (foldl (fun st now => let r := run (stamping now) (tick st.2 now) st.1 in (r.1, r.2.1))
     (s, ∅) times).1.
Definition backups_of (s : Sim) (cluster : string) : list string :=
  map (fun b : SeaweedBackup => Name (bk_Meta b))
    (List.filter (fun b : SeaweedBackup => bool_decide (bkspec_ClusterName (bk_Spec b) = cluster))
       (sim_objs s KBackup)).
Definition jan1 : Time := 63871286400 * Second.

(** Two clusters of one namespace whose cluster and schedule names join to the
    same string fire in the same tick: the backup of the second is taken for the
    one of the first that already exists, and its schedule never runs. *)
Theorem colliding_schedule_never_runs :
  let s := set_objs KSeaweed [backed_up "a-b" [sample_schedule "c" "0 0 * * *" 0];
                              backed_up "a" [sample_schedule "b-c" "0 0 * * *" 0]] sim_empty in
  let s' := ticks (map (fun n => jan1 + Z.of_nat n * (one_day / 4)) (seq 0 13)) s in
  backups_of s' "a-b" = ["a-b-c-20250102000000"; "a-b-c-20250103000000"; "a-b-c-20250104000000"] /\
  backups_of s' "a" = [].
Proof. intros s s'. by split; vm_compute. Qed.

Lemma prune_keeps_newest_witness :
  let b n := stamped n (scheduled_backup (backed_up "a" []) (sample_schedule "s" "" 1) n) in
  let tr := (run (tracing sim) (pruneBackups [b 1; b 3; b 2] 1) (sim_empty, [])).1.2 in
  exists kept pruned,
    List.filter terminal [b 1; b 3; b 2] ≡ₚ kept ++ pruned /\ length kept = 1%nat /\
    Forall2 delete_event tr pruned /\ length tr = 2%nat.
Proof.
  intros b tr. destruct (prune_keeps_newest [b 1; b 3; b 2] 1 tr) as (kept & pruned & Hp & Hl & _ & Hd).
  - done.
  - by vm_compute.
  - exact (run_tracing sim (pruneBackups [b 1; b 3; b 2] 1) sim_empty []).
  - exists kept, pruned. split_and!; [done|exact Hl|done|by vm_compute].
Defined.

Definition creates (tr : trace) : nat :=
  length (List.filter (fun ev => match ev_call ev with OKube (KCreate _ _) => true | _ => false end) tr).
Lemma schedule_fires_iff_due_witness :
  let m := backed_up "a" [] in
  let sched := sample_schedule "s" "0 0 * * *" 0 in
  let anchors := {["ns/a/s" := jan1]} in
  let now := jan1 + one_day in
  let x := run (tracing sim) (reconcileSchedule anchors m sched now) (sim_empty, []) in
  creates x.1.2 = 1%nat /\ x.2 = (∅, None) /\
  exists listed, let listing := Ev (OKube (KList KBackup (Some (Namespace (sw_Meta m)))
                                            (schedule_labels m (sched_Name sched)))) listed in
  match listed with
  | inl e => x.1.2 = [listing] /\ x.2.1 = anchors /\ x.2.2 = Some e
  | inr existing =>
      let last := last_run anchors m sched existing now in
      exists dels, Forall (fun ev => exists b x, ev = Ev (OKube (KDelete KBackup b)) x) dels /\
      (Z.of_nat (length existing) <= MaxInt32 -> prunes existing dels) /\
      if Next midnight last <=? now then
        exists created,
          x.1.2 = [listing; Ev (OKube (KCreate KBackup (scheduled_backup m sched now))) created] ++ dels /\
          (create_ok created = true -> x.2.1 = delete (anchor_key m sched) anchors) /\
          (create_ok created = false -> x.2.2 = created /\ dels = [])
      else
        x.1.2 = [listing] ++ dels /\
        x.2.1 = if IsZero (mostRecentCreation existing)
                then <[anchor_key m sched := last]> anchors
                else delete (anchor_key m sched) anchors
  end.
Proof.
  intros m sched anchors now x. split; [by vm_compute|]. split; [by vm_compute|].
  apply (schedule_fires_iff_due anchors m sched now midnight x.1.2 x.2.1 x.2.2); [done|].
  exact (run_tracing sim (reconcileSchedule anchors m sched now) sim_empty []).
Defined.

Lemma tick_serves_every_schedule_witness :
  let s := set_objs KSeaweed [backed_up "a" [sample_schedule "s" "0 0 * * *" 0]; backed_up "b" []] sim_empty in
  let x := run (tracing sim) (tick ∅ jan1) (s, []) in
  x.2 = ({["ns/a/s" := jan1]}, None) /\
  exists clusters trs,
    x.1.2 = Ev (OKube (KList KSeaweed None ∅)) (Ok clusters) :: concat trs /\
    one_by_one jan1 ∅ (active clusters) trs x.2.1.
Proof.
  intros s x. split; [by vm_compute|].
  exact (tick_serves_every_schedule ∅ jan1 x.1.2 x.2.1 None (run_tracing sim (tick ∅ jan1) s [])).
Defined.

Lemma impossible_cron_floods_witness :
  let m := backed_up "a" [] in
  let sched := sample_schedule "s" "0 0 30 2 *" 0 in
  let x := run (tracing sim) (reconcileSchedule ∅ m sched jan1) (sim_empty, []) in
  creates x.1.2 = 1%nat /\
  ((exists e, x.1.2 = [Ev (OKube (KList KBackup (Some (Namespace (sw_Meta m)))
                                   (schedule_labels m (sched_Name sched)))) (Err e)]) \/
   (exists created, Ev (OKube (KCreate KBackup (scheduled_backup m sched jan1))) created ∈ x.1.2) /\
   (forall earlier, 0 <= earlier -> earlier / 1000000000 < jan1 / 1000000000 ->
      year (civil jan1) <= 9999 ->
      Name (bk_Meta (scheduled_backup m sched earlier)) <> Name (bk_Meta (scheduled_backup m sched jan1)))).
Proof.
  intros m sched x. split; [by vm_compute|].
  apply (impossible_cron_floods ∅ m sched jan1 february_30 x.1.2 x.2.1 x.2.2); [done|done|done|].
  exact (run_tracing sim (reconcileSchedule ∅ m sched jan1) sim_empty []).
Defined.
