(* ===== verification/SecurityConfig.v ===== *)
(** * The security configuration (controller_tls.go, controller_util.go)

    The Secret with the security.toml every component reads: the rendering of its
    [jwt.*] and [grpc.*] sections, the reading back of the signing keys (from the
    Secret, or from the ConfigMap of older versions), the generation of missing
    keys, the write, and the removal of both objects when nothing needs them.  The
    reading of a key, [extractTOMLKey], is in [Cluster]. *)
From Stdlib Require Import Ascii.
From S2P Require Import Prelude Prog CoreTypes ApiTypes Effects Machinery Sim RefGrant Cluster.
From S2P Require Import Trace.
From S2P Require Import Upsert.

(** ** [base64.StdEncoding.EncodeToString] *)
Definition base64_alphabet : string :=
  "ABCDEFGHIJKLMNOPQRSTUVWXYZabcdefghijklmnopqrstuvwxyz0123456789+/".
Definition base64_char (n : nat) : ascii := default "="%char (String.get n base64_alphabet).
Fixpoint EncodeToString (s : string) : string :=
  match s with
  | EmptyString => ""
  | String a EmptyString =>
      let x := nat_of_ascii a in
      String (base64_char (x / 4)) (String (base64_char ((x mod 4) * 16)) "==")
  | String a (String b EmptyString) =>
      let '(x, y) := (nat_of_ascii a, nat_of_ascii b) in
      String (base64_char (x / 4)) (String (base64_char ((x mod 4) * 16 + y / 16))
        (String (base64_char ((y mod 16) * 4)) "="))
  | String a (String b (String c s)) =>
      let '(x, y, z) := (nat_of_ascii a, nat_of_ascii b, nat_of_ascii c) in
      String (base64_char (x / 4)) (String (base64_char ((x mod 4) * 16 + y / 16))
        (String (base64_char ((y mod 16) * 4 + z / 64)) (String (base64_char (z mod 64))
          (EncodeToString s))))
  end.
Definition randKey : op string :=
  do r <- call (ORandRead 32);
  match r with
  | inl _ => Ret "seaweed-operator-fallback-key"
  | inr b => Ret (EncodeToString b)
  end.

(** ** The [jwt.*] sections *)
Record jwtSigningKeys := {
  volumeWrite : string;
  volumeRead : string;
  filerWrite : string;
  filerRead : string;
}.
Definition no_keys : jwtSigningKeys :=
  {| volumeWrite := ""; volumeRead := ""; filerWrite := ""; filerRead := "" |}.

(** A section; the pointer into the keys is a getter and a setter. *)
Record jwtSection := {
  js_name : string;
  js_field : string;
  js_comment : string;
  js_enabled : JWTSigningSpec -> bool;
  js_expires : JWTExpiresAfterSecondsSpec -> Z;
  js_key : jwtSigningKeys -> string;
  js_set_key : string -> jwtSigningKeys -> jwtSigningKeys;
}.
Definition jwtSections : list jwtSection := [
  {| js_name := "jwt.signing"; js_field := "volumeWrite";
     js_comment := "# the master signs upload tokens; the volume server rejects unsigned writes";
     js_enabled := jwt_VolumeWrite; js_expires := exp_VolumeWrite; js_key := volumeWrite;
     js_set_key k ks := {| volumeWrite := k; volumeRead := volumeRead ks;
                           filerWrite := filerWrite ks; filerRead := filerRead ks |} |};
  {| js_name := "jwt.signing.read"; js_field := "volumeRead";
     js_comment := "# the volume server requires a signed token on reads too";
     js_enabled := jwt_VolumeRead; js_expires := exp_VolumeRead; js_key := volumeRead;
     js_set_key k ks := {| volumeWrite := volumeWrite ks; volumeRead := k;
                           filerWrite := filerWrite ks; filerRead := filerRead ks |} |};
  {| js_name := "jwt.filer_signing"; js_field := "filerWrite";
     js_comment := "# the filer rejects unsigned HTTP writes and unsigned IAM gRPC calls";
     js_enabled := jwt_FilerWrite; js_expires := exp_FilerWrite; js_key := filerWrite;
     js_set_key k ks := {| volumeWrite := volumeWrite ks; volumeRead := volumeRead ks;
                           filerWrite := k; filerRead := filerRead ks |} |};
  {| js_name := "jwt.filer_signing.read"; js_field := "filerRead";
     js_comment := "# the filer rejects unsigned HTTP reads too; the S3 gateway signs its own";
     js_enabled := jwt_FilerRead; js_expires := exp_FilerRead; js_key := filerRead;
     js_set_key k ks := {| volumeWrite := volumeWrite ks; volumeRead := volumeRead ks;
                           filerWrite := filerWrite ks; filerRead := k |} |} ].

Definition no_jwt : JWTSigningSpec := {|
  jwt_VolumeWrite := false; jwt_VolumeRead := false; jwt_FilerWrite := false;
  jwt_FilerRead := false; jwt_ExpiresAfterSeconds := None |}.
Definition jwtSigningConfig (m : Seaweed) : JWTSigningSpec :=
  match sw_SecurityConfig (sw_Spec m) with
  | Some sc => match sec_JWTSigning sc with Some j => j | None => no_jwt end
  | None => no_jwt
  end.
Definition jwtSigningExpiry (cfg : JWTSigningSpec) : JWTExpiresAfterSecondsSpec :=
  match jwt_ExpiresAfterSeconds cfg with
  | Some e => e
  | None => {| exp_VolumeWrite := 0; exp_VolumeRead := 0; exp_FilerWrite := 0; exp_FilerRead := 0 |}
  end.
Definition jwtSigningEnabled (m : Seaweed) : bool :=
  existsb (fun s => js_enabled s (jwtSigningConfig m)) jwtSections.
Definition securityConfigNeeded (m : Seaweed) : bool := tlsEnabled m || jwtSigningEnabled m.

(** ** Rendering *)
Definition tlsMountPath : string := "/etc/sw-tls".
Definition section_text (cfg : JWTSigningSpec) (keys : jwtSigningKeys) (s : jwtSection) : string :=
  if negb (js_enabled s cfg) then ""
  else
    nl +:+ js_comment s +:+ nl +:+ "[" +:+ js_name s +:+ "]" +:+ nl +:+
    "key = " +:+ fmt_q (js_key s keys) +:+ nl +:+
    let seconds := js_expires s (jwtSigningExpiry cfg) in
    if (0 <? seconds)%Z then "expires_after_seconds = " +:+ fmt_d seconds +:+ nl else "".

Definition grpc_pair (component : string) : string :=
  nl +:+ "[grpc." +:+ component +:+ "]" +:+ nl +:+
  "cert = " +:+ dquote +:+ tlsMountPath +:+ "/tls.crt" +:+ dquote +:+ nl +:+
  "key  = " +:+ dquote +:+ tlsMountPath +:+ "/tls.key" +:+ dquote +:+ nl.
Definition grpc_text : string :=
  nl +:+ "# all grpc tls authentications are mutual" +:+ nl +:+ "[grpc]" +:+ nl +:+
  "ca = " +:+ dquote +:+ tlsMountPath +:+ "/ca.crt" +:+ dquote +:+ nl +:+
  grpc_pair "volume" +:+ grpc_pair "master" +:+ grpc_pair "filer" +:+ grpc_pair "admin" +:+
  grpc_pair "worker" +:+ grpc_pair "client".
Definition toml_header : string :=
  "# generated by seaweedfs-operator — do not edit" +:+ nl +:+
  "# this file is read by master, volume server, filer, and admin" +:+ nl.
Definition renderSecurityTOML (cfg : JWTSigningSpec) (keys : jwtSigningKeys) (withTLS : bool) : string :=
  toml_header +:+ concat_strings (map (section_text cfg keys) jwtSections) +:+
  (if negb withTLS then "" else grpc_text).

Definition parseJWTSigningKeys (toml : string) : jwtSigningKeys :=
  foldl (fun keys s => js_set_key s (extractTOMLKey toml (js_name s) "key") keys) no_keys jwtSections.

Section security.
Context `{Owners}.

Definition pruneOwnedSecret (m : Seaweed) (name : string) : op (option error) :=
  pruneOwned (sw_Meta m) KSecret name.
Definition pruneOwnedConfigMap (m : Seaweed) (name : string) : op (option error) :=
  pruneOwned (sw_Meta m) KConfigMap name.

(** ** The Secret *)
Definition security_key (m : Seaweed) : NamespacedName :=
  {| nn_Namespace := Namespace (sw_Meta m); nn_Name := SecurityConfigSecretName m |}.
Definition cm_field (c : ConfigMap) (f : string) : string := default "" (cm_Data c !! f).
Definition existingJWTSigningKeys (m : Seaweed) : op (result (jwtSigningKeys * bool)) :=
  do r <- kube (KGet KSecret (security_key m));
  match r with
  | inr secret => Ret (Ok (parseJWTSigningKeys (secret_field secret "security.toml"), false))
  | inl err =>
      if negb (IsNotFound err) then Ret (Err err)
      else
        do r <- kube (KGet KConfigMap (security_key m));
        match r with
        | inr cm => Ret (Ok (parseJWTSigningKeys (cm_field cm "security.toml"), true))
        | inl err => if IsNotFound err then Ret (Ok (no_keys, false)) else Ret (Err err)
        end
  end.

(** A key for every enabled section that has none. *)
Fixpoint fill_keys (cfg : JWTSigningSpec) (l : list jwtSection) (keys : jwtSigningKeys)
    : op jwtSigningKeys :=
  match l with
  | [] => Ret keys
  | s :: l =>
      if negb (js_enabled s cfg) then fill_keys cfg l keys
      else if bool_decide (js_key s keys = "")
      then do k <- randKey; fill_keys cfg l (js_set_key s k keys)
      else fill_keys cfg l keys
  end.

Definition labelsForCR (m : Seaweed) : gmap string string :=
  <["app.kubernetes.io/managed-by" := "seaweedfs-operator"]>
  (<["app.kubernetes.io/name" := "seaweedfs"]>
   {[ "app.kubernetes.io/instance" := Name (sw_Meta m) ]}).
Definition new_meta (m : Seaweed) (name : string) (labels : gmap string string) : ObjectMeta := {|
  Name := name; Namespace := Namespace (sw_Meta m); Generation := 0; CreationTimestamp := 0%Z;
  DeletionTimestamp := None; Labels := labels; Annotations := ∅; Finalizers := [];
  OwnerReferences := []; UID := "" |}.
Definition deleteLegacySecurityConfigMap (m : Seaweed) (name : string) : op (option error) :=
  check kube (KDelete KConfigMap {| cm_Meta := new_meta m name ∅; cm_Data := ∅ |})
  catch err => Ret (IgnoreNotFound err);
  Ret None.

(** [cert_manager] is the cached result of the probe for its CRDs. *)
Definition tlsEffective (cert_manager : bool) (m : Seaweed) : bool := tlsEnabled m && cert_manager.
Definition ensureSecuritySecret (cert_manager : bool) (m : Seaweed) : op (option error) :=
  try found <- existingJWTSigningKeys m catch err => Ret (Some err);
  let cfg := jwtSigningConfig m in
  do keys <- fill_keys cfg jwtSections found.1;
  let toml := renderSecurityTOML cfg keys (tlsEffective cert_manager m) in
  match SetControllerReference (sw_Meta m) "Seaweed"
          (new_meta m (SecurityConfigSecretName m) (labelsForCR m)) with
  | inl err => Ret (Some err)
  | inr meta =>
      try _ <- CreateOrUpdateSecret {| sec_Meta := meta; sec_Data := {[ "security.toml" := toml ]} |}
        catch err => Ret (Some err);
      if found.2 then deleteLegacySecurityConfigMap m (SecurityConfigSecretName m) else Ret None
  end.
Definition ensureSecurityConfig (cert_manager : bool) (m : Seaweed) : op (option error) :=
  if negb (securityConfigNeeded m) then
    check pruneOwnedSecret m (SecurityConfigSecretName m) catch err => Ret (Some err);
    pruneOwnedConfigMap m (SecurityConfigSecretName m)
  else ensureSecuritySecret cert_manager m.
End security.

(** ** What is rendered is read back *)
(** A character [%q] prints as it is and a line of the file can hold. *)
Definition plain_char (c : ascii) : bool :=
  let n := nat_of_ascii c in
  (32 <=? n) && (n <=? 126) && negb (n =? 34) && negb (n =? 92).
Definition plain_key (k : string) : bool := all_chars plain_char k.

Lemma quote_char_plain c : plain_char c = true -> quote_char c = String c EmptyString.
Proof. by destruct c as [[] [] [] [] [] [] [] []]. Qed.
Lemma quote_chars_plain k : plain_key k = true -> quote_chars k = k.
Proof.
  induction k as [|c k IH]; [done|]. intros [Hc Hk]%andb_true_iff.
  change (quote_char c +:+ quote_chars k = String c k). by rewrite quote_char_plain, IH.
Qed.
Lemma fmt_q_plain k : plain_key k = true -> fmt_q k = dquote +:+ k +:+ dquote.
Proof. intros Hk. unfold fmt_q. by rewrite quote_chars_plain. Qed.

Lemma splitLines_from_line acc l rest :
  has_char "010" l = false -> splitLines_from acc (l +:+ nl +:+ rest) = (acc +:+ l) :: splitLines_from "" rest.
Proof.
  revert acc; induction l as [|c l IH]; intros acc Hl.
  - change (acc :: splitLines_from "" rest = (acc +:+ "") :: splitLines_from "" rest).
    by rewrite string_app_nil.
  - cbn [has_char] in Hl. apply orb_false_iff in Hl as [Hc Hl].
    change (splitLines_from acc (String c (l +:+ nl +:+ rest)) = (acc +:+ String c l) :: splitLines_from "" rest).
    cbn [splitLines_from]. rewrite Hc, IH by done. by rewrite string_app_assoc.
Qed.
Lemma splitLines_line l rest :
  has_char "010" l = false -> splitLines (l +:+ nl +:+ rest) = l :: splitLines rest.
Proof. apply (splitLines_from_line ""). Qed.

(** Trimming keeps a text whose ends are not blank. *)
Lemma trim_toml_left_id c s : toml_space c = false -> trim_toml_left (String c s) = String c s.
Proof. intros Hc. cbn [trim_toml_left]. by rewrite Hc. Qed.
Lemma rev_app_snoc s c t : String.rev_app (s +:+ String c "") t = String c (String.rev_app s t).
Proof. revert t; induction s as [|d s IH]; intros t; [done|]. exact (IH (String d t)). Qed.
Lemma rev_app_last s c : String.rev (s +:+ String c "") = String c (String.rev s).
Proof. apply rev_app_snoc. Qed.
Lemma trimSpace_id c s d :
  toml_space c = false -> toml_space d = false ->
  trimSpace (String c (s +:+ String d "")) = String c (s +:+ String d "").
Proof.
  intros Hc Hd. unfold trimSpace. rewrite trim_toml_left_id by done.
  change (String c (s +:+ String d "")) with ((String c s) +:+ String d "").
  rewrite rev_app_last, trim_toml_left_id by done.
  rewrite <-(string_rev_rev (String c s +:+ String d "")) at 1. by rewrite rev_app_last.
Qed.

Definition key_line (k : string) : string := "key = " +:+ dquote +:+ k +:+ dquote.
Definition expiry_line (seconds : Z) : string := "expires_after_seconds = " +:+ fmt_d seconds.

Lemma quoted_trim k : trimSpace (dquote +:+ k +:+ dquote) = dquote +:+ k +:+ dquote.
Proof. by apply (trimSpace_id "034" k "034"). Qed.
Lemma after_equals k : trimSpace (" = " +:+ dquote +:+ k +:+ dquote) = "= " +:+ dquote +:+ k +:+ dquote.
Proof.
  change (trimSpace (String "=" ((" " +:+ dquote +:+ k) +:+ dquote)) = "= " +:+ dquote +:+ k +:+ dquote).
  by rewrite (trimSpace_id "=" _ "034").
Qed.
Lemma key_line_trim k : trimSpace (key_line k) = key_line k.
Proof.
  change (trimSpace (String "k" (("ey = " +:+ dquote +:+ k) +:+ dquote)) = key_line k).
  by rewrite (trimSpace_id "k" _ "034").
Qed.
Lemma quoted_value k :
  (2 <=? String.length (dquote +:+ k +:+ dquote)) && HasPrefix (dquote +:+ k +:+ dquote) dquote &&
  HasSuffix (dquote +:+ k +:+ dquote) dquote = true /\
  String.substring 1 (String.length (dquote +:+ k +:+ dquote) - 2) (dquote +:+ k +:+ dquote) = k.
Proof.
  assert (Hl : String.length (dquote +:+ k +:+ dquote) = S (S (String.length k))).
  { rewrite !length_app_string. simpl. lia. }
  rewrite Hl. split.
  - rewrite <-string_app_assoc, HasSuffix_app. simpl.
    change (HasPrefix (String "034" (k +:+ dquote)) dquote && true = true). unfold HasPrefix. simpl.
    by destruct (k +:+ dquote).
  - replace (S (S (String.length k)) - 2)%nat with (String.length k) by lia.
    change (String.substring 0 (String.length k) (k +:+ dquote) = k). apply substring_app_l.
Qed.

(** The value of a key line inside its section; outside it is skipped. *)
Lemma toml_line_key section inSection k :
  toml_line section "key" inSection (key_line k) =
  (inSection, if inSection then Some k else None).
Proof.
  unfold toml_line. rewrite key_line_trim.
  rewrite bool_decide_false by (unfold key_line; intros [=]).
  change (HasPrefix (key_line k) "[") with false. cbv iota.
  destruct inSection; [|done]. cbn [negb].
  assert ((String.length (key_line k) <? String.length "key" + 4)%nat = false) as ->.
  { apply Nat.ltb_ge. unfold key_line. rewrite !length_app_string. simpl. lia. }
  change (str_take (String.length "key") (key_line k)) with "key".
  rewrite bool_decide_true by done. cbn [orb negb].
  change (str_drop (String.length "key") (key_line k)) with (" = " +:+ dquote +:+ k +:+ dquote).
  rewrite after_equals.
  assert ((String.length ("= " +:+ dquote +:+ k +:+ dquote) <? 3)%nat = false) as ->.
  { apply Nat.ltb_ge. rewrite !length_app_string. simpl. lia. }
  change (HasPrefix ("= " +:+ dquote +:+ k +:+ dquote) "=") with true. cbn [orb negb].
  change (str_drop 1 ("= " +:+ dquote +:+ k +:+ dquote)) with (" " +:+ dquote +:+ k +:+ dquote).
  change (trimSpace (" " +:+ dquote +:+ k +:+ dquote)) with (trimSpace (dquote +:+ k +:+ dquote)).
  rewrite quoted_trim. destruct (quoted_value k) as [-> ->]. done.
Qed.

Lemma last_char f s :
  s <> "" -> all_chars f s = true -> exists s' d, s = s' +:+ String d "" /\ f d = true.
Proof.
  induction s as [|c s IH]; [done|]. intros _ [Hc Hs]%andb_true_iff.
  destruct s as [|e s]; [by exists "", c|].
  destruct (IH ltac:(done) Hs) as (s' & d & -> & Hd). by exists (String c s'), d.
Qed.
Lemma toml_line_expiry section inSection seconds :
  (0 < seconds)%Z -> toml_line section "key" inSection (expiry_line seconds) = (inSection, None).
Proof.
  intros Hs. destruct (fmt_d_digits seconds) as (_ & Hd & Hne); [lia|].
  destruct (last_char is_digit (fmt_d seconds) Hne Hd) as (s & d & Heq & Hdig).
  assert (Htrim : trimSpace (expiry_line seconds) = expiry_line seconds).
  { unfold expiry_line. rewrite Heq, <-string_app_assoc. apply (trimSpace_id "e"); [done|].
    by destruct d as [[] [] [] [] [] [] [] []]. }
  unfold toml_line. rewrite Htrim. unfold expiry_line.
  rewrite bool_decide_false by (intros [=]). change (HasPrefix (_ +:+ fmt_d seconds) "[") with false.
  cbv iota. destruct inSection; [|done]. cbn [negb].
  change (str_take (String.length "key") (_ +:+ fmt_d seconds)) with "exp". by rewrite orb_true_r.
Qed.

(** ** The lines of the file *)
Definition section_lines (cfg : JWTSigningSpec) (keys : jwtSigningKeys) (s : jwtSection) : list string :=
  if negb (js_enabled s cfg) then []
  else [""; js_comment s; "[" +:+ js_name s +:+ "]"; key_line (js_key s keys)] ++
       (let seconds := js_expires s (jwtSigningExpiry cfg) in
        if (0 <? seconds)%Z then [expiry_line seconds] else []).
Definition grpc_lines : list string := Eval vm_compute in splitLines grpc_text.

Definition plain_keys (cfg : JWTSigningSpec) (keys : jwtSigningKeys) : Prop :=
  Forall (fun s => js_enabled s cfg = true -> plain_key (js_key s keys) = true) jwtSections.

Lemma section_split cfg keys s rest :
  has_char "010" (js_comment s) = false -> has_char "010" (js_name s) = false ->
  (js_enabled s cfg = true -> plain_key (js_key s keys) = true) ->
  splitLines (section_text cfg keys s +:+ rest) = section_lines cfg keys s ++ splitLines rest.
Proof.
  intros Hcom Hname Hk. unfold section_text, section_lines. destruct (js_enabled s cfg); [|done].
  specialize (Hk eq_refl). rewrite fmt_q_plain by done. cbn [negb].
  assert (Hnl : has_char "010" (js_key s keys) = false) by by eapply has_char_none.
  set (seconds := js_expires s (jwtSigningExpiry cfg)).
  transitivity (splitLines ("" +:+ nl +:+ js_comment s +:+ nl +:+ ("[" +:+ js_name s +:+ "]") +:+ nl +:+
    key_line (js_key s keys) +:+ nl +:+
    (if (0 <? seconds)%Z then expiry_line seconds +:+ nl +:+ rest else rest))).
  { f_equal. unfold key_line, expiry_line. cbv zeta. destruct (0 <? seconds)%Z; rewrite !string_app_assoc; done. }
  assert (Hkey : has_char "010" (key_line (js_key s keys)) = false).
  { unfold key_line. by rewrite !has_char_app, Hnl. }
  assert (Hhead : has_char "010" ("[" +:+ js_name s +:+ "]") = false).
  { by rewrite !has_char_app, Hname. }
  rewrite !splitLines_line by done.
  destruct (Z.ltb_spec 0 seconds) as [Hs|_]; [|done]. rewrite splitLines_line; [done|].
  unfold expiry_line. rewrite has_char_app. destruct (fmt_d_digits seconds) as (_ & Hd & _); [lia|].
  by rewrite (has_char_none is_digit _ _ Hd).
Qed.
Lemma sections_split cfg keys l rest :
  Forall (fun s => has_char "010" (js_comment s) = false /\ has_char "010" (js_name s) = false) l ->
  Forall (fun s => js_enabled s cfg = true -> plain_key (js_key s keys) = true) l ->
  splitLines (concat_strings (map (section_text cfg keys) l) +:+ rest) =
  concat (map (section_lines cfg keys) l) ++ splitLines rest.
Proof.
  induction l as [|s l IH]; [done|]. intros [[Hc Hn] Hl]%Forall_cons [Hk Hks]%Forall_cons.
  change (splitLines ((section_text cfg keys s +:+ concat_strings (map (section_text cfg keys) l)) +:+ rest) =
    (section_lines cfg keys s ++ concat (map (section_lines cfg keys) l)) ++ splitLines rest).
  by rewrite string_app_assoc, section_split, IH, app_assoc.
Qed.
Lemma render_split cfg keys tls :
  plain_keys cfg keys ->
  splitLines (renderSecurityTOML cfg keys tls) =
    splitLines toml_header ++ concat (map (section_lines cfg keys) jwtSections) ++
    (if tls then grpc_lines else []).
Proof.
  intros Hk. unfold renderSecurityTOML.
  transitivity (splitLines toml_header ++
    splitLines (concat_strings (map (section_text cfg keys) jwtSections) +:+
                (if negb tls then "" else grpc_text))).
  - unfold toml_header. rewrite !string_app_assoc, !splitLines_line by done. done.
  - f_equal. rewrite sections_split; [|by repeat constructor|done]. f_equal. by destruct tls.
Qed.

(** ** Scanning *)
(** Case analysis on a member of the table. *)
Ltac each_section H :=
  unfold jwtSections in H;
  repeat (apply elem_of_cons in H as [->|H]); try (by apply elem_of_nil in H).
Lemma toml_scan_skip section inSection l ls :
  toml_line section "key" inSection l = (inSection, None) ->
  toml_scan section "key" inSection (l :: ls) = toml_scan section "key" inSection ls.
Proof. intros Hl. cbn [toml_scan]. by rewrite Hl. Qed.

Lemma scan_section cfg keys want s rest :
  want ∈ jwtSections -> s ∈ jwtSections -> js_enabled s cfg = true ->
  toml_scan (js_name want) "key" false (section_lines cfg keys s ++ rest) =
  if decide (js_name want = js_name s) then js_key s keys
  else toml_scan (js_name want) "key" false rest.
Proof.
  intros Hw Hs Hen. unfold section_lines. rewrite Hen. cbn [negb app].
  rewrite toml_scan_skip by (by each_section Hw).
  rewrite toml_scan_skip by (each_section Hw; by each_section Hs).
  assert (Hhead : toml_line (js_name want) "key" false ("[" +:+ js_name s +:+ "]") =
                  (bool_decide (js_name want = js_name s), None)).
  { each_section Hw; by each_section Hs. }
  cbn [toml_scan]. rewrite Hhead, toml_line_key. case_decide as Hd.
  - by rewrite bool_decide_true by done.
  - rewrite bool_decide_false by done.
    destruct (Z.ltb_spec 0 (js_expires s (jwtSigningExpiry cfg))) as [Hp|_]; [|done].
    cbn [app]. rewrite toml_scan_skip; [done|by apply toml_line_expiry].
Qed.

Lemma scan_sections cfg keys want l rest :
  want ∈ jwtSections -> Forall (fun s => s ∈ jwtSections) l -> NoDup (map js_name l) ->
  toml_scan (js_name want) "key" false (concat (map (section_lines cfg keys) l) ++ rest) =
  match List.find (fun s => js_enabled s cfg && bool_decide (js_name want = js_name s)) l with
  | Some s => js_key s keys
  | None => toml_scan (js_name want) "key" false rest
  end.
Proof.
  intros Hw. induction l as [|s l IH]; [done|]. intros [Hs Hl]%Forall_cons [Hnotin Hnd]%NoDup_cons.
  cbn [map concat List.find]. rewrite <-app_assoc. destruct (js_enabled s cfg) eqn:Hen; cbn [andb].
  - rewrite scan_section by done. case_decide as Hd.
    + by rewrite bool_decide_true.
    + rewrite bool_decide_false by done. by apply IH.
  - unfold section_lines at 1. rewrite Hen. by apply IH.
Qed.

Lemma scan_grpc want : want ∈ jwtSections -> toml_scan (js_name want) "key" false grpc_lines = "".
Proof. intros Hw. by each_section Hw. Qed.
Lemma header_scan want rest :
  want ∈ jwtSections ->
  toml_scan (js_name want) "key" false (splitLines toml_header ++ rest) =
  toml_scan (js_name want) "key" false rest.
Proof. intros Hw. by each_section Hw. Qed.

Lemma extract_rendered cfg keys tls s :
  plain_keys cfg keys -> s ∈ jwtSections ->
  extractTOMLKey (renderSecurityTOML cfg keys tls) (js_name s) "key" =
  if js_enabled s cfg then js_key s keys else "".
Proof.
  intros Hk Hs. unfold extractTOMLKey. rewrite bool_decide_false by (unfold renderSecurityTOML; intros [=]).
  rewrite render_split, header_scan by done.
  rewrite scan_sections; [|done|by apply Forall_forall|by apply (bool_decide_unpack _); vm_compute].
  assert (Hrest : toml_scan (js_name s) "key" false (if tls then grpc_lines else []) = "").
  { destruct tls; [by apply scan_grpc|done]. }
  rewrite Hrest. each_section Hs.
  all: unfold jwtSections; cbn [List.find js_enabled js_name js_key].
  all: repeat match goal with |- context [bool_decide (?a = ?b)] =>
         let v := eval vm_compute in (bool_decide (a = b)) in change (bool_decide (a = b)) with v end.
  all: rewrite ?andb_false_r, ?andb_true_r.
  all: match goal with |- context [if ?b then _ else ""] => by destruct b end.
Qed.

Lemma parse_section toml s :
  s ∈ jwtSections -> js_key s (parseJWTSigningKeys toml) = extractTOMLKey toml (js_name s) "key".
Proof. intros Hs. by each_section Hs. Qed.
Lemma key_set s s' k keys :
  s ∈ jwtSections -> s' ∈ jwtSections ->
  js_key s (js_set_key s' k keys) = if decide (js_name s = js_name s') then k else js_key s keys.
Proof. intros Hs Hs'. each_section Hs; by each_section Hs'. Qed.

(** Generated keys are plain and not empty. *)
Lemma get_all_chars f n s c : String.get n s = Some c -> all_chars f s = true -> f c = true.
Proof.
  revert n; induction s as [|d s IH]; intros n; [by destruct n|]. intros Hn [Hd Hs]%andb_true_iff.
  destruct n as [|n]; [by simplify_eq/=|by eapply IH].
Qed.
Lemma base64_char_plain n : plain_char (base64_char n) = true.
Proof.
  unfold base64_char. destruct (String.get n base64_alphabet) as [c|] eqn:Hc; [|done].
  by eapply get_all_chars.
Qed.
Lemma encode_plain s : plain_key (EncodeToString s) = true.
Proof.
  assert (Hgen : forall n t, (String.length t < n)%nat -> plain_key (EncodeToString t) = true).
  { induction n as [|n IH]; [lia|]. intros [|a [|b [|c t]]] Hl; [done|..].
    all: cbn [EncodeToString]; unfold plain_key; cbn [all_chars]; rewrite !base64_char_plain; cbn [andb].
    - done.
    - done.
    - apply IH. simpl in Hl. lia. }
  apply (Hgen (S (String.length s))). lia.
Qed.
Lemma encode_nonempty s : s <> "" -> EncodeToString s <> "".
Proof. destruct s as [|a [|b [|c s]]]; done. Qed.

(** ** The cluster's view of one security configuration

    The Secret and the ConfigMap of [m]; a write may be applied whatever it
    answers, and is applied when it answers without an error. *)
Record SecurityState := {
  ss_secret : option Secret;
  ss_configmap : option ConfigMap;
}.
Definition stored_toml (s : SecurityState) : string :=
  match ss_secret s with
  | Some sec => secret_field sec "security.toml"
  | None => match ss_configmap s with Some c => cm_field c "security.toml" | None => "" end
  end.
Definition stored_key (s : SecurityState) (x : jwtSection) : string :=
  extractTOMLKey (stored_toml s) (js_name x) "key".

Definition write_ok (s s' : SecurityState) (o : Secret) (r : option error) : Prop :=
  s' = {| ss_secret := Some o; ss_configmap := ss_configmap s |} \/ (s' = s /\ r <> None).
Definition security_kube (m : Seaweed) (s s' : SecurityState) {X} (e : kubeE X) : X -> Prop :=
  match e in kubeE X return X -> Prop with
  | KGet k key =>
      match k return result (Obj k) -> Prop with
      | KSecret => fun r => s' = s /\ (key = security_key m ->
          match r with inr o => ss_secret s = Some o /\ obj_key (k:=KSecret) o = key
                  | inl e => IsNotFound e = true -> ss_secret s = None end)
      | KConfigMap => fun r => s' = s /\ (key = security_key m ->
          match r with inr o => ss_configmap s = Some o
                  | inl e => IsNotFound e = true -> ss_configmap s = None end)
      | _ => fun _ => s' = s
      end
  | KCreate k o =>
      match k return Obj k -> option error -> Prop with
      | KSecret => fun o r =>
          if bool_decide (obj_key (k:=KSecret) o = security_key m)
          then match ss_secret s with
               | Some _ => s' = s /\ r <> None
               | None => write_ok s s' o r
               end
          else s' = s
      | _ => fun _ _ => s' = s
      end o
  | KUpdate k o =>
      match k return Obj k -> option error -> Prop with
      | KSecret => fun o r =>
          if bool_decide (obj_key (k:=KSecret) o = security_key m) then write_ok s s' o r else s' = s
      | _ => fun _ _ => s' = s
      end o
  | KDelete k o =>
      match k return Obj k -> option error -> Prop with
      | KConfigMap => fun _ r =>
          s' = {| ss_secret := ss_secret s; ss_configmap := None |} \/ s' = s
      | _ => fun _ _ => s' = s
      end o
  | _ => fun _ => s' = s
  end.
Definition security_env (m : Seaweed) : Env opE SecurityState := fun X e s x s' =>
  match e in opE X return X -> Prop with
  | OKube e => security_kube m s s' e
  | ORandRead n => fun r => s' = s /\ match r with inr b => String.length b = n | inl _ => True end
  | _ => fun _ => s' = s
  end x.

Section keys.
Context (m : Seaweed).
Abbreviation env := (security_env m).
Abbreviation cfg := (jwtSigningConfig m).

Definition keys_of (s : SecurityState) (keys : jwtSigningKeys) : Prop :=
  forall x, x ∈ jwtSections -> js_key x keys = stored_key s x.
(** The keys to write: those stored, and generated ones where there was none. *)
Definition completed (old keys : jwtSigningKeys) : Prop :=
  forall x, x ∈ jwtSections -> js_enabled x cfg = true ->
    if decide (js_key x old = "") then plain_key (js_key x keys) = true /\ js_key x keys <> ""
    else js_key x keys = js_key x old.

Lemma randKey_wp s :
  wp env randKey (fun k s' => s' = s /\ plain_key k = true /\ k <> "") s.
Proof.
  unfold randKey. wx. intros [e|b] s1 [-> Hl]; wx; [done|].
  split; [done|]. split; [apply encode_plain|apply encode_nonempty]. by intros ->.
Qed.
Lemma fill_keys_wp l done' old keys s :
  done' ++ l = jwtSections ->
  (forall x, x ∈ l -> js_key x keys = js_key x old) ->
  (forall x, x ∈ done' -> js_enabled x cfg = true ->
     if decide (js_key x old = "") then plain_key (js_key x keys) = true /\ js_key x keys <> ""
     else js_key x keys = js_key x old) ->
  wp env (fill_keys cfg l keys) (fun keys' s' => s' = s /\ completed old keys') s.
Proof.
  revert done' keys; induction l as [|x l IH]; intros dn keys Hl Hleft Hdn; cbn [fill_keys].
  { rewrite app_nil_r in Hl. subst. wx. split; [done|]. intros y Hy. by apply Hdn. }
  assert (Hx : x ∈ jwtSections) by (rewrite <-Hl; set_solver).
  assert (Hnames : NoDup (map js_name jwtSections)) by by apply (bool_decide_unpack _); vm_compute.
  assert (Hother : forall y, y ∈ dn ++ l -> js_name y <> js_name x).
  { intros y Hy Heq. rewrite <-Hl, map_app in Hnames. cbn [map] in Hnames.
    rewrite NoDup_app, NoDup_cons in Hnames. destruct Hnames as (_ & Hd & Hn & _).
    apply elem_of_app in Hy as [Hy|Hy].
    - eapply (Hd (js_name y)); [by apply list_elem_of_fmap_2|rewrite Heq; set_solver].
    - apply Hn. rewrite <-Heq. by apply list_elem_of_fmap_2. }
  assert (Hrec : forall keys', js_enabled x cfg = false \/
      (if decide (js_key x old = "") then plain_key (js_key x keys') = true /\ js_key x keys' <> ""
       else js_key x keys' = js_key x old) ->
      (forall y, y ∈ dn ++ l -> js_key y keys' = js_key y keys) ->
      wp env (fill_keys cfg l keys') (fun keys' s' => s' = s /\ completed old keys') s).
  { intros keys' Hk' Hsame. apply (IH (dn ++ [x])).
    - by rewrite <-app_assoc.
    - intros y Hy. rewrite Hsame by set_solver. apply Hleft. set_solver.
    - intros y [Hy|Hy%list_elem_of_singleton]%elem_of_app Hen.
      + rewrite Hsame by set_solver. by apply Hdn.
      + subst. destruct Hk' as [?|?]; [congruence|done]. }
  destruct (js_enabled x cfg) eqn:Hen; cbn [negb]; [|apply Hrec; auto].
  assert (Hkx : js_key x keys = js_key x old) by (apply Hleft; set_solver).
  case_bool_decide as Hempty.
  - eapply wp_seq; [apply randKey_wp|]. intros k s1 (-> & Hp & Hne). apply Hrec.
    + right. rewrite Hkx in Hempty. rewrite decide_True by done. rewrite key_set, decide_True by done. done.
    + intros y Hy. rewrite key_set, decide_False; [done|by apply Hother| |done].
      rewrite <-Hl. set_solver.
  - apply Hrec; [|done]. right. rewrite decide_False by congruence. done.
Qed.
End keys.

Section stable.
Context `{OwnersLaws} (m : Seaweed) (cert_manager : bool).
Abbreviation env := (security_env m).
Abbreviation cfg := (jwtSigningConfig m).

(** What the write of the Secret keeps: the stored keys are the old ones, or all of
    them are rendered anew from completed keys. *)
Definition rendered_from (old : jwtSigningKeys) (s' : SecurityState) : Prop :=
  exists keys sec, completed m old keys /\ ss_secret s' = Some sec /\
    secret_field sec "security.toml" = renderSecurityTOML cfg keys (tlsEffective cert_manager m).

Lemma existing_wp s :
  wp env (existingJWTSigningKeys m)
    (fun r s' => s' = s /\
       match r with inl _ => True | inr (old, legacy) =>
         keys_of s old /\ (legacy = true -> ss_secret s = None) end) s.
Proof.
  unfold existingJWTSigningKeys. wx. intros [e|sec] s1 [-> Hs]; cbn [wp].
  - specialize (Hs eq_refl). destruct (IsNotFound e) eqn:He; wx; [|done]. specialize (Hs eq_refl).
    intros [e'|cm] s1 [-> Hc]; wx; specialize (Hc eq_refl).
    + destruct (IsNotFound e') eqn:He'; wx; [|done]. specialize (Hc eq_refl). split; [done|].
      split; [|done]. intros x Hx. unfold stored_key, stored_toml. rewrite Hs, Hc. by each_section Hx.
    + split; [done|]. split; [|done]. intros x Hx. unfold stored_key, stored_toml. rewrite Hs, Hc.
      by apply parse_section.
  - destruct (Hs eq_refl) as [Hs' _]. split; [done|]. split; [|done]. intros x Hx.
    unfold stored_key, stored_toml. rewrite Hs'. by apply parse_section.
Qed.

Definition upserted (sec : Secret) (s s' : SecurityState) (r : result Secret) : Prop :=
  ss_configmap s' = ss_configmap s /\
  (s' = s /\ (exists e, r = Err e) \/
   exists sec', ss_secret s' = Some sec' /\ sec_Data sec' = sec_Data sec).
Lemma upsert_wp sec s :
  obj_key (k:=KSecret) sec = security_key m ->
  wp env (CreateOrUpdateSecret sec)
    (fun r s' => upserted sec s s' r) s.
Proof.
  intros Hkey. unfold CreateOrUpdateSecret, CreateOrUpdate. rewrite Hkey. cbv zeta.
  set (merge := merge_existing KSecret sec
                  (pure_merge (k:=KSecret) (fun existing desired => Ok (merge_secret existing desired)))).
  assert (Hmerge : forall ex s, ss_secret s = Some ex -> obj_key (k:=KSecret) ex = security_key m ->
    wp env (merge ex) (fun r s' => upserted sec s s' r) s).
  { intros ex s0 Hex Hk. unfold merge, merge_existing, pure_merge. wx.
    unfold semantic_equal, secret_semantic. case_bool_decide as Heq; cbn [negb]; wx.
    - split; [done|]. right. exists ex. split; [done|]. by rewrite Heq.
    - intros r s1 Hw. change (obj_key (k:=KSecret) (merge_secret ex sec)) with (obj_key (k:=KSecret) ex) in Hw.
      cbn in Hw. rewrite bool_decide_true in Hw by done. destruct Hw as [->|[-> Hr]].
      + destruct r; wx; (split; [done|]); right; by eexists.
      + destruct r as [e|]; [|done]. wx. split; [done|]. left. split; [done|]. by exists e. }
  clearbody merge. wx. intros [e|ex] s1 [-> Hs]; wx.
  - specialize (Hs eq_refl). destruct (IsNotFound e) eqn:He; cbn [negb]; wx;
      [|split; [done|]; left; split; [done|]; by exists e].
    specialize (Hs eq_refl). intros c s1 Hw. cbn in Hw. rewrite Hkey, bool_decide_true, Hs in Hw by done.
    destruct Hw as [->|[-> Hr]].
    + destruct c as [e'|]; wx; [|split; [done|]; right; by eexists].
      destruct (IsAlreadyExists e'); cbn [negb]; wx; [|split; [done|]; right; by eexists].
      intros [e''|ex] s1 [-> Hg]; wx; [split; [done|]; right; by eexists|].
      destruct (Hg eq_refl) as [Hg' Hk]. eapply wp_mono; [|by apply (Hmerge ex)].
      intros r s' [Hcm [[-> _]|Hs']]; (split; [done|]); right; [by exists sec|done].
    + destruct c as [e'|]; [|done]. wx. destruct (IsAlreadyExists e'); cbn [negb]; wx;
        [|split; [done|]; left; split; [done|]; by exists e'].
      intros [e''|ex] s1 [-> Hg]; wx; [split; [done|]; left; split; [done|]; by exists e''|].
      destruct (Hg eq_refl) as [Hg' Hk]. congruence.
  - destruct (Hs eq_refl) as [Hs' Hk]. by apply Hmerge.
Qed.

Lemma ensureSecuritySecret_wp s :
  wp env (ensureSecuritySecret cert_manager m)
    (fun r s' => (exists old, keys_of s old /\ rendered_from old s' /\
                    (ss_configmap s' = ss_configmap s \/ ss_configmap s' = None)) \/
                 s' = s /\ r <> None) s.
Proof using H0.
  unfold ensureSecuritySecret. eapply wp_seq; [apply existing_wp|].
  intros [e|[old legacy]] s1 [-> Hold]; wx; [by right|]. destruct Hold as [Hold Hlegacy]. cbn [fst snd].
  eapply wp_seq; [apply (fill_keys_wp m jwtSections [] old); [done|done|]; by intros ? ?%elem_of_nil|].
  intros keys s1 [-> Hkeys]. destruct (SetControllerReference _ _ _) as [e|meta] eqn:Hmeta; wx; [by right|].
  apply set_controller_owners in Hmeta as [os ->].
  eapply wp_seq; [by apply upsert_wp|]. intros r s1 [Hcm [[-> [e ->]]|(sec & Hsec & Hdata)]]; wx; [by right|].
  assert (Hren : rendered_from old s1).
  { exists keys, sec. split; [done|]. split; [done|]. unfold secret_field. rewrite Hdata. simpl.
    by rewrite lookup_singleton_eq. }
  destruct r as [e|_]; wx; [left; exists old; auto|].
  destruct legacy; wx; [|left; exists old; auto].
  unfold deleteLegacySecurityConfigMap. wx. intros c s2 Hd.
  assert (Hren' : rendered_from old s2 /\ (ss_configmap s2 = ss_configmap s \/ ss_configmap s2 = None)).
  { destruct Hd as [-> | ->]; [|auto]. split; [|by right]. destruct Hren as (ks & sec' & ? & ? & ?).
    by exists ks, sec'. }
  destruct c; wx; left; exists old; by destruct Hren'.
Qed.

(** C25. The signing keys are not rotated while reads answer what is stored: whatever call
    fails on the way, after a pass every enabled section that had a key - in the Secret,
    or in the ConfigMap of an older version - still has it.  After a pass without an
    error the Secret holds a key for every enabled section, read back as it was written,
    and none for the others: the key of a section that is switched off is dropped.  Keys
    are assumed to be printable without quotes and backslashes, as all generated ones
    are.  (Behind a cache that lags keys can be rotated: [stale_cache_rotates_keys].) *)
Theorem signing_keys_kept s s' r :
  (forall x, x ∈ jwtSections -> js_enabled x cfg = true -> plain_key (stored_key s x) = true) ->
  exec env (ensureSecuritySecret cert_manager m) s s' r ->
  (forall x, x ∈ jwtSections -> js_enabled x cfg = true -> stored_key s x <> "" ->
     stored_key s' x = stored_key s x) /\
  (r = None -> is_Some (ss_secret s') /\ forall x, x ∈ jwtSections ->
     if js_enabled x cfg then stored_key s' x <> "" else stored_key s' x = "").
Proof using H0.
  intros Hplain Hx. pose proof (ensureSecuritySecret_wp s) as Hwp. rewrite wp_exec in Hwp.
  apply Hwp in Hx as [(old & Hold & (keys & sec & Hc & Hsec & Htoml) & _)|[-> Hr]]; [|by split].
  assert (Hpk : plain_keys cfg keys).
  { apply Forall_forall. intros x Hxs Hen. specialize (Hc x Hxs Hen). case_decide; [by destruct Hc|].
    rewrite Hc, (Hold x Hxs). by apply Hplain. }
  assert (Hget : forall x, x ∈ jwtSections -> stored_key s' x = if js_enabled x cfg then js_key x keys else "").
  { intros x Hxs. unfold stored_key, stored_toml. rewrite Hsec, Htoml. by apply extract_rendered. }
  split.
  - intros x Hxs Hen Hne. rewrite Hget, Hen by done. specialize (Hc x Hxs Hen).
    rewrite (Hold x Hxs), decide_False in Hc by done. done.
  - intros _. rewrite Hsec. split; [done|]. intros x Hxs. rewrite Hget by done.
    destruct (js_enabled x cfg) eqn:Hen; [|done]. specialize (Hc x Hxs Hen). case_decide; [by destruct Hc|].
    congruence.
Qed.
End stable.

Section guarded_pass.
Context `{Owners} (cert_manager : bool) (m : Seaweed).

(** What the pass may do: with nothing to configure, delete the two objects, and
    those only when they were read, belong to [m], and are still the ones read;
    otherwise write the Secret, and delete the ConfigMap only when the Secret was
    absent and the keys were read from it. *)
Definition security_guard : Guard := fun tr X e =>
  match e with
  | OKube (KGet k key) => (k = KSecret \/ k = KConfigMap) /\ key = security_key m
  | OKube (KDeleteUID k o uid) =>
      securityConfigNeeded m = false /\ (k = KSecret \/ k = KConfigMap) /\
      saw_kube tr (KGet k (security_key m)) (Ok o) /\
      IsControlledBy (obj_meta o) (sw_Meta m) = true /\ uid = UID (obj_meta o)
  | OKube (KCreate KSecret o) | OKube (KUpdate KSecret o) =>
      securityConfigNeeded m = true /\ exists keys,
        sec_Data o = {[ "security.toml" :=
          renderSecurityTOML (jwtSigningConfig m) keys (tlsEffective cert_manager m) ]}
  | OKube (KDelete KConfigMap o) =>
      securityConfigNeeded m = true /\ obj_key (k:=KConfigMap) o = security_key m /\
      (exists cm, saw_kube tr (KGet KConfigMap (security_key m)) (Ok cm)) /\
      (exists err, IsNotFound err = true /\ saw_kube tr (KGet KSecret (security_key m)) (Err err))
  | ORandRead _ => securityConfigNeeded m = true
  | _ => False
  end.

Lemma pruneOwned_swp k tr :
  securityConfigNeeded m = false -> k = KSecret \/ k = KConfigMap ->
  swp security_guard (pruneOwned (sw_Meta m) k (SecurityConfigSecretName m)) (fun _ _ => True) tr.
Proof.
  intros Hneed Hk. unfold pruneOwned. sx. split; [done|]. intros [e|o]; sx; [done|].
  destruct (IsControlledBy _ _) eqn:Hc; sx; [|done].
  split; [split_and!; [done|done|apply saw_last|done|done]|]. intros [e|]; sx; [|done].
  by destruct (IsConflict e).
Qed.
Lemma fill_keys_swp l keys tr :
  securityConfigNeeded m = true ->
  swp security_guard (fill_keys (jwtSigningConfig m) l keys) (fun _ _ => True) tr.
Proof.
  intros Hneed. revert keys tr; induction l as [|x l IH]; intros keys tr; cbn [fill_keys]; [by sx|].
  destruct (negb _); [apply IH|]. case_bool_decide; [|apply IH]. unfold randKey. sx.
  split; [done|]. intros [e|b]; sx; apply IH.
Qed.
Lemma upsert_swp sec tr :
  securityConfigNeeded m = true -> obj_key (k:=KSecret) sec = security_key m ->
  (exists keys, sec_Data sec = {[ "security.toml" :=
      renderSecurityTOML (jwtSigningConfig m) keys (tlsEffective cert_manager m) ]}) ->
  swp security_guard (CreateOrUpdateSecret sec) (fun _ _ => True) tr.
Proof.
  intros Hneed Hkey Hdata. apply CreateOrUpdate_pure_swp; [|done| |done].
  - intros tr'. rewrite Hkey. by split; [left|].
  - intros tr' existing mutated _ [= <-] _. by split.
Qed.
Lemma ensureSecurityConfig_swp `{!OwnersLaws} tr :
  swp security_guard (ensureSecurityConfig cert_manager m) (fun _ _ => True) tr.
Proof.
  unfold ensureSecurityConfig. destruct (securityConfigNeeded m) eqn:Hneed; cbn [negb].
  2: { eapply swp_seq; [apply pruneOwned_swp; auto|]. intros [e|] tr1 _; [done|]. apply pruneOwned_swp; auto. }
  unfold ensureSecuritySecret. eapply (swp_seq _ _ _ (fun r tr' => match r with
    | inl _ => True
    | inr (_, legacy) => legacy = true ->
        (exists cm, saw_kube tr' (KGet KConfigMap (security_key m)) (Ok cm)) /\
        (exists err, IsNotFound err = true /\ saw_kube tr' (KGet KSecret (security_key m)) (Err err)) end)).
  { unfold existingJWTSigningKeys. sx. split; [split; auto|]. intros [e|sec]; [|by sx].
    destruct (IsNotFound e) eqn:He; sx; [|done]. split; [split; auto|]. intros [e'|cm]; [by destruct (IsNotFound e')|].
    sx. intros _. split; [exists cm; apply saw_last|]. exists e. split; [done|]. apply saw_app_l, saw_last. }
  intros [e|[old legacy]] tr1 Hlegacy; [done|]. cbn [fst snd].
  eapply swp_seq_keep; [by apply fill_keys_swp|]. intros keys new _.
  destruct (SetControllerReference _ _ _) as [e|meta] eqn:Hmeta; [by sx|].
  apply set_controller_owners in Hmeta as [os ->].
  eapply swp_seq_keep; [apply upsert_swp; [done|done|by eexists]|]. intros [e|_] new' _; [done|].
  destruct legacy; [|by sx]. unfold deleteLegacySecurityConfigMap. sx.
  destruct (Hlegacy eq_refl) as [[cm Hcm] (err & He & Herr)].
  split; [|by intros [e|]]. split_and!; [done|done| |].
  - exists cm. by do 2 apply saw_app_l.
  - exists err. split; [done|]. by do 2 apply saw_app_l.
Qed.

(** The security configuration is written and removed only as it should be,
    whatever the API server answers: see [security_guard]. *)
Theorem security_config_guarded `{!OwnersLaws} tr r :
  exec trace_env (ensureSecurityConfig cert_manager m) [] tr r -> guarded security_guard tr.
Proof. intros Hx. by eapply swp_theorem in Hx as [? _]; [|apply ensureSecurityConfig_swp]. Qed.
End guarded_pass.

(** Every key is read back from the file it is rendered into: the key of an
    enabled section as it is, and nothing for a disabled one, for printable keys
    without quotes and backslashes. *)
Theorem security_toml_roundtrip cfg keys tls :
  plain_keys cfg keys ->
  forall s, s ∈ jwtSections ->
    js_key s (parseJWTSigningKeys (renderSecurityTOML cfg keys tls)) =
    if js_enabled s cfg then js_key s keys else "".
Proof. intros Hk s Hs. rewrite parse_section by done. by apply extract_rendered. Qed.

(** ** Evaluations *)
Definition security_sim_kube (m : Seaweed) {X} (e : kubeE X) (s : SecurityState) : SecurityState * X :=
  match e in kubeE X return SecurityState * X with
  | KGet k key =>
      match k return SecurityState * result (Obj k) with
      | KSecret => (s, match ss_secret s with
          | Some o => if bool_decide (obj_key (k:=KSecret) o = key) then Ok o
                      else Err (ErrOther "another object")
          | None => Err (ErrNotFound "not found") end)
      | KConfigMap => (s, match ss_configmap s with
          | Some o => Ok o | None => Err (ErrNotFound "not found") end)
      | _ => (s, Err (ErrNotFound "not found"))
      end
  | KCreate k o =>
      match k return Obj k -> SecurityState * option error with
      | KSecret => fun o =>
          if bool_decide (obj_key (k:=KSecret) o = security_key m)
          then match ss_secret s with
               | Some _ => (s, Some (ErrAlreadyExists "already exists"))
               | None => ({| ss_secret := Some o; ss_configmap := ss_configmap s |}, None)
               end
          else (s, None)
      | _ => fun _ => (s, None)
      end o
  | KUpdate k o =>
      match k return Obj k -> SecurityState * option error with
      | KSecret => fun o =>
          (if bool_decide (obj_key (k:=KSecret) o = security_key m)
           then {| ss_secret := Some o; ss_configmap := ss_configmap s |} else s, None)
      | _ => fun _ => (s, None)
      end o
  | KDelete k o =>
      match k return Obj k -> SecurityState * option error with
      | KConfigMap => fun _ => ({| ss_secret := ss_secret s; ss_configmap := None |}, None)
      | _ => fun _ => (s, None)
      end o
  | e => (s, (sim_kube e sim_empty).2)
  end.
Definition security_sim (m : Seaweed) : Handler opE SecurityState := fun X e s =>
  match e in opE X return SecurityState * X with
  | OKube e => security_sim_kube m e s
  | e => (s, (sim _ e sim_empty).2)
  end.
Lemma security_sim_refines m : refines (security_sim m) (security_env m).
Proof.
  intros X e s. destruct e as [X e| | | | | | | | | |n| | | | ]; cbn; try done.
  destruct e as [k key|k ns ls|k o|k o|k b o|k o|k b o|k o|k o uid|k ls|k o f]; cbn; try done.
  - destruct k; cbn; try done; (split; [done|]); intros ->.
    + destruct (ss_secret s) as [o|]; [|done]. case_bool_decide; cbn; done.
    + by destruct (ss_configmap s).
  - destruct k; cbn; try done. case_bool_decide; [|done]. destruct (ss_secret s); cbn; [done|by left].
  - destruct k; cbn; try done. case_bool_decide; [by left|done].
  - destruct k; cbn; try done. by left.
  - split; [done|]. induction n as [|n IH]; [done|]. destruct n; [done|]. cbn [repeat String.concat] in *.
    rewrite !length_app_string. simpl in *. lia.
Qed.

(** A cluster that signs volume writes and filer reads, without TLS. *)
Definition signing_cluster : Seaweed := {|
  sw_Meta := sample_meta "ns" "w" 1;
  sw_Spec := cluster_spec (minimal_master 1) None ∅ (Some {| sec_JWTSigning := Some {|
      jwt_VolumeWrite := true; jwt_VolumeRead := false; jwt_FilerWrite := false;
      jwt_FilerRead := true;
      jwt_ExpiresAfterSeconds := Some {| exp_VolumeWrite := 10; exp_VolumeRead := 0;
                                         exp_FilerWrite := 0; exp_FilerRead := 0 |} |} |}) None None;
  sw_Status := no_status |}.
Definition sample_keys : jwtSigningKeys :=
  {| volumeWrite := "c2VjcmV0"; volumeRead := ""; filerWrite := ""; filerRead := "" |}.
Definition legacy_configmap : ConfigMap := {|
  cm_Meta := sample_meta "ns" (SecurityConfigSecretName signing_cluster) 1;
  cm_Data := {[ "security.toml" :=
    renderSecurityTOML (jwtSigningConfig signing_cluster) sample_keys false ]} |}.

(** An upgrade: the key of the ConfigMap moves to the Secret, the missing one is
    generated, and the ConfigMap goes. *)
Lemma signing_keys_kept_witness :
  let m := signing_cluster in
  let s := {| ss_secret := None; ss_configmap := Some legacy_configmap |} in
  let x := run (security_sim m) (ensureSecuritySecret true m) s in
  let toml := stored_toml x.1 in
  (extractTOMLKey toml "jwt.signing" "key" = "c2VjcmV0" /\ ss_configmap x.1 = None) /\
  ((forall y, y ∈ jwtSections -> js_enabled y (jwtSigningConfig m) = true -> stored_key s y <> "" ->
      stored_key x.1 y = stored_key s y) /\
   (x.2 = None -> is_Some (ss_secret x.1) /\ forall y, y ∈ jwtSections ->
      if js_enabled y (jwtSigningConfig m) then stored_key x.1 y <> "" else stored_key x.1 y = "")).
Proof.
  intros m s x toml. split; [by vm_compute|]. apply (signing_keys_kept m true s x.1 x.2).
  - intros y Hy _. each_section Hy; by vm_compute.
  - exact (run_exec (security_env m) (security_sim m) (ensureSecuritySecret true m) s (security_sim_refines m)).
Defined.

Lemma security_config_guarded_witness :
  let x := run (tracing sim) (ensureSecurityConfig true signing_cluster) (sim_empty, []) in
  length x.1.2 = 6%nat /\ guarded (security_guard true signing_cluster) x.1.2.
Proof.
  intros x. split; [by vm_compute|].
  apply (security_config_guarded true signing_cluster x.1.2 x.2).
  exact (run_tracing sim (ensureSecurityConfig true signing_cluster) sim_empty []).
Defined.

Lemma security_toml_roundtrip_witness :
  let cfg := jwtSigningConfig signing_cluster in
  plain_keys cfg sample_keys /\
  forall s, s ∈ jwtSections ->
    js_key s (parseJWTSigningKeys (renderSecurityTOML cfg sample_keys true)) =
    if js_enabled s cfg then js_key s sample_keys else "".
Proof.
  intros cfg. assert (Hk : plain_keys cfg sample_keys) by by repeat constructor.
  split; [done|]. by apply security_toml_roundtrip.
Defined.

(** ** A stale read rotates the keys

    [CreateOrUpdate] expects that the cache it reads from can lag behind the API
    server.  When it does for the two reads of one pass over an existing Secret,
    the pass generates keys, the creation answers that the Secret exists, and the
    merge replaces the stored keys. *)
Definition lagging (m : Seaweed) : Handler opE (SecurityState * nat) := fun X e s =>
  match e in opE X return (SecurityState * nat) * X with
  | OKube e =>
      match e in kubeE X return (SecurityState * nat) * X with
      | KGet KSecret key =>
          match s.2 with
          | S n => ((s.1, n), Err (ErrNotFound "not in the cache"))
          | 0%nat => let r := security_sim_kube m (KGet KSecret key) s.1 in ((r.1, 0%nat), r.2)
          end
      | e => let r := security_sim_kube m e s.1 in ((r.1, s.2), r.2)
      end
  | e => (s, (sim _ e sim_empty).2)
  end.
(** A concrete run: no error, and another key. *)
Lemma stale_cache_rotates_keys :
  let m := signing_cluster in
  let stored := {| sec_Meta := sample_meta "ns" (SecurityConfigSecretName m) 1;
                   sec_Data := {[ "security.toml" :=
                     renderSecurityTOML (jwtSigningConfig m) sample_keys false ]} |} in
  let x := run (lagging m) (ensureSecuritySecret true m)
             ({| ss_secret := Some stored; ss_configmap := None |}, 2%nat) in
  x.2 = None /\ extractTOMLKey (stored_toml x.1.1) "jwt.signing" "key" <> "c2VjcmV0" /\
  extractTOMLKey (stored_toml x.1.1) "jwt.signing" "key" <> "".
Proof. intros m stored x. by vm_compute. Qed.
