(* ===== verification/GoPath.v ===== *)
(** * Go's [path] package

    [Clean], [Join] and [Dir] on slash-separated paths, by segments: [Clean] drops
    empty and [.] segments and lets [..] remove the segment before it.  The lemmas
    compute them on paths that end in ordinary names, which is how the operator
    lays out backups. *)
From Stdlib Require Import Ascii.
From S2P Require Import Prelude.

Definition slash : ascii := "/"%char.

(** [out] holds the segments kept so far, the last one first. *)
Fixpoint clean_segs (rooted : bool) (out segs : list string) : list string :=
  match segs with
  | [] => rev out
  | s :: segs =>
      if bool_decide (s = "") || bool_decide (s = ".") then clean_segs rooted out segs
      else if bool_decide (s = "..") then
        match out with
        | t :: out' => if bool_decide (t = "..") then clean_segs rooted (s :: out) segs
                       else clean_segs rooted out' segs
        | [] => if rooted then clean_segs rooted [] segs else clean_segs rooted [s] segs
        end
      else clean_segs rooted (s :: out) segs
  end.
Definition Clean (p : string) : string :=
  let rooted := HasPrefix p "/" in
  let body := Join (clean_segs rooted [] (Split p slash)) "/" in
  if rooted then "/" +:+ body else if bool_decide (body = "") then "." else body.

(** Leading empty elements are skipped; the others are separated by slashes. *)
Fixpoint path_concat (buf : string) (elems : list string) : string :=
  match elems with
  | [] => buf
  | e :: elems =>
      path_concat (if bool_decide (buf = "") then e else buf +:+ "/" +:+ e) elems
  end.
Definition path_Join (elems : list string) : string :=
  if forallb (fun e => bool_decide (e = "")) elems then "" else Clean (path_concat "" elems).

(** Everything up to the last slash. *)
Fixpoint dir_part (s : string) : string :=
  match s with
  | EmptyString => EmptyString
  | String c s' =>
      if has_char slash s' then String c (dir_part s')
      else if Ascii.eqb c slash then String c EmptyString else EmptyString
  end.
Definition path_Dir (p : string) : string := Clean (dir_part p).

(** ** Ordinary names *)
Definition segment_name (s : string) : Prop :=
  s <> "" /\ s <> "." /\ s <> ".." /\ has_char slash s = false.
#[export] Instance segment_name_dec s : Decision (segment_name s).
Proof. solve_decision. Defined.

Lemma clean_segs_name rooted out s segs :
  segment_name s -> clean_segs rooted out (s :: segs) = clean_segs rooted (s :: out) segs.
Proof. intros (? & ? & ? & _). simpl. by rewrite !bool_decide_false. Qed.
Lemma clean_segs_names rooted out names :
  Forall segment_name names -> clean_segs rooted out names = rev out ++ names.
Proof.
  revert out; induction names as [|s names IH]; intros out Hn; [by rewrite app_nil_r|].
  apply Forall_cons in Hn as [Hs Hn]. rewrite clean_segs_name, IH by done. simpl. by rewrite <-app_assoc.
Qed.
Lemma clean_segs_app rooted out segs names :
  Forall segment_name names ->
  clean_segs rooted out (segs ++ names) = clean_segs rooted out segs ++ names.
Proof.
  intros Hn. revert out; induction segs as [|s segs IH]; intros out; [by apply clean_segs_names|].
  simpl. repeat case_match; apply IH.
Qed.

Lemma Split_app p q sep : Split (p +:+ String sep q) sep = Split p sep ++ Split q sep.
Proof.
  induction p as [|c p IH].
  - change (Split (String sep q) sep = "" :: Split q sep). simpl. by rewrite Ascii.eqb_refl.
  - change (Split (String c (p +:+ String sep q)) sep = Split (String c p) sep ++ Split q sep).
    simpl. destruct (Ascii.eqb c sep); [by rewrite IH|]. rewrite IH.
    destruct (Split p sep) as [|w ws] eqn:Hp; [|done].
    exfalso. destruct p as [|d p]; simpl in Hp; [done|]. repeat case_match; done.
Qed.
Lemma Split_names names :
  names <> [] -> Forall segment_name names -> Split (Join names "/") slash = names.
Proof.
  intros Hne Hn. apply Split_Join; [done|]. eapply Forall_impl; [exact Hn|]. by intros s (_ & _ & _ & ?).
Qed.
Lemma Join_app l l' sep :
  l <> [] -> l' <> [] -> Join (l ++ l') sep = Join l sep +:+ sep +:+ Join l' sep.
Proof.
  intros Hl Hl'. induction l as [|w l IH]; [done|]. destruct l as [|v l].
  - destruct l' as [|v l']; done.
  - change (w +:+ sep +:+ Join ((v :: l) ++ l') sep = (w +:+ sep +:+ Join (v :: l) sep) +:+ sep +:+ Join l' sep).
    rewrite IH by done. by rewrite !string_app_assoc.
Qed.
Lemma Join_names_nonempty names sep : Forall segment_name names -> names <> [] -> Join names sep <> "".
Proof.
  destruct names as [|s [|t names]]; [done|..]; intros [(Hs & _) _]%Forall_cons _; [done|].
  rewrite Join_cons2. destruct s; [done|]. change (String a (s +:+ sep +:+ Join (t :: names) sep) <> ""). done.
Qed.

(** What [Clean] makes of the part before the names. *)
Definition clean_root (p : string) : string :=
  let rooted := HasPrefix p "/" in
  let segs := clean_segs rooted [] (Split p slash) in
  (if rooted then "/" else "") +:+ (if bool_decide (segs = []) then "" else Join segs "/" +:+ "/").

Lemma HasPrefix_slash_app p q : p <> "" -> HasPrefix (p +:+ q) "/" = HasPrefix p "/".
Proof.
  destruct p as [|c p]; [done|]. intros _. change (String c p +:+ q) with (String c (p +:+ q)).
  assert (Hempty : forall s, String.prefix "" s = true) by by intros [].
  unfold HasPrefix. cbn [String.prefix]. by rewrite !Hempty.
Qed.

(** Cleaning a path that ends in ordinary names keeps them, below a root that does
    not depend on them. *)
Lemma Clean_names p names :
  p <> "" -> names <> [] -> Forall segment_name names ->
  Clean (p +:+ "/" +:+ Join names "/") = clean_root p +:+ Join names "/".
Proof.
  intros Hp Hne Hn. unfold Clean, clean_root.
  rewrite HasPrefix_slash_app by done. change ("/" +:+ Join names "/") with (String slash (Join names "/")).
  rewrite Split_app, Split_names, clean_segs_app by done.
  set (rooted := HasPrefix p "/"). set (segs := clean_segs rooted [] (Split p slash)).
  assert (Hbody : Join (segs ++ names) "/" =
    (if bool_decide (segs = []) then "" else Join segs "/" +:+ "/") +:+ Join names "/").
  { case_bool_decide as Hs; [by rewrite Hs|]. rewrite Join_app by done. by rewrite string_app_assoc. }
  assert (Hnonempty : Join (segs ++ names) "/" <> "").
  { rewrite Hbody. pose proof (Join_names_nonempty names "/" Hn Hne).
    destruct (if bool_decide (segs = []) then "" else _); [done|]. by intros [=]. }
  rewrite bool_decide_false by done. rewrite Hbody.
  destruct rooted; [|done]. by rewrite string_app_assoc.
Qed.

Lemma path_concat_names buf names :
  buf <> "" -> names <> [] -> path_concat buf names = buf +:+ "/" +:+ Join names "/".
Proof.
  revert buf; induction names as [|s names IH]; intros buf Hb Hne; [done|].
  cbn [path_concat]. rewrite bool_decide_false by done.
  destruct names as [|t names]; [done|]. rewrite IH; [|by destruct buf|done].
  rewrite Join_cons2. by rewrite !string_app_assoc.
Qed.
Lemma path_Join_names base names :
  base <> "" -> names <> [] -> Forall segment_name names ->
  path_Join (base :: names) = clean_root base +:+ Join names "/".
Proof.
  intros Hb Hne Hn. unfold path_Join. cbn [forallb]. rewrite bool_decide_false by done. cbn [andb].
  cbn [path_concat]. rewrite bool_decide_true by done. rewrite path_concat_names by done.
  by apply Clean_names.
Qed.

(** A root is empty or ends with a slash, and names below it are read off. *)
Lemma string_app_inj (p q r : string) : p +:+ q = p +:+ r -> q = r.
Proof.
  induction p as [|c p IH]; [done|].
  change (String c (p +:+ q) = String c (p +:+ r) -> q = r). intros [= ?]. by apply IH.
Qed.
