(* ===== verification/Component.v ===== *)
(** * Pods of the components (helper.go, image.go, component_accessor.go, pv_reclaim.go)

    What the workloads of every component share: the image, the merge of the
    settings of a component over those of the cluster, labels and annotations,
    volumes and mounts, the command line, and the probes. *)
From Stdlib Require Import Ascii.
From S2P Require Import Prelude CoreTypes ApiTypes Effects Machinery Sim RefGrant Cluster.
From S2P Require Import SecurityConfig GoPath.

(** ** Images (image.go, component_accessor.go)

    [LastIndex s c] is the position of the last [c], if any. *)
Fixpoint LastIndex (s : string) (c : ascii) : option nat :=
  match s with
  | EmptyString => None
  | String d s' =>
      match LastIndex s' c with
      | Some n => Some (S n)
      | None => if Ascii.eqb d c then Some 0 else None
      end
  end.
Definition applyVersion (image version : string) : string :=
  if bool_decide (version = "") || bool_decide (image = "") then image
  else
    let name := match LastIndex image slash with Some i => str_drop (i + 1) image | None => image end in
    if Contains name "@" then image
    else
      let image := match LastIndex name ":"%char with
                   | Some colon => str_take (String.length image - String.length name + colon) image
                   | None => image
                   end in
      image +:+ ":" +:+ version.
Definition ClusterImage (s : Seaweed) : string := applyVersion (sw_Image (sw_Spec s)) (sw_Version (sw_Spec s)).

(** ** Merging maps

    A nil map is not told apart from an empty one: neither is ever visible. *)
Definition copyAnnotations (src : gmap string string) : gmap string string := src.
Definition mergePodLabels (selectorLabels userLabels : gmap string string) : gmap string string :=
  if bool_decide (userLabels = ∅) then selectorLabels else selectorLabels ∪ userLabels.
Definition mergeLabels (base override : gmap string string) : gmap string string := override ∪ base.
Definition mergeAnnotations (clusterAnnotations componentAnnotations : gmap string string) : gmap string string :=
  componentAnnotations ∪ clusterAnnotations.
Definition mergeNodeSelector (clusterNodeSelector componentNodeSelector : gmap string string)
    : gmap string string := componentNodeSelector ∪ clusterNodeSelector.
Definition filterContainerResources (resources : ResourceRequirements) : ResourceRequirements :=
  {| Requests := delete ResourceStorage (Requests resources);
     Limits := delete ResourceStorage (Limits resources) |}.

(** ** Settings of a topology group over those of the volume servers *)
Definition orElse {A} (a b : option A) : option A := match a with Some x => Some x | None => b end.
Definition volume_config (m : Seaweed) : option VolumeServerConfig := vspec_Config <$> sw_Volume (sw_Spec m).
Section topology.
Context (m : Seaweed) (topologySpec : VolumeTopologySpec).
Abbreviation group := (topo_Config topologySpec).
Definition getVolumeServerConfigValue {A} (topologyValue volumeValue : option A) : option A :=
  orElse topologyValue volumeValue.
Definition with_fallback {A} (field : VolumeServerConfig -> option A) : option A :=
  orElse (field group) (volume_config m ≫= field).
Definition getStorageClassName : option string := with_fallback vsc_StorageClassName.
Definition getStorageSelector : option LabelSelector := with_fallback vsc_StorageSelector.
Definition getMetricsPort : option Z := with_fallback vsc_MetricsPort.
Definition getServiceSpec : option ServiceSpec := with_fallback vsc_Service.
Definition getStorageAnnotations : gmap string string :=
  if negb (bool_decide (vsc_StorageAnnotations group = ∅)) then vsc_StorageAnnotations group
  else default ∅ (vsc_StorageAnnotations <$> volume_config m).
Definition getStorageLabels : gmap string string :=
  if negb (bool_decide (vsc_StorageLabels group = ∅)) then vsc_StorageLabels group
  else default ∅ (vsc_StorageLabels <$> volume_config m).
Definition getResourceRequirements : ResourceRequirements :=
  let base := default no_resources (vsc_Resources <$> volume_config m) in
  {| Requests := if negb (bool_decide (Requests (vsc_Resources group) = ∅))
                 then Requests (vsc_Resources group) else Requests base;
     Limits := if negb (bool_decide (Limits (vsc_Resources group) = ∅))
               then Limits (vsc_Resources group) else Limits base |}.
Definition topologyLoggingArgs : list string :=
  let own := cs_LoggingArgs (vsc_Component group) in
  let flat := default [] ((fun c => cs_LoggingArgs (vsc_Component c)) <$> volume_config m) in
  if (0 <? length own)%nat then own
  else if (0 <? length flat)%nat then flat
  else sw_LoggingArgs (sw_Spec m).
End topology.

(** ** The settings of a component over those of the cluster (component_accessor.go)

    The accessor of a component is its spec and that of the cluster. *)
Record ComponentAccessor := {
  acc_cluster : SeaweedSpec;
  acc_ComponentSpec : ComponentSpec;
}.
Section accessor.
Context (a : ComponentAccessor).
Abbreviation cluster := (acc_cluster a).
Abbreviation component := (acc_ComponentSpec a).
Definition acc_StatefulSetUpdateStrategy : string :=
  let strategy := cs_StatefulSetUpdateStrategy component in
  if negb (String.length strategy =? 0)%nat then strategy
  else
    let strategy := sw_StatefulSetUpdateStrategy cluster in
    if negb (String.length strategy =? 0)%nat then strategy else "RollingUpdate".
Definition acc_Image : string :=
  let version := match cs_Version component with
                 | Some v => if negb (bool_decide (v = "")) then v else sw_Version cluster
                 | None => sw_Version cluster
                 end in
  applyVersion (sw_Image cluster) version.
Definition acc_ImagePullPolicy : string := default (sw_ImagePullPolicy cluster) (cs_ImagePullPolicy component).
Definition acc_ImagePullSecrets : list string :=
  default (sw_ImagePullSecrets cluster) (cs_ImagePullSecrets component).
Definition acc_HostNetwork : bool := default false (orElse (cs_HostNetwork component) (sw_HostNetwork cluster)).
Definition acc_Affinity : option Affinity := orElse (cs_Affinity component) (sw_Affinity cluster).
(** The accessor's own class is never set: the spec of a cluster has none. *)
Definition acc_PriorityClassName : option string := cs_PriorityClassName component.
Definition acc_ServiceAccountName : string := default "" (cs_ServiceAccountName component).
Definition acc_SchedulerName : string := default (sw_SchedulerName cluster) (cs_SchedulerName component).
Definition acc_NodeSelector : gmap string string := cs_NodeSelector component ∪ sw_NodeSelector cluster.
Definition acc_Annotations : gmap string string := cs_Annotations component ∪ sw_Annotations cluster.
Definition acc_Labels : gmap string string := cs_Labels component ∪ sw_Labels cluster.
Definition acc_Tolerations : list Toleration :=
  let tols := default [] (cs_Tolerations component) in
  if (length tols =? 0)%nat then sw_Tolerations cluster else tols.
Definition acc_DNSPolicy : string := if acc_HostNetwork then "ClusterFirstWithHostNet" else "ClusterFirst".
Definition acc_Volumes : list Volume := cs_Volumes component.
Definition acc_Env : list EnvVar := default [] (cs_Env component).
Definition acc_TerminationGracePeriodSeconds : option Z := cs_TerminationGracePeriodSeconds component.
Definition acc_VolumeMounts : list VolumeMount := cs_VolumeMounts component.
Definition acc_ExtraArgs : list string := cs_ExtraArgs component.
Definition acc_ReadinessProbe : option ProbeOverride := cs_ReadinessProbe component.
Definition acc_LivenessProbe : option LivenessProbeOverride := cs_LivenessProbe component.
Definition acc_LoggingArgs : list string :=
  let args := cs_LoggingArgs component in
  if (length args =? 0)%nat then sw_LoggingArgs cluster else args.
Definition acc_Sidecars : list Container := cs_Sidecars component.
Definition acc_InitContainers : list Container := cs_InitContainers component.
Definition acc_PodSecurityContext : option PodSecurityContext := cs_PodSecurityContext component.
Definition acc_ContainerSecurityContext : option SecurityContext := cs_ContainerSecurityContext component.
(** The containers are the callers'. *)
Definition BuildPodSpec : PodSpec := {|
  pod_RestartPolicy := "Always"; pod_SchedulerName := acc_SchedulerName; pod_Affinity := acc_Affinity;
  pod_NodeSelector := acc_NodeSelector; pod_HostNetwork := acc_HostNetwork; pod_HostPID := false;
  pod_Tolerations := acc_Tolerations; pod_PriorityClassName := default "" acc_PriorityClassName;
  pod_ServiceAccountName := acc_ServiceAccountName; pod_ImagePullSecrets := acc_ImagePullSecrets;
  pod_TerminationGracePeriodSeconds := acc_TerminationGracePeriodSeconds;
  pod_SecurityContext := acc_PodSecurityContext; pod_EnableServiceLinks := None;
  pod_Containers := []; pod_InitContainers := []; pod_Volumes := acc_Volumes |}.
End accessor.
Definition buildSeaweedComponentAccessor (spec : SeaweedSpec) (component : ComponentSpec) : ComponentAccessor :=
  {| acc_cluster := spec; acc_ComponentSpec := component |}.
Definition BaseMasterSpec (s : Seaweed) (master : MasterSpec) : ComponentAccessor :=
  buildSeaweedComponentAccessor (sw_Spec s) (master_Component master).
Definition BaseFilerSpec (s : Seaweed) (filer : FilerSpec) : ComponentAccessor :=
  buildSeaweedComponentAccessor (sw_Spec s) (filer_Component filer).
Definition BaseVolumeSpec (s : Seaweed) : ComponentAccessor :=
  buildSeaweedComponentAccessor (sw_Spec s)
    (match sw_Volume (sw_Spec s) with
     | Some v => vsc_Component (vspec_Config v)
     | None => no_component_spec
     end).
Definition BaseAdminSpec (s : Seaweed) (admin : AdminSpec) : ComponentAccessor :=
  buildSeaweedComponentAccessor (sw_Spec s) (admin_Component admin).
Definition BaseWorkerSpec (s : Seaweed) (worker : WorkerSpec) : ComponentAccessor :=
  buildSeaweedComponentAccessor (sw_Spec s) (worker_Component worker).
Definition BaseS3Spec (s : Seaweed) (s3 : S3GatewaySpec) : ComponentAccessor :=
  buildSeaweedComponentAccessor (sw_Spec s) (s3gw_Component s3).
Definition BaseSFTPSpec (s : Seaweed) (sftp : SFTPSpec) : ComponentAccessor :=
  buildSeaweedComponentAccessor (sw_Spec s) (sftp_Component sftp).

(** ** Pods of every component (helper.go) *)
Definition securityConfigMountPath : string := "/etc/sw-security".
Definition tlsVolumeName : string := "sw-tls".
Definition securityVolumeName : string := "sw-security".
Definition secret_volume (name secret : string) : Volume :=
  {| vol_Name := name; vol_Source := SecretVolume secret [] None |}.
Definition read_only_mount (name path : string) : VolumeMount :=
  {| vm_Name := name; vm_ReadOnly := true; vm_MountPath := path; vm_SubPath := "";
     vm_Propagation := None |}.
Definition tlsVolumesAndMounts (cert_manager : bool) (m : Seaweed) : list Volume * list VolumeMount :=
  let '(volumes, mounts) :=
    if securityConfigNeeded m
    then ([secret_volume securityVolumeName (SecurityConfigSecretName m)],
          [read_only_mount securityVolumeName securityConfigMountPath])
    else ([], []) in
  if tlsEffective cert_manager m
  then (volumes ++ [secret_volume tlsVolumeName (TLSServerSecretName m)],
        mounts ++ [read_only_mount tlsVolumeName tlsMountPath])
  else (volumes, mounts).
Definition tlsConfigDirArg (m : Seaweed) : string :=
  if negb (securityConfigNeeded m) then "" else "-config_dir=" +:+ securityConfigMountPath.
Definition weedPreamble (m : Seaweed) (loggingArgs : list string) (subcommand : string) : list string :=
  ["weed"] ++
  (if (0 <? length loggingArgs)%nat then loggingArgs else ["-logtostderr=true"]) ++
  (if negb (bool_decide (tlsConfigDirArg m = "")) then [tlsConfigDirArg m] else []) ++
  [subcommand].


(** ** Volumes, mounts and environment *)
Definition field_env (name path : string) : EnvVar :=
  {| env_Name := name; env_Value := ""; env_ValueFrom := Some (FieldRef path) |}.
Definition kubernetesEnvVars : list EnvVar :=
  [field_env "POD_IP" "status.podIP"; field_env "POD_NAME" "metadata.name";
   field_env "NAMESPACE" "metadata.namespace"].
Definition mergeVolumeMounts (base override : list VolumeMount) : list VolumeMount :=
  List.filter (fun vm => negb (bool_decide (vm_MountPath vm ∈ map vm_MountPath override))) base ++ override.
Definition componentConfigDir : string := "/etc/seaweedfs".
Definition configSecretVolumeAndMount (volumeName fileName : string) (sel : SecretKeySelector)
    : Volume * VolumeMount :=
  ({| vol_Name := volumeName;
      vol_Source := SecretVolume (sks_Name sel) [(sks_Key sel, fileName)] (sks_Optional sel) |},
   read_only_mount volumeName componentConfigDir).

(** ** The annotation with the signing configuration *)
Definition jwtSigningAnnotation : string := "seaweed.seaweedfs.com/jwt-signing".
Definition jwtSigningRevision (m : Seaweed) : string :=
  let cfg := jwtSigningConfig m in
  let expiry := jwtSigningExpiry cfg in
  let parts := map (fun s => if (0 <? js_expires s expiry)%Z
                             then js_field s +:+ "=" +:+ fmt_d (js_expires s expiry) else js_field s)
                 (List.filter (fun s => js_enabled s cfg) jwtSections) in
  if (length parts =? 0)%nat then "none" else Join parts ",".
Definition withJWTSigningAnnotation (m : Seaweed) (annotations : gmap string string) : gmap string string :=
  if negb (securityConfigNeeded m) then annotations
  else <[jwtSigningAnnotation := jwtSigningRevision m]> annotations.

(** ** Command lines and probes *)
Definition defaultIPBind : string := "0.0.0.0".
Definition ipBindArg (ipBind : option string) : string :=
  let bind := default defaultIPBind ipBind in
  if bool_decide (bind = "") then "" else "-ip.bind=" +:+ bind.
(** An argument that is left out when it is empty, and one for an optional value. *)
Definition if_set (arg : string) : list string := if negb (bool_decide (arg = "")) then [arg] else [].
Definition opt_arg {A} (flag : string) (show : A -> string) (value : option A) : list string :=
  match value with Some x => [flag +:+ show x] | None => [] end.
Definition fmt_t (b : bool) : string := if b then "true" else "false".

Definition applyProbeTimings (probe : Probe) (initialDelay timeout period failureThreshold : option Z) : Probe := {|
  probe_Handler := probe_Handler probe;
  probe_InitialDelaySeconds := default (probe_InitialDelaySeconds probe) initialDelay;
  probe_TimeoutSeconds := default (probe_TimeoutSeconds probe) timeout;
  probe_PeriodSeconds := default (probe_PeriodSeconds probe) period;
  probe_SuccessThreshold := probe_SuccessThreshold probe;
  probe_FailureThreshold := default (probe_FailureThreshold probe) failureThreshold |}.
Definition applyProbeOverride (probe : Probe) (override : option ProbeOverride) : Probe :=
  match override with
  | None => probe
  | Some o =>
      let p := applyProbeTimings probe (po_InitialDelaySeconds o) (po_TimeoutSeconds o) (po_PeriodSeconds o)
                 (po_FailureThreshold o) in
      {| probe_Handler := probe_Handler p; probe_InitialDelaySeconds := probe_InitialDelaySeconds p;
         probe_TimeoutSeconds := probe_TimeoutSeconds p; probe_PeriodSeconds := probe_PeriodSeconds p;
         probe_SuccessThreshold := default (probe_SuccessThreshold p) (po_SuccessThreshold o);
         probe_FailureThreshold := probe_FailureThreshold p |}
  end.
Definition applyLivenessProbeOverride (probe : Probe) (override : option LivenessProbeOverride) : Probe :=
  match override with
  | None => probe
  | Some o => applyProbeTimings probe (lpo_InitialDelaySeconds o) (lpo_TimeoutSeconds o)
                (lpo_PeriodSeconds o) (lpo_FailureThreshold o)
  end.
Definition applyProbeOverrides (c : Container) (readiness : option ProbeOverride)
    (liveness : option LivenessProbeOverride) : Container := {|
  c_Name := c_Name c; c_Image := c_Image c; c_ImagePullPolicy := c_ImagePullPolicy c;
  c_SecurityContext := c_SecurityContext c; c_Env := c_Env c; c_EnvFrom := c_EnvFrom c; c_Resources := c_Resources c;
  c_Command := c_Command c; c_Args := c_Args c; c_Ports := c_Ports c; c_VolumeMounts := c_VolumeMounts c;
  c_ReadinessProbe := (fun p => applyProbeOverride p readiness) <$> c_ReadinessProbe c;
  c_LivenessProbe := (fun p => applyLivenessProbeOverride p liveness) <$> c_LivenessProbe c |}.

(** ** Claims (pv_reclaim.go) *)
Definition RetainClaims : string := "Retain".
Definition DeleteClaims : string := "Delete".
Definition pvcRetentionPolicy (m : Seaweed) : option (string * string) :=
  let whenScaled := match sw_EnablePVReclaim (sw_Spec m) with
                    | Some true => DeleteClaims
                    | _ => RetainClaims
                    end in
  Some (RetainClaims, whenScaled).

(** ** Images are retagged *)
(** ** Image references *)
Lemma LastIndex_none s c : has_char c s = false -> LastIndex s c = None.
Proof.
  induction s as [|d s IH]; [done|]. intros [Hd Hs]%orb_false_iff. cbn [LastIndex]. by rewrite IH, Hd.
Qed.
Lemma LastIndex_last p c q : has_char c q = false -> LastIndex (p +:+ String c q) c = Some (String.length p).
Proof.
  intros Hq. induction p as [|d p IH].
  - change ("" +:+ ?s) with s. cbn [LastIndex]. by rewrite LastIndex_none, Ascii.eqb_refl.
  - change (String d p +:+ String c q) with (String d (p +:+ String c q)). cbn [LastIndex]. by rewrite IH.
Qed.
Lemma str_drop_app p c q : str_drop (String.length p + 1) (p +:+ String c q) = q.
Proof.
  induction p as [|d p IH]; [by destruct q|].
  change (String d p +:+ String c q) with (String d (p +:+ String c q)). exact IH.
Qed.
Lemma Contains_char s c : Contains s (String c "") = has_char c s.
Proof.
  induction s as [|d s IH]; [done|]. cbn [Contains has_char String.prefix]. rewrite IH.
  assert (Hp : String.prefix "" s = true) by by destruct s. rewrite Hp.
  destruct (ascii_dec c d) as [->|Hn]; [by rewrite Ascii.eqb_refl|].
  destruct (Ascii.eqb_spec d c); congruence.
Qed.

(** The last path segment of an image, after a registry and its directories. *)
Definition last_name (dir name : string) : Prop :=
  has_char slash name = false /\ (dir = "" \/ exists d, dir = d +:+ "/").
Lemma name_of_image dir name :
  last_name dir name ->
  match LastIndex (dir +:+ name) slash with
  | Some i => str_drop (i + 1) (dir +:+ name)
  | None => dir +:+ name
  end = name.
Proof.
  intros [Hn [->|[d ->]]].
  - change ("" +:+ name) with name. by rewrite LastIndex_none.
  - rewrite string_app_assoc. change ("/" +:+ name) with (String slash name).
    rewrite LastIndex_last by done. apply str_drop_app.
Qed.

(** [spec.version] replaces exactly the tag of [spec.image]: whatever the
    registry (its port included) and the directories, an untagged image gets the
    version as its tag, a tagged one has its tag replaced, and an image pinned by
    a digest is left alone. *)
Theorem applyVersion_retags dir name tag digest version :
  last_name dir name -> name <> "" -> version <> "" ->
  has_char ":" name = false -> has_char "@" name = false ->
  has_char slash tag = false -> has_char ":" tag = false -> has_char "@" tag = false ->
  has_char slash digest = false ->
  applyVersion (dir +:+ name) version = dir +:+ name +:+ ":" +:+ version /\
  applyVersion (dir +:+ name +:+ ":" +:+ tag) version = dir +:+ name +:+ ":" +:+ version /\
  applyVersion (dir +:+ name +:+ "@" +:+ digest) version = dir +:+ name +:+ "@" +:+ digest.
Proof.
  intros [Hslash Hdir] Hname Hv Hcolon Hat Htslash Htcolon Htat Hds.
  assert (Hne : forall x, dir +:+ name +:+ x <> "") by (intros x; destruct dir, name; done).
  assert (Hl : forall c s, has_char slash s = false -> has_char slash (String c "") = false ->
            last_name dir (name +:+ String c s)).
  { intros c s Hs Hc. split; [|done]. change (String c s) with (String c "" +:+ s).
    by rewrite !has_char_app, Hslash, Hs, Hc. }
  unfold applyVersion. rewrite !bool_decide_false; [|done..|by rewrite <-(string_app_nil name)|done].
  cbn [orb]. split_and!.
  - rewrite name_of_image by done. rewrite Contains_char, Hat, LastIndex_none by done.
    by rewrite string_app_assoc.
  - change (":" +:+ tag) with (String ":" tag). rewrite name_of_image by by apply Hl.
    rewrite Contains_char, has_char_app, Hat. cbn [has_char]. rewrite Htat.
    change (Ascii.eqb ":" "@") with false. cbn [orb].
    rewrite LastIndex_last by done. rewrite length_app_string.
    replace (_ + _ - _ + _)%nat with (String.length (dir +:+ name)) by (rewrite length_app_string; lia).
    rewrite <-(string_app_assoc dir name (String ":" tag)) at 1. unfold str_take.
    rewrite substring_app_l. by rewrite string_app_assoc.
  - change ("@" +:+ digest) with (String "@" digest). rewrite name_of_image by by apply Hl.
    rewrite Contains_char, has_char_app, Hat. done.
Qed.
Lemma applyVersion_retags_witness :
  applyVersion "registry:5000/seaweedfs" "4.1" = "registry:5000/seaweedfs:4.1" /\
  applyVersion "registry:5000/seaweedfs:latest" "4.1" = "registry:5000/seaweedfs:4.1" /\
  applyVersion "registry:5000/seaweedfs@sha256:00" "4.1" = "registry:5000/seaweedfs@sha256:00".
Proof.
  apply (applyVersion_retags "registry:5000/" "seaweedfs" "latest" "sha256:00" "4.1"); try done.
  split; [done|]. right. by exists "registry:5000".
Defined.
