(* ===== verification/BackupStorage.v ===== *)
(** * Backup storages (backup_storage.go)

    Where backups go and how the data mirror is told: the image, the locations of
    the snapshots, the directory of the mirror, and the replication.toml with the
    sink of a storage.  The file is read back here by a reader of the TOML subset
    it uses: one section, bare keys, basic strings and booleans. *)
From Stdlib Require Import Ascii.
From S2P Require Import Prelude CoreTypes ApiTypes Effects Machinery Sim RefGrant Cluster.
From S2P Require Import GoPath Component.

(** ** Images *)
Definition backupImage (m : Seaweed) : string :=
  match sw_Backup (sw_Spec m) with
  | Some b => match bkp_Image b with
              | Some image => if negb (bool_decide (image = "")) then image else ClusterImage m
              | None => ClusterImage m
              end
  | None => ClusterImage m
  end.

(** ** Locations *)
Definition backupConfigDir : string := "/etc/seaweedfs".
Definition backupScratchDir : string := "/scratch".
Definition gcsKeyFileName : string := "gcs.json".
Definition reservedBackupFilerDir : string := "/.seaweedfs-operator/backups".
Definition defaultFilerPath : string := "/".

Definition filesystemMountPath (fs : option FilesystemBackupStore) : string :=
  match fs with
  | Some fs => if negb (bool_decide (fs_MountPath fs = "")) then fs_MountPath fs else "/backup"
  | None => "/backup"
  end.
Definition filerPathOrDefault (p : string) : string :=
  if bool_decide (p = "") then defaultFilerPath else p.
Definition metaRelPath (cluster backupName : string) : string :=
  path_Join [cluster; backupName; "filer.meta.gz"].
Definition reservedFilerMetaPath (backupName : string) : string :=
  path_Join [reservedBackupFilerDir; backupName; "filer.meta.gz"].

Definition mirrorSinkBase (st : BackupStorageSpec) : string :=
  let t := st_Type st in
  if bool_decide (t = BackupStorageS3) then match st_S3 st with Some s => s3_Directory s | None => "/" end
  else if bool_decide (t = BackupStorageGCS) then match st_GCS st with Some s => gcs_Directory s | None => "/" end
  else if bool_decide (t = BackupStorageAzure) then match st_Azure st with Some s => azure_Directory s | None => "/" end
  else if bool_decide (t = BackupStorageB2) then match st_B2 st with Some s => b2_Directory s | None => "/" end
  else if bool_decide (t = BackupStorageFilesystem) then filesystemMountPath (st_Filesystem st)
  else "/".
Definition mirrorSinkDirectory (storageName : string) (st : BackupStorageSpec) (cluster : string) : string :=
  let base := mirrorSinkBase st in
  let base := if bool_decide (base = "") then "/" else base in
  path_Join [base; cluster; "data"].

(** ** replication.toml *)
Definition backslash : ascii := "092"%char.
Definition toml_escape (c : ascii) : string :=
  match nat_of_ascii c with
  | 92 => String backslash (String backslash EmptyString)
  | 34 => String backslash dquote
  | 10 => String backslash "n"
  | 9 => String backslash "t"
  | _ => String c EmptyString
  end.
Fixpoint toml_escapes (s : string) : string :=
  match s with
  | EmptyString => EmptyString
  | String c s' => toml_escape c +:+ toml_escapes s'
  end.
Definition tomlString (s : string) : string := dquote +:+ toml_escapes s +:+ dquote.

(** [fmt.Sprintf("%t", b)] *)
Definition fmt_t (b : bool) : string := if b then "true" else "false".
Definition requires (storageName type : string) : error :=
  ErrOther ("storage " +:+ fmt_q storageName +:+ ": type " +:+ type +:+ " requires the " +:+ type +:+ " block").

(** [creds] is the data of the credentials Secret, empty when there is none. *)
Definition renderReplicationToml (storageName : string) (st : BackupStorageSpec) (cluster : string)
    (creds : gmap string string) : result string :=
  let get k := default "" (creds !! k) in
  let dir := mirrorSinkDirectory storageName st cluster in
  let t := st_Type st in
  if bool_decide (t = BackupStorageS3) then
    match st_S3 st with
    | None => Err (requires storageName "s3")
    | Some s3 =>
        let region := if bool_decide (s3_Region s3 = "") then "us-east-2" else s3_Region s3 in
        let forcePath := default true (s3_ForcePathStyle s3) in
        Ok ("[sink.s3]" +:+ nl +:+ "enabled = true" +:+ nl +:+
            "aws_access_key_id = " +:+ tomlString (get BackupSecretKeyAWSAccessKeyID) +:+ nl +:+
            "aws_secret_access_key = " +:+ tomlString (get BackupSecretKeyAWSSecretAccessKey) +:+ nl +:+
            "region = " +:+ tomlString region +:+ nl +:+
            "bucket = " +:+ tomlString (s3_Bucket s3) +:+ nl +:+
            "directory = " +:+ tomlString dir +:+ nl +:+
            "endpoint = " +:+ tomlString (s3_Endpoint s3) +:+ nl +:+
            "s3_force_path_style = " +:+ fmt_t forcePath +:+ nl +:+
            "is_incremental = false" +:+ nl)
    end
  else if bool_decide (t = BackupStorageGCS) then
    match st_GCS st with
    | None => Err (requires storageName "gcs")
    | Some gcs =>
        Ok ("[sink.google_cloud_storage]" +:+ nl +:+ "enabled = true" +:+ nl +:+
            (if negb (bool_decide (get BackupSecretKeyGCSCredentials = ""))
             then "google_application_credentials = " +:+
                  tomlString (path_Join [backupConfigDir; gcsKeyFileName]) +:+ nl
             else "") +:+
            "bucket = " +:+ tomlString (gcs_Bucket gcs) +:+ nl +:+
            "directory = " +:+ tomlString dir +:+ nl +:+
            "is_incremental = false" +:+ nl)
    end
  else if bool_decide (t = BackupStorageAzure) then
    match st_Azure st with
    | None => Err (requires storageName "azure")
    | Some azure =>
        Ok ("[sink.azure]" +:+ nl +:+ "enabled = true" +:+ nl +:+
            "account_name = " +:+ tomlString (azure_AccountName azure) +:+ nl +:+
            "account_key = " +:+ tomlString (get BackupSecretKeyAzureAccountKey) +:+ nl +:+
            "container = " +:+ tomlString (azure_Container azure) +:+ nl +:+
            "directory = " +:+ tomlString dir +:+ nl +:+
            "is_incremental = false" +:+ nl)
    end
  else if bool_decide (t = BackupStorageB2) then
    match st_B2 st with
    | None => Err (requires storageName "b2")
    | Some b2 =>
        Ok ("[sink.backblaze]" +:+ nl +:+ "enabled = true" +:+ nl +:+
            "b2_account_id = " +:+ tomlString (get BackupSecretKeyB2AccountID) +:+ nl +:+
            "b2_master_application_key = " +:+ tomlString (get BackupSecretKeyB2AppKey) +:+ nl +:+
            "b2_region = " +:+ tomlString (b2_Region b2) +:+ nl +:+
            "bucket = " +:+ tomlString (b2_Bucket b2) +:+ nl +:+
            "directory = " +:+ tomlString dir +:+ nl +:+
            "is_incremental = false" +:+ nl)
    end
  else if bool_decide (t = BackupStorageFilesystem) then
    match st_Filesystem st with
    | None => Err (requires storageName "filesystem")
    | Some _ =>
        Ok ("[sink.local]" +:+ nl +:+ "enabled = true" +:+ nl +:+
            "directory = " +:+ tomlString dir +:+ nl +:+
            "is_incremental = false" +:+ nl)
    end
  else Err (ErrOther ("storage " +:+ fmt_q storageName +:+ ": unsupported type " +:+ fmt_q t)).

Definition resolveStorage (m : Seaweed) (name : string) : result BackupStorageSpec :=
  match sw_Backup (sw_Spec m) with
  | Some b =>
      if bool_decide (bkp_Storages b = ∅)
      then Err (ErrOther ("cluster " +:+ fmt_q (Name (sw_Meta m)) +:+ " has no spec.backup.storages configured"))
      else match bkp_Storages b !! name with
           | Some st => Ok st
           | None => Err (ErrOther ("storage " +:+ fmt_q name +:+ " not found in cluster " +:+
                                    fmt_q (Name (sw_Meta m)) +:+ " spec.backup.storages"))
           end
  | None => Err (ErrOther ("cluster " +:+ fmt_q (Name (sw_Meta m)) +:+ " has no spec.backup.storages configured"))
  end.

(** ** The sink of a storage

    What the mirror should be told: the section and its settings. *)
Inductive toml_value := TStr (s : string) | TBool (b : bool).
#[export] Instance toml_value_eq_dec : EqDecision toml_value.
Proof. solve_decision. Defined.
Abbreviation settings := (list (string * toml_value)).
Definition sink_of (st : BackupStorageSpec) (dir : string) (creds : gmap string string)
    : option (string * settings) :=
  let get (k : string) := TStr (default "" (creds !! k)) in
  let common := [("directory", TStr dir)] in
  let t := st_Type st in
  if bool_decide (t = "s3") then s3 ← st_S3 st;
    Some ("sink.s3",
      [("enabled", TBool true);
       ("aws_access_key_id", get BackupSecretKeyAWSAccessKeyID);
       ("aws_secret_access_key", get BackupSecretKeyAWSSecretAccessKey);
       ("region", TStr (if bool_decide (s3_Region s3 = "") then "us-east-2" else s3_Region s3));
       ("bucket", TStr (s3_Bucket s3))] ++ common ++
      [("endpoint", TStr (s3_Endpoint s3));
       ("s3_force_path_style", TBool (default true (s3_ForcePathStyle s3)));
       ("is_incremental", TBool false)])
  else if bool_decide (t = "gcs") then gcs ← st_GCS st;
    Some ("sink.google_cloud_storage",
      [("enabled", TBool true)] ++
      (if negb (bool_decide (default "" (creds !! BackupSecretKeyGCSCredentials) = ""))
       then [("google_application_credentials", TStr "/etc/seaweedfs/gcs.json")] else []) ++
      [("bucket", TStr (gcs_Bucket gcs))] ++ common ++ [("is_incremental", TBool false)])
  else if bool_decide (t = "azure") then azure ← st_Azure st;
    Some ("sink.azure",
      [("enabled", TBool true);
       ("account_name", TStr (azure_AccountName azure));
       ("account_key", get BackupSecretKeyAzureAccountKey);
       ("container", TStr (azure_Container azure))] ++ common ++ [("is_incremental", TBool false)])
  else if bool_decide (t = "b2") then b2 ← st_B2 st;
    Some ("sink.backblaze",
      [("enabled", TBool true);
       ("b2_account_id", get BackupSecretKeyB2AccountID);
       ("b2_master_application_key", get BackupSecretKeyB2AppKey);
       ("b2_region", TStr (b2_Region b2));
       ("bucket", TStr (b2_Bucket b2))] ++ common ++ [("is_incremental", TBool false)])
  else if bool_decide (t = "filesystem") then _ ← st_Filesystem st;
    Some ("sink.local", [("enabled", TBool true)] ++ common ++ [("is_incremental", TBool false)])
  else None.

(** ** Reading TOML

    A raw control character other than a tab is an error, as in TOML 1.0. *)
Definition control (c : ascii) : bool :=
  let n := nat_of_ascii c in ((n <? 32) && negb (n =? 9)) || (n =? 127).
Definition unescape_char (c : ascii) : option ascii :=
  match c with
  | "034" => Some "034" | "092" => Some "092"
  | "n" => Some "010" | "t" => Some "009" | "r" => Some "013"
  | _ => None
  end%char.
(** The text up to the closing quote, and what follows it. *)
Fixpoint basic_string (s : string) : option (string * string) :=
  match s with
  | EmptyString => None
  | String c s' =>
      if Ascii.eqb c "034" then Some (EmptyString, s')
      else if Ascii.eqb c backslash then
        match s' with
        | String e s'' => d ← unescape_char e; '(v, rest) ← basic_string s''; Some (String d v, rest)
        | EmptyString => None
        end
      else if control c then None
      else '(v, rest) ← basic_string s'; Some (String c v, rest)
  end.
Definition read_value (v : string) : option toml_value :=
  if bool_decide (v = "true") then Some (TBool true)
  else if bool_decide (v = "false") then Some (TBool false)
  else match v with
       | String c s =>
           if Ascii.eqb c "034" then
             '(x, rest) ← basic_string s; if bool_decide (rest = "") then Some (TStr x) else None
           else None
       | EmptyString => None
       end.
(** Bare keys: letters, digits, dashes and underscores. *)
Definition bare_key_char (c : ascii) : bool :=
  let n := nat_of_ascii c in
  is_digit c || ((97 <=? n) && (n <=? 122)) || ((65 <=? n) && (n <=? 90)) || (n =? 45) || (n =? 95).
Fixpoint read_setting (key l : string) : option (string * toml_value) :=
  match l with
  | String c l' =>
      if bare_key_char c then read_setting (key +:+ String c EmptyString) l'
      else if HasPrefix l " = " then v ← read_value (str_drop 3 l); Some (key, v)
      else None
  | EmptyString => None
  end.
(** Sections and dotted names. *)
Definition section_char (c : ascii) : bool := bare_key_char c || Ascii.eqb c ".".
Fixpoint read_section (name l : string) : option string :=
  match l with
  | String c l' =>
      if section_char c then read_section (name +:+ String c EmptyString) l'
      else if bool_decide (l = "]") then Some name else None
  | EmptyString => None
  end.
(** [acc] holds the sections read so far, the current one first. *)
Fixpoint read_lines (acc : list (string * settings)) (ls : list string)
    : option (list (string * settings)) :=
  match ls with
  | [] => Some (reverse acc)
  | l :: ls =>
      match l with
      | EmptyString => read_lines acc ls
      | String c l' =>
          if Ascii.eqb c "[" then name ← read_section "" l'; read_lines ((name, []) :: acc) ls
          else
            '(k, v) ← read_setting "" l;
            match acc with
            | (name, kvs) :: before => read_lines ((name, kvs ++ [(k, v)]) :: before) ls
            | [] => None
            end
      end
  end.
Definition read_toml (text : string) : option (list (string * settings)) :=
  read_lines [] (Split text "010").

(** ** What is rendered is read back *)
Definition legal_char (c : ascii) : bool := negb (control c) || Ascii.eqb c "010".
Definition legal_value (v : toml_value) : bool :=
  match v with TStr s => all_chars legal_char s | TBool _ => true end.

Lemma basic_string_escape c t :
  basic_string (toml_escape c +:+ t) =
  if legal_char c then '(v, rest) ← basic_string t; Some (String c v, rest) else None.
Proof. by destruct c as [[] [] [] [] [] [] [] []]. Qed.
Lemma basic_string_escapes s rest :
  all_chars legal_char s = true ->
  basic_string (toml_escapes s +:+ dquote +:+ rest) = Some (s, rest).
Proof.
  induction s as [|c s IH]; [done|]. intros [Hc Hs]%andb_true_iff. cbn [toml_escapes].
  rewrite string_app_assoc, basic_string_escape, Hc, IH by done. done.
Qed.
Lemma read_value_tomlString s :
  all_chars legal_char s = true -> read_value (tomlString s) = Some (TStr s).
Proof.
  intros Hs. unfold read_value. rewrite !bool_decide_false by by intros [=].
  change (tomlString s) with (String "034" (toml_escapes s +:+ dquote +:+ "")).
  cbv iota beta. rewrite Ascii.eqb_refl, basic_string_escapes by done. done.
Qed.
Lemma escape_no_newline c : has_char "010" (toml_escape c) = false.
Proof. by destruct c as [[] [] [] [] [] [] [] []]. Qed.
Lemma tomlString_no_newline s : has_char "010" (tomlString s) = false.
Proof.
  unfold tomlString. rewrite !has_char_app. cbn [has_char dquote].
  induction s as [|c s IH]; [done|]. cbn [toml_escapes]. by rewrite has_char_app, escape_no_newline.
Qed.

Definition render_value (v : toml_value) : string :=
  match v with TStr s => tomlString s | TBool b => fmt_t b end.
Definition render_setting (kv : string * toml_value) : string := kv.1 +:+ " = " +:+ render_value kv.2.
Definition render_sink (x : string * settings) : string :=
  "[" +:+ x.1 +:+ "]" +:+ nl +:+ concat_strings (map (fun kv => render_setting kv +:+ nl) x.2).

Lemma read_rendered_value v : legal_value v = true -> read_value (render_value v) = Some v.
Proof. destruct v as [s|[]]; [apply read_value_tomlString|done|done]. Qed.
Lemma render_value_no_newline v : has_char "010" (render_value v) = false.
Proof. destruct v as [s|[]]; [apply tomlString_no_newline|done|done]. Qed.

Lemma read_setting_key acc k v :
  all_chars bare_key_char k = true ->
  read_setting acc (k +:+ " = " +:+ v) = x ← read_value v; Some (acc +:+ k, x).
Proof.
  revert acc; induction k as [|c k IH]; intros acc.
  - intros _. change ("" +:+ " = " +:+ v) with (" = " +:+ v). rewrite string_app_nil.
    by destruct v.
  - intros [Hc Hk]%andb_true_iff. change (String c k +:+ " = " +:+ v) with (String c (k +:+ " = " +:+ v)).
    cbn [read_setting]. rewrite Hc, IH by done. by rewrite string_app_assoc.
Qed.
Lemma read_section_name acc n :
  all_chars section_char n = true -> read_section acc (n +:+ "]") = Some (acc +:+ n).
Proof.
  revert acc; induction n as [|c n IH]; intros acc; [intros _; by rewrite string_app_nil|].
  intros [Hc Hn]%andb_true_iff. change (String c n +:+ "]") with (String c (n +:+ "]")).
  cbn [read_section]. rewrite Hc, IH by done. by rewrite string_app_assoc.
Qed.

Definition legal_setting (kv : string * toml_value) : bool :=
  all_chars bare_key_char kv.1 && negb (bool_decide (kv.1 = "")) && legal_value kv.2.
Lemma bare_key_line k v c l :
  all_chars bare_key_char k = true -> k <> "" -> k +:+ v = String c l -> Ascii.eqb c "[" = false.
Proof.
  destruct k as [|d k]; [done|]. intros [Hd _]%andb_true_iff _.
  change (String d (k +:+ v) = String c l -> Ascii.eqb c "[" = false). intros [= -> _].
  apply Ascii.eqb_neq. by intros ->.
Qed.
Lemma read_lines_settings name before kvs kvs' rest :
  forallb legal_setting kvs' = true ->
  read_lines ((name, kvs) :: before) (map render_setting kvs' ++ rest) =
  read_lines ((name, kvs ++ kvs') :: before) rest.
Proof.
  revert kvs; induction kvs' as [|[k v] kvs' IH]; intros kvs; [by rewrite app_nil_r|].
  intros [[[Hk Hne]%andb_true_iff Hv]%andb_true_iff Hr]%andb_true_iff.
  cbn [map app read_lines]. destruct (render_setting (k, v)) as [|c l] eqn:Hl.
  - exfalso. unfold render_setting in Hl. by destruct k.
  - apply negb_true_iff, bool_decide_eq_false in Hne.
    rewrite (bare_key_line _ _ _ _ Hk Hne Hl). rewrite <-Hl. change (render_setting (k, v)) with (k +:+ " = " +:+ render_value v).
    rewrite read_setting_key by done. rewrite read_rendered_value by done. cbn [mbind option_bind].
    rewrite IH by done. by rewrite <-app_assoc.
Qed.
Lemma setting_no_newline kv : legal_setting kv = true -> has_char "010" (render_setting kv) = false.
Proof.
  intros [[Hk _]%andb_true_iff _]%andb_true_iff. unfold render_setting.
  rewrite !has_char_app, render_value_no_newline. by rewrite (has_char_none bare_key_char).
Qed.
Lemma settings_split kvs :
  forallb legal_setting kvs = true ->
  Split (concat_strings (map (fun kv => render_setting kv +:+ nl) kvs)) "010" =
  map render_setting kvs ++ [""].
Proof.
  induction kvs as [|kv kvs IH]; [done|]. intros [Hkv Hr]%andb_true_iff. cbn [map app concat_strings foldr].
  rewrite string_app_assoc. change (nl +:+ foldr String.append "" ?x) with (String "010" (concat_strings x)).
  rewrite Split_cons by by apply setting_no_newline. by rewrite IH.
Qed.
Lemma read_render_sink x :
  all_chars section_char x.1 = true -> forallb legal_setting x.2 = true ->
  read_toml (render_sink x) = Some [x].
Proof.
  destruct x as [name kvs]. cbn [fst snd]. intros Hn Hk. unfold read_toml, render_sink. cbn [fst snd].
  rewrite <-!string_app_assoc. rewrite (string_app_assoc _ nl).
  change (nl +:+ concat_strings ?x) with (String "010" (concat_strings x)).
  rewrite Split_cons, settings_split; [|done|].
  - rewrite string_app_assoc. cbn [read_lines].
    change ("[" +:+ name +:+ "]") with (String "[" (name +:+ "]")). cbv iota.
    rewrite Ascii.eqb_refl, read_section_name by done. cbn [mbind option_bind].
    change ("" +:+ name) with name. by rewrite read_lines_settings.
  - rewrite !has_char_app. by rewrite (has_char_none section_char "010" name Hn eq_refl).
Qed.

Definition sink_keys_legal (x : string * settings) : bool :=
  all_chars section_char x.1 &&
  forallb (fun kv => all_chars bare_key_char kv.1 && negb (bool_decide (kv.1 = ""))) x.2.
Lemma legal_settings kvs :
  forallb (fun kv => all_chars bare_key_char kv.1 && negb (bool_decide (kv.1 = ""))) kvs = true ->
  forallb (fun kv => legal_value kv.2) kvs = true -> forallb legal_setting kvs = true.
Proof.
  induction kvs as [|kv kvs IH]; [done|]. intros [Hk Hks]%andb_true_iff [Hv Hvs]%andb_true_iff.
  cbn [forallb]. unfold legal_setting at 1. rewrite Hk, Hv. by apply IH.
Qed.

(** Rendering is rendering the sink, of any storage that has one. *)
Lemma render_sink_of storageName st cluster creds :
  match sink_of st (mirrorSinkDirectory storageName st cluster) creds with
  | Some sink => renderReplicationToml storageName st cluster creds = Ok (render_sink sink) /\
                 sink_keys_legal sink = true
  | None => exists err, renderReplicationToml storageName st cluster creds = Err err
  end.
Proof.
  unfold sink_of, renderReplicationToml.
  change BackupStorageS3 with "s3"; change BackupStorageGCS with "gcs";
  change BackupStorageAzure with "azure"; change BackupStorageB2 with "b2";
  change BackupStorageFilesystem with "filesystem".
  generalize (mirrorSinkDirectory storageName st cluster); intros dir.
  assert (Hsink : forall name kvs, render_sink (name, kvs) = "[" +:+ name +:+ "]" +:+ nl +:+
    foldr (fun kv rest => kv.1 +:+ " = " +:+ render_value kv.2 +:+ nl +:+ rest) "" kvs).
  { intros name kvs. unfold render_sink. cbn [fst snd]. do 4 f_equal.
    induction kvs as [|[k v] kvs IH]; [done|]. cbn [map concat_strings foldr].
    unfold render_setting at 1. cbn [fst snd]. rewrite !string_app_assoc. by do 4 f_equal. }
  repeat match goal with |- context [bool_decide (st_Type st = ?t)] =>
    destruct (bool_decide (st_Type st = t)) end;
  [destruct (st_S3 st)|destruct (st_GCS st)|destruct (st_Azure st)|
   destruct (st_B2 st)|destruct (st_Filesystem st)|]; cbn [mbind option_bind]; eauto.
  all: try (split; [rewrite Hsink; reflexivity|reflexivity]).
  destruct (negb _); (split; [rewrite Hsink; reflexivity|reflexivity]).
Qed.

(** The replication.toml of a storage says exactly its sink: it is rendered
    iff the storage has the block of its type, and reading it gives back one
    section with the settings of the sink, whatever the buckets, directories and
    credentials contain, as long as their only control characters are tabs and
    newlines. *)
Theorem replication_toml_roundtrip storageName st cluster creds :
  match sink_of st (mirrorSinkDirectory storageName st cluster) creds with
  | Some sink => exists text, renderReplicationToml storageName st cluster creds = Ok text /\
      (forallb (fun kv => legal_value kv.2) sink.2 = true -> read_toml text = Some [sink])
  | None => exists err, renderReplicationToml storageName st cluster creds = Err err
  end.
Proof.
  pose proof (render_sink_of storageName st cluster creds) as Hr.
  destruct (sink_of _ _ _) as [sink|]; [|done]. destruct Hr as [Hr [Hn Hk]%andb_true_iff].
  eexists. split; [exact Hr|]. intros Hv. by apply read_render_sink, legal_settings.
Qed.

(** A carriage return in a credential is kept raw, which TOML does not allow. *)
Lemma carriage_return_unreadable :
  read_toml (render_sink ("sink.s3", [("aws_access_key_id", TStr (String "A" (String "013" "")))])) = None.
Proof. by vm_compute. Qed.

(** ** Directories *)
Lemma prefix_cancel (p q r : string) : String.prefix (p +:+ q) (p +:+ r) = String.prefix q r.
Proof.
  induction p as [|c p IH]; [done|].
  change (String.prefix (String c (p +:+ q)) (String c (p +:+ r)) = String.prefix q r).
  cbn [String.prefix]. by destruct (ascii_dec c c).
Qed.
Lemma prefix_segment a b x y :
  has_char slash a = false -> has_char slash b = false ->
  String.prefix (a +:+ String slash x) (b +:+ String slash y) = true -> a = b.
Proof.
  revert b; induction a as [|c a IH]; intros [|d b]; [done|..].
  - intros _ [Hd _]%orb_false_iff. change ("" +:+ ?s) with s.
    change (String d b +:+ String slash y) with (String d (b +:+ String slash y)). cbn [String.prefix].
    destruct (ascii_dec slash d) as [<-|]; [by rewrite Ascii.eqb_refl in Hd|done].
  - intros [Hc _]%orb_false_iff _. change ("" +:+ ?s) with s.
    change (String c a +:+ String slash x) with (String c (a +:+ String slash x)). cbn [String.prefix].
    destruct (ascii_dec c slash) as [->|]; [by rewrite Ascii.eqb_refl in Hc|done].
  - intros [_ Ha]%orb_false_iff [_ Hb]%orb_false_iff.
    change (String c a +:+ String slash x) with (String c (a +:+ String slash x)).
    change (String d b +:+ String slash y) with (String d (b +:+ String slash y)). cbn [String.prefix].
    destruct (ascii_dec c d) as [->|]; [|done]. intros Hp. f_equal. by apply IH.
Qed.

Lemma mirror_directory storageName st cluster :
  segment_name cluster ->
  mirrorSinkDirectory storageName st cluster =
    clean_root (if bool_decide (mirrorSinkBase st = "") then "/" else mirrorSinkBase st) +:+
    cluster +:+ "/data".
Proof.
  intros Hc. unfold mirrorSinkDirectory. rewrite path_Join_names; [done|by case_bool_decide|done|].
  apply Forall_cons; split; [done|]. apply Forall_singleton. by apply (bool_decide_unpack _).
Qed.

(** The data mirrors of different clusters never share a directory of a
    storage, and none lies below another's: cluster names are object names, which
    are never empty, dots or with a slash. *)
Theorem mirror_directories_disjoint storageName st c c' :
  segment_name c -> segment_name c' -> c <> c' ->
  HasPrefix (mirrorSinkDirectory storageName st c +:+ "/")
            (mirrorSinkDirectory storageName st c' +:+ "/") = false.
Proof.
  intros Hc Hc' Hne. rewrite !mirror_directory by done. set (root := clean_root _).
  unfold HasPrefix. rewrite !string_app_assoc, prefix_cancel. apply not_true_iff_false.
  intros Hp. apply Hne. symmetry. eapply prefix_segment; [apply Hc'|apply Hc|exact Hp].
Qed.

(** ** Evaluations *)
Definition s3_storage (bucket : string) : BackupStorageSpec := {|
  st_Type := "s3";
  st_S3 := Some {| s3_Bucket := bucket; s3_Region := ""; s3_Endpoint := "";
                   s3_Directory := "/a/../b//"; s3_ForcePathStyle := None |};
  st_GCS := None; st_Azure := None; st_B2 := None; st_Filesystem := None;
  st_CredentialsSecret := None |}.

(** A secret key with quotes, a backslash and a forged section. *)
Lemma replication_toml_roundtrip_witness :
  let key := dquote +:+ nl +:+ "[sink.local]" +:+ nl +:+ String backslash "" in
  let creds := {[ BackupSecretKeyAWSSecretAccessKey := key ]} : gmap string string in
  exists text sink, renderReplicationToml "s" (s3_storage "b") "w" creds = Ok text /\
    read_toml text = Some [("sink.s3", sink)] /\
    ("aws_secret_access_key", TStr key) ∈ sink /\ ("directory", TStr "/b/w/data") ∈ sink.
Proof.
  intros key creds.
  destruct (replication_toml_roundtrip "s" (s3_storage "b") "w" creds) as (text & Ht & Hread).
  exists text. eexists. split; [exact Ht|]. split; [by apply Hread|].
  split; apply (bool_decide_unpack _); by vm_compute.
Defined.

Lemma mirror_directories_disjoint_witness :
  HasPrefix (mirrorSinkDirectory "s" (s3_storage "b") "w" +:+ "/")
            (mirrorSinkDirectory "s" (s3_storage "b") "w2" +:+ "/") = false.
Proof. apply mirror_directories_disjoint; by apply (bool_decide_unpack _). Defined.
