(* ===== verification/BackupJobs.v ===== *)
(** * Backup and restore Jobs (backup_jobs.go)

    The shell programs of the snapshot and restore Jobs, their pods, and the
    Deployment of a data mirror.  [cert_manager] is the cached result of the probe
    for cert-manager, which decides whether TLS takes effect. *)
From S2P Require Import Prelude Prog CoreTypes ApiTypes Effects Machinery Sim RefGrant Cluster.
From S2P Require Import Trace.
From S2P Require Import Upsert.
From S2P Require Import Calendar SecurityConfig GoPath Component BackupStorage.

(** ** Shell programs *)
Definition weedCmd (m : Seaweed) (subcommand : string) (args : list string) : string :=
  Join (weedPreamble m [] subcommand ++ args) " ".
Definition metaLoadStatement (file filerPath : string) : string :=
  let fp := filerPathOrDefault filerPath in
  if negb (bool_decide (fp = "/")) then "fs.meta.load -dirPrefix=" +:+ fp +:+ " " +:+ file
  else "fs.meta.load " +:+ file.

Definition backupStorageVolumeName : string := "backup-storage".
Definition filesystemPVCVolume (fs : FilesystemBackupStore) : Volume * VolumeMount :=
  ({| vol_Name := backupStorageVolumeName; vol_Source := ClaimVolume (fs_ExistingClaim fs) |},
   {| vm_Name := backupStorageVolumeName; vm_ReadOnly := false;
      vm_MountPath := filesystemMountPath (Some fs); vm_SubPath := fs_SubPath fs;
      vm_Propagation := None |}).

Definition weed_shell (m : Seaweed) : string :=
  weedCmd m "shell" ["-master=" +:+ master_peers m; "-filer=" +:+ getFilerAddress m].
Definition snapshotScript (m : Seaweed) (st : BackupStorageSpec) (cluster backupName filerPath : string)
    : string * string :=
  let filer := getFilerAddress m in
  let fp := filerPathOrDefault filerPath in
  let shell := weed_shell m in
  if bool_decide (st_Type st = BackupStorageFilesystem) then
    let out := path_Join [filesystemMountPath (st_Filesystem st); metaRelPath cluster backupName] in
    (Join ["set -euo pipefail";
           "mkdir -p " +:+ path_Dir out;
           "echo 'fs.meta.save -o " +:+ out +:+ " " +:+ fp +:+ "' | " +:+ shell;
           "test -s " +:+ out;
           "echo 'metadata snapshot written to " +:+ out +:+ "'";
           ""] nl, out)
  else
    let scratch := path_Join [backupScratchDir; "filer.meta.gz"] in
    let dstURL := "http://" +:+ filer +:+ reservedBackupFilerDir +:+ "/" +:+ backupName +:+ "/" in
    let copyCmd := weedCmd m "filer.copy" [scratch; dstURL] in
    let staged := reservedFilerMetaPath backupName in
    (Join ["set -euo pipefail";
           "echo 'fs.meta.save -o " +:+ scratch +:+ " " +:+ fp +:+ "' | " +:+ shell;
           "test -s " +:+ scratch;
           copyCmd;
           "echo 'metadata snapshot staged at filer " +:+ staged +:+
             "; data mirror replicates it to storage " +:+ fmt_q (mirrorSinkDirectory "" st cluster) +:+ "'";
           ""] nl, staged).

Definition restoreScript (m : Seaweed) (localPath filerURL filerPath : string) : string :=
  let shell := weed_shell m in
  if negb (bool_decide (localPath = "")) then
    Join ["set -euo pipefail";
          "test -s " +:+ localPath;
          "echo '" +:+ metaLoadStatement localPath filerPath +:+ "' | " +:+ shell;
          "echo 'metadata restored from " +:+ localPath +:+ "'";
          ""] nl
  else
    let scratch := path_Join [backupScratchDir; "restore.meta.gz"] in
    let catCmd := weedCmd m "filer.cat" ["-o"; scratch; filerURL] in
    Join ["set -euo pipefail";
          catCmd;
          "test -s " +:+ scratch;
          "echo '" +:+ metaLoadStatement scratch filerPath +:+ "' | " +:+ shell;
          "echo 'metadata restored from " +:+ filerURL +:+ "'";
          ""] nl.

(** ** Pods and Jobs *)
Definition pvc_parts (st : BackupStorageSpec) : list Volume * list VolumeMount :=
  if bool_decide (st_Type st = BackupStorageFilesystem)
  then match st_Filesystem st with
       | Some fs => let '(vol, mount) := filesystemPVCVolume fs in ([vol], [mount])
       | None => ([], [])
       end
  else ([], []).
Definition backupPodSpec (cert_manager : bool) (m : Seaweed) (name command : string)
    (st : BackupStorageSpec) (mountPVC : bool) : PodSpec :=
  let scratchVol := {| vol_Name := "scratch"; vol_Source := EmptyDir |} in
  let scratchMount := {| vm_Name := "scratch"; vm_ReadOnly := false;
                         vm_MountPath := backupScratchDir; vm_SubPath := "";
                         vm_Propagation := None |} in
  let '(pvcVols, pvcMounts) := if mountPVC then pvc_parts st else ([], []) in
  let '(tlsVols, tlsMounts) := tlsVolumesAndMounts cert_manager m in
  command_pod "Never" (sw_ImagePullSecrets (sw_Spec m)) (Some false)
    (command_container name (backupImage m) (sw_ImagePullPolicy (sw_Spec m)) ["/bin/sh"; "-ec"; command]
       ([scratchMount] ++ pvcMounts ++ tlsMounts))
    ([scratchVol] ++ pvcVols ++ tlsVols).

Definition backupBackoffLimit : Z := 3.
Definition newJob (namespace name : string) (labels : gmap string string) (pod : PodSpec) : Job := {|
  job_Meta := {| Name := name; Namespace := namespace; Generation := 0; CreationTimestamp := 0;
                 DeletionTimestamp := None; Labels := labels; Annotations := ∅; Finalizers := [];
                 OwnerReferences := []; UID := "" |};
  job_BackoffLimit := backupBackoffLimit; job_TemplateLabels := labels; job_Pod := pod;
  job_Conditions := [] |}.
Definition buildSnapshotJob (cert_manager : bool) (m : Seaweed) (jobName : string) (backup : SeaweedBackup)
    (st : BackupStorageSpec) : Job * string :=
  let '(script, dest) := snapshotScript m st (bkspec_ClusterName (bk_Spec backup)) (Name (bk_Meta backup))
                           (bkspec_FilerPath (bk_Spec backup)) in
  let pod := backupPodSpec cert_manager m "snapshot" script st true in
  let labels := {[ LabelBackupCluster := bkspec_ClusterName (bk_Spec backup) ]} in
  let sched := default "" (Labels (bk_Meta backup) !! LabelBackupSchedule) in
  let labels := if negb (bool_decide (sched = "")) then <[LabelBackupSchedule := sched]> labels else labels in
  (newJob (Namespace (bk_Meta backup)) jobName labels pod, dest).
Definition buildRestoreJob (cert_manager : bool) (m : Seaweed) (jobName : string) (restore : SeaweedRestore)
    (st : BackupStorageSpec) (localPath filerURL : string) : Job :=
  let script := restoreScript m localPath filerURL (rsspec_FilerPath (rs_Spec restore)) in
  let pod := backupPodSpec cert_manager m "restore" script st (negb (bool_decide (localPath = ""))) in
  let labels := {[ LabelBackupCluster := rsspec_ClusterName (rs_Spec restore) ]} in
  newJob (Namespace (rs_Meta restore)) jobName labels pod.

Definition JobComplete : string := "Complete".
Definition JobFailed : string := "Failed".
Fixpoint jobFinished_from (cs : list JobCondition) : bool * bool :=
  match cs with
  | [] => (false, false)
  | c :: cs =>
      if negb (jc_True c) then jobFinished_from cs
      else if bool_decide (jc_Type c = JobComplete) then (true, true)
      else if bool_decide (jc_Type c = JobFailed) then (true, false)
      else jobFinished_from cs
  end.
Definition jobFinished (job : Job) : bool * bool := jobFinished_from (job_Conditions job).

(** ** The Deployment of a data mirror *)
Definition mirrorDeploymentName (cluster storage : string) : string :=
  cluster +:+ "-backup-mirror-" +:+ storage.
Definition mirrorReplicationSecretName (cluster storage : string) : string :=
  cluster +:+ "-backup-mirror-" +:+ storage +:+ "-config".
Definition LabelBackupStorage : string := "seaweed.seaweedfs.com/backup-storage".
Definition labelsForBackupMirror (cluster storage : string) : gmap string string :=
  <["app.kubernetes.io/name" := "seaweedfs"]>
  (<["app.kubernetes.io/component" := "backup-mirror"]>
  (<["app.kubernetes.io/instance" := cluster]>
  (<["app.kubernetes.io/managed-by" := "seaweedfs-operator"]>
  (<[LabelBackupCluster := cluster]>
   {[ LabelBackupStorage := storage ]})))).
Definition mirror_command (m : Seaweed) (mirror : BackupMirrorSpec) : list string :=
  let la := sw_LoggingArgs (sw_Spec m) in
  ["weed"] ++ (if (0 <? length la)%nat then la else ["-logtostderr=true"]) ++
  ["-config_dir=" +:+ backupConfigDir; "filer.backup"; "-filer=" +:+ getFilerAddress m;
   "-filerPath=" +:+ filerPathOrDefault (mirror_FilerPath mirror); "-initialSnapshot"].
Definition buildMirrorDeployment (cert_manager : bool) (m : Seaweed) (name replicationSecret : string)
    (mirror : BackupMirrorSpec) (st : BackupStorageSpec) (hasGCSKey : bool) : Deployment :=
  let labels := labelsForBackupMirror (Name (sw_Meta m)) (mirror_StorageName mirror) in
  let items := [("replication.toml", "replication.toml")] ++
               (if bool_decide (st_Type st = BackupStorageGCS) && hasGCSKey
                then [(gcsKeyFileName, gcsKeyFileName)] else []) in
  let configSources := [(replicationSecret, items)] ++
               (if securityConfigNeeded m
                then [(SecurityConfigSecretName m, [("security.toml", "security.toml")])] else []) in
  let '(tlsVols, tlsMounts) :=
    if tlsEffective cert_manager m
    then ([secret_volume tlsVolumeName (TLSServerSecretName m)], [read_only_mount tlsVolumeName tlsMountPath])
    else ([], []) in
  let '(pvcVols, pvcMounts) := pvc_parts st in
  {| dep_Meta := {| Name := name; Namespace := Namespace (sw_Meta m); Generation := 0;
                    CreationTimestamp := 0; DeletionTimestamp := None; Labels := labels; Annotations := ∅;
                    Finalizers := []; OwnerReferences := []; UID := "" |};
     dep_Replicas := Some 1%Z; dep_Selector := labels; dep_StrategyType := "Recreate";
     dep_RollingUpdate := None; dep_TemplateLabels := labels; dep_TemplateAnnotations := None;
     dep_Pod := command_pod "" (sw_ImagePullSecrets (sw_Spec m)) (Some false)
       (command_container "filer-backup" (backupImage m) (sw_ImagePullPolicy (sw_Spec m))
          (mirror_command m mirror) ([read_only_mount "weed-config" backupConfigDir] ++ tlsMounts ++ pvcMounts))
       ([{| vol_Name := "weed-config"; vol_Source := Projected configSources |}] ++ tlsVols ++ pvcVols);
     dep_StatusReplicas := 0; dep_AvailableReplicas := 0; dep_ReadyReplicas := 0 |}.

(** ** Pods are well formed *)
(** Volumes have distinct names, and exactly they are mounted. *)
Definition pod_mounts (p : PodSpec) : list VolumeMount := flat_map c_VolumeMounts (pod_Containers p).
Definition pod_ok (p : PodSpec) : Prop :=
  NoDup (map vol_Name (pod_Volumes p)) /\ map vm_Name (pod_mounts p) = map vol_Name (pod_Volumes p).
Lemma pod_mounts_command restart secrets links name image policy command mounts volumes :
  pod_mounts (command_pod restart secrets links (command_container name image policy command mounts) volumes) =
  mounts.
Proof. apply app_nil_r. Qed.
#[export] Instance pod_ok_dec p : Decision (pod_ok p).
Proof. unfold pod_ok. apply _. Defined.

Lemma pvc_parts_names st :
  map vm_Name (pvc_parts st).2 = map vol_Name (pvc_parts st).1 /\
  (map vol_Name (pvc_parts st).1 = [] \/ map vol_Name (pvc_parts st).1 = [backupStorageVolumeName]).
Proof. unfold pvc_parts. case_bool_decide; [destruct (st_Filesystem st)|]; auto. Qed.
Lemma tls_parts_names cert_manager m :
  let x := tlsVolumesAndMounts cert_manager m in
  map vm_Name x.2 = map vol_Name x.1 /\ sublist (map vol_Name x.1) [securityVolumeName; tlsVolumeName].
Proof.
  unfold tlsVolumesAndMounts. destruct (securityConfigNeeded m), (tlsEffective cert_manager m); cbn.
  all: split; [done|]; try apply sublist_skip; repeat constructor.
Qed.

(** The pods of the Jobs mount the security configuration exactly when their
    commands are told where it is. *)
Lemma config_dir_mounted cert_manager m subcommand :
  subcommand <> "-config_dir=" +:+ securityConfigMountPath ->
  "-config_dir=" +:+ securityConfigMountPath ∈ weedPreamble m [] subcommand <->
  read_only_mount securityVolumeName securityConfigMountPath ∈ (tlsVolumesAndMounts cert_manager m).2.
Proof.
  intros Hsub. unfold weedPreamble, tlsConfigDirArg, tlsVolumesAndMounts.
  destruct (securityConfigNeeded m); cbn [negb].
  - rewrite bool_decide_false by done. destruct (tlsEffective cert_manager m); cbn; set_solver.
  - rewrite bool_decide_true by done. split; intros Hx; exfalso.
    + cbn [negb app length Nat.ltb Nat.leb] in Hx.
      repeat (apply elem_of_cons in Hx as [Hx|Hx]); [done|done|by symmetry in Hx|by apply elem_of_nil in Hx].
    + destruct (tlsEffective cert_manager m); cbn [app fst snd] in Hx; [|by apply elem_of_nil in Hx].
      by apply list_elem_of_singleton in Hx.
Qed.

(** Every pod the backups run is well formed, for any storage and cluster: its
    volumes have distinct names and each is mounted once, nothing else is; and a
    Job's pod mounts the security configuration if and only if the weed commands
    of its script are given its directory. *)
Theorem backup_pods_wellformed cert_manager m st :
  (forall name command mountPVC, pod_ok (backupPodSpec cert_manager m name command st mountPVC)) /\
  (forall name secret mirror hasGCSKey,
     pod_ok (dep_Pod (buildMirrorDeployment cert_manager m name secret mirror st hasGCSKey))) /\
  (forall name command mountPVC,
     read_only_mount securityVolumeName securityConfigMountPath ∈
       pod_mounts (backupPodSpec cert_manager m name command st mountPVC) <->
     Forall (fun sub => "-config_dir=" +:+ securityConfigMountPath ∈ weedPreamble m [] sub)
       ["shell"; "filer.copy"; "filer.cat"]).
Proof.
  destruct (pvc_parts_names st) as [Hpm Hpv]. destruct (tls_parts_names cert_manager m) as [Htm Htv].
  pose proof (config_dir_mounted cert_manager m) as Hdir.
  unfold backupPodSpec, buildMirrorDeployment, pod_ok.
  destruct (tlsVolumesAndMounts cert_manager m) as [tlsVols tlsMounts].
  destruct (pvc_parts st) as [pvcVols pvcMounts] eqn:Hpvc. cbn [fst snd] in *.
  assert (Hnd : forall first l, (l = [] \/ l = [backupStorageVolumeName]) ->
    first <> backupStorageVolumeName -> first <> securityVolumeName -> first <> tlsVolumeName ->
    NoDup ([first] ++ l ++ map vol_Name tlsVols)).
  { intros first l Hl H1 H2 H3. eapply sublist_NoDup; [|apply sublist_app; [reflexivity|apply sublist_app;
      [|exact Htv]]]; [|instantiate (1 := [backupStorageVolumeName]); by destruct Hl as [-> | ->]; repeat constructor].
    cbn [app]. repeat (apply NoDup_cons; split; [rewrite ?elem_of_cons, ?elem_of_nil; intros Hx; by naive_solver|]).
    by apply NoDup_nil. }
  split_and!.
  - intros name command mountPVC. destruct mountPVC; rewrite pod_mounts_command; cbn [pod_Volumes command_pod].
    + rewrite !map_app. split; [by apply Hnd|]. by rewrite Hpm, Htm.
    + rewrite !map_app. split; [apply (Hnd "scratch" []); auto|]. by rewrite Htm.
  - intros name secret mirror hasGCSKey. unfold pvc_parts in *.
    destruct (tlsEffective cert_manager m); cbn [dep_Pod]; rewrite pod_mounts_command.
    all: cbn [command_pod pod_Volumes]; rewrite ?Hpvc, !map_app; cbn [app map vol_Name vm_Name].
    all: rewrite ?Hpm; split; [|done].
    all: destruct Hpv as [-> | ->]; by apply (bool_decide_unpack _).
  - intros name command mountPVC. rewrite !Forall_cons, Forall_nil, !Hdir by done.
    destruct mountPVC; rewrite pod_mounts_command, !elem_of_app.
    all: split; [|intros [? _]; by right; right].
    + intros [Hx|[Hx|?]]; [| |done].
      * by apply list_elem_of_singleton in Hx.
      * exfalso. apply (list_elem_of_fmap_2 vm_Name) in Hx. change (fmap vm_Name pvcMounts) with (map vm_Name pvcMounts) in Hx.
        rewrite Hpm in Hx. destruct Hpv as [Hv|Hv]; rewrite Hv in Hx; set_solver.
    + intros [Hx|[Hx|?]]; [by apply list_elem_of_singleton in Hx|by apply elem_of_nil in Hx|done].
Qed.
