(* ===== verification/BackupController.v ===== *)
(** * The SeaweedBackup controller (seaweedbackup_controller.go)

    A backup is Pending until its cluster and storage exist, Running while its Job
    runs, then Completed or Failed for good. *)
From S2P Require Import Prelude Prog CoreTypes ApiTypes Effects Machinery Sim RefGrant Cluster.
From S2P Require Import Trace.
From S2P Require Import Upsert.
From S2P Require Import Calendar SecurityConfig GoPath BackupStorage BackupJobs.

Definition backupRequeue : Z := 15 * Second.
Definition BackupConditionComplete : string := "Complete".
Definition BackupConditionClusterReachable : string := "ClusterReachable".

Definition bk_set_status (b : SeaweedBackup) (s : SeaweedBackupStatus) : SeaweedBackup :=
  {| bk_Meta := bk_Meta b; bk_Spec := bk_Spec b; bk_Status := s |}.
Definition bk_set_phase (phase : string) (b : SeaweedBackup) : SeaweedBackup :=
  let s := bk_Status b in bk_set_status b {|
  bkst_ObservedGeneration := bkst_ObservedGeneration s; bkst_Phase := phase; bkst_JobName := bkst_JobName s;
  bkst_Destination := bkst_Destination s; bkst_StartTime := bkst_StartTime s;
  bkst_CompletionTime := bkst_CompletionTime s; bkst_Conditions := bkst_Conditions s |}.
Definition bk_set_completion (now : Time) (b : SeaweedBackup) : SeaweedBackup :=
  let s := bk_Status b in bk_set_status b {|
  bkst_ObservedGeneration := bkst_ObservedGeneration s; bkst_Phase := bkst_Phase s;
  bkst_JobName := bkst_JobName s; bkst_Destination := bkst_Destination s;
  bkst_StartTime := bkst_StartTime s; bkst_CompletionTime := Some now;
  bkst_Conditions := bkst_Conditions s |}.
Definition bk_set_running (jobName dest : string) (now : Time) (b : SeaweedBackup) : SeaweedBackup :=
  let s := bk_Status b in bk_set_status b {|
  bkst_ObservedGeneration := Generation (bk_Meta b); bkst_Phase := BackupPhaseRunning;
  bkst_JobName := jobName; bkst_Destination := dest; bkst_StartTime := Some now;
  bkst_CompletionTime := bkst_CompletionTime s; bkst_Conditions := bkst_Conditions s |}.

Section controller.
Context `{ApiMachinery} `{Owners} (cert_manager : bool).

Definition bk_set_condition (type : string) (status : ConditionStatus) (reason message : string)
    (b : SeaweedBackup) : SeaweedBackup :=
  let s := bk_Status b in bk_set_status b {|
  bkst_ObservedGeneration := bkst_ObservedGeneration s; bkst_Phase := bkst_Phase s;
  bkst_JobName := bkst_JobName s; bkst_Destination := bkst_Destination s;
  bkst_StartTime := bkst_StartTime s; bkst_CompletionTime := bkst_CompletionTime s;
  bkst_Conditions := SetStatusCondition (bkst_Conditions s)
    {| cond_Type := type; cond_Status := status; cond_ObservedGeneration := Generation (bk_Meta b);
       cond_Reason := reason; cond_Message := message |} |}.

Definition pending (backup : SeaweedBackup) (reason msg : string) : op outcome :=
  let backup := bk_set_phase BackupPhasePending backup in
  let backup := bk_set_condition BackupConditionClusterReachable ConditionFalse reason msg backup in
  check kube (KStatusUpdate KBackup backup) catch err => Ret (Done noResult (Some err));
  Ret (Done (requeueIn backupRequeue) None).

Definition backup_job_name (b : SeaweedBackup) : string := boundedName (Name (bk_Meta b)) "-bkp".

(** The Job does not exist. *)
Definition startJob (cluster : Seaweed) (backup : SeaweedBackup) (st : BackupStorageSpec) : op outcome :=
  let jobName := backup_job_name backup in
  match getMasterPeersString cluster with None => Ret Panic | Some _ =>
  let '(built, dest) := buildSnapshotJob cert_manager cluster jobName backup st in
  match SetControllerReference (bk_Meta backup) "SeaweedBackup" (job_Meta built) with
  | inl err => Ret (Done noResult (Some err))
  | inr meta =>
      let built := {| job_Meta := meta; job_BackoffLimit := job_BackoffLimit built;
                      job_TemplateLabels := job_TemplateLabels built; job_Pod := job_Pod built;
                      job_Conditions := job_Conditions built |} in
      do created <- kube (KCreate KJob built);
      let running :=
        do now <- call ONow;
        let backup := bk_set_running jobName dest now backup in
        let backup := bk_set_condition BackupConditionClusterReachable ConditionTrue "Reachable"
                        "snapshot job created" backup in
        do err <- kube (KStatusUpdate KBackup backup);
        Ret (Done noResult err) in
      match created with
      | Some err => if negb (IsAlreadyExists err) then Ret (Done noResult (Some err)) else running
      | None => running
      end
  end
  end.

(** The Job exists: its state is reflected on the backup. *)
Definition reflectJob (backup : SeaweedBackup) (job : Job) : op outcome :=
  let '(finished, success) := jobFinished job in
  if negb finished then
    if negb (bool_decide (bkst_Phase (bk_Status backup) = BackupPhaseRunning)) then
      let backup := bk_set_phase BackupPhaseRunning backup in
      check kube (KStatusUpdate KBackup backup) catch err => Ret (Done noResult (Some err));
      Ret (Done (requeueIn backupRequeue) None)
    else Ret (Done (requeueIn backupRequeue) None)
  else
    do now <- call ONow;
    let backup := bk_set_completion now backup in
    if success then
      let backup := bk_set_phase BackupPhaseCompleted backup in
      let backup := bk_set_condition BackupConditionComplete ConditionTrue "SnapshotComplete"
                      "metadata snapshot completed" backup in
      do _ <- call (OEvent "Normal" "BackupCompleted" "metadata snapshot completed");
      do err <- kube (KStatusUpdate KBackup backup);
      Ret (Done noResult err)
    else
      let backup := bk_set_phase BackupPhaseFailed backup in
      let backup := bk_set_condition BackupConditionComplete ConditionFalse "SnapshotFailed"
                      ("snapshot job failed; see job " +:+ backup_job_name backup) backup in
      do _ <- call (OEvent "Warning" "BackupFailed" "snapshot job failed");
      do err <- kube (KStatusUpdate KBackup backup);
      Ret (Done noResult err).

Definition backup_terminal (b : SeaweedBackup) : bool :=
  bool_decide (bkst_Phase (bk_Status b) = BackupPhaseCompleted) ||
  bool_decide (bkst_Phase (bk_Status b) = BackupPhaseFailed).
Definition in_namespace_of (m : ObjectMeta) (name : string) : NamespacedName :=
  {| nn_Namespace := Namespace m; nn_Name := name |}.

Definition Reconcile (req : NamespacedName) : op outcome :=
  try backup <- kube (KGet KBackup req) catch err => Ret (Done noResult (IgnoreNotFound err));
  if backup_terminal backup then Ret (Done noResult None)
  else
    let clusterName := bkspec_ClusterName (bk_Spec backup) in
    do r <- kube (KGet KSeaweed (in_namespace_of (bk_Meta backup) clusterName));
    match r with
    | inl err =>
        if IsNotFound err
        then pending backup "ClusterNotFound"
               ("Seaweed cluster " +:+ clusterName +:+ " not found in namespace " +:+
                Namespace (bk_Meta backup))
        else Ret (Done noResult (Some err))
    | inr cluster =>
        match resolveStorage cluster (bkspec_StorageName (bk_Spec backup)) with
        | inl err => pending backup "StorageNotFound" (error_string err)
        | inr st =>
            do r <- kube (KGet KJob (in_namespace_of (bk_Meta backup) (backup_job_name backup)));
            match r with
            | inl err => if IsNotFound err then startJob cluster backup st
                         else Ret (Done noResult (Some err))
            | inr job => reflectJob backup job
            end
        end
    end.
End controller.

(** ** What the controller may do *)
Section safety.
Context `{ApiMachinery} `{OwnersLaws} (cert_manager : bool) (req : NamespacedName).

Definition fetched (tr : trace) (b : SeaweedBackup) : Prop := saw_kube tr (KGet KBackup req) (Ok b).
Definition job_key (b : SeaweedBackup) : NamespacedName := in_namespace_of (bk_Meta b) (backup_job_name b).
Definition saw_job (tr : trace) (b : SeaweedBackup) (r : result Job) : Prop :=
  saw_kube tr (KGet KJob (job_key b)) r.
Definition cluster_key (b : SeaweedBackup) : NamespacedName :=
  in_namespace_of (bk_Meta b) (bkspec_ClusterName (bk_Spec b)).
(** The cluster and the storage the backup names. *)
Definition located (tr : trace) (b : SeaweedBackup) (c : Seaweed) (st : BackupStorageSpec) : Prop :=
  saw_kube tr (KGet KSeaweed (cluster_key b)) (Ok c) /\
  resolveStorage c (bkspec_StorageName (bk_Spec b)) = Ok st.
Lemma located_mono tr new b c st : located tr b c st -> located (tr ++ new) b c st.
Proof. intros [Hc Hst]. split; [by apply saw_app_l|done]. Qed.
(** The Job of the backup, owned by it. *)
Definition snapshot_job (c : Seaweed) (b : SeaweedBackup) (st : BackupStorageSpec) (o : Job) : Prop :=
  let built := (buildSnapshotJob cert_manager c (backup_job_name b) b st).1 in
  SetControllerReference (bk_Meta b) "SeaweedBackup" (job_Meta built) = Ok (job_Meta o) /\
  job_Pod o = job_Pod built /\ job_BackoffLimit o = job_BackoffLimit built.

(** What justifies each phase that is written. *)
Definition phase_justified (tr : trace) (b : SeaweedBackup) (phase : string) : Prop :=
  phase = BackupPhasePending /\
    ((exists e, IsNotFound e = true /\ saw_kube tr (KGet KSeaweed (cluster_key b)) (Err e)) \/
     exists c e, saw_kube tr (KGet KSeaweed (cluster_key b)) (Ok c) /\
                 resolveStorage c (bkspec_StorageName (bk_Spec b)) = Err e) \/
  phase = BackupPhaseRunning /\
    ((exists j, saw_job tr b (Ok j) /\ (jobFinished j).1 = false) \/
     exists c st o r, located tr b c st /\ snapshot_job c b st o /\ saw_kube tr (KCreate KJob o) r /\
                      match r with None => True | Some e => IsAlreadyExists e = true end) \/
  phase = BackupPhaseCompleted /\ (exists j, saw_job tr b (Ok j) /\ jobFinished j = (true, true)) \/
  phase = BackupPhaseFailed /\ (exists j, saw_job tr b (Ok j) /\ jobFinished j = (true, false)).

Definition backup_guard : Guard := fun tr X e =>
  match e with
  | OKube (KGet _ _) => True
  | OKube (KStatusUpdate KBackup o) => exists b,
      fetched tr b /\ backup_terminal b = false /\ bk_Meta o = bk_Meta b /\ bk_Spec o = bk_Spec b /\
      phase_justified tr b (bkst_Phase (bk_Status o))
  | OKube (KCreate KJob o) => exists b c st e,
      fetched tr b /\ backup_terminal b = false /\ located tr b c st /\ snapshot_job c b st o /\
      IsNotFound e = true /\ saw_job tr b (Err e)
  | ONow => True
  | OEvent _ _ _ => exists b j, fetched tr b /\ backup_terminal b = false /\
      saw_job tr b (Ok j) /\ (jobFinished j).1 = true
  | _ => False
  end.

Section pass.
Context (b : SeaweedBackup).
Abbreviation seen := (fun tr => fetched tr b /\ backup_terminal b = false).
Lemma seen_mono tr new : seen tr -> seen (tr ++ new).
Proof. intros [Hf ?]. split; [by apply saw_app_l|done]. Qed.

Lemma pending_swp reason msg tr :
  seen tr -> phase_justified tr b BackupPhasePending ->
  swp backup_guard (pending b reason msg) (fun _ _ => True) tr.
Proof.
  intros [Hf Ht] Hp. unfold pending. sx. split; [by exists b|]. by intros [e|].
Qed.
Lemma startJob_swp c st tr :
  seen tr -> located tr b c st -> (exists e, IsNotFound e = true /\ saw_job tr b (Err e)) ->
  swp backup_guard (startJob cert_manager c b st) (fun _ _ => True) tr.
Proof.
  intros [Hf Ht] Hloc (e & He & Hj). unfold startJob.
  destruct (getMasterPeersString c); [|by sx].
  destruct (buildSnapshotJob _ _ _ _ _) as [built dest] eqn:Hb.
  destruct (SetControllerReference _ _ _) as [err|meta] eqn:Hm; [by sx|].
  set (o := {| job_Meta := meta |}).
  assert (Ho : snapshot_job c b st o).
  { unfold snapshot_job. rewrite Hb. by split_and!. }
  clearbody o. cbv zeta. sx. split; [by exists b, c, st, e|].
  assert (Hrun : forall r, (match r with None => True | Some e => IsAlreadyExists e = true end) ->
    forall now, exists b0, fetched (((tr ++ [Ev (OKube (KCreate KJob o)) r]) ++ [Ev ONow now])) b0 /\
      backup_terminal b0 = false /\ bk_Meta b = bk_Meta b0 /\ bk_Spec b = bk_Spec b0 /\
      phase_justified ((tr ++ [Ev (OKube (KCreate KJob o)) r]) ++ [Ev ONow now]) b0 BackupPhaseRunning).
  { intros r Hr now. exists b. split; [by do 2 apply saw_app_l|]. do 3 (split; [done|]).
    right; left. split; [done|]. right. exists c, st, o, r.
    split; [by do 2 apply located_mono|]. split; [done|]. split; [apply saw_app_l, saw_last|done]. }
  intros [e'|]; [destruct (IsAlreadyExists e') eqn:He'; cbn [negb]; [|done]|].
  all: sx; (split; [done|]); intros now; sx; (split; [by apply Hrun|done]).
Qed.
Lemma reflectJob_swp j tr :
  seen tr -> saw_job tr b (Ok j) -> swp backup_guard (reflectJob b j) (fun _ _ => True) tr.
Proof.
  intros [Hf Ht] Hj. unfold reflectJob. destruct (jobFinished j) as [finished success] eqn:Hfin.
  destruct finished; cbn [negb].
  - sx. split; [done|]. intros now.
    assert (Hev : forall tr', exists b0 j0, fetched ((tr ++ [Ev ONow now]) ++ tr') b0 /\
      backup_terminal b0 = false /\ saw_job ((tr ++ [Ev ONow now]) ++ tr') b0 (Ok j0) /\ (jobFinished j0).1 = true).
    { intros tr'. exists b, j. split_and!; [by do 2 apply saw_app_l|done|by do 2 apply saw_app_l|by rewrite Hfin]. }
    destruct success; sx; (split; [rewrite <-(app_nil_r (tr ++ _)); apply Hev|]); intros u; sx.
    all: split; [|done]; exists b; split_and!; [by do 2 apply saw_app_l|done|done|done|].
    + right; right; left. split; [done|]. exists j. split; [by do 2 apply saw_app_l|done].
    + right; right; right. split; [done|]. exists j. split; [by do 2 apply saw_app_l|done].
  - case_bool_decide; sx; [done|]. split; [|by intros [e|]].
    exists b. split_and!; [done|done|done|done|]. right; left. split; [done|]. left. exists j. by rewrite Hfin.
Qed.
End pass.

Lemma backup_Reconcile_swp tr :
  swp backup_guard (Reconcile cert_manager req) (fun _ _ => True) tr.
Proof.
  unfold Reconcile. sx. split; [done|]. intros [e|b]; [done|].
  destruct (backup_terminal b) eqn:Ht; [done|]. sx. split; [done|].
  assert (Hf : forall new, fetched ((tr ++ [Ev (OKube (KGet KBackup req)) (Ok b)]) ++ new) b).
  { intros new. apply saw_app_l, saw_last. }
  intros [e|c].
  - destruct (IsNotFound e) eqn:He; [|done]. apply pending_swp; [by split|].
    left. split; [done|]. left. exists e. split; [done|apply saw_last].
  - destruct (resolveStorage c _) as [e|st] eqn:Hst.
    { apply pending_swp; [by split|]. left. split; [done|]. right. exists c, e. split; [apply saw_last|done]. }
    sx. split; [done|]. intros [e|j].
    + destruct (IsNotFound e) eqn:He; [|done]. apply startJob_swp.
      * split; [apply saw_app_l; apply Hf|done].
      * split; [apply saw_app_l, saw_last|done].
      * exists e. split; [done|apply saw_last].
    + apply reflectJob_swp; [split; [apply saw_app_l; apply Hf|done]|apply saw_last].
Qed.

(** C26. Whatever the API server answers, a pass over a backup creates only its own
    snapshot Job, and only after finding none; writes the status only of a backup
    that was not yet Completed or Failed; and writes Completed only after reading
    a Job that succeeded, Failed after one that failed, Running after one that
    runs or was just created, and Pending when the cluster or storage is
    missing. *)
Theorem backup_reconcile_guarded tr r :
  exec trace_env (Reconcile cert_manager req) [] tr r -> guarded backup_guard tr.
Proof. intros Hx. by eapply swp_theorem in Hx as [? _]; [|apply backup_Reconcile_swp]. Qed.
End safety.

(** ** Progress

    An API server that answers, over one backup, its cluster and its Job. *)
Record BackupState := {
  bs_backup : SeaweedBackup;
  bs_cluster : Seaweed;
  bs_job : option Job;
}.
Definition backup_kube (s s' : BackupState) {X} (e : kubeE X) : X -> Prop :=
  match e in kubeE X return X -> Prop with
  | KGet k _ =>
      match k return result (Obj k) -> Prop with
      | KBackup => fun r => s' = s /\ r = Ok (bs_backup s)
      | KSeaweed => fun r => s' = s /\ r = Ok (bs_cluster s)
      | KJob => fun r => s' = s /\
          match bs_job s with
          | Some j => r = Ok j
          | None => exists e, IsNotFound e = true /\ r = Err e
          end
      | _ => fun _ => s' = s
      end
  | KCreate k o =>
      match k return Obj k -> option error -> Prop with
      | KJob => fun o r => r = None /\
          s' = {| bs_backup := bs_backup s; bs_cluster := bs_cluster s; bs_job := Some o |}
      | _ => fun _ _ => s' = s
      end o
  | KStatusUpdate k o =>
      match k return Obj k -> option error -> Prop with
      | KBackup => fun o r => r = None /\
          s' = {| bs_backup := o; bs_cluster := bs_cluster s; bs_job := bs_job s |}
      | _ => fun _ _ => s' = s
      end o
  | _ => fun _ => s' = s
  end.
Definition backup_env : Env opE BackupState := fun X e s x s' =>
  match e in opE X return X -> Prop with
  | OKube e => backup_kube s s' e
  | _ => fun _ => s' = s
  end x.

(** The next state of the backup, by the state of its Job. *)
Definition next_phase (job : option Job) : string :=
  match job with
  | None => BackupPhaseRunning
  | Some j => match jobFinished j with
              | (true, true) => BackupPhaseCompleted
              | (true, false) => BackupPhaseFailed
              | _ => BackupPhaseRunning
              end
  end.
Definition job_running (job : option Job) : bool :=
  match job with Some j => negb (jobFinished j).1 | None => false end.

Section progress.
Context `{ApiMachinery} `{OwnersLaws} (cert_manager : bool).

(** A backup makes progress with every pass over a working API server: without
    a Job the pass creates it and records where the snapshot goes; with a Job the
    phase becomes the Job's - Running, Completed or Failed - and the pass asks to
    be run again only while the Job runs.  A finished backup is left alone. *)
Theorem backup_progress req s s' o st :
  is_Some (sw_Master (sw_Spec (bs_cluster s))) ->
  resolveStorage (bs_cluster s) (bkspec_StorageName (bk_Spec (bs_backup s))) = Ok st ->
  exec backup_env (Reconcile cert_manager req) s s' o ->
  if backup_terminal (bs_backup s) then s' = s /\ o = Done noResult None
  else
    bkst_Phase (bk_Status (bs_backup s')) = next_phase (bs_job s) /\
    o = Done (if job_running (bs_job s) then requeueIn backupRequeue else noResult) None /\
    match bs_job s with
    | Some _ => bs_job s' = bs_job s
    | None => exists j, bs_job s' = Some j /\ snapshot_job cert_manager (bs_cluster s) (bs_backup s) st j /\
        bkst_Destination (bk_Status (bs_backup s')) =
          (buildSnapshotJob cert_manager (bs_cluster s) (backup_job_name (bs_backup s)) (bs_backup s) st).2 /\
        bkst_JobName (bk_Status (bs_backup s')) = backup_job_name (bs_backup s)
    end.
Proof using H1.
  intros [master Hm] Hst. revert s' o. apply (wp_exec backup_env). unfold Reconcile. wx.
  intros r s1 [-> ->]. cbn [wp].
  destruct (backup_terminal (bs_backup s)); wx; [done|]. intros r s1 [-> ->]. rewrite Hst. wx.
  intros r s1 [-> Hj]. destruct (bs_job s) as [j|] eqn:Hjob.
  - subst r. unfold reflectJob, next_phase, job_running.
    destruct (jobFinished j) as [[] success] eqn:Hfin; cbn [negb fst snd] in *; wx.
    + intros now s1 ->. destruct success; wx; intros _ s1 ->; intros r s1 [-> ->]; by split_and!.
    + case_bool_decide as Hp; wx; [by split_and!|]. intros r s1 [-> ->]. by split_and!.
  - destruct Hj as (e & He & ->). rewrite He. unfold startJob, getMasterPeersString. rewrite Hm. cbn [fmap option_fmap option_map].
    destruct (buildSnapshotJob _ _ _ _ _) as [built dest] eqn:Hb.
    destruct (set_controller_fresh (bk_Meta (bs_backup s)) "SeaweedBackup" (job_Meta built)) as [meta Hmeta].
    { revert Hb. unfold buildSnapshotJob. destruct (snapshotScript _ _ _ _ _). by intros [= <- _]. }
    rewrite Hmeta. cbv zeta. wx. intros r s1 [-> ->]. wx. intros now s1 ->. intros r s1 [-> ->].
    cbn [wp]. split_and!; [done|done|]. eexists. split; [done|].
    unfold snapshot_job. rewrite Hb. by split_and!.
Qed.
End progress.

(** ** Evaluations *)
Definition backup_cluster : Seaweed := {|
  sw_Meta := sample_meta "ns" "w" 1;
  sw_Spec := minimal_spec 1 None (Some {|
    bkp_Image := None; bkp_Storages := {[ "s" := s3_storage "b" ]}; bkp_Schedule := [];
    bkp_DataMirror := [] |}); sw_Status := no_status |}.
Definition sample_backup : SeaweedBackup := {|
  bk_Meta := sample_meta "ns" "nightly" 1;
  bk_Spec := {| bkspec_ClusterName := "w"; bkspec_StorageName := "s"; bkspec_FilerPath := "" |};
  bk_Status := {| bkst_ObservedGeneration := 0; bkst_Phase := ""; bkst_JobName := "";
                  bkst_Destination := ""; bkst_StartTime := None; bkst_CompletionTime := None;
                  bkst_Conditions := [] |} |}.
Definition backup_req : NamespacedName := {| nn_Namespace := "ns"; nn_Name := "nightly" |}.
Definition backup_sim : Sim :=
  set_objs KBackup [sample_backup] (set_objs KSeaweed [backup_cluster] sim_empty).
Definition with_conditions (cs : list JobCondition) (j : Job) : Job := {|
  job_Meta := job_Meta j; job_BackoffLimit := job_BackoffLimit j; job_TemplateLabels := job_TemplateLabels j;
  job_Pod := job_Pod j; job_Conditions := cs |}.
Definition succeeded : Job -> Job := with_conditions [{| jc_Type := JobComplete; jc_True := true |}].
Definition backup_phases (s : Sim) : list string :=
  map (fun b => bkst_Phase (bk_Status b)) (sim_objs s KBackup).

(** One pass starts the Job; once it succeeded, the next records it. *)
Lemma backup_reconcile_guarded_witness :
  let s1 := (run sim (Reconcile true backup_req) backup_sim).1 in
  let s2 := set_objs KJob (map succeeded (sim_objs s1 KJob)) s1 in
  let x := run (tracing sim) (Reconcile true backup_req) (s2, []) in
  backup_phases s1 = ["Running"] /\ backup_phases x.1.1 = ["Completed"] /\
  guarded (backup_guard true backup_req) x.1.2.
Proof.
  intros s1 s2 x. split; [by vm_compute|]. split; [by vm_compute|].
  apply (backup_reconcile_guarded true backup_req x.1.2 x.2).
  exact (run_tracing sim (Reconcile true backup_req) s2 []).
Defined.

Definition backup_handler : Handler opE BackupState := fun X e s =>
  match e in opE X return BackupState * X with
  | OKube e =>
      match e in kubeE X return BackupState * X with
      | KGet k _ =>
          match k return BackupState * result (Obj k) with
          | KBackup => (s, Ok (bs_backup s))
          | KSeaweed => (s, Ok (bs_cluster s))
          | KJob => (s, match bs_job s with Some j => Ok j | None => Err (ErrNotFound "") end)
          | _ => (s, Err (ErrNotFound ""))
          end
      | KCreate k o =>
          match k return Obj k -> BackupState * option error with
          | KJob => fun o => ({| bs_backup := bs_backup s; bs_cluster := bs_cluster s; bs_job := Some o |}, None)
          | _ => fun _ => (s, None)
          end o
      | KStatusUpdate k o =>
          match k return Obj k -> BackupState * option error with
          | KBackup => fun o => ({| bs_backup := o; bs_cluster := bs_cluster s; bs_job := bs_job s |}, None)
          | _ => fun _ => (s, None)
          end o
      | e => (s, (sim_kube e sim_empty).2)
      end
  | e => (s, (sim _ e sim_empty).2)
  end.
Lemma backup_handler_refines : refines backup_handler backup_env.
Proof.
  intros X e s. destruct e as [X e| | | | | | | | | | | | | | ]; cbn; try done.
  destruct e as [k key|k ns ls|k o|k o|k b o|k o|k b o|k o|k o uid|k ls|k o f]; cbn; try done.
  - destruct k; cbn; try done. split; [done|]. destruct (bs_job s); [done|]. by exists (ErrNotFound "").

  - by destruct k.
  - by destruct k.
Qed.

Lemma backup_progress_witness :
  let s := {| bs_backup := sample_backup; bs_cluster := backup_cluster; bs_job := None |} in
  let x := run backup_handler (Reconcile true backup_req) s in
  bkst_Destination (bk_Status (bs_backup x.1)) = "/.seaweedfs-operator/backups/nightly/filer.meta.gz" /\
  bkst_Phase (bk_Status (bs_backup x.1)) = "Running" /\ x.2 = Done noResult None.
Proof.
  intros s x.
  destruct (backup_progress true backup_req s x.1 x.2 (s3_storage "b")) as (Hp & Ho & j & _ & _ & Hd & _).
  - by eexists.
  - done.
  - exact (run_exec backup_env backup_handler (Reconcile true backup_req) s backup_handler_refines).
  - split; [rewrite Hd; by vm_compute|]. by split.
Defined.

(** A Job that only shares the name - here of another owner, or left over from an
    earlier backup of the same name - completes a new backup without a snapshot. *)
Lemma stale_job_completes :
  let stale := succeeded (newJob "ns" "nightly-bkp" ∅ (dep_Pod (sample_deployment "other" None))) in
  let x := run (tracing sim) (Reconcile true backup_req) (set_objs KJob [stale] backup_sim, []) in
  IsControlledBy (job_Meta stale) (bk_Meta sample_backup) = false /\
  backup_phases x.1.1 = ["Completed"] /\ length (sim_objs x.1.1 KJob) = 1%nat.
Proof. intros stale x. by vm_compute. Qed.
