(* ===== verification/RestoreController.v ===== *)
(** * The SeaweedRestore controller (seaweedrestore_controller.go)

    A restore resolves its source - a completed backup, or a location given
    explicitly - and runs one Job that loads the snapshot. *)
From Stdlib Require Import Ascii.
From S2P Require Import Prelude Prog CoreTypes ApiTypes Effects Machinery Sim RefGrant Cluster.
From S2P Require Import Trace.
From S2P Require Import Upsert.
From S2P Require Import Calendar SecurityConfig GoPath BackupStorage BackupJobs.
From S2P Require Import BackupController.

Definition RestoreConditionComplete : string := "Complete".
Definition RestoreConditionSourceResolved : string := "SourceResolved".

Definition rs_set_status (r : SeaweedRestore) (s : SeaweedRestoreStatus) : SeaweedRestore :=
  {| rs_Meta := rs_Meta r; rs_Spec := rs_Spec r; rs_Status := s |}.
Definition rs_set_phase (phase : string) (r : SeaweedRestore) : SeaweedRestore :=
  let s := rs_Status r in rs_set_status r {|
  rsst_ObservedGeneration := rsst_ObservedGeneration s; rsst_Phase := phase; rsst_JobName := rsst_JobName s;
  rsst_StartTime := rsst_StartTime s; rsst_CompletionTime := rsst_CompletionTime s;
  rsst_Conditions := rsst_Conditions s |}.
Definition rs_set_completion (now : Time) (r : SeaweedRestore) : SeaweedRestore :=
  let s := rs_Status r in rs_set_status r {|
  rsst_ObservedGeneration := rsst_ObservedGeneration s; rsst_Phase := rsst_Phase s;
  rsst_JobName := rsst_JobName s; rsst_StartTime := rsst_StartTime s;
  rsst_CompletionTime := Some now; rsst_Conditions := rsst_Conditions s |}.
Definition rs_set_running (jobName : string) (now : Time) (r : SeaweedRestore) : SeaweedRestore :=
  let s := rs_Status r in rs_set_status r {|
  rsst_ObservedGeneration := Generation (rs_Meta r); rsst_Phase := RestorePhaseRunning;
  rsst_JobName := jobName; rsst_StartTime := Some now;
  rsst_CompletionTime := rsst_CompletionTime s; rsst_Conditions := rsst_Conditions s |}.

Record restoreSource := {
  source_storageName : string;
  source_backupName : string;
  source_metaPath : string;
  source_cluster : string;
}.

Section controller.
Context `{ApiMachinery} `{Owners} (cert_manager : bool).

Definition rs_set_condition (type : string) (status : ConditionStatus) (reason message : string)
    (r : SeaweedRestore) : SeaweedRestore :=
  let s := rs_Status r in rs_set_status r {|
  rsst_ObservedGeneration := rsst_ObservedGeneration s; rsst_Phase := rsst_Phase s;
  rsst_JobName := rsst_JobName s; rsst_StartTime := rsst_StartTime s;
  rsst_CompletionTime := rsst_CompletionTime s;
  rsst_Conditions := SetStatusCondition (rsst_Conditions s)
    {| cond_Type := type; cond_Status := status; cond_ObservedGeneration := Generation (rs_Meta r);
       cond_Reason := reason; cond_Message := message |} |}.

Definition pending (restore : SeaweedRestore) (reason msg : string) : op outcome :=
  let restore := rs_set_phase RestorePhasePending restore in
  let restore := rs_set_condition RestoreConditionSourceResolved ConditionFalse reason msg restore in
  check kube (KStatusUpdate KRestore restore) catch err => Ret (Done noResult (Some err));
  Ret (Done (requeueIn backupRequeue) None).

Definition resolveSource (restore : SeaweedRestore) : op (result restoreSource) :=
  let spec := rs_Spec restore in
  match rsspec_BackupSource spec with
  | Some src => Ret (Ok {| source_storageName := src_StorageName src; source_backupName := "";
                           source_metaPath := src_MetaPath src;
                           source_cluster := rsspec_ClusterName spec |})
  | None =>
      do r <- kube (KGet KBackup (in_namespace_of (rs_Meta restore) (rsspec_BackupName spec)));
      match r with
      | inl err =>
          if IsNotFound err
          then Ret (Err (ErrOther ("backup " +:+ fmt_q (rsspec_BackupName spec) +:+
                                   " not found in namespace " +:+ fmt_q (Namespace (rs_Meta restore)))))
          else Ret (Err err)
      | inr backup =>
          if negb (bool_decide (bkst_Phase (bk_Status backup) = BackupPhaseCompleted))
          then Ret (Err (ErrOther ("backup " +:+ fmt_q (Name (bk_Meta backup)) +:+
                                   " is not Completed (phase " +:+ fmt_q (bkst_Phase (bk_Status backup)) +:+ ")")))
          else Ret (Ok {| source_storageName := bkspec_StorageName (bk_Spec backup);
                          source_backupName := Name (bk_Meta backup); source_metaPath := "";
                          source_cluster := bkspec_ClusterName (bk_Spec backup) |})
      end
  end.

(** How the Job reads the snapshot: a path on the claim, or a URL of the filer. *)
Definition snapshot_location (cluster : Seaweed) (src : restoreSource) (st : BackupStorageSpec)
    : string * string :=
  if bool_decide (st_Type st = BackupStorageFilesystem) then
    let rel := if bool_decide (source_metaPath src = "")
               then metaRelPath (source_cluster src) (source_backupName src) else source_metaPath src in
    (path_Join [filesystemMountPath (st_Filesystem st); rel], "")
  else
    let fp := if bool_decide (source_metaPath src = "")
              then reservedFilerMetaPath (source_backupName src) else source_metaPath src in
    let fp := if bool_decide (fp = "") || negb (HasPrefix fp "/") then "/" +:+ fp else fp in
    ("", "http://" +:+ getFilerAddress cluster +:+ fp).

Definition restore_job_name (r : SeaweedRestore) : string := boundedName (Name (rs_Meta r)) "-rst".

Definition startJob (cluster : Seaweed) (restore : SeaweedRestore) (src : restoreSource)
    (st : BackupStorageSpec) : op outcome :=
  let jobName := restore_job_name restore in
  match getMasterPeersString cluster with None => Ret Panic | Some _ =>
  let '(localPath, filerURL) := snapshot_location cluster src st in
  let built := buildRestoreJob cert_manager cluster jobName restore st localPath filerURL in
  match SetControllerReference (rs_Meta restore) "SeaweedRestore" (job_Meta built) with
  | inl err => Ret (Done noResult (Some err))
  | inr meta =>
      let built := {| job_Meta := meta; job_BackoffLimit := job_BackoffLimit built;
                      job_TemplateLabels := job_TemplateLabels built; job_Pod := job_Pod built;
                      job_Conditions := job_Conditions built |} in
      do created <- kube (KCreate KJob built);
      let running :=
        do now <- call ONow;
        let restore := rs_set_running jobName now restore in
        let restore := rs_set_condition RestoreConditionSourceResolved ConditionTrue "Resolved"
                         "restore job created" restore in
        do err <- kube (KStatusUpdate KRestore restore);
        Ret (Done noResult err) in
      match created with
      | Some err => if negb (IsAlreadyExists err) then Ret (Done noResult (Some err)) else running
      | None => running
      end
  end
  end.

Definition reflectJob (restore : SeaweedRestore) (job : Job) : op outcome :=
  let '(finished, success) := jobFinished job in
  if negb finished then
    if negb (bool_decide (rsst_Phase (rs_Status restore) = RestorePhaseRunning)) then
      let restore := rs_set_phase RestorePhaseRunning restore in
      check kube (KStatusUpdate KRestore restore) catch err => Ret (Done noResult (Some err));
      Ret (Done (requeueIn backupRequeue) None)
    else Ret (Done (requeueIn backupRequeue) None)
  else
    do now <- call ONow;
    let restore := rs_set_completion now restore in
    if success then
      let restore := rs_set_phase RestorePhaseCompleted restore in
      let restore := rs_set_condition RestoreConditionComplete ConditionTrue "RestoreComplete"
                       "metadata restored" restore in
      do _ <- call (OEvent "Normal" "RestoreCompleted" "metadata restore completed");
      do err <- kube (KStatusUpdate KRestore restore);
      Ret (Done noResult err)
    else
      let restore := rs_set_phase RestorePhaseFailed restore in
      let restore := rs_set_condition RestoreConditionComplete ConditionFalse "RestoreFailed"
                       ("restore job failed; see job " +:+ restore_job_name restore) restore in
      do _ <- call (OEvent "Warning" "RestoreFailed" "restore job failed");
      do err <- kube (KStatusUpdate KRestore restore);
      Ret (Done noResult err).

Definition restore_terminal (r : SeaweedRestore) : bool :=
  bool_decide (rsst_Phase (rs_Status r) = RestorePhaseCompleted) ||
  bool_decide (rsst_Phase (rs_Status r) = RestorePhaseFailed).

Definition Reconcile (req : NamespacedName) : op outcome :=
  try restore <- kube (KGet KRestore req) catch err => Ret (Done noResult (IgnoreNotFound err));
  if restore_terminal restore then Ret (Done noResult None)
  else
    let clusterName := rsspec_ClusterName (rs_Spec restore) in
    do r <- kube (KGet KSeaweed (in_namespace_of (rs_Meta restore) clusterName));
    match r with
    | inl err =>
        if IsNotFound err
        then pending restore "ClusterNotFound"
               ("Seaweed cluster " +:+ clusterName +:+ " not found in namespace " +:+
                Namespace (rs_Meta restore))
        else Ret (Done noResult (Some err))
    | inr cluster =>
        do r <- resolveSource restore;
        match r with
        | inl err => pending restore "SourceUnresolved" (error_string err)
        | inr src =>
            match resolveStorage cluster (source_storageName src) with
            | inl err => pending restore "StorageNotFound" (error_string err)
            | inr st =>
                do r <- kube (KGet KJob (in_namespace_of (rs_Meta restore) (restore_job_name restore)));
                match r with
                | inl err => if IsNotFound err then startJob cluster restore src st
                             else Ret (Done noResult (Some err))
                | inr job => reflectJob restore job
                end
            end
        end
    end.
End controller.

(** ** What the controller may do *)
Definition source_of_backup (b : SeaweedBackup) : restoreSource := {|
  source_storageName := bkspec_StorageName (bk_Spec b); source_backupName := Name (bk_Meta b);
  source_metaPath := ""; source_cluster := bkspec_ClusterName (bk_Spec b) |}.

Section safety.
Context `{ApiMachinery} `{OwnersLaws} (cert_manager : bool) (req : NamespacedName).

Definition fetched (tr : trace) (r : SeaweedRestore) : Prop := saw_kube tr (KGet KRestore req) (Ok r).
Definition saw_job (tr : trace) (r : SeaweedRestore) (x : result Job) : Prop :=
  saw_kube tr (KGet KJob (in_namespace_of (rs_Meta r) (restore_job_name r))) x.
Definition cluster_key (r : SeaweedRestore) : NamespacedName :=
  in_namespace_of (rs_Meta r) (rsspec_ClusterName (rs_Spec r)).
(** The source the restore names: a backup only when it was read as Completed. *)
Definition source_resolved (tr : trace) (r : SeaweedRestore) (src : restoreSource) : Prop :=
  match rsspec_BackupSource (rs_Spec r) with
  | Some s => source_storageName src = src_StorageName s /\ source_metaPath src = src_MetaPath s
  | None => exists b,
      saw_kube tr (KGet KBackup (in_namespace_of (rs_Meta r) (rsspec_BackupName (rs_Spec r)))) (Ok b) /\
      bkst_Phase (bk_Status b) = BackupPhaseCompleted /\ src = source_of_backup b
  end.
Definition restore_job (c : Seaweed) (r : SeaweedRestore) (src : restoreSource) (st : BackupStorageSpec)
    (o : Job) : Prop :=
  let '(localPath, filerURL) := snapshot_location c src st in
  let built := buildRestoreJob cert_manager c (restore_job_name r) r st localPath filerURL in
  SetControllerReference (rs_Meta r) "SeaweedRestore" (job_Meta built) = Ok (job_Meta o) /\
  job_Pod o = job_Pod built.
(** A restore that may run: its cluster, source and storage are known. *)
Definition startable (tr : trace) (r : SeaweedRestore) (o : Job) : Prop :=
  exists c src st,
    saw_kube tr (KGet KSeaweed (cluster_key r)) (Ok c) /\ source_resolved tr r src /\
    resolveStorage c (source_storageName src) = Ok st /\ restore_job c r src st o.

Definition phase_justified (tr : trace) (r : SeaweedRestore) (phase : string) : Prop :=
  phase = RestorePhasePending \/
  phase = RestorePhaseRunning /\
    ((exists j, saw_job tr r (Ok j) /\ (jobFinished j).1 = false) \/
     exists o x, startable tr r o /\ saw_kube tr (KCreate KJob o) x /\
                 match x with None => True | Some e => IsAlreadyExists e = true end) \/
  phase = RestorePhaseCompleted /\ (exists j, saw_job tr r (Ok j) /\ jobFinished j = (true, true)) \/
  phase = RestorePhaseFailed /\ (exists j, saw_job tr r (Ok j) /\ jobFinished j = (true, false)).

Definition restore_guard : Guard := fun tr X e =>
  match e with
  | OKube (KGet _ _) => True
  | OKube (KStatusUpdate KRestore o) => exists r,
      fetched tr r /\ restore_terminal r = false /\ rs_Meta o = rs_Meta r /\ rs_Spec o = rs_Spec r /\
      phase_justified tr r (rsst_Phase (rs_Status o))
  | OKube (KCreate KJob o) => exists r e,
      fetched tr r /\ restore_terminal r = false /\ startable tr r o /\
      IsNotFound e = true /\ saw_job tr r (Err e)
  | ONow => True
  | OEvent _ _ _ => exists r j, fetched tr r /\ restore_terminal r = false /\
      saw_job tr r (Ok j) /\ (jobFinished j).1 = true
  | _ => False
  end.

Section pass.
Context (r : SeaweedRestore).
Abbreviation seen := (fun tr => fetched tr r /\ restore_terminal r = false).

Lemma source_resolved_mono tr new src : source_resolved tr r src -> source_resolved (tr ++ new) r src.
Proof.
  unfold source_resolved. case_match; [done|]. intros (b & Hb & ?). exists b. split; [by apply saw_app_l|done].
Qed.
Lemma startable_mono tr new o : startable tr r o -> startable (tr ++ new) r o.
Proof.
  intros (c & src & st & Hc & Hs & ?). exists c, src, st.
  split; [by apply saw_app_l|]. split; [by apply source_resolved_mono|done].
Qed.

Lemma restore_pending_swp reason msg tr :
  seen tr -> swp restore_guard (pending r reason msg) (fun _ _ => True) tr.
Proof.
  intros [Hf Ht]. unfold pending. sx. split; [|by intros [e|]].
  exists r. split_and!; [done|done|done|done|by left].
Qed.
Lemma resolveSource_swp tr :
  swp restore_guard (resolveSource r)
    (fun x tr' => match x with inl _ => True | inr src => source_resolved tr' r src end) tr.
Proof.
  unfold resolveSource, source_resolved. destruct (rsspec_BackupSource (rs_Spec r)) as [s|]; [by sx|].
  sx. split; [done|]. intros [e|b]; [by destruct (IsNotFound e)|].
  case_bool_decide as Hp; sx; [|done]. exists b. split; [apply saw_last|]. by split.
Qed.
Lemma restore_startJob_swp c src st tr :
  seen tr -> saw_kube tr (KGet KSeaweed (cluster_key r)) (Ok c) -> source_resolved tr r src ->
  resolveStorage c (source_storageName src) = Ok st ->
  (exists e, IsNotFound e = true /\ saw_job tr r (Err e)) ->
  swp restore_guard (startJob cert_manager c r src st) (fun _ _ => True) tr.
Proof.
  intros [Hf Ht] Hc Hsrc Hst (e & He & Hj). unfold startJob.
  destruct (getMasterPeersString c); [|by sx].
  destruct (snapshot_location c src st) as [localPath filerURL] eqn:Hloc.
  destruct (SetControllerReference _ _ _) as [err|meta] eqn:Hm; [by sx|]. cbv zeta.
  set (o := {| job_Meta := meta |}).
  assert (Ho : startable tr r o).
  { exists c, src, st. split_and!; [done|done|done|]. unfold restore_job. rewrite Hloc. by split. }
  clearbody o. sx. split; [exists r, e; by split_and!|].
  assert (Hrun : forall x, (match x with None => True | Some e => IsAlreadyExists e = true end) ->
    forall now, phase_justified ((tr ++ [Ev (OKube (KCreate KJob o)) x]) ++ [Ev ONow now]) r RestorePhaseRunning).
  { intros x Hx now. right; left. split; [done|]. right. exists o, x.
    split; [by do 2 apply startable_mono|]. split; [apply saw_app_l, saw_last|done]. }
  intros [e'|]; [destruct (IsAlreadyExists e') eqn:He'; cbn [negb]; [|done]|].
  all: sx; (split; [done|]); intros now; sx; (split; [|done]).
  all: exists r; split_and!; [by do 2 apply saw_app_l|done|done|done|by apply Hrun].
Qed.
Lemma restore_reflectJob_swp j tr :
  seen tr -> saw_job tr r (Ok j) -> swp restore_guard (reflectJob r j) (fun _ _ => True) tr.
Proof.
  intros [Hf Ht] Hj. unfold reflectJob. destruct (jobFinished j) as [finished success] eqn:Hfin.
  destruct finished; cbn [negb].
  - sx. split; [done|]. intros now.
    assert (Hev : forall tr', exists r0 j0, fetched ((tr ++ [Ev ONow now]) ++ tr') r0 /\
      restore_terminal r0 = false /\ saw_job ((tr ++ [Ev ONow now]) ++ tr') r0 (Ok j0) /\ (jobFinished j0).1 = true).
    { intros tr'. exists r, j. split_and!; [by do 2 apply saw_app_l|done|by do 2 apply saw_app_l|by rewrite Hfin]. }
    destruct success; sx; (split; [rewrite <-(app_nil_r (tr ++ _)); apply Hev|]); intros u; sx.
    all: split; [|done]; exists r; split_and!; [by do 2 apply saw_app_l|done|done|done|].
    + right; right; left. split; [done|]. exists j. split; [by do 2 apply saw_app_l|done].
    + right; right; right. split; [done|]. exists j. split; [by do 2 apply saw_app_l|done].
  - case_bool_decide; sx; [done|]. split; [|by intros [e|]].
    exists r. split_and!; [done|done|done|done|]. right; left. split; [done|]. left. exists j. by rewrite Hfin.
Qed.
End pass.

Lemma restore_Reconcile_swp tr :
  swp restore_guard (Reconcile cert_manager req) (fun _ _ => True) tr.
Proof.
  unfold Reconcile. sx. split; [done|]. intros [e|r]; [done|].
  destruct (restore_terminal r) eqn:Ht; [done|]. sx. split; [done|].
  assert (Hf : forall new, fetched ((tr ++ [Ev (OKube (KGet KRestore req)) (Ok r)]) ++ new) r).
  { intros new. apply saw_app_l, saw_last. }
  intros [e|c]; [destruct (IsNotFound e) eqn:He; [by apply restore_pending_swp|done]|].
  eapply swp_seq_keep; [apply resolveSource_swp|]. intros [e|src] new Hsrc.
  { apply restore_pending_swp. split; [by apply saw_app_l, Hf|done]. }
  destruct (resolveStorage c _) as [e|st] eqn:Hst.
  { apply restore_pending_swp. split; [by apply saw_app_l, Hf|done]. }
  sx. split; [done|]. intros [e|j].
  - destruct (IsNotFound e) eqn:He; [|done]. apply restore_startJob_swp; [| | |done|].
    + split; [by do 2 apply saw_app_l; apply Hf|done].
    + do 2 apply saw_app_l. apply saw_last.
    + by apply source_resolved_mono.
    + exists e. split; [done|apply saw_last].
  - apply restore_reflectJob_swp; [split; [by do 2 apply saw_app_l; apply Hf|done]|apply saw_last].
Qed.

(** C28. Whatever the API server answers, a pass over a restore starts only its own
    Job, only after finding none, and only for a source it resolved - a backup it
    read as Completed, or the location given explicitly; it writes the status
    only of a restore that was not yet Completed or Failed, and Completed or
    Failed only after reading a Job that ended so. *)
Theorem restore_reconcile_guarded tr o :
  exec trace_env (Reconcile cert_manager req) [] tr o -> guarded restore_guard tr.
Proof. intros Hx. by eapply swp_theorem in Hx as [? _]; [|apply restore_Reconcile_swp]. Qed.
End safety.

(** ** A restore reads what the snapshot wrote *)
(** A line of a script. *)
Definition has_line (script l : string) : Prop := exists pre post, script = pre +:+ nl +:+ l +:+ nl +:+ post.

Lemma Join_line before l after :
  before <> [] -> after <> [] -> has_line (Join (before ++ l :: after) nl) l.
Proof.
  intros Hb Ha. exists (Join before nl), (Join after nl).
  rewrite Join_app by done. destruct after as [|a after]; [done|]. by rewrite Join_cons2.
Qed.
Lemma object_location backup :
  segment_name backup ->
  reservedFilerMetaPath backup = reservedBackupFilerDir +:+ "/" +:+ backup +:+ "/filer.meta.gz".
Proof.
  intros Hb. unfold reservedFilerMetaPath.
  rewrite path_Join_names; [done|done|done|].
  apply Forall_cons; split; [done|]. apply Forall_singleton. by apply (bool_decide_unpack _).
Qed.

(** C27. A restore of a completed backup, into the cluster the backup was taken of,
    reads exactly the file the snapshot Job of the backup wrote: the same path of
    the claim for a filesystem storage, and for an object store the URL the
    snapshot was copied to. *)
Theorem restore_reads_snapshot m st b :
  segment_name (Name (bk_Meta b)) ->
  let '(script, dest) := snapshotScript m st (bkspec_ClusterName (bk_Spec b)) (Name (bk_Meta b))
                           (bkspec_FilerPath (bk_Spec b)) in
  let '(localPath, filerURL) := snapshot_location m (source_of_backup b) st in
  if bool_decide (st_Type st = BackupStorageFilesystem) then
    localPath = dest /\ filerURL = "" /\
    has_line script ("echo 'fs.meta.save -o " +:+ localPath +:+ " " +:+
                     filerPathOrDefault (bkspec_FilerPath (bk_Spec b)) +:+ "' | " +:+ weed_shell m)
  else
    exists dir, localPath = "" /\ filerURL = dir +:+ "filer.meta.gz" /\
      has_line script (weedCmd m "filer.copy" ["/scratch/filer.meta.gz"; dir]).
Proof.
  intros Hb. unfold snapshotScript, snapshot_location. cbv zeta. cbn [source_metaPath source_of_backup].
  rewrite (bool_decide_true (""%string = "")) by done. cbn [source_cluster source_backupName].
  case_bool_decide as Ht.
  - split; [done|]. split; [done|]. apply (Join_line [_; _]); done.
  - exists ("http://" +:+ getFilerAddress m +:+ reservedBackupFilerDir +:+ "/" +:+ Name (bk_Meta b) +:+ "/").
    rewrite !object_location by done. split; [done|]. split.
    + rewrite bool_decide_false by done. by rewrite !string_app_assoc.
    + change (path_Join [backupScratchDir; "filer.meta.gz"]) with "/scratch/filer.meta.gz".
      apply (Join_line [_; _; _]); done.
Qed.

(** ** Evaluations *)
Definition sample_restore (backupName : string) (src : option BackupSource) : SeaweedRestore := {|
  rs_Meta := sample_meta "ns" "r" 1;
  rs_Spec := {| rsspec_ClusterName := "w"; rsspec_BackupName := backupName; rsspec_BackupSource := src;
                rsspec_FilerPath := "" |};
  rs_Status := {| rsst_ObservedGeneration := 0; rsst_Phase := ""; rsst_JobName := "";
                  rsst_StartTime := None; rsst_CompletionTime := None; rsst_Conditions := [] |} |}.
Definition restore_req : NamespacedName := {| nn_Namespace := "ns"; nn_Name := "r" |}.

Lemma restore_reconcile_guarded_witness :
  let s := set_objs KBackup [bk_set_phase BackupPhaseCompleted sample_backup]
             (set_objs KRestore [sample_restore "nightly" None] backup_sim) in
  let x := run (tracing sim) (Reconcile true restore_req) (s, []) in
  map (fun j => Name (job_Meta j)) (sim_objs x.1.1 KJob) = ["r-rst"] /\
  guarded (restore_guard true restore_req) x.1.2.
Proof.
  intros s x. split; [by vm_compute|].
  apply (restore_reconcile_guarded true restore_req x.1.2 x.2).
  exact (run_tracing sim (Reconcile true restore_req) s []).
Defined.

Lemma restore_reads_snapshot_witness :
  exists dir, (snapshot_location backup_cluster (source_of_backup sample_backup) (s3_storage "b")).2 =
                dir +:+ "filer.meta.gz" /\
    has_line (snapshotScript backup_cluster (s3_storage "b") "w" "nightly" "").1
             (weedCmd backup_cluster "filer.copy" ["/scratch/filer.meta.gz"; dir]).
Proof.
  pose proof (restore_reads_snapshot backup_cluster (s3_storage "b") sample_backup) as Hr.
  destruct Hr as (dir & _ & Hu & Hl); [by apply (bool_decide_unpack _)|]. by exists dir.
Defined.

(** The location of an explicit source is documented as relative to the directory
    of the storage; for an object store it is looked up at the root of the filer
    of the cluster instead, where the snapshots are not. *)
Lemma explicit_source_read_from_filer_root :
  let metaPath := metaRelPath "w" "nightly" in
  (snapshot_location backup_cluster
     {| source_storageName := "s"; source_backupName := ""; source_metaPath := metaPath;
        source_cluster := "w" |} (s3_storage "b")).2 = "http://w-filer.ns:8888/w/nightly/filer.meta.gz" /\
  (snapshot_location backup_cluster (source_of_backup sample_backup) (s3_storage "b")).2 =
    "http://w-filer.ns:8888/.seaweedfs-operator/backups/nightly/filer.meta.gz" /\
  mirrorSinkDirectory "s" (s3_storage "b") "w" = "/b/w/data".
Proof. intros metaPath. by vm_compute. Qed.

(** A backup restored into another cluster is looked up in that cluster's filer. *)
Lemma other_cluster_read_from_target :
  let target := {| sw_Meta := sample_meta "ns" "other" 1; sw_Spec := sw_Spec backup_cluster;
                   sw_Status := no_status |} in
  (snapshot_location target (source_of_backup sample_backup) (s3_storage "b")).2 =
    "http://other-filer.ns:8888/.seaweedfs-operator/backups/nightly/filer.meta.gz".
Proof. intros target. by vm_compute. Qed.
