(* ===== verification/BackupMirror.v ===== *)
(** * Data mirrors (controller_backup_mirror.go)

    For every mirror of the cluster's spec, a Secret with its replication.toml and
    a Deployment that copies continuously; those no longer declared are deleted.
    The status is recorded on the cluster in memory, so it is a result here. *)
From S2P Require Import Prelude Prog CoreTypes ApiTypes Effects Machinery Sim RefGrant Cluster.
From S2P Require Import Trace.
From S2P Require Import Upsert.
From S2P Require Import SecurityConfig GoPath BackupStorage BackupJobs BackupController.

Section mirrors.
Context `{Owners} `{SpecJSON PodSpec} (cert_manager : bool) (m : Seaweed).
Abbreviation ns := (Namespace (sw_Meta m)).

Definition resolveBackupCredentials (st : BackupStorageSpec) : op (result (gmap string string)) :=
  match st_CredentialsSecret st with
  | None => Ret (Ok ∅)
  | Some name =>
      if bool_decide (name = "") then Ret (Ok ∅)
      else
        do r <- kube (KGet KSecret (in_namespace_of (sw_Meta m) name));
        match r with
        | inl err =>
            if IsNotFound err
            then Ret (Err (ErrOther ("backup credentials secret " +:+ fmt_q name +:+
                                     " not found in namespace " +:+ fmt_q ns)))
            else Ret (Err err)
        | inr secret => Ret (Ok (sec_Data secret))
        end
  end.

Definition gcs_json (creds : gmap string string) : string := default "" (creds !! BackupSecretKeyGCSCredentials).
Definition mirror_secret (name storage : string) (st : BackupStorageSpec) (toml : string)
    (creds : gmap string string) : Secret :=
  let data := {[ "replication.toml" := toml ]} in
  {| sec_Meta := new_meta m name (labelsForBackupMirror (Name (sw_Meta m)) storage);
     sec_Data := if bool_decide (st_Type st = BackupStorageGCS)
                 then if negb (bool_decide (gcs_json creds = ""))
                      then <[gcsKeyFileName := gcs_json creds]> data else data
                 else data |}.
Definition ensureMirrorSecret (name storage : string) (st : BackupStorageSpec) (toml : string)
    (creds : gmap string string) : op (option error) :=
  let secret := mirror_secret name storage st toml creds in
  match SetControllerReference (sw_Meta m) "Seaweed" (sec_Meta secret) with
  | inl err => Ret (Some err)
  | inr meta =>
      do r <- CreateOrUpdateSecret {| sec_Meta := meta; sec_Data := sec_Data secret |};
      Ret (match r with inl err => Some err | inr _ => None end)
  end.

Definition mirrorReady (name : string) : op bool :=
  do r <- kube (KGet KDeployment (in_namespace_of (sw_Meta m) name));
  Ret (match r with inl _ => false | inr dep => (0 <? dep_AvailableReplicas dep)%Z end).

(** Deleting everything listed that is not kept. *)
Fixpoint delete_others (k : Kind) (kept : Obj k -> bool) (items : list (Obj k)) : op (option error) :=
  match items with
  | [] => Ret None
  | o :: items =>
      if kept o then delete_others k kept items
      else
        do r <- kube (KDelete k o);
        match r with
        | Some err => if negb (IsNotFound err) then Ret (Some err) else delete_others k kept items
        | None => delete_others k kept items
        end
  end.
Definition mirror_selector : gmap string string :=
  <["app.kubernetes.io/component" := "backup-mirror"]>
  {[ "app.kubernetes.io/instance" := Name (sw_Meta m) ]}.
Definition deployment_kept (keep : gset string) (d : Deployment) : bool :=
  bool_decide (Name (dep_Meta d) ∈ keep).
Definition secret_kept (keep : gset string) (s : Secret) : bool :=
  let storage := default "" (Labels (sec_Meta s) !! LabelBackupStorage) in
  negb (bool_decide (storage = "")) &&
  bool_decide (mirrorDeploymentName (Name (sw_Meta m)) storage ∈ keep).
Definition pruneBackupMirrors (keep : gset string) : op (option error) :=
  try deps <- kube (KList KDeployment (Some ns) mirror_selector) catch err => Ret (Some err);
  check delete_others KDeployment (deployment_kept keep) deps catch err => Ret (Some err);
  try secrets <- kube (KList KSecret (Some ns) mirror_selector) catch err => Ret (Some err);
  delete_others KSecret (secret_kept keep) secrets.

Definition with_dep_meta (meta : ObjectMeta) (d : Deployment) : Deployment := {|
  dep_Meta := meta; dep_Replicas := dep_Replicas d; dep_Selector := dep_Selector d;
  dep_StrategyType := dep_StrategyType d; dep_RollingUpdate := dep_RollingUpdate d;
  dep_TemplateLabels := dep_TemplateLabels d; dep_TemplateAnnotations := dep_TemplateAnnotations d;
  dep_Pod := dep_Pod d; dep_StatusReplicas := dep_StatusReplicas d; dep_AvailableReplicas := dep_AvailableReplicas d; dep_ReadyReplicas := dep_ReadyReplicas d |}.
(** One mirror: an error, nothing for a mirror that is skipped, or its status. *)
Definition ensureMirror (mirror : BackupMirrorSpec) : op (failure + option BackupMirrorStatus) :=
  let storage := mirror_StorageName mirror in
  match resolveStorage m storage with
  | inl err => do _ <- call (OEvent "Warning" "BackupMirrorInvalid" (error_string err)); Ret (inr None)
  | inr st =>
      try creds <- resolveBackupCredentials st catch err => Ret (inl (Failed err));
      match renderReplicationToml storage st (Name (sw_Meta m)) creds with
      | inl err => Ret (inr None)
      | inr toml =>
          let secretName := mirrorReplicationSecretName (Name (sw_Meta m)) storage in
          check ensureMirrorSecret secretName storage st toml creds catch err => Ret (inl (Failed err));
          let depName := mirrorDeploymentName (Name (sw_Meta m)) storage in
          let hasGCSKey := negb (bool_decide (gcs_json creds = "")) in
          let dep := buildMirrorDeployment cert_manager m depName secretName mirror st hasGCSKey in
          match SetControllerReference (sw_Meta m) "Seaweed" (dep_Meta dep) with
          | inl err => Ret (inl (Failed err))
          | inr meta =>
              try _ <- CreateOrUpdateDeployment (with_dep_meta meta dep) catch fail => Ret (inl fail);
              do ready <- mirrorReady depName;
              Ret (inr (Some {| ms_StorageName := storage; ms_DeploymentName := depName; ms_Ready := ready |}))
          end
      end
  end.
Fixpoint ensureMirrors (mirrors : list BackupMirrorSpec) (desired : gset string)
    (statuses : list BackupMirrorStatus) : op (failure + gset string * list BackupMirrorStatus) :=
  match mirrors with
  | [] => Ret (inr (desired, statuses))
  | mirror :: mirrors =>
      try status <- ensureMirror mirror catch fail => Ret (inl fail);
      match status with
      | None => ensureMirrors mirrors desired statuses
      | Some s => ensureMirrors mirrors ({[ ms_DeploymentName s ]} ∪ desired) (statuses ++ [s])
      end
  end.
Definition data_mirrors : list BackupMirrorSpec :=
  match sw_Backup (sw_Spec m) with Some b => bkp_DataMirror b | None => [] end.
Definition ensureBackupMirrors : op (failure + list BackupMirrorStatus) :=
  try x <- ensureMirrors data_mirrors ∅ [] catch fail => Ret (inl fail);
  check pruneBackupMirrors x.1 catch err => Ret (inl (Failed err));
  Ret (inr x.2).
End mirrors.

(** ** What a pass may do *)
Definition is_ok {A} (r : result A) : bool := match r with inl _ => false | inr _ => true end.
Lemma render_needs_no_credentials storage st cluster creds creds' :
  is_ok (renderReplicationToml storage st cluster creds) =
  is_ok (renderReplicationToml storage st cluster creds').
Proof.
  unfold renderReplicationToml. cbv zeta.
  repeat match goal with |- context [bool_decide (st_Type st = ?t)] =>
    destruct (bool_decide (st_Type st = t)) end; by repeat case_match.
Qed.

Section safety.
Context `{OwnersLaws} `{SpecJSON PodSpec} (cert_manager : bool) (m : Seaweed).
Abbreviation ns := (Namespace (sw_Meta m)).
Abbreviation cluster := (Name (sw_Meta m)).

(** A mirror with a usable storage. *)
Definition valid_mirror (mirror : BackupMirrorSpec) : bool :=
  match resolveStorage m (mirror_StorageName mirror) with
  | inl _ => false
  | inr st => is_ok (renderReplicationToml (mirror_StorageName mirror) st cluster ∅)
  end.
Definition mirror_name (mirror : BackupMirrorSpec) : string :=
  mirrorDeploymentName cluster (mirror_StorageName mirror).
Definition valid_mirrors : list BackupMirrorSpec := List.filter valid_mirror (data_mirrors m).
(** The credentials of a storage, as read. *)
Definition credentials_read (tr : trace) (st : BackupStorageSpec) (creds : gmap string string) : Prop :=
  match st_CredentialsSecret st with
  | None => creds = ∅
  | Some name => name = "" /\ creds = ∅ \/
      exists s, saw_kube tr (KGet KSecret (in_namespace_of (sw_Meta m) name)) (Ok s) /\ creds = sec_Data s
  end.
Definition secret_written (tr : trace) (o : Secret) : Prop :=
  exists mirror st creds toml, mirror ∈ valid_mirrors /\
    resolveStorage m (mirror_StorageName mirror) = Ok st /\ credentials_read tr st creds /\
    renderReplicationToml (mirror_StorageName mirror) st cluster creds = Ok toml /\
    sec_Data o = sec_Data (mirror_secret m (mirrorReplicationSecretName cluster (mirror_StorageName mirror))
                             (mirror_StorageName mirror) st toml creds).
Definition listed (tr : trace) {k} (o : Obj k) : Prop :=
  exists l, saw_kube tr (KList k (Some ns) (mirror_selector m)) (Ok l) /\ o ∈ l.

Definition mirror_guard : Guard := fun tr X e =>
  match e with
  | OKube (KGet _ _) => True
  | OKube (KList k n ls) => (k = KDeployment \/ k = KSecret) /\ n = Some ns /\ ls = mirror_selector m
  | OKube (KCreate KSecret o) | OKube (KUpdate KSecret o) => secret_written tr o
  | OKube (KCreate KDeployment o) => exists mirror, mirror ∈ valid_mirrors /\
      obj_key (k:=KDeployment) o = in_namespace_of (sw_Meta m) (mirror_name mirror)
  | OKube (KUpdate KDeployment o) => exists mirror existing, mirror ∈ valid_mirrors /\
      saw_kube tr (KGet KDeployment (in_namespace_of (sw_Meta m) (mirror_name mirror))) (Ok existing) /\
      Name (dep_Meta o) = Name (dep_Meta existing) /\ Namespace (dep_Meta o) = Namespace (dep_Meta existing)
  | OKube (KDelete KDeployment o) => listed tr (k:=KDeployment) o /\
      forall mirror, mirror ∈ valid_mirrors -> Name (dep_Meta o) <> mirror_name mirror
  | OKube (KDelete KSecret o) => listed tr (k:=KSecret) o /\
      forall mirror, mirror ∈ valid_mirrors -> mirror_StorageName mirror <> "" ->
        Labels (sec_Meta o) !! LabelBackupStorage <> Some (mirror_StorageName mirror)
  | OEvent _ _ _ => True
  | _ => False
  end.

Lemma resolveBackupCredentials_swp st tr :
  swp mirror_guard (resolveBackupCredentials m st)
    (fun r tr' => match r with inl _ => True | inr creds => credentials_read tr' st creds end) tr.
Proof.
  unfold resolveBackupCredentials, credentials_read. destruct (st_CredentialsSecret st) as [name|]; [|by sx].
  case_bool_decide as Hn; sx; [by left|]. split; [done|]. intros [e|s]; [by destruct (IsNotFound e)|].
  right. exists s. split; [apply saw_last|done].
Qed.

Lemma secret_written_mono tr new o : secret_written tr o -> secret_written (tr ++ new) o.
Proof.
  intros (mirror & st & creds & toml & ? & ? & Hc & ?). exists mirror, st, creds, toml.
  split_and!; [done|done| |by destruct_and?|by destruct_and?].
  unfold credentials_read in *. case_match; [|done]. destruct Hc as [?|(sec & Hs & ?)]; [by left|].
  right. exists sec. split; [by apply saw_app_l|done].
Qed.

Lemma ensureMirrorSecret_swp name storage st toml creds tr :
  secret_written tr (mirror_secret m name storage st toml creds) ->
  swp mirror_guard (ensureMirrorSecret m name storage st toml creds) (fun _ _ => True) tr.
Proof.
  intros Hw. unfold ensureMirrorSecret. destruct (SetControllerReference _ _ _) as [e|meta]; [by sx|].
  eapply swp_seq; [|by intros [e|?] tr' _].
  apply (CreateOrUpdate_pure_swp KSecret _ _ _ _ (fun _ _ => True)); [done| | |done].
  - intros tr'. by apply secret_written_mono.
  - intros tr' existing mutated _ [= <-] _. by apply secret_written_mono.
Qed.

Lemma merged_name existing desired d :
  merge_deployment existing desired = inr d ->
  Name (dep_Meta d) = Name (dep_Meta existing) /\ Namespace (dep_Meta d) = Namespace (dep_Meta existing).
Proof. unfold merge_deployment. case_match; [done|]. cbv zeta. case_match; by intros [= <-]. Qed.

Definition status_of (mirror : BackupMirrorSpec) (s : BackupMirrorStatus) : Prop :=
  ms_StorageName s = mirror_StorageName mirror /\ ms_DeploymentName s = mirror_name mirror.
Lemma ensureMirror_swp mirror tr :
  mirror ∈ data_mirrors m ->
  swp mirror_guard (ensureMirror cert_manager m mirror)
    (fun r _ => match r with
       | inl _ => True
       | inr None => valid_mirror mirror = false
       | inr (Some s) => valid_mirror mirror = true /\ status_of mirror s
       end) tr.
Proof using H0.
  intros Hin. unfold ensureMirror, valid_mirror.
  destruct (resolveStorage m _) as [e|st] eqn:Hst; [by sx|].
  eapply swp_seq_keep; [apply resolveBackupCredentials_swp|]. intros [e|creds] new Hcreds; [by sx|].
  pose proof (render_needs_no_credentials (mirror_StorageName mirror) st cluster creds ∅) as Hok.
  destruct (renderReplicationToml _ st _ creds) as [e|toml] eqn:Htoml; cbn [is_ok] in Hok; [by sx|].
  assert (Hv : mirror ∈ valid_mirrors).
  { apply list_elem_of_In, filter_In. rewrite <-list_elem_of_In. unfold valid_mirror. by rewrite Hst, <-Hok. }
  eapply swp_seq_keep; [apply ensureMirrorSecret_swp; by exists mirror, st, creds, toml|].
  intros [e|] new' _; [by sx|]. cbv zeta.
  destruct (SetControllerReference _ _ _) as [e|meta] eqn:Hmeta; [by sx|].
  assert (Hkey : forall d, obj_key (k:=KDeployment) (addSpecToAnnotation (with_dep_meta meta d)) =
            in_namespace_of (sw_Meta m) (mirror_name mirror)).
  { apply set_controller_owners in Hmeta as [os ->]. unfold buildMirrorDeployment.
    intros d. repeat case_match; done. }
  eapply swp_seq_keep.
  - apply (CreateOrUpdate_pure_swp KDeployment _ _ _ _ (fun _ _ => True)); [done| | |done].
    + intros tr'. exists mirror. split; [done|apply Hkey].
    + intros tr' existing mutated Hsaw Hm _. exists mirror, existing. split; [done|].
      rewrite Hkey in Hsaw. split; [done|]. by eapply merged_name.
  - intros [e|d] new'' _; [by sx|]. unfold mirrorReady. sx. split; [done|]. intros [e|dep]; by split.
Qed.

Definition names_of (l : list BackupMirrorSpec) : gset string := list_to_set (map mirror_name l).
Lemma ensureMirrors_swp mirrors before statuses tr :
  data_mirrors m = before ++ mirrors ->
  Forall2 status_of (List.filter valid_mirror before) statuses ->
  swp mirror_guard (ensureMirrors cert_manager m mirrors (names_of (List.filter valid_mirror before)) statuses)
    (fun r _ => match r with
       | inl _ => True
       | inr (desired, statuses) => desired = names_of valid_mirrors /\ Forall2 status_of valid_mirrors statuses
       end) tr.
Proof using H0.
  revert before statuses tr; induction mirrors as [|mirror mirrors IH]; intros before statuses tr Hd Hs.
  { rewrite app_nil_r in Hd. cbn. unfold valid_mirrors. by rewrite Hd. }
  cbn [ensureMirrors]. eapply swp_seq; [apply ensureMirror_swp; rewrite Hd; set_solver|].
  intros [e|[s|]] tr' Hr; [by sx| |].
  - destruct Hr as [Hv Hst].
    assert (Hf : List.filter valid_mirror (before ++ [mirror]) = List.filter valid_mirror before ++ [mirror]).
    { rewrite List.filter_app. cbn [List.filter]. by rewrite Hv. }
    pose proof (IH (before ++ [mirror]) (statuses ++ [s]) tr') as IH'. rewrite Hf in IH'.
    assert (Hnames : {[ ms_DeploymentName s ]} ∪ names_of (List.filter valid_mirror before) =
            names_of (List.filter valid_mirror before ++ [mirror])).
    { unfold names_of. rewrite map_app, list_to_set_app_L. cbn [map list_to_set]. destruct Hst as [_ ->]. clear.
      set_solver. }
    rewrite Hnames. apply IH'; [by rewrite <-app_assoc|]. apply Forall2_app; [done|]. by apply Forall2_cons.
  - assert (Hf : List.filter valid_mirror (before ++ [mirror]) = List.filter valid_mirror before).
    { rewrite List.filter_app. cbn [List.filter]. by rewrite Hr, app_nil_r. }
    pose proof (IH (before ++ [mirror]) statuses tr') as IH'. rewrite Hf in IH'.
    apply IH'; [by rewrite <-app_assoc|done].
Qed.

Definition deleted (tr : trace) {k} (o : Obj k) : Prop := exists x, saw_kube tr (KDelete k o) x.
Lemma delete_others_swp k kept items tr :
  (forall tr' o, o ∈ items -> kept o = false -> mirror_guard (tr ++ tr') _ (OKube (KDelete k o))) ->
  swp mirror_guard (delete_others k kept items)
    (fun r tr' => r = None -> forall o, o ∈ items -> kept o = false -> deleted tr' o) tr.
Proof.
  revert tr; induction items as [|o items IH]; intros tr Hg; cbn [delete_others].
  { sx. by intros _ o ?%elem_of_nil. }
  destruct (kept o) eqn:Hk.
  - eapply swp_mono; [|apply IH; intros tr' o' Ho'; apply Hg; apply elem_of_cons; auto].
    intros r tr' Hr Hn o' [->|Ho']%elem_of_cons Hk'; [congruence|auto].
  - sx. split; [rewrite <-(app_nil_r tr); apply Hg; [apply elem_of_cons; auto|done]|]. intros r.
    assert (Hrec : swp mirror_guard (delete_others k kept items)
      (fun r0 tr' => r0 = None -> forall o', o' ∈ o :: items -> kept o' = false -> deleted tr' o')
      (tr ++ [Ev (OKube (KDelete k o)) r])).
    { eapply swp_mono; [|apply swp_extends, IH].
      - intros r0 tr' [[new ->] Hr] Hn o' [->|Ho']%elem_of_cons Hk'; [|auto].
        exists r. apply saw_app_l, saw_last.
      - intros tr' o' Ho'. rewrite <-app_assoc. apply Hg, elem_of_cons. auto. }
    destruct r as [err|]; [|done]. by destruct (IsNotFound err).
Qed.

Lemma names_of_spec l name : name ∈ names_of l <-> exists mirror, mirror ∈ l /\ name = mirror_name mirror.
Proof.
  unfold names_of. rewrite elem_of_list_to_set, list_elem_of_fmap. naive_solver.
Qed.
Lemma mirror_name_inj storage mirror :
  mirrorDeploymentName cluster storage = mirror_name mirror -> storage = mirror_StorageName mirror.
Proof.
  unfold mirror_name, mirrorDeploymentName. rewrite <-!string_app_assoc. apply string_app_inj.
Qed.

(** Nothing of a valid mirror is pruned, and everything else that is listed is. *)
Definition pruned (tr : trace) : Prop :=
  (exists l, saw_kube tr (KList KDeployment (Some ns) (mirror_selector m)) (Ok l) /\
     forall o, o ∈ l -> (forall mirror, mirror ∈ valid_mirrors -> Name (dep_Meta o) <> mirror_name mirror) ->
     deleted tr (k:=KDeployment) o) /\
  (exists l, saw_kube tr (KList KSecret (Some ns) (mirror_selector m)) (Ok l) /\
     forall o, o ∈ l -> (forall mirror, mirror ∈ valid_mirrors ->
       Labels (sec_Meta o) !! LabelBackupStorage <> Some (mirror_StorageName mirror)) ->
     deleted tr (k:=KSecret) o).
Lemma pruneBackupMirrors_swp tr :
  swp mirror_guard (pruneBackupMirrors m (names_of valid_mirrors)) (fun r tr' => r = None -> pruned tr') tr.
Proof.
  unfold pruneBackupMirrors. sx. split; [by split_and!; [left|..]|]. intros [e|deps]; [done|].
  set (tr1 := tr ++ _). assert (Hdeps : saw_kube tr1 (KList KDeployment (Some ns) (mirror_selector m)) (Ok deps)).
  { apply saw_last. } clearbody tr1.
  eapply swp_seq_keep.
  { apply delete_others_swp. intros tr' o Ho Hk. split; [exists deps; split; [by apply saw_app_l|done]|].
    apply bool_decide_eq_false in Hk. intros mirror Hm Heq. apply Hk, names_of_spec. by exists mirror. }
  intros [e|] new Hdel; [done|]. specialize (Hdel eq_refl). sx. split; [by split_and!; [right|..]|].
  intros [e|secrets]; [done|].
  set (tr2 := (tr1 ++ new) ++ _).
  assert (Hsecrets : saw_kube tr2 (KList KSecret (Some ns) (mirror_selector m)) (Ok secrets)) by apply saw_last.
  assert (Hold : exists new', tr2 = (tr1 ++ new) ++ new') by by eexists. clearbody tr2.
  eapply swp_mono; [|apply swp_extends, delete_others_swp].
  - intros r tr' [[new2 ->] Hdel2] Hr. specialize (Hdel2 Hr). destruct Hold as [new' ->]. split.
    + exists deps. split; [by do 3 apply saw_app_l|]. intros o Ho Hn.
      destruct (Hdel o Ho) as [x Hx]; [|exists x; by do 2 apply saw_app_l].
      apply bool_decide_eq_false. intros (mirror & Hm & Heq)%names_of_spec. by eapply Hn.
    + exists secrets. split; [by apply saw_app_l|]. intros o Ho Hn. apply Hdel2; [done|].
      unfold secret_kept. destruct (Labels (sec_Meta o) !! LabelBackupStorage) as [storage|] eqn:Hl; [|done].
      cbn [default]. apply andb_false_iff. right. apply bool_decide_eq_false.
      intros (mirror & Hm & Heq%mirror_name_inj)%names_of_spec. eapply Hn; [done|]. rewrite ?Hl. f_equal. exact Heq.
  - intros tr' o Ho Hk. split; [exists secrets; split; [by apply saw_app_l|done]|].
    intros mirror Hm Hne Hl. unfold secret_kept in Hk. rewrite Hl in Hk. cbn [default] in Hk.
    rewrite bool_decide_false in Hk by done. cbn [negb andb] in Hk. apply bool_decide_eq_false in Hk.
    apply Hk, names_of_spec. by exists mirror.
Qed.

Definition mirrors_done (r : failure + list BackupMirrorStatus) (tr : trace) : Prop :=
  forall statuses, r = inr statuses -> Forall2 status_of valid_mirrors statuses /\ pruned tr.
Lemma ensureBackupMirrors_swp tr : swp mirror_guard (ensureBackupMirrors cert_manager m) mirrors_done tr.
Proof using H0.
  unfold ensureBackupMirrors. eapply swp_seq; [by apply (ensureMirrors_swp _ [] [])|].
  intros [e|[desired statuses]] tr1 Hr; [by sx|]. destruct Hr as [-> Hs]. cbn [fst snd].
  eapply swp_seq; [apply pruneBackupMirrors_swp|]. intros [e|] tr2 Hp; [by sx|].
  sx. intros statuses' [= <-]. split; [done|by apply Hp].
Qed.

(** Whatever the API server answers, a pass over the data mirrors writes only
    the Secrets and Deployments of mirrors with a usable storage - the Secret with
    the settings and credentials read for it -, and deletes only objects that
    carry the mirror labels of the cluster and belong to no such mirror.  When it
    reports no error, it reports exactly the usable mirrors, in order, and has
    deleted every other mirror object it listed. *)
Theorem mirrors_reconciled tr r :
  exec trace_env (ensureBackupMirrors cert_manager m) [] tr r ->
  guarded mirror_guard tr /\
  (forall statuses, r = inr statuses -> Forall2 status_of valid_mirrors statuses /\ pruned tr).
Proof using H0. intros Hx. by eapply (swp_theorem _ _ mirrors_done) in Hx; [|apply ensureBackupMirrors_swp]. Qed.
End safety.

(** ** Evaluations *)
Definition mirrored_cluster : Seaweed := {|
  sw_Meta := sample_meta "ns" "w" 1;
  sw_Spec := minimal_spec 1 None (Some {|
    bkp_Image := None; bkp_Storages := {[ "s" := s3_storage "b" ]}; bkp_Schedule := [];
    bkp_DataMirror := [{| mirror_StorageName := "s"; mirror_FilerPath := "" |};
                       {| mirror_StorageName := "gone"; mirror_FilerPath := "" |}] |});
  sw_Status := no_status |}.
(** A Deployment left over from a mirror whose storage was removed. *)
Definition leftover : Deployment :=
  buildMirrorDeployment true mirrored_cluster (mirrorDeploymentName "w" "gone") "x"
    {| mirror_StorageName := "gone"; mirror_FilerPath := "" |} (s3_storage "b") false.
Lemma mirrors_reconciled_witness :
  let s := set_objs KDeployment [leftover] sim_empty in
  let x := run (tracing sim) (ensureBackupMirrors true mirrored_cluster) (s, []) in
  map (fun d => Name (dep_Meta d)) (sim_objs x.1.1 KDeployment) = ["w-backup-mirror-s"] /\
  map (fun s => Name (sec_Meta s)) (sim_objs x.1.1 KSecret) = ["w-backup-mirror-s-config"] /\
  guarded (mirror_guard mirrored_cluster) x.1.2 /\
  (forall statuses, x.2 = inr statuses ->
     Forall2 (status_of mirrored_cluster) (valid_mirrors mirrored_cluster) statuses /\
     pruned mirrored_cluster x.1.2).
Proof.
  intros s x. split; [by vm_compute|]. split; [by vm_compute|].
  apply (mirrors_reconciled true mirrored_cluster x.1.2 x.2).
  exact (run_tracing sim (ensureBackupMirrors true mirrored_cluster) s []).
Defined.

(** A storage without credentials is documented as an error for Azure and B2; it is
    rendered with empty keys, while a missing Secret fails every type. *)
Definition azure_storage (secret : option string) : BackupStorageSpec := {|
  st_Type := "azure"; st_S3 := None; st_GCS := None;
  st_Azure := Some {| azure_AccountName := "a"; azure_Container := "c"; azure_Directory := "" |};
  st_B2 := None; st_Filesystem := None; st_CredentialsSecret := secret |}.
Definition s3_with_secret (secret : string) : BackupStorageSpec := {|
  st_Type := "s3"; st_S3 := st_S3 (s3_storage "b"); st_GCS := None; st_Azure := None; st_B2 := None;
  st_Filesystem := None; st_CredentialsSecret := Some secret |}.
Lemma credentials_tolerance :
  let resolve st := (run sim (resolveBackupCredentials mirrored_cluster st) sim_empty).2 in
  resolve (azure_storage None) = Ok ∅ /\ is_ok (renderReplicationToml "s" (azure_storage None) "w" ∅) = true /\
  is_ok (resolve (s3_with_secret "missing")) = false.
Proof. intros resolve. by vm_compute. Qed.
