(* ===== verification/VolumeClaims.v ===== *)
(** * Volume claim templates (volume_claim_templates.go, seaweed_controller.go)

    The comparison of the volume claim templates of a StatefulSet with the desired
    ones, the description of their differences, and what the operator does about
    them.  [Semantic.DeepEqual] on lists, maps of quantities and selectors is
    equality, of the values in the case of quantities. *)
From S2P Require Import Prelude Prog CoreTypes ApiTypes Effects Machinery Sim Trace.

Definition PersistentVolumeFilesystem : string := "Filesystem".
Definition volumeModeSemanticallyEqual (a b : option string) : bool :=
  bool_decide (default PersistentVolumeFilesystem a = default PersistentVolumeFilesystem b).
Definition desiredMetaSubsetOf (existing desired : gmap string string) : bool :=
  bool_decide (map_Forall (fun k v => existing !! k = Some v) desired).
Definition quantity_values (rl : gmap string Quantity) : gmap string Z := q_Nano <$> rl.
Definition requests_equal (a b : gmap string Quantity) : bool :=
  bool_decide (quantity_values a = quantity_values b).

Definition pvcSemanticallyEqual (a b : PersistentVolumeClaim) : bool :=
  if negb (bool_decide (pvc_Name a = pvc_Name b)) then false
  else if negb (desiredMetaSubsetOf (pvc_Annotations a) (pvc_Annotations b)) then false
  else if negb (desiredMetaSubsetOf (pvc_Labels a) (pvc_Labels b)) then false
  else if negb (bool_decide (pvc_AccessModes a = pvc_AccessModes b)) then false
  else if negb (requests_equal (pvc_Requests a) (pvc_Requests b)) then false
  else if negb (bool_decide (pvc_StorageClassName a = pvc_StorageClassName b)) then false
  else if negb (bool_decide (pvc_Selector a = pvc_Selector b)) then false
  else if negb (bool_decide (pvc_VolumeName a = pvc_VolumeName b)) then false
  else if negb (volumeModeSemanticallyEqual (pvc_VolumeMode a) (pvc_VolumeMode b)) then false
  else if negb (bool_decide (pvc_DataSource a = pvc_DataSource b)) then false
  else true.
Fixpoint vct_all (a b : list PersistentVolumeClaim) : bool :=
  match a, b with
  | x :: a, y :: b => if negb (pvcSemanticallyEqual x y) then false else vct_all a b
  | _, _ => true
  end.
Definition vctSemanticallyEqual (a b : list PersistentVolumeClaim) : bool :=
  if negb (length a =? length b) then false else vct_all a b.

(** ** Differences *)
Definition resourceListString (rl : gmap string Quantity) : string :=
  if bool_decide (rl = ∅) then "{}"
  else
    let names := sort_strings (map fst (map_to_list rl)) in
    let parts := map (fun name => name +:+ "=" +:+ match rl !! name with Some q => q_String q | None => "0" end)
                   names in
    "{" +:+ Join parts "," +:+ "}".
Definition stringPtr (p : option string) : string := match p with None => "<nil>" | Some s => fmt_q s end.
Definition volumeModeString (p : option string) : string := match p with None => "<nil>" | Some s => s end.
(** [%v] of a list of strings. *)
Definition fmt_v (l : list string) : string := "[" +:+ Join l " " +:+ "]".

Definition pvc_prefix (a : PersistentVolumeClaim) (index : Z) : string :=
  if negb (bool_decide (pvc_Name a = "")) then "template[" +:+ fmt_d index +:+ ":" +:+ pvc_Name a +:+ "]"
  else "template[" +:+ fmt_d index +:+ "]".
Definition unless (ok : bool) (diff : string) : list string := if negb ok then [diff] else [].
Definition pvcDifferences (a b : PersistentVolumeClaim) (index : Z) : list string :=
  let prefix := pvc_prefix a index in
  unless (bool_decide (pvc_Name a = pvc_Name b))
    (prefix +:+ ".name: " +:+ fmt_q (pvc_Name a) +:+ " vs " +:+ fmt_q (pvc_Name b)) ++
  unless (desiredMetaSubsetOf (pvc_Annotations a) (pvc_Annotations b)) (prefix +:+ ".annotations differ") ++
  unless (desiredMetaSubsetOf (pvc_Labels a) (pvc_Labels b)) (prefix +:+ ".labels differ") ++
  unless (bool_decide (pvc_AccessModes a = pvc_AccessModes b))
    (prefix +:+ ".accessModes: " +:+ fmt_v (pvc_AccessModes a) +:+ " vs " +:+ fmt_v (pvc_AccessModes b)) ++
  unless (requests_equal (pvc_Requests a) (pvc_Requests b))
    (prefix +:+ ".resources.requests: " +:+ resourceListString (pvc_Requests a) +:+ " vs " +:+
     resourceListString (pvc_Requests b)) ++
  unless (bool_decide (pvc_StorageClassName a = pvc_StorageClassName b))
    (prefix +:+ ".storageClassName: " +:+ stringPtr (pvc_StorageClassName a) +:+ " vs " +:+
     stringPtr (pvc_StorageClassName b)) ++
  unless (bool_decide (pvc_Selector a = pvc_Selector b)) (prefix +:+ ".selector differs") ++
  unless (bool_decide (pvc_VolumeName a = pvc_VolumeName b))
    (prefix +:+ ".volumeName: " +:+ fmt_q (pvc_VolumeName a) +:+ " vs " +:+ fmt_q (pvc_VolumeName b)) ++
  unless (volumeModeSemanticallyEqual (pvc_VolumeMode a) (pvc_VolumeMode b))
    (prefix +:+ ".volumeMode: " +:+ volumeModeString (pvc_VolumeMode a) +:+ " vs " +:+
     volumeModeString (pvc_VolumeMode b)) ++
  unless (bool_decide (pvc_DataSource a = pvc_DataSource b)) (prefix +:+ ".dataSource differs").

Definition maxDiffs : nat := 5.
Fixpoint vct_diffs (diffs : list string) (index : Z) (a b : list PersistentVolumeClaim) : list string :=
  match a, b with
  | x :: a, y :: b =>
      let diffs := diffs ++ pvcDifferences x y index in
      if maxDiffs <=? length diffs then firstn maxDiffs diffs ++ ["..."]
      else vct_diffs diffs (index + 1) a b
  | _, _ => diffs
  end.
Definition vctDifferences (a b : list PersistentVolumeClaim) : list string :=
  if negb (length a =? length b)
  then ["length: existing=" +:+ fmt_d (Z.of_nat (length a)) +:+ " desired=" +:+ fmt_d (Z.of_nat (length b))]
  else vct_diffs [] 0 a b.

(** ** What is done about them *)
Definition ErrStatefulSetDeleted : error := ErrOther "StatefulSet deleted for VolumeClaimTemplates update".
(** [recorder] is [r.Recorder != nil]. *)
Definition record_event (recorder : bool) (type reason message : string) : op () :=
  if recorder then call (OEvent type reason message) else Ret tt.
Definition reconcileVolumeClaimTemplates (recorder : bool) (existing desired : StatefulSet)
    : op (option error) :=
  let old := sts_VolumeClaimTemplates existing in
  let new := sts_VolumeClaimTemplates desired in
  let name := Name (sts_Meta existing) in
  if vctSemanticallyEqual old new then Ret None
  else if (length old =? 0) && (0 <? length new) then
    do _ <- record_event recorder "Normal" "VolumeClaimTemplatesChanged"
              ("Deleting StatefulSet " +:+ name +:+ " to add VolumeClaimTemplates");
    check kube (KDelete KStatefulSet existing)
    catch err => Ret (Some (ErrOther ("failed to delete StatefulSet " +:+ name +:+
                                      " for VolumeClaimTemplates update: " +:+ error_string err)));
    Ret (Some ErrStatefulSetDeleted)
  else
    do _ <- record_event recorder "Warning" "VolumeClaimTemplatesMismatch"
              ("VolumeClaimTemplates on " +:+ name +:+
               " differ but cannot be auto-applied. Delete the StatefulSet manually to apply changes. Differences: " +:+
               Join (vctDifferences old new) "; ");
    Ret None.

(** ** The comparison and the description agree *)
Lemma unless_nil ok diff : unless ok diff = [] <-> ok = true.
Proof. by destruct ok. Qed.
Lemma pvc_equal_iff a b index :
  pvcSemanticallyEqual a b = true <-> pvcDifferences a b index = [].
Proof.
  unfold pvcDifferences. cbv zeta. rewrite !app_nil, !unless_nil. unfold pvcSemanticallyEqual.
  repeat match goal with |- context [if negb ?c then false else _] => destruct c; cbn [negb] end; naive_solver.
Qed.
Lemma vct_diffs_grow diffs index a b : diffs <> [] -> vct_diffs diffs index a b <> [].
Proof.
  revert diffs index b; induction a as [|x a IH]; intros diffs index [|y b] Hd; cbn [vct_diffs]; [done..|].
  destruct (maxDiffs <=? _); [by destruct (firstn _ _)|]. apply IH. by destruct diffs.
Qed.
Lemma vct_diffs_all index a b : length a = length b -> vct_all a b = true <-> vct_diffs [] index a b = [].
Proof.
  revert index b; induction a as [|x a IH]; intros index [|y b] Hl; [done..|].
  cbn [vct_all vct_diffs app]. pose proof (pvc_equal_iff x y index) as Hxy.
  destruct (pvcSemanticallyEqual x y); cbn [negb].
  - rewrite (proj1 Hxy eq_refl). cbn [length maxDiffs Nat.leb]. apply IH. by injection Hl.
  - split; [done|]. intros Hn. exfalso.
    assert (Hne : pvcDifferences x y index <> []) by (intros H; by apply Hxy in H).
    destruct (maxDiffs <=? _); [by destruct (firstn _ _)|]. by apply vct_diffs_grow in Hn.
Qed.

(** The templates compare as equal exactly when no difference is described, so
    a warning always names one; and the description never has more than five
    differences and a mark that there are more. *)
Theorem vct_equal_iff_no_differences a b :
  (vctSemanticallyEqual a b = true <-> vctDifferences a b = []) /\
  (length (vctDifferences a b) <= 6)%nat.
Proof.
  unfold vctSemanticallyEqual, vctDifferences. destruct (Nat.eqb_spec (length a) (length b)) as [Hl|Hl]; cbn [negb].
  2: { split; [done|]. simpl. lia. }
  split; [by apply vct_diffs_all|]. clear Hl.
  assert (Hgen : forall a b diffs index, (length diffs <= 5)%nat -> (length (vct_diffs diffs index a b) <= 6)%nat).
  { induction a0 as [|x a0 IH]; intros [|y b0] diffs index Hd; cbn [vct_diffs]; [lia..|].
    destruct (Nat.leb_spec maxDiffs (length (diffs ++ pvcDifferences x y index))) as [Hm|Hm].
    - rewrite length_app. cbn [length].
      match goal with |- context [firstn ?n ?l] => pose proof (firstn_le_length n l) as Hf end.
      unfold maxDiffs in *. lia.
    - apply IH. unfold maxDiffs in Hm. lia. }
  apply Hgen. simpl. lia.
Qed.

(** ** The API server's defaulting is not a difference *)
(** What the API server and webhooks may make of a template: the volume mode filled
    in, metadata added, quantities printed otherwise. *)
Definition defaulted (desired stored : PersistentVolumeClaim) : Prop :=
  pvc_Name stored = pvc_Name desired /\
  pvc_Annotations desired ⊆ pvc_Annotations stored /\ pvc_Labels desired ⊆ pvc_Labels stored /\
  pvc_AccessModes stored = pvc_AccessModes desired /\
  quantity_values (pvc_Requests stored) = quantity_values (pvc_Requests desired) /\
  pvc_StorageClassName stored = pvc_StorageClassName desired /\
  pvc_Selector stored = pvc_Selector desired /\ pvc_VolumeName stored = pvc_VolumeName desired /\
  (pvc_VolumeMode stored = pvc_VolumeMode desired \/
   pvc_VolumeMode desired = None /\ pvc_VolumeMode stored = Some PersistentVolumeFilesystem) /\
  pvc_DataSource stored = pvc_DataSource desired.
Lemma subset_of existing desired : desired ⊆ existing -> desiredMetaSubsetOf existing desired = true.
Proof. intros Hs. apply bool_decide_eq_true. intros k v Hk. by eapply lookup_weaken. Qed.
Lemma defaulted_equal desired stored : defaulted desired stored -> pvcSemanticallyEqual stored desired = true.
Proof.
  intros (Hn & Ha & Hl & Hm & Hr & Hs & Hsel & Hv & Hmode & Hd).
  unfold pvcSemanticallyEqual, requests_equal, volumeModeSemanticallyEqual.
  rewrite (subset_of _ _ Ha), (subset_of _ _ Hl), !bool_decide_true; try done.
  by destruct Hmode as [->|[-> ->]].
Qed.

Lemma defaulted_templates_equal desired stored :
  Forall2 defaulted desired stored -> vctSemanticallyEqual stored desired = true.
Proof.
  intros Hd. unfold vctSemanticallyEqual. rewrite (Forall2_length _ _ _ Hd), Nat.eqb_refl. cbn [negb].
  induction Hd as [|d s ds ss Hds _ IH]; [done|]. cbn [vct_all]. by rewrite (defaulted_equal d s).
Qed.

(** What a pass over a StatefulSet may do: delete it when it has no templates and
    some are wanted, and record events. *)
Definition claims_guard (existing desired : StatefulSet) : Guard := fun tr X e =>
  match e with
  | OKube (KDelete KStatefulSet o) => o = existing /\
      sts_VolumeClaimTemplates existing = [] /\ sts_VolumeClaimTemplates desired <> []
  | OEvent _ _ _ => vctSemanticallyEqual (sts_VolumeClaimTemplates existing)
                      (sts_VolumeClaimTemplates desired) = false
  | _ => False
  end.

Definition is_delete (ev : event) : bool :=
  match ev_call ev with OKube (KDelete _ _) => true | _ => false end.

(** C29. A StatefulSet is deleted for its volume claim templates only to add some
    where there were none; removing or changing templates never deletes it.  When
    the stored templates are the desired ones as the API server defaults them,
    nothing happens at all.  The caller goes on only when nothing was deleted, and
    is told to start over only when the deletion succeeded. *)
Theorem claims_safe recorder existing desired tr r :
  exec trace_env (reconcileVolumeClaimTemplates recorder existing desired) [] tr r ->
  guarded (claims_guard existing desired) tr /\
  (Forall2 defaulted (sts_VolumeClaimTemplates desired) (sts_VolumeClaimTemplates existing) ->
   tr = [] /\ r = None) /\
  (r = None -> Forall (fun ev => is_delete ev = false) tr) /\
  (r = Some ErrStatefulSetDeleted -> saw_kube tr (KDelete KStatefulSet existing) None).
Proof.
  set (Q := fun (r : option error) (tr : trace) =>
    (Forall2 defaulted (sts_VolumeClaimTemplates desired) (sts_VolumeClaimTemplates existing) ->
       tr = [] /\ r = None) /\
    (r = None -> Forall (fun ev => is_delete ev = false) tr) /\
    (r = Some ErrStatefulSetDeleted -> saw_kube tr (KDelete KStatefulSet existing) None)).
  intros Hx. eapply (swp_theorem (claims_guard existing desired) _ Q) in Hx; [exact Hx|].
  unfold reconcileVolumeClaimTemplates. cbv zeta.
  destruct (vctSemanticallyEqual _ _) eqn:Hsem; [by sx|].
  assert (Hneq : forall P : Prop,
    Forall2 defaulted (sts_VolumeClaimTemplates desired) (sts_VolumeClaimTemplates existing) -> P).
  { intros P Hd%defaulted_templates_equal. congruence. }
  destruct ((length _ =? 0) && (0 <? length _)) eqn:Hadd.
  - apply andb_true_iff in Hadd as [Ho%Nat.eqb_eq%nil_length_inv Hn%Nat.ltb_lt].
    assert (Hne : sts_VolumeClaimTemplates desired <> []) by by intros H; rewrite H in Hn; inversion Hn.
    unfold record_event. destruct recorder; sx; (split; [done|]); intros u; sx;
      [split; [done|]; intros [e|]|destruct u as [e|]].
    all: sx; (split; [apply Hneq|]); (split; [done|]); intros Hr; auto with trace; exfalso.
    all: by injection Hr.
  - unfold record_event. destruct recorder; sx; [split; [done|]; intros u|].
    all: split; [apply Hneq|]; split; [by repeat constructor|done].
Qed.

(** ** Evaluations *)
Definition sample_claim (mode : option string) : PersistentVolumeClaim := {|
  pvc_Name := "data"; pvc_Annotations := ∅; pvc_Labels := ∅; pvc_AccessModes := ["ReadWriteOnce"];
  pvc_Requests := {[ "storage" := {| q_Sign := 1; q_AsInt64 := Some 1024%Z; q_String := "1Ki";
                                     q_Nano := (1024 * 10 ^ 9)%Z |} ]};
  pvc_StorageClassName := None; pvc_Selector := None; pvc_VolumeName := ""; pvc_VolumeMode := mode;
  pvc_DataSource := None |}.
Definition with_templates (l : list PersistentVolumeClaim) : StatefulSet :=
  bare_statefulset (sample_meta "ns" "w-volume" 1) 1 l 1.
(** Persistence is added; a stored default is no difference; a removal is refused. *)
Lemma claims_safe_witness :
  let pass old new := run (tracing sim) (reconcileVolumeClaimTemplates true (with_templates old)
                                           (with_templates new)) (sim_empty, []) in
  let x := pass [] [sample_claim None] in
  (x.2 = Some ErrStatefulSetDeleted /\ length x.1.2 = 2%nat) /\
  (pass [sample_claim (Some "Filesystem")] [sample_claim None]).1.2 = [] /\
  length (pass [sample_claim None] []).1.2 = 1%nat /\
  guarded (claims_guard (with_templates []) (with_templates [sample_claim None])) x.1.2.
Proof.
  intros pass x. split; [by vm_compute|]. split; [by vm_compute|]. split; [by vm_compute|].
  apply (claims_safe true (with_templates []) (with_templates [sample_claim None]) x.1.2 x.2).
  exact (run_tracing sim (reconcileVolumeClaimTemplates true (with_templates [])
                            (with_templates [sample_claim None])) sim_empty []).
Defined.
