(* ===== verification/ClusterStatus.v ===== *)
(** * The status of a cluster (seaweed_controller.go, controller_s3.go, controller_sftp.go)

    The replica counts of the components, the Ready condition derived from them,
    and the interval after which a cluster is reconciled again.  The topology
    groups are a Go map, visited in an order of its choosing: [topologies]. *)
From S2P Require Import Prelude Prog CoreTypes ApiTypes Effects Machinery Sim Trace.

Definition requeueWhileReconciling : Z := 5 * Second.
Definition requeueWhenReady : Z := 1 * Minute.
Definition reconcileRequeueAfter (isReady : bool) : Z :=
  if isReady then requeueWhenReady else requeueWhileReconciling.

Definition component_key (m : Seaweed) (suffix : string) : NamespacedName :=
  {| nn_Namespace := Namespace (sw_Meta m); nn_Name := Name (sw_Meta m) +:+ suffix |}.

Definition getStatefulSetStatus (key : NamespacedName) (desiredReplicas : Z) : op (result ComponentStatus) :=
  do r <- kube (KGet KStatefulSet key);
  match r with
  | inl err => if IsNotFound err then Ret (Ok {| Replicas := desiredReplicas; ReadyReplicas := 0 |})
               else Ret (Err err)
  | inr sts => Ret (Ok {| Replicas := desiredReplicas; ReadyReplicas := sts_ReadyReplicas sts |})
  end.
Definition getDaemonSetStatus (key : NamespacedName) : op (result ComponentStatus) :=
  do r <- kube (KGet KDaemonSet key);
  match r with
  | inl err => if IsNotFound err then Ret (Ok {| Replicas := 1; ReadyReplicas := 0 |}) else Ret (Err err)
  | inr ds => Ret (Ok {| Replicas := ds_DesiredNumberScheduled ds; ReadyReplicas := ds_NumberReady ds |})
  end.
Definition getDeploymentStatus (key : NamespacedName) (desiredReplicas : Z) : op (result ComponentStatus) :=
  do r <- kube (KGet KDeployment key);
  match r with
  | inl err => if IsNotFound err then Ret (Ok {| Replicas := desiredReplicas; ReadyReplicas := 0 |})
               else Ret (Err err)
  | inr dep => Ret (Ok {| Replicas := desiredReplicas; ReadyReplicas := dep_ReadyReplicas dep |})
  end.
(** A standalone gateway: [desired] are the replicas of the spec, when it has one. *)
Definition getGatewayStatus (key : NamespacedName) (desired : option Z) : op (result ComponentStatus) :=
  do r <- kube (KGet KDeployment key);
  match r with
  | inl err =>
      if IsNotFound err then Ret (Ok {| Replicas := default 0%Z desired; ReadyReplicas := 0 |})
      else Ret (Err err)
  | inr dep =>
      Ret (Ok {| Replicas := match desired with Some n => n | None => default 0%Z (dep_Replicas dep) end;
                 ReadyReplicas := dep_ReadyReplicas dep |})
  end.
Definition getS3Status (m : Seaweed) : op (result ComponentStatus) :=
  getGatewayStatus (component_key m "-s3") (s3gw_Replicas <$> sw_S3 (sw_Spec m)).
Definition getSFTPStatus (m : Seaweed) : op (result ComponentStatus) :=
  getGatewayStatus (component_key m "-sftp") (sftp_Replicas <$> sw_SFTP (sw_Spec m)).

Section status.
Context (topologies : list (string * option VolumeTopologySpec)).

Fixpoint topology_status (m : Seaweed) (l : list (string * option VolumeTopologySpec)) (total : ComponentStatus)
    : op (result ComponentStatus) :=
  match l with
  | [] => Ret (Ok total)
  | (name, spec) :: l =>
      match spec with
      | None => topology_status m l total
      | Some spec =>
          try status <- getStatefulSetStatus (component_key m ("-volume-" +:+ name)) (topo_Replicas spec)
            catch err => Ret (Err err);
          topology_status m l {| Replicas := int32 (Replicas total + Replicas status);
                                 ReadyReplicas := int32 (ReadyReplicas total + ReadyReplicas status) |}
      end
  end.
Definition getVolumeStatus (m : Seaweed) : op (result ComponentStatus) :=
  try base <- (match sw_Volume (sw_Spec m) with
               | None => Ret (Ok no_component)
               | Some v => if IsDaemonSet v then getDaemonSetStatus (component_key m "-volume")
                           else getStatefulSetStatus (component_key m "-volume") (vspec_Replicas v)
               end) catch err => Ret (Err err);
  topology_status m topologies base.

Definition ComponentMaster : string := "master".
Definition ComponentVolume : string := "volume".
Definition ComponentFiler : string := "filer".
Definition ComponentAdmin : string := "admin".
Definition ComponentWorker : string := "worker".
Definition getComponentStatus (m : Seaweed) (component : string) : op (result ComponentStatus) :=
  let spec := sw_Spec m in
  if bool_decide (component = ComponentMaster) then
    match sw_Master spec with
    | Some s => getStatefulSetStatus (component_key m "-master") (master_Replicas s)
    | None => Ret (Ok no_component)
    end
  else if bool_decide (component = ComponentVolume) then getVolumeStatus m
  else if bool_decide (component = ComponentFiler) then
    match sw_Filer spec with
    | Some s => getStatefulSetStatus (component_key m "-filer") (filer_Replicas s)
    | None => Ret (Ok no_component)
    end
  else if bool_decide (component = ComponentAdmin) then
    match sw_Admin spec with
    | Some _ => getStatefulSetStatus (component_key m "-admin") 1
    | None => Ret (Ok no_component)
    end
  else if bool_decide (component = ComponentWorker) then
    match sw_Worker spec with
    | Some s => getDeploymentStatus (component_key m "-worker") (worker_Replicas s)
    | None => Ret (Ok no_component)
    end
  else Ret (Ok no_component).

(** The status of an optional component. *)
Definition when (enabled : bool) (p : op (result ComponentStatus)) : op (result ComponentStatus) :=
  if enabled then p else Ret (Ok no_component).
Definition present {A} (x : option A) : bool := match x with Some _ => true | None => false end.
Definition worker_enabled (m : Seaweed) : bool :=
  present (sw_Worker (sw_Spec m)) && present (sw_Admin (sw_Spec m)).
Record statuses := {
  of_master : ComponentStatus;
  of_volume : ComponentStatus;
  of_filer : ComponentStatus;
  of_admin : ComponentStatus;
  of_worker : ComponentStatus;
  of_s3 : ComponentStatus;
  of_sftp : ComponentStatus;
}.
Definition component_statuses (m : Seaweed) : op (result statuses) :=
  let spec := sw_Spec m in
  try master <- getComponentStatus m ComponentMaster catch err => Ret (Err err);
  try volume <- getComponentStatus m ComponentVolume catch err => Ret (Err err);
  try filer <- when (present (sw_Filer spec)) (getComponentStatus m ComponentFiler) catch err => Ret (Err err);
  try admin <- when (present (sw_Admin spec)) (getComponentStatus m ComponentAdmin) catch err => Ret (Err err);
  try worker <- when (worker_enabled m) (getComponentStatus m ComponentWorker) catch err => Ret (Err err);
  try s3 <- getS3Status m catch err => Ret (Err err);
  try sftp <- getSFTPStatus m catch err => Ret (Err err);
  Ret (Ok {| of_master := master; of_volume := volume; of_filer := filer; of_admin := admin;
             of_worker := worker; of_s3 := s3; of_sftp := sftp |}).

(** ** Readiness *)
Definition settled (s : ComponentStatus) : bool :=
  bool_decide (Replicas s = 0%Z) || bool_decide (ReadyReplicas s = Replicas s).
Definition is_ready (m : Seaweed) (x : statuses) : bool :=
  let spec := sw_Spec m in
  let isReady := (0 <? Replicas (of_master x))%Z &&
                 bool_decide (ReadyReplicas (of_master x) = Replicas (of_master x)) in
  let isReady := isReady && settled (of_volume x) in
  let isReady := if present (sw_Filer spec) then isReady && settled (of_filer x) else isReady in
  let isReady := if present (sw_Admin spec) then isReady && settled (of_admin x) else isReady in
  let isReady := if worker_enabled m then isReady && settled (of_worker x) else isReady in
  let isReady := if present (sw_S3 spec) then isReady && settled (of_s3 x) else isReady in
  if present (sw_SFTP spec) then isReady && settled (of_sftp x) else isReady.

Definition ready_text (label : string) (s : ComponentStatus) : string :=
  label +:+ ": " +:+ fmt_d (ReadyReplicas s) +:+ "/" +:+ fmt_d (Replicas s) +:+ " ready".
Definition notReadyMessage (m : Seaweed) (x : statuses) : string :=
  let spec := sw_Spec m in
  Join [ready_text "Master" (of_master x); ready_text "Volume" (of_volume x)] ", " +:+
  (if present (sw_Filer spec) then ", " +:+ ready_text "Filer" (of_filer x) else "") +:+
  (if present (sw_Admin spec) then ", " +:+ ready_text "Admin" (of_admin x) else "") +:+
  (if worker_enabled m then ", " +:+ ready_text "Worker" (of_worker x) else "").

Context `{ApiMachinery}.
Definition ready_condition (m : Seaweed) (x : statuses) : Condition :=
  if is_ready m x then
    {| cond_Type := "Ready"; cond_Status := ConditionTrue; cond_ObservedGeneration := Generation (sw_Meta m);
       cond_Reason := "Ready"; cond_Message := "Seaweed cluster is ready" |}
  else
    {| cond_Type := "Ready"; cond_Status := ConditionFalse; cond_ObservedGeneration := Generation (sw_Meta m);
       cond_Reason := "NotReady"; cond_Message := notReadyMessage m x |}.
Definition with_statuses (m : Seaweed) (x : statuses) : Seaweed :=
  let spec := sw_Spec m in {|
  sw_Meta := sw_Meta m; sw_Spec := sw_Spec m;
  sw_Status := {|
    swst_ObservedGeneration := Generation (sw_Meta m);
    swst_Conditions := SetStatusCondition (swst_Conditions (sw_Status m)) (ready_condition m x);
    swst_Master := of_master x; swst_Volume := of_volume x;
    swst_Filer := if present (sw_Filer spec) then of_filer x else no_component;
    swst_Admin := if present (sw_Admin spec) then of_admin x else no_component;
    swst_Worker := if worker_enabled m then of_worker x else no_component;
    swst_S3 := of_s3 x; swst_SFTP := of_sftp x;
    swst_BackupMirrors := swst_BackupMirrors (sw_Status m) |} |}.
Definition updateStatus (m : Seaweed) : op (bool * option error) :=
  try x <- component_statuses m catch err => Ret (false, Some err);
  do r <- kube (KStatusUpdate KSeaweed (with_statuses m x));
  match r with
  | Some err => if IsConflict err then Ret (false, None) else Ret (false, Some err)
  | None => Ret (is_ready m x, None)
  end.
(** The end of Reconcile. *)
Definition finishReconcile (m : Seaweed) : op outcome :=
  do r <- updateStatus m;
  match r.2 with
  | Some err => Ret (Done noResult (Some err))
  | None => Ret (Done (requeueIn (reconcileRequeueAfter r.1)) None)
  end.
End status.

(** ** What is reported *)
Section reported.
Context (topologies : list (string * option VolumeTopologySpec)) `{ApiMachineryLaws} (m : Seaweed).
Abbreviation spec := (sw_Spec m).

(** A status as read: the ready replicas of the workload, none when it is absent. *)
Definition seen_ready (tr : trace) (k : Kind) (ready : Obj k -> Z) (key : NamespacedName) (n : Z) : Prop :=
  (exists o, saw_kube tr (KGet k key) (Ok o) /\ n = ready o) \/
  (exists e, IsNotFound e = true /\ saw_kube tr (KGet k key) (Err e) /\ n = 0%Z).
Definition sts_seen (tr : trace) (suffix : string) (desired : Z) (s : ComponentStatus) : Prop :=
  Replicas s = desired /\ seen_ready tr KStatefulSet sts_ReadyReplicas (component_key m suffix) (ReadyReplicas s).
Definition dep_seen (tr : trace) (suffix : string) (desired : Z) (s : ComponentStatus) : Prop :=
  Replicas s = desired /\ seen_ready tr KDeployment dep_ReadyReplicas (component_key m suffix) (ReadyReplicas s).
Definition gateway_seen (tr : trace) (suffix : string) (desired : option Z) (s : ComponentStatus) : Prop :=
  (forall n, desired = Some n -> Replicas s = n) /\
  seen_ready tr KDeployment dep_ReadyReplicas (component_key m suffix) (ReadyReplicas s).

Definition live_topologies : list (string * VolumeTopologySpec) :=
  omap (fun x => pair x.1 <$> x.2) topologies.
Definition add_status (a b : ComponentStatus) : ComponentStatus := {|
  Replicas := int32 (Replicas a + Replicas b); ReadyReplicas := int32 (ReadyReplicas a + ReadyReplicas b) |}.
Definition group_seen (tr : trace) (g : string * VolumeTopologySpec) (s : ComponentStatus) : Prop :=
  sts_seen tr ("-volume-" +:+ g.1) (topo_Replicas g.2) s.
Definition base_seen (tr : trace) (s : ComponentStatus) : Prop :=
  match sw_Volume spec with
  | None => s = no_component
  | Some v => if IsDaemonSet v
              then (exists ds, saw_kube tr (KGet KDaemonSet (component_key m "-volume")) (Ok ds) /\
                      s = {| Replicas := ds_DesiredNumberScheduled ds; ReadyReplicas := ds_NumberReady ds |}) \/
                   s = {| Replicas := 1; ReadyReplicas := 0 |}
              else sts_seen tr "-volume" (vspec_Replicas v) s
  end.
Definition volume_seen (tr : trace) (s : ComponentStatus) : Prop :=
  exists base parts, base_seen tr base /\ Forall2 (group_seen tr) live_topologies parts /\
    s = foldl add_status base parts.
Definition optional (enabled : bool) (P : Prop) : Prop := enabled = true -> P.
Definition master_seen (tr : trace) (s : ComponentStatus) : Prop :=
  match sw_Master spec with
  | None => s = no_component
  | Some master => sts_seen tr "-master" (master_Replicas master) s
  end.
Definition statuses_seen (tr : trace) (x : statuses) : Prop :=
  master_seen tr (of_master x) /\
  volume_seen tr (of_volume x) /\
  (forall f, sw_Filer spec = Some f -> sts_seen tr "-filer" (filer_Replicas f) (of_filer x)) /\
  (forall a, sw_Admin spec = Some a -> sts_seen tr "-admin" 1 (of_admin x)) /\
  (forall a w, sw_Admin spec = Some a -> sw_Worker spec = Some w ->
     dep_seen tr "-worker" (worker_Replicas w) (of_worker x)) /\
  gateway_seen tr "-s3" (s3gw_Replicas <$> sw_S3 spec) (of_s3 x) /\
  gateway_seen tr "-sftp" (sftp_Replicas <$> sw_SFTP spec) (of_sftp x).

Definition status_guard : Guard := fun tr X e =>
  match e with
  | OKube (KGet k key) => k = KStatefulSet \/ k = KDaemonSet \/ k = KDeployment
  | OKube (KStatusUpdate KSeaweed o) => exists x, statuses_seen tr x /\ o = with_statuses m x
  | _ => False
  end.

Lemma seen_ready_mono tr new k ready key n :
  seen_ready tr k ready key n -> seen_ready (tr ++ new) k ready key n.
Proof.
  unfold saw_kube. intros [(o & Ho & ->)|(e & He & Hs & ->)].
  - left. exists o. split; [by apply saw_app_l|done].
  - right. exists e. split; [done|]. split; [by apply saw_app_l|done].
Qed.
Lemma sts_seen_mono tr new suffix d s : sts_seen tr suffix d s -> sts_seen (tr ++ new) suffix d s.
Proof. intros [? ?]. split; [done|by apply seen_ready_mono]. Qed.
Lemma dep_seen_mono tr new suffix d s : dep_seen tr suffix d s -> dep_seen (tr ++ new) suffix d s.
Proof. intros [? ?]. split; [done|by apply seen_ready_mono]. Qed.
Lemma gateway_seen_mono tr new suffix d s : gateway_seen tr suffix d s -> gateway_seen (tr ++ new) suffix d s.
Proof. intros [? ?]. split; [done|by apply seen_ready_mono]. Qed.
Lemma base_seen_mono tr new s : base_seen tr s -> base_seen (tr ++ new) s.
Proof.
  unfold base_seen. destruct (sw_Volume spec) as [v|]; [|done]. destruct (IsDaemonSet v).
  - intros [(ds & ? & ?)|?]; [left; exists ds; split; [by apply saw_app_l|done]|by right].
  - apply sts_seen_mono.
Qed.
Lemma volume_seen_mono tr new s : volume_seen tr s -> volume_seen (tr ++ new) s.
Proof.
  intros (base & parts & Hb & Hp & ->). exists base, parts. split; [by apply base_seen_mono|].
  split; [|done]. eapply Forall2_impl; [exact Hp|]. intros g s. apply sts_seen_mono.
Qed.
Lemma master_seen_mono tr new s : master_seen tr s -> master_seen (tr ++ new) s.
Proof. unfold master_seen. destruct (sw_Master spec); [apply sts_seen_mono|done]. Qed.
#[local] Hint Resolve master_seen_mono sts_seen_mono dep_seen_mono gateway_seen_mono volume_seen_mono base_seen_mono : status.

Lemma statuses_seen_mono tr new x : statuses_seen tr x -> statuses_seen (tr ++ new) x.
Proof.
  intros (? & ? & Hf & Ha & Hw & ? & ?). split_and!; [auto with status|auto with status| | | | |].
  - intros f Hs. by apply sts_seen_mono, Hf.
  - intros a Hs. by apply sts_seen_mono, (Ha a).
  - intros a w Hs Hs'. by apply dep_seen_mono, (Hw a).
  - auto with status.
  - auto with status.
Qed.

(** The post-condition of a status read. *)
Abbreviation read_ok P := (fun r tr => match r with inl _ => True | inr s => P tr s end).
Lemma getStatefulSetStatus_swp suffix desired tr :
  swp status_guard (getStatefulSetStatus (component_key m suffix) desired)
    (read_ok (fun tr s => sts_seen tr suffix desired s)) tr.
Proof.
  unfold getStatefulSetStatus. sx. split; [by left|]. intros [e|o].
  - destruct (IsNotFound e) eqn:He; sx; [|done]. split; [done|]. right. exists e. split; [done|]. split; [apply saw_last|done].
  - split; [done|]. left. exists o. split; [apply saw_last|done].
Qed.
Lemma getDeploymentStatus_swp suffix desired tr :
  swp status_guard (getDeploymentStatus (component_key m suffix) desired)
    (read_ok (fun tr s => dep_seen tr suffix desired s)) tr.
Proof.
  unfold getDeploymentStatus. sx. split; [by right; right|]. intros [e|o].
  - destruct (IsNotFound e) eqn:He; sx; [|done]. split; [done|]. right. exists e. split; [done|]. split; [apply saw_last|done].
  - split; [done|]. left. exists o. split; [apply saw_last|done].
Qed.
Lemma getGatewayStatus_swp suffix desired tr :
  swp status_guard (getGatewayStatus (component_key m suffix) desired)
    (read_ok (fun tr s => gateway_seen tr suffix desired s)) tr.
Proof.
  unfold getGatewayStatus. sx. split; [by right; right|]. intros [e|o].
  - destruct (IsNotFound e) eqn:He; sx; [|done]. split; [by intros n ->|]. right. exists e. split; [done|]. split; [apply saw_last|done].
  - split; [by intros n ->|]. left. exists o. split; [apply saw_last|done].
Qed.
Lemma topology_status_swp l base parts before tr :
  topologies = before ++ l ->
  base_seen tr base ->
  Forall2 (group_seen tr) (omap (fun x => pair x.1 <$> x.2) before) parts ->
  swp status_guard (topology_status m l (foldl add_status base parts)) (read_ok volume_seen) tr.
Proof.
  revert parts before tr; induction l as [|[name [g|]] l IH]; intros parts before tr Ht Hb Hp; cbn [topology_status].
  - rewrite app_nil_r in Ht. sx. exists base, parts. unfold live_topologies. by rewrite Ht.
  - eapply swp_seq_keep; [apply getStatefulSetStatus_swp|]. intros [e|s] new Hs; [by sx|].
    assert (Hfold : {| Replicas := int32 (Replicas (foldl add_status base parts) + Replicas s);
                       ReadyReplicas := int32 (ReadyReplicas (foldl add_status base parts) + ReadyReplicas s) |} =
                    foldl add_status base (parts ++ [s])) by by rewrite foldl_app.
    rewrite Hfold. apply (IH _ (before ++ [(name, Some g)])); [by rewrite <-app_assoc|auto with status|].
    rewrite omap_app. apply Forall2_app; [|by apply Forall2_cons].
    eapply Forall2_impl; [exact Hp|]. intros g' s'. apply sts_seen_mono.
  - apply (IH _ (before ++ [(name, None)])); [by rewrite <-app_assoc|done|].
    rewrite omap_app. by rewrite app_nil_r.
Qed.
Lemma getVolumeStatus_swp tr :
  swp status_guard (getVolumeStatus topologies m) (read_ok volume_seen) tr.
Proof.
  unfold getVolumeStatus. eapply (swp_seq_keep _ _ _ (read_ok base_seen)).
  - unfold base_seen. destruct (sw_Volume spec) as [v|]; [|by sx].
    destruct (IsDaemonSet v); [|apply getStatefulSetStatus_swp].
    unfold getDaemonSetStatus. sx. split; [by right; left|]. intros [e|ds].
    + destruct (IsNotFound e); sx; [by right|done].
    + left. exists ds. split; [apply saw_last|done].
  - intros [e|base] new Hb; [by sx|]. by apply (topology_status_swp topologies base [] []).
Qed.
(** What a component's status was read from. *)
Definition component_seen (component : string) (tr : trace) (s : ComponentStatus) : Prop :=
  (component = ComponentMaster -> master_seen tr s) /\
  (component = ComponentVolume -> volume_seen tr s) /\
  (component = ComponentFiler -> forall f, sw_Filer spec = Some f -> sts_seen tr "-filer" (filer_Replicas f) s) /\
  (component = ComponentAdmin -> forall a, sw_Admin spec = Some a -> sts_seen tr "-admin" 1 s) /\
  (component = ComponentWorker -> forall w, sw_Worker spec = Some w -> dep_seen tr "-worker" (worker_Replicas w) s).
Lemma getComponentStatus_swp component tr :
  swp status_guard (getComponentStatus topologies m component) (read_ok (component_seen component)) tr.
Proof.
  unfold getComponentStatus, component_seen. cbv zeta. repeat case_bool_decide; subst.
  - unfold master_seen. destruct (sw_Master spec) as [s|]; [|by sx].
    eapply swp_mono; [|apply getStatefulSetStatus_swp]. intros [e|x] tr' Hx; [done|by split_and!].
  - eapply swp_mono; [|apply getVolumeStatus_swp]. intros [e|x] tr' Hx; [done|by split_and!].
  - destruct (sw_Filer spec) as [s|]; [|by sx].
    eapply swp_mono; [|apply getStatefulSetStatus_swp]. intros [e|x] tr' Hx; [done|]. split_and!; naive_solver.
  - destruct (sw_Admin spec) as [s|]; [|by sx].
    eapply swp_mono; [|apply getStatefulSetStatus_swp]. intros [e|x] tr' Hx; [done|]. split_and!; naive_solver.
  - destruct (sw_Worker spec) as [s|]; [|by sx].
    eapply swp_mono; [|apply getDeploymentStatus_swp]. intros [e|x] tr' Hx; [done|]. split_and!; naive_solver.
  - by sx.
Qed.
Lemma when_swp enabled p (P : trace -> ComponentStatus -> Prop) tr :
  (forall tr, swp status_guard p (read_ok P) tr) ->
  swp status_guard (when enabled p) (read_ok (fun tr s => enabled = true -> P tr s)) tr.
Proof.
  intros Hp. destruct enabled; cbn [when]; [|by sx]. eapply swp_mono; [|apply Hp].
  by intros [e|s] tr' Hs.
Qed.
Lemma component_statuses_swp tr :
  swp status_guard (component_statuses topologies m) (read_ok statuses_seen) tr.
Proof.
  unfold component_statuses. cbv zeta.
  eapply swp_seq_keep; [apply getComponentStatus_swp|]. intros [e|master] n1 Hmaster; [by sx|].
  destruct Hmaster as [Hmaster _]. specialize (Hmaster eq_refl).
  eapply swp_seq_keep; [apply getComponentStatus_swp|]. intros [e|volume] n2 Hvolume; [by sx|].
  destruct Hvolume as (_ & Hvolume & _). specialize (Hvolume eq_refl).
  eapply swp_seq_keep; [apply when_swp, getComponentStatus_swp|]. intros [e|filer] n3 Hfiler; [by sx|].
  eapply swp_seq_keep; [apply when_swp, getComponentStatus_swp|]. intros [e|admin] n4 Hadmin; [by sx|].
  eapply swp_seq_keep; [apply when_swp, getComponentStatus_swp|]. intros [e|worker] n5 Hworker; [by sx|].
  eapply swp_seq_keep; [apply getGatewayStatus_swp|]. intros [e|s3] n6 Hs3; [by sx|].
  eapply swp_seq_keep; [apply getGatewayStatus_swp|]. intros [e|sftp] n7 Hsftp; [by sx|].
  sx. unfold statuses_seen. cbn [of_master of_volume of_filer of_admin of_worker of_s3 of_sftp].
  split_and!; [auto 10 with status|auto 10 with status| | | |auto 10 with status|auto with status].
  - intros f Hf. destruct (Hfiler ltac:(by rewrite Hf)) as (_ & _ & Hs & _). specialize (Hs eq_refl f Hf). auto 10 with status.
  - intros a Ha. destruct (Hadmin ltac:(by rewrite Ha)) as (_ & _ & _ & Hs & _). specialize (Hs eq_refl a Ha). auto 10 with status.
  - intros a w Ha Hw. destruct (Hworker ltac:(by unfold worker_enabled; rewrite Ha, Hw)) as (_ & _ & _ & _ & Hs).
    specialize (Hs eq_refl w Hw). auto 10 with status.
Qed.


(** How a pass ends: with the statuses read and written, a lost conflict, or an error. *)
Definition reported (o : outcome) (tr : trace) : Prop :=
  (exists x answer, statuses_seen tr x /\
     saw_kube tr (KStatusUpdate KSeaweed (with_statuses m x)) answer /\
     match answer with
     | None => o = Done (requeueIn (reconcileRequeueAfter (is_ready m x))) None
     | Some e => if IsConflict e then o = Done (requeueIn requeueWhileReconciling) None
                 else o = Done noResult (Some e)
     end) \/
  exists e, o = Done noResult (Some e).

Lemma finishReconcile_swp tr : swp status_guard (finishReconcile topologies m) reported tr.
Proof.
  unfold finishReconcile. apply swp_bind. unfold updateStatus.
  eapply swp_seq; [apply component_statuses_swp|]. intros [e|x] tr1 Hs; [by sx; right; exists e|].
  sx. split; [by exists x|]. intros [e|]; [destruct (IsConflict e) eqn:He|]; sx; cbn [fst snd]; sx; left.
  all: exists x; eexists; (split; [by apply statuses_seen_mono|]); (split; [apply saw_last|]).
  all: cbn beta iota; rewrite ?He; reflexivity.
Qed.

(** Whatever the API server answers and whatever the order in which the
    topology groups are visited, the only thing a pass writes here is the status it
    read from the workloads just before.  A pass that ends without error wrote it,
    or lost a conflict; the slow cadence is requested exactly when the write
    succeeded with every enabled component settled and some master asked for, and a
    conflict asks for the fast cadence.  Any other failure is returned. *)
Theorem status_reported tr o :
  exec trace_env (finishReconcile topologies m) [] tr o -> guarded status_guard tr /\ reported o tr.
Proof. intros Hx. eapply swp_theorem in Hx; [exact Hx|]. apply finishReconcile_swp. Qed.
End reported.

(** ** Evaluations *)
Definition sized (key : string) (replicas ready : Z) : StatefulSet :=
  bare_statefulset (sample_meta "ns" key 1) replicas [] ready.
Definition grouped_cluster : Seaweed := {|
  sw_Meta := sample_meta "ns" "w" 1;
  sw_Spec := cluster_spec (minimal_master 1) (Some (minimal_volume 1))
               {[ "r1" := Some (minimal_topology 1 "r1" "d") ]} None None None;
  sw_Status := no_status |}.
Definition status_pass (workloads : list StatefulSet) : Sim * trace * outcome :=
  run (tracing sim)
    (finishReconcile (map_to_list (sw_VolumeTopology (sw_Spec grouped_cluster))) grouped_cluster)
    (set_objs KStatefulSet workloads sim_empty, []).

(** One replica of each ready: the slow cadence.  No topology group yet: the fast one. *)
Lemma status_reported_witness :
  let x := status_pass [sized "w-master" 1 1; sized "w-volume" 1 1; sized "w-volume-r1" 1 1] in
  x.2 = Done (requeueIn requeueWhenReady) None /\
  (status_pass [sized "w-master" 1 1; sized "w-volume" 1 1]).2 = Done (requeueIn requeueWhileReconciling) None /\
  guarded (status_guard (map_to_list (sw_VolumeTopology (sw_Spec grouped_cluster))) grouped_cluster) x.1.2.
Proof.
  intros x. split; [by vm_compute|]. split; [by vm_compute|].
  apply (status_reported (map_to_list (sw_VolumeTopology (sw_Spec grouped_cluster))) grouped_cluster x.1.2 x.2).
  exact (run_tracing sim (finishReconcile (map_to_list (sw_VolumeTopology (sw_Spec grouped_cluster)))
                            grouped_cluster) _ []).
Defined.

(** The volume servers are counted together: while the base group scales down from
    two servers to one, a topology group without any ready server goes unnoticed
    and the cluster is reported Ready. *)
Theorem topology_shortage_masked :
  (status_pass [sized "w-master" 1 1; sized "w-volume" 1 2; sized "w-volume-r1" 1 0]).2 =
  Done (requeueIn requeueWhenReady) None.
Proof. by vm_compute. Qed.
