(* ===== verification/Workloads.v ===== *)
(** * Workloads of the components (the shapes the controller_*.go files share)

    Every component of a cluster is a pod template under a StatefulSet, Deployment
    or DaemonSet with Services in front of it.  This file has the parts of those
    objects that are built the same way everywhere, the merges of an existing
    workload with the desired one, and the writing of an object the cluster owns. *)
From S2P Require Import Prelude Prog CoreTypes ApiTypes Effects Machinery Sim Trace.
From S2P Require Import Upsert SecurityConfig Component VolumeClaims.

(** ** Objects the cluster owns *)
Class Owned (k : Kind) := {
  with_meta : ObjectMeta -> Obj k -> Obj k;
  obj_with_meta meta o : obj_meta (with_meta meta o) = meta;
}.
#[export] Program Instance owned_service : Owned KService := {|
  with_meta meta o := {| svc_Meta := meta; svc_Spec := svc_Spec o |} |}.
Next Obligation. done. Qed.
#[export] Program Instance owned_configmap : Owned KConfigMap := {|
  with_meta meta o := {| cm_Meta := meta; cm_Data := cm_Data o |} |}.
Next Obligation. done. Qed.
#[export] Program Instance owned_monitor : Owned KServiceMonitor := {|
  with_meta meta o := {| sm_Meta := meta; sm_Selector := sm_Selector o;
    sm_NamespaceSelector := sm_NamespaceSelector o; sm_Endpoints := sm_Endpoints o |} |}.
Next Obligation. done. Qed.
#[export] Program Instance owned_ingress : Owned KIngress := {|
  with_meta meta o := {| ing_Meta := meta; ing_Spec := ing_Spec o |} |}.
Next Obligation. done. Qed.
#[export] Program Instance owned_deployment : Owned KDeployment := {|
  with_meta meta o := {|
    dep_Meta := meta; dep_Replicas := dep_Replicas o; dep_Selector := dep_Selector o;
    dep_StrategyType := dep_StrategyType o; dep_RollingUpdate := dep_RollingUpdate o;
    dep_TemplateLabels := dep_TemplateLabels o; dep_TemplateAnnotations := dep_TemplateAnnotations o;
    dep_Pod := dep_Pod o; dep_StatusReplicas := dep_StatusReplicas o; dep_AvailableReplicas := dep_AvailableReplicas o;
    dep_ReadyReplicas := dep_ReadyReplicas o |} |}.
Next Obligation. done. Qed.
#[export] Program Instance owned_statefulset : Owned KStatefulSet := {|
  with_meta meta o := {|
    sts_Meta := meta; sts_ServiceName := sts_ServiceName o;
    sts_PodManagementPolicy := sts_PodManagementPolicy o; sts_Replicas := sts_Replicas o;
    sts_UpdateStrategy := sts_UpdateStrategy o; sts_Selector := sts_Selector o;
    sts_TemplateLabels := sts_TemplateLabels o; sts_TemplateAnnotations := sts_TemplateAnnotations o;
    sts_Pod := sts_Pod o; sts_VolumeClaimTemplates := sts_VolumeClaimTemplates o;
    sts_RetentionPolicy := sts_RetentionPolicy o; sts_ReadyReplicas := sts_ReadyReplicas o |} |}.
Next Obligation. done. Qed.
#[export] Program Instance owned_daemonset : Owned KDaemonSet := {|
  with_meta meta o := {|
    ds_Meta := meta; ds_Selector := ds_Selector o; ds_UpdateStrategy := ds_UpdateStrategy o;
    ds_TemplateLabels := ds_TemplateLabels o; ds_TemplateAnnotations := ds_TemplateAnnotations o;
    ds_Pod := ds_Pod o; ds_DesiredNumberScheduled := ds_DesiredNumberScheduled o;
    ds_NumberReady := ds_NumberReady o |} |}.
Next Obligation. done. Qed.

(** [controllerutil.SetControllerReference(m, o, r.Scheme)] *)
Definition set_owner `{Owners} (m : Seaweed) (k : Kind) `{Owned k} (o : Obj k) : result (Obj k) :=
  match SetControllerReference (sw_Meta m) "Seaweed" (obj_meta o) with
  | inl err => Err err
  | inr meta => Ok (with_meta meta o)
  end.
(** A step of the reconciler: [None] goes on with the next one. *)
Definition ReconcileResult (err : option error) : option outcome :=
  match err with Some e => Some (Done noResult (Some e)) | None => None end.
(** How the reconciler ends when a function it calls does not return a value. *)
Definition ends_with {E A} `{Fails E} (r : E + A) : option outcome :=
  match r with inl e => Some (outcome_of e) | inr _ => None end.
(** Go on with [q] unless the step returned. *)
Definition and_then (p q : op (option outcome)) : op (option outcome) :=
  do r <- p;
  match r with Some o => Ret (Some o) | None => q end.
Infix ">>>" := and_then (at level 60, right associativity) : prog_scope.

(** The body every [ensureX] of a single object has. *)
Definition ensure_owned `{Owners} (m : Seaweed) (k : Kind) `{Owned k} {E A} `{Fails E} (o : Obj k)
    (write : Obj k -> op (E + A)) : op (option outcome) :=
  match set_owner m k o with
  | inl err => Ret (ReconcileResult (Some err))
  | inr o => do r <- write o; Ret (ends_with r)
  end.

(** ** Labels *)
Definition ManagedByLabelKey : string := "app.kubernetes.io/managed-by".
Definition ComponentLabelKey : string := "app.kubernetes.io/component".
Definition NameLabelKey : string := "app.kubernetes.io/name".
Definition InstanceLabelKey : string := "app.kubernetes.io/instance".
Definition PodNameLabel : string := "statefulset.kubernetes.io/pod-name".
Definition component_labels (component instance : string) : gmap string string :=
  <[ManagedByLabelKey := "seaweedfs-operator"]> (<[NameLabelKey := "seaweedfs"]>
  (<[ComponentLabelKey := component]> {[ InstanceLabelKey := instance ]})).

(** ** Pods *)
Definition container_port (name : string) (port : Z) : ContainerPort :=
  {| cport_Name := name; cport_ContainerPort := port |}.
Definition container_ports (ports : list (string * Z)) : list ContainerPort :=
  map (fun p => container_port p.1 p.2) ports.
(** The (name, port) of a port that is only there when it is set. *)
Definition opt_port (name : string) (port : option Z) : list (string * Z) :=
  match port with Some p => [(name, p)] | None => [] end.
Definition probe (handler : ProbeHandler) (initialDelay timeout period success failure : Z) : Probe := {|
  probe_Handler := handler; probe_InitialDelaySeconds := initialDelay; probe_TimeoutSeconds := timeout;
  probe_PeriodSeconds := period; probe_SuccessThreshold := success; probe_FailureThreshold := failure |}.
Definition shell (script : string) : list string := ["/bin/sh"; "-ec"; script].
(** The component's own container. *)
Definition component_container (a : ComponentAccessor) (name : string) (resources : ResourceRequirements)
    (mounts : list VolumeMount) (script : string) (ports : list ContainerPort)
    (readiness liveness : option Probe) : Container :=
  applyProbeOverrides {|
    c_Name := name; c_Image := acc_Image a; c_ImagePullPolicy := acc_ImagePullPolicy a;
    c_SecurityContext := acc_ContainerSecurityContext a; c_Env := acc_Env a ++ kubernetesEnvVars; c_EnvFrom := [];
    c_Resources := filterContainerResources resources; c_Command := shell script; c_Args := []; c_Ports := ports;
    c_VolumeMounts := mergeVolumeMounts mounts (acc_VolumeMounts a);
    c_ReadinessProbe := readiness; c_LivenessProbe := liveness |}
    (acc_ReadinessProbe a) (acc_LivenessProbe a).
(** [BuildPodSpec] with the containers and volumes of the component. *)
Definition fill_pod (base : PodSpec) (links : option bool) (containers initContainers : list Container)
    (volumes : list Volume) : PodSpec := {|
  pod_RestartPolicy := pod_RestartPolicy base; pod_SchedulerName := pod_SchedulerName base;
  pod_Affinity := pod_Affinity base; pod_NodeSelector := pod_NodeSelector base;
  pod_HostNetwork := pod_HostNetwork base; pod_HostPID := pod_HostPID base; pod_Tolerations := pod_Tolerations base;
  pod_PriorityClassName := pod_PriorityClassName base; pod_ServiceAccountName := pod_ServiceAccountName base;
  pod_ImagePullSecrets := pod_ImagePullSecrets base;
  pod_TerminationGracePeriodSeconds := pod_TerminationGracePeriodSeconds base;
  pod_SecurityContext := pod_SecurityContext base; pod_EnableServiceLinks := links;
  pod_Containers := containers; pod_InitContainers := initContainers; pod_Volumes := volumes |}.
Definition component_pod (a : ComponentAccessor) (links : option bool) (volumes : list Volume) (c : Container)
    : PodSpec :=
  let base := BuildPodSpec a in
  fill_pod base links (c :: acc_Sidecars a) (pod_InitContainers base ++ acc_InitContainers a)
    (pod_Volumes base ++ volumes).
Definition claim_volume (name claim : string) : Volume :=
  {| vol_Name := name; vol_Source := ClaimVolume claim |}.
Definition configmap_volume (name configMap : string) : Volume :=
  {| vol_Name := name; vol_Source := ConfigMapVolume configMap |}.
Definition data_mount (name path subPath : string) : VolumeMount :=
  {| vm_Name := name; vm_ReadOnly := false; vm_MountPath := path; vm_SubPath := subPath;
     vm_Propagation := None |}.
(** A claim template from a persistence spec. *)
Definition ReadWriteOnce : string := "ReadWriteOnce".
Definition persistence_claim (name : string) (p : PersistenceSpec) : PersistentVolumeClaim := {|
  pvc_Name := name; pvc_Annotations := ps_Annotations p; pvc_Labels := ps_Labels p;
  pvc_AccessModes := if (length (ps_AccessModes p) =? 0)%nat then [ReadWriteOnce] else ps_AccessModes p;
  pvc_Requests := ps_Resources p; pvc_StorageClassName := ps_StorageClassName p;
  pvc_Selector := ps_Selector p; pvc_VolumeName := ps_VolumeName p; pvc_VolumeMode := ps_VolumeMode p;
  pvc_DataSource := ps_DataSource p |}.

(** ** StatefulSets *)
Definition component_statefulset (m : Seaweed) (name serviceName : string)
    (selector labels annotations : gmap string string) (replicas : Z) (pod : PodSpec)
    (claims : list PersistentVolumeClaim) (retention : option (string * string)) : StatefulSet := {|
  sts_Meta := new_meta m name ∅; sts_ServiceName := serviceName; sts_PodManagementPolicy := "Parallel";
  sts_Replicas := Some replicas; sts_UpdateStrategy := ("RollingUpdate", Some 0%Z); sts_Selector := selector;
  sts_TemplateLabels := labels; sts_TemplateAnnotations := annotations; sts_Pod := pod;
  sts_VolumeClaimTemplates := claims; sts_RetentionPolicy := retention; sts_ReadyReplicas := 0 |}.
Definition with_replicas (replicas : Z) (s : StatefulSet) : StatefulSet := {|
  sts_Meta := sts_Meta s; sts_ServiceName := sts_ServiceName s;
  sts_PodManagementPolicy := sts_PodManagementPolicy s; sts_Replicas := Some replicas;
  sts_UpdateStrategy := sts_UpdateStrategy s; sts_Selector := sts_Selector s;
  sts_TemplateLabels := sts_TemplateLabels s; sts_TemplateAnnotations := sts_TemplateAnnotations s;
  sts_Pod := sts_Pod s; sts_VolumeClaimTemplates := sts_VolumeClaimTemplates s;
  sts_RetentionPolicy := sts_RetentionPolicy s; sts_ReadyReplicas := sts_ReadyReplicas s |}.
(** The merge functions: the size and the template of the desired set, and for the
    volume servers and filers its retention policy; the claim templates, the
    selector and the metadata stay those of the existing one. *)
Definition merge_template (existing desired : StatefulSet) : StatefulSet := {|
  sts_Meta := sts_Meta existing; sts_ServiceName := sts_ServiceName existing;
  sts_PodManagementPolicy := sts_PodManagementPolicy existing; sts_Replicas := sts_Replicas desired;
  sts_UpdateStrategy := sts_UpdateStrategy existing; sts_Selector := sts_Selector existing;
  sts_TemplateLabels := sts_TemplateLabels desired;
  sts_TemplateAnnotations := sts_TemplateAnnotations desired; sts_Pod := sts_Pod desired;
  sts_VolumeClaimTemplates := sts_VolumeClaimTemplates existing;
  sts_RetentionPolicy := sts_RetentionPolicy existing; sts_ReadyReplicas := sts_ReadyReplicas existing |}.
Definition merge_retention (existing desired : StatefulSet) : StatefulSet :=
  let s := merge_template existing desired in {|
  sts_Meta := sts_Meta s; sts_ServiceName := sts_ServiceName s;
  sts_PodManagementPolicy := sts_PodManagementPolicy s; sts_Replicas := sts_Replicas s;
  sts_UpdateStrategy := sts_UpdateStrategy s; sts_Selector := sts_Selector s;
  sts_TemplateLabels := sts_TemplateLabels s; sts_TemplateAnnotations := sts_TemplateAnnotations s;
  sts_Pod := sts_Pod s; sts_VolumeClaimTemplates := sts_VolumeClaimTemplates s;
  sts_RetentionPolicy := sts_RetentionPolicy desired; sts_ReadyReplicas := sts_ReadyReplicas s |}.
Definition merge_with_claims (recorder : bool) (existing desired : Obj KStatefulSet)
    : op (result (Obj KStatefulSet)) :=
  let merged := merge_retention existing desired in
  check reconcileVolumeClaimTemplates recorder merged desired catch err => Ret (Err err);
  Ret (Ok merged).
(** [r.CreateOrUpdate] of a StatefulSet whose claim templates are reconciled, and
    the handling of [ErrStatefulSetDeleted]. *)
Definition upsert_with_claims (recorder : bool) (s : StatefulSet) : op (option outcome) :=
  do r <- CreateOrUpdate KStatefulSet s (merge_with_claims recorder);
  match r with
  | inl err => if errors_Is err ErrStatefulSetDeleted then Ret (Some (Done requeueNow None))
               else Ret (ReconcileResult (Some err))
  | inr _ => Ret None
  end.
Definition upsert_template (s : Obj KStatefulSet) : op (result (Obj KStatefulSet)) :=
  CreateOrUpdate KStatefulSet s
    (pure_merge (k:=KStatefulSet) (fun existing desired => Ok (merge_template existing desired))).

(** ** Deployments

    An empty map of annotations is not stored. *)
Definition component_deployment (m : Seaweed) (name : string)
    (meta_labels selector labels annotations : gmap string string) (replicas : Z) (pod : PodSpec)
    : Deployment := {|
  dep_Meta := new_meta m name meta_labels; dep_Replicas := Some replicas; dep_Selector := selector;
  dep_StrategyType := ""; dep_RollingUpdate := None; dep_TemplateLabels := labels;
  dep_TemplateAnnotations := if bool_decide (annotations = ∅) then None else Some annotations;
  dep_Pod := pod; dep_StatusReplicas := 0; dep_AvailableReplicas := 0; dep_ReadyReplicas := 0 |}.

(** ** Services *)
Definition service_port (name : string) (port : Z) : ServicePort := {|
  sp_Name := name; sp_Protocol := "TCP"; sp_Port := port; sp_TargetPort := port; sp_NodePort := 0 |}.
Definition service_ports (ports : list (string * Z)) : list ServicePort :=
  map (fun p => service_port p.1 p.2) ports.
Definition tolerate_unready : gmap string string :=
  {[ "service.alpha.kubernetes.io/tolerate-unready-endpoints" := "true" ]}.
Definition component_service (m : Seaweed) (name : string) (labels : gmap string string) (type clusterIP : string)
    (ports : list (string * Z)) (selector : gmap string string) : Service := {|
  svc_Meta := set_meta labels tolerate_unready (new_meta m name labels);
  svc_Spec := {| svc_Type := type; svc_ClusterIP := clusterIP; svc_LoadBalancerIP := "";
                 svc_PublishNotReadyAddresses := true; svc_Ports := service_ports ports;
                 svc_Selector := selector |} |}.
(** The headless Service that names the pods. *)
Definition peer_service (m : Seaweed) (name : string) (labels : gmap string string)
    (ports : list (string * Z)) : Service := component_service m name labels "" "None" ports labels.
Definition override_spec (svcSpec : ServiceSpec) (s : ServiceObjSpec) : ServiceObjSpec := {|
  svc_Type := if negb (bool_decide (ss_Type svcSpec = "")) then ss_Type svcSpec else svc_Type s;
  svc_ClusterIP := default (svc_ClusterIP s) (ss_ClusterIP svcSpec);
  svc_LoadBalancerIP := default (svc_LoadBalancerIP s) (ss_LoadBalancerIP svcSpec);
  svc_PublishNotReadyAddresses := svc_PublishNotReadyAddresses s; svc_Ports := svc_Ports s;
  svc_Selector := svc_Selector s |}.
(** The user's Service settings; they replace the annotations. *)
Definition apply_service_spec (svcSpec : option ServiceSpec) (svc : Service) : Service :=
  match svcSpec with
  | None => svc
  | Some spec => {| svc_Meta := set_meta (Labels (svc_Meta svc)) (copyAnnotations (ss_Annotations spec)) (svc_Meta svc);
                    svc_Spec := override_spec spec (svc_Spec svc) |}
  end.
Definition ServiceTypeClusterIP : string := "ClusterIP".
Definition component_monitor (m : Seaweed) (name : string) (labels : gmap string string) (port : string)
    : ServiceMonitor := {|
  sm_Meta := new_meta m name labels; sm_Selector := labels; sm_NamespaceSelector := [];
  sm_Endpoints := [(port, "/metrics")] |}.
