(* ===== verification/MasterServers.v ===== *)
(** * The masters (controller_master*.go)

    The Services, configuration, StatefulSet and ServiceMonitor of the masters,
    and the wait for a quorum of them. *)
From S2P Require Import Prelude Prog CoreTypes ApiTypes Effects Machinery Sim Trace.
From S2P Require Import Cluster Upsert SecurityConfig Component VolumeClaims ClusterStatus.
From S2P Require Import Workloads.

Definition labelsForMaster (name : string) : gmap string string := component_labels "master" name.

(** ** Configuration (controller_master_configmap.go) *)
Definition usable_selector (sel : option SecretKeySelector) : option SecretKeySelector :=
  match sel with
  | None => None
  | Some s => if bool_decide (sks_Name s = "") || bool_decide (sks_Key s = "") then None else Some s
  end.
Definition masterConfigSecret (m : Seaweed) : option SecretKeySelector :=
  match sw_Master (sw_Spec m) with None => None | Some spec => usable_selector (master_ConfigSecret spec) end.
Definition hasMasterConfig (m : Seaweed) : bool :=
  if present (masterConfigSecret m) then false
  else match sw_Master (sw_Spec m) with
       | None => false
       | Some spec => match master_Config spec with
                      | None => false
                      | Some config => negb (bool_decide (TrimSpace config = ""))
                      end
       end.

Section master.
Context (cert_manager : bool) (m : Seaweed) (spec : MasterSpec).
Abbreviation name := (Name (sw_Meta m)).
Abbreviation base := (BaseMasterSpec m spec).

Definition createMasterConfigMap : option ConfigMap :=
  if negb (hasMasterConfig m) then None
  else Some {| cm_Meta := new_meta m (name +:+ "-master") (labelsForMaster name);
               cm_Data := {[ "master.toml" := default "" (master_Config spec) ]} |}.

(** ** StatefulSet (controller_master_statefulset.go) *)
Definition masterDataDir : option string :=
  match master_Persistence spec with
  | None => None
  | Some p => if negb (ps_Enabled p) then None else Some (default "/data" (ps_MountPath p))
  end.
Definition buildMasterStartupScript (extraArgs : list string) : string :=
  Join (weedPreamble m (acc_LoggingArgs base) "master" ++
    (match master_VolumePreallocate spec with Some true => ["-volumePreallocate"] | _ => [] end) ++
    opt_arg "-volumeSizeLimitMB=" fmt_d (master_VolumeSizeLimitMB spec) ++
    opt_arg "-garbageThreshold=" id (master_GarbageThreshold spec) ++
    opt_arg "-pulseSeconds=" fmt_d (master_PulseSeconds spec) ++
    opt_arg "-defaultReplication=" id (master_DefaultReplication spec) ++
    opt_arg "-metricsPort=" fmt_d (master_MetricsPort spec) ++
    (if negb (bool_decide (sw_MetricsAddress (sw_Spec m) = ""))
     then ["-metrics.address=" +:+ sw_MetricsAddress (sw_Spec m)] else []) ++
    opt_arg "-mdir=" id masterDataDir ++
    ["-ip=$(POD_NAME)." +:+ name +:+ "-master-peer." +:+ Namespace (sw_Meta m)] ++
    if_set (ipBindArg (master_IPBind spec)) ++
    ["-peers=" +:+ master_peers m] ++ extraArgs) " ".

Definition master_ports : list (string * Z) :=
  [("master-http", MasterHTTPPort); ("master-grpc", MasterGRPCPort)] ++
  opt_port "master-metrics" (master_MetricsPort spec).
(** The volumes and mounts of master.toml, the security configuration and the data. *)
Definition master_config_disk : list Volume * list VolumeMount :=
  match masterConfigSecret m with
  | Some sel => let '(vol, mount) := configSecretVolumeAndMount "master-config" "master.toml" sel in ([vol], [mount])
  | None => if hasMasterConfig m
            then ([configmap_volume "master-config" (name +:+ "-master")],
                  [read_only_mount "master-config" componentConfigDir])
            else ([], [])
  end.
Definition master_data_disk : list Volume * list VolumeMount * list PersistentVolumeClaim :=
  match masterDataDir, master_Persistence spec with
  | Some dataDir, Some persistence =>
      let claimName := name +:+ "-master" in
      let mount := data_mount claimName dataDir (default "" (ps_SubPath persistence)) in
      match ps_ExistingClaim persistence with
      | Some claim => ([claim_volume claimName claim], [mount], [])
      | None => ([], [mount], [persistence_claim claimName persistence])
      end
  | _, _ => ([], [], [])
  end.
Definition master_probe (initialDelay success failure : Z) : Probe :=
  probe (HTTPGet "/cluster/status" MasterHTTPPort "HTTP") initialDelay 15 15 success failure.
Definition createMasterStatefulSet : StatefulSet :=
  let labels := labelsForMaster name in
  let '(configVolumes, configMounts) := master_config_disk in
  let '(tlsVols, tlsMounts) := tlsVolumesAndMounts cert_manager m in
  let '(dataVolumes, dataMounts, claims) := master_data_disk in
  let container := component_container base "master" (master_Resources spec)
    (configMounts ++ tlsMounts ++ dataMounts) (buildMasterStartupScript (acc_ExtraArgs base))
    (container_ports master_ports) (Some (master_probe 5 2 100)) (Some (master_probe 15 1 6)) in
  component_statefulset m (name +:+ "-master") (name +:+ "-master-peer") labels
    (mergePodLabels labels (acc_Labels base)) (withJWTSigningAnnotation m (acc_Annotations base))
    (master_Replicas spec) (component_pod base (Some false) (configVolumes ++ tlsVols ++ dataVolumes) container)
    claims (pvcRetentionPolicy m).

(** ** Services and monitor (controller_master_service.go, controller_master_servicemonitor.go) *)
Definition createMasterPeerService : Service :=
  peer_service m (name +:+ "-master-peer") (labelsForMaster name) master_ports.
Definition createMasterService : Service :=
  let labels := labelsForMaster name in
  apply_service_spec (master_Service spec)
    (component_service m (name +:+ "-master") labels "" "" master_ports labels).
Definition createMasterServiceMonitor : ServiceMonitor :=
  component_monitor m (name +:+ "-master") (labelsForMaster name) "master-metrics".

(** ** Reconciliation (controller_master.go) *)
Section ensure.
Context `{Owners} `{SpecJSON ServiceObjSpec}.
Definition ensureMasterPeerService : op (option outcome) :=
  ensure_owned m KService createMasterPeerService CreateOrUpdateService.
Definition ensureMasterService : op (option outcome) :=
  ensure_owned m KService createMasterService CreateOrUpdateService.
Definition ensureMasterConfigMap : op (option outcome) :=
  match createMasterConfigMap with
  | None => do err <- pruneOwnedConfigMap m (name +:+ "-master"); Ret (ReconcileResult err)
  | Some configMap => ensure_owned m KConfigMap configMap CreateOrUpdateConfigMap
  end.
Definition ensureMasterStatefulSet : op (option outcome) :=
  ensure_owned m KStatefulSet createMasterStatefulSet upsert_template.
Definition ensureMasterServiceMonitor : op (option outcome) :=
  ensure_owned m KServiceMonitor createMasterServiceMonitor CreateOrUpdateServiceMonitor.

(** The ready containers of the running pods. *)
Definition pod_ready_containers (pod : Pod) : Z :=
  if bool_decide (p_Phase pod = PodRunning) then Z.of_nat (length (List.filter id (p_ContainersReady pod))) else 0%Z.
Definition runningCounter (pods : list Pod) : Z := foldr Z.add 0%Z (map pod_ready_containers pods).
(** [int(Replicas)/2+1]; Go's division truncates. *)
Definition master_quorum : Z := (Z.quot (master_Replicas spec) 2 + 1)%Z.
Definition waitForMasterStatefulSet : op (option outcome) :=
  let wait := Some (Done (requeueIn (3 * Second)) None) in
  do r <- kube (KList KPod (Some (Namespace (sw_Meta m))) (labelsForMaster name));
  match r with
  | inl _ => Ret wait
  | inr pods => if bool_decide (runningCounter pods < master_quorum)%Z then Ret wait else Ret None
  end.
Definition concurrent_start : bool := default false (master_ConcurrentStart spec).
Definition ensure_master : op (option outcome) :=
  ensureMasterPeerService >>> ensureMasterService >>> ensureMasterConfigMap >>> ensureMasterStatefulSet >>>
  (if negb concurrent_start then waitForMasterStatefulSet else Ret None) >>>
  (if present (master_MetricsPort spec) then ensureMasterServiceMonitor else Ret None).
End ensure.
End master.

(** Without a master spec the first Service cannot be built. *)
Definition ensureMaster `{Owners} `{SpecJSON ServiceObjSpec} (cert_manager : bool) (m : Seaweed)
    : op (option outcome) :=
  match sw_Master (sw_Spec m) with
  | None => Ret (Some Panic)
  | Some spec => ensure_master cert_manager m spec
  end.
