(* ===== verification/VolumeServers.v ===== *)
(** * The volume servers (controller_volume*.go)

    The flat group of volume servers - a StatefulSet over claims or directories of
    the nodes, or a DaemonSet over directories - and the groups of a topology, each
    with its headless Service, a Service per server and a ServiceMonitor.  A
    StatefulSet is only sized after the scale-down gate of VolumeEvac.v. *)
From S2P Require Import Prelude Prog CoreTypes ApiTypes Effects Machinery Sim Trace.
From S2P Require Import Cluster VolumeEvac Upsert SecurityConfig Component VolumeClaims.
From S2P Require Import ClusterStatus Workloads.

Definition labelsForVolumeServer (name : string) : gmap string string := component_labels "volume" name.
Definition topologyLabel : string := "seaweedfs/topology".
Definition labelsForVolumeServerTopology (name topology : string) : gmap string string :=
  <[topologyLabel := topology]> (labelsForVolumeServer name).

(** ** Disks (controller_volume_statefulset.go) *)
Record volumeServerDisks := {
  disk_mounts : list VolumeMount;
  disk_volumes : list Volume;
  disk_pvcs : list PersistentVolumeClaim;
  disk_dirs : list string;
  disk_maxArg : string;
}.
Definition mount_name (i : nat) : string := "mount" +:+ fmt_d (Z.of_nat i).
Definition data_dir (i : nat) : string := "/data" +:+ fmt_d (Z.of_nat i).
Definition disk_mount (i : nat) : VolumeMount := data_mount (mount_name i) (data_dir i +:+ "/") "".
Definition disk_claim (annotations labels : gmap string string) (storageClass : option string)
    (selector : option LabelSelector) (requests : gmap string Quantity) (i : nat) : PersistentVolumeClaim := {|
  pvc_Name := mount_name i; pvc_Annotations := annotations; pvc_Labels := labels;
  pvc_AccessModes := [ReadWriteOnce]; pvc_Requests := requests; pvc_StorageClassName := storageClass;
  pvc_Selector := selector; pvc_VolumeName := ""; pvc_VolumeMode := None; pvc_DataSource := None |}.
(** The storage request of a claim, if there is one. *)
Definition storage_request (resources : ResourceRequirements) : gmap string Quantity :=
  match Requests resources !! ResourceStorage with
  | Some q => {[ ResourceStorage := q ]}
  | None => ∅
  end.
(** A loop up to a negative count runs no time. *)
Definition disk_numbers (m : Seaweed) : list nat :=
  seq 0 (Z.to_nat (default 1%Z (sw_VolumeServerDiskCount (sw_Spec m)))).
Definition volumeServerGlobalMaxArg (maxVolumeCounts : option Z) : string :=
  match maxVolumeCounts with
  | Some n => if (0 <? n)%Z then fmt_d n else "0"
  | None => "0"
  end.
Definition claim_disks (m : Seaweed) (claim : nat -> PersistentVolumeClaim) (maxArg : string) : volumeServerDisks :=
  let numbers := disk_numbers m in {|
  disk_mounts := map disk_mount numbers;
  disk_volumes := map (fun i => claim_volume (mount_name i) (mount_name i)) numbers;
  disk_pvcs := map claim numbers; disk_dirs := map data_dir numbers; disk_maxArg := maxArg |}.
Definition pvcVolumeDisks (m : Seaweed) (vol : VolumeSpec) : volumeServerDisks :=
  let config := vspec_Config vol in
  claim_disks m
    (disk_claim (vsc_StorageAnnotations config) (vsc_StorageLabels config) (vsc_StorageClassName config)
       (vsc_StorageSelector config) (storage_request (vsc_Resources config)))
    (volumeServerGlobalMaxArg (vsc_MaxVolumeCounts config)).
Definition DirectoryOrCreate : string := "DirectoryOrCreate".
Definition host_volume (i : nat) (hp : VolumeServerHostPath) : Volume :=
  {| vol_Name := mount_name i; vol_Source := HostPathVolume (hp_Path hp) (default DirectoryOrCreate (hp_Type hp)) |}.
Definition hostPathVolumeDisks (vol : VolumeSpec) : volumeServerDisks :=
  let paths := vspec_HostPath vol in
  let numbers := seq 0 (length paths) in
  let global := volumeServerGlobalMaxArg (vsc_MaxVolumeCounts (vspec_Config vol)) in
  let maxParts := map (fun hp => match hp_MaxVolumeCount hp with Some n => fmt_d n | None => global end) paths in
  let perDirMax := existsb (fun hp => present (hp_MaxVolumeCount hp)) paths in {|
  disk_mounts := map disk_mount numbers; disk_volumes := zip_with host_volume numbers paths;
  disk_pvcs := []; disk_dirs := map data_dir numbers;
  disk_maxArg := if perDirMax then Join maxParts "," else global |}.
Definition volumeServerDisksFor (m : Seaweed) (vol : VolumeSpec) : volumeServerDisks :=
  if (0 <? length (vspec_HostPath vol))%nat then hostPathVolumeDisks vol else pvcVolumeDisks m vol.

Definition volume_ports (metrics : option Z) : list (string * Z) :=
  [("volume-http", VolumeHTTPPort); ("volume-grpc", VolumeGRPCPort)] ++ opt_port "volume-metrics" metrics.
Definition volume_probe (initialDelay failure : Z) : Probe :=
  probe (HTTPGet "/healthz" VolumeHTTPPort "HTTP") initialDelay 5 90 1 failure.
(** The argument that is only given when it is not empty. *)
Definition set_arg (flag : string) (value : option string) : list string :=
  match value with Some v => if_set (if bool_decide (v = "") then "" else flag +:+ v) | None => [] end.
Definition server_config_args (compactionMBps fileSizeLimitMB : option Z) (fixJpgOrientation : option bool)
    (idleTimeout minFreeSpacePercent : option Z) : list string :=
  opt_arg "-compactionMBps=" fmt_d compactionMBps ++ opt_arg "-fileSizeLimitMB=" fmt_d fileSizeLimitMB ++
  opt_arg "-fixJpgOrientation=" fmt_t fixJpgOrientation ++ opt_arg "-idleTimeout=" fmt_d idleTimeout ++
  opt_arg "-minFreeSpacePercent=" fmt_d minFreeSpacePercent.

(** ** The flat group *)
Section flat.
Context (cert_manager : bool) (m : Seaweed) (vol : VolumeSpec).
Abbreviation name := (Name (sw_Meta m)).
Abbreviation ns := (Namespace (sw_Meta m)).
Abbreviation base := (BaseVolumeSpec m).
Abbreviation config := (vspec_Config vol).

Definition buildVolumeServerStartupScript (dirs : list string) (maxArg ipArg : string) (extraArgs : list string)
    : string :=
  Join (weedPreamble m (acc_LoggingArgs base) "volume" ++
    ["-port=" +:+ fmt_d VolumeHTTPPort; "-max=" +:+ maxArg; "-ip=" +:+ ipArg] ++
    if_set (ipBindArg (vsc_IPBind config)) ++
    (if IsDaemonSet vol then [] else set_arg "-publicUrl=$(POD_NAME)." (sw_HostSuffix (sw_Spec m))) ++
    ["-mserver=" +:+ master_peers m; "-dir=" +:+ Join dirs ","] ++
    opt_arg "-metricsPort=" fmt_d (vsc_MetricsPort config) ++
    set_arg "-rack=" (vspec_Rack vol) ++ set_arg "-dataCenter=" (vspec_DataCenter vol) ++
    server_config_args (vsc_CompactionMBps config) (vsc_FileSizeLimitMB config) (vsc_FixJpgOrientation config)
      (vsc_IdleTimeout config) (vsc_MinFreeSpacePercent config) ++ extraArgs) " ".
Definition buildFlatVolumePodSpec (disks : volumeServerDisks) (ipArg : string) : PodSpec :=
  let '(tlsVols, tlsMounts) := tlsVolumesAndMounts cert_manager m in
  component_pod base (Some false) (disk_volumes disks ++ tlsVols)
    (component_container base "volume" (vsc_Resources config) (disk_mounts disks ++ tlsMounts)
       (buildVolumeServerStartupScript (disk_dirs disks) (disk_maxArg disks) ipArg (acc_ExtraArgs base))
       (container_ports (volume_ports (vsc_MetricsPort config)))
       (Some (volume_probe 15 100)) (Some (volume_probe 20 6))).
Definition flat_labels : gmap string string := mergePodLabels (labelsForVolumeServer name) (acc_Labels base).
Definition flat_annotations : gmap string string := withJWTSigningAnnotation m (acc_Annotations base).
Definition flat_ip : string := "$(POD_NAME)." +:+ name +:+ "-volume-peer." +:+ ns.
Definition createVolumeServerStatefulSet : StatefulSet :=
  let disks := volumeServerDisksFor m vol in
  component_statefulset m (name +:+ "-volume") (name +:+ "-volume-peer") (labelsForVolumeServer name)
    flat_labels flat_annotations (vspec_Replicas vol) (buildFlatVolumePodSpec disks flat_ip)
    (disk_pvcs disks) (pvcRetentionPolicy m).
Definition createVolumeServerDaemonSet : DaemonSet :=
  let disks := volumeServerDisksFor m vol in {|
  ds_Meta := new_meta m (name +:+ "-volume") ∅; ds_Selector := labelsForVolumeServer name;
  ds_UpdateStrategy := "RollingUpdate"; ds_TemplateLabels := flat_labels;
  ds_TemplateAnnotations := flat_annotations; ds_Pod := buildFlatVolumePodSpec disks "$(POD_IP)";
  ds_DesiredNumberScheduled := 0; ds_NumberReady := 0 |}.

(** *** Services and monitor *)
Definition createVolumeServerPeerService : Service :=
  peer_service m (name +:+ "-volume-peer") (labelsForVolumeServer name) (volume_ports (vsc_MetricsPort config)).
Definition createVolumeServerService (i : Z) : Service :=
  let serviceName := name +:+ "-volume-" +:+ fmt_d i in
  let labels := <[PodNameLabel := serviceName]> (labelsForVolumeServer name) in
  apply_service_spec (vsc_Service config)
    (component_service m serviceName labels "" "" (volume_ports (vsc_MetricsPort config)) labels).
Definition createVolumeServerServiceMonitor : ServiceMonitor :=
  component_monitor m (name +:+ "-volume") (labelsForVolumeServer name) "volume-metrics".
End flat.

(** ** A group of the topology *)
Section topology.
Context (cert_manager : bool) (m : Seaweed) (topologyName : string) (topologySpec : VolumeTopologySpec).
Abbreviation name := (Name (sw_Meta m)).
Abbreviation ns := (Namespace (sw_Meta m)).
Abbreviation group := (topo_Config topologySpec).
Abbreviation own := (vsc_Component (topo_Config topologySpec)).
Abbreviation flat_component := (vsc_Component <$> volume_config m).
Definition topology_name : string := name +:+ "-volume-" +:+ topologyName.
Definition topology_labels : gmap string string := labelsForVolumeServerTopology name topologyName.

Definition group_ip : string := "$(POD_NAME)." +:+ topology_name +:+ "-peer." +:+ ns.
Definition buildVolumeServerStartupScriptWithTopology (dirs : list string) : string :=
  let value {A} (field : VolumeServerConfig -> option A) : option A :=
    getVolumeServerConfigValue (field group) (volume_config m ≫= field) in
  Join (weedPreamble m (topologyLoggingArgs m topologySpec) "volume" ++
    ["-port=" +:+ fmt_d VolumeHTTPPort] ++
    [match value vsc_MaxVolumeCounts with Some n => "-max=" +:+ fmt_d n | None => "-max=0" end] ++
    ["-ip=" +:+ group_ip] ++
    if_set (ipBindArg (value vsc_IPBind)) ++
    set_arg "-publicUrl=$(POD_NAME)." (sw_HostSuffix (sw_Spec m)) ++
    ["-mserver=" +:+ master_peers m; "-dir=" +:+ Join dirs ","] ++
    opt_arg "-metricsPort=" fmt_d (getMetricsPort m topologySpec) ++
    ["-rack=" +:+ topo_Rack topologySpec; "-dataCenter=" +:+ topo_DataCenter topologySpec] ++
    server_config_args (value vsc_CompactionMBps) (value vsc_FileSizeLimitMB) (value vsc_FixJpgOrientation)
      (value vsc_IdleTimeout) (value vsc_MinFreeSpacePercent) ++ cs_ExtraArgs own) " ".

Definition getPodSecurityContext : option PodSecurityContext :=
  orElse (cs_PodSecurityContext own) (flat_component ≫= cs_PodSecurityContext).
Definition getContainerSecurityContext : option SecurityContext :=
  orElse (cs_ContainerSecurityContext own) (flat_component ≫= cs_ContainerSecurityContext).
Definition getImagePullPolicy : string :=
  match cs_ImagePullPolicy own with
  | Some p => p
  | None => if negb (bool_decide (sw_ImagePullPolicy (sw_Spec m) = "")) then sw_ImagePullPolicy (sw_Spec m)
            else "IfNotPresent"
  end.
Definition getEnvVars : list EnvVar :=
  match cs_Env own with Some env => env | None => default [] (flat_component ≫= cs_Env) end.
(** A nil list of the cluster and an empty one give the same pod. *)
Definition buildTopologyPodSpec : PodSpec := {|
  pod_RestartPolicy := ""; pod_SchedulerName := default (sw_SchedulerName (sw_Spec m)) (cs_SchedulerName own);
  pod_Affinity := orElse (cs_Affinity own) (sw_Affinity (sw_Spec m));
  pod_NodeSelector := mergeNodeSelector (sw_NodeSelector (sw_Spec m)) (cs_NodeSelector own);
  pod_HostNetwork := default false (orElse (cs_HostNetwork own) (sw_HostNetwork (sw_Spec m)));
  pod_HostPID := false;
  pod_Tolerations := default (sw_Tolerations (sw_Spec m)) (cs_Tolerations own);
  pod_PriorityClassName := default "" (cs_PriorityClassName own);
  pod_ServiceAccountName := default "" (cs_ServiceAccountName own);
  pod_ImagePullSecrets := default (sw_ImagePullSecrets (sw_Spec m)) (cs_ImagePullSecrets own);
  pod_TerminationGracePeriodSeconds := cs_TerminationGracePeriodSeconds own;
  pod_SecurityContext := getPodSecurityContext; pod_EnableServiceLinks := None; pod_Containers := [];
  pod_InitContainers := []; pod_Volumes := [] |}.

Definition topology_disks : volumeServerDisks :=
  claim_disks m
    (disk_claim (getStorageAnnotations m topologySpec) (getStorageLabels m topologySpec)
       (getStorageClassName m topologySpec) (getStorageSelector m topologySpec)
       (storage_request (getResourceRequirements m topologySpec))) "".
Definition topology_container (mounts : list VolumeMount) : Container :=
  applyProbeOverrides {|
    c_Name := "volume"; c_Image := acc_Image (BaseVolumeSpec m); c_ImagePullPolicy := getImagePullPolicy;
    c_SecurityContext := getContainerSecurityContext; c_Env := getEnvVars ++ kubernetesEnvVars; c_EnvFrom := [];
    c_Resources := filterContainerResources (getResourceRequirements m topologySpec);
    c_Command := shell (buildVolumeServerStartupScriptWithTopology (disk_dirs topology_disks)); c_Args := [];
    c_Ports := container_ports (volume_ports (vsc_MetricsPort group)); c_VolumeMounts := mounts;
    c_ReadinessProbe := Some (volume_probe 15 100); c_LivenessProbe := Some (volume_probe 20 6) |}
    (cs_ReadinessProbe own) (cs_LivenessProbe own).
Definition createVolumeServerTopologyStatefulSet : StatefulSet :=
  let '(tlsVols, tlsMounts) := tlsVolumesAndMounts cert_manager m in
  let podSpec := buildTopologyPodSpec in
  let pod := fill_pod podSpec (Some false)
    (topology_container (disk_mounts topology_disks ++ tlsMounts) :: cs_Sidecars own)
    (pod_InitContainers podSpec ++ cs_InitContainers own) (disk_volumes topology_disks ++ tlsVols) in
  component_statefulset m topology_name (topology_name +:+ "-peer") topology_labels
    (mergePodLabels topology_labels (mergeLabels (acc_Labels (BaseVolumeSpec m)) (cs_Labels own)))
    (withJWTSigningAnnotation m (mergeAnnotations (acc_Annotations (BaseVolumeSpec m)) (cs_Annotations own)))
    (topo_Replicas topologySpec) pod (disk_pvcs topology_disks) (pvcRetentionPolicy m).

Definition createVolumeServerTopologyPeerService : Service :=
  peer_service m (topology_name +:+ "-peer") topology_labels (volume_ports (vsc_MetricsPort group)).
Definition createVolumeServerTopologyService (i : Z) : Service :=
  let serviceName := topology_name +:+ "-" +:+ fmt_d i in
  apply_service_spec (getServiceSpec m topologySpec)
    (component_service m serviceName topology_labels "" "" (volume_ports (vsc_MetricsPort group))
       {[ PodNameLabel := serviceName ]}).
Definition createVolumeServerTopologyServiceMonitor : ServiceMonitor :=
  component_monitor m topology_name topology_labels "volume-metrics".
End topology.

(** ** Reconciliation (controller_volume.go) *)
Section ensure.
Context `{Owners} `{Digest} `{SpecJSON ServiceObjSpec}.
Context (cert_manager wired recorder : bool) (m : Seaweed).
Abbreviation name := (Name (sw_Meta m)).
Abbreviation ns := (Namespace (sw_Meta m)).

(** The gate, then the upsert with the size it allows. *)
Definition ensure_gated (s : StatefulSet) (desired : Z) (nodeFor : Z -> string) : op (option outcome) :=
  match set_owner m KStatefulSet s with
  | inl err => Ret (ReconcileResult (Some err))
  | inr s =>
      do r <- allowedVolumeServerReplicas wired recorder m (Name (sts_Meta s)) desired nodeFor;
      match r.2 with
      | Some err => Ret (ReconcileResult (Some err))
      | None => upsert_with_claims recorder (with_replicas r.1 s)
      end
  end.
Definition ensureVolumeServerStatefulSet (vol : VolumeSpec) : op (option outcome) :=
  do d <- deleteIfExists KDaemonSet {| nn_Namespace := ns; nn_Name := name +:+ "-volume" |};
  match d with
  | (_, Some err) => Ret (ReconcileResult (Some err))
  | (true, None) => Ret (Some (Done requeueNow None))
  | (false, None) => ensure_gated (createVolumeServerStatefulSet cert_manager m vol) (vspec_Replicas vol)
                       (volumeServerNodeAddress m)
  end.
Definition merge_daemonset (existing desired : DaemonSet) : DaemonSet := {|
  ds_Meta := ds_Meta existing; ds_Selector := ds_Selector existing;
  ds_UpdateStrategy := ds_UpdateStrategy desired; ds_TemplateLabels := ds_TemplateLabels desired;
  ds_TemplateAnnotations := ds_TemplateAnnotations desired; ds_Pod := ds_Pod desired;
  ds_DesiredNumberScheduled := ds_DesiredNumberScheduled existing; ds_NumberReady := ds_NumberReady existing |}.
Definition upsert_daemonset (d : Obj KDaemonSet) : op (result (Obj KDaemonSet)) :=
  CreateOrUpdate KDaemonSet d
    (pure_merge (k:=KDaemonSet) (fun existing desired => Ok (merge_daemonset existing desired))).
Definition ensureVolumeServerDaemonSet (vol : VolumeSpec) : op (option outcome) :=
  do d <- deleteIfExists KStatefulSet {| nn_Namespace := ns; nn_Name := name +:+ "-volume" |};
  match d with
  | (_, Some err) => Ret (ReconcileResult (Some err))
  | (true, None) => Ret (Some (Done requeueNow None))
  | (false, None) => ensure_owned m KDaemonSet (createVolumeServerDaemonSet cert_manager m vol) upsert_daemonset
  end.
Definition ensure_service (s : Service) : op (option outcome) := ensure_owned m KService s CreateOrUpdateService.
Definition ensureVolumeServerPeerService (vol : VolumeSpec) : op (option outcome) :=
  ensure_service (createVolumeServerPeerService m vol).
Definition ensureVolumeServerService (vol : VolumeSpec) (i : Z) : op (option outcome) :=
  ensure_service (createVolumeServerService m vol i).
(** A loop up to a negative count runs no time. *)
Definition ordinals (replicas : Z) : list Z := map Z.of_nat (seq 0 (Z.to_nat replicas)).
Definition ensureVolumeServerServices (vol : VolumeSpec) : op (option outcome) :=
  for_until (ordinals (vspec_Replicas vol)) (ensureVolumeServerService vol).
Definition ensureVolumeServerServiceMonitor : op (option outcome) :=
  ensure_owned m KServiceMonitor (createVolumeServerServiceMonitor m) CreateOrUpdateServiceMonitor.

Definition ensureVolumeServerTopologyPeerService (topology : string) (spec : VolumeTopologySpec)
    : op (option outcome) := ensure_service (createVolumeServerTopologyPeerService m topology spec).
Definition ensureVolumeServerTopologyService (topology : string) (spec : VolumeTopologySpec) (i : Z)
    : op (option outcome) := ensure_service (createVolumeServerTopologyService m topology spec i).
Definition ensureVolumeServerTopologyServices (topology : string) (spec : VolumeTopologySpec)
    : op (option outcome) :=
  for_until (ordinals (topo_Replicas spec)) (ensureVolumeServerTopologyService topology spec).
Definition ensureVolumeServerTopologyStatefulSet (topology : string) (spec : VolumeTopologySpec)
    : op (option outcome) :=
  ensure_gated (createVolumeServerTopologyStatefulSet cert_manager m topology spec) (topo_Replicas spec)
    (volumeServerTopologyNodeAddress m topology).
Definition ensureVolumeServerTopologyServiceMonitor (topology : string) : op (option outcome) :=
  ensure_owned m KServiceMonitor (createVolumeServerTopologyServiceMonitor m topology) CreateOrUpdateServiceMonitor.
(** One iteration of the loop over the groups; a group without a spec is a nil
    pointer, which the loop dereferences. *)
Definition ensure_topology (group : string * option VolumeTopologySpec) : op (option outcome) :=
  match group with
  | (_, None) => Ret (Some Panic)
  | (topology, Some spec) =>
      ensureVolumeServerTopologyPeerService topology spec >>>
      ensureVolumeServerTopologyServices topology spec >>>
      ensureVolumeServerTopologyStatefulSet topology spec >>>
      (if present (vsc_MetricsPort (topo_Config spec)) then ensureVolumeServerTopologyServiceMonitor topology
       else Ret None)
  end.
(** [topologies] are the groups of the spec in the order the map is visited. *)
Definition ensureVolumeServersWithTopology (topologies : list (string * option VolumeTopologySpec))
    : op (option outcome) := for_until topologies ensure_topology.
Definition ensureVolumeServers (topologies : list (string * option VolumeTopologySpec)) : op (option outcome) :=
  if (0 <? size (sw_VolumeTopology (sw_Spec m)))%nat then ensureVolumeServersWithTopology topologies
  else
    match sw_Volume (sw_Spec m) with
    | None => Ret None
    | Some vol =>
        if negb (IsDaemonSet vol) && bool_decide (vspec_Replicas vol = 0%Z) then Ret None
        else
          ensureVolumeServerPeerService vol >>>
          (if IsDaemonSet vol then
             if (length (vspec_HostPath vol) =? 0)%nat
             then Ret (Some (Done noResult (Some (ErrOther
                    "spec.volume.kind=DaemonSet requires spec.volume.hostPath to be set"))))
             else ensureVolumeServerDaemonSet vol
           else ensureVolumeServerServices vol >>> ensureVolumeServerStatefulSet vol) >>>
          (if present (vsc_MetricsPort (vspec_Config vol)) then ensureVolumeServerServiceMonitor else Ret None)
    end.
End ensure.

(** ** The gate asks for the servers under the names they register

    A pod's [$(POD_NAME)] is the name of its set and its ordinal. *)
Definition pod_of (s : StatefulSet) (ordinal : Z) : string := Name (sts_Meta s) +:+ "-" +:+ fmt_d ordinal.
(** The address a server registers: its [-ip] in its pod, and its port. *)
Definition registers (pod ip address : string) : Prop :=
  exists rest, ip = "$(POD_NAME)" +:+ rest /\ address = pod +:+ rest +:+ ":" +:+ fmt_d VolumeHTTPPort.
(** The scale-down gate looks up and evacuates a server under the address which
    the server registers with the masters, for every ordinal, in the flat group and in
    every group of the topology: the address is the server's [-ip] argument in its pod,
    with the port. *)
Theorem volume_addresses cert_manager m vol topology g ordinal :
  registers (pod_of (createVolumeServerStatefulSet cert_manager m vol) ordinal) (flat_ip m)
    (volumeServerNodeAddress m ordinal) /\
  registers (pod_of (createVolumeServerTopologyStatefulSet cert_manager m topology g) ordinal) (group_ip m topology)
    (volumeServerTopologyNodeAddress m topology ordinal).
Proof.
  split.
  - exists ("." +:+ Name (sw_Meta m) +:+ "-volume-peer." +:+ Namespace (sw_Meta m)). split; [done|].
    unfold pod_of, volumeServerNodeAddress. cbn. by rewrite !string_app_assoc.
  - exists ("." +:+ topology_name m topology +:+ "-peer." +:+ Namespace (sw_Meta m)). split; [done|].
    unfold pod_of, volumeServerTopologyNodeAddress, createVolumeServerTopologyStatefulSet.
    destruct (tlsVolumesAndMounts _ _). cbn. unfold topology_name. by rewrite !string_app_assoc.
Qed.
