(* ===== verification/FilerServers.v ===== *)
(** * The filers (controller_filer*.go, but for the Ingress)

    The Services, configuration, StatefulSet and ServiceMonitor of the filers, with
    the S3 and Iceberg endpoints they can serve themselves. *)
From S2P Require Import Prelude Prog CoreTypes ApiTypes Effects Machinery Sim Trace.
From S2P Require Import Cluster Upsert SecurityConfig Component VolumeClaims ClusterStatus.
From S2P Require Import Workloads MasterServers.

Definition labelsForFiler (name : string) : gmap string string := component_labels "filer" name.

(** ** Configuration (controller_filer_configmap.go) *)
Definition filerConfigSecret (m : Seaweed) : option SecretKeySelector :=
  match sw_Filer (sw_Spec m) with None => None | Some spec => usable_selector (filer_ConfigSecret spec) end.
Definition hasFilerConfig (m : Seaweed) : bool :=
  if present (filerConfigSecret m) then false
  else match sw_Filer (sw_Spec m) with
       | None => false
       | Some spec => match filer_Config spec with
                      | None => false
                      | Some config => negb (bool_decide (TrimSpace config = ""))
                      end
       end.
Definition filerProbePath (m : Seaweed) : string :=
  if jwt_FilerRead (jwtSigningConfig m) then "/healthz" else "/".

Section filer.
Context (cert_manager : bool) (m : Seaweed) (spec : FilerSpec).
Abbreviation name := (Name (sw_Meta m)).
Abbreviation base := (BaseFilerSpec m spec).

Definition createFilerConfigMap : option ConfigMap :=
  if negb (hasFilerConfig m) then None
  else Some {| cm_Meta := new_meta m (name +:+ "-filer") (labelsForFiler name);
               cm_Data := {[ "filer.toml" := default "" (filer_Config spec) ]} |}.

(** ** StatefulSet (controller_filer_statefulset.go) *)
Definition enabled_s3 : option S3Config :=
  match filer_S3 spec with Some s3 => if s3c_Enabled s3 then Some s3 else None | None => None end.
(** The Secret with the users of the embedded S3 endpoint. *)
Definition s3_users : option SecretKeySelector :=
  match enabled_s3 ≫= s3c_ConfigSecret with
  | Some sel => if bool_decide (sks_Name sel = "") then None else Some sel
  | None => None
  end.
Definition iceberg_port : option Z :=
  match filer_Iceberg spec with
  | Some ice => if ice_Enabled ice then Some (IcebergEffectivePort ice) else None
  | None => None
  end.
Definition buildFilerStartupScript (extraArgs : list string) : string :=
  Join (weedPreamble m (acc_LoggingArgs base) "filer" ++
    ["-port=" +:+ fmt_d FilerHTTPPort; "-ip=$(POD_NAME)." +:+ name +:+ "-filer-peer." +:+ Namespace (sw_Meta m)] ++
    if_set (ipBindArg (filer_IPBind spec)) ++
    ["-master=" +:+ master_peers m] ++
    (if present enabled_s3 then
       ["-s3"] ++ opt_arg "-s3.config=/etc/sw/" sks_Key s3_users ++
       (if negb (filer_IAM spec) then ["-iam=false"] else [])
     else []) ++
    opt_arg "-metricsPort=" fmt_d (filer_MetricsPort spec) ++ opt_arg "-maxMB=" fmt_d (filer_MaxMB spec) ++
    opt_arg "-icebergPort=" fmt_d iceberg_port ++ extraArgs) " ".

Definition filer_ports : list (string * Z) :=
  [("filer-http", FilerHTTPPort); ("filer-grpc", FilerGRPCPort)] ++
  (if present enabled_s3 then [("filer-s3", FilerS3Port)] else []) ++
  opt_port "filer-metrics" (filer_MetricsPort spec) ++ opt_port "filer-iceberg" iceberg_port.
Definition filer_config_disk : list Volume * list VolumeMount :=
  match filerConfigSecret m with
  | Some sel => let '(vol, mount) := configSecretVolumeAndMount "filer-config" "filer.toml" sel in ([vol], [mount])
  | None => if hasFilerConfig m
            then ([configmap_volume "filer-config" (name +:+ "-filer")],
                  [read_only_mount "filer-config" componentConfigDir])
            else ([], [])
  end.
Definition filer_users_disk : list Volume * list VolumeMount :=
  match s3_users with
  | Some sel => ([secret_volume "config-users" (sks_Name sel)], [read_only_mount "config-users" "/etc/sw"])
  | None => ([], [])
  end.
(** The mount path and the sub path are dereferenced as they are: [None] is the
    panic on a nil one. *)
Definition filer_data_disk : option (list Volume * list VolumeMount * list PersistentVolumeClaim) :=
  match filer_Persistence spec with
  | Some p =>
      if negb (ps_Enabled p) then Some ([], [], [])
      else
        let claimName := default (name +:+ "-filer") (ps_ExistingClaim p) in
        let '(volumes, claims) := match ps_ExistingClaim p with
                                  | None => ([], [persistence_claim claimName p])
                                  | Some _ => ([claim_volume claimName claimName], [])
                                  end in
        match ps_MountPath p, ps_SubPath p with
        | Some path, Some subPath => Some (volumes, [data_mount claimName path subPath], claims)
        | _, _ => None
        end
  | None => Some ([], [], [])
  end.
Definition filer_probe (initialDelay period failure : Z) : Probe :=
  probe (HTTPGet (filerProbePath m) FilerHTTPPort "HTTP") initialDelay 3 period 1 failure.
Definition filer_statefulset (data : list Volume * list VolumeMount * list PersistentVolumeClaim) : StatefulSet :=
  let labels := labelsForFiler name in
  let '(configVolumes, configMounts) := filer_config_disk in
  let '(tlsVols, tlsMounts) := tlsVolumesAndMounts cert_manager m in
  let '(userVolumes, userMounts) := filer_users_disk in
  let '(dataVolumes, dataMounts, claims) := data in
  let container := component_container base "filer" (filer_Resources spec)
    (configMounts ++ tlsMounts ++ userMounts ++ dataMounts) (buildFilerStartupScript (acc_ExtraArgs base))
    (container_ports filer_ports) (Some (filer_probe 10 15 100)) (Some (filer_probe 20 30 6)) in
  component_statefulset m (name +:+ "-filer") (name +:+ "-filer-peer") labels
    (mergePodLabels labels (acc_Labels base)) (withJWTSigningAnnotation m (acc_Annotations base))
    (filer_Replicas spec)
    (component_pod base (Some false) (configVolumes ++ tlsVols ++ userVolumes ++ dataVolumes) container)
    claims (pvcRetentionPolicy m).
Definition createFilerStatefulSet : option StatefulSet := filer_statefulset <$> filer_data_disk.

(** ** Services and monitor (controller_filer_service.go, controller_filer_servicemonitor.go) *)
Definition createFilerPeerService : Service :=
  peer_service m (name +:+ "-filer-peer") (labelsForFiler name) filer_ports.
Definition createFilerService : Service :=
  let labels := labelsForFiler name in
  apply_service_spec (filer_Service spec)
    (component_service m (name +:+ "-filer") labels ServiceTypeClusterIP "" filer_ports labels).
Definition createFilerServiceMonitor : ServiceMonitor :=
  component_monitor m (name +:+ "-filer") (labelsForFiler name) "filer-metrics".

(** ** Reconciliation (controller_filer.go) *)
Section ensure.
Context `{Owners} `{SpecJSON ServiceObjSpec} (recorder : bool).
Definition ensureFilerPeerService : op (option outcome) :=
  ensure_owned m KService createFilerPeerService CreateOrUpdateService.
Definition ensureFilerService : op (option outcome) :=
  ensure_owned m KService createFilerService CreateOrUpdateService.
Definition ensureFilerConfigMap : op (option outcome) :=
  match createFilerConfigMap with
  | None => do err <- pruneOwnedConfigMap m (name +:+ "-filer"); Ret (ReconcileResult err)
  | Some configMap => ensure_owned m KConfigMap configMap CreateOrUpdateConfigMap
  end.
Definition ensureFilerStatefulSet : op (option outcome) :=
  match createFilerStatefulSet with
  | None => Ret (Some Panic)
  | Some sts =>
      match set_owner m KStatefulSet sts with
      | inl err => Ret (ReconcileResult (Some err))
      | inr sts => upsert_with_claims recorder sts
      end
  end.
Definition ensureFilerServiceMonitor : op (option outcome) :=
  ensure_owned m KServiceMonitor createFilerServiceMonitor CreateOrUpdateServiceMonitor.
Definition ensureFilerServers : op (option outcome) :=
  ensureFilerPeerService >>> ensureFilerService >>> ensureFilerConfigMap >>> ensureFilerStatefulSet >>>
  (if present (filer_MetricsPort spec) then ensureFilerServiceMonitor else Ret None).
End ensure.
End filer.
