(* ===== verification/AdminServers.v ===== *)
(** * The admin server and the workers (controller_admin*.go, controller_worker*.go)

    The admin server is a StatefulSet of one; the workers it hands jobs to are a
    Deployment, which replaced a StatefulSet that is cleaned up first. *)
From Stdlib Require Import Ascii.
From S2P Require Import Prelude Prog CoreTypes ApiTypes Effects Machinery Sim Trace.
From S2P Require Import Cluster GoPath Upsert SecurityConfig Component VolumeClaims.
From S2P Require Import ClusterStatus Workloads.

Definition labelsForAdmin (name : string) : gmap string string := component_labels "admin" name.
Definition adminCredentialsMountPath : string := "/etc/sw/admin".
Definition adminCredentialKeys : list string := ["adminUser"; "adminPassword"; "readOnlyUser"; "readOnlyPassword"].

(** ** The URL prefix of the admin server

    [strings.Cut(s, "=")] *)
Fixpoint Cut (s : string) (c : ascii) : string * string * bool :=
  match s with
  | EmptyString => (EmptyString, EmptyString, false)
  | String d s' => if Ascii.eqb d c then (EmptyString, s', true)
                   else let '(a, b, found) := Cut s' c in (String d a, b, found)
  end.
Definition TrimPrefix (s prefix : string) : string :=
  if HasPrefix s prefix then str_drop (String.length prefix) s else s.
Fixpoint trim_left_char (c : ascii) (s : string) : string :=
  match s with
  | EmptyString => EmptyString
  | String d s' => if Ascii.eqb d c then trim_left_char c s' else s
  end.
(** [strings.TrimRight(s, "/")] *)
Definition TrimRightSlash (s : string) : string := String.rev (trim_left_char slash (String.rev s)).
(** The name, value and presence of a value of a flag. *)
Definition parse_flag (a : string) : string * string * bool :=
  Cut (TrimPrefix (TrimPrefix a "--") "-") "=".
(** The last value of the flag; a flag without [=] takes the next argument, if there
    is one: [pending] is set while it waits for it. *)
Fixpoint url_prefix_scan (raw : option string) (pending : bool) (args : list string) : option string :=
  match args with
  | [] => if pending then Some "" else raw
  | a :: rest =>
      if pending then url_prefix_scan (Some a) false rest
      else if negb (HasPrefix a "-") then url_prefix_scan raw false rest
      else
        let '(name, value, hasValue) := parse_flag a in
        if negb (bool_decide (name = "urlPrefix")) then url_prefix_scan raw false rest
        else if hasValue then url_prefix_scan (Some value) false rest
        else url_prefix_scan raw true rest
  end.
Definition adminURLPrefix (extraArgs : list string) : string :=
  match url_prefix_scan None false extraArgs with
  | None => ""
  | Some raw =>
      let raw := TrimSpace raw in
      if bool_decide (raw = "") then ""
      else TrimRightSlash (if negb (HasPrefix raw "/") then "/" +:+ raw else raw)
  end.
Definition adminRoutePath (extraArgs : list string) (route : string) : string :=
  adminURLPrefix extraArgs +:+ route.

Section admin.
Context (cert_manager : bool) (m : Seaweed) (spec : AdminSpec).
Abbreviation name := (Name (sw_Meta m)).
Abbreviation base := (BaseAdminSpec m spec).

Definition admin_credentials : option string :=
  match admin_CredentialsSecret spec with
  | Some secret => if bool_decide (secret = "") then None else Some secret
  | None => None
  end.
Definition credentials_preamble : string :=
  "set --; for key in " +:+ Join adminCredentialKeys " " +:+ "; do f=" +:+ dquote +:+
  adminCredentialsMountPath +:+ "/$key" +:+ dquote +:+ "; [ -f " +:+ dquote +:+ "$f" +:+ dquote +:+
  " ] && set -- " +:+ dquote +:+ "$@" +:+ dquote +:+ " " +:+ dquote +:+ "-$key=$(cat " +:+ dquote +:+ "$f" +:+
  dquote +:+ ")" +:+ dquote +:+ "; done; ".
Definition buildAdminStartupScript (extraArgs : list string) : string :=
  let weedCmd := Join (weedPreamble m (acc_LoggingArgs base) "admin" ++
    ["-port=" +:+ fmt_d AdminHTTPPort; "-master=" +:+ master_peers m] ++
    opt_arg "-metricsPort=" fmt_d (admin_MetricsPort spec) ++ extraArgs) " " in
  if present admin_credentials
  then credentials_preamble +:+ "exec " +:+ weedCmd +:+ " " +:+ dquote +:+ "$@" +:+ dquote
  else "exec " +:+ weedCmd.

Definition admin_ports : list (string * Z) :=
  [("admin-http", AdminHTTPPort); ("admin-grpc", AdminGRPCPort)] ++
  opt_port "admin-metrics" (admin_MetricsPort spec).
Definition admin_credentials_disk : list Volume * list VolumeMount :=
  match admin_credentials with
  | Some secret => ([secret_volume "admin-credentials" secret],
                    [read_only_mount "admin-credentials" adminCredentialsMountPath])
  | None => ([], [])
  end.
Definition admin_probe (initialDelay period failure : Z) : Probe :=
  probe (HTTPGet (adminRoutePath (acc_ExtraArgs base) "/health") AdminHTTPPort "HTTP") initialDelay 3 period 1 failure.
Definition createAdminStatefulSet : StatefulSet :=
  let labels := labelsForAdmin name in
  let '(tlsVols, tlsMounts) := tlsVolumesAndMounts cert_manager m in
  let '(secretVolumes, secretMounts) := admin_credentials_disk in
  let container := component_container base "admin" (admin_Resources spec) (tlsMounts ++ secretMounts)
    (buildAdminStartupScript (acc_ExtraArgs base)) (container_ports admin_ports)
    (Some (admin_probe 10 15 6)) (Some (admin_probe 20 30 6)) in
  component_statefulset m (name +:+ "-admin") (name +:+ "-admin-peer") labels
    (mergePodLabels labels (acc_Labels base)) (withJWTSigningAnnotation m (acc_Annotations base)) 1
    (component_pod base (Some false) (tlsVols ++ secretVolumes) container) [] None.

(** ** Services and monitor; the annotations of the user are added to the own one. *)
Definition createAdminPeerService : Service :=
  peer_service m (name +:+ "-admin-peer") (labelsForAdmin name) admin_ports.
Definition createAdminService : Service :=
  let labels := labelsForAdmin name in
  let svc := component_service m (name +:+ "-admin") labels ServiceTypeClusterIP "" admin_ports labels in
  match admin_Service spec with
  | None => svc
  | Some svcSpec =>
      {| svc_Meta := set_meta labels (ss_Annotations svcSpec ∪ Annotations (svc_Meta svc)) (svc_Meta svc);
         svc_Spec := override_spec svcSpec (svc_Spec svc) |}
  end.
Definition createAdminServiceMonitor : ServiceMonitor :=
  component_monitor m (name +:+ "-admin") (labelsForAdmin name) "admin-metrics".

Section ensure.
Context `{Owners} `{SpecJSON ServiceObjSpec}.
Definition ensureAdminPeerService : op (option outcome) :=
  ensure_owned m KService createAdminPeerService CreateOrUpdateService.
Definition ensureAdminService : op (option outcome) :=
  ensure_owned m KService createAdminService CreateOrUpdateService.
Definition ensureAdminStatefulSet : op (option outcome) :=
  ensure_owned m KStatefulSet createAdminStatefulSet upsert_template.
Definition ensureAdminServiceMonitor : op (option outcome) :=
  ensure_owned m KServiceMonitor createAdminServiceMonitor CreateOrUpdateServiceMonitor.
Definition ensureAdminServers : op (option outcome) :=
  ensureAdminPeerService >>> ensureAdminService >>> ensureAdminStatefulSet >>>
  (if present (admin_MetricsPort spec) then ensureAdminServiceMonitor else Ret None).
End ensure.
End admin.

(** ** The workers *)
Definition labelsForWorker (name : string) : gmap string string := component_labels "worker" name.
Definition getAdminAddress (m : Seaweed) : string := Name (sw_Meta m) +:+ "-admin:" +:+ fmt_d AdminHTTPPort.

Section worker.
Context (cert_manager : bool) (m : Seaweed) (spec : WorkerSpec).
Abbreviation name := (Name (sw_Meta m)).
Abbreviation base := (BaseWorkerSpec m spec).

(** The enabled persistence and the path it is mounted at. *)
Definition worker_data : option (PersistenceSpec * string) :=
  match worker_Persistence spec with
  | Some p => if ps_Enabled p then Some (p, default "/data" (ps_MountPath p)) else None
  | None => None
  end.
Definition buildWorkerStartupScript (extraArgs : list string) : string :=
  Join (weedPreamble m (acc_LoggingArgs base) "worker" ++ ["-admin=" +:+ getAdminAddress m] ++
    opt_arg "-workingDir=" id (snd <$> worker_data) ++ opt_arg "-jobType=" id (worker_JobType spec) ++
    opt_arg "-maxDetect=" fmt_d (worker_MaxDetect spec) ++ opt_arg "-maxExecute=" fmt_d (worker_MaxExecute spec) ++
    opt_arg "-metricsPort=" fmt_d (worker_MetricsPort spec) ++ extraArgs) " ".
Definition worker_ports : list (string * Z) := opt_port "worker-metrics" (worker_MetricsPort spec).
Definition worker_disk : list Volume * list VolumeMount :=
  match worker_data with
  | Some (p, mountPath) =>
      ([match ps_ExistingClaim p with
        | Some claim => claim_volume "worker-data" claim
        | None => {| vol_Name := "worker-data"; vol_Source := EmptyDir |}
        end],
       [data_mount "worker-data" mountPath (default "" (ps_SubPath p))])
  | None => ([], [])
  end.
Definition worker_probe (path : string) (port initialDelay period : Z) : Probe :=
  probe (HTTPGet path port "HTTP") initialDelay 3 period 1 6.
(** Overrides of probes that are not there do nothing. *)
Definition createWorkerDeployment : Deployment :=
  let labels := labelsForWorker name in
  let '(dataVolumes, dataMounts) := worker_disk in
  let '(tlsVols, tlsMounts) := tlsVolumesAndMounts cert_manager m in
  let container := component_container base "worker" (worker_Resources spec) (dataMounts ++ tlsMounts)
    (buildWorkerStartupScript (acc_ExtraArgs base)) (container_ports worker_ports)
    ((fun p => worker_probe "/ready" p 10 15) <$> worker_MetricsPort spec)
    ((fun p => worker_probe "/health" p 20 30) <$> worker_MetricsPort spec) in
  component_deployment m (name +:+ "-worker") ∅ labels (mergePodLabels labels (acc_Labels base))
    (withJWTSigningAnnotation m (acc_Annotations base)) (worker_Replicas spec)
    (component_pod base (Some false) (dataVolumes ++ tlsVols) container).
Definition createWorkerService : Service :=
  let labels := labelsForWorker name in
  component_service m (name +:+ "-worker") labels ServiceTypeClusterIP "" worker_ports labels.
Definition createWorkerServiceMonitor : ServiceMonitor :=
  component_monitor m (name +:+ "-worker") (labelsForWorker name) "worker-metrics".

Section ensure.
Context `{Owners} `{SpecJSON ServiceObjSpec} `{SpecJSON PodSpec}.
Definition ensureWorkerDeployment : op (option outcome) :=
  ensure_owned m KDeployment createWorkerDeployment CreateOrUpdateDeployment.
Definition cleanupLegacyWorkerStatefulSet : op (option outcome) :=
  let key suffix := {| nn_Namespace := Namespace (sw_Meta m); nn_Name := name +:+ suffix |} in
  do sts <- deleteIfExists KStatefulSet (key "-worker");
  match sts.2 with
  | Some err => Ret (ReconcileResult (Some err))
  | None =>
      do peer <- deleteIfExists KService (key "-worker-peer");
      match peer.2 with
      | Some err => Ret (ReconcileResult (Some err))
      | None => if sts.1 || peer.1 then Ret (Some (Done (requeueIn (2 * Second)) None)) else Ret None
      end
  end.
Definition ensureWorkerService : op (option outcome) :=
  ensure_owned m KService createWorkerService CreateOrUpdateService.
Definition ensureWorkerServiceMonitor : op (option outcome) :=
  ensure_owned m KServiceMonitor createWorkerServiceMonitor CreateOrUpdateServiceMonitor.
Definition ensureWorkers : op (option outcome) :=
  cleanupLegacyWorkerStatefulSet >>> ensureWorkerDeployment >>>
  (if present (worker_MetricsPort spec) then ensureWorkerService >>> ensureWorkerServiceMonitor else Ret None).
End ensure.
End worker.

(** ** The prefix is normalised *)
Lemma trim_left_char_spec c s : exists p, s = p +:+ trim_left_char c s /\ all_chars (fun d => Ascii.eqb d c) p = true.
Proof.
  induction s as [|d s (p & Hp & Hc)]; [by exists ""|]. cbn [trim_left_char].
  destruct (Ascii.eqb d c) eqn:Hd; [|by exists ""]. exists (String d p).
  split; [change (String d p +:+ ?x) with (String d (p +:+ x)); by f_equal|]. cbn. by rewrite Hd.
Qed.
Lemma trim_left_char_head c s d r : trim_left_char c s = String d r -> d <> c.
Proof.
  induction s as [|x s IH]; [done|]. cbn [trim_left_char]. destruct (Ascii.eqb_spec x c) as [->|Hn]; [exact IH|].
  by intros [= -> _].
Qed.
Lemma rev_app_spec s a b : String.rev_app s (a +:+ b) = String.rev_app s a +:+ b.
Proof. revert a; induction s as [|c s IH]; intros a; [done|]. cbn [String.rev_app]. apply (IH (String c a)). Qed.
Lemma rev_app_distr p q : String.rev (p +:+ q) = String.rev q +:+ String.rev p.
Proof.
  unfold String.rev. revert q; enough (Hg : forall p q acc, String.rev_app (p +:+ q) acc = String.rev_app q (String.rev_app p acc)).
  { intros q. rewrite Hg. rewrite <-(rev_app_spec q ""). done. }
  intros p'. induction p' as [|c p' IH]; intros q acc; [done|]. apply (IH q (String c acc)).
Qed.
Lemma all_chars_rev f s : all_chars f (String.rev s) = all_chars f s.
Proof. unfold String.rev. rewrite all_chars_rev_app. by rewrite andb_true_r. Qed.
Lemma TrimRightSlash_spec s : exists q, s = TrimRightSlash s +:+ q /\ all_chars (fun d => Ascii.eqb d slash) q = true.
Proof.
  unfold TrimRightSlash. destruct (trim_left_char_spec slash (String.rev s)) as (p & Hp & Hc).
  exists (String.rev p). split; [|by rewrite all_chars_rev]. by rewrite <-rev_app_distr, <-Hp, string_rev_rev.
Qed.
Lemma TrimRightSlash_last s q : TrimRightSlash s <> q +:+ "/".
Proof.
  unfold TrimRightSlash. intros Heq. apply (f_equal String.rev) in Heq. rewrite string_rev_rev, rev_app_distr in Heq.
  by eapply trim_left_char_head in Heq.
Qed.

(** Whatever the user passes as the URL prefix of the admin server - with or
    without slashes, with spaces around it, as one argument or two -, the probes use
    either no prefix or one that starts with a slash and does not end with one, so
    that the routes appended to it are well formed. *)
Theorem adminURLPrefix_normal args :
  adminURLPrefix args = "" \/
  HasPrefix (adminURLPrefix args) "/" = true /\ forall q, adminURLPrefix args <> q +:+ "/".
Proof.
  unfold adminURLPrefix. destruct (url_prefix_scan None false args) as [raw|]; [|by left]. cbv zeta.
  case_bool_decide; [by left|]. set (s := if negb (HasPrefix (TrimSpace raw) "/") then "/" +:+ TrimSpace raw else TrimSpace raw).
  assert (Hs : exists s', s = String slash s').
  { unfold s. destruct (negb _) eqn:Hn; [by eexists|]. apply negb_false_iff in Hn. revert Hn.
    destruct (TrimSpace raw) as [|[[] [] [] [] [] [] [] []] w]; (discriminate || by eexists). }
  destruct Hs as [s' Hs]. destruct (TrimRightSlash_spec s) as (q & Hq & _). pose proof (TrimRightSlash_last s) as Hl.
  destruct (TrimRightSlash s) as [|c w]; [by left|right]. split; [|exact Hl].
  rewrite Hs in Hq. injection Hq as <- _. by destruct w.
Qed.
Lemma adminURLPrefix_forms :
  map adminURLPrefix [["-urlPrefix=admin/"]; ["--urlPrefix"; "/admin"]; ["-urlPrefix=//"]; ["urlPrefix=x"]] =
  ["/admin"; "/admin"; ""; ""].
Proof. by vm_compute. Qed.
