(* ===== verification/Ingresses.v ===== *)
(** * Ingresses (controller_ingress.go, controller_filer_ingress.go, controller_component_ingress.go)

    The all-in-one Ingress of a host suffix, and the Ingresses the components ask
    for one by one, with the removal of those that are no longer asked for. *)
From S2P Require Import Prelude Prog CoreTypes ApiTypes Effects Machinery Sim Trace.
From S2P Require Import Upsert SecurityConfig Component ClusterStatus Workloads.

Definition PathTypePrefix : string := "Prefix".
Definition ingress_rule (host path service : string) (port : Z) : string * list IngressBackend :=
  (host, [{| ib_Path := path; ib_PathType := Some PathTypePrefix; ib_Service := service; ib_Port := inl port |}]).

(** The port of the standalone S3 gateway (controller_s3.go). *)
Definition s3EffectivePort (m : Seaweed) : Z :=
  match sw_S3 (sw_Spec m) with Some s3 => default FilerS3Port (s3gw_Port s3) | None => FilerS3Port end.
Definition embedded_s3 (m : Seaweed) : bool :=
  match sw_Filer (sw_Spec m) with
  | Some filer => match filer_S3 filer with Some s3 => s3c_Enabled s3 | None => false end
  | None => false
  end.

(** ** The all-in-one Ingress *)
Definition labelsForIngress (name : string) : gmap string string := component_labels "ingress" name.
Definition s3IngressBackend (m : Seaweed) : option (string * Z) :=
  if present (sw_S3 (sw_Spec m)) then Some (Name (sw_Meta m) +:+ "-s3", s3EffectivePort m)
  else if embedded_s3 m then Some (Name (sw_Meta m) +:+ "-filer", FilerS3Port)
  else None.
Section all.
Context `{Owners} (m : Seaweed).
Abbreviation name := (Name (sw_Meta m)).
Definition volume_host (hostSuffix : string) (i : Z) : string * list IngressBackend :=
  let server := name +:+ "-volume-" +:+ fmt_d i in
  ingress_rule (server +:+ "." +:+ hostSuffix) "/" server VolumeHTTPPort.
Definition all_rules (hostSuffix : string) (replicas : Z) : list (string * list IngressBackend) :=
  [ingress_rule ("filer." +:+ hostSuffix) "/" (name +:+ "-filer") FilerHTTPPort] ++
  (match s3IngressBackend m with
   | Some (s3Svc, s3Port) => [ingress_rule ("s3." +:+ hostSuffix) "/" s3Svc s3Port]
   | None => []
   end) ++
  map (fun i => volume_host hostSuffix (Z.of_nat i)) (seq 0 (Z.to_nat replicas)).
(** [spec.volume] is dereferenced: [None] is the panic on a nil one.  A failure to
    set the owner is logged here and returned by the caller, which sets it again. *)
Definition createAllIngress (hostSuffix : string) : option Ingress :=
  match sw_Volume (sw_Spec m) with
  | None => None
  | Some vol =>
      let dep := {| ing_Meta := new_meta m (name +:+ "-ingress") (labelsForIngress name);
                    ing_Spec := {| ing_ClassName := None; ing_Rules := all_rules hostSuffix (vspec_Replicas vol);
                                   ing_TLS := [] |} |} in
      Some (match set_owner m KIngress dep with inr o => o | inl _ => dep end)
  end.
Context `{SpecJSON IngressObjSpec}.
Definition ensureAllIngress (hostSuffix : string) : op (option outcome) :=
  match createAllIngress hostSuffix with
  | None => Ret (Some Panic)
  | Some ingress => ensure_owned m KIngress ingress CreateOrUpdateIngress
  end.
Definition ensureSeaweedIngress : op (option outcome) :=
  match sw_HostSuffix (sw_Spec m) with
  | Some hostSuffix => if negb (String.length hostSuffix =? 0)%nat then ensureAllIngress hostSuffix else Ret None
  | None => Ret None
  end.
End all.

(** ** The Ingresses of the components *)
Definition componentIngressManagedByLabel : string := "seaweedfs-operator-component".
Definition component_ingress_labels (component instance : string) : gmap string string :=
  <["app.kubernetes.io/managed-by" := componentIngressManagedByLabel]>
  (<["app.kubernetes.io/name" := "seaweedfs"]>
  (<["app.kubernetes.io/instance" := instance]> {[ "app.kubernetes.io/component" := component ]})).
Definition buildComponentIngress (m : Seaweed) (component serviceName : string) (servicePort : Z)
    (spec : IngressSpec) : Ingress :=
  let path := if bool_decide (ispec_Path spec = "") then "/" else ispec_Path spec in {|
  ing_Meta := set_meta (component_ingress_labels component (Name (sw_Meta m))) (ispec_Annotations spec)
    (new_meta m (Name (sw_Meta m) +:+ "-" +:+ component +:+ "-ingress") ∅);
  ing_Spec := {|
    ing_ClassName := ispec_ClassName spec;
    ing_Rules := [ingress_rule (ispec_Host spec) path serviceName servicePort];
    ing_TLS := map (fun t => (itls_Hosts t, itls_SecretName t)) (ispec_TLS spec) |} |}.

(** The (component, service, port, spec) of a wanted Ingress, under its name. *)
Record desired_ingress := {
  di_component : string;
  di_service : string;
  di_port : Z;
  di_spec : IngressSpec;
}.
Definition enabled_ingress (spec : option IngressSpec) : option IngressSpec :=
  match spec with Some s => if ispec_Enabled s then Some s else None | None => None end.
(** The assignments to the map, in order. *)
Definition want (m : Seaweed) (key component service : string) (port : Z) (spec : option IngressSpec)
    : list (string * desired_ingress) :=
  match enabled_ingress spec with
  | Some s => [(Name (sw_Meta m) +:+ key, {| di_component := component; di_service := Name (sw_Meta m) +:+ service;
                                             di_port := port; di_spec := s |})]
  | None => []
  end.
Definition wanted_assignments (m : Seaweed) : list (string * desired_ingress) :=
  let spec := sw_Spec m in
  want m "-master-ingress" "master" "-master" MasterHTTPPort (sw_Master spec ≫= master_Ingress) ++
  want m "-volume-ingress" "volume" "-volume" VolumeHTTPPort (sw_Volume spec ≫= vspec_Ingress) ++
  want m "-filer-ingress" "filer" "-filer" FilerHTTPPort (sw_Filer spec ≫= filer_Ingress) ++
  (if embedded_s3 m then want m "-s3-ingress" "s3" "-filer" FilerS3Port (sw_Filer spec ≫= filer_S3Ingress) else []) ++
  want m "-filer-grpc-ingress" "filer-grpc" "-filer" FilerGRPCPort (sw_Filer spec ≫= filer_GRPCIngress) ++
  want m "-admin-ingress" "admin" "-admin" AdminHTTPPort (sw_Admin spec ≫= admin_Ingress) ++
  want m "-s3-ingress" "s3" "-s3" (s3EffectivePort m) (sw_S3 spec ≫= s3gw_Ingress).
Definition wanted (m : Seaweed) : gmap string desired_ingress :=
  foldl (fun acc x => <[x.1 := x.2]> acc) ∅ (wanted_assignments m).

Definition isOwnedBy (refs : list OwnerReference) (uid : string) : bool :=
  existsb (fun r => bool_decide (owner_UID r = uid) && owner_Controller r) refs.

Section components.
Context `{Owners} `{SpecJSON IngressObjSpec} (m : Seaweed).
Definition ensureComponentIngress (component serviceName : string) (servicePort : Z) (spec : IngressSpec)
    : op (option outcome) :=
  ensure_owned m KIngress (buildComponentIngress m component serviceName servicePort spec) CreateOrUpdateIngress.
Definition ensure_desired (d : string * desired_ingress) : op (option outcome) :=
  ensureComponentIngress (di_component d.2) (di_service d.2) (di_port d.2) (di_spec d.2).
Definition managed_labels : gmap string string :=
  <["app.kubernetes.io/instance" := Name (sw_Meta m)]>
  {[ "app.kubernetes.io/managed-by" := componentIngressManagedByLabel ]}.
Definition prune_ingress (keep : gmap string desired_ingress) (ing : Ingress) : op (option outcome) :=
  if present (keep !! Name (ing_Meta ing)) then Ret None
  else if negb (isOwnedBy (OwnerReferences (ing_Meta ing)) (UID (sw_Meta m))) then Ret None
  else
    do r <- kube (KDelete KIngress ing);
    match r with
    | Some err => if negb (IsNotFound err) then Ret (ReconcileResult (Some err)) else Ret None
    | None => Ret None
    end.
(** [order] are the wanted Ingresses in the order the map is visited. *)
Definition ensureComponentIngresses (order : list (string * desired_ingress)) : op (option outcome) :=
  for_until order ensure_desired >>>
  (do r <- kube (KList KIngress (Some (Namespace (sw_Meta m))) managed_labels);
   match r with
   | inl err => Ret (ReconcileResult (Some err))
   | inr existing => for_until existing (prune_ingress (wanted m))
   end).
End components.
