(* ===== verification/Gateways.v ===== *)
(** * The standalone gateways (controller_s3.go, controller_sftp.go and their ServiceMonitors)

    The S3 and SFTP gateways are Deployments in front of the filer, each with a
    Service, and a ServiceMonitor and an Ingress when asked for; they are taken down
    when the spec, or the filer they need, is gone. *)
From S2P Require Import Prelude Prog CoreTypes ApiTypes Effects Machinery Sim Trace.
From S2P Require Import Cluster Upsert SecurityConfig Component VolumeClaims ClusterStatus.
From S2P Require Import Workloads Ingresses.

(** ** Shared by both *)
Section gateway.
Context `{Owners} `{SpecJSON ServiceObjSpec} `{SpecJSON PodSpec} `{SpecJSON IngressObjSpec} (m : Seaweed).
Abbreviation name := (Name (sw_Meta m)).
Definition gateway_key (suffix : string) : NamespacedName :=
  {| nn_Namespace := Namespace (sw_Meta m); nn_Name := name +:+ suffix |}.
(** [if _, err := r.deleteIfExists(...); err != nil { return err }] *)
Definition delete_or_fail (k : Kind) (suffix : string) : op (option error) :=
  do r <- deleteIfExists k (gateway_key suffix); Ret r.2.
Definition delete_monitor (suffix : string) : op (option error) :=
  do available <- call OMonitorAvailable;
  if (available : bool) then delete_or_fail KServiceMonitor suffix else Ret None.
Definition delete_gateway (suffix : string) : op (option error) :=
  check delete_or_fail KDeployment suffix catch err => Ret (Some err);
  check delete_or_fail KService suffix catch err => Ret (Some err);
  check delete_or_fail KIngress (suffix +:+ "-ingress") catch err => Ret (Some err);
  delete_monitor suffix.
Definition fail_step (p : op (option error)) : op (option outcome) := do err <- p; Ret (ReconcileResult err).

(** A Service that is not published before its pods are ready. *)
Definition gateway_service (suffix : string) (labels : gmap string string) (ports : list (string * Z))
    (spec : option ServiceSpec) : Service :=
  let annotations := default ∅ (ss_Annotations <$> spec) in {|
  svc_Meta := set_meta labels annotations (new_meta m (name +:+ suffix) labels);
  svc_Spec := {|
    svc_Type := match spec with
                | Some s => if negb (bool_decide (ss_Type s = "")) then ss_Type s else ServiceTypeClusterIP
                | None => ServiceTypeClusterIP
                end;
    svc_ClusterIP := default "" (spec ≫= ss_ClusterIP);
    svc_LoadBalancerIP := default "" (spec ≫= ss_LoadBalancerIP);
    svc_PublishNotReadyAddresses := false; svc_Ports := service_ports ports; svc_Selector := labels |} |}.
(** The steps after the teardown checks. *)
Definition ensure_gateway (suffix component : string) (svc : Service) (dep : Deployment) (monitor : ServiceMonitor)
    (metrics : option Z) (port : Z) (ingress : option IngressSpec) : op (option outcome) :=
  ensure_owned m KService svc CreateOrUpdateService >>>
  ensure_owned m KDeployment dep CreateOrUpdateDeployment >>>
  (if present metrics then ensure_owned m KServiceMonitor monitor CreateOrUpdateServiceMonitor
   else fail_step (delete_monitor suffix)) >>>
  (match enabled_ingress ingress with
   | Some spec => ensureComponentIngress m component (name +:+ suffix) port spec
   | None => fail_step (delete_or_fail KIngress (suffix +:+ "-ingress"))
   end).
End gateway.

(** ** S3 *)
Definition s3Component : string := "s3".
Definition labelsForS3 (name : string) : gmap string string := component_labels s3Component name.
Section s3.
Context (cert_manager : bool) (m : Seaweed) (spec : S3GatewaySpec).
Abbreviation name := (Name (sw_Meta m)).
Abbreviation base := (BaseS3Spec m spec).
Definition s3_ports : list (string * Z) :=
  [("s3-http", s3EffectivePort m)] ++ opt_port "s3-metrics" (s3gw_MetricsPort spec).
Definition buildS3Service : Service :=
  gateway_service m "-s3" (labelsForS3 name) s3_ports (s3gw_Service spec).
Definition buildS3GatewayStartupScript (extraArgs : list string) : string :=
  Join (weedPreamble m (acc_LoggingArgs base) "s3" ++
    ["-port=" +:+ fmt_d (s3EffectivePort m); "-filer=" +:+ name +:+ "-filer:" +:+ fmt_d FilerHTTPPort] ++
    (match s3gw_ConfigSecret spec with
     | Some sel => if negb (bool_decide (sks_Key sel = "")) then ["-config=/etc/sw/" +:+ sks_Key sel] else []
     | None => []
     end) ++
    (match s3gw_DomainName spec with
     | Some d => if negb (bool_decide (d = "")) then ["-domainName=" +:+ d] else []
     | None => []
     end) ++
    (if negb (s3gw_IAM spec) then ["-iam=false"] else []) ++
    opt_arg "-metricsPort=" fmt_d (s3gw_MetricsPort spec) ++ extraArgs) " ".
Definition s3_config_disk : list Volume * list VolumeMount :=
  match s3gw_ConfigSecret spec with
  | Some sel => if negb (bool_decide (sks_Name sel = ""))
                then ([secret_volume "s3-config" (sks_Name sel)], [read_only_mount "s3-config" "/etc/sw"])
                else ([], [])
  | None => ([], [])
  end.
(** A probe without a scheme. *)
Definition s3_probe (initialDelay period failure : Z) : Probe :=
  probe (HTTPGet "/status" (s3EffectivePort m) "") initialDelay 3 period 1 failure.
Definition buildS3Deployment : Deployment :=
  let labels := labelsForS3 name in
  let '(configVolumes, configMounts) := s3_config_disk in
  let '(tlsVols, tlsMounts) := tlsVolumesAndMounts cert_manager m in
  let container := component_container base "s3" (s3gw_Resources spec) (configMounts ++ tlsMounts)
    (buildS3GatewayStartupScript (acc_ExtraArgs base)) (container_ports s3_ports)
    (Some (s3_probe 10 15 100)) (Some (s3_probe 20 30 6)) in
  component_deployment m (name +:+ "-s3") labels labels (mergePodLabels labels (acc_Labels base))
    (withJWTSigningAnnotation m (acc_Annotations base)) (s3gw_Replicas spec)
    (component_pod base None (configVolumes ++ tlsVols) container).
Definition createS3ServiceMonitor : ServiceMonitor :=
  component_monitor m (name +:+ "-s3") (labelsForS3 name) "s3-metrics".
End s3.

(** ** SFTP *)
Definition sftpComponent : string := "sftp".
Definition labelsForSFTP (name : string) : gmap string string := component_labels sftpComponent name.
Definition sftpEffectivePort (m : Seaweed) : Z :=
  match sw_SFTP (sw_Spec m) with Some sftp => default SFTPPort (sftp_Port sftp) | None => SFTPPort end.
Section sftp.
Context (cert_manager : bool) (m : Seaweed) (spec : SFTPSpec).
Abbreviation name := (Name (sw_Meta m)).
Abbreviation base := (BaseSFTPSpec m spec).
Definition sftp_ports : list (string * Z) :=
  [("sftp", sftpEffectivePort m)] ++ opt_port "sftp-metrics" (sftp_MetricsPort spec).
Definition buildSFTPService : Service :=
  gateway_service m "-sftp" (labelsForSFTP name) sftp_ports (sftp_Service spec).
Definition host_keys : option string :=
  match sftp_HostKeysSecret spec with
  | Some secret => if bool_decide (secret = "") then None else Some secret
  | None => None
  end.
Definition buildSFTPGatewayStartupScript (extraArgs : list string) : string :=
  Join (weedPreamble m (acc_LoggingArgs base) "sftp" ++
    ["-port=" +:+ fmt_d (sftpEffectivePort m); "-filer=" +:+ name +:+ "-filer:" +:+ fmt_d FilerHTTPPort] ++
    opt_arg "-metricsPort=" fmt_d (sftp_MetricsPort spec) ++
    (match sftp_UserStoreSecret spec with
     | Some sel => if negb (bool_decide (sks_Key sel = "")) then ["-userStoreFile=/etc/sw/" +:+ sks_Key sel] else []
     | None => []
     end) ++
    (if present host_keys then ["-hostKeysFolder=/etc/sw/ssh"] else []) ++
    (match sftp_AuthMethods spec with
     | Some a => if negb (bool_decide (a = "")) then ["-authMethods=" +:+ a] else []
     | None => []
     end) ++
    opt_arg "-maxAuthTries=" fmt_d (sftp_MaxAuthTries spec) ++ extraArgs) " ".
(** Only the referenced key of the user store is projected. *)
Definition sftp_users_disk : list Volume * list VolumeMount :=
  match sftp_UserStoreSecret spec with
  | Some sel => if negb (bool_decide (sks_Name sel = "")) && negb (bool_decide (sks_Key sel = ""))
                then ([{| vol_Name := "sftp-userstore";
                          vol_Source := SecretVolume (sks_Name sel) [(sks_Key sel, sks_Key sel)] None |}],
                      [read_only_mount "sftp-userstore" "/etc/sw"])
                else ([], [])
  | None => ([], [])
  end.
Definition sftp_keys_disk : list Volume * list VolumeMount :=
  match host_keys with
  | Some secret => ([secret_volume "sftp-hostkeys" secret], [read_only_mount "sftp-hostkeys" "/etc/sw/ssh"])
  | None => ([], [])
  end.
Definition sftp_probe (initialDelay period : Z) : Probe :=
  probe (TCPSocket (sftpEffectivePort m)) initialDelay 3 period 1 6.
Definition buildSFTPDeployment : Deployment :=
  let labels := labelsForSFTP name in
  let '(userVolumes, userMounts) := sftp_users_disk in
  let '(keyVolumes, keyMounts) := sftp_keys_disk in
  let '(tlsVols, tlsMounts) := tlsVolumesAndMounts cert_manager m in
  let container := component_container base "sftp" (sftp_Resources spec) (userMounts ++ keyMounts ++ tlsMounts)
    (buildSFTPGatewayStartupScript (acc_ExtraArgs base)) (container_ports sftp_ports)
    (Some (sftp_probe 5 10)) (Some (sftp_probe 20 30)) in
  component_deployment m (name +:+ "-sftp") labels labels (mergePodLabels labels (acc_Labels base))
    (withJWTSigningAnnotation m (acc_Annotations base)) (sftp_Replicas spec)
    (component_pod base None (userVolumes ++ keyVolumes ++ tlsVols) container).
Definition createSFTPServiceMonitor : ServiceMonitor :=
  component_monitor m (name +:+ "-sftp") (labelsForSFTP name) "sftp-metrics".
End sftp.

(** ** Reconciliation *)
Section ensure.
Context `{Owners} `{SpecJSON ServiceObjSpec} `{SpecJSON PodSpec} `{SpecJSON IngressObjSpec}.
Context (cert_manager : bool) (m : Seaweed).
Definition deleteS3Gateway : op (option error) := delete_gateway m "-s3".
Definition ensureS3Gateway : op (option outcome) :=
  match sw_S3 (sw_Spec m), sw_Filer (sw_Spec m) with
  | Some spec, Some _ =>
      ensure_gateway m "-s3" s3Component (buildS3Service m spec) (buildS3Deployment cert_manager m spec)
        (createS3ServiceMonitor m) (s3gw_MetricsPort spec) (s3EffectivePort m) (s3gw_Ingress spec)
  | _, _ => fail_step deleteS3Gateway
  end.
Definition deleteSFTPGateway : op (option error) := delete_gateway m "-sftp".
Definition ensureSFTPGateway : op (option outcome) :=
  match sw_SFTP (sw_Spec m), sw_Filer (sw_Spec m) with
  | Some spec, Some _ =>
      ensure_gateway m "-sftp" sftpComponent (buildSFTPService m spec) (buildSFTPDeployment cert_manager m spec)
        (createSFTPServiceMonitor m) (sftp_MetricsPort spec) (sftpEffectivePort m) (sftp_Ingress spec)
  | _, _ => fail_step deleteSFTPGateway
  end.
End ensure.
