(* ===== verification/Certificates.v ===== *)
(** * Certificates (controller_tls.go: ensureTLS)

    The cert-manager objects behind mTLS: unless the user names an issuer, a
    self-signed CA and an issuer for it, and one certificate that all components
    share.  [cert_manager] is the result of the probe for cert-manager's kinds,
    which runs once per process. *)
From S2P Require Import Prelude Prog CoreTypes ApiTypes Effects Machinery Sim Trace.
From S2P Require Import Cluster Upsert SecurityConfig Workloads.

Definition caSecretSuffix : string := "-ca".
Definition selfSignedIssuerSuffix : string := "-selfsigned".
Definition caIssuerSuffix : string := "-ca-issuer".
Definition serverCertSuffix : string := "-server".
Definition certManagerGroup : string := "cert-manager.io".

#[export] Program Instance owned_issuer : Owned KIssuer := {|
  with_meta meta o := {| iss_Meta := meta; iss_Spec := iss_Spec o |} |}.
Next Obligation. done. Qed.
#[export] Program Instance owned_certificate : Owned KCertificate := {|
  with_meta meta o := {| crt_Meta := meta; crt_Spec := crt_Spec o |} |}.
Next Obligation. done. Qed.

(** The probe: any error but a missing kind counts as available. *)
Definition probeCertManagerCRD : op bool :=
  do r <- kube (KList KCertificate None ∅);
  match r with
  | inr _ => Ret true
  | inl err => if IsNoMatchError err then Ret false else Ret true
  end.

Definition defaultIfEmpty (s d : string) : string := if bool_decide (s = "") then d else s.
Definition mergeStringMaps (dst src : gmap string string) : gmap string string := src ∪ dst.

Section tls.
Context `{Owners} (m : Seaweed).
Abbreviation name := (Name (sw_Meta m)).
Abbreviation ns := (Namespace (sw_Meta m)).

Definition issuerRefForServerCert : string * string * string :=
  match sw_TLS (sw_Spec m) ≫= tls_IssuerRef with
  | Some ref => (issuer_Name ref, defaultIfEmpty (issuer_Kind ref) "Issuer",
                 defaultIfEmpty (issuer_Group ref) certManagerGroup)
  | None => (name +:+ caIssuerSuffix, "Issuer", certManagerGroup)
  end.
Definition newIssuer (issuer : string) (spec : IssuerSpec) : Issuer :=
  {| iss_Meta := new_meta m issuer (labelsForCR m); iss_Spec := spec |}.
Definition newCertificate (certificate : string) (spec : CertificateSpec) : Certificate :=
  {| crt_Meta := new_meta m certificate (labelsForCR m); crt_Spec := spec |}.
Definition selfSignedIssuer : Issuer := newIssuer (name +:+ selfSignedIssuerSuffix) SelfSigned.
Definition caCertificate : Certificate :=
  newCertificate (name +:+ caSecretSuffix) {|
    crt_SecretName := name +:+ caSecretSuffix; crt_CommonName := name +:+ " SeaweedFS CA"; crt_IsCA := true;
    crt_DNSNames := []; crt_Usages := [];
    crt_IssuerRef := (name +:+ selfSignedIssuerSuffix, "Issuer", certManagerGroup);
    crt_PrivateKey := ("RSA", 2048%Z) |}.
Definition caIssuer : Issuer := newIssuer (name +:+ caIssuerSuffix) (CAIssuer (name +:+ caSecretSuffix)).
Definition peer_wildcard (suffix : string) : string :=
  "*." +:+ name +:+ suffix +:+ "." +:+ ns +:+ ".svc.cluster.local".
Definition serverDNSNames : list string :=
  ["localhost"; name +:+ "-master"; name +:+ "-master-peer"; name +:+ "-volume"; name +:+ "-volume-peer";
   name +:+ "-filer"; name +:+ "-filer-peer"; name +:+ "-admin"; name +:+ "-worker";
   peer_wildcard "-master-peer"; peer_wildcard "-volume-peer"; peer_wildcard "-filer-peer";
   "*." +:+ ns +:+ ".svc.cluster.local"].
Definition serverCertificate : Certificate :=
  newCertificate (name +:+ serverCertSuffix) {|
    crt_SecretName := TLSServerSecretName m; crt_CommonName := name +:+ ".seaweedfs"; crt_IsCA := false;
    crt_DNSNames := serverDNSNames;
    crt_Usages := ["digital signature"; "key encipherment"; "server auth"; "client auth"];
    crt_IssuerRef := issuerRefForServerCert; crt_PrivateKey := ("RSA", 2048%Z) |}.

(** [set_spec existing desired] replaces the spec.  The labels are added to, and an
    existing object is updated whether or not that changes it. *)
Definition applyUnstructured (k : Kind) `{Owned k} (set_spec : Obj k -> Obj k -> Obj k) (desired : Obj k)
    : op (option error) :=
  match set_owner m k desired with
  | inl err => Ret (Some err)
  | inr desired =>
      do r <- kube (KGet k (obj_key desired));
      match r with
      | inl err => if IsNotFound err then kube (KCreate k desired) else Ret (Some err)
      | inr existing =>
          let existing := set_spec existing desired in
          let meta := obj_meta existing in
          let labels := mergeStringMaps (Labels meta) (Labels (obj_meta desired)) in
          match set_owner m k (with_meta (set_meta labels (Annotations meta) meta) existing) with
          | inl err => Ret (Some err)
          | inr existing => kube (KUpdate k existing)
          end
      end
  end.
Definition apply_issuer (issuer : Issuer) : op (option outcome) :=
  do err <- applyUnstructured KIssuer
              (fun existing desired => {| iss_Meta := iss_Meta existing; iss_Spec := iss_Spec desired |}) issuer;
  Ret (ReconcileResult err).
Definition apply_certificate (certificate : Certificate) : op (option outcome) :=
  do err <- applyUnstructured KCertificate
              (fun existing desired => {| crt_Meta := crt_Meta existing; crt_Spec := crt_Spec desired |}) certificate;
  Ret (ReconcileResult err).
Definition ensureSelfSignedIssuer : op (option outcome) := apply_issuer selfSignedIssuer.
Definition ensureCACertificate : op (option outcome) := apply_certificate caCertificate.
Definition ensureCAIssuer : op (option outcome) := apply_issuer caIssuer.
Definition ensureServerCertificate : op (option outcome) := apply_certificate serverCertificate.
Definition own_issuer : bool := match sw_TLS (sw_Spec m) ≫= tls_IssuerRef with Some _ => false | None => true end.
Definition ensureTLS (cert_manager : bool) : op (option outcome) :=
  if negb (tlsEnabled m) then Ret None
  else if negb cert_manager then Ret None
  else
    (if own_issuer then ensureSelfSignedIssuer >>> ensureCACertificate >>> ensureCAIssuer else Ret None) >>>
    ensureServerCertificate.
End tls.
