(* ===== verification/ClusterController.v ===== *)
(** * The cluster controller (seaweed_controller.go)

    One pass of the reconciler over a cluster: certificates, security
    configuration, masters, volume servers, filers, admin server, workers,
    gateways, data mirrors and Ingresses in this order, and the status at the end.
    Every step may end the pass. *)
From S2P Require Import Prelude Prog CoreTypes ApiTypes Effects Machinery Sim Trace.
From S2P Require Import Cluster VolumeEvac Upsert SecurityConfig Component BackupMirror.
From S2P Require Import VolumeClaims ClusterStatus.
From S2P Require Import Workloads MasterServers VolumeServers FilerServers AdminServers.
From S2P Require Import Ingresses Gateways Certificates.

Section reconcile.
Context `{ApiMachinery} `{Owners} `{Digest}.
Context `{SpecJSON ServiceObjSpec} `{SpecJSON PodSpec} `{SpecJSON IngressObjSpec}.
(** The probe for cert-manager, whether the scale-down gate is wired, and whether
    there is an event recorder. *)
Context (cert_manager wired recorder : bool).
(** The orders in which the maps of the topology groups and of the wanted Ingresses
    are visited. *)
Context (topology_order : Seaweed -> list (string * option VolumeTopologySpec)).
Context (ingress_order : Seaweed -> list (string * desired_ingress)).

Definition with_mirrors (statuses : list BackupMirrorStatus) (m : Seaweed) : Seaweed :=
  let s := sw_Status m in {|
  sw_Meta := sw_Meta m; sw_Spec := sw_Spec m;
  sw_Status := {|
    swst_ObservedGeneration := swst_ObservedGeneration s; swst_Conditions := swst_Conditions s;
    swst_Master := swst_Master s; swst_Volume := swst_Volume s; swst_Filer := swst_Filer s;
    swst_Admin := swst_Admin s; swst_Worker := swst_Worker s; swst_S3 := swst_S3 s; swst_SFTP := swst_SFTP s;
    swst_BackupMirrors := statuses |} |}.

(** The worker needs the admin server. *)
Definition ensure_components (m : Seaweed) : op (option outcome) :=
  let spec := sw_Spec m in
  ensureTLS m cert_manager >>>
  fail_step (ensureSecurityConfig cert_manager m) >>>
  ensureMaster cert_manager m >>>
  ensureVolumeServers cert_manager wired recorder m (topology_order m) >>>
  (match sw_Filer spec with Some filer => ensureFilerServers cert_manager m filer recorder | None => Ret None end) >>>
  (match sw_Admin spec with Some admin => ensureAdminServers cert_manager m admin | None => Ret None end) >>>
  (match sw_Worker spec, sw_Admin spec with
   | Some worker, Some _ => ensureWorkers cert_manager m worker
   | _, _ => Ret None
   end) >>>
  ensureS3Gateway cert_manager m >>>
  ensureSFTPGateway cert_manager m.
Definition ensure_ingresses (m : Seaweed) : op (option outcome) :=
  ensureSeaweedIngress m >>> ensureComponentIngresses m (ingress_order m).
Definition finish_pass (m : Seaweed) : op outcome :=
  do r <- ensure_ingresses m;
  match r with Some o => Ret o | None => finishReconcile (topology_order m) m end.
Definition reconcile_pass (m : Seaweed) : op outcome :=
  do r <- ensure_components m;
  match r with
  | Some o => Ret o
  | None =>
      try statuses <- ensureBackupMirrors cert_manager m catch fail => Ret (outcome_of fail);
      finish_pass (with_mirrors statuses m)
  end.
(** findSeaweedCustomResourceInstance: [inl] ends the pass. *)
Definition findSeaweedCustomResourceInstance (key : NamespacedName) : op (outcome + Seaweed) :=
  do r <- kube (KGet KSeaweed key);
  match r with
  | inl err => if IsNotFound err then Ret (inl (Done (requeueIn (5 * Second)) None))
               else Ret (inl (Done noResult (Some err)))
  | inr m => Ret (inr m)
  end.
Definition cluster_Reconcile (key : NamespacedName) : op outcome :=
  do r <- findSeaweedCustomResourceInstance key;
  match r with inl o => Ret o | inr m => reconcile_pass m end.
End reconcile.
