(* ===== verification/ClusterSafety.v ===== *)
(** * What a pass over a cluster may do

    The rules of the calls of the cluster controller, composed from those of the
    security configuration, the data mirrors and the status with those for the
    objects of the components: what is created and updated is what the spec asks
    for, nothing but the masters is touched before a quorum of them is ready, a
    volume StatefulSet is sized by the gate, and deletions have a reason each. *)
From S2P Require Import Prelude Prog CoreTypes ApiTypes Effects Machinery Sim Trace.
From S2P Require Import Cluster VolumeEvac Upsert SecurityConfig Component BackupMirror.
From S2P Require Import VolumeClaims ClusterStatus.
From S2P Require Import Workloads MasterServers VolumeServers FilerServers AdminServers.
From S2P Require Import Ingresses Gateways Certificates.
From S2P Require Import ClusterController.

Definition owned_kind (k : Kind) : option (Owned k) :=
  match k with
  | KService => Some owned_service | KConfigMap => Some owned_configmap
  | KServiceMonitor => Some owned_monitor | KIngress => Some owned_ingress
  | KDeployment => Some owned_deployment | KStatefulSet => Some owned_statefulset
  | KDaemonSet => Some owned_daemonset | KIssuer => Some owned_issuer
  | KCertificate => Some owned_certificate
  | _ => None
  end.
Inductive component :=
| CTLS | CMaster | CVolume | CFiler | CAdmin | CWorker | CS3 | CSFTP | CIngress.
(** The components that go ahead of the masters. *)
Definition first_component (c : component) : bool := match c with CTLS | CMaster => true | _ => false end.

Section pass.
Context `{ApiMachinery} `{OwnersLaws} `{Digest}.
Context `{SpecJSON ServiceObjSpec} `{SpecJSON PodSpec} `{SpecJSON IngressObjSpec}.
Context (cert_manager wired recorder : bool) (m : Seaweed).
Abbreviation spec := (sw_Spec m).
Abbreviation name := (Name (sw_Meta m)).
Abbreviation ns := (Namespace (sw_Meta m)).

(** ** The masters come first

    The spec lets all start at once, or a list of the pods with the labels of the masters
    was answered in which the ready containers of running pods, whatever their names, are
    more than half of the replicas.  That is a majority of the masters if their pods have
    one container each. *)
Definition ready_containers (pods : list Pod) : list bool :=
  flat_map (fun pod => List.filter id (p_ContainersReady pod))
    (List.filter (fun pod => bool_decide (p_Phase pod = PodRunning)) pods).
Definition masters_ready (tr : trace) : Prop :=
  exists master, sw_Master spec = Some master /\
    (master_ConcurrentStart master = Some true \/
     exists pods, saw_kube tr (KList KPod (Some ns) (labelsForMaster name)) (Ok pods) /\
       (master_Replicas master < 2 * Z.of_nat (length (ready_containers pods)))%Z).
Definition turn (c : component) (tr : trace) : Prop := first_component c = true \/ masters_ready tr.

(** ** The size of a volume StatefulSet

    It is the desired one, unless the set that was read is larger: then nothing is
    removed, or only servers that the masters just reported without data. *)
Definition gated (tr : trace) (sts : string) (desired : Z) (nodeFor : Z -> string) (allowed : Z) : Prop :=
  let key := {| nn_Namespace := ns; nn_Name := sts |} in
  wired = false /\ allowed = desired \/
  (exists err, IsNotFound err = true /\ saw_kube tr (KGet KStatefulSet key) (Err err) /\ allowed = desired) \/
  exists s, saw_kube tr (KGet KStatefulSet key) (Ok s) /\
    let current := default 0%Z (sts_Replicas s) in
    ((current <= desired)%Z /\ allowed = desired \/
     (desired < current)%Z /\ allowed = current \/
     (desired <= allowed <= current)%Z /\
     exists masters d counts, saw tr (OVolume masters d VolumeServerVolumeCounts) (Ok counts) /\
       forall o, (allowed <= o < current)%Z -> counts !! nodeFor o = Some 0%Z).

(** ** The objects of the components *)
Inductive declared (tr : trace) : component -> forall k, Obj k -> Prop :=
| d_selfsigned : own_issuer m = true -> declared tr CTLS KIssuer (selfSignedIssuer m)
| d_ca : own_issuer m = true -> declared tr CTLS KCertificate (caCertificate m)
| d_ca_issuer : own_issuer m = true -> declared tr CTLS KIssuer (caIssuer m)
| d_server_certificate : declared tr CTLS KCertificate (serverCertificate m)
| d_master_peer s : sw_Master spec = Some s -> declared tr CMaster KService (createMasterPeerService m s)
| d_master_service s : sw_Master spec = Some s -> declared tr CMaster KService (createMasterService m s)
| d_master_config s c : sw_Master spec = Some s -> createMasterConfigMap m s = Some c ->
    declared tr CMaster KConfigMap c
| d_master_sts s : sw_Master spec = Some s ->
    declared tr CMaster KStatefulSet (createMasterStatefulSet cert_manager m s)
| d_master_monitor : declared tr CMaster KServiceMonitor (createMasterServiceMonitor m)
| d_volume_peer v : sw_Volume spec = Some v -> declared tr CVolume KService (createVolumeServerPeerService m v)
| d_volume_service v i : sw_Volume spec = Some v -> IsDaemonSet v = false -> i ∈ ordinals (vspec_Replicas v) ->
    declared tr CVolume KService (createVolumeServerService m v i)
| d_volume_sts v allowed : sw_Volume spec = Some v -> IsDaemonSet v = false ->
    gated tr (name +:+ "-volume") (vspec_Replicas v) (volumeServerNodeAddress m) allowed ->
    declared tr CVolume KStatefulSet (with_replicas allowed (createVolumeServerStatefulSet cert_manager m v))
| d_volume_ds v : sw_Volume spec = Some v -> IsDaemonSet v = true ->
    declared tr CVolume KDaemonSet (createVolumeServerDaemonSet cert_manager m v)
| d_volume_monitor : declared tr CVolume KServiceMonitor (createVolumeServerServiceMonitor m)
| d_group_peer t g : sw_VolumeTopology spec !! t = Some (Some g) ->
    declared tr CVolume KService (createVolumeServerTopologyPeerService m t g)
| d_group_service t g i : sw_VolumeTopology spec !! t = Some (Some g) -> i ∈ ordinals (topo_Replicas g) ->
    declared tr CVolume KService (createVolumeServerTopologyService m t g i)
| d_group_sts t g allowed : sw_VolumeTopology spec !! t = Some (Some g) ->
    gated tr (topology_name m t) (topo_Replicas g) (volumeServerTopologyNodeAddress m t) allowed ->
    declared tr CVolume KStatefulSet (with_replicas allowed (createVolumeServerTopologyStatefulSet cert_manager m t g))
| d_group_monitor t : declared tr CVolume KServiceMonitor (createVolumeServerTopologyServiceMonitor m t)
| d_filer_peer f : sw_Filer spec = Some f -> declared tr CFiler KService (createFilerPeerService m f)
| d_filer_service f : sw_Filer spec = Some f -> declared tr CFiler KService (createFilerService m f)
| d_filer_config f c : sw_Filer spec = Some f -> createFilerConfigMap m f = Some c -> declared tr CFiler KConfigMap c
| d_filer_sts f s : sw_Filer spec = Some f -> createFilerStatefulSet cert_manager m f = Some s ->
    declared tr CFiler KStatefulSet s
| d_filer_monitor : declared tr CFiler KServiceMonitor (createFilerServiceMonitor m)
| d_admin_peer a : sw_Admin spec = Some a -> declared tr CAdmin KService (createAdminPeerService m a)
| d_admin_service a : sw_Admin spec = Some a -> declared tr CAdmin KService (createAdminService m a)
| d_admin_sts a : sw_Admin spec = Some a -> declared tr CAdmin KStatefulSet (createAdminStatefulSet cert_manager m a)
| d_admin_monitor : declared tr CAdmin KServiceMonitor (createAdminServiceMonitor m)
| d_worker w : sw_Worker spec = Some w -> declared tr CWorker KDeployment (createWorkerDeployment cert_manager m w)
| d_worker_service w : sw_Worker spec = Some w -> declared tr CWorker KService (createWorkerService m w)
| d_worker_monitor : declared tr CWorker KServiceMonitor (createWorkerServiceMonitor m)
| d_s3_service s : sw_S3 spec = Some s -> declared tr CS3 KService (buildS3Service m s)
| d_s3 s : sw_S3 spec = Some s -> declared tr CS3 KDeployment (buildS3Deployment cert_manager m s)
| d_s3_monitor : declared tr CS3 KServiceMonitor (createS3ServiceMonitor m)
| d_s3_ingress s i : sw_S3 spec = Some s -> enabled_ingress (s3gw_Ingress s) = Some i ->
    declared tr CS3 KIngress (buildComponentIngress m s3Component (name +:+ "-s3") (s3EffectivePort m) i)
| d_sftp_service s : sw_SFTP spec = Some s -> declared tr CSFTP KService (buildSFTPService m s)
| d_sftp s : sw_SFTP spec = Some s -> declared tr CSFTP KDeployment (buildSFTPDeployment cert_manager m s)
| d_sftp_monitor : declared tr CSFTP KServiceMonitor (createSFTPServiceMonitor m)
| d_sftp_ingress s i : sw_SFTP spec = Some s -> enabled_ingress (sftp_Ingress s) = Some i ->
    declared tr CSFTP KIngress (buildComponentIngress m sftpComponent (name +:+ "-sftp") (sftpEffectivePort m) i)
| d_all_ingress suffix i : sw_HostSuffix spec = Some suffix -> createAllIngress m suffix = Some i ->
    declared tr CIngress KIngress i
| d_ingress key d : wanted m !! key = Some d ->
    declared tr CIngress KIngress (buildComponentIngress m (di_component d) (di_service d) (di_port d) (di_spec d)).

(** ** What becomes of an existing object *)
Definition adds_claims (existing desired : StatefulSet) : Prop :=
  sts_VolumeClaimTemplates existing = [] /\ sts_VolumeClaimTemplates desired <> [].
Definition merged (c : component) (k : Kind) : Obj k -> Obj k -> Obj k -> Prop :=
  match k with
  | KService => fun existing desired o => merge_service existing desired = Ok o
  | KConfigMap => fun existing desired o => o = merge_configmap existing desired
  | KServiceMonitor => fun existing desired o => o = merge_servicemonitor existing desired
  | KIngress => fun existing desired o => merge_ingress existing desired = Ok o
  | KDeployment => fun existing desired o => exists ta,
      merge_template_annotations (dep_TemplateAnnotations existing) (dep_TemplateAnnotations desired) = inr ta /\
      o = applied existing desired ta
  | KStatefulSet => fun existing desired o =>
      match c with
      | CMaster | CAdmin => o = merge_template existing desired
      | _ => o = merge_retention existing desired /\ ~ adds_claims existing desired
      end
  | KDaemonSet => fun existing desired o => o = merge_daemonset existing desired
  | KIssuer => fun existing desired o => exists os, o = {|
      iss_Meta := with_owners (set_meta (Labels (iss_Meta desired) ∪ Labels (iss_Meta existing))
                    (Annotations (iss_Meta existing)) (iss_Meta existing)) os;
      iss_Spec := iss_Spec desired |}
  | KCertificate => fun existing desired o => exists os, o = {|
      crt_Meta := with_owners (set_meta (Labels (crt_Meta desired) ∪ Labels (crt_Meta existing))
                    (Annotations (crt_Meta existing)) (crt_Meta existing)) os;
      crt_Spec := crt_Spec desired |}
  | _ => fun _ _ _ => False
  end.
(** A new Deployment carries its pod spec in an annotation. *)
Definition stored (k : Kind) : Obj k -> Obj k :=
  match k with KDeployment => addSpecToAnnotation | _ => id end.

(** ** What may be removed *)
Inductive removable : Kind -> string -> Prop :=
| r_daemonset v : sw_VolumeTopology spec = ∅ -> sw_Volume spec = Some v -> IsDaemonSet v = false ->
    removable KDaemonSet "-volume"
| r_statefulset v : sw_VolumeTopology spec = ∅ -> sw_Volume spec = Some v -> IsDaemonSet v = true ->
    vspec_HostPath v <> [] -> removable KStatefulSet "-volume"
| r_worker w : sw_Worker spec = Some w -> removable KStatefulSet "-worker"
| r_worker_peer w : sw_Worker spec = Some w -> removable KService "-worker-peer"
| r_s3 k suffix : sw_S3 spec = None \/ sw_Filer spec = None ->
    (k, suffix) ∈ [(KDeployment, "-s3"); (KService, "-s3"); (KIngress, "-s3-ingress"); (KServiceMonitor, "-s3")] ->
    removable k suffix
| r_s3_monitor s : sw_S3 spec = Some s -> s3gw_MetricsPort s = None -> removable KServiceMonitor "-s3"
| r_s3_ingress s : sw_S3 spec = Some s -> enabled_ingress (s3gw_Ingress s) = None -> removable KIngress "-s3-ingress"
| r_sftp k suffix : sw_SFTP spec = None \/ sw_Filer spec = None ->
    (k, suffix) ∈ [(KDeployment, "-sftp"); (KService, "-sftp"); (KIngress, "-sftp-ingress");
                   (KServiceMonitor, "-sftp")] ->
    removable k suffix
| r_sftp_monitor s : sw_SFTP spec = Some s -> sftp_MetricsPort s = None -> removable KServiceMonitor "-sftp"
| r_sftp_ingress s : sw_SFTP spec = Some s -> enabled_ingress (sftp_Ingress s) = None ->
    removable KIngress "-sftp-ingress".

(** ** The rules *)
Definition may_create (tr : trace) (k : Kind) (o : Obj k) : Prop :=
  exists c (I : Owned k) desired owned, owned_kind k = Some I /\ declared tr c k desired /\ turn c tr /\
    set_owner m k desired = Ok owned /\ o = stored k owned.
Definition may_update (tr : trace) (k : Kind) (o : Obj k) : Prop :=
  exists c (I : Owned k) desired owned existing, owned_kind k = Some I /\ declared tr c k desired /\ turn c tr /\
    set_owner m k desired = Ok owned /\ saw_kube tr (KGet k (obj_key owned)) (Ok existing) /\
    merged c k existing owned o.
(** A StatefulSet without claim templates is deleted to add some. *)
Definition deleted_for_claims (tr : trace) (o : StatefulSet) : Prop :=
  exists c desired owned existing, (c = CVolume \/ c = CFiler) /\ declared tr c KStatefulSet desired /\
    set_owner m KStatefulSet desired = Ok owned /\
    saw_kube tr (KGet KStatefulSet (obj_key (k:=KStatefulSet) owned)) (Ok existing) /\
    o = merge_retention existing owned /\ adds_claims existing owned.
Definition pruned_ingress (tr : trace) (o : Ingress) : Prop :=
  exists l, saw_kube tr (KList KIngress (Some ns) (managed_labels m)) (Ok l) /\ o ∈ l /\
    isOwnedBy (OwnerReferences (ing_Meta o)) (UID (sw_Meta m)) = true /\ wanted m !! Name (ing_Meta o) = None.
Definition may_delete (tr : trace) (k : Kind) (o : Obj k) : Prop :=
  masters_ready tr /\
  ((exists suffix, removable k suffix /\ saw_kube tr (KGet k (gateway_key m suffix)) (Ok o)) \/
   match k return Obj k -> Prop with
   | KStatefulSet => fun o => deleted_for_claims tr o
   | KIngress => fun o => pruned_ingress tr o
   | _ => fun _ => False
   end o).
(** The configuration file of the masters or the filers that is no longer asked for. *)
Definition stale_config (tr : trace) (k : Kind) (o : Obj k) (uid : string) : Prop :=
  k = KConfigMap /\ IsControlledBy (obj_meta o) (sw_Meta m) = true /\ uid = UID (obj_meta o) /\
  (hasMasterConfig m = false /\ saw_kube tr (KGet k (gateway_key m "-master")) (Ok o) \/
   hasFilerConfig m = false /\ masters_ready tr /\ saw_kube tr (KGet k (gateway_key m "-filer")) (Ok o)).
Definition component_guard : Guard := fun tr X e =>
  match e with
  | OKube (KGet _ _) | OKube (KList _ _ _) => True
  | OKube (KCreate k o) => may_create tr k o
  | OKube (KUpdate k o) => may_update tr k o
  | OKube (KDelete k o) => may_delete tr k o
  | OKube (KDeleteUID k o uid) => stale_config tr k o uid
  | OVolume _ _ VolumeServerVolumeCounts | OVolumeFactory _ _ | OTrack _ | ODialTLS _ _ _ => masters_ready tr
  | OMonitorAvailable | OMonitorUnavailable | OEvent _ _ _ => True
  | _ => False
  end.
Definition pass_guard : Guard := fun tr X e =>
  component_guard tr X e \/ security_guard cert_manager m tr X e \/
  masters_ready tr /\ mirror_guard m tr X e \/
  masters_ready tr /\ exists statuses topologies, topologies ≡ₚ map_to_list (sw_VolumeTopology spec) /\
    status_guard topologies (with_mirrors statuses m) tr X e.

(** ** Facts that stay true *)
Lemma masters_ready_mono tr new : masters_ready tr -> masters_ready (tr ++ new).
Proof.
  intros (s & Hs & [Hc|(pods & Hp & Hq)]); exists s; (split; [done|]); [by left|right].
  exists pods. split; [by apply saw_app_l|done].
Qed.
Lemma turn_mono c tr new : turn c tr -> turn c (tr ++ new).
Proof. intros [?|?]; [by left|right; by apply masters_ready_mono]. Qed.
Lemma gated_mono tr new sts desired nodeFor allowed :
  gated tr sts desired nodeFor allowed -> gated (tr ++ new) sts desired nodeFor allowed.
Proof.
  intros [?|[(e & He & Hs & ->)|(s & Hs & Hr)]]; [by left|right; left|right; right].
  - exists e. split; [done|]. split; [by apply saw_app_l|done].
  - exists s. split; [by apply saw_app_l|]. destruct Hr as [?|[?|(Hr & masters & d & counts & Hc & Hz)]]; [by left|by right; left|].
    right; right. split; [done|]. exists masters, d, counts. split; [by apply saw_app_l|done].
Qed.
Lemma declared_mono tr new c k o : declared tr c k o -> declared (tr ++ new) c k o.
Proof. intros Hd. destruct Hd; econstructor; eauto; by apply gated_mono. Qed.
#[local] Hint Resolve masters_ready_mono turn_mono declared_mono gated_mono : pass.

(** ** Stepping through a pass *)
Abbreviation G := pass_guard.
Definition steps {A} (p : op A) (tr : trace) : Prop := swp G p (fun _ _ => True) tr.

Lemma stored_key k (o : Obj k) : obj_key (stored k o) = obj_key o.
Proof. by destruct k. Qed.
Lemma steps_seq {A B} (p : op A) (f : A -> op B) tr :
  steps p tr -> (forall a new, steps (f a) (tr ++ new)) -> steps (bind p f) tr.
Proof. intros Hp Hf. eapply swp_seq_keep; [exact Hp|]. intros a new _. apply Hf. Qed.
Lemma steps_ready {A} (p : op A) (Q : A -> Prop) tr :
  masters_ready tr -> steps p tr -> swp G p (fun r tr' => Q r -> masters_ready tr') tr.
Proof.
  intros Hr Hp. eapply swp_mono; [|apply swp_extends, Hp]. intros r tr' [[new ->] _] _. by apply masters_ready_mono.
Qed.
Lemma steps_and_then p q tr : steps p tr -> (forall new, steps q (tr ++ new)) -> steps (p >>> q) tr.
Proof. intros Hp Hq. apply steps_seq; [done|]. intros [o|] new; [by sx|apply Hq]. Qed.
Lemma steps_for_until {A R} (body : A -> op (option R)) (l : list A) tr :
  (forall a new, a ∈ l -> steps (body a) (tr ++ new)) -> steps (for_until l body) tr.
Proof.
  revert tr; induction l as [|a l IH]; intros tr Hb; [by unfold steps; sx|]. cbn [for_until].
  apply steps_seq; [rewrite <-(app_nil_r tr); apply Hb, elem_of_cons; by left|].
  intros [x|] new; [by unfold steps; sx|]. apply IH. intros b new' Hin. rewrite <-app_assoc.
  apply Hb, elem_of_cons. by right.
Qed.

(** Every write of a declared object. *)
Lemma steps_upsert {E} `{Fails E} k `{Semantic k} (I : Owned k) c (desired : Obj k)
    (f : Obj k -> Obj k -> E + Obj k) tr :
  owned_kind k = Some I -> declared tr c k desired -> turn c tr ->
  (forall owned existing o, f existing (stored k owned) = inr o -> merged c k existing owned o) ->
  steps (ensure_owned m k desired (fun o => CreateOrUpdate k (stored k o) (pure_merge f))) tr.
Proof.
  intros HI Hd Ht Hf. unfold ensure_owned. destruct (set_owner m k desired) as [e|o] eqn:Ho; [by unfold steps; sx|].
  apply steps_seq; [|intros r new; by unfold steps; sx].
  apply CreateOrUpdate_pure_swp; [by left| | |done].
  - intros new. left. exists c, I, desired, o. split_and!; auto with pass.
  - intros new existing mutated Hs Hm Hne. left. exists c, I, desired, o, existing. rewrite stored_key in Hs.
    split_and!; eauto with pass.
Qed.
Lemma steps_service c desired tr :
  declared tr c KService desired -> turn c tr -> steps (ensure_owned m KService desired CreateOrUpdateService) tr.
Proof. intros Hd Ht. by apply (steps_upsert KService owned_service c desired merge_service). Qed.
Lemma steps_configmap c desired tr :
  declared tr c KConfigMap desired -> turn c tr -> steps (ensure_owned m KConfigMap desired CreateOrUpdateConfigMap) tr.
Proof.
  intros Hd Ht. apply (steps_upsert KConfigMap owned_configmap c desired
    (fun existing desired => Ok (merge_configmap existing desired))); [done..|]. by intros o e x [= <-].
Qed.
Lemma steps_ingress c desired tr :
  declared tr c KIngress desired -> turn c tr -> steps (ensure_owned m KIngress desired CreateOrUpdateIngress) tr.
Proof. intros Hd Ht. by apply (steps_upsert KIngress owned_ingress c desired merge_ingress). Qed.
Lemma steps_deployment c desired tr :
  declared tr c KDeployment desired -> turn c tr ->
  steps (ensure_owned m KDeployment desired CreateOrUpdateDeployment) tr.
Proof.
  intros Hd Ht. apply (steps_upsert KDeployment owned_deployment c desired merge_deployment); [done..|].
  intros o e x Hm. cbn [stored] in Hm. rewrite merge_deployment_applied in Hm.
  destruct (merge_template_annotations _ _) as [er|ta] eqn:Hta; simplify_eq. by exists ta.
Qed.
Lemma steps_daemonset desired tr :
  declared tr CVolume KDaemonSet desired -> turn CVolume tr ->
  steps (ensure_owned m KDaemonSet desired upsert_daemonset) tr.
Proof.
  intros Hd Ht. apply (steps_upsert KDaemonSet owned_daemonset CVolume desired
    (fun existing desired => Ok (merge_daemonset existing desired))); [done..|]. by intros o e x [= <-].
Qed.
Lemma steps_template c desired tr :
  c = CMaster \/ c = CAdmin -> declared tr c KStatefulSet desired -> turn c tr ->
  steps (ensure_owned m KStatefulSet desired upsert_template) tr.
Proof.
  intros Hc Hd Ht. apply (steps_upsert KStatefulSet owned_statefulset c desired
    (fun existing desired => Ok (merge_template existing desired))); [done..|].
  intros o e x [= <-]. by destruct Hc as [-> | ->].
Qed.
(** A ServiceMonitor is skipped where its kind is missing. *)
Lemma steps_monitor c desired tr :
  declared tr c KServiceMonitor desired -> turn c tr ->
  steps (ensure_owned m KServiceMonitor desired CreateOrUpdateServiceMonitor) tr.
Proof.
  intros Hd Ht. unfold ensure_owned. destruct (set_owner m _ desired) as [e|o] eqn:Ho; [by unfold steps; sx|].
  apply steps_seq; [|intros r new; by unfold steps; sx]. unfold CreateOrUpdateServiceMonitor, steps.
  sx. split; [by left|]. intros []; cbn [negb]; [|by sx].
  eapply (swp_seq _ _ _ (fun _ _ => True)).
  - apply CreateOrUpdate_pure_swp; [by left| | |done].
    + intros new. left. exists c, owned_monitor, desired, o. split_and!; auto with pass.
    + intros new existing mutated Hs [= <-] Hne. left. exists c, owned_monitor, desired, o, existing.
      split_and!; auto with pass; done.
  - intros [e|x] tr' _; [|by sx]. destruct (IsNoMatchError e); sx; [|done]. split; [by left|]. by intros [].
Qed.

(** A StatefulSet with claim templates. *)
Lemma claims_merged existing owned :
  vctSemanticallyEqual (sts_VolumeClaimTemplates (merge_retention existing owned))
    (sts_VolumeClaimTemplates owned) = true -> ~ adds_claims existing owned.
Proof.
  intros Heq [Ho Hn]. unfold vctSemanticallyEqual in Heq. cbn in Heq. rewrite Ho in Heq. by destruct (sts_VolumeClaimTemplates owned).
Qed.
Lemma steps_claims c desired owned tr :
  c = CVolume \/ c = CFiler -> declared tr c KStatefulSet desired -> masters_ready tr ->
  set_owner m KStatefulSet desired = Ok owned ->
  steps (upsert_with_claims recorder owned) tr.
Proof.
  intros Hc Hd Hr Ho. unfold upsert_with_claims.
  eapply (swp_seq _ _ _ (fun _ _ => True)).
  2: { intros [e|x] tr' _; [|by sx]. by destruct (errors_Is e _); sx. }
  apply CreateOrUpdate_swp; [by left| | |done].
  - intros new. left. exists c, owned_statefulset, desired, owned. split_and!; auto with pass.
    right. auto with pass.
  - intros new existing Hs. unfold merge_with_claims. cbv zeta.
    assert (Hkeep : forall tr', ~ adds_claims existing owned -> semantic_equal existing (merge_retention existing owned) = false ->
              G ((tr ++ new) ++ tr') _ (OKube (KUpdate KStatefulSet (merge_retention existing owned)))).
    { intros tr' Hn Hne. left. exists c, owned_statefulset, desired, owned, existing. rewrite <-app_assoc.
      split_and!; auto with pass; [right; auto with pass|rewrite app_assoc; by apply saw_app_l|]. by destruct Hc as [-> | ->]. }
    eapply swp_seq_keep with (R := fun r tr' => r = None -> ~ adds_claims existing owned).
    + unfold reconcileVolumeClaimTemplates. cbv zeta.
      destruct (vctSemanticallyEqual _ _) eqn:Hsem; [sx; intros _; by apply claims_merged|].
      destruct ((_ =? 0) && _) eqn:Hadd.
      * apply andb_true_iff in Hadd as [Hold%Nat.eqb_eq%nil_length_inv Hnew%Nat.ltb_lt].
        assert (Hadds : adds_claims existing owned) by (split; [done|intros Hx; rewrite Hx in Hnew; cbn in Hnew; lia]).
        unfold record_event.
        assert (Hdel : forall tr', G ((tr ++ new) ++ tr') _ (OKube (KDelete KStatefulSet (merge_retention existing owned)))).
        { intros tr'. left. split; [rewrite <-app_assoc; auto with pass|]. right. exists c, desired, owned, existing.
          split_and!; [done|rewrite <-app_assoc; auto with pass|done|by apply saw_app_l|done|done]. }
        destruct recorder; sx; [split; [by left|]; intros u; sx|]; (split; [|by intros [e|]]).
        -- apply Hdel.
        -- rewrite <-(app_nil_r (tr ++ new)). apply Hdel.
      * assert (Hno : ~ adds_claims existing owned).
        { intros [Ho1 Hn1]. apply andb_false_iff in Hadd as [Hl|Hl]; cbn in Hl; [by rewrite Ho1 in Hl|].
          by destruct (sts_VolumeClaimTemplates owned). }
        unfold record_event. destruct recorder; sx; [split; [by left|]; by intros u|done].
    + intros [e|] new' Hk; sx; [done|]. intros Hne. by apply Hkeep; [apply Hk|].
Qed.

(** The gate only reads, and hands evacuations to the tracker. *)
Lemma steps_dial tr : masters_ready tr -> steps (loadSeaweedGrpcDialOption m) tr.
Proof.
  intros Hr. unfold loadSeaweedGrpcDialOption, steps. destruct (tlsEnabled m); cbn [negb]; [|by sx].
  sx. split; [by left|]. intros [e|sec]; [by destruct (IsNotFound e)|].
  cbv zeta. destruct (_ || _); [by sx|]. sx. split; [left; cbn; auto with pass|]. by intros [e|].
Qed.
Lemma steps_forget nodeFor a c tr : masters_ready tr -> steps (forgetRange nodeFor a c) tr.
Proof.
  unfold forgetRange, steps. intros Hr. revert tr Hr. induction (map _ _) as [|o l IH]; intros tr Hr; cbn [for_each]; [by sx|].
  sx. split; [by left|]. intros []. apply IH. auto with pass.
Qed.
Lemma steps_evacuate node tr : masters_ready tr -> steps (startVolumeServerEvacuation recorder m node) tr.
Proof.
  intros Hr. unfold startVolumeServerEvacuation. cbv zeta. apply steps_seq; [by apply steps_dial|].
  intros [e|d] new; [by unfold steps; sx|]. unfold steps. sx. split; [left; cbn; auto with pass|].
  intros prev. split; [left; cbn; auto with pass|]. intros []; cbn [negb]; [|by sx].
  destruct prev; unfold recordVolumeEvent; destruct recorder; sx; try done; (split; [by left|done]).
Qed.
Lemma counts_swp tr :
  masters_ready tr ->
  swp G (volumeServerVolumeCounts m) (fun r tr' => masters_ready tr' /\ match r with
    | inl _ => True
    | inr counts => exists masters d, saw tr' (OVolume masters d VolumeServerVolumeCounts) (Ok counts) end) tr.
Proof.
  intros Hr. unfold volumeServerVolumeCounts. cbv zeta. eapply swp_seq_keep; [by apply steps_dial|].
  intros [e|d] new _; sx; [by split; auto with pass|]. split; [left; cbn; auto with pass|].
  intros [e|]; sx; [by split; auto with pass|]. split; [left; cbn; auto with pass|].
  intros [e|c]; (split; [auto with pass|]); [done|]. do 2 eexists. apply saw_last.
Qed.
Lemma gate_swp sts desired nodeFor tr :
  masters_ready tr ->
  swp G (allowedVolumeServerReplicas wired recorder m sts desired nodeFor)
    (fun r tr' => r.2 = None -> gated tr' sts desired nodeFor r.1) tr.
Proof.
  intros Hr. unfold allowedVolumeServerReplicas. destruct wired eqn:Hw; cbn [negb]; [|sx; intros _; by left].
  sx. split; [by left|]. intros [e|s]; cbv zeta.
  { destruct (IsNotFound e) eqn:He; sx; [|done]. intros _. right; left. exists e. split; [done|].
    split; [apply saw_last|done]. }
  case_bool_decide as Hge.
  { sx. intros _. right; right. exists s. split; [apply saw_last|]. cbv zeta. left. split; [lia|done]. }
  eapply swp_seq_keep; [apply counts_swp; auto with pass|]. intros [e|counts] new [Hr' Hc]; sx.
  { intros _. right; right. exists s. split; [apply saw_app_l, saw_last|]. cbv zeta. right; left. split; [lia|done]. }
  destruct Hc as (masters & d & Hc). destruct (evacuationDecision _ _ _ _) as [a ev] eqn:Hd.
  apply evacuationDecision_down in Hd as (Hrange & Hdr & _); [|lia].
  eapply swp_seq_keep with (R := fun _ _ => True).
  { case_bool_decide; [by sx|by apply steps_evacuate]. }
  intros [] new1 _. eapply swp_seq_keep; [apply steps_forget; auto with pass|]. intros [] new2 _.
  sx. intros _. right; right. exists s. split; [by do 3 apply saw_app_l; apply saw_last|]. right; right.
  split; [done|]. exists masters, d, counts. split; [by do 2 apply saw_app_l|done].
Qed.

(** ** Deletions *)
Lemma steps_delete k suffix tr :
  masters_ready tr -> removable k suffix -> steps (deleteIfExists k (gateway_key m suffix)) tr.
Proof.
  intros Hr Hk. unfold deleteIfExists, steps. sx. split; [by left|]. intros [e|o]; sx; [done|].
  split; [|by intros [e|]]. left. split; [auto with pass|]. left. exists suffix. split; [done|apply saw_last].
Qed.
Lemma steps_fail p tr : steps p tr -> steps (fail_step p) tr.
Proof. intros Hp. apply steps_seq; [done|]. intros e new. by unfold steps; sx. Qed.
Lemma steps_delete_or_fail k suffix tr :
  masters_ready tr -> removable k suffix -> steps (delete_or_fail m k suffix) tr.
Proof. intros Hr Hk. apply steps_seq; [by apply steps_delete|]. intros r new. by unfold steps; sx. Qed.
Lemma steps_delete_monitor suffix tr :
  masters_ready tr -> removable KServiceMonitor suffix -> steps (delete_monitor m suffix) tr.
Proof.
  intros Hr Hk. unfold delete_monitor, steps. sx. split; [by left|]. intros []; [|by sx].
  apply steps_delete_or_fail; auto with pass.
Qed.
Lemma steps_delete_gateway suffix tr :
  masters_ready tr -> removable KDeployment suffix -> removable KService suffix ->
  removable KIngress (suffix +:+ "-ingress") -> removable KServiceMonitor suffix ->
  steps (delete_gateway m suffix) tr.
Proof.
  intros Hr Hd Hs Hi Hm. unfold delete_gateway.
  apply steps_seq; [by apply steps_delete_or_fail|]. intros [e|] n1; [by unfold steps; sx|].
  apply steps_seq; [apply steps_delete_or_fail; auto with pass|]. intros [e|] n2; [by unfold steps; sx|].
  apply steps_seq; [apply steps_delete_or_fail; auto with pass|]. intros [e|] n3; [by unfold steps; sx|].
  apply steps_delete_monitor; auto with pass.
Qed.
Lemma steps_prune_config suffix tr :
  (forall new o, saw_kube (tr ++ new) (KGet KConfigMap (gateway_key m suffix)) (Ok o) ->
     IsControlledBy (obj_meta o) (sw_Meta m) = true ->
     stale_config (tr ++ new) KConfigMap o (UID (obj_meta o))) ->
  steps (pruneOwnedConfigMap m (name +:+ suffix)) tr.
Proof.
  intros Hs. unfold pruneOwnedConfigMap, pruneOwned, steps. sx. split; [by left|]. intros [e|o]; sx; [done|].
  destruct (IsControlledBy _ _) eqn:Hc; cbn [negb]; sx; [|done]. split; [|intros [e|]; sx; [|done]; by destruct (IsConflict e)].
  left. apply Hs; [apply saw_last|done].
Qed.

(** ** The components *)
Lemma steps_ret {A} (a : A) tr : steps (Ret a) tr.
Proof. by unfold steps; sx. Qed.
#[local] Hint Resolve steps_ret : pass.
(** An optional last step. *)
Lemma steps_if (b : bool) (p : op (option outcome)) tr :
  (b = true -> steps p tr) -> steps (if b then p else Ret None) tr.
Proof. destruct b; auto with pass. Qed.

Lemma steps_apply_issuer desired tr : declared tr CTLS KIssuer desired -> steps (apply_issuer m desired) tr.
Proof using H1.
  intros Hd. apply steps_seq; [|intros e new; apply steps_ret]. unfold applyUnstructured.
  destruct (set_owner m KIssuer desired) as [e|o] eqn:Ho; [apply steps_ret|]. unfold steps. sx. split; [by left|].
  intros [e|existing].
  - destruct (IsNotFound e); sx; [|done]. split; [|done]. left. exists CTLS, owned_issuer, desired, o.
    split_and!; auto with pass. by left.
  - cbv zeta. unfold set_owner at 1. destruct (SetControllerReference _ _ _) as [e|meta] eqn:Hm; sx; [done|].
    split; [|done]. left. exists CTLS, owned_issuer, desired, o, existing.
    split_and!; [done|auto with pass|by left|done|apply saw_last|]. apply set_controller_owners in Hm as [os ->]. by exists os.
Qed.
Lemma steps_apply_certificate desired tr :
  declared tr CTLS KCertificate desired -> steps (apply_certificate m desired) tr.
Proof using H1.
  intros Hd. apply steps_seq; [|intros e new; apply steps_ret]. unfold applyUnstructured.
  destruct (set_owner m KCertificate desired) as [e|o] eqn:Ho; [apply steps_ret|]. unfold steps. sx. split; [by left|].
  intros [e|existing].
  - destruct (IsNotFound e); sx; [|done]. split; [|done]. left. exists CTLS, owned_certificate, desired, o.
    split_and!; auto with pass. by left.
  - cbv zeta. unfold set_owner at 1. destruct (SetControllerReference _ _ _) as [e|meta] eqn:Hm; sx; [done|].
    split; [|done]. left. exists CTLS, owned_certificate, desired, o, existing.
    split_and!; [done|auto with pass|by left|done|apply saw_last|]. apply set_controller_owners in Hm as [os ->]. by exists os.
Qed.
Lemma steps_tls tr : steps (ensureTLS m cert_manager) tr.
Proof using H1.
  unfold ensureTLS. destruct (negb (tlsEnabled m)); [apply steps_ret|]. destruct (negb cert_manager); [apply steps_ret|].
  apply steps_and_then; [|intros new; apply steps_apply_certificate, d_server_certificate].
  apply steps_if. intros Hown. apply steps_and_then; [|intros n1; apply steps_and_then; [|intros n2]];
    unfold ensureSelfSignedIssuer, ensureCACertificate, ensureCAIssuer;
    [by apply steps_apply_issuer, d_selfsigned|by apply steps_apply_certificate, d_ca|by apply steps_apply_issuer, d_ca_issuer].
Qed.

Lemma counted_ready pods : runningCounter pods = Z.of_nat (length (ready_containers pods)).
Proof.
  unfold ready_containers. induction pods as [|pod pods IH]; [done|].
  change (runningCounter (pod :: pods)) with (pod_ready_containers pod + runningCounter pods)%Z. rewrite IH.
  cbn [List.filter]. unfold pod_ready_containers. case_bool_decide; cbn [flat_map]; [rewrite length_app; lia|lia].
Qed.
Lemma counted_majority master pods :
  ~ (runningCounter pods < master_quorum master)%Z ->
  (master_Replicas master < 2 * Z.of_nat (length (ready_containers pods)))%Z.
Proof.
  rewrite counted_ready. unfold master_quorum. pose proof (Z.quot_rem' (master_Replicas master) 2).
  pose proof (Z.rem_bound_abs (master_Replicas master) 2 ltac:(lia)). lia.
Qed.
Lemma master_swp tr :
  swp G (ensureMaster cert_manager m) (fun r tr' => r = None -> masters_ready tr') tr.
Proof.
  unfold ensureMaster. destruct (sw_Master spec) as [s|] eqn:Hs; [|by sx].
  assert (Hturn : forall tr, turn CMaster tr) by by left.
  unfold ensure_master. unfold and_then at 1.
  eapply swp_seq; [eapply steps_service; [by apply d_master_peer|done]|]. intros [o|] tr1 _; [by sx|].
  eapply swp_seq; [eapply steps_service; [by apply d_master_service|done]|]. intros [o|] tr2 _; [by sx|].
  eapply swp_seq with (R := fun _ _ => True).
  { unfold ensureMasterConfigMap. destruct (createMasterConfigMap m s) as [c|] eqn:Hc.
    - eapply steps_configmap; [by eapply d_master_config|done].
    - apply steps_seq; [|intros; apply steps_ret]. apply steps_prune_config. intros new o Ho Hown.
      split_and!; [done..|]. left. split; [|done]. unfold createMasterConfigMap in Hc. by destruct (hasMasterConfig m). }
  intros [o|] tr3 _; [by sx|].
  eapply swp_seq; [eapply steps_template; [by left|by apply d_master_sts|done]|]. intros [o|] tr4 _; [by sx|].
  eapply swp_seq_keep with (R := fun r tr' => r = None -> masters_ready tr').
  { unfold concurrent_start. destruct (master_ConcurrentStart s) as [[]|] eqn:Hcon; cbn [default negb];
      [sx; intros _; exists s; split; [done|by left]|..].
    all: unfold waitForMasterStatefulSet; cbv zeta; sx; (split; [by left|]); intros [e|pods]; [by sx|];
      case_bool_decide as Hq; sx; [done|]; intros _; exists s; (split; [done|]); right; exists pods;
      (split; [apply saw_last|by apply counted_majority]). }
  intros [o|] new Hr; [by sx|]. specialize (Hr eq_refl).
  destruct (present _); [|by sx]. apply steps_ready; [done|]. by apply (steps_monitor CMaster); [apply d_master_monitor|].
Qed.

(** *** Volume servers *)
Lemma set_owner_replicas s owned n :
  set_owner m KStatefulSet s = Ok owned ->
  set_owner m KStatefulSet (with_replicas n s) = Ok (with_replicas n owned) /\
  Name (sts_Meta owned) = Name (sts_Meta s).
Proof using H1.
  unfold set_owner. cbn [obj_meta]. destruct (SetControllerReference _ _ _) as [e|meta] eqn:Hm; [done|].
  intros [= <-]. split; [done|].
  apply set_controller_owners in Hm as [os ->]. done.
Qed.
Lemma steps_gated s desired nodeFor tr :
  masters_ready tr ->
  (forall tr' allowed, gated tr' (Name (sts_Meta s)) desired nodeFor allowed ->
     declared tr' CVolume KStatefulSet (with_replicas allowed s)) ->
  steps (ensure_gated wired recorder m s desired nodeFor) tr.
Proof using H1.
  intros Hr Hd. unfold ensure_gated. destruct (set_owner m KStatefulSet s) as [e|owned] eqn:Ho; [apply steps_ret|].
  eapply swp_seq_keep; [by apply gate_swp|]. intros [allowed [e|]] new Hg; cbn [fst snd] in *; [by sx|].
  destruct (set_owner_replicas _ _ allowed Ho) as [Ho' Hn].
  eapply steps_claims; [by left| |auto with pass|exact Ho']. apply Hd. rewrite <-Hn. by apply Hg.
Qed.
(** What a kind switch leaves behind goes first, in a pass of its own. *)
Lemma steps_switch k (next : op (option outcome)) tr :
  masters_ready tr -> removable k "-volume" -> (forall new, steps next (tr ++ new)) ->
  steps (do d <- deleteIfExists k (gateway_key m "-volume");
         match d with
         | (_, Some err) => Ret (ReconcileResult (Some err))
         | (true, None) => Ret (Some (Done requeueNow None))
         | (false, None) => next
         end) tr.
Proof. intros Hr Hk Hn. apply steps_seq; [by apply steps_delete|]. intros [[] [e|]] new; auto with pass. Qed.
Lemma steps_flat vol tr :
  masters_ready tr -> sw_VolumeTopology spec = ∅ -> sw_Volume spec = Some vol ->
  steps (if IsDaemonSet vol then
           if (length (vspec_HostPath vol) =? 0)%nat
           then Ret (Some (Done noResult (Some (ErrOther
                  "spec.volume.kind=DaemonSet requires spec.volume.hostPath to be set"))))
           else ensureVolumeServerDaemonSet cert_manager m vol
         else ensureVolumeServerServices m vol >>> ensureVolumeServerStatefulSet cert_manager wired recorder m vol) tr.
Proof using H1.
  intros Hr Ht Hv. destruct (IsDaemonSet vol) eqn:Hds.
  - destruct (_ =? 0)%nat eqn:Hl; [apply steps_ret|]. apply Nat.eqb_neq in Hl.
    apply steps_switch; [done| |].
    { eapply r_statefulset; [done..|]. intros Hx. by rewrite Hx in Hl. }
    intros new. eapply steps_daemonset; [by eapply d_volume_ds|right; auto with pass].
  - apply steps_and_then.
    + apply steps_for_until. intros i new Hi. eapply steps_service; [by eapply d_volume_service|right; auto with pass].
    + intros new. apply steps_switch; [auto with pass|by eapply r_daemonset|]. intros new'.
      apply steps_gated; [auto with pass|]. intros tr' allowed Hg. by eapply d_volume_sts.
Qed.
Lemma steps_topology group tr :
  masters_ready tr -> sw_VolumeTopology spec !! group.1 = Some group.2 ->
  steps (ensure_topology cert_manager wired recorder m group) tr.
Proof using H1.
  destruct group as [t [g|]]; cbn [fst snd]; intros Hr Hg; [|apply steps_ret].
  assert (Hturn : forall new, turn CVolume (tr ++ new)) by (intros; right; auto with pass).
  apply steps_and_then; [|intros n1; apply steps_and_then; [|intros n2; apply steps_and_then; [|intros n3]]].
  - eapply steps_service; [by eapply d_group_peer|by rewrite <-(app_nil_r tr)].
  - apply steps_for_until. intros i new Hi. rewrite <-app_assoc. eapply steps_service; [by eapply d_group_service|done].
  - apply steps_gated; [auto with pass|]. intros tr' allowed Ha. eapply d_group_sts; [done|].
    unfold createVolumeServerTopologyStatefulSet in Ha. by destruct (tlsVolumesAndMounts _ _).
  - apply steps_if. intros _. eapply steps_monitor; [apply d_group_monitor|]. rewrite <-!app_assoc. done.
Qed.
Lemma steps_volumes topologies tr :
  masters_ready tr -> (forall group, group ∈ topologies -> sw_VolumeTopology spec !! group.1 = Some group.2) ->
  steps (ensureVolumeServers cert_manager wired recorder m topologies) tr.
Proof using H1.
  intros Hr Ht. unfold ensureVolumeServers. destruct (0 <? _)%nat eqn:Hsize.
  - apply steps_for_until. intros group new Hin. apply steps_topology; auto with pass.
  - apply Nat.ltb_ge in Hsize. assert (Hempty : sw_VolumeTopology spec = ∅) by (apply map_size_empty_inv; lia).
    destruct (sw_Volume spec) as [vol|] eqn:Hv; [|apply steps_ret]. destruct (_ && _); [apply steps_ret|].
    apply steps_and_then; [|intros n1; apply steps_and_then; [|intros n2]].
    + eapply steps_service; [by eapply d_volume_peer|by right].
    + apply steps_flat; auto with pass.
    + apply steps_if. intros _. eapply steps_monitor; [apply d_volume_monitor|right; auto with pass].
Qed.

(** *** Filers, admin server and workers *)
Lemma steps_config c desired suffix tr :
  turn c tr ->
  match desired with
  | Some configMap => declared tr c KConfigMap configMap
  | None => forall new o, saw_kube (tr ++ new) (KGet KConfigMap (gateway_key m suffix)) (Ok o) ->
      IsControlledBy (obj_meta o) (sw_Meta m) = true -> stale_config (tr ++ new) KConfigMap o (UID (obj_meta o))
  end ->
  steps (match desired with
         | None => do err <- pruneOwnedConfigMap m (name +:+ suffix); Ret (ReconcileResult err)
         | Some configMap => ensure_owned m KConfigMap configMap CreateOrUpdateConfigMap
         end) tr.
Proof.
  destruct desired as [configMap|]; intros Ht Hd; [by eapply steps_configmap|].
  apply steps_seq; [by apply steps_prune_config|intros; apply steps_ret].
Qed.
Lemma steps_filer f tr :
  masters_ready tr -> sw_Filer spec = Some f -> steps (ensureFilerServers cert_manager m f recorder) tr.
Proof.
  intros Hr Hf. unfold ensureFilerServers.
  assert (Hturn : forall tr', masters_ready tr' -> turn CFiler tr') by by right.
  apply steps_and_then; [|intros n1; apply steps_and_then; [|intros n2; apply steps_and_then;
    [|intros n3; apply steps_and_then; [|intros n4]]]].
  - eapply steps_service; [by eapply d_filer_peer|auto].
  - eapply steps_service; [by eapply d_filer_service|auto with pass].
  - apply (steps_config CFiler); [auto with pass|]. destruct (createFilerConfigMap m f) as [c|] eqn:Hc; [by eapply d_filer_config|].
    intros new o Ho Hown. split_and!; [done..|]. right. split; [|auto with pass].
    unfold createFilerConfigMap in Hc. by destruct (hasFilerConfig m).
  - unfold ensureFilerStatefulSet. destruct (createFilerStatefulSet cert_manager m f) as [s|] eqn:Hs; [|apply steps_ret].
    destruct (set_owner m KStatefulSet s) as [e|o] eqn:Ho; [apply steps_ret|].
    eapply steps_claims; [by right|by eapply d_filer_sts|auto with pass|done].
  - apply steps_if. intros _. eapply steps_monitor; [apply d_filer_monitor|auto 6 with pass].
Qed.
Lemma steps_admin a tr :
  masters_ready tr -> sw_Admin spec = Some a -> steps (ensureAdminServers cert_manager m a) tr.
Proof.
  intros Hr Ha. unfold ensureAdminServers.
  assert (Hturn : forall tr', masters_ready tr' -> turn CAdmin tr') by by right.
  apply steps_and_then; [|intros n1; apply steps_and_then; [|intros n2; apply steps_and_then; [|intros n3]]].
  - eapply steps_service; [by eapply d_admin_peer|auto].
  - eapply steps_service; [by eapply d_admin_service|auto with pass].
  - eapply steps_template; [by right|by eapply d_admin_sts|auto with pass].
  - apply steps_if. intros _. eapply steps_monitor; [apply d_admin_monitor|auto 6 with pass].
Qed.
Lemma steps_worker w tr :
  masters_ready tr -> sw_Worker spec = Some w -> steps (ensureWorkers cert_manager m w) tr.
Proof.
  intros Hr Hw. unfold ensureWorkers.
  assert (Hturn : forall tr', masters_ready tr' -> turn CWorker tr') by by right.
  apply steps_and_then; [|intros n1; apply steps_and_then; [|intros n2]].
  - unfold cleanupLegacyWorkerStatefulSet. cbv zeta.
    apply steps_seq; [by apply (steps_delete KStatefulSet "-worker"); [|eapply r_worker]|].
    intros [d1 [e|]] n1; cbn [snd]; [apply steps_ret|].
    apply steps_seq; [by apply (steps_delete KService "-worker-peer"); [auto with pass|eapply r_worker_peer]|].
    intros [d2 [e|]] n2; cbn [fst snd]; [apply steps_ret|]. destruct (d1 || d2); apply steps_ret.
  - eapply steps_deployment; [by eapply d_worker|auto with pass].
  - apply steps_if. intros _. apply steps_and_then; [|intros n3].
    + eapply steps_service; [by eapply d_worker_service|auto with pass].
    + eapply steps_monitor; [apply d_worker_monitor|auto 6 with pass].
Qed.

(** *** Gateways *)
Lemma steps_gateway c suffix component svc dep monitor metrics port ingress tr :
  (forall tr', masters_ready tr' -> turn c tr') -> masters_ready tr ->
  declared tr c KService svc -> declared tr c KDeployment dep -> declared tr c KServiceMonitor monitor ->
  (metrics = None -> removable KServiceMonitor suffix) ->
  match enabled_ingress ingress with
  | Some i => declared tr c KIngress (buildComponentIngress m component (name +:+ suffix) port i)
  | None => removable KIngress (suffix +:+ "-ingress")
  end ->
  steps (ensure_gateway m suffix component svc dep monitor metrics port ingress) tr.
Proof.
  intros Hturn Hr Hs Hd Hm Hmetrics Hi. unfold ensure_gateway.
  apply steps_and_then; [|intros n1; apply steps_and_then; [|intros n2; apply steps_and_then; [|intros n3]]].
  - apply (steps_service c); auto.
  - apply (steps_deployment c); auto with pass.
  - destruct metrics; cbn [present]; [apply (steps_monitor c); auto with pass|].
    apply steps_fail, steps_delete_monitor; auto with pass.
  - destruct (enabled_ingress ingress) as [i|]; [apply (steps_ingress c); auto with pass|].
    apply steps_fail, steps_delete_or_fail; auto with pass.
Qed.
Lemma steps_s3 tr : masters_ready tr -> steps (ensureS3Gateway cert_manager m) tr.
Proof.
  intros Hr. unfold ensureS3Gateway.
  assert (Hdown : sw_S3 spec = None \/ sw_Filer spec = None -> steps (fail_step (deleteS3Gateway m)) tr).
  { intros Hn. apply steps_fail, steps_delete_gateway; [done|..]; (eapply r_s3; [done|]);
      rewrite !elem_of_cons; naive_solver. }
  destruct (sw_S3 spec) as [s|] eqn:Hs; [|by auto]. destruct (sw_Filer spec) as [f|] eqn:Hf; [|by auto].
  apply (steps_gateway CS3); [by right|done|by apply d_s3_service|by apply d_s3|apply d_s3_monitor|by eapply r_s3_monitor|].
  destruct (enabled_ingress _) as [i|] eqn:Hi; [by eapply d_s3_ingress|by eapply r_s3_ingress].
Qed.
Lemma steps_sftp tr : masters_ready tr -> steps (ensureSFTPGateway cert_manager m) tr.
Proof.
  intros Hr. unfold ensureSFTPGateway.
  assert (Hdown : sw_SFTP spec = None \/ sw_Filer spec = None -> steps (fail_step (deleteSFTPGateway m)) tr).
  { intros Hn. apply steps_fail, steps_delete_gateway; [done|..]; (eapply r_sftp; [done|]);
      rewrite !elem_of_cons; naive_solver. }
  destruct (sw_SFTP spec) as [s|] eqn:Hs; [|by auto]. destruct (sw_Filer spec) as [f|] eqn:Hf; [|by auto].
  apply (steps_gateway CSFTP); [by right|done|by apply d_sftp_service|by apply d_sftp|apply d_sftp_monitor|by eapply r_sftp_monitor|].
  destruct (enabled_ingress _) as [i|] eqn:Hi; [by eapply d_sftp_ingress|by eapply r_sftp_ingress].
Qed.

(** *** Ingresses *)
Lemma steps_ingresses ingresses statuses tr :
  masters_ready tr -> (forall d, d ∈ ingresses -> wanted m !! d.1 = Some d.2) ->
  steps (ensureSeaweedIngress (with_mirrors statuses m) >>>
         ensureComponentIngresses (with_mirrors statuses m) ingresses) tr.
Proof.
  intros Hr Hi. change (ensureSeaweedIngress (with_mirrors statuses m)) with (ensureSeaweedIngress m).
  change (ensureComponentIngresses (with_mirrors statuses m) ingresses) with (ensureComponentIngresses m ingresses).
  assert (Hturn : forall tr', masters_ready tr' -> turn CIngress tr') by by right.
  apply steps_and_then; [|intros n1; apply steps_and_then; [|intros n2]].
  - unfold ensureSeaweedIngress, ensureAllIngress. destruct (sw_HostSuffix spec) as [h|] eqn:Hh; [|apply steps_ret].
    destruct (negb _); [|apply steps_ret]. destruct (createAllIngress m h) as [i|] eqn:Hc; [|apply steps_ret].
    eapply steps_ingress; [by eapply d_all_ingress|auto].
  - apply steps_for_until. intros d new Hd. eapply steps_ingress; [by eapply d_ingress, Hi|auto with pass].
  - unfold steps. sx. split; [by left|]. intros [e|l]; [by sx|]. set (tr1 := _ ++ [_]).
    assert (Hl : saw_kube tr1 (KList KIngress (Some ns) (managed_labels m)) (Ok l)) by apply saw_last.
    assert (Hr1 : masters_ready tr1) by (unfold tr1; auto with pass). clearbody tr1.
    apply steps_for_until. intros ing new Hin. unfold prune_ingress.
    destruct (wanted m !! Name (ing_Meta ing)) eqn:Hw; cbn [present]; [apply steps_ret|].
    destruct (isOwnedBy _ _) eqn:Hown; cbn [negb]; [|apply steps_ret]. unfold steps. sx.
    split; [|intros [e|]; [by destruct (negb (IsNotFound e))|done]].
    left. split; [auto with pass|]. right. exists l. split; [by apply saw_app_l|done].
Qed.

(** *** The whole pass *)
Lemma steps_weaken {A} (G' : Guard) (p : op A) Q tr :
  (forall new X (e : opE X), G' (tr ++ new) X e -> G (tr ++ new) X e) -> swp G' p Q tr -> swp G p Q tr.
Proof. apply swp_weaken. Qed.
Lemma components_swp order tr :
  order m ≡ₚ map_to_list (sw_VolumeTopology spec) ->
  swp G (ensure_components cert_manager wired recorder order m) (fun r tr' => r = None -> masters_ready tr') tr.
Proof using H1.
  intros Ht. unfold ensure_components. cbv zeta. unfold and_then at 1.
  eapply swp_seq_keep; [apply steps_tls|]. intros [o|] n1 _; [by sx|]. unfold and_then at 1.
  eapply swp_seq_keep with (R := fun _ _ => True).
  { apply steps_fail. eapply steps_weaken; [|apply (ensureSecurityConfig_swp cert_manager m)]. intros new X e Hg. right. by left. }
  intros [o|] n2 _; [by sx|]. unfold and_then at 1.
  eapply swp_seq; [apply master_swp|]. intros [o|] tr1 Hr; [by sx|]. specialize (Hr eq_refl).
  apply steps_ready; [done|].
  apply steps_and_then; [apply steps_volumes; [done|]|intros n3].
  { intros [t g] Hin. rewrite Ht in Hin. by apply elem_of_map_to_list in Hin. }
  apply steps_and_then; [destruct (sw_Filer spec) eqn:?; auto with pass; apply steps_filer; auto with pass|intros n4].
  apply steps_and_then; [destruct (sw_Admin spec) eqn:?; auto with pass; apply steps_admin; auto with pass|intros n5].
  apply steps_and_then; [destruct (sw_Worker spec) eqn:?, (sw_Admin spec) eqn:?; auto with pass;
    apply steps_worker; auto 6 with pass|intros n6].
  apply steps_and_then; [apply steps_s3; auto 6 with pass|intros n7; apply steps_sftp; auto 8 with pass].
Qed.
Lemma finish_swp topologies ingresses statuses tr :
  masters_ready tr -> topologies (with_mirrors statuses m) ≡ₚ map_to_list (sw_VolumeTopology spec) ->
  ingresses (with_mirrors statuses m) ≡ₚ map_to_list (wanted m) ->
  steps (finish_pass topologies ingresses (with_mirrors statuses m)) tr.
Proof.
  intros Hr Ht Hi. apply steps_seq.
  - apply steps_ingresses; [done|]. intros [key d] Hin. rewrite Hi in Hin. by apply elem_of_map_to_list in Hin.
  - intros [o|] new; [apply steps_ret|]. eapply steps_weaken; [|eapply swp_mono; [|apply finishReconcile_swp]; done].
    intros new' X e Hg. right; right; right. split; [auto with pass|]. by exists statuses, (topologies (with_mirrors statuses m)).
Qed.
Lemma steps_pass topologies ingresses tr :
  (forall m, topologies m ≡ₚ map_to_list (sw_VolumeTopology (sw_Spec m))) ->
  (forall m, ingresses m ≡ₚ map_to_list (wanted m)) ->
  steps (reconcile_pass cert_manager wired recorder topologies ingresses m) tr.
Proof using H1.
  intros Ht Hi. eapply swp_seq; [by apply components_swp|]. intros [o|] tr1 Hr; [by sx|]. specialize (Hr eq_refl).
  eapply swp_seq_keep with (R := fun _ _ => True).
  - eapply steps_weaken; [|eapply swp_mono; [|apply ensureBackupMirrors_swp]; done].
    intros new X e Hg. right; right; left. auto with pass.
  - intros [e|statuses] new _; [by sx|]. apply finish_swp; auto with pass; [apply (Ht (with_mirrors statuses m))|apply (Hi (with_mirrors statuses m))].
Qed.
End pass.

(** ** The reconciler *)
Section reconcile.
Context `{ApiMachinery} `{OwnersLaws} `{Digest}.
Context `{SpecJSON ServiceObjSpec} `{SpecJSON PodSpec} `{SpecJSON IngressObjSpec}.
Context (cert_manager wired recorder : bool).
Context (topology_order : Seaweed -> list (string * option VolumeTopologySpec)).
Context (ingress_order : Seaweed -> list (string * desired_ingress)).
(** Go visits every entry of a map once, in any order. *)
Context (Htopologies : forall m, topology_order m ≡ₚ map_to_list (sw_VolumeTopology (sw_Spec m))).
Context (Hingresses : forall m, ingress_order m ≡ₚ map_to_list (wanted m)).

Definition reconcile_guard (key : NamespacedName) : Guard := fun tr X e =>
  match e with OKube (KGet KSeaweed key') => key' = key | _ => False end \/
  exists m, saw_kube tr (KGet KSeaweed key) (Ok m) /\ pass_guard cert_manager wired m tr X e.

End reconcile.

(** ** Evaluations *)
#[local] Instance text_services : SpecJSON ServiceObjSpec :=
  {| marshal_spec s := svc_Type s; unmarshal_spec _ := None |}.
#[local] Instance text_ingresses : SpecJSON IngressObjSpec :=
  {| marshal_spec s := default "" (ing_ClassName s); unmarshal_spec _ := None |}.
Definition host_ingress (host : string) : IngressSpec := {|
  ispec_Enabled := true; ispec_ClassName := None; ispec_Host := host; ispec_Path := ""; ispec_Annotations := ∅;
  ispec_TLS := [] |}.
Definition sample_filer (s3 : bool) : FilerSpec := {|
  filer_Component := no_component_spec; filer_Resources := no_resources; filer_Replicas := 1;
  filer_Service := None; filer_Config := None; filer_ConfigSecret := None; filer_MetricsPort := None;
  filer_IPBind := None; filer_Persistence := None; filer_MaxMB := None;
  filer_S3 := if s3 then Some {| s3c_Enabled := true; s3c_ConfigSecret := None |} else None;
  filer_IAM := true; filer_Iceberg := None; filer_Ingress := None;
  filer_S3Ingress := if s3 then Some (host_ingress "s3.example") else None; filer_GRPCIngress := None |}.
Definition sample_sftp (ingress : option IngressSpec) : SFTPSpec := {|
  sftp_Component := no_component_spec; sftp_Resources := no_resources; sftp_Replicas := 1; sftp_Service := None;
  sftp_Port := None; sftp_MetricsPort := None; sftp_UserStoreSecret := None; sftp_HostKeysSecret := None;
  sftp_AuthMethods := None; sftp_MaxAuthTries := None; sftp_Ingress := ingress |}.
(** One master, a volume server and the filer, with the SFTP gateway given. *)
Definition filer_cluster (filer : FilerSpec) (sftp : option SFTPSpec) : Seaweed :=
  let s := cluster_spec (minimal_master 1) (Some (minimal_volume 1)) ∅ None None None in {|
  sw_Meta := sample_meta "ns" "w" 1;
  sw_Spec := {|
    sw_TLS := sw_TLS s; sw_SecurityConfig := sw_SecurityConfig s; sw_MetricsAddress := sw_MetricsAddress s;
    sw_Image := "weed"; sw_Version := sw_Version s; sw_Master := sw_Master s; sw_Volume := sw_Volume s;
    sw_VolumeTopology := sw_VolumeTopology s; sw_Filer := Some filer; sw_Admin := sw_Admin s;
    sw_Worker := sw_Worker s; sw_S3 := sw_S3 s; sw_SFTP := sftp; sw_Backup := sw_Backup s;
    sw_SchedulerName := sw_SchedulerName s; sw_PVReclaimPolicy := sw_PVReclaimPolicy s;
    sw_ImagePullPolicy := sw_ImagePullPolicy s; sw_ImagePullSecrets := sw_ImagePullSecrets s;
    sw_EnablePVReclaim := sw_EnablePVReclaim s; sw_HostNetwork := sw_HostNetwork s; sw_Affinity := sw_Affinity s;
    sw_NodeSelector := sw_NodeSelector s; sw_Annotations := sw_Annotations s; sw_Labels := sw_Labels s;
    sw_Tolerations := sw_Tolerations s; sw_StatefulSetUpdateStrategy := sw_StatefulSetUpdateStrategy s;
    sw_VolumeServerDiskCount := sw_VolumeServerDiskCount s; sw_HostSuffix := sw_HostSuffix s;
    sw_LoggingArgs := sw_LoggingArgs s |};
  sw_Status := no_status |}.
Definition sample_cluster (s3 : bool) (sftp : option SFTPSpec) : Seaweed := filer_cluster (sample_filer s3) sftp.
Definition ready_master : Pod := {|
  p_Meta := set_meta (labelsForMaster "w") ∅ (sample_meta "ns" "w-master-0" 1); p_Phase := PodRunning;
  p_ContainersReady := [true] |}.
Definition groups_of (m : Seaweed) := map_to_list (sw_VolumeTopology (sw_Spec m)).
Definition ingresses_of (m : Seaweed) := map_to_list (wanted m).
Definition sample_key : NamespacedName := {| nn_Namespace := "ns"; nn_Name := "w" |}.
Definition cluster_pass (s : Sim) : Sim * trace * outcome :=
  run (tracing sim) (cluster_Reconcile false true false groups_of ingresses_of sample_key) (s, []).
(** The names a state has of a kind, and those a trace created or deleted. *)
Definition names_in (k : Kind) (s : Sim) : list string := map (fun o => Name (obj_meta o)) (sim_objs s k).
Definition written (k : Kind) (ev : event) : list (bool * string) :=
  match ev_call ev with
  | OKube (KCreate k' o) => if bool_decide (k' = k) then [(true, Name (obj_meta o))] else []
  | OKube (KDelete k' o) => if bool_decide (k' = k) then [(false, Name (obj_meta o))] else []
  | _ => []
  end.
Definition sample_state (m : Seaweed) (pods : list Pod) : Sim :=
  set_objs KPod pods (set_objs KSeaweed [m] sim_empty).


(** The Ingress of the SFTP gateway is created by the gateway's step and not among
    the wanted ones, so that the same pass deletes it again. *)
Theorem sftp_ingress_pruned :
  let x := cluster_pass (sample_state (sample_cluster false (Some (sample_sftp (Some (host_ingress "sftp.example")))))
                           [ready_master]) in
  flat_map (written KIngress) x.1.2 = [(true, "w-sftp-ingress"); (false, "w-sftp-ingress")] /\
  names_in KIngress x.1.1 = [].
Proof. by vm_compute. Qed.
(** The Ingress of the S3 endpoint of the filer has the name of the standalone
    gateway's: every pass deletes it in the teardown of the gateway and creates it
    again. *)
Theorem embedded_s3_ingress_recreated :
  let first := cluster_pass (sample_state (sample_cluster true None) [ready_master]) in
  let second := cluster_pass first.1.1 in
  flat_map (written KIngress) first.1.2 = [(true, "w-s3-ingress")] /\
  flat_map (written KIngress) second.1.2 = [(false, "w-s3-ingress"); (true, "w-s3-ingress")].
Proof. by vm_compute. Qed.
