(* ===== verification/ClusterShapes.v ===== *)
(** * The shape of what a cluster declares

    Well-formedness of the workloads of every component, and the Services in front
    of them: facts about the objects the builders make, whatever the spec says. *)
From S2P Require Import Prelude Prog CoreTypes ApiTypes Effects Machinery Sim Trace.
From S2P Require Import Cluster VolumeEvac Upsert SecurityConfig GoPath Component BackupMirror.
From S2P Require Import VolumeClaims ClusterStatus.
From S2P Require Import Workloads MasterServers VolumeServers FilerServers AdminServers.
From S2P Require Import Ingresses Gateways Certificates.
From S2P Require Import ClusterController ClusterSafety.

(** ** Well-formed pods *)
Definition probe_port (p : Probe) : option Z :=
  match probe_Handler p with HTTPGet _ port _ | TCPSocket port => Some port | _ => None end.
Definition port_numbers (c : Container) : list Z := map cport_ContainerPort (c_Ports c).
(** Every mount names one of [sources]. *)
Definition resolved (sources : list string) (mounts : list VolumeMount) : Prop :=
  Forall (fun mount => vm_Name mount ∈ sources) mounts.
Definition probed (ports : list Z) (p : option Probe) : Prop := 
  forall x port, p = Some x -> probe_port x = Some port -> port ∈ ports.
Definition paths (mounts : list VolumeMount) : list string := map vm_MountPath mounts.
(** The mounts the operator adds to those of the user lead to [sources]; the user's are
    all there; and no path is mounted twice, unless the user repeats one or the operator's
    own paths are not [apart]. *)
Record container_wf (apart : Prop) (user : list VolumeMount) (sources : list string) (c : Container) : Prop := {
  wf_mounts mount : mount ∈ c_VolumeMounts c -> mount ∈ user \/ vm_Name mount ∈ sources;
  wf_user : user ⊆ c_VolumeMounts c;
  wf_paths : apart -> NoDup (paths user) -> NoDup (paths (c_VolumeMounts c));
  wf_readiness : probed (port_numbers c) (c_ReadinessProbe c);
  wf_liveness : probed (port_numbers c) (c_LivenessProbe c);
}.
(** The own container of a workload is the first one. *)
Definition workload_wf (apart : Prop) (user : list VolumeMount) (selector labels : gmap string string) (pod : PodSpec)
    (claims : list PersistentVolumeClaim) : Prop :=
  selector ⊆ labels /\
  exists main sidecars, pod_Containers pod = main :: sidecars /\
    container_wf apart user (map vol_Name (pod_Volumes pod) ++ map pvc_Name claims) main.

Lemma mounts_resolved_mono a b mounts : (forall x, x ∈ a -> x ∈ b) -> resolved a mounts -> resolved b mounts.
Proof. intros Hab Hm. eapply Forall_impl; [exact Hm|]. auto. Qed.
Lemma mergePodLabels_selector selector user : selector ⊆ mergePodLabels selector user.
Proof. unfold mergePodLabels. case_bool_decide; [done|]. apply map_union_subseteq_l. Qed.
Lemma merged_mount base override mount :
  mount ∈ mergeVolumeMounts base override <->
  mount ∈ override \/ mount ∈ base /\ vm_MountPath mount ∉ map vm_MountPath override.
Proof.
  unfold mergeVolumeMounts. rewrite elem_of_app, list_elem_of_In, filter_In, <-list_elem_of_In.
  rewrite negb_true_iff, bool_decide_eq_false. tauto.
Qed.
Lemma filtered_paths (P : VolumeMount -> bool) base : paths (List.filter P base) `sublist_of` paths base.
Proof. induction base as [|mount base IH]; [done|]. cbn. destruct (P mount); by constructor. Qed.
Lemma merged_paths base override :
  NoDup (paths base) -> NoDup (paths override) -> NoDup (paths (mergeVolumeMounts base override)).
Proof.
  intros Hb Ho. unfold mergeVolumeMounts, paths. rewrite map_app. apply NoDup_app. split; [|split; [|done]].
  - by eapply sublist_NoDup, filtered_paths.
  - intros path [mount [-> Hm]]%list_elem_of_fmap. rewrite list_elem_of_In, filter_In in Hm. destruct Hm as [_ Hm].
    by apply negb_true_iff, bool_decide_eq_false in Hm.
Qed.
Lemma merged_wf apart sources base override c :
  c_VolumeMounts c = mergeVolumeMounts base override -> resolved sources base -> (apart -> NoDup (paths base)) ->
  probed (port_numbers c) (c_ReadinessProbe c) -> probed (port_numbers c) (c_LivenessProbe c) ->
  container_wf apart override sources c.
Proof.
  intros Hc Hb Hp Hr Hl. split; [| | |done|done]; rewrite Hc.
  - intros mount [?|[Hm _]]%merged_mount; [by left|right]. by eapply Forall_forall in Hb.
  - intros mount Hm. apply merged_mount. by left.
  - intros Ha. by apply merged_paths, Hp.
Qed.
Lemma override_port p o : probe_port (applyProbeOverride p o) = probe_port p.
Proof. by destruct o. Qed.
Lemma liveness_override_port p o : probe_port (applyLivenessProbeOverride p o) = probe_port p.
Proof. by destruct o. Qed.
Lemma probed_fmap ports p f : (forall x, probe_port (f x) = probe_port x) -> probed ports p -> probed ports (f <$> p).
Proof. intros Hf Hp x port Hx. destruct p as [y|]; simplify_eq/=. rewrite Hf. by apply Hp. Qed.

Lemma component_wf apart a links volumes claims name resources mounts script ports readiness liveness :
  resolved (map vol_Name volumes ++ map pvc_Name claims) mounts -> (apart -> NoDup (paths mounts)) ->
  probed (map cport_ContainerPort ports) readiness -> probed (map cport_ContainerPort ports) liveness ->
  exists main sidecars,
    pod_Containers (component_pod a links volumes
      (component_container a name resources mounts script ports readiness liveness)) = main :: sidecars /\
    container_wf apart (acc_VolumeMounts a)
      (map vol_Name (pod_Volumes (component_pod a links volumes
        (component_container a name resources mounts script ports readiness liveness))) ++ map pvc_Name claims) main.
Proof.
  intros Hm Hp Hr Hl. do 2 eexists. split; [done|]. apply (merged_wf _ _ mounts); [done| |done| |].
  - cbn [component_pod fill_pod pod_Volumes]. eapply mounts_resolved_mono; [|exact Hm]. intros x.
    rewrite map_app, !elem_of_app. tauto.
  - apply probed_fmap; [intros; apply override_port|done].
  - apply probed_fmap; [intros; apply liveness_override_port|done].
Qed.

(** ** The volumes and mounts of the components *)
Definition disk_resolved (d : list Volume * list VolumeMount) : Prop := resolved (map vol_Name d.1) d.2.
Section disks.
Context (cert_manager : bool) (m : Seaweed).
Lemma tls_resolved : disk_resolved (tlsVolumesAndMounts cert_manager m).
Proof.
  unfold disk_resolved, tlsVolumesAndMounts. destruct (securityConfigNeeded m), (tlsEffective cert_manager m);
    repeat constructor; set_solver.
Qed.
Lemma master_config_resolved : disk_resolved (master_config_disk m).
Proof.
  unfold disk_resolved, master_config_disk. destruct (masterConfigSecret m); [|destruct (hasMasterConfig m)];
    repeat constructor; set_solver.
Qed.
Lemma filer_config_resolved : disk_resolved (filer_config_disk m).
Proof.
  unfold disk_resolved, filer_config_disk. destruct (filerConfigSecret m); [|destruct (hasFilerConfig m)];
    repeat constructor; set_solver.
Qed.
Lemma filer_users_resolved f : disk_resolved (filer_users_disk f).
Proof. unfold disk_resolved, filer_users_disk. destruct (s3_users f); repeat constructor; set_solver. Qed.
Lemma admin_resolved a : disk_resolved (admin_credentials_disk a).
Proof. unfold disk_resolved, admin_credentials_disk. destruct (admin_credentials a); repeat constructor; set_solver. Qed.
Lemma worker_resolved w : disk_resolved (worker_disk w).
Proof.
  unfold disk_resolved, worker_disk. destruct (worker_data w) as [[p path]|]; [|constructor].
  destruct (ps_ExistingClaim p); repeat constructor; set_solver.
Qed.
Lemma s3_resolved s : disk_resolved (s3_config_disk s).
Proof.
  unfold disk_resolved, s3_config_disk. destruct (s3gw_ConfigSecret s); [destruct (negb _)|]; repeat constructor; set_solver.
Qed.
Lemma sftp_users_resolved s : disk_resolved (sftp_users_disk s).
Proof.
  unfold disk_resolved, sftp_users_disk. destruct (sftp_UserStoreSecret s); [destruct (_ && _)|]; repeat constructor; set_solver.
Qed.
Lemma sftp_keys_resolved s : disk_resolved (sftp_keys_disk s).
Proof. unfold disk_resolved, sftp_keys_disk. destruct (host_keys s); repeat constructor; set_solver. Qed.

Definition claims_resolved (d : list Volume * list VolumeMount * list PersistentVolumeClaim) : Prop :=
  resolved (map vol_Name d.1.1 ++ map pvc_Name d.2) d.1.2.
Lemma master_data_resolved s : claims_resolved (master_data_disk m s).
Proof.
  unfold claims_resolved, master_data_disk. destruct (masterDataDir s), (master_Persistence s) as [p|]; try constructor.
  all: destruct (ps_ExistingClaim p); repeat constructor.
Qed.
Lemma filer_data_resolved f d : filer_data_disk m f = Some d -> claims_resolved d.
Proof.
  unfold filer_data_disk, claims_resolved. destruct (filer_Persistence f) as [p|]; [|by intros [= <-]; constructor].
  destruct (negb _); [by intros [= <-]; constructor|].
  destruct (ps_ExistingClaim p), (ps_MountPath p), (ps_SubPath p); try done; intros [= <-]; repeat constructor; set_solver.
Qed.
Definition volumes_resolved (d : volumeServerDisks) : Prop := resolved (map vol_Name (disk_volumes d)) (disk_mounts d).
Lemma claim_disks_resolved claim maxArg : volumes_resolved (claim_disks m claim maxArg).
Proof.
  unfold volumes_resolved, resolved, claim_disks. cbn. rewrite map_map. apply Forall_forall.
  intros mount [i [-> Hi]]%list_elem_of_fmap. cbn. by apply (list_elem_of_fmap_2 (fun i => mount_name i)).
Qed.
Lemma flat_disks_resolved vol : volumes_resolved (volumeServerDisksFor m vol).
Proof.
  unfold volumeServerDisksFor. destruct (_ <? _)%nat; [|apply claim_disks_resolved].
  unfold volumes_resolved, resolved, hostPathVolumeDisks. cbn. apply Forall_forall.
  intros mount [i [-> Hi]]%list_elem_of_fmap. cbn.
  assert (Hn : forall n l, map vol_Name (zip_with host_volume (seq n (length l)) l) = map mount_name (seq n (length l))).
  { intros n l. revert n. induction l as [|p l IH]; intros n; [done|]. cbn. by rewrite IH. }
  rewrite Hn. by apply list_elem_of_fmap_2.
Qed.
End disks.

(** ** The paths of the mounts *)
(** The paths at which the operator itself mounts configuration. *)
Definition config_paths : list string := [componentConfigDir; securityConfigMountPath; tlsMountPath; "/etc/sw"].
Lemma app_char_inj c s1 s2 : s1 +:+ String c "" = s2 +:+ String c "" -> s1 = s2.
Proof.
  revert s2; induction s1 as [|a s1 IH]; intros [|b s2]; try done; cbn.
  - intros [= _ H]. by destruct s2.
  - intros [= _ H]. by destruct s1.
  - intros [= -> H]. f_equal. by apply IH.
Qed.
Lemma disk_paths numbers : NoDup numbers -> NoDup (paths (map disk_mount numbers)).
Proof.
  intros Hn. unfold paths. rewrite map_map. apply (NoDup_fmap_2_strong (fun i => vm_MountPath (disk_mount i))); [|done].
  intros i j _ _. cbn. unfold data_dir. intros H%app_char_inj%string_app_inj. apply (inj fmt_d) in H. lia.
Qed.
Section data.
Context (m : Seaweed).
(** The path of the persistence that the spec chooses. *)
Definition data_path (c : component) : option string :=
  match c with
  | CMaster => s ← sw_Master (sw_Spec m); masterDataDir s
  | CFiler => f ← sw_Filer (sw_Spec m); p ← filer_Persistence f; if ps_Enabled p then ps_MountPath p else None
  | CWorker => w ← sw_Worker (sw_Spec m); snd <$> worker_data w
  | _ => None
  end.
Definition paths_apart (c : component) : Prop :=
  match data_path c with Some path => path ∉ config_paths | None => True end.
Definition chosen (path : option string) : list string := match path with Some path => [path] | None => [] end.
Lemma chosen_apart c fixed :
  NoDup fixed -> Forall (fun path => path ∈ config_paths) fixed -> paths_apart c -> NoDup (fixed ++ chosen (data_path c)).
Proof.
  intros Hn Hf Ha. unfold paths_apart in Ha. destruct (data_path c) as [path|]; [|by rewrite app_nil_r].
  apply NoDup_app. split; [done|]. split; [|apply NoDup_singleton].
  intros path' Hin ->%list_elem_of_singleton. eapply Forall_forall in Hf; [by apply Ha|done].
Qed.
End data.
Lemma laid_out a b xs ys : paths a `sublist_of` xs -> paths b `sublist_of` ys -> paths (a ++ b) `sublist_of` xs ++ ys.
Proof. intros Ha Hb. unfold paths. rewrite map_app. by apply sublist_app. Qed.

(** ** Every workload *)
Section shapes.
Context (cert_manager wired : bool) (m : Seaweed).
Abbreviation spec := (sw_Spec m).
(** The mounts the spec adds to the container of a component. *)
Definition own_mounts (c : component) : list VolumeMount :=
  match c with
  | CMaster => default [] ((fun s => acc_VolumeMounts (BaseMasterSpec m s)) <$> sw_Master spec)
  | CVolume => acc_VolumeMounts (BaseVolumeSpec m)
  | CFiler => default [] ((fun s => acc_VolumeMounts (BaseFilerSpec m s)) <$> sw_Filer spec)
  | CAdmin => default [] ((fun s => acc_VolumeMounts (BaseAdminSpec m s)) <$> sw_Admin spec)
  | CWorker => default [] ((fun s => acc_VolumeMounts (BaseWorkerSpec m s)) <$> sw_Worker spec)
  | CS3 => default [] ((fun s => acc_VolumeMounts (BaseS3Spec m s)) <$> sw_S3 spec)
  | CSFTP => default [] ((fun s => acc_VolumeMounts (BaseSFTPSpec m s)) <$> sw_SFTP spec)
  | CTLS | CIngress => []
  end.
Definition sts_wf (apart : Prop) (user : list VolumeMount) (o : StatefulSet) : Prop :=
  workload_wf apart user (sts_Selector o) (sts_TemplateLabels o) (sts_Pod o) (sts_VolumeClaimTemplates o).
Definition dep_wf (apart : Prop) (user : list VolumeMount) (o : Deployment) : Prop :=
  workload_wf apart user (dep_Selector o) (dep_TemplateLabels o) (dep_Pod o) [].
Definition ds_wf (apart : Prop) (user : list VolumeMount) (o : DaemonSet) : Prop :=
  workload_wf apart user (ds_Selector o) (ds_TemplateLabels o) (ds_Pod o) [].
Definition shape_wf (apart : Prop) (user : list VolumeMount) (k : Kind) : Obj k -> Prop :=
  match k with
  | KStatefulSet => sts_wf apart user
  | KDeployment => dep_wf apart user
  | KDaemonSet => ds_wf apart user
  | _ => fun _ => True
  end.

(** Mounts of several disks, against the volumes of all of them. *)
Lemma resolved_app names a b : resolved names a -> resolved names b -> resolved names (a ++ b).
Proof. intros Ha Hb. by apply Forall_app. Qed.
Lemma disk_in (d : list Volume * list VolumeMount) volumes claims :
  disk_resolved d -> d.1 ⊆ volumes -> resolved (map vol_Name volumes ++ map pvc_Name claims) d.2.
Proof.
  intros Hd Hs. eapply mounts_resolved_mono; [|exact Hd]. intros x [v [-> Hv]]%list_elem_of_fmap.
  apply elem_of_app. left. apply (list_elem_of_fmap_2 vol_Name). by apply Hs.
Qed.
Lemma probed_some ports p port : probe_port p = Some port -> port ∈ ports -> probed ports (Some p).
Proof. intros Hp Hin x n [= <-]. rewrite Hp. by intros [= <-]. Qed.

(** The paths of a disk are among those given. *)
Ltac sub := cbn; repeat first [apply sublist_nil_l | apply sublist_skip | apply sublist_cons].
Lemma tls_paths : paths (tlsVolumesAndMounts cert_manager m).2 `sublist_of` [securityConfigMountPath; tlsMountPath].
Proof.
  unfold tlsVolumesAndMounts. destruct (securityConfigNeeded m), (tlsEffective cert_manager m); cbn;
    sub.
Qed.
Lemma master_config_paths : paths (master_config_disk m).2 `sublist_of` [componentConfigDir].
Proof. unfold master_config_disk. destruct (masterConfigSecret m); [|destruct (hasMasterConfig m)]; cbn; sub. Qed.
Lemma filer_config_paths : paths (filer_config_disk m).2 `sublist_of` [componentConfigDir].
Proof. unfold filer_config_disk. destruct (filerConfigSecret m); [|destruct (hasFilerConfig m)]; cbn; sub. Qed.
Lemma filer_users_paths f : paths (filer_users_disk f).2 `sublist_of` ["/etc/sw"].
Proof. unfold filer_users_disk. destruct (s3_users f); cbn; sub. Qed.
Lemma admin_paths a : paths (admin_credentials_disk a).2 `sublist_of` [adminCredentialsMountPath].
Proof. unfold admin_credentials_disk. destruct (admin_credentials a); cbn; sub. Qed.
Lemma s3_paths s : paths (s3_config_disk s).2 `sublist_of` ["/etc/sw"].
Proof. unfold s3_config_disk. destruct (s3gw_ConfigSecret s); [destruct (negb _)|]; cbn; sub. Qed.
Lemma sftp_paths s :
  paths (sftp_users_disk s).2 `sublist_of` ["/etc/sw"] /\ paths (sftp_keys_disk s).2 `sublist_of` ["/etc/sw/ssh"].
Proof.
  unfold sftp_users_disk, sftp_keys_disk. destruct (sftp_UserStoreSecret s); [destruct (_ && _)|]; destruct (host_keys s);
    (split; sub).
Qed.
Lemma master_data_paths s : paths (master_data_disk m s).1.2 `sublist_of` chosen (masterDataDir s).
Proof.
  unfold master_data_disk. destruct (masterDataDir s), (master_Persistence s) as [p|]; try apply sublist_nil_l.
  by destruct (ps_ExistingClaim p).
Qed.
Lemma filer_data_paths f d :
  sw_Filer spec = Some f -> filer_data_disk m f = Some d -> paths d.1.2 `sublist_of` chosen (data_path m CFiler).
Proof.
  intros Hf. cbn [data_path]. rewrite Hf. cbn [mbind option_bind]. unfold filer_data_disk.
  destruct (filer_Persistence f) as [p|]; cbn [mbind option_bind]; [|by intros [= <-]].
  destruct (ps_Enabled p); cbn [negb]; [|by intros [= <-]].
  destruct (ps_ExistingClaim p), (ps_MountPath p), (ps_SubPath p); try done; by intros [= <-].
Qed.
Lemma worker_paths w : paths (worker_disk w).2 `sublist_of` chosen (snd <$> worker_data w).
Proof. unfold worker_disk. destruct (worker_data w) as [[p path]|]; [|done]. by destruct (ps_ExistingClaim p). Qed.
(** Disks of volume servers, beside the configuration. *)
Lemma disks_laid_out numbers tm :
  NoDup numbers -> paths tm `sublist_of` [securityConfigMountPath; tlsMountPath] ->
  NoDup (paths (map disk_mount numbers ++ tm)).
Proof.
  intros Hn Ht. unfold paths. rewrite map_app. apply NoDup_app. split; [by apply disk_paths|].
  assert (Hf : NoDup [securityConfigMountPath; tlsMountPath]) by by apply (bool_decide_unpack _).
  split; [|by eapply sublist_NoDup].
  intros path [mount [-> [i [-> _]]%list_elem_of_fmap]]%list_elem_of_fmap Hp.
  apply (elem_of_sublist _ _ _ Hp) in Ht. clear Hp. rename Ht into Hp.
  rewrite !elem_of_cons, elem_of_nil in Hp. by destruct Hp as [?|[?|[]]].
Qed.
Ltac from_disk :=
  match goal with Hd : disk_resolved (?v, ?m) |- resolved _ ?m => apply (disk_in (v, m)); [exact Hd|cbn; set_solver] end.
Lemma apart_nodup c fixed mounts :
  bool_decide (NoDup fixed) && bool_decide (Forall (fun path => path ∈ config_paths) fixed) = true ->
  paths mounts `sublist_of` fixed ++ chosen (data_path m c) -> paths_apart m c -> NoDup (paths mounts).
Proof.
  intros [Hn%bool_decide_eq_true Hf%bool_decide_eq_true]%andb_true_iff Hm Ha.
  eapply sublist_NoDup; [by apply (chosen_apart m c fixed)|done].
Qed.
Ltac hits := eapply probed_some; [reflexivity|cbn; set_solver].

Lemma master_sts_wf s :
  sw_Master spec = Some s ->
  sts_wf (paths_apart m CMaster) (acc_VolumeMounts (BaseMasterSpec m s)) (createMasterStatefulSet cert_manager m s).
Proof.
  intros Hs. unfold sts_wf, createMasterStatefulSet.
  pose proof (master_config_resolved m). pose proof (master_config_paths). destruct (master_config_disk m) as [cv cm].
  pose proof (tls_resolved cert_manager m). pose proof (tls_paths). destruct (tlsVolumesAndMounts cert_manager m) as [tv tm].
  pose proof (master_data_resolved m s) as Hd. pose proof (master_data_paths s) as Hp.
  destruct (master_data_disk m s) as [[dv dm] claims].
  split; [apply mergePodLabels_selector|]. apply component_wf; [| |hits..].
  - repeat apply resolved_app; [from_disk..|]. eapply mounts_resolved_mono; [|exact Hd].
    intros x. cbn. rewrite !map_app, !elem_of_app. tauto.
  - apply (apart_nodup _ ([componentConfigDir] ++ [securityConfigMountPath; tlsMountPath])); [done|].
    cbn [data_path]. rewrite Hs. rewrite <-app_assoc. by repeat apply laid_out.
Qed.
Lemma filer_sts_wf f s :
  sw_Filer spec = Some f -> createFilerStatefulSet cert_manager m f = Some s ->
  sts_wf (paths_apart m CFiler) (acc_VolumeMounts (BaseFilerSpec m f)) s.
Proof.
  intros Hf. unfold createFilerStatefulSet, sts_wf. destruct (filer_data_disk m f) as [d|] eqn:Hd; [|done].
  pose proof (filer_data_paths f d Hf Hd) as Hp. apply filer_data_resolved in Hd. intros [= <-]. unfold filer_statefulset.
  pose proof (filer_config_resolved m). pose proof filer_config_paths. destruct (filer_config_disk m) as [cv cm].
  pose proof (tls_resolved cert_manager m). pose proof tls_paths. destruct (tlsVolumesAndMounts cert_manager m) as [tv tm].
  pose proof (filer_users_resolved f). pose proof (filer_users_paths f). destruct (filer_users_disk f) as [uv um].
  destruct d as [[dv dm] claims].
  split; [apply mergePodLabels_selector|]. apply component_wf; [| |hits..].
  - repeat apply resolved_app; [from_disk..|]. eapply mounts_resolved_mono; [|exact Hd].
    intros x. cbn. rewrite !map_app, !elem_of_app. tauto.
  - apply (apart_nodup _ ([componentConfigDir] ++ [securityConfigMountPath; tlsMountPath] ++ ["/etc/sw"])); [done|].
    rewrite <-!app_assoc. by repeat apply laid_out.
Qed.
Lemma admin_sts_wf a :
  sts_wf (paths_apart m CAdmin) (acc_VolumeMounts (BaseAdminSpec m a)) (createAdminStatefulSet cert_manager m a).
Proof.
  unfold sts_wf, createAdminStatefulSet.
  pose proof (tls_resolved cert_manager m). pose proof tls_paths as Ht. destruct (tlsVolumesAndMounts cert_manager m) as [tv tm].
  pose proof (admin_resolved a). pose proof (admin_paths a) as Hp. destruct (admin_credentials_disk a) as [sv sm].
  split; [apply mergePodLabels_selector|]. apply component_wf; [| |hits..]; [repeat apply resolved_app; from_disk|].
  intros _. eapply sublist_NoDup; [|exact (laid_out _ _ _ _ Ht Hp)]. by apply (bool_decide_unpack _).
Qed.
Lemma worker_dep_wf w :
  sw_Worker spec = Some w ->
  dep_wf (paths_apart m CWorker) (acc_VolumeMounts (BaseWorkerSpec m w)) (createWorkerDeployment cert_manager m w).
Proof.
  intros Hw. unfold dep_wf, createWorkerDeployment.
  pose proof (worker_resolved w). pose proof (worker_paths w) as Hp. destruct (worker_disk w) as [dv dm].
  pose proof (tls_resolved cert_manager m). pose proof tls_paths. destruct (tlsVolumesAndMounts cert_manager m) as [tv tm].
  split; [apply mergePodLabels_selector|]. unfold worker_ports. apply component_wf.
  - repeat apply resolved_app; from_disk.
  - intros Ha. unfold paths. rewrite map_app, Permutation_app_comm, <-map_app. revert Ha.
    apply (apart_nodup _ [securityConfigMountPath; tlsMountPath]); [done|]. cbn [data_path]. rewrite Hw. by apply laid_out.
  - destruct (worker_MetricsPort w); [hits|done].
  - destruct (worker_MetricsPort w); [hits|done].
Qed.
Lemma s3_dep_wf s :
  dep_wf (paths_apart m CS3) (acc_VolumeMounts (BaseS3Spec m s)) (buildS3Deployment cert_manager m s).
Proof.
  unfold dep_wf, buildS3Deployment.
  pose proof (s3_resolved s). pose proof (s3_paths s) as Hp. destruct (s3_config_disk s) as [cv cm].
  pose proof (tls_resolved cert_manager m). pose proof tls_paths as Ht. destruct (tlsVolumesAndMounts cert_manager m) as [tv tm].
  split; [apply mergePodLabels_selector|]. apply component_wf; [| |hits..]; [repeat apply resolved_app; from_disk|].
  intros _. eapply sublist_NoDup; [|exact (laid_out _ _ _ _ Hp Ht)]. by apply (bool_decide_unpack _).
Qed.
Lemma sftp_dep_wf s :
  dep_wf (paths_apart m CSFTP) (acc_VolumeMounts (BaseSFTPSpec m s)) (buildSFTPDeployment cert_manager m s).
Proof.
  unfold dep_wf, buildSFTPDeployment. pose proof (sftp_users_resolved s). pose proof (sftp_keys_resolved s).
  pose proof (sftp_paths s) as [Hu Hk]. destruct (sftp_users_disk s) as [uv um], (sftp_keys_disk s) as [kv km].
  pose proof (tls_resolved cert_manager m). pose proof tls_paths as Ht. destruct (tlsVolumesAndMounts cert_manager m) as [tv tm].
  split; [apply mergePodLabels_selector|]. apply component_wf; [| |hits..]; [repeat apply resolved_app; from_disk|].
  intros _. eapply sublist_NoDup; [|exact (laid_out _ _ _ _ Hu (laid_out _ _ _ _ Hk Ht))]. by apply (bool_decide_unpack _).
Qed.
Lemma flat_pod_wf v claims ip :
  exists main sidecars, pod_Containers (buildFlatVolumePodSpec cert_manager m v (volumeServerDisksFor m v) ip) = main :: sidecars /\
    container_wf (paths_apart m CVolume) (acc_VolumeMounts (BaseVolumeSpec m))
      (map vol_Name (pod_Volumes (buildFlatVolumePodSpec cert_manager m v (volumeServerDisksFor m v) ip)) ++
       map pvc_Name claims) main.
Proof.
  unfold buildFlatVolumePodSpec. pose proof (flat_disks_resolved m v) as Hd.
  pose proof (tls_resolved cert_manager m). pose proof tls_paths as Ht. destruct (tlsVolumesAndMounts cert_manager m) as [tv tm].
  apply component_wf; [| |hits..].
  - apply resolved_app; [|from_disk]. eapply mounts_resolved_mono; [|exact Hd].
    intros x. rewrite !map_app, !elem_of_app. tauto.
  - intros _. unfold volumeServerDisksFor. destruct (_ <? _)%nat; cbn; (apply disks_laid_out; [apply NoDup_seq|exact Ht]).
Qed.
Lemma flat_sts_wf v :
  sts_wf (paths_apart m CVolume) (acc_VolumeMounts (BaseVolumeSpec m)) (createVolumeServerStatefulSet cert_manager m v).
Proof. split; [apply mergePodLabels_selector|apply flat_pod_wf]. Qed.
Lemma flat_ds_wf v :
  ds_wf (paths_apart m CVolume) (acc_VolumeMounts (BaseVolumeSpec m)) (createVolumeServerDaemonSet cert_manager m v).
Proof. split; [apply mergePodLabels_selector|apply flat_pod_wf]. Qed.
Lemma group_sts_wf t g : sts_wf (paths_apart m CVolume) [] (createVolumeServerTopologyStatefulSet cert_manager m t g).
Proof.
  unfold sts_wf, createVolumeServerTopologyStatefulSet.
  pose proof (tls_resolved cert_manager m). pose proof tls_paths as Ht. destruct (tlsVolumesAndMounts cert_manager m) as [tv tm].
  split; [apply mergePodLabels_selector|]. do 2 eexists. split; [done|].
  apply (merged_wf _ _ (disk_mounts (topology_disks m g) ++ tm)).
  - cbn. unfold mergeVolumeMounts. rewrite app_nil_r. symmetry. apply List.forallb_filter_id, forallb_forall. done.
  - apply resolved_app; [|from_disk]. eapply mounts_resolved_mono; [|apply claim_disks_resolved].
    intros x. cbn [component_statefulset sts_Pod fill_pod pod_Volumes]. rewrite !map_app, !elem_of_app. tauto.
  - intros _. apply disks_laid_out; [apply NoDup_seq|exact Ht].
  - apply probed_fmap; [intros; apply override_port|]. hits.
  - apply probed_fmap; [intros; apply liveness_override_port|]. hits.
Qed.

(** A workload without mounts of the user. *)
Definition of_group (k : Kind) : Obj k -> Prop :=
  match k with
  | KStatefulSet => fun o => exists t g n, sw_VolumeTopology spec !! t = Some (Some g) /\
      o = with_replicas n (createVolumeServerTopologyStatefulSet cert_manager m t g)
  | KDeployment | KDaemonSet => fun _ => False
  | _ => fun _ => True
  end.
End shapes.

(** ** The Services in front of the workloads *)
Section services.
Context (cert_manager wired : bool) (m : Seaweed).
Abbreviation spec := (sw_Spec m).
Abbreviation declared := (declared cert_manager wired m).
(** A workload that a component declares at some time: the labels and the pod of its
    template, and the name and the size if it is a StatefulSet. *)
Record workload := Workload { wl_labels : gmap string string; wl_pod : PodSpec; wl_set : option (string * Z) }.
Definition sts_workload (o : StatefulSet) : workload :=
  Workload (sts_TemplateLabels o) (sts_Pod o) (Some (Name (sts_Meta o), default 1%Z (sts_Replicas o))).
Definition backs (c : component) (w : workload) : Prop :=
  exists tr,
    (exists o, declared tr c KStatefulSet o /\ w = sts_workload o) \/
    (exists o, declared tr c KDeployment o /\ w = Workload (dep_TemplateLabels o) (dep_Pod o) None) \/
    (exists o, declared tr c KDaemonSet o /\ w = Workload (ds_TemplateLabels o) (ds_Pod o) None).
(** The labels of its pods: a StatefulSet labels each with its name. *)
Definition pod_labels (w : workload) (labels : gmap string string) : Prop :=
  match wl_set w with
  | None => labels = wl_labels w
  | Some (set_name, size) => exists i, (0 <= i < size)%Z /\
      labels = <[PodNameLabel := set_name +:+ "-" +:+ fmt_d i]> (wl_labels w)
  end.
(** The Service selects all pods of the workload, or the one that it names, which is
    among them; and its ports are ports of the component's container. *)
Definition reaches (svc : Service) (w : workload) : Prop :=
  let selector := svc_Selector (svc_Spec svc) in
  match selector !! PodNameLabel with
  | None => forall labels, pod_labels w labels -> selector ⊆ labels
  | Some _ => exists labels, pod_labels w labels /\ selector ⊆ labels
  end /\
  exists main sidecars, pod_Containers (wl_pod w) = main :: sidecars /\
    forall p, p ∈ svc_Ports (svc_Spec svc) -> sp_TargetPort p ∈ port_numbers main.

Lemma selects_all w (selector : gmap string string) :
  selector !! PodNameLabel = None -> selector ⊆ wl_labels w -> forall labels, pod_labels w labels -> selector ⊆ labels.
Proof.
  intros Hn Hs labels. unfold pod_labels. destruct (wl_set w) as [[set_name size]|]; [|by intros ->].
  intros (i & _ & ->). by apply insert_subseteq_r.
Qed.
Lemma selects_one w (selector : gmap string string) set_name size i :
  wl_set w = Some (set_name, size) -> (0 <= i < size)%Z -> selector ⊆ wl_labels w ->
  exists labels, pod_labels w labels /\ <[PodNameLabel := set_name +:+ "-" +:+ fmt_d i]> selector ⊆ labels.
Proof.
  intros Hw Hi Hs. exists (<[PodNameLabel := set_name +:+ "-" +:+ fmt_d i]> (wl_labels w)). split.
  - unfold pod_labels. rewrite Hw. by exists i.
  - by apply insert_mono.
Qed.
Lemma ports_reach ports p :
  p ∈ service_ports ports -> sp_TargetPort p ∈ map cport_ContainerPort (container_ports ports).
Proof.
  unfold service_ports, container_ports. intros [x [-> Hx]]%list_elem_of_fmap. rewrite map_map.
  by apply (list_elem_of_fmap_2 (fun x => cport_ContainerPort (container_port x.1 x.2))).
Qed.
Lemma applied_service svcSpec svc :
  svc_Selector (svc_Spec (apply_service_spec svcSpec svc)) = svc_Selector (svc_Spec svc) /\
  svc_Ports (svc_Spec (apply_service_spec svcSpec svc)) = svc_Ports (svc_Spec svc).
Proof. by destruct svcSpec. Qed.
Lemma desired_gated sts desired nodeFor : exists tr, gated wired m tr sts desired nodeFor desired.
Proof.
  exists [Ev (OKube (KGet KStatefulSet {| nn_Namespace := Namespace (sw_Meta m); nn_Name := sts |})) (Err (ErrNotFound ""))].
  right; left. exists (ErrNotFound ""). split; [done|]. split; [|done]. by left.
Qed.

(** A workload of a component with these labels and ports. *)
Definition serves (c : component) (selector : gmap string string) (ports : list (string * Z)) (w : workload) : Prop :=
  backs c w /\ selector ⊆ wl_labels w /\
  exists main sidecars, pod_Containers (wl_pod w) = main :: sidecars /\ c_Ports main = container_ports ports.
Lemma master_backs s : sw_Master spec = Some s -> exists w,
  serves CMaster (labelsForMaster (Name (sw_Meta m))) (master_ports s) w.
Proof.
  intros Hs. eexists. split; [exists []; left; eexists; split; [by eapply d_master_sts|done]|].
  unfold createMasterStatefulSet. destruct (master_config_disk m), (tlsVolumesAndMounts _ m), (master_data_disk m s) as [[??]?].
  split; [apply mergePodLabels_selector|by do 2 eexists].
Qed.
Lemma filer_backs f : sw_Filer spec = Some f -> filer_data_disk m f <> None -> exists w,
  serves CFiler (labelsForFiler (Name (sw_Meta m))) (filer_ports f) w.
Proof.
  intros Hf Hd. destruct (filer_data_disk m f) as [d|] eqn:Hdisk; [|done].
  assert (Hs : createFilerStatefulSet cert_manager m f = Some (filer_statefulset cert_manager m f d)).
  { unfold createFilerStatefulSet. by rewrite Hdisk. }
  eexists. split; [exists []; left; eexists; split; [by eapply d_filer_sts|done]|].
  unfold filer_statefulset. destruct (filer_config_disk m), (tlsVolumesAndMounts _ m), (filer_users_disk f), d as [[??]?].
  split; [apply mergePodLabels_selector|by do 2 eexists].
Qed.
Lemma admin_backs a : sw_Admin spec = Some a -> exists w,
  serves CAdmin (labelsForAdmin (Name (sw_Meta m))) (admin_ports a) w.
Proof.
  intros Ha. eexists. split; [exists []; left; eexists; split; [by eapply d_admin_sts|done]|].
  unfold createAdminStatefulSet. destruct (tlsVolumesAndMounts _ m), (admin_credentials_disk a).
  split; [apply mergePodLabels_selector|by do 2 eexists].
Qed.
Lemma worker_backs w : sw_Worker spec = Some w -> exists wl,
  serves CWorker (labelsForWorker (Name (sw_Meta m))) (worker_ports w) wl.
Proof.
  intros Hw. eexists. split; [exists []; right; left; eexists; split; [by eapply d_worker|done]|].
  unfold createWorkerDeployment. destruct (worker_disk w), (tlsVolumesAndMounts _ m).
  split; [apply mergePodLabels_selector|by do 2 eexists].
Qed.
Lemma s3_backs s : sw_S3 spec = Some s -> exists w, serves CS3 (labelsForS3 (Name (sw_Meta m))) (s3_ports m s) w.
Proof.
  intros Hs. eexists. split; [exists []; right; left; eexists; split; [by eapply d_s3|done]|].
  unfold buildS3Deployment. destruct (s3_config_disk s), (tlsVolumesAndMounts _ m).
  split; [apply mergePodLabels_selector|by do 2 eexists].
Qed.
Lemma sftp_backs s : sw_SFTP spec = Some s -> exists w, serves CSFTP (labelsForSFTP (Name (sw_Meta m))) (sftp_ports m s) w.
Proof.
  intros Hs. eexists. split; [exists []; right; left; eexists; split; [by eapply d_sftp|done]|].
  unfold buildSFTPDeployment. destruct (sftp_users_disk s), (sftp_keys_disk s), (tlsVolumesAndMounts _ m).
  split; [apply mergePodLabels_selector|by do 2 eexists].
Qed.
Lemma volume_sts_backs v : sw_Volume spec = Some v -> IsDaemonSet v = false -> exists w,
  serves CVolume (labelsForVolumeServer (Name (sw_Meta m))) (volume_ports (vsc_MetricsPort (vspec_Config v))) w /\
  wl_set w = Some (Name (sw_Meta m) +:+ "-volume", vspec_Replicas v).
Proof.
  intros Hv Hds. destruct (desired_gated (Name (sw_Meta m) +:+ "-volume") (vspec_Replicas v) (volumeServerNodeAddress m)) as [tr Hg].
  eexists. split; [split; [exists tr; left; eexists; split; [by eapply d_volume_sts|done]|]|done].
  cbn. unfold buildFlatVolumePodSpec. destruct (tlsVolumesAndMounts _ m).
  split; [apply mergePodLabels_selector|by do 2 eexists].
Qed.
Lemma volume_backs v : sw_Volume spec = Some v -> exists w,
  serves CVolume (labelsForVolumeServer (Name (sw_Meta m))) (volume_ports (vsc_MetricsPort (vspec_Config v))) w.
Proof.
  intros Hv. destruct (IsDaemonSet v) eqn:Hds; [|destruct (volume_sts_backs v Hv Hds) as (w & Hw & _); by exists w].
  eexists. split; [exists []; right; right; eexists; split; [by eapply d_volume_ds|done]|].
  cbn. unfold buildFlatVolumePodSpec. destruct (tlsVolumesAndMounts _ m).
  split; [apply mergePodLabels_selector|by do 2 eexists].
Qed.
Lemma group_backs t g : sw_VolumeTopology spec !! t = Some (Some g) -> exists w,
  serves CVolume (topology_labels m t) (volume_ports (vsc_MetricsPort (topo_Config g))) w /\
  wl_set w = Some (topology_name m t, topo_Replicas g).
Proof.
  intros Hg. destruct (desired_gated (topology_name m t) (topo_Replicas g) (volumeServerTopologyNodeAddress m t)) as [tr Ha].
  eexists. split; [split; [exists tr; left; eexists; split; [by eapply d_group_sts|done]|]|].
  - unfold createVolumeServerTopologyStatefulSet. destruct (tlsVolumesAndMounts _ m).
    split; [apply mergePodLabels_selector|by do 2 eexists].
  - unfold createVolumeServerTopologyStatefulSet. by destruct (tlsVolumesAndMounts _ m).
Qed.

Definition has_pods (c : component) (k : Kind) : Obj k -> Prop :=
  match k with
  | KService => fun svc => exists w, backs c w /\ reaches svc w
  | _ => fun _ => True
  end.
Lemma ports_served c selector ports w svc :
  serves c selector ports w -> svc_Ports (svc_Spec svc) = service_ports ports ->
  exists main sidecars, pod_Containers (wl_pod w) = main :: sidecars /\
    forall p, p ∈ svc_Ports (svc_Spec svc) -> sp_TargetPort p ∈ port_numbers main.
Proof.
  intros (_ & _ & main & sidecars & Hm & Hp) Hports. exists main, sidecars. split; [done|].
  intros p. rewrite Hports. unfold port_numbers. rewrite Hp. apply ports_reach.
Qed.
(** A Service with the selector of the component. *)
Lemma reaches_all c svc selector ports :
  svc_Ports (svc_Spec svc) = service_ports ports -> svc_Selector (svc_Spec svc) = selector ->
  selector !! PodNameLabel = None -> (exists w, serves c selector ports w) -> has_pods c KService svc.
Proof.
  intros Hports <- Hn (w & Hw). exists w. split; [apply Hw|]. split; [|by eapply ports_served].
  rewrite Hn. apply selects_all; [done|apply Hw].
Qed.
(** A Service of one server. *)
Lemma reaches_one c svc selector ports set_name size i selected :
  svc_Ports (svc_Spec svc) = service_ports ports ->
  svc_Selector (svc_Spec svc) = <[PodNameLabel := set_name +:+ "-" +:+ fmt_d i]> selected -> selected ⊆ selector ->
  (0 <= i < size)%Z -> (exists w, serves c selector ports w /\ wl_set w = Some (set_name, size)) -> has_pods c KService svc.
Proof.
  intros Hports Hs Hsub Hi (w & Hw & Hset). exists w. split; [apply Hw|]. split; [|by eapply ports_served].
  rewrite Hs, lookup_insert_eq. eapply selects_one; [done|done|]. etrans; [exact Hsub|apply Hw].
Qed.
Lemma ordinals_bounds n i : i ∈ ordinals n -> (0 <= i < n)%Z.
Proof. unfold ordinals. intros [j [-> Hj%elem_of_seq]]%list_elem_of_fmap. lia. Qed.
Lemma declared_reach :
  (forall f, sw_Filer spec = Some f -> filer_data_disk m f <> None) ->
  forall tr c k o, declared tr c k o -> has_pods c k o.
Proof.
  intros Hfiler tr c k o Hd. destruct Hd; try exact I; try by destruct (sw_HostSuffix spec).
  - by eapply reaches_all; [done|done| |by apply master_backs].
  - by eapply reaches_all; [exact (proj2 (applied_service _ _))|exact (proj1 (applied_service _ _))| |by apply master_backs].
  - by eapply reaches_all; [done|done| |by apply volume_backs].
  - eapply (reaches_one _ _ _ _ (Name (sw_Meta m) +:+ "-volume") (vspec_Replicas v) i (labelsForVolumeServer (Name (sw_Meta m))));
      [exact (proj2 (applied_service _ _))| |done|by apply ordinals_bounds|by apply volume_sts_backs].
    unfold createVolumeServerService. rewrite (proj1 (applied_service _ _)). by rewrite string_app_assoc.
  - by eapply reaches_all; [done|done| |destruct (group_backs t g H) as (w & Hw & _); by exists w].
  - eapply (reaches_one _ _ _ _ (topology_name m t) (topo_Replicas g) i ∅);
      [exact (proj2 (applied_service _ _))| |apply map_empty_subseteq|by apply ordinals_bounds|by apply group_backs].
    unfold createVolumeServerTopologyService. by rewrite (proj1 (applied_service _ _)).
  - by eapply reaches_all; [done|done| |by apply filer_backs, Hfiler].
  - by eapply reaches_all; [exact (proj2 (applied_service _ _))|exact (proj1 (applied_service _ _))| |by apply filer_backs, Hfiler].
  - by eapply reaches_all; [done|done| |by apply admin_backs].
  - eapply (reaches_all _ _ (labelsForAdmin (Name (sw_Meta m)))); [| |done|by apply admin_backs];
      unfold createAdminService; by destruct (admin_Service a).
  - by eapply reaches_all; [done|done| |by apply worker_backs].
  - by eapply reaches_all; [done|done| |by apply s3_backs].
  - by eapply reaches_all; [done|done| |by apply sftp_backs].
Qed.

(** C32. Every Service the operator declares has pods behind it: the component declares
    a workload all pods of which the Service selects - or, for the Service of one
    volume server, the StatefulSet that has the pod of that name among its replicas -,
    and every port of the Service is a port of that workload's container.  The spec
    must not have an enabled persistence of the filer without mount or sub path, on
    which the code panics. *)
Theorem services_reach_pods tr c svc :
  (forall f, sw_Filer spec = Some f -> filer_data_disk m f <> None) ->
  declared tr c KService svc -> exists w, backs c w /\ reaches svc w.
Proof. intros Hfiler Hd. exact (declared_reach Hfiler tr c KService svc Hd). Qed.
End services.

(** ** The Ingresses in front of the Services *)
Section ingresses.
Context (cert_manager wired : bool) (m : Seaweed).
Abbreviation spec := (sw_Spec m).
Abbreviation name := (Name (sw_Meta m)).
Abbreviation declared := (declared cert_manager wired m).
Definition serves_port (svc : Service) (port : Z) : Prop := port ∈ map sp_Port (svc_Ports (svc_Spec svc)).

Lemma wanted_assigned l d key acc :
  foldl (fun (acc : gmap string desired_ingress) x => <[x.1 := x.2]> acc) acc l !! key = Some d ->
  acc !! key = Some d \/ (key, d) ∈ l.
Proof.
  revert acc; induction l as [|[k e] l IH]; intros acc; [by left|]. intros [Ha|Hin]%IH; [|right; by right].
  destruct (decide (k = key)) as [->|Hn].
  - rewrite lookup_insert_eq in Ha. simplify_eq. right. by left.
  - left. by rewrite lookup_insert_ne in Ha.
Qed.
Lemma want_inv key d suffix component service port (s : option IngressSpec) :
  (key, d) ∈ want m suffix component service port s ->
  exists i, s = Some i /\ d = {| di_component := component; di_service := name +:+ service; di_port := port; di_spec := i |}.
Proof.
  unfold want, enabled_ingress. destruct s as [i|]; [|by intros ?%elem_of_nil]. destruct (ispec_Enabled i); [|by intros ?%elem_of_nil].
  intros [= -> ->]%list_elem_of_singleton. by exists i.
Qed.

Lemma filer_reached f port tr :
  sw_Filer spec = Some f -> port ∈ map snd (filer_ports f) ->
  exists c svc, declared tr c KService svc /\ Name (svc_Meta svc) = name +:+ "-filer" /\ serves_port svc port.
Proof.
  intros Hf Hp. exists CFiler, (createFilerService m f). split; [by eapply d_filer_service|].
  unfold serves_port, createFilerService. rewrite (proj2 (applied_service _ _)).
  split; [by destruct (filer_Service f)|]. cbn [component_service svc_Spec svc_Ports].
  unfold service_ports. rewrite map_map. exact Hp.
Qed.
(** The Ingress of every component leads to a Service that the operator declares
    and that has the port, except for the one of the volume servers; a standalone S3
    gateway needs a filer to be there at all. *)
Theorem ingresses_reach_services key d :
  wanted m !! key = Some d -> di_component d <> "volume" ->
  exists tr c svc, declared tr c KService svc /\ Name (svc_Meta svc) = di_service d /\ serves_port svc (di_port d).
Proof.
  intros [Hd|Hd]%wanted_assigned Hv; [by rewrite lookup_empty in Hd|]. unfold wanted_assignments in Hd.
  rewrite !elem_of_app in Hd. exists []. destruct Hd as [Hd|[Hd|[Hd|[Hd|[Hd|[Hd|Hd]]]]]].
  - apply want_inv in Hd as (i & Hi & ->). destruct (sw_Master spec) as [s|] eqn:Hs; [|done].
    exists CMaster, (createMasterService m s). split; [by eapply d_master_service|].
    unfold serves_port, createMasterService. destruct (master_Service s); (split; [done|by left]).
  - by apply want_inv in Hd as (i & Hi & ->).
  - apply want_inv in Hd as (i & Hi & ->). destruct (sw_Filer spec) as [f|] eqn:Hf; [|done].
    apply (filer_reached f); [done|]. unfold filer_ports. set_solver.
  - destruct (embedded_s3 m) eqn:He; [|by apply elem_of_nil in Hd].
    apply want_inv in Hd as (i & Hi & ->). destruct (sw_Filer spec) as [f|] eqn:Hf; [|done].
    apply (filer_reached f); [done|]. unfold embedded_s3 in He. rewrite Hf in He. unfold filer_ports, enabled_s3.
    destruct (filer_S3 f); [|done]. rewrite He. cbn [present]. set_solver.
  - apply want_inv in Hd as (i & Hi & ->). destruct (sw_Filer spec) as [f|] eqn:Hf; [|done].
    apply (filer_reached f); [done|]. unfold filer_ports. set_solver.
  - apply want_inv in Hd as (i & Hi & ->). destruct (sw_Admin spec) as [a|] eqn:Ha; [|done].
    exists CAdmin, (createAdminService m a). split; [by eapply d_admin_service|].
    unfold serves_port, createAdminService. destruct (admin_Service a); (split; [done|by left]).
  - apply want_inv in Hd as (i & Hi & ->). destruct (sw_S3 spec) as [s|] eqn:Hs; [|done].
    exists CS3, (buildS3Service m s). split; [by eapply d_s3_service|]. split; [done|by left].
Qed.

Lemma applied_name svcSpec svc : Name (svc_Meta (apply_service_spec svcSpec svc)) = Name (svc_Meta svc).
Proof. by destruct svcSpec. Qed.
Definition other_name (k : Kind) : Obj k -> Prop :=
  match k with KService => fun svc => Name (svc_Meta svc) <> name +:+ "-volume" | _ => fun _ => True end.
Lemma declared_other_name tr c k o : declared tr c k o -> other_name k o.
Proof.
  intros Hd. destruct Hd; try exact I; try by destruct (sw_HostSuffix spec).
  all: unfold other_name, createMasterService, createFilerService, createVolumeServerService, createVolumeServerTopologyService,
    createAdminService; rewrite ?applied_name; try destruct (admin_Service _).
  all: cbn [component_service peer_service createMasterPeerService createVolumeServerPeerService
      createVolumeServerTopologyPeerService createFilerPeerService createAdminPeerService createWorkerService
      buildS3Service buildSFTPService gateway_service svc_Meta set_meta new_meta Name].
  all: unfold topology_name; rewrite ?string_app_assoc; by intros ?%string_app_inj.
Qed.
(** The Service behind the Ingress of the volume servers is not among the declared
    ones: there is one Service per server and a headless one. *)
Theorem volume_service_undeclared tr c svc :
  declared tr c KService svc -> Name (svc_Meta svc) <> name +:+ "-volume".
Proof. exact (declared_other_name tr c KService svc). Qed.
End ingresses.

(** ** Evaluations *)
Definition shaped_cluster : Seaweed := sample_cluster true (Some (sample_sftp None)).
Lemma services_reach_pods_witness :
  let svc := createFilerService shaped_cluster (sample_filer true) in
  map sp_Name (svc_Ports (svc_Spec svc)) = ["filer-http"; "filer-grpc"; "filer-s3"] /\
  exists w, backs true false shaped_cluster CFiler w /\ reaches svc w.
Proof.
  intros svc. split; [by vm_compute|].
  apply (services_reach_pods true false shaped_cluster [] CFiler svc); [|by eapply d_filer_service].
  by intros f [= <-].
Defined.
Lemma ingresses_reach_services_witness :
  let d := {| di_component := "s3"; di_service := "w-filer"; di_port := FilerS3Port; di_spec := host_ingress "s3.example" |} in
  wanted shaped_cluster !! "w-s3-ingress" = Some d /\
  exists tr c svc, declared true false shaped_cluster tr c KService svc /\
    Name (svc_Meta svc) = "w-filer" /\ serves_port svc FilerS3Port.
Proof.
  intros d. assert (Hw : wanted shaped_cluster !! "w-s3-ingress" = Some d) by by vm_compute. split; [exact Hw|].
  by apply (ingresses_reach_services true false shaped_cluster "w-s3-ingress" d Hw).
Defined.
Lemma volume_service_undeclared_witness :
  let svc := createVolumeServerPeerService shaped_cluster (minimal_volume 1) in
  Name (svc_Meta svc) = "w-volume-peer" /\ Name (svc_Meta svc) <> "w-volume".
Proof.
  intros svc. split; [done|]. apply (volume_service_undeclared true false shaped_cluster [] CVolume svc).
  by apply d_volume_peer.
Defined.
