(* ===== verification/ClusterProgress.v ===== *)
(** * How a pass over a cluster ends

    The steps of the reconciler end a pass with an error or with a request to be run
    again soon; only the status at the end of a full pass asks for the slow cadence. *)
From S2P Require Import Prelude Prog CoreTypes ApiTypes Effects Machinery Sim Trace.
From S2P Require Import Cluster VolumeEvac Upsert SecurityConfig Component.
From S2P Require Import BackupStorage BackupJobs BackupMirror.
From S2P Require Import VolumeClaims ClusterStatus.
From S2P Require Import Workloads MasterServers VolumeServers FilerServers AdminServers.
From S2P Require Import Ingresses Gateways Certificates.
From S2P Require Import ClusterController ClusterSafety.
#[local] Set Default Proof Using "Type*".

Definition free : Guard := fun _ _ _ => True.
Lemma swp_free {A} (p : op A) (Q : A -> trace -> Prop) tr : (forall a tr', Q a tr') -> swp free p Q tr.
Proof. intros HQ. revert tr; induction p as [a|X e k IH]; intros tr; simpl; [apply HQ|]. by split. Qed.
Lemma swp_free_impl {A} (P : Prop) (p : op A) (Q : A -> trace -> Prop) tr :
  (P -> swp free p Q tr) -> swp free p (fun a tr' => P -> Q a tr') tr.
Proof.
  revert tr; induction p as [a|X e k IH]; intros tr; simpl; [done|]. intros Hp. split; [done|].
  intros x. apply IH. intros HP. by apply Hp.
Qed.
Lemma swp_both {A} G (p : op A) (Q R : A -> trace -> Prop) tr :
  swp G p Q tr -> swp G p R tr -> swp G p (fun a tr' => Q a tr' /\ R a tr') tr.
Proof. revert tr; induction p as [a|X e k IH]; intros tr; simpl; [done|]. intros [? HQ] [_ HR]. auto. Qed.
Lemma swp_unguarded {A} G (p : op A) (Q : A -> trace -> Prop) tr : swp G p Q tr -> swp free p Q tr.
Proof. by apply swp_weaken. Qed.

(** A Deployment was read whose pods have no annotations, a nil map, and are to get some. *)
Definition nil_template (desired : Deployment) (tr : trace) : Prop :=
  exists existing, saw_kube tr (KGet KDeployment (obj_key (k:=KDeployment) desired)) (Ok existing) /\
    dep_TemplateAnnotations existing = None /\ exists a, dep_TemplateAnnotations desired = Some a /\ a <> ∅.
Lemma deployment_panics `{SpecJSON PodSpec} dep meta tr :
  obj_key (k:=KDeployment) (with_dep_meta meta dep) = obj_key (k:=KDeployment) dep ->
  swp free (CreateOrUpdateDeployment (with_dep_meta meta dep)) (fun r tr' => r = inl Panicked -> nil_template dep tr') tr.
Proof.
  intros Hkey. apply (CreateOrUpdate_swp KDeployment); [done|done| |].
  - intros tr' existing Hs. unfold pure_merge. sx. destruct (merge_deployment _ _) as [e|d] eqn:Hm; [|done]. intros [= ->].
    rewrite merge_deployment_applied in Hm. exists existing. rewrite <-Hkey. split; [exact Hs|].
    unfold merge_template_annotations in Hm. cbn [with_dep_meta dep_TemplateAnnotations] in Hm.
    destruct (dep_TemplateAnnotations dep) as [a|]; [|done].
    case_bool_decide; [done|]. destruct (dep_TemplateAnnotations existing); [done|]. split; [done|]. by exists a.
  - intros r tr' Hr E. by destruct (Hr _ E).
Qed.
Section deployments.
Context (cert_manager : bool) (m : Seaweed).
(** The Deployments of a cluster that can have annotations: its workers and gateways. *)
Inductive deployed : Deployment -> Prop :=
| deployed_worker w : sw_Worker (sw_Spec m) = Some w -> deployed (createWorkerDeployment cert_manager m w)
| deployed_s3 s : sw_S3 (sw_Spec m) = Some s -> deployed (buildS3Deployment cert_manager m s)
| deployed_sftp s : sw_SFTP (sw_Spec m) = Some s -> deployed (buildSFTPDeployment cert_manager m s).
Definition unannotated (tr : trace) : Prop := exists desired, deployed desired /\ nil_template desired tr.
(** The mirrors of the backups have none. *)
Lemma mirror_runs `{OwnersLaws} `{SpecJSON PodSpec} mirror tr :
  swp free (ensureMirror cert_manager m mirror) (fun r _ => r <> inl Panicked) tr.
Proof.
  unfold ensureMirror. destruct (resolveStorage _ _) as [|st] eqn:Hst; [by sx|].
  eapply (swp_seq _ _ _ (fun _ _ => True)); [by apply swp_free|]. intros [e|creds] tr1 _; [by sx|].
  destruct (renderReplicationToml _ _ _ _); [by sx|].
  eapply (swp_seq _ _ _ (fun _ _ => True)); [by apply swp_free|]. intros [e|] tr2 _; [by sx|]. cbv zeta.
  destruct (SetControllerReference _ _ _) as [|meta] eqn:Hmeta; [by sx|].
  apply set_controller_owners in Hmeta as [os ->]. eapply swp_seq; [by apply deployment_panics|].
  intros [f|d] tr3 Hf; [sx; intros [= ->]; destruct (Hf eq_refl) as (? & _ & _ & ? & Ha & _);
    unfold buildMirrorDeployment in Ha; by repeat case_match|].
  eapply (swp_seq _ _ _ (fun _ _ => True)); [by apply swp_free|]. by intros ready tr4 _.
Qed.
Lemma mirrors_run `{OwnersLaws} `{SpecJSON PodSpec} tr :
  swp free (ensureBackupMirrors cert_manager m) (fun r _ => r <> inl Panicked) tr.
Proof.
  assert (Hall : forall mirrors names statuses tr,
    swp free (ensureMirrors cert_manager m mirrors names statuses) (fun r _ => r <> inl Panicked) tr).
  { intros mirrors. induction mirrors as [|mirror mirrors IH]; intros names statuses tr0; cbn [ensureMirrors]; [done|].
    eapply swp_seq; [apply mirror_runs|]. intros [f|[s|]] tr1 Hf; [sx; congruence|apply IH..]. }
  unfold ensureBackupMirrors. eapply swp_seq; [apply Hall|]. intros [f|x] tr1 Hf; [sx; congruence|].
  eapply (swp_seq _ _ _ (fun _ _ => True)); [by apply swp_free|]. by intros [e|] tr2 _.
Qed.
End deployments.
Lemma with_mirrors_unannotated cert_manager m statuses tr :
  unannotated cert_manager (with_mirrors statuses m) tr -> unannotated cert_manager m tr.
Proof. intros (d & Hd & Hn). exists d. split; [|done]. destruct Hd as [x Hx|x Hx|x Hx];
  [exact (deployed_worker cert_manager m x Hx)|exact (deployed_s3 cert_manager m x Hx)|exact (deployed_sftp cert_manager m x Hx)]. Qed.

(** ** How a step ends

    A predicate on outcomes that holds of errors and of the requests the steps make;
    [ends p] says that it holds of whatever outcome [p] ends the pass with. *)
Class Endings (ok : outcome -> Prop) := {
  ends_with_error e : ok (Done noResult (Some e));
  ends_now : ok (Done requeueNow None);
  ends_soon n : n = 2%Z \/ n = 3%Z -> ok (Done (requeueIn (n * Second)) None);
}.
Section endings.
Context (ok : outcome -> Prop) `{!Endings ok}.
Definition end_ok (r : option outcome) : Prop := match r with Some o => ok o | None => True end.
(** The step panicked on a Deployment. *)
Context (cert_manager : bool) (m : Seaweed).
Definition nil_annotations (r : option outcome) (tr : trace) : Prop := r = Some Panic /\ unannotated cert_manager m tr.
Definition ends (p : op (option outcome)) : Prop :=
  forall tr, swp free p (fun r tr' => end_ok r \/ nil_annotations r tr') tr.

Lemma ends_ret r : end_ok r -> ends (Ret r).
Proof. by intros Hr tr; left. Qed.
Lemma ends_bind {A} (p : op A) f : (forall a, ends (f a)) -> ends (bind p f).
Proof. intros Hf tr. eapply (swp_seq _ _ _ (fun _ _ => True)); [by apply swp_free|]. intros a tr' _. apply Hf. Qed.
Lemma ends_vis {X} (e : opE X) k : (forall x, ends (k x)) -> ends (Vis e k).
Proof. intros Hk tr. split; [done|]. intros x. apply Hk. Qed.
Lemma ends_and_then p q : ends p -> ends q -> ends (p >>> q).
Proof. intros Hp Hq tr. eapply swp_seq; [apply Hp|]. intros [o|] tr' Ho; [exact Ho|apply Hq]. Qed.
Lemma ends_for_until {A} (l : list A) body : (forall a, a ∈ l -> ends (body a)) -> ends (for_until l body).
Proof.
  induction l as [|a l IH]; intros Hb; [by apply ends_ret|]. intros tr. eapply swp_seq; [apply Hb; by left|].
  intros [o|] tr' Ho; [exact Ho|]. apply IH. intros b Hin. apply Hb. by right.
Qed.
Lemma end_error err : end_ok (ReconcileResult err).
Proof. destruct err; [apply ends_with_error|done]. Qed.
Lemma end_fail e : end_ok (Some (Done noResult (Some e))).
Proof. apply ends_with_error. Qed.
Lemma end_now : end_ok (Some (Done requeueNow None)).
Proof. apply ends_now. Qed.
Lemma end_none : end_ok None.
Proof. done. Qed.
Lemma end_two : end_ok (Some (Done (requeueIn (2 * Second)) None)).
Proof. apply (ends_soon 2). by left. Qed.
Lemma end_three : end_ok (Some (Done (requeueIn (3 * Second)) None)).
Proof. apply (ends_soon 3). by right. Qed.
#[local] Hint Resolve end_error end_fail end_now end_none end_two end_three : endings.

(** Every step is a composition of these; [walk] takes it apart. *)
Ltac walk :=
  repeat first
    [ assumption
    | apply ends_and_then
    | apply ends_for_until; intros
    | apply ends_ret; solve [auto with endings]
    | apply ends_bind; intros
    | apply ends_vis; intros
    | match goal with |- ends (match ?x with _ => _ end) => destruct x end ].

(** ** The steps *)
Section steps.
Context `{ApiMachinery} `{OwnersLaws} `{Digest}.
Context `{SpecJSON ServiceObjSpec} `{SpecJSON PodSpec} `{SpecJSON IngressObjSpec}.
Context (wired recorder : bool).
Abbreviation spec := (sw_Spec m).

Lemma ends_owned k `{Owned k} {A} (o : Obj k) (write : Obj k -> op (result A)) :
  ends (ensure_owned m k o write).
Proof. unfold ensure_owned. walk. apply ends_ret. destruct a; [apply ends_with_error|done]. Qed.
Lemma ends_deployment o :
  deployed cert_manager m o -> ends (ensure_owned m KDeployment o CreateOrUpdateDeployment).
Proof.
  intros Hd. unfold ensure_owned, set_owner.
  destruct (SetControllerReference _ _ _) as [e|meta] eqn:Hmeta; [apply ends_ret, ends_with_error|].
  apply set_controller_owners in Hmeta as [os ->].
  intros tr. eapply swp_seq; [by apply deployment_panics|]. intros [[e|]|d] tr' Hp; sx.
  - left. apply ends_with_error.
  - right. split; [done|]. exists o. split; [done|by apply Hp].
  - by left.
Qed.
Lemma ends_fail p : ends (fail_step p).
Proof. unfold fail_step. walk. Qed.
Lemma ends_claims s : ends (upsert_with_claims recorder s).
Proof. unfold upsert_with_claims. walk. Qed.
Lemma ends_gated s desired nodeFor : ends (ensure_gated wired recorder m s desired nodeFor).
Proof. unfold ensure_gated. walk; apply ends_claims. Qed.

(** The fields the reconciler dereferences: the masters, the groups of the topology,
    the volume servers behind a host suffix, and the paths of a filer's persistence. *)
Definition spec_complete : Prop :=
  sw_Master spec <> None /\ (forall t, sw_VolumeTopology spec !! t <> Some None) /\
  (forall h, sw_HostSuffix spec = Some h -> h <> "" -> sw_Volume spec <> None) /\
  (forall f, sw_Filer spec = Some f -> filer_data_disk m f <> None).
Context (Hpanic : ok Panic \/ spec_complete).
(** Where the code panics, a complete spec does not get. *)
Lemma ends_panic : (spec_complete -> False) -> ends (Ret (Some Panic)).
Proof. intros Hn. apply ends_ret. by destruct Hpanic. Qed.
Lemma ends_tls : ends (ensureTLS m cert_manager).
Proof.
  unfold ensureTLS, ensureSelfSignedIssuer, ensureCACertificate, ensureCAIssuer, ensureServerCertificate,
    apply_issuer, apply_certificate. walk.
Qed.
Lemma ends_master : ends (ensureMaster cert_manager m).
Proof.
  unfold ensureMaster. destruct (sw_Master spec) as [s|] eqn:Hs; [|by apply ends_panic; intros (? & _)]. unfold ensure_master.
  repeat apply ends_and_then; try apply ends_owned.
  - unfold ensureMasterConfigMap. walk; apply ends_owned.
  - unfold waitForMasterStatefulSet. walk.
  - walk; apply ends_owned.
Qed.
Lemma ends_group group :
  sw_VolumeTopology spec !! group.1 = Some group.2 -> ends (ensure_topology cert_manager wired recorder m group).
Proof.
  destruct group as [t [g|]]; cbn [fst snd]; intros Hg; [|by apply ends_panic; intros (_ & Ht & _); apply (Ht t)].
  cbn [ensure_topology].
  repeat apply ends_and_then; [apply ends_owned|apply ends_for_until; intros; apply ends_owned|apply ends_gated|].
  walk; apply ends_owned.
Qed.
Lemma ends_volumes groups :
  (forall group, group ∈ groups -> sw_VolumeTopology spec !! group.1 = Some group.2) ->
  ends (ensureVolumeServers cert_manager wired recorder m groups).
Proof.
  intros Hg. unfold ensureVolumeServers.
  destruct (0 <? _)%nat; [apply ends_for_until; intros group Hin; by apply ends_group, Hg|].
  destruct (sw_Volume _) as [v|]; [|by walk]. destruct (_ && _); [by walk|].
  repeat apply ends_and_then; [apply ends_owned|destruct (IsDaemonSet v)|].
  - destruct (_ =? 0)%nat; [by walk|]. unfold ensureVolumeServerDaemonSet. walk; apply ends_owned.
  - apply ends_and_then; [apply ends_for_until; intros; apply ends_owned|].
    unfold ensureVolumeServerStatefulSet. walk; apply ends_gated.
  - walk; apply ends_owned.
Qed.
Lemma ends_filer f : sw_Filer spec = Some f -> ends (ensureFilerServers cert_manager m f recorder).
Proof.
  intros Hf. unfold ensureFilerServers. repeat apply ends_and_then; try apply ends_owned.
  - unfold ensureFilerConfigMap. walk; apply ends_owned.
  - unfold ensureFilerStatefulSet. destruct (createFilerStatefulSet cert_manager m f) eqn:Hs; [walk; apply ends_claims|].
    apply ends_panic. intros (_ & _ & _ & Hd). apply (Hd f Hf). unfold createFilerStatefulSet in Hs.
    by destruct (filer_data_disk m f).
  - walk; apply ends_owned.
Qed.
Lemma ends_admin a : ends (ensureAdminServers cert_manager m a).
Proof. unfold ensureAdminServers. repeat apply ends_and_then; try apply ends_owned. walk; apply ends_owned. Qed.
Lemma ends_worker w : sw_Worker spec = Some w -> ends (ensureWorkers cert_manager m w).
Proof.
  intros Hw. unfold ensureWorkers. repeat apply ends_and_then; [|by apply ends_deployment, deployed_worker|].
  - unfold cleanupLegacyWorkerStatefulSet. cbv zeta. walk.
  - walk; apply ends_owned.
Qed.
Lemma ends_gateway suffix c svc dep monitor metrics port ingress :
  deployed cert_manager m dep -> ends (ensure_gateway m suffix c svc dep monitor metrics port ingress).
Proof.
  intros Hd. unfold ensure_gateway. repeat apply ends_and_then; try first [by apply ends_deployment|apply ends_owned]; walk; apply ends_owned.
Qed.
Lemma ends_gateways : ends (ensureS3Gateway cert_manager m >>> ensureSFTPGateway cert_manager m).
Proof.
  apply ends_and_then; unfold ensureS3Gateway, ensureSFTPGateway;
    [destruct (sw_S3 (sw_Spec m)) eqn:?, (sw_Filer (sw_Spec m))|destruct (sw_SFTP (sw_Spec m)) eqn:?, (sw_Filer (sw_Spec m))];
    first [by apply ends_gateway; constructor|apply ends_fail].
Qed.
Lemma ends_ingresses order : ends (ensureSeaweedIngress m >>> ensureComponentIngresses m order).
Proof.
  apply ends_and_then.
  - unfold ensureSeaweedIngress, ensureAllIngress. destruct (sw_HostSuffix spec) as [h|] eqn:Hh; [|by walk].
    destruct (negb _) eqn:Hne; [|by walk]. unfold createAllIngress.
    destruct (sw_Volume spec) eqn:Hv; [apply ends_owned|]. apply ends_panic. intros (_ & _ & Hvol & _).
    apply (Hvol h); [done| |done]. by intros ->.
  - unfold ensureComponentIngresses. apply ends_and_then; [apply ends_for_until; intros; apply ends_owned|].
    unfold prune_ingress. walk.
Qed.
Lemma ends_components order :
  order m ≡ₚ map_to_list (sw_VolumeTopology spec) ->
  ends (ensure_components cert_manager wired recorder order m).
Proof.
  intros Ho. unfold ensure_components. cbv zeta.
  apply ends_and_then; [apply ends_tls|]. apply ends_and_then; [apply ends_fail|].
  apply ends_and_then; [apply ends_master|]. apply ends_and_then; [apply ends_volumes|].
  { intros [t g] Hin. rewrite Ho in Hin. by apply elem_of_map_to_list in Hin. }
  apply ends_and_then; [destruct (sw_Filer spec) eqn:?; [by apply ends_filer|by walk]|].
  apply ends_and_then; [destruct (sw_Admin _); [apply ends_admin|by walk]|].
  apply ends_and_then; [destruct (sw_Worker (sw_Spec m)) eqn:?, (sw_Admin (sw_Spec m)); first [by apply ends_worker|by walk]|].
  apply ends_gateways.
Qed.
End steps.

End endings.

(** ** The reconciler *)
Section reconcile.
Context `{ApiMachinery} `{OwnersLaws} `{Digest}.
Context `{SpecJSON ServiceObjSpec} `{SpecJSON PodSpec} `{SpecJSON IngressObjSpec}.
Context (cert_manager wired recorder : bool).
Context (topology_order : Seaweed -> list (string * option VolumeTopologySpec)).
Context (ingress_order : Seaweed -> list (string * desired_ingress)).
Context (Htopologies : forall m, topology_order m ≡ₚ map_to_list (sw_VolumeTopology (sw_Spec m))).

(** The outcomes after which nothing runs soon: no request at all, or the slow one. *)
Definition quiet (o : outcome) : Prop := o = Done noResult None \/ o = Done (requeueIn requeueWhenReady) None.
#[local] Instance loud_endings : Endings (fun o => ~ quiet o).
Proof. split; [by intros e [|]|by intros [|]|]. by intros n [-> | ->] [|]. Qed.
#[local] Instance safe_endings : Endings (fun o => o <> Panic).
Proof. by split. Qed.
Lemma loud_panic m : ~ quiet Panic \/ spec_complete m.
Proof. left. by intros [|]. Qed.

(** The end of a pass that got to its status. *)
Definition full_pass (m : Seaweed) (o : outcome) (tr : trace) : Prop :=
  masters_ready m tr /\
  exists statuses, reported (topology_order (with_mirrors statuses m)) (with_mirrors statuses m) o tr.
Lemma ends_pass (ok : outcome -> Prop) `{!Endings ok} m tr :
  ok Panic \/ spec_complete m ->
  swp free (reconcile_pass cert_manager wired recorder topology_order ingress_order m)
    (fun o tr' => (ok o \/ o = Panic /\ unannotated cert_manager m tr') \/ full_pass m o tr') tr.
Proof.
  intros Hpanic. unfold reconcile_pass. eapply swp_seq.
  { apply swp_both; [by apply (ends_components ok cert_manager m wired recorder)|].
    by eapply swp_unguarded, (components_swp cert_manager wired recorder m topology_order), Htopologies. }
  intros [o|] tr1 [Ho Hr]; [left; destruct Ho as [?|[[= ->] ?]]; [by left|by right]|]. specialize (Hr eq_refl).
  eapply swp_seq_keep; [by apply mirrors_run|].
  intros [[e|]|statuses] new Hm; [left; left; apply ends_with_error|by destruct Hm|].
  unfold finish_pass. eapply swp_seq_keep; [by apply (ends_ingresses ok cert_manager (with_mirrors statuses m))|].
  intros [o|] new' Ho'; [left; destruct Ho' as [?|[[= ->] Hu]]; [by left|right]|].
  { split; [done|]. by apply (with_mirrors_unannotated cert_manager m statuses). }
  eapply swp_mono; [|eapply swp_extends, swp_unguarded, finishReconcile_swp]. intros o tr' [[new2 ->] Hrep]. right.
  split; [by do 3 apply masters_ready_mono|by exists statuses].
Qed.
Lemma reconcile_ends (ok : outcome -> Prop) `{!Endings ok} (Q : Seaweed -> outcome -> trace -> Prop) key tr o :
  ok (Done (requeueIn (5 * Second)) None) ->
  (forall m tr, swp free (reconcile_pass cert_manager wired recorder topology_order ingress_order m) (Q m) tr) ->
  exec trace_env (cluster_Reconcile cert_manager wired recorder topology_order ingress_order key) [] tr o ->
  ok o \/ exists m, saw_kube tr (KGet KSeaweed key) (Ok m) /\ Q m o tr.
Proof.
  intros Hok Hp Hx. eapply (swp_theorem free _ (fun o tr => ok o \/ exists m, saw_kube tr (KGet KSeaweed key) (Ok m) /\
    Q m o tr)) in Hx; [apply Hx|].
  unfold cluster_Reconcile, findSeaweedCustomResourceInstance. sx. split; [done|].
  intros [e|m]; [destruct (IsNotFound e); left; [done|apply ends_with_error]|]. sx.
  eapply swp_mono; [|apply swp_extends, Hp]. intros o' tr' [[new ->] Ho]. right.
  exists m. split; [apply saw_app_l, saw_last|done].
Qed.

(** C30. A pass never ends quietly by accident: every outcome is an error, a panic of
    the spec, or a request to be run again soon, unless the masters were seen ready
    and the pass got to its end; there the slow cadence is requested exactly when the
    statuses just read were written and show every component settled. *)
Theorem reconcile_reports key tr o :
  exec trace_env (cluster_Reconcile cert_manager wired recorder topology_order ingress_order key) [] tr o ->
  ~ quiet o \/ exists m, saw_kube tr (KGet KSeaweed key) (Ok m) /\ full_pass m o tr.
Proof.
  intros Hx. eapply (reconcile_ends (fun o => ~ quiet o) (fun m o tr => ~ quiet o \/ full_pass m o tr)) in Hx;
    [naive_solver|by intros [|]|]. intros m tr'. eapply swp_mono; [|apply (ends_pass (fun o => ~ quiet o)), loud_panic].
  intros o' tr1 [[?|[-> _]]|?]; [by left|left; by intros [|]|by right].
Qed.

(** Only an incomplete spec makes it panic, or a Deployment without annotations. *)
Lemma panic_incomplete key tr :
  exec trace_env (cluster_Reconcile cert_manager wired recorder topology_order ingress_order key) [] tr Panic ->
  exists m, saw_kube tr (KGet KSeaweed key) (Ok m) /\ (spec_complete m -> unannotated cert_manager m tr).
Proof.
  intros Hx. eapply (reconcile_ends (fun o => o <> Panic)
    (fun m o tr => spec_complete m -> o = Panic -> unannotated cert_manager m tr)) in Hx; [|done|].
  - destruct Hx as [Hx|(m & Hm & Hx)]; [done|]. exists m. split; [done|]. intros Hc. by apply Hx.
  - intros m tr'. apply swp_free_impl. intros Hc.
    eapply swp_mono; [|apply (ends_pass (fun o => o <> Panic)); by right].
    intros o tr1 [[Ho|[_ Ho]]|[_ [statuses Hrep]]]; [done|done|]. intros ->.
    destruct Hrep as [(x & answer & _ & _ & Ha)|[e He]]; [|done]. destruct answer as [e|]; [|done].
    by destruct (IsConflict e).
Qed.

(** The reconciler panics only on a spec that leaves out what it dereferences - the
    masters, a group of the topology, the volume servers behind a host suffix, or the
    mount or sub path of an enabled filer persistence -, or on a Deployment it found
    without annotations in the template of its pods, when it is to add some.  Every other
    failure is an error of the pass. *)
Theorem reconcile_panics key tr :
  exec trace_env (cluster_Reconcile cert_manager wired recorder topology_order ingress_order key) [] tr Panic ->
  exists m, saw_kube tr (KGet KSeaweed key) (Ok m) /\ (spec_complete m -> unannotated cert_manager m tr).
Proof. apply panic_incomplete. Qed.
End reconcile.

(** ** Evaluations *)
#[local] Existing Instances text_services text_ingresses.
(** Every StatefulSet becomes ready. *)
Definition all_ready (s : Sim) : Sim :=
  set_objs KStatefulSet (map (fun x => {|
    sts_Meta := sts_Meta x; sts_ServiceName := sts_ServiceName x;
    sts_PodManagementPolicy := sts_PodManagementPolicy x; sts_Replicas := sts_Replicas x;
    sts_UpdateStrategy := sts_UpdateStrategy x; sts_Selector := sts_Selector x;
    sts_TemplateLabels := sts_TemplateLabels x; sts_TemplateAnnotations := sts_TemplateAnnotations x;
    sts_Pod := sts_Pod x; sts_VolumeClaimTemplates := sts_VolumeClaimTemplates x;
    sts_RetentionPolicy := sts_RetentionPolicy x; sts_ReadyReplicas := default 0%Z (sts_Replicas x) |})
    (sim_objs s KStatefulSet)) s.
(** A first pass asks to be run again soon; once all are ready the slow cadence is
    requested, and that pass got to its status. *)
Lemma reconcile_reports_witness :
  let first := cluster_pass (sample_state (sample_cluster false None) [ready_master]) in
  let x := cluster_pass (all_ready first.1.1) in
  first.2 = Done (requeueIn requeueWhileReconciling) None /\ x.2 = Done (requeueIn requeueWhenReady) None /\
  (~ quiet x.2 \/ exists m, saw_kube x.1.2 (KGet KSeaweed sample_key) (Ok m) /\ full_pass groups_of m x.2 x.1.2).
Proof.
  intros first x. split; [by vm_compute|]. split; [by vm_compute|].
  apply (reconcile_reports false true false groups_of ingresses_of (fun _ => ltac:(reflexivity))
           sample_key x.1.2 x.2).
  exact (run_tracing sim (cluster_Reconcile false true false groups_of ingresses_of sample_key) _ []).
Defined.
Definition suffix_without_volumes : Seaweed :=
  let m := sample_cluster false None in
  let s := sw_Spec m in {|
  sw_Meta := sw_Meta m; sw_Status := sw_Status m;
  sw_Spec := {|
    sw_TLS := sw_TLS s; sw_SecurityConfig := sw_SecurityConfig s; sw_MetricsAddress := sw_MetricsAddress s;
    sw_Image := sw_Image s; sw_Version := sw_Version s; sw_Master := sw_Master s; sw_Volume := None;
    sw_VolumeTopology := sw_VolumeTopology s; sw_Filer := None; sw_Admin := sw_Admin s;
    sw_Worker := sw_Worker s; sw_S3 := sw_S3 s; sw_SFTP := sw_SFTP s; sw_Backup := sw_Backup s;
    sw_SchedulerName := sw_SchedulerName s; sw_PVReclaimPolicy := sw_PVReclaimPolicy s;
    sw_ImagePullPolicy := sw_ImagePullPolicy s; sw_ImagePullSecrets := sw_ImagePullSecrets s;
    sw_EnablePVReclaim := sw_EnablePVReclaim s; sw_HostNetwork := sw_HostNetwork s; sw_Affinity := sw_Affinity s;
    sw_NodeSelector := sw_NodeSelector s; sw_Annotations := sw_Annotations s; sw_Labels := sw_Labels s;
    sw_Tolerations := sw_Tolerations s; sw_StatefulSetUpdateStrategy := sw_StatefulSetUpdateStrategy s;
    sw_VolumeServerDiskCount := sw_VolumeServerDiskCount s; sw_HostSuffix := Some "example";
    sw_LoggingArgs := sw_LoggingArgs s |} |}.
(** A host suffix without volume servers. *)
Lemma reconcile_panics_witness :
  let x := cluster_pass (sample_state suffix_without_volumes [ready_master]) in
  exists m, saw_kube x.1.2 (KGet KSeaweed sample_key) (Ok m) /\ (spec_complete m -> unannotated false m x.1.2).
Proof.
  intros x.
  apply (reconcile_panics false true false groups_of ingresses_of (fun _ => ltac:(reflexivity)) sample_key x.1.2).
  assert (Hp : x.2 = Panic) by (by vm_compute). rewrite <-Hp.
  exact (run_tracing sim (cluster_Reconcile false true false groups_of ingresses_of sample_key) _ []).
Defined.
