(* ===== verification/ClusterCorners.v ===== *)
(** * Corner cases of a cluster pass

    Behaviours of the components at the edges of their specs, each on the inputs
    where it shows. *)
From S2P Require Import Prelude Prog CoreTypes ApiTypes Effects Machinery Sim Trace.
From S2P Require Import Cluster VolumeEvac Upsert SecurityConfig Component BackupMirror.
From S2P Require Import VolumeClaims ClusterStatus.
From S2P Require Import Workloads MasterServers VolumeServers FilerServers AdminServers.
From S2P Require Import Ingresses Gateways Certificates.
From S2P Require Import ClusterController ClusterSafety ClusterShapes.
#[local] Existing Instances text_services text_ingresses.

(** A cluster that is gone is looked for again, although it was to be forgotten. *)
Theorem missing_cluster_requeued :
  (cluster_pass sim_empty).2 = Done (requeueIn (5 * Second)) None.
Proof. by vm_compute. Qed.

(** The containers of a pod are counted, not the pods: a sidecar makes one master of
    three a quorum. *)
Definition master_with_sidecar : Pod := {|
  p_Meta := set_meta (labelsForMaster "w") ∅ (sample_meta "ns" "w-master-0" 1); p_Phase := PodRunning;
  p_ContainersReady := [true; true] |}.
Theorem sidecar_counts_as_master :
  let m := {| sw_Meta := sample_meta "ns" "w" 1; sw_Spec := minimal_spec 3 None None; sw_Status := no_status |} in
  master_quorum (minimal_master 3) = 2%Z /\
  (run sim (waitForMasterStatefulSet m (minimal_master 3)) (sample_state m [master_with_sidecar])).2 = None.
Proof. by vm_compute. Qed.

(** Persistence that is turned on later: the merged set mounts a claim it has no
    template for, since the masters' templates are never reconciled. *)
Definition persistence : PersistenceSpec := {|
  ps_Enabled := true; ps_ExistingClaim := None; ps_MountPath := None; ps_SubPath := None; ps_AccessModes := [];
  ps_Selector := None; ps_Resources := ∅; ps_VolumeName := ""; ps_StorageClassName := None; ps_VolumeMode := None;
  ps_DataSource := None; ps_Annotations := ∅; ps_Labels := ∅ |}.
Definition persistent_master : MasterSpec :=
  let s := minimal_master 1 in {|
  master_Component := master_Component s; master_Resources := master_Resources s; master_Replicas := 1;
  master_Service := None; master_Config := None; master_ConfigSecret := None; master_MetricsPort := None;
  master_IPBind := None; master_Persistence := Some persistence; master_VolumePreallocate := None;
  master_VolumeSizeLimitMB := None; master_GarbageThreshold := None; master_PulseSeconds := None;
  master_DefaultReplication := None; master_ConcurrentStart := None; master_Ingress := None |}.
Theorem late_master_persistence_unresolved :
  let m s := {| sw_Meta := sample_meta "ns" "w" 1; sw_Spec := cluster_spec s None ∅ None None None;
                sw_Status := no_status |} in
  let existing := createMasterStatefulSet false (m (minimal_master 1)) (minimal_master 1) in
  let desired := createMasterStatefulSet false (m persistent_master) persistent_master in
  let merged := merge_template existing desired in
  flat_map (fun c => map vm_Name (c_VolumeMounts c)) (pod_Containers (sts_Pod merged)) = ["w-master"] /\
  pod_Volumes (sts_Pod merged) = [] /\ sts_VolumeClaimTemplates merged = [].
Proof. by vm_compute. Qed.

(** Volume servers scaled to zero: the set is neither gated nor scaled. *)
Theorem zero_volume_servers_left `{Owners} `{Digest} `{SpecJSON ServiceObjSpec} c w r m v :
  sw_VolumeTopology (sw_Spec m) = ∅ -> sw_Volume (sw_Spec m) = Some v -> IsDaemonSet v = false ->
  vspec_Replicas v = 0%Z -> ensureVolumeServers c w r m [] = Ret None.
Proof. intros Ht Hv Hd Hr. unfold ensureVolumeServers. by rewrite Ht, Hv, Hd, Hr. Qed.

(** A group of the topology inherits the metrics port for its command, and for
    nothing else. *)
Definition metrics_volume : VolumeSpec :=
  let c := minimal_volume_config in {|
  vspec_Config := {|
    vsc_Component := vsc_Component c; vsc_Resources := vsc_Resources c; vsc_Service := None;
    vsc_StorageClassName := None; vsc_StorageSelector := None; vsc_StorageAnnotations := ∅; vsc_StorageLabels := ∅;
    vsc_MetricsPort := Some 5555%Z; vsc_IPBind := None; vsc_CompactionMBps := None; vsc_FileSizeLimitMB := None;
    vsc_FixJpgOrientation := None; vsc_IdleTimeout := None; vsc_MaxVolumeCounts := None;
    vsc_MinFreeSpacePercent := None |};
  vspec_Replicas := 1; vspec_Kind := ""; vspec_HostPath := []; vspec_Rack := None; vspec_DataCenter := None;
  vspec_Ingress := None |}.
Theorem inherited_metrics_unexposed :
  let g := minimal_topology 1 "r" "d" in
  let m := {| sw_Meta := sample_meta "ns" "w" 1;
              sw_Spec := cluster_spec (minimal_master 1) (Some metrics_volume) {["g" := Some g]} None None None;
              sw_Status := no_status |} in
  Contains (buildVolumeServerStartupScriptWithTopology m "g" g ["/data0"]) "-metricsPort=5555" = true /\
  map sp_Port (svc_Ports (svc_Spec (createVolumeServerTopologyPeerService m "g" g))) =
    [VolumeHTTPPort; VolumeGRPCPort].
Proof. by vm_compute. Qed.

(** The pods of the admin server are named by a headless Service the certificate does
    not cover. *)
Theorem admin_peers_uncovered :
  let m := sample_cluster false None in
  bool_decide (peer_wildcard m "-master-peer" ∈ serverDNSNames m) = true /\
  bool_decide (peer_wildcard m "-admin-peer" ∈ serverDNSNames m) = false.
Proof. by vm_compute. Qed.

(** A config of the S3 gateway with a key and no Secret is passed on and not mounted. *)
Definition keyed_gateway : S3GatewaySpec := {|
  s3gw_Component := no_component_spec; s3gw_Resources := no_resources; s3gw_Replicas := 1; s3gw_Service := None;
  s3gw_ConfigSecret := Some {| sks_Name := ""; sks_Key := "config.json"; sks_Optional := None |};
  s3gw_MetricsPort := None; s3gw_Port := None; s3gw_DomainName := None; s3gw_IAM := true; s3gw_Ingress := None |}.
Theorem keyed_config_unmounted :
  Contains (buildS3GatewayStartupScript (sample_cluster false None) keyed_gateway []) "-config=/etc/sw/config.json" = true /\
  s3_config_disk keyed_gateway = ([], []).
Proof. by vm_compute. Qed.

(** The scan for the URL prefix knows no other flag and does not stop at the first
    argument that is none. *)
Theorem url_prefix_scan_differs :
  adminURLPrefix ["-dataDir"; "-urlPrefix=/a"] = "/a" /\ adminURLPrefix ["stop"; "-urlPrefix=/a"] = "/a".
Proof. by vm_compute. Qed.

(** A persistence of the filer at the path of its configuration is admitted; the
    container then mounts that path twice, which no API server accepts. *)
Definition filer_at (path : string) : FilerSpec :=
  let f := sample_filer false in {|
  filer_Component := filer_Component f; filer_Resources := filer_Resources f; filer_Replicas := 1;
  filer_Service := None; filer_Config := Some "[leveldb2]"; filer_ConfigSecret := None; filer_MetricsPort := None;
  filer_IPBind := None;
  filer_Persistence := Some {|
    ps_Enabled := true; ps_ExistingClaim := None; ps_MountPath := Some path; ps_SubPath := Some "";
    ps_AccessModes := []; ps_Selector := None; ps_Resources := ∅; ps_VolumeName := "";
    ps_StorageClassName := None; ps_VolumeMode := None; ps_DataSource := None; ps_Annotations := ∅; ps_Labels := ∅ |};
  filer_MaxMB := None; filer_S3 := None; filer_IAM := true; filer_Iceberg := None; filer_Ingress := None;
  filer_S3Ingress := None; filer_GRPCIngress := None |}.
Definition filer_paths (path : string) : list string :=
  let m := filer_cluster (filer_at path) None in
  match createFilerStatefulSet false m (filer_at path) with
  | Some o => flat_map (fun c => paths (c_VolumeMounts c)) (pod_Containers (sts_Pod o))
  | None => []
  end.
Theorem persistence_shadows_config :
  filer_paths "/data" = ["/etc/seaweedfs"; "/data"] /\
  filer_paths "/etc/seaweedfs" = ["/etc/seaweedfs"; "/etc/seaweedfs"].
Proof. by vm_compute. Qed.
