(* ===== verification/Webhook.v ===== *)
(** * The admission webhook (api/v1/seaweed_webhook.go)

    What is refused when a Seaweed resource is created or updated.  The validators
    collect errors; the declarative reading of what they accept is [admissible],
    and an accepted cluster is what the reconciler relies on.  The aggregation of
    errors is apimachinery's. *)
From Stdlib Require Import Ascii.
From S2P Require Import Prelude Prog CoreTypes ApiTypes Effects Machinery Sim Trace.
From S2P Require Import Cluster VolumeEvac GoPath Upsert Component ClusterStatus Workloads.
From S2P Require Import FilerServers Ingresses.
From S2P Require Import ClusterController ClusterSafety ClusterProgress.

(** [utilerrors.NewAggregate] *)
Class Aggregates := { NewAggregate : list error -> option error }.
Class AggregatesLaws `{Aggregates} := {
  aggregate_none : NewAggregate [] = None;
  aggregate_some e errs : NewAggregate (e :: errs) <> None;
}.

(** ** DNS labels

    The regular expression [^[a-z0-9]([-a-z0-9]*[a-z0-9])?$]. *)
Definition label_alnum (c : ascii) : bool :=
  let n := nat_of_ascii c in ((97 <=? n) && (n <=? 122)) || ((48 <=? n) && (n <=? 57)).
Definition label_char (c : ascii) : bool := label_alnum c || Ascii.eqb c "-"%char.
(** [([-a-z0-9]*[a-z0-9])$] *)
Fixpoint label_rest (s : string) : bool :=
  match s with
  | EmptyString => false
  | String c EmptyString => label_alnum c
  | String c s' => label_char c && label_rest s'
  end.
Definition rfc1123Label (s : string) : bool :=
  match s with
  | EmptyString => false
  | String c s' => label_alnum c && (bool_decide (s' = "") || label_rest s')
  end.
(** The name of a storage or a schedule. *)
Definition backup_name (s : string) : bool := rfc1123Label s && negb (50 <? String.length s).

Lemma label_rest_app s c : label_rest (s +:+ String c "") = all_chars label_char s && label_alnum c.
Proof.
  induction s as [|d s IH]; [done|]. change (String d s +:+ String c "") with (String d (s +:+ String c "")).
  cbn [label_rest all_chars]. destruct (s +:+ String c "") as [|e s'] eqn:Hs; [by destruct s|].
  rewrite IH. by rewrite andb_assoc.
Qed.
Lemma label_rest_last s :
  label_rest s = true -> exists t c, s = t +:+ String c "" /\ all_chars label_char t = true /\ label_alnum c = true.
Proof.
  induction s as [|c s IH]; [done|]. destruct s as [|d s].
  - intros Hc. by exists "", c.
  - change (label_char c && label_rest (String d s) = true -> exists t e,
      String c (String d s) = t +:+ String e "" /\ all_chars label_char t = true /\ label_alnum e = true).
    intros [Hc Hs]%andb_prop. destruct (IH Hs) as (t & e & -> & Ht & He).
    exists (String c t), e. split; [done|]. split; [|done]. simpl. by rewrite Hc.
Qed.
(** The names the expression matches. *)
Inductive dns_label : string -> Prop :=
| label_one c : label_alnum c = true -> dns_label (String c "")
| label_more c t d : label_alnum c = true -> all_chars label_char t = true -> label_alnum d = true ->
    dns_label (String c (t +:+ String d "")).
Lemma rfc1123Label_spec s : rfc1123Label s = true <-> dns_label s.
Proof.
  split.
  - destruct s as [|c s]; [done|]. cbn [rfc1123Label]. intros [Hc [Hs|Hs]%orb_prop]%andb_prop.
    + apply bool_decide_eq_true in Hs as ->. by constructor.
    + destruct (label_rest_last _ Hs) as (t & d & -> & Ht & Hd). by constructor.
  - intros [c Hc|c t d Hc Ht Hd]; cbn [rfc1123Label]; [by rewrite Hc|].
    by rewrite Hc, label_rest_app, Ht, Hd, orb_true_r.
Qed.

(** ** The validators *)
Definition error_when (b : bool) (msg : string) : list error := if b then [ErrOther msg] else [].
Section validators.
Context `{Aggregates} (m : Seaweed).
#[local] Notation spec := (sw_Spec m).

(** [errs] with the error of a validator that returns at most one. *)
Definition one (err : option error) : list error := match err with Some e => [e] | None => [] end.

(** The loop over the host paths; [seen] are the cleaned paths so far. *)
Fixpoint host_path_errors (i : nat) (seen : list string) (paths : list VolumeServerHostPath) : list error :=
  match paths with
  | [] => []
  | hp :: paths =>
      let clean := Clean (hp_Path hp) in
      let field := "spec.volume.hostPath[" +:+ fmt_d (Z.of_nat i) +:+ "].path " +:+ fmt_q (hp_Path hp) in
      error_when (negb (HasPrefix clean "/")) (field +:+ " must be an absolute path") ++
      error_when (bool_decide (clean ∈ seen)) (field +:+ " is duplicated") ++
      host_path_errors (S i) (clean :: seen) paths
  end.
Definition zero_storage (vol : VolumeSpec) : bool :=
  match Requests (vsc_Resources (vspec_Config vol)) !! ResourceStorage with
  | Some q => bool_decide (q_Nano q = 0%Z)
  | None => true
  end.
Definition volume_errors (vol : VolumeSpec) : list error :=
  let usesHostPath := 0 <? length (vspec_HostPath vol) in
  error_when (IsDaemonSet vol && negb usesHostPath)
    "spec.volume.kind=DaemonSet requires spec.volume.hostPath to be set; DaemonSets cannot use PVC volumeClaimTemplates" ++
  error_when (IsDaemonSet vol && (0 <? size (sw_VolumeTopology spec)))
    "spec.volume.kind=DaemonSet is not supported together with spec.volumeTopology" ++
  host_path_errors 0 [] (vspec_HostPath vol) ++
  error_when (negb usesHostPath && zero_storage vol) "volume storage request cannot be zero".
Definition validateVolume : option error :=
  match sw_Volume spec with
  | None => None
  | Some vol => NewAggregate (volume_errors vol)
  end.

Definition validateMasterPersistence : option error :=
  match sw_Master spec with
  | None => None
  | Some master =>
      match master_Persistence master with
      | None => None
      | Some p =>
          if negb (ps_Enabled p) then None
          else if present (ps_ExistingClaim p) && (1 <? master_Replicas master)%Z
          then Some (ErrOther ("spec.master.persistence.existingClaim cannot be shared by " +:+
                 fmt_d (master_Replicas master) +:+ " masters; omit it so each replica gets its own claim"))
          else None
      end
  end.
Definition validateS3Exclusivity : option error :=
  if present (sw_S3 spec) && embedded_s3 m
  then Some (ErrOther "spec.s3 and spec.filer.s3.enabled cannot both be set; spec.filer.s3 is deprecated — migrate to the top-level spec.s3 standalone gateway")
  else None.
Definition validateSFTP : option error :=
  if present (sw_SFTP spec) && negb (present (sw_Filer spec))
  then Some (ErrOther "spec.sftp requires spec.filer to be configured")
  else None.

Definition needs_secret (st : BackupStorageSpec) : bool :=
  bool_decide (st_Type st = BackupStorageAzure) || bool_decide (st_Type st = BackupStorageB2).
Definition storage_errors (x : string * BackupStorageSpec) : list error :=
  error_when (negb (backup_name x.1))
    ("spec.backup.storages: storage name " +:+ fmt_q x.1 +:+
     " must be a lowercase RFC1123 label of at most 50 characters") ++
  error_when (needs_secret x.2 && bool_decide (default "" (st_CredentialsSecret x.2) = ""))
    ("spec.backup.storages[" +:+ x.1 +:+ "]: type " +:+ fmt_q (st_Type x.2) +:+ " requires credentialsSecret").
Definition schedule_errors (s : BackupScheduleSpec) : list error :=
  error_when (negb (backup_name (sched_Name s)))
    ("spec.backup.schedule[" +:+ sched_Name s +:+
     "]: name must be a lowercase RFC1123 label of at most 50 characters").
(** [order] are the storages in the order the map is visited. *)
Definition validateBackup (order : list (string * BackupStorageSpec)) : list error :=
  match sw_Backup spec with
  | None => []
  | Some b => flat_map storage_errors order ++ flat_map schedule_errors (bkp_Schedule b)
  end.

Definition s3DeprecationWarnings : list string :=
  if embedded_s3 m
  then ["spec.filer.s3 is deprecated and will be removed in a future release. Migrate to the top-level spec.s3 standalone gateway for independent scaling."]
  else [].

(** ** Admission *)
Definition common_errors (order : list (string * BackupStorageSpec)) : list error :=
  match sw_Volume spec with
  | None => [ErrOther "missing volume spec"]
  | Some _ => one validateVolume
  end ++
  error_when (present (sw_Worker spec) && negb (present (sw_Admin spec)))
    "spec.worker requires spec.admin to be configured" ++
  one validateMasterPersistence ++ one validateS3Exclusivity ++ one validateSFTP ++
  validateBackup order.
Definition create_errors (order : list (string * BackupStorageSpec)) : list error :=
  error_when (negb (present (sw_Master spec))) "missing master spec" ++ common_errors order.
Definition ValidateCreate (order : list (string * BackupStorageSpec)) : list string * option error :=
  (s3DeprecationWarnings, NewAggregate (create_errors order)).
Definition ValidateUpdate (order : list (string * BackupStorageSpec)) : list string * option error :=
  (s3DeprecationWarnings, NewAggregate (common_errors order)).
Definition ValidateDelete : list string * option error := ([], None).
End validators.
(** The defaulter leaves the object as it is. *)
Definition Default (m : Seaweed) : Seaweed * option error := (m, None).

(** ** What is accepted *)
Record volume_admissible (m : Seaweed) (vol : VolumeSpec) : Prop := {
  daemonset_paths : IsDaemonSet vol = true -> vspec_HostPath vol <> [] /\ sw_VolumeTopology (sw_Spec m) = ∅;
  paths_absolute hp : hp ∈ vspec_HostPath vol -> HasPrefix (Clean (hp_Path hp)) "/" = true;
  paths_distinct : NoDup (map (fun hp => Clean (hp_Path hp)) (vspec_HostPath vol));
  claims_sized : vspec_HostPath vol = [] ->
    exists q, Requests (vsc_Resources (vspec_Config vol)) !! ResourceStorage = Some q /\ q_Nano q <> 0%Z;
}.
Definition valid_name (s : string) : Prop := dns_label s /\ String.length s <= 50.
Record backup_admissible (b : BackupSpec) : Prop := {
  storages_named name st : bkp_Storages b !! name = Some st -> valid_name name;
  keys_given name st : bkp_Storages b !! name = Some st ->
    st_Type st = BackupStorageAzure \/ st_Type st = BackupStorageB2 ->
    exists secret, st_CredentialsSecret st = Some secret /\ secret <> "";
  schedules_named s : s ∈ bkp_Schedule b -> valid_name (sched_Name s);
}.
(** What creation and update have in common; creation also asks for masters. *)
Record admissible (m : Seaweed) : Prop := {
  has_volumes : exists vol, sw_Volume (sw_Spec m) = Some vol /\ volume_admissible m vol;
  worker_admin w : sw_Worker (sw_Spec m) = Some w -> sw_Admin (sw_Spec m) <> None;
  claim_unshared master p claim :
    sw_Master (sw_Spec m) = Some master -> master_Persistence master = Some p -> ps_Enabled p = true ->
    ps_ExistingClaim p = Some claim -> (master_Replicas master <= 1)%Z;
  one_s3 g : sw_S3 (sw_Spec m) = Some g -> embedded_s3 m = false;
  sftp_filer g : sw_SFTP (sw_Spec m) = Some g -> sw_Filer (sw_Spec m) <> None;
  backups b : sw_Backup (sw_Spec m) = Some b -> backup_admissible b;
}.

Lemma when_nil b msg : error_when b msg = [] <-> b = false.
Proof. by destruct b. Qed.
Lemma app_nil_iff {A} (l k : list A) : l ++ k = [] <-> l = [] /\ k = [].
Proof. split; [apply app_eq_nil|by intros [-> ->]]. Qed.
Lemma present_none {A} (x : option A) : present x = false <-> x = None.
Proof. by destruct x. Qed.
Lemma flat_map_nil {A B} (f : A -> list B) l : flat_map f l = [] <-> forall x, x ∈ l -> f x = [].
Proof.
  induction l as [|x l IH]; simpl; [split; [by intros _ ? ?%elem_of_nil|done]|].
  rewrite app_nil_iff, IH. setoid_rewrite elem_of_cons. naive_solver.
Qed.
Lemma backup_name_valid s : backup_name s = true <-> valid_name s.
Proof. unfold backup_name, valid_name. rewrite andb_true_iff, rfc1123Label_spec, negb_true_iff, Nat.ltb_ge. done. Qed.

Section accepted.
Context `{AggregatesLaws} (m : Seaweed).
#[local] Set Default Proof Using "Type*".
Lemma aggregate_accepts errs : NewAggregate errs = None <-> errs = [].
Proof. split; [|by intros ->; apply aggregate_none]. destruct errs; [done|]. by intros Hn%aggregate_some. Qed.
Lemma one_nil err : one err = [] <-> err = None.
Proof. by destruct err. Qed.
Lemma host_paths_accepted i seen paths :
  host_path_errors i seen paths = [] <->
  (forall hp, hp ∈ paths -> HasPrefix (Clean (hp_Path hp)) "/" = true) /\
  (forall hp, hp ∈ paths -> Clean (hp_Path hp) ∉ seen) /\
  NoDup (map (fun hp => Clean (hp_Path hp)) paths).
Proof.
  revert i seen; induction paths as [|hp paths IH]; intros i seen.
  - split; [|done]. intros _. split_and!; [by intros ? ?%elem_of_nil..|constructor].
  - cbn [host_path_errors map]. rewrite !app_nil_iff, !when_nil, IH, negb_false_iff, bool_decide_eq_false, NoDup_cons.
    setoid_rewrite elem_of_cons. rewrite list_elem_of_fmap. naive_solver.
Qed.
Lemma zero_storage_spec vol :
  zero_storage vol = false <->
  exists q, Requests (vsc_Resources (vspec_Config vol)) !! ResourceStorage = Some q /\ q_Nano q <> 0%Z.
Proof.
  unfold zero_storage. destruct (Requests _ !! _) as [q|]; [rewrite bool_decide_eq_false|]; naive_solver.
Qed.
Lemma volume_accepted vol : volume_errors m vol = [] <-> volume_admissible m vol.
Proof.
  unfold volume_errors. rewrite !app_nil_iff, !when_nil, host_paths_accepted, !andb_false_iff, zero_storage_spec.
  rewrite !negb_false_iff, !Nat.ltb_lt, Nat.ltb_ge.
  assert (Hsize : size (sw_VolumeTopology (sw_Spec m)) <= 0 <-> sw_VolumeTopology (sw_Spec m) = ∅).
  { rewrite Nat.le_0_r. apply map_size_empty_iff. }
  rewrite Hsize. clear Hsize.
  assert (Hlen : 0 < length (vspec_HostPath vol) <-> vspec_HostPath vol <> []) by (destruct (vspec_HostPath vol); simpl; split; (lia || done)).
  rewrite Hlen. split.
  - intros (Hd & Ht & (Ha & _ & Hn) & Hs). constructor; [|done..|].
    + intros Hk. split; [by destruct Hd as [Hd|]; [congruence|]|by destruct Ht; [congruence|]].
    + intros He. by destruct Hs.
  - intros [Hd Ha Hn Hs]. split_and!; try done.
    + destruct (IsDaemonSet vol); [right|by left]. by apply Hd.
    + destruct (IsDaemonSet vol); [right|by left]. by apply Hd.
    + by intros hp _ ?%elem_of_nil.
    + destruct (vspec_HostPath vol); [right; by apply Hs|by left].
Qed.
Lemma storage_accepted x :
  storage_errors x = [] <->
  valid_name x.1 /\
  (st_Type x.2 = BackupStorageAzure \/ st_Type x.2 = BackupStorageB2 ->
   exists secret, st_CredentialsSecret x.2 = Some secret /\ secret <> "").
Proof.
  unfold storage_errors, needs_secret. rewrite app_nil_iff, !when_nil, negb_false_iff, backup_name_valid.
  rewrite andb_false_iff, orb_false_iff, !bool_decide_eq_false.
  destruct (st_CredentialsSecret x.2) as [s|]; simpl; [destruct (decide (s = ""))|]; naive_solver.
Qed.
Lemma backup_accepted b order :
  order ≡ₚ map_to_list (bkp_Storages b) ->
  flat_map storage_errors order ++ flat_map schedule_errors (bkp_Schedule b) = [] <-> backup_admissible b.
Proof.
  intros Ho. rewrite app_nil_iff, !flat_map_nil.
  assert (Hin : forall x, x ∈ order <-> bkp_Storages b !! x.1 = Some x.2).
  { intros [k v]. by rewrite Ho, elem_of_map_to_list. }
  setoid_rewrite Hin. setoid_rewrite storage_accepted. unfold schedule_errors.
  setoid_rewrite when_nil. setoid_rewrite negb_false_iff. setoid_rewrite backup_name_valid. split.
  - intros [Hs Hc]. constructor; [|intros name st Hl; by apply (Hs (name, st))|done].
    intros name st Hl. by destruct (Hs (name, st) Hl).
  - intros [Hn Hk Hs]. split; [|done]. intros [name st] Hl. split; [by eapply Hn|by eapply Hk].
Qed.
Lemma persistence_accepted :
  validateMasterPersistence m = None <->
  forall master p claim,
    sw_Master (sw_Spec m) = Some master -> master_Persistence master = Some p -> ps_Enabled p = true ->
    ps_ExistingClaim p = Some claim -> (master_Replicas master <= 1)%Z.
Proof.
  unfold validateMasterPersistence. split.
  - intros Hv master p claim Hm Hp He Hc. rewrite Hm, Hp, He, Hc in Hv. simpl in Hv.
    destruct (Z.ltb_spec 1 (master_Replicas master)); [done|lia].
  - intros Ha. destruct (sw_Master (sw_Spec m)) as [master|]; [|done].
    destruct (master_Persistence master) as [p|] eqn:Hp; [|done]. destruct (ps_Enabled p) eqn:He; [|done].
    destruct (ps_ExistingClaim p) as [c|] eqn:Hc; [|done]. simpl.
    destruct (Z.ltb_spec 1 (master_Replicas master)); [|done]. specialize (Ha _ _ _ eq_refl Hp He Hc). lia.
Qed.

Definition visits_storages (order : list (string * BackupStorageSpec)) : Prop :=
  forall b, sw_Backup (sw_Spec m) = Some b -> order ≡ₚ map_to_list (bkp_Storages b).
Lemma common_accepted order :
  visits_storages order -> common_errors m order = [] <-> admissible m.
Proof.
  intros Ho. unfold common_errors, validateBackup, validateVolume, validateS3Exclusivity, validateSFTP.
  rewrite !app_nil_iff, !one_nil, !when_nil, persistence_accepted. split.
  - intros (Hv & Hw & Hp & H3 & Hf & Hb). constructor; try done.
    + destruct (sw_Volume (sw_Spec m)) as [vol|]; [|done]. exists vol.
      by rewrite one_nil, aggregate_accepts, volume_accepted in Hv.
    + intros w Hs. rewrite Hs in Hw. by destruct (sw_Admin (sw_Spec m)).
    + intros g Hs. rewrite Hs in H3. by destruct (embedded_s3 m).
    + intros g Hs. rewrite Hs in Hf. by destruct (sw_Filer (sw_Spec m)).
    + intros b Hs. rewrite Hs in Hb. by apply (backup_accepted b order (Ho _ Hs)).
  - intros [(vol & Hv & Hvol) Hw Hp H3 Hf Hb]. split_and!; try done.
    + rewrite Hv. by rewrite one_nil, aggregate_accepts, volume_accepted.
    + destruct (sw_Worker (sw_Spec m)), (sw_Admin (sw_Spec m)); naive_solver.
    + destruct (sw_S3 (sw_Spec m)); [|done]. simpl. by erewrite H3.
    + destruct (sw_SFTP (sw_Spec m)), (sw_Filer (sw_Spec m)); naive_solver.
    + destruct (sw_Backup (sw_Spec m)) as [b|] eqn:Hs; [|done]. apply (backup_accepted b order (Ho _ Hs)). by apply Hb.
Qed.

(** C4. The webhook decides exactly its declarative reading: a cluster is created
    when it has masters and is admissible - a host path for a DaemonSet, absolute and
    distinct host paths or a non-zero claim, an admin server behind its workers, one
    S3 endpoint, a filer behind SFTP, an unshared claim of the masters, and storages
    and schedules with names and keys that the objects made of them can carry - and
    an update is accepted when it is admissible. *)
Theorem webhook_decides order :
  visits_storages order ->
  ((ValidateCreate m order).2 = None <-> sw_Master (sw_Spec m) <> None /\ admissible m) /\
  ((ValidateUpdate m order).2 = None <-> admissible m).
Proof.
  intros Ho. unfold ValidateCreate, ValidateUpdate, create_errors. cbn [snd].
  rewrite !aggregate_accepts, app_nil_iff, when_nil, negb_false_iff, common_accepted by done.
  destruct (sw_Master (sw_Spec m)); naive_solver.
Qed.
End accepted.

(** ** What the reconciler gets from it *)
(** A created cluster is complete but for what the schema of the resource fills in. *)
Definition groups_given (m : Seaweed) : Prop := forall t, sw_VolumeTopology (sw_Spec m) !! t <> Some None.
Definition paths_given (m : Seaweed) : Prop :=
  forall f p, sw_Filer (sw_Spec m) = Some f -> filer_Persistence f = Some p -> ps_Enabled p = true ->
    ps_MountPath p <> None /\ ps_SubPath p <> None.
Lemma admitted_complete m :
  sw_Master (sw_Spec m) <> None -> admissible m -> groups_given m -> paths_given m -> spec_complete m.
Proof.
  intros Hm [(vol & Hvol & _) _ _ _ _ _] Hg Hp. split; [done|]. split; [done|]. split; [by intros h _ _; rewrite Hvol|].
  intros f Hf. unfold filer_data_disk. destruct (filer_Persistence f) as [p|] eqn:Hps; [|done].
  destruct (ps_Enabled p) eqn:He; [|done]. destruct (Hp f p Hf Hps He) as [H1 H2].
  simpl. by destruct (ps_ExistingClaim p), (ps_MountPath p), (ps_SubPath p).
Qed.
#[export] Instance groups_given_dec m : Decision (groups_given m).
Proof.
  destruct (decide (map_Forall (fun _ g => g <> None) (sw_VolumeTopology (sw_Spec m)))) as [Hg|Hg]; [left|right].
  - intros t Ht. by apply (Hg t None).
  - intros Ht. apply Hg. intros t g Hl ->. by apply (Ht t).
Defined.
#[export] Instance paths_given_dec m : Decision (paths_given m).
Proof.
  unfold paths_given. destruct (sw_Filer (sw_Spec m)) as [f|]; [|by left].
  destruct (filer_Persistence f) as [p|] eqn:Hp; [|left; intros ?? [= <-]; by rewrite Hp].
  destruct (decide (ps_Enabled p = true -> ps_MountPath p <> None /\ ps_SubPath p <> None)) as [Hd|Hd]; [left|right].
  - intros f' p' [= <-]. rewrite Hp. intros [= <-]. exact Hd.
  - intros Ha. apply Hd. by apply (Ha f p).
Defined.

Section reconcile.
Context `{AggregatesLaws} `{ApiMachinery} `{OwnersLaws} `{Digest}.
Context `{SpecJSON ServiceObjSpec} `{SpecJSON PodSpec} `{SpecJSON IngressObjSpec}.
Context (topology_order : Seaweed -> list (string * option VolumeTopologySpec)).
Context (Htopologies : forall m, topology_order m ≡ₚ map_to_list (sw_VolumeTopology (sw_Spec m))).
Context (ingress_order : Seaweed -> list (string * desired_ingress)).
Context (cert_manager wired recorder : bool).

(** C33. What the webhook lets be created makes a pass panic in three ways only: if a
    pass panics, the cluster it read would be refused on creation, or has a group of
    the topology without a value, or an enabled persistence of the filer without the
    paths that the schema of the resource defaults; or the pass read the Deployment of
    its workers or of a gateway, found no annotations in the template of the pods, a
    nil map, and is to write some there. *)
Theorem created_panic_causes key tr :
  exec trace_env (cluster_Reconcile cert_manager wired recorder topology_order ingress_order key) [] tr Panic ->
  exists m, saw_kube tr (KGet KSeaweed key) (Ok m) /\
    forall order, visits_storages m order ->
      (ValidateCreate m order).2 <> None \/ ~ groups_given m \/ ~ paths_given m \/ unannotated cert_manager m tr.
Proof using Type*.
  intros (m & Hm & Hn)%(panic_incomplete cert_manager wired recorder topology_order ingress_order); [|done].
  exists m. split; [done|]. intros order Ho.
  destruct (NewAggregate (create_errors m order)) eqn:Hc; [by left; cbn; rewrite Hc|right].
  apply aggregate_accepts in Hc. unfold create_errors in Hc. rewrite app_nil_iff, when_nil, negb_false_iff in Hc.
  destruct Hc as [Hm' Hc]. apply (common_accepted m order Ho) in Hc.
  destruct (decide (groups_given m)) as [Hg|]; [right|by left].
  destruct (decide (paths_given m)) as [Hp|]; [right|by left].
  apply Hn, admitted_complete; [|done..]. by destruct (sw_Master (sw_Spec m)).
Qed.
End reconcile.

(** No Ingress of an accepted cluster shadows another: the wanted set has each. *)
Lemma keys_want m key c s p spec :
  map fst (want m key c s p spec) `sublist_of` [Name (sw_Meta m) +:+ key].
Proof. unfold want. destruct (enabled_ingress spec); [done|apply sublist_nil_l]. Qed.
Lemma insert_all_lookup (acc : gmap string desired_ingress) l k d :
  NoDup (map fst l) -> (k, d) ∈ l -> foldl (fun acc x => <[x.1 := x.2]> acc) acc l !! k = Some d.
Proof.
  revert acc; induction l as [|[k' d'] l IH]; intros acc; [by intros _ ?%elem_of_nil|].
  cbn [map fst foldl snd]. intros [Hk Hn]%NoDup_cons [[= <- <-]|Hin]%elem_of_cons; [|by apply IH].
  clear IH. assert (Ha : <[k:=d]> acc !! k = Some d) by apply lookup_insert_eq. revert Ha.
  generalize (<[k:=d]> acc). clear acc Hn. induction l as [|[k2 d2] l IH]; intros acc Ha; [done|].
  cbn [foldl fst snd]. apply IH; [by intros Hin; apply Hk; right|].
  rewrite lookup_insert_ne; [done|]. intros ->. apply Hk. by left.
Qed.
Lemma insert_all_inv (acc : gmap string desired_ingress) l k d :
  foldl (fun acc x => <[x.1 := x.2]> acc) acc l !! k = Some d -> acc !! k = Some d \/ (k, d) ∈ l.
Proof.
  revert acc; induction l as [|[k' d'] l IH]; intros acc; [by left|]. cbn [foldl fst snd]. intros [Ha|Ha]%IH.
  - destruct (decide (k' = k)) as [->|Hk].
    + rewrite lookup_insert_eq in Ha. injection Ha as ->. right. by left.
    + rewrite lookup_insert_ne in Ha by done. by left.
  - right. by right.
Qed.
Definition ingress_keys (embedded : bool) : list string :=
  ["-master-ingress"] ++ ["-volume-ingress"] ++ ["-filer-ingress"] ++ (if embedded then ["-s3-ingress"] else []) ++
  ["-filer-grpc-ingress"] ++ ["-admin-ingress"] ++ (if embedded then [] else ["-s3-ingress"]).
Lemma wanted_keys_distinct m :
  (forall g, sw_S3 (sw_Spec m) = Some g -> embedded_s3 m = false) -> NoDup (map fst (wanted_assignments m)).
Proof.
  intros Hs. apply (sublist_NoDup _ (map (String.append (Name (sw_Meta m))) (ingress_keys (embedded_s3 m)))).
  - apply (NoDup_fmap_2 _). destruct (embedded_s3 m); apply (bool_decide_unpack _); by vm_compute.
  - unfold wanted_assignments, ingress_keys. cbv zeta. rewrite !map_app.
    assert (Hg : embedded_s3 m = true -> sw_S3 (sw_Spec m) = None).
    { destruct (sw_S3 (sw_Spec m)) as [g|]; [|done]. rewrite (Hs g eq_refl). done. }
    destruct (embedded_s3 m); [rewrite Hg by done|]; repeat apply sublist_app; try apply keys_want; done.
Qed.

(** In an accepted cluster no Ingress shadows another: the wanted set, whose keys
    are object names, is exactly what the components ask for. *)
Theorem accepted_ingresses_wanted m k d :
  admissible m -> wanted m !! k = Some d <-> (k, d) ∈ wanted_assignments m.
Proof.
  intros Ha. unfold wanted. split.
  - intros [Hl|Hl]%insert_all_inv; [by rewrite lookup_empty in Hl|done].
  - apply insert_all_lookup, wanted_keys_distinct. intros g. apply one_s3, Ha.
Qed.

(** ** Evaluations *)
#[local] Existing Instances text_services text_ingresses.
#[local] Instance first_error : Aggregates := {| NewAggregate := head |}.
#[local] Instance first_error_laws : AggregatesLaws.
Proof. by split. Qed.
(** The sample cluster with these masters, volume servers and storages. *)
Definition cluster_with (master : option MasterSpec) (volume : VolumeSpec) (backup : option BackupSpec) : Seaweed :=
  let m := sample_cluster true None in
  let s := sw_Spec m in {|
  sw_Meta := sw_Meta m; sw_Status := sw_Status m;
  sw_Spec := {|
    sw_TLS := sw_TLS s; sw_SecurityConfig := sw_SecurityConfig s; sw_MetricsAddress := sw_MetricsAddress s;
    sw_Image := sw_Image s; sw_Version := sw_Version s; sw_Master := master; sw_Volume := Some volume;
    sw_VolumeTopology := sw_VolumeTopology s; sw_Filer := sw_Filer s; sw_Admin := sw_Admin s;
    sw_Worker := sw_Worker s; sw_S3 := sw_S3 s; sw_SFTP := sw_SFTP s; sw_Backup := backup;
    sw_SchedulerName := sw_SchedulerName s; sw_PVReclaimPolicy := sw_PVReclaimPolicy s;
    sw_ImagePullPolicy := sw_ImagePullPolicy s; sw_ImagePullSecrets := sw_ImagePullSecrets s;
    sw_EnablePVReclaim := sw_EnablePVReclaim s; sw_HostNetwork := sw_HostNetwork s; sw_Affinity := sw_Affinity s;
    sw_NodeSelector := sw_NodeSelector s; sw_Annotations := sw_Annotations s; sw_Labels := sw_Labels s;
    sw_Tolerations := sw_Tolerations s; sw_StatefulSetUpdateStrategy := sw_StatefulSetUpdateStrategy s;
    sw_VolumeServerDiskCount := sw_VolumeServerDiskCount s; sw_HostSuffix := sw_HostSuffix s;
    sw_LoggingArgs := sw_LoggingArgs s |} |}.
Definition volume_at (paths : list string) (kind : string) : VolumeSpec := {|
  vspec_Config := minimal_volume_config; vspec_Replicas := 1; vspec_Kind := kind;
  vspec_HostPath := map (fun p => {| hp_Path := p; hp_MaxVolumeCount := None; hp_Type := None |}) paths;
  vspec_Rack := None; vspec_DataCenter := None; vspec_Ingress := None |}.
Definition one_storage (name type : string) (secret : option string) : BackupSpec := {|
  bkp_Image := None; bkp_Schedule := []; bkp_DataMirror := [];
  bkp_Storages := {[ name := {| st_Type := type; st_S3 := None; st_GCS := None; st_Azure := None; st_B2 := None;
                                st_Filesystem := None; st_CredentialsSecret := secret |} ]} |}.
Definition storages_of (m : Seaweed) : list (string * BackupStorageSpec) :=
  match sw_Backup (sw_Spec m) with Some b => map_to_list (bkp_Storages b) | None => [] end.
Lemma storages_of_visits m : visits_storages m (storages_of m).
Proof. intros b Hb. unfold storages_of. by rewrite Hb. Qed.
Definition created (m : Seaweed) : option error := (ValidateCreate m (storages_of m)).2.
Definition updated (m : Seaweed) : option error := (ValidateUpdate m (storages_of m)).2.
Definition azure_cluster : Seaweed :=
  cluster_with (Some (minimal_master 1)) (volume_at ["/data1"; "/data/../data2"] VolumeServerDaemonSet)
    (Some (one_storage "off-site" BackupStorageAzure (Some "azure-key"))).

Lemma webhook_decides_witness :
  created azure_cluster = None /\ admissible azure_cluster /\
  updated (cluster_with None (volume_at ["/data"; "/data/"] "") None) =
    Some (ErrOther ("spec.volume.hostPath[1].path " +:+ fmt_q "/data/" +:+ " is duplicated")).
Proof.
  assert (Hc : created azure_cluster = None) by (by vm_compute). split; [done|]. split; [|by vm_compute].
  apply (webhook_decides azure_cluster _ (storages_of_visits azure_cluster)), Hc.
Defined.
Lemma accepted_ingresses_wanted_witness :
  (exists d, wanted azure_cluster !! "w-s3-ingress" = Some d /\ di_service d = "w-filer") /\
  map fst (wanted_assignments azure_cluster) = ["w-s3-ingress"].
Proof.
  split; [|by vm_compute]. eexists. split; [|shelve].
  apply (accepted_ingresses_wanted azure_cluster).
  - apply (common_accepted azure_cluster (storages_of azure_cluster)); [apply storages_of_visits|by vm_compute].
  - by left.
  Unshelve. done.
Defined.
Definition masterless : Seaweed := cluster_with None (volume_at ["/data"] "") None.
Lemma created_panic_causes_witness :
  let x := cluster_pass (sample_state masterless [ready_master]) in
  exists m, saw_kube x.1.2 (KGet KSeaweed sample_key) (Ok m) /\
    forall order, visits_storages m order ->
      (ValidateCreate m order).2 <> None \/ ~ groups_given m \/ ~ paths_given m \/ unannotated false m x.1.2.
Proof.
  intros x.
  apply (created_panic_causes groups_of (fun _ => ltac:(reflexivity)) ingresses_of false true false sample_key x.1.2).
  assert (Hp : x.2 = Panic) by (by vm_compute). rewrite <-Hp.
  exact (run_tracing sim (cluster_Reconcile false true false groups_of ingresses_of sample_key) _ []).
Defined.

(** An update may take away the masters, which a creation may not, and the reconciler
    panics on what is left. *)
Theorem update_drops_masters :
  created masterless = Some (ErrOther "missing master spec") /\ updated masterless = None /\
  (cluster_pass (sample_state masterless [ready_master])).2 = Panic.
Proof. by vm_compute. Qed.
(** A disabled group of volume servers beside a topology, as documented for the
    migration, is refused for want of a storage request it would not use. *)
Definition migrated : Seaweed := {|
  sw_Meta := sample_meta "ns" "w" 1; sw_Status := no_status;
  sw_Spec := cluster_spec (minimal_master 1) (Some (minimal_volume 0))
               {[ "dc1-rack1" := Some (minimal_topology 3 "rack1" "dc1") ]} None None None |}.
Theorem migration_example_refused :
  created migrated = Some (ErrOther "volume storage request cannot be zero") /\
  updated migrated = created migrated.
Proof. by vm_compute. Qed.
