(* ===== verification/AdminScripts.v ===== *)
(** * The AdminScript controller (adminscript_controller.go)

    A script for the weed shell on a schedule, rendered into a CronJob that the
    script owns.  The spec the CronJob was last given is kept as JSON in an
    annotation, and compared instead of the spec. *)
From S2P Require Import Prelude Prog CoreTypes ApiTypes Effects Machinery Sim Store Trace.
From S2P Require Import Cluster Upsert SecurityConfig Component BackupJobs ClusterStatus.
From S2P Require Import Workloads ClusterShapes.

Definition adminScriptRequeueAfter : Z := 30 * Second.
Definition adminScriptEnvVar : string := "WEED_SHELL_SCRIPT".
Definition ForbidConcurrent : string := "Forbid".
Definition RestartPolicyNever : string := "Never".

(** ** The CronJob *)
Definition labelsForAdminScript (name : string) : gmap string string := component_labels "admin-script" name.
Definition adminScriptConcurrencyPolicy (script : AdminScript) : string :=
  let p := as_ConcurrencyPolicy (as_Spec script) in if negb (bool_decide (p = "")) then p else ForbidConcurrent.
Definition adminScriptRestartPolicy (script : AdminScript) : string :=
  let p := as_RestartPolicy (as_Spec script) in if negb (bool_decide (p = "")) then p else RestartPolicyNever.
Definition adminScriptImagePullSecrets (script : AdminScript) (cluster : Seaweed) : list string :=
  let s := as_ImagePullSecrets (as_Spec script) in
  if (0 <? length s)%nat then s else sw_ImagePullSecrets (sw_Spec cluster).
Definition adminScriptCredentialsSecretName (script : AdminScript) (cluster : Seaweed) : string :=
  let own := default "" (as_CredentialsSecret (as_Spec script)) in
  if negb (bool_decide (own = "")) then own
  else default "" (sw_Admin (sw_Spec cluster) ≫= admin_CredentialsSecret).
Definition adminScriptImage (script : AdminScript) (cluster : Seaweed) : string :=
  let own := default "" (as_Image (as_Spec script)) in
  if negb (bool_decide (own = "")) then own else ClusterImage cluster.

Definition script_weed_command (cluster : Seaweed) : list string :=
  weedPreamble cluster (sw_LoggingArgs (sw_Spec cluster)) "shell" ++
  ["-master=" +:+ master_peers cluster] ++
  (if present (sw_Filer (sw_Spec cluster)) then ["-filer=" +:+ getFilerAddress cluster] else []).
(** The arguments of weed are the positional parameters of the shell. *)
Definition script_shell : string :=
  "printf '%s\n' " +:+ dquote +:+ "$" +:+ adminScriptEnvVar +:+ dquote +:+ " | " +:+ dquote +:+ "$@" +:+ dquote.

Section build.
Context (cert_manager : bool) (script : AdminScript) (cluster : Seaweed).
#[local] Notation spec := (as_Spec script).

Definition script_container (mounts : list VolumeMount) : Container :=
  let credName := adminScriptCredentialsSecretName script cluster in {|
  c_Name := "weed-shell"; c_Image := adminScriptImage script cluster;
  c_ImagePullPolicy := sw_ImagePullPolicy (sw_Spec cluster); c_SecurityContext := None;
  c_Env := {| env_Name := adminScriptEnvVar; env_Value := as_Script spec; env_ValueFrom := None |}
             :: kubernetesEnvVars;
  c_EnvFrom := if negb (bool_decide (credName = "")) then [(credName, Some true)] else [];
  c_Resources := filterContainerResources (as_Resources spec);
  c_Command := shell script_shell ++ ["--"] ++ script_weed_command cluster; c_Args := []; c_Ports := [];
  c_VolumeMounts := mounts; c_ReadinessProbe := None; c_LivenessProbe := None |}.
Definition script_pod : PodSpec :=
  let '(tlsVols, tlsMounts) := tlsVolumesAndMounts cert_manager cluster in {|
  pod_RestartPolicy := adminScriptRestartPolicy script; pod_SchedulerName := "";
  pod_Affinity := as_Affinity spec; pod_NodeSelector := as_NodeSelector spec; pod_HostNetwork := false;
  pod_HostPID := false; pod_Tolerations := as_Tolerations spec; pod_PriorityClassName := "";
  pod_ServiceAccountName := as_ServiceAccountName spec;
  pod_ImagePullSecrets := adminScriptImagePullSecrets script cluster;
  pod_TerminationGracePeriodSeconds := None; pod_SecurityContext := None; pod_EnableServiceLinks := None;
  pod_Containers := [script_container tlsMounts]; pod_InitContainers := []; pod_Volumes := tlsVols |}.
Definition buildCronJob : CronJob :=
  let labels := labelsForAdminScript (Name (as_Meta script)) in {|
  cron_Meta := {|
    Name := Name (as_Meta script); Namespace := Namespace (as_Meta script); Generation := 0;
    CreationTimestamp := 0; DeletionTimestamp := None; Labels := labels; Annotations := ∅; Finalizers := [];
    OwnerReferences := []; UID := "" |};
  cron_Spec := {|
    cj_Schedule := as_Schedule spec; cj_TimeZone := as_TimeZone spec; cj_Suspend := as_Suspend spec;
    cj_ConcurrencyPolicy := adminScriptConcurrencyPolicy script;
    cj_StartingDeadlineSeconds := as_StartingDeadlineSeconds spec;
    cj_SuccessfulJobsHistoryLimit := as_SuccessfulJobsHistoryLimit spec;
    cj_FailedJobsHistoryLimit := as_FailedJobsHistoryLimit spec; cj_JobLabels := labels;
    cj_BackoffLimit := as_BackoffLimit spec; cj_ActiveDeadlineSeconds := as_ActiveDeadlineSeconds spec;
    cj_TemplateLabels := labels; cj_Pod := script_pod |};
  cron_Active := []; cron_LastScheduleTime := None; cron_LastSuccessfulTime := None |}.
End build.

(** ** Reconciliation *)
Definition as_set_status (s : AdminScript) (st : AdminScriptStatus) : AdminScript :=
  {| as_Meta := as_Meta s; as_Spec := as_Spec s; as_Status := st |}.
Definition applyCronJobStatus (script : AdminScript) (c : CronJob) : AdminScript :=
  let s := as_Status script in as_set_status script {|
  asst_ObservedGeneration := asst_ObservedGeneration s; asst_Phase := asst_Phase s;
  asst_Conditions := asst_Conditions s; asst_CronJobName := Name (cron_Meta c);
  asst_Active := int32 (Z.of_nat (length (cron_Active c)));
  asst_LastScheduleTime := cron_LastScheduleTime c; asst_LastSuccessfulTime := cron_LastSuccessfulTime c |}.
Definition with_cron_meta (meta : ObjectMeta) (c : CronJob) : CronJob := {|
  cron_Meta := meta; cron_Spec := cron_Spec c; cron_Active := cron_Active c;
  cron_LastScheduleTime := cron_LastScheduleTime c; cron_LastSuccessfulTime := cron_LastSuccessfulTime c |}.
Definition with_cron_spec (spec : CronJobSpec) (c : CronJob) : CronJob := {|
  cron_Meta := cron_Meta c; cron_Spec := spec; cron_Active := cron_Active c;
  cron_LastScheduleTime := cron_LastScheduleTime c; cron_LastSuccessfulTime := cron_LastSuccessfulTime c |}.

Section controller.
Context `{ApiMachinery} `{Owners} `{SpecJSON CronJobSpec} (cert_manager : bool).

(** The script with the status [patchStatus] writes. *)
Definition ready_status (script : AdminScript) (phase : string) (status : ConditionStatus)
    (reason message : string) : AdminScript :=
  let s := as_Status script in as_set_status script {|
  asst_ObservedGeneration := Generation (as_Meta script); asst_Phase := phase;
  asst_Conditions := SetStatusCondition (asst_Conditions s)
    {| cond_Type := AdminScriptConditionReady; cond_Status := status;
       cond_ObservedGeneration := Generation (as_Meta script); cond_Reason := reason;
       cond_Message := message |};
  asst_CronJobName := asst_CronJobName s; asst_Active := asst_Active s;
  asst_LastScheduleTime := asst_LastScheduleTime s; asst_LastSuccessfulTime := asst_LastSuccessfulTime s |}.
Definition patchStatus (script : AdminScript) (phase : string) (status : ConditionStatus)
    (reason message : string) : op (option error) :=
  kube (KStatusUpdate KAdminScript (ready_status script phase status reason message)).

Definition own_cronjob (script : AdminScript) (c : CronJob) : result CronJob :=
  match SetControllerReference (as_Meta script) "AdminScript" (cron_Meta c) with
  | inl err => Err err
  | inr meta => Ok (with_cron_meta meta c)
  end.
(** The desired CronJob with its spec in the annotation. *)
Definition annotated (desired : CronJob) : CronJob :=
  with_cron_meta (annotate (cron_Meta desired) LastAppliedConfigAnnotation (marshal_spec (cron_Spec desired)))
    desired.
(** The existing CronJob was last given the desired spec, and has the labels. *)
Definition up_to_date (existing desired : CronJob) : bool :=
  bool_decide (default "" (Annotations (cron_Meta existing) !! LastAppliedConfigAnnotation) =
               marshal_spec (cron_Spec desired)) &&
  bool_decide (Labels (cron_Meta existing) = Labels (cron_Meta desired)).
Definition merge_cronjob (existing desired : CronJob) : CronJob :=
  with_cron_spec (cron_Spec desired)
    (with_cron_meta (set_meta (Labels (cron_Meta desired))
       (<[LastAppliedConfigAnnotation := marshal_spec (cron_Spec desired)]> (Annotations (cron_Meta existing)))
       (cron_Meta existing)) existing).
Definition createOrUpdateCronJob (owner : AdminScript) (desired : CronJob) : op (result CronJob) :=
  let desired := annotated desired in
  do r <- kube (KGet KCronJob (obj_key (k:=KCronJob) desired));
  match r with
  | inl getErr =>
      if IsNotFound getErr then
        match own_cronjob owner desired with
        | inl err => Ret (Err err)
        | inr desired =>
            check kube (KCreate KCronJob desired) catch err => Ret (Err err);
            do _ <- call (OEvent "Normal" "CronJobCreated" ("created CronJob " +:+ fmt_q (Name (cron_Meta desired))));
            Ret (Ok desired)
        end
      else Ret (Err getErr)
  | inr existing =>
      if up_to_date existing desired then Ret (Ok existing)
      else
        match own_cronjob owner (merge_cronjob existing desired) with
        | inl err => Ret (Err err)
        | inr existing =>
            check kube (KUpdate KCronJob existing) catch err => Ret (Err err);
            do _ <- call (OEvent "Normal" "CronJobUpdated" ("updated CronJob " +:+ fmt_q (Name (cron_Meta existing))));
            Ret (Ok existing)
        end
  end.

Definition suspended (script : AdminScript) : bool := default false (as_Suspend (as_Spec script)).
Definition script_cluster_key (script : AdminScript) : NamespacedName :=
  {| nn_Namespace := Namespace (as_Meta script); nn_Name := as_ClusterRef (as_Spec script) |}.
(** The end of a pass whose CronJob is in place. *)
Definition report_schedule (script : AdminScript) (cronJob : CronJob) : op outcome :=
  let '(phase, reason, message) :=
    if suspended script then (AdminScriptPhaseSuspended, "Suspended", "scheduling is suspended via spec.suspend")
    else (AdminScriptPhaseActive, "Scheduled",
          "CronJob " +:+ fmt_q (Name (cron_Meta cronJob)) +:+ " scheduling " +:+ fmt_q (as_Schedule (as_Spec script))) in
  check patchStatus (applyCronJobStatus script cronJob) phase ConditionTrue reason message
  catch err => Ret (Done noResult (Some err));
  Ret (Done noResult None).
Definition Reconcile (req : NamespacedName) : op outcome :=
  try script <- kube (KGet KAdminScript req) catch err => Ret (Done noResult (IgnoreNotFound err));
  let clusterKey := script_cluster_key script in
  do r <- kube (KGet KSeaweed clusterKey);
  match r with
  | inl err =>
      if IsNotFound err then
        check patchStatus script AdminScriptPhasePending ConditionFalse "ClusterNotFound"
          ("Seaweed cluster " +:+ fmt_q (nn_Name clusterKey) +:+ " not found in namespace " +:+
           fmt_q (nn_Namespace clusterKey))
        catch err => Ret (Done noResult (Some err));
        Ret (Done (requeueIn adminScriptRequeueAfter) None)
      else Ret (Done noResult (Some err))
  | inr cluster =>
      match getMasterPeersString cluster with None => Ret Panic | Some _ =>
      do r <- createOrUpdateCronJob script (buildCronJob cert_manager script cluster);
      match r with
      | inl err =>
          do _ <- call (OEvent "Warning" "CronJobReconcileFailed"
                    ("failed to reconcile CronJob: " +:+ error_string err));
          do _ <- patchStatus script AdminScriptPhasePending ConditionFalse "CronJobReconcileFailed"
                    (error_string err);
          Ret (Done noResult (Some err))
      | inr cronJob => report_schedule script cronJob
      end
      end
  end.

Definition mapSeaweedToAdminScripts (cluster : Seaweed) : op (list NamespacedName) :=
  try items <- kube (KList KAdminScript (Some (Namespace (sw_Meta cluster))) ∅) catch _ => Ret [];
  Ret (map (obj_key (k:=KAdminScript))
         (List.filter (fun s => bool_decide (as_ClusterRef (as_Spec s) = Name (sw_Meta cluster))) items)).
End controller.

(** ** The pods of the runs *)
Lemma config_dir_flag m args subcommand :
  "-config_dir=" +:+ securityConfigMountPath ∉ args -> subcommand <> "-config_dir=" +:+ securityConfigMountPath ->
  "-config_dir=" +:+ securityConfigMountPath ∈ weedPreamble m args subcommand <-> securityConfigNeeded m = true.
Proof.
  intros Ha Hs. unfold weedPreamble, tlsConfigDirArg.
  assert (Hl : "-config_dir=" +:+ securityConfigMountPath ∉
    (if (0 <? length args)%nat then args else ["-logtostderr=true"])).
  { destruct (_ <? _)%nat; [done|]. by intros ?%list_elem_of_singleton. }
  destruct (securityConfigNeeded m); cbn [negb].
  - rewrite bool_decide_false by done. cbn [negb]. split; [done|]. intros _. rewrite !elem_of_app. right. right. left. by left.
  - rewrite bool_decide_true by done. cbn [negb]. split; [|done]. rewrite !elem_of_app, !list_elem_of_singleton.
    intros [?|[?|[?%elem_of_nil|Hx]]]; [done|done|done|]. by destruct Hs.
Qed.
Lemma security_mounted cert_manager m :
  read_only_mount securityVolumeName securityConfigMountPath ∈ (tlsVolumesAndMounts cert_manager m).2 <->
  securityConfigNeeded m = true.
Proof.
  unfold tlsVolumesAndMounts. destruct (securityConfigNeeded m), (tlsEffective cert_manager m); cbn; split; try done;
    rewrite ?elem_of_cons, ?elem_of_nil; naive_solver.
Qed.
(** The pod of every run mounts exactly its volumes; and the security configuration
    is mounted if and only if weed is told its directory. *)
Theorem script_pods_wellformed cert_manager script cluster :
  let pod := script_pod cert_manager script cluster in
  pod_ok pod /\
  ("-config_dir=" +:+ securityConfigMountPath ∉ sw_LoggingArgs (sw_Spec cluster) ->
   read_only_mount securityVolumeName securityConfigMountPath ∈ pod_mounts pod <->
   "-config_dir=" +:+ securityConfigMountPath ∈ script_weed_command cluster).
Proof.
  intros pod. destruct (tls_parts_names cert_manager cluster) as [Htm Htv].
  pose proof (security_mounted cert_manager cluster) as Hs.
  unfold pod, script_pod, pod_ok, pod_mounts in *. destruct (tlsVolumesAndMounts cert_manager cluster) as [vols mounts].
  cbn [fst snd pod_Containers pod_Volumes flat_map script_container c_VolumeMounts] in *. rewrite app_nil_r.
  split.
  - split; [|done]. eapply sublist_NoDup; [|exact Htv]. by apply (bool_decide_unpack _).
  - intros Hl. rewrite Hs. unfold script_weed_command. rewrite elem_of_app, (config_dir_flag cluster _ "shell") by done.
    split; [by left|]. intros [?|Hx]; [done|exfalso].
    apply elem_of_app in Hx as [Hx%list_elem_of_singleton|Hx]; [done|].
    destruct (present _); [by apply list_elem_of_singleton in Hx|by apply elem_of_nil in Hx].
Qed.

(** ** What the controller may do *)
Section safety.
Context `{ApiMachinery} `{OwnersLaws} `{SpecJSON CronJobSpec} (cert_manager : bool) (req : NamespacedName).
#[local] Set Default Proof Using "Type*".

Definition desired_cronjob (script : AdminScript) (cluster : Seaweed) : CronJob :=
  annotated (buildCronJob cert_manager script cluster).
Definition script_fetched (tr : trace) (s : AdminScript) : Prop := saw_kube tr (KGet KAdminScript req) (Ok s).
Definition saw_cronjob (tr : trace) (s : AdminScript) (r : result CronJob) : Prop :=
  saw_kube tr (KGet KCronJob (obj_key (k:=KAdminScript) s)) r.
(** The script was read, and its cluster. *)
Definition script_of (tr : trace) (s : AdminScript) (c : Seaweed) : Prop :=
  script_fetched tr s /\ saw_kube tr (KGet KSeaweed (script_cluster_key s)) (Ok c).
(** The CronJob [o] is what the script asks for: it was found so, or just written. *)
Definition in_place (tr : trace) (s : AdminScript) (c : Seaweed) (o : CronJob) : Prop :=
  saw_cronjob tr s (Ok o) /\ up_to_date o (desired_cronjob s c) = true \/
  (exists e, IsNotFound e = true /\ saw_cronjob tr s (Err e)) /\
    own_cronjob s (desired_cronjob s c) = Ok o /\ saw_kube tr (KCreate KCronJob o) None \/
  exists existing, saw_cronjob tr s (Ok existing) /\
    own_cronjob s (merge_cronjob existing (desired_cronjob s c)) = Ok o /\ saw_kube tr (KUpdate KCronJob o) None.
Definition script_phase_justified (tr : trace) (s : AdminScript) (st : AdminScriptStatus) : Prop :=
  asst_Phase st = AdminScriptPhasePending /\
    asst_CronJobName st = asst_CronJobName (as_Status s) \/
  asst_Phase st = (if suspended s then AdminScriptPhaseSuspended else AdminScriptPhaseActive) /\
    exists c o, script_of tr s c /\ in_place tr s c o /\ st = as_Status (ready_status (applyCronJobStatus s o)
      (asst_Phase st) ConditionTrue (if suspended s then "Suspended" else "Scheduled")
      (if suspended s then "scheduling is suspended via spec.suspend"
       else "CronJob " +:+ fmt_q (Name (cron_Meta o)) +:+ " scheduling " +:+ fmt_q (as_Schedule (as_Spec s)))).

Definition adminscript_guard : Guard := fun tr X e =>
  match e with
  | OKube (KGet _ _) => True
  | OKube (KCreate KCronJob o) => exists s c e,
      script_of tr s c /\ IsNotFound e = true /\ saw_cronjob tr s (Err e) /\
      own_cronjob s (desired_cronjob s c) = Ok o
  | OKube (KUpdate KCronJob o) => exists s c existing,
      script_of tr s c /\ saw_cronjob tr s (Ok existing) /\
      up_to_date existing (desired_cronjob s c) = false /\
      own_cronjob s (merge_cronjob existing (desired_cronjob s c)) = Ok o
  | OKube (KStatusUpdate KAdminScript o) => exists s,
      script_fetched tr s /\ as_Meta o = as_Meta s /\ as_Spec o = as_Spec s /\
      script_phase_justified tr s (as_Status o)
  | OEvent _ _ _ => True
  | _ => False
  end.

Lemma script_of_mono tr new s c : script_of tr s c -> script_of (tr ++ new) s c.
Proof. intros [? ?]. split; by apply saw_app_l. Qed.
Lemma in_place_mono tr new s c o : in_place tr s c o -> in_place (tr ++ new) s c o.
Proof.
  intros [[Hs Hu]|[((e & He & Hs) & Ho & Hc)|(ex & Hs & Ho & Hu)]].
  - left. split; [by apply saw_app_l|done].
  - right; left. split; [exists e; split; [done|by apply saw_app_l]|]. split; [done|by apply saw_app_l].
  - right; right. exists ex. split; [by apply saw_app_l|]. split; [done|by apply saw_app_l].
Qed.

Lemma createOrUpdateCronJob_swp s c tr :
  script_of tr s c ->
  swp adminscript_guard (createOrUpdateCronJob s (buildCronJob cert_manager s c))
    (fun r tr' => script_of tr' s c /\ match r with inl _ => True | inr o => in_place tr' s c o end) tr.
Proof.
  intros Hs. unfold createOrUpdateCronJob. cbv zeta. fold (desired_cronjob s c).
  change (obj_key (k:=KCronJob) (desired_cronjob s c)) with (obj_key (k:=KAdminScript) s). sx.
  split; [done|]. intros [e|ex].
  - destruct (IsNotFound e) eqn:He; [|by split; [apply script_of_mono|]].
    destruct (own_cronjob s (desired_cronjob s c)) as [err|o] eqn:Ho; [by split; [apply script_of_mono|]|]. sx. split.
    { exists s, c, e. split; [by apply script_of_mono|]. split; [done|]. split; [apply saw_last|done]. }
    intros [err|]; [by split; [do 2 apply script_of_mono|]|]. sx. split; [done|]. intros u. sx.
    split; [by do 3 apply script_of_mono|]. right; left. split; [exists e; split; [done|]|split; [done|]].
    + do 2 apply saw_app_l. apply saw_last.
    + apply saw_app_l, saw_last.
  - destruct (up_to_date ex _) eqn:Hu; [split; [by apply script_of_mono|]; left; split; [apply saw_last|done]|].
    destruct (own_cronjob s _) as [err|o] eqn:Ho; [by split; [apply script_of_mono|]|]. sx. split.
    { exists s, c, ex. split; [by apply script_of_mono|]. split; [apply saw_last|done]. }
    intros [err|]; [by split; [do 2 apply script_of_mono|]|]. sx. split; [done|]. intros u. sx.
    split; [by do 3 apply script_of_mono|]. right; right. exists ex. split; [do 2 apply saw_app_l; apply saw_last|].
    split; [done|]. apply saw_app_l, saw_last.
Qed.
Lemma script_pending_swp s status reason message (k : option error -> op outcome) tr :
  script_fetched tr s -> (forall r tr', swp adminscript_guard (k r) (fun _ _ => True) tr') ->
  swp adminscript_guard (bind (patchStatus s AdminScriptPhasePending status reason message) k) (fun _ _ => True) tr.
Proof.
  intros Hf Hk. unfold patchStatus. sx. split; [|intros r; apply Hk].
  exists s. split_and!; [done|done|done|]. by left.
Qed.

(** C7. Whatever the API server answers, a pass over an AdminScript writes only the
    CronJob of that name that its spec and the cluster it read ask for, owned by the
    script: it creates it after finding none, updates it only when its labels or the
    spec it was last given differ; and reports Active or Suspended only with the
    state of a CronJob that is in place, everything else as Pending. *)
Theorem adminscript_reconcile_guarded tr o :
  exec trace_env (Reconcile cert_manager req) [] tr o -> guarded adminscript_guard tr.
Proof.
  intros Hx. eapply (swp_theorem _ _ (fun _ _ => True)) in Hx as [Hg _]; [exact Hg|]. clear Hx tr o.
  unfold Reconcile. sx. split; [done|]. intros [e|s]; [done|]. cbv zeta. sx. split; [done|].
  assert (Hf : forall new, script_fetched ([Ev (OKube (KGet KAdminScript req)) (Ok s)] ++ new) s).
  { intros new. apply saw_app_l. by left. }
  intros [e|c]; [destruct (IsNotFound e); [|done]; by apply script_pending_swp; [apply Hf|intros [|] ?]|].
  destruct (getMasterPeersString c); [|done].
  eapply swp_seq_keep; [apply createOrUpdateCronJob_swp; split; [apply Hf|apply saw_last]|].
  intros [e|cron] new [Hs Hin]; sx.
  - split; [done|]. intros u. apply script_pending_swp; [apply saw_app_l, Hs|by intros r tr'].
  - unfold report_schedule. destruct (suspended s) eqn:Hsu; sx; (split; [|by intros [|]]);
      exists s; (split; [apply Hs|split; [done|split; [done|]]]); right; unfold suspended in *; rewrite Hsu;
      (split; [done|]); by exists c, cron.
Qed.
End safety.

(** ** Convergence

    An API server that answers, over one script, its cluster and its CronJob. *)
Record ScriptState := {
  ss_script : AdminScript;
  ss_cluster : option Seaweed;
  ss_cronjob : option CronJob;
}.
Definition script_kube (s s' : ScriptState) {X} (e : kubeE X) : X -> Prop :=
  match e in kubeE X return X -> Prop with
  | KGet k _ =>
      match k return result (Obj k) -> Prop with
      | KAdminScript => fun r => s' = s /\ r = Ok (ss_script s)
      | KSeaweed => fun r => s' = s /\ found (ss_cluster s) r
      | KCronJob => fun r => s' = s /\ found (ss_cronjob s) r
      | _ => fun _ => s' = s
      end
  | KCreate k o | KUpdate k o =>
      match k return Obj k -> option error -> Prop with
      | KCronJob => fun o r => r = None /\
          s' = {| ss_script := ss_script s; ss_cluster := ss_cluster s; ss_cronjob := Some o |}
      | _ => fun _ _ => s' = s
      end o
  | KStatusUpdate k o =>
      match k return Obj k -> option error -> Prop with
      | KAdminScript => fun o r => r = None /\
          s' = {| ss_script := o; ss_cluster := ss_cluster s; ss_cronjob := ss_cronjob s |}
      | _ => fun _ _ => s' = s
      end o
  | _ => fun _ => s' = s
  end.
Definition script_env : Env opE ScriptState := fun X e s x s' =>
  match e in opE X return X -> Prop with
  | OKube e => script_kube s s' e
  | _ => fun _ => s' = s
  end x.

Section converges.
Context `{ApiMachinery} `{OwnersLaws} `{SpecJSON CronJobSpec} (cert_manager : bool).
#[local] Set Default Proof Using "Type*".

(** A CronJob that can be owned by the script: it has no other controller. *)
Definition adoptable (s : AdminScript) (c : CronJob) : Prop :=
  forall labels annotations, exists meta,
    SetControllerReference (as_Meta s) "AdminScript" (set_meta labels annotations (cron_Meta c)) = Ok meta.
Definition job_adoptable (s : ScriptState) : Prop :=
  match ss_cronjob s with Some c => adoptable (ss_script s) c | None => True end.
(** Spec, labels and annotation are as desired. *)
Definition as_desired (s : AdminScript) (cluster : Seaweed) (c : CronJob) : Prop :=
  cron_Spec c = cron_Spec (buildCronJob cert_manager s cluster) /\
  up_to_date c (desired_cronjob cert_manager s cluster) = true /\
  IsControlledBy (cron_Meta c) (as_Meta s) = true.
(** The status of a script whose CronJob is in place. *)
Definition scheduled_status (s : AdminScript) (c : CronJob) (st : AdminScriptStatus) : Prop :=
  asst_ObservedGeneration st = Generation (as_Meta s) /\
  asst_Phase st = (if suspended s then "Suspended" else "Active") /\
  asst_CronJobName st = Name (cron_Meta c) /\
  asst_Active st = int32 (Z.of_nat (length (cron_Active c))) /\
  asst_LastScheduleTime st = cron_LastScheduleTime c /\ asst_LastSuccessfulTime st = cron_LastSuccessfulTime c /\
  exists reason message, asst_Conditions st = SetStatusCondition (asst_Conditions (as_Status s)) {|
    cond_Type := "Ready"; cond_Status := ConditionTrue; cond_ObservedGeneration := Generation (as_Meta s);
    cond_Reason := reason; cond_Message := message |}.
(** Only the CronJob and the status change. *)
Definition converged (s s' : ScriptState) (cluster : Seaweed) : Prop :=
  ss_cluster s' = ss_cluster s /\
  as_Meta (ss_script s') = as_Meta (ss_script s) /\ as_Spec (ss_script s') = as_Spec (ss_script s) /\
  exists c, ss_cronjob s' = Some c /\
    match ss_cronjob s with
    | Some old => if up_to_date old (desired_cronjob cert_manager (ss_script s) cluster) then c = old
                  else as_desired (ss_script s) cluster c
    | None => as_desired (ss_script s) cluster c
    end /\
    scheduled_status (ss_script s) c (as_Status (ss_script s')).

Lemma up_to_date_written spec (c d : CronJob) :
  Labels (cron_Meta c) = Labels (cron_Meta d) ->
  Annotations (cron_Meta c) !! LastAppliedConfigAnnotation = Some (marshal_spec (cron_Spec d)) ->
  cron_Spec d = spec -> up_to_date c d = true.
Proof. intros Hl Ha _. unfold up_to_date. rewrite Ha, Hl. cbn. by rewrite !bool_decide_true. Qed.
Lemma owned_meta s (c o : CronJob) :
  own_cronjob s c = Ok o ->
  cron_Spec o = cron_Spec c /\ Labels (cron_Meta o) = Labels (cron_Meta c) /\
  Annotations (cron_Meta o) = Annotations (cron_Meta c) /\ IsControlledBy (cron_Meta o) (as_Meta s) = true.
Proof.
  unfold own_cronjob. destruct (SetControllerReference _ _ _) as [|meta] eqn:Hm; [done|]. intros [= <-].
  pose proof (set_controller_controls _ _ _ _ Hm). apply set_controller_owners in Hm as [os ->]. done.
Qed.
Lemma report_converges s s1 cluster c :
  ss_script s1 = ss_script s -> ss_cluster s1 = ss_cluster s -> ss_cronjob s1 = Some c ->
  match ss_cronjob s with
  | Some old => if up_to_date old (desired_cronjob cert_manager (ss_script s) cluster) then c = old
                else as_desired (ss_script s) cluster c
  | None => as_desired (ss_script s) cluster c
  end ->
  wp script_env (report_schedule (ss_script s) c)
    (fun o s' => converged s s' cluster /\ o = Done noResult None) s1.
Proof.
  intros Hs Hcl Hc Hd. unfold report_schedule.
  destruct (suspended (ss_script s)) eqn:Hsu; wx; intros r s2 [-> ->]; wx; (split; [|done]);
    (split; [done|split; [done|split; [done|]]]);
    exists c; (split; [done|split; [done|]]); unfold scheduled_status; rewrite Hsu;
    (do 6 (split; [done|])); by do 2 eexists.
Qed.

(** C34. Over a working API server one pass brings the CronJob to what the script asks
    for: it ends without an error; the CronJob has the spec and the labels rendered
    from the script and its cluster and belongs to the script - unless the annotation
    of the CronJob says that it was last given just this spec and its labels are right:
    then it is not touched, whatever was edited behind the annotation; and the status
    has the phase, the name, the runs and the times of that CronJob and a true Ready
    condition.  Nothing else changes.  A CronJob found must not have another
    controller.  On a cluster without masters in its spec the pass panics and changes
    nothing. *)
Theorem adminscript_converges req s s' cluster o :
  ss_cluster s = Some cluster -> job_adoptable s ->
  exec script_env (Reconcile cert_manager req) s s' o ->
  match sw_Master (sw_Spec cluster) with
  | Some _ => converged s s' cluster /\ o = Done noResult None
  | None => s' = s /\ o = Panic
  end.
Proof.
  intros Hcl Had. revert s' o. apply (wp_exec script_env). unfold Reconcile. wx. intros r s1 [-> ->]. cbv zeta. wx.
  intros r s1 [-> Hr]. rewrite Hcl in Hr. cbn in Hr. subst r. unfold getMasterPeersString.
  destruct (sw_Master (sw_Spec cluster)); cbn [fmap option_fmap option_map]; [|by wx]. unfold createOrUpdateCronJob. cbv zeta.
  fold (desired_cronjob cert_manager (ss_script s) cluster). set (d := desired_cronjob _ _ _). wx. intros r s1 [-> Hr].
  unfold job_adoptable in Had.
  assert (Hd : forall c o, own_cronjob (ss_script s) c = Ok o -> cron_Spec c = cron_Spec d ->
     Labels (cron_Meta c) = Labels (cron_Meta d) ->
     Annotations (cron_Meta c) !! LastAppliedConfigAnnotation = Some (marshal_spec (cron_Spec d)) ->
     as_desired (ss_script s) cluster o).
  { intros c o (Hs & Hl & Ha & Hi)%owned_meta Hsp Hlb Han. split; [by rewrite Hs|]. split; [|done].
    apply (up_to_date_written (cron_Spec d)); [by rewrite Hl|by rewrite Ha|done]. }
  destruct (ss_cronjob s) as [old|] eqn:Hold; cbn in Hr.
  - subst r. destruct (up_to_date old d) eqn:Hu; wx.
    { apply report_converges; [done|done|done|]. rewrite Hold. fold d. by rewrite Hu. }
    assert (Hm : exists o, own_cronjob (ss_script s) (merge_cronjob old d) = Ok o).
    { unfold own_cronjob. edestruct (Had) as [meta Hm]. cbn [cron_Meta merge_cronjob with_cron_spec with_cron_meta].
      rewrite Hm. by eexists. }
    destruct Hm as [o Ho]. rewrite Ho. wx. intros r s1 [-> ->]. wx. intros u s1 ->. wx.
    apply report_converges; [done|done|done|]. rewrite Hold. fold d. rewrite Hu. eapply Hd; [exact Ho|done|done|].
    cbn. apply lookup_insert_eq.
  - destruct Hr as (e & He & ->). rewrite He.
    assert (Hm : exists o, own_cronjob (ss_script s) d = Ok o).
    { unfold own_cronjob. destruct (set_controller_fresh (as_Meta (ss_script s)) "AdminScript" (cron_Meta d)) as [meta Hm];
        [done|]. rewrite Hm. by eexists. }
    destruct Hm as [o Ho]. rewrite Ho. wx. intros r s1 [-> ->]. wx. intros u s1 ->. wx.
    apply report_converges; [done|done|done|]. rewrite Hold. eapply Hd; [exact Ho|done|done|].
    cbn. apply lookup_insert_eq.
Qed.
End converges.

(** ** The scripts of a cluster *)
(** A change of a cluster queues exactly the listed scripts that refer to it. *)
Lemma mapped_scripts {S} (h : Handler opE S) st st' cluster items :
  h _ (OKube (KList KAdminScript (Some (Namespace (sw_Meta cluster))) ∅)) st = (st', Ok items) ->
  forall k, k ∈ (run h (mapSeaweedToAdminScripts cluster) st).2 <->
    exists s, s ∈ items /\ as_ClusterRef (as_Spec s) = Name (sw_Meta cluster) /\ k = obj_key (k:=KAdminScript) s.
Proof.
  intros Hl k. unfold mapSeaweedToAdminScripts. cbn [bind kube call run]. rewrite Hl. cbn [run snd].
  rewrite list_elem_of_fmap. setoid_rewrite list_elem_of_In. setoid_rewrite filter_In.
  setoid_rewrite bool_decide_eq_true. naive_solver.
Qed.

(** ** Evaluations *)
#[local] Instance text_cronjobs : SpecJSON CronJobSpec :=
  {| marshal_spec s := cj_Schedule s; unmarshal_spec _ := None |}.
Definition sample_script (suspend : option bool) : AdminScript := {|
  as_Meta := sample_meta "ns" "balance" 1;
  as_Spec := {|
    as_ClusterRef := "w"; as_Schedule := "0 2 * * *"; as_Script := "lock; volume.balance -force; unlock";
    as_TimeZone := None; as_Suspend := suspend; as_ConcurrencyPolicy := ""; as_StartingDeadlineSeconds := None;
    as_SuccessfulJobsHistoryLimit := None; as_FailedJobsHistoryLimit := None; as_BackoffLimit := None;
    as_ActiveDeadlineSeconds := None; as_RestartPolicy := ""; as_CredentialsSecret := None; as_Image := None;
    as_ImagePullSecrets := []; as_Resources := no_resources; as_ServiceAccountName := ""; as_NodeSelector := ∅;
    as_Tolerations := []; as_Affinity := None |};
  as_Status := {| asst_ObservedGeneration := 0; asst_Phase := ""; asst_Conditions := []; asst_CronJobName := "";
                  asst_Active := 0; asst_LastScheduleTime := None; asst_LastSuccessfulTime := None |} |}.
Definition script_cluster : Seaweed := {|
  sw_Meta := sample_meta "ns" "w" 1; sw_Spec := minimal_spec 1 None None; sw_Status := no_status |}.
Definition script_key : NamespacedName := {| nn_Namespace := "ns"; nn_Name := "balance" |}.
Definition script_sim (clusters : list Seaweed) : Sim :=
  set_objs KAdminScript [sample_script None] (set_objs KSeaweed clusters sim_empty).
Definition script_pass (s : Sim) : Sim * trace * outcome :=
  run (tracing sim) (Reconcile false script_key) (s, []).
Definition script_report (s : Sim) : list (string * string) :=
  map (fun x => (asst_Phase (as_Status x), asst_CronJobName (as_Status x))) (sim_objs s KAdminScript).
Definition cronjob_commands (s : Sim) : list (list string) :=
  flat_map (fun c => map c_Command (pod_Containers (cj_Pod (cron_Spec c)))) (sim_objs s KCronJob).

Lemma adminscript_reconcile_guarded_witness :
  let x := script_pass (script_sim [script_cluster]) in
  cronjob_commands x.1.1 =
    [["/bin/sh"; "-ec"; script_shell; "--"; "weed"; "-logtostderr=true"; "shell";
      "-master=w-master-0.w-master-peer.ns:9333"]] /\
  guarded (adminscript_guard false script_key) x.1.2.
Proof.
  intros x. split; [by vm_compute|]. apply (adminscript_reconcile_guarded false script_key x.1.2 x.2).
  exact (run_tracing sim (Reconcile false script_key) _ []).
Defined.

(** The API server of one script, as a handler. *)
Definition script_handler : Handler opE ScriptState := fun X e s =>
  match e in opE X return ScriptState * X with
  | OKube e =>
      match e in kubeE X return ScriptState * X with
      | KGet k key =>
          (s, match k return result (Obj k) with
              | KAdminScript => Ok (ss_script s)
              | KSeaweed => match ss_cluster s with Some c => Ok c | None => Err (ErrNotFound "") end
              | KCronJob => match ss_cronjob s with Some c => Ok c | None => Err (ErrNotFound "") end
              | k => Err (ErrNotFound "")
              end)
      | KCreate k o | KUpdate k o =>
          (match k return Obj k -> ScriptState with
           | KCronJob => fun o =>
               {| ss_script := ss_script s; ss_cluster := ss_cluster s; ss_cronjob := Some o |}
           | _ => fun _ => s
           end o, None)
      | KStatusUpdate k o =>
          (match k return Obj k -> ScriptState with
           | KAdminScript => fun o =>
               {| ss_script := o; ss_cluster := ss_cluster s; ss_cronjob := ss_cronjob s |}
           | _ => fun _ => s
           end o, None)
      | e => (s, (sim_kube e sim_empty).2)
      end
  | e => (s, (sim _ e sim_empty).2)
  end.
Lemma script_handler_refines : refines script_handler script_env.
Proof.
  intros X e s. destruct e as [X e| | | | | | | | | | | | | | ]; cbn; try done.
  destruct e as [k key|k ns ls|k o|k o|k o|k b o|k b o|k o|k o uid|k ls|k o f]; cbn; try done; destruct k; cbn; try done.
  - split; [done|]. destruct (ss_cluster s); [done|by exists (ErrNotFound "")].
  - split; [done|]. destruct (ss_cronjob s); [done|by exists (ErrNotFound "")].
Qed.
Definition script_state : ScriptState :=
  {| ss_script := sample_script (Some true); ss_cluster := Some script_cluster; ss_cronjob := None |}.
(** The first pass creates the CronJob of a suspended script. *)
Lemma adminscript_converges_witness :
  let x := run script_handler (Reconcile false script_key) script_state in
  converged false script_state x.1 script_cluster /\
  asst_Phase (as_Status (ss_script x.1)) = "Suspended" /\
  ss_cronjob (run script_handler (Reconcile false script_key) x.1).1 = ss_cronjob x.1.
Proof.
  intros x. split; [|by vm_compute].
  apply (adminscript_converges false script_key script_state x.1 script_cluster x.2); [done|done|].
  apply (run_exec_eq script_env script_handler); [apply script_handler_refines|done].
Defined.

(** The cluster goes away after the CronJob was created: the script is Pending, the
    phase of a script without a CronJob, but its CronJob is still there and runs. *)
Theorem orphaned_cronjob_pending :
  let first := script_pass (script_sim [script_cluster]) in
  let second := script_pass (set_objs KSeaweed [] first.1.1) in
  script_report first.1.1 = [("Active", "balance")] /\ script_report second.1.1 = [("Pending", "balance")] /\
  sim_objs second.1.1 KCronJob = sim_objs first.1.1 KCronJob /\
  map (fun c => default false (cj_Suspend (cron_Spec c))) (sim_objs second.1.1 KCronJob) = [false].
Proof. by vm_compute. Qed.
