(* ===== verification/CsiObjects.v ===== *)
(** * The objects of a CSI driver (seaweedcsidriver_objects.go)

    The builders fill an object in place: what they do not set stays as the API
    server has it.  A builder is therefore a function on the object, applied to an
    empty one on creation. *)
From S2P Require Import Prelude Prog CoreTypes ApiTypes Effects Machinery Sim Trace.
From S2P Require Import Upsert SecurityConfig Component Workloads.

(** ** Names *)
Definition csiName (d : SeaweedCSIDriver) : string := "seaweedfs-csi-" +:+ Name (csi_Meta d).
Definition csiControllerName (d : SeaweedCSIDriver) : string := csiName d +:+ "-controller".
Definition csiNodeName (d : SeaweedCSIDriver) : string := csiName d +:+ "-node".
Definition csiMountName (d : SeaweedCSIDriver) : string := csiName d +:+ "-mount".
Definition csiControllerSAName (d : SeaweedCSIDriver) : string := csiName d +:+ "-controller".
Definition csiNodeSAName (d : SeaweedCSIDriver) : string := csiName d +:+ "-node".
Definition orDefault (v def : string) : string := if negb (bool_decide (v = "")) then v else def.
Definition storageClassName (d : SeaweedCSIDriver) : string :=
  orDefault (default "" (csis_Name <$> csi_StorageClass (csi_Spec d))) (csi_DriverName (csi_Spec d)).

(** ** Labels *)
Definition csiInstanceLabels (d : SeaweedCSIDriver) : gmap string string :=
  <[NameLabelKey := "seaweedfs-csi-driver"]> (<[InstanceLabelKey := Name (csi_Meta d)]>
  {[ ManagedByLabelKey := "seaweedfs-operator" ]}).
Definition csiSelector (d : SeaweedCSIDriver) (component : string) : gmap string string :=
  <[ComponentLabelKey := component]> (csiInstanceLabels d).

(** ** Images *)
Definition csiPullPolicy (d : SeaweedCSIDriver) : string := default "IfNotPresent" (csi_ImagePullPolicy (csi_Spec d)).
Definition provisionerImage (d : SeaweedCSIDriver) : string :=
  orDefault (scar_Provisioner (csi_Sidecars (csi_Spec d))) "registry.k8s.io/sig-storage/csi-provisioner:v3.5.0".
Definition resizerImage (d : SeaweedCSIDriver) : string :=
  orDefault (scar_Resizer (csi_Sidecars (csi_Spec d))) "registry.k8s.io/sig-storage/csi-resizer:v1.8.0".
Definition attacherImage (d : SeaweedCSIDriver) : string :=
  orDefault (scar_Attacher (csi_Sidecars (csi_Spec d))) "registry.k8s.io/sig-storage/csi-attacher:v4.3.0".
Definition nodeDriverRegistrarImage (d : SeaweedCSIDriver) : string :=
  orDefault (scar_NodeDriverRegistrar (csi_Sidecars (csi_Spec d)))
    "registry.k8s.io/sig-storage/csi-node-driver-registrar:v2.8.0".
Definition livenessProbeImage (d : SeaweedCSIDriver) : string :=
  orDefault (scar_LivenessProbe (csi_Sidecars (csi_Spec d))) "registry.k8s.io/sig-storage/livenessprobe:v2.10.0".

(** ** Settings *)
Definition csiControllerSocketDir : string := "/var/lib/csi/sockets/pluginproxy".
Definition csiControllerSocketPath : string := csiControllerSocketDir +:+ "/csi.sock".
Definition csiNodeSocketDir : string := "/csi".
Definition csiNodeSocketPath : string := "unix:///csi/csi.sock".
Definition csiRegistrationDir : string := "/registration".
Definition csiCacheDir : string := "/var/cache/seaweedfs".
Definition csiMountSocketName : string := "seaweedfs-mount.sock".
Definition csiPortLiveness : Z := 9808.
Definition csiPortProvisioner : Z := 9809.
Definition csiPortRegistrar : Z := 9809.
Definition csiPortResizer : Z := 9810.
Definition csiPortAttacher : Z := 9811.
Definition pluginContainerName : string := "csi-seaweedfs-plugin".
Definition attacherEnabled (d : SeaweedCSIDriver) : bool := default true (csic_AttacherEnabled (csi_Controller (csi_Spec d))).
Definition kubeletPath (d : SeaweedCSIDriver) : string :=
  orDefault (csin_KubeletPath (csi_Node (csi_Spec d))) DefaultKubeletPath.
Definition mountSocketDir (d : SeaweedCSIDriver) : string :=
  orDefault (csim_SocketDir (csi_MountService (csi_Spec d))) DefaultMountSocketDir.
Definition mountEndpoint (d : SeaweedCSIDriver) : string :=
  "unix://" +:+ mountSocketDir d +:+ "/" +:+ csiMountSocketName.
Definition mountImage (d : SeaweedCSIDriver) : string :=
  orDefault (csim_Image (csi_MountService (csi_Spec d))) DefaultCSIMountImage.
Definition mountServiceEnabled (d : SeaweedCSIDriver) : bool := default true (csim_Enabled (csi_MountService (csi_Spec d))).
Definition tuningArgs (d : SeaweedCSIDriver) (args : list string) : list string :=
  args ++ opt_arg "-v=" fmt_d (csi_LogVerbosity (csi_Spec d)) ++
  opt_arg "--cacheCapacityMB=" fmt_d (csi_CacheCapacityMB (csi_Spec d)) ++
  opt_arg "--concurrentWriters=" fmt_d (csi_ConcurrentWriters (csi_Spec d)) ++
  opt_arg "--concurrentReaders=" fmt_d (csi_ConcurrentReaders (csi_Spec d)).
Definition nodeNameEnv (name : string) : EnvVar := field_env name "spec.nodeName".
Definition value_env (name value : string) : EnvVar :=
  {| env_Name := name; env_Value := value; env_ValueFrom := None |}.
Definition sidecarLivenessProbe (port : Z) (path : string) : Probe := probe (HTTPGet path port "") 10 3 60 0 0.
Definition privilegedSecurityContext : SecurityContext := PrivilegedContext ["SYS_ADMIN"].
Definition hostPathVolume (name path typ : string) : Volume :=
  {| vol_Name := name; vol_Source := HostPathVolume path typ |}.
Definition tolerateAll (extra : list Toleration) : list Toleration := TolerateEverything :: extra.
Definition daemonSetUpdateStrategy (t def : string) : string := if bool_decide (t = "") then def else t.

(** A container, and a pod with what the builders of the pods set. *)
Definition csi_container (d : SeaweedCSIDriver) (name image : string) (security : option SecurityContext)
    (args : list string) (env : list EnvVar) (ports : list ContainerPort) (liveness : option Probe)
    (mounts : list VolumeMount) (resources : ResourceRequirements) : Container := {|
  c_Name := name; c_Image := image; c_ImagePullPolicy := csiPullPolicy d; c_SecurityContext := security;
  c_Env := env; c_EnvFrom := []; c_Resources := resources; c_Command := []; c_Args := args; c_Ports := ports;
  c_VolumeMounts := mounts; c_ReadinessProbe := None; c_LivenessProbe := liveness |}.
Definition fill_csi_pod (d : SeaweedCSIDriver) (sa priority : string) (hostPID : bool)
    (nodeSelector : gmap string string) (tolerations : list Toleration) (affinity : option Affinity)
    (containers : list Container) (volumes : list Volume) (p : PodSpec) : PodSpec := {|
  pod_RestartPolicy := pod_RestartPolicy p; pod_SchedulerName := pod_SchedulerName p; pod_Affinity := affinity;
  pod_NodeSelector := nodeSelector; pod_HostNetwork := pod_HostNetwork p; pod_HostPID := hostPID;
  pod_Tolerations := tolerations; pod_PriorityClassName := priority; pod_ServiceAccountName := sa;
  pod_ImagePullSecrets := csi_ImagePullSecrets (csi_Spec d);
  pod_TerminationGracePeriodSeconds := pod_TerminationGracePeriodSeconds p;
  pod_SecurityContext := pod_SecurityContext p; pod_EnableServiceLinks := pod_EnableServiceLinks p;
  pod_Containers := containers; pod_InitContainers := pod_InitContainers p; pod_Volumes := volumes |}.
Definition plain_mount (name path : string) : VolumeMount :=
  {| vm_Name := name; vm_ReadOnly := false; vm_MountPath := path; vm_SubPath := ""; vm_Propagation := None |}.
Definition shared_mount (name path : string) : VolumeMount :=
  {| vm_Name := name; vm_ReadOnly := false; vm_MountPath := path; vm_SubPath := "";
     vm_Propagation := Some "Bidirectional" |}.
Definition with_labels (labels : gmap string string) (m : ObjectMeta) : ObjectMeta := set_meta labels (Annotations m) m.

(** ** Sidecars *)
Definition csiSidecar (d : SeaweedCSIDriver) (name image socketPath : string) (port : Z) (leaderElection : bool)
    (socketMount : VolumeMount) : Container :=
  csi_container d name image None
    (["--csi-address=$(ADDRESS)"; "--http-endpoint=:" +:+ fmt_d port] ++
     (if leaderElection then ["--leader-election"; "--leader-election-namespace=$(NAMESPACE)"] else []))
    [value_env "ADDRESS" socketPath; field_env "NAMESPACE" "metadata.namespace"]
    [container_port "healthz" port]
    (Some (sidecarLivenessProbe port (if leaderElection then "/healthz/leader-election" else "/healthz")))
    [socketMount] no_resources.
Definition csiLivenessSidecar (d : SeaweedCSIDriver) (socketPath : string) (socketMount : VolumeMount) : Container :=
  csi_container d "csi-liveness-probe" (livenessProbeImage d) None
    ["--csi-address=$(ADDRESS)"; "--http-endpoint=:" +:+ fmt_d csiPortLiveness] [value_env "ADDRESS" socketPath]
    [container_port "livenessprobe" csiPortLiveness] None [socketMount] no_resources.

Section workloads.
Context (d : SeaweedCSIDriver).
#[local] Notation spec := (csi_Spec d).

(** ** The controller *)
Definition controllerAffinity (selector : gmap string string) : option Affinity :=
  match csic_Affinity (csi_Controller spec) with
  | Some a => Some a
  | None => Some (PreferApart 100 selector "kubernetes.io/hostname")
  end.
Definition controller_containers (filerAddress : string) : list Container :=
  let socketMount := plain_mount "socket-dir" csiControllerSocketDir in
  let sidecar name image port := csiSidecar d name image csiControllerSocketPath port true socketMount in
  [csi_container d "seaweedfs-csi-plugin" (csi_Image spec) None
     (tuningArgs d
        ["--endpoint=$(CSI_ENDPOINT)"; "--filer=" +:+ filerAddress; "--driverName=" +:+ csi_DriverName spec;
         "--components=controller"; "--attacher=" +:+ fmt_t (attacherEnabled d)])
     [value_env "CSI_ENDPOINT" ("unix://" +:+ csiControllerSocketPath)] [] None [socketMount]
     (csic_Resources (csi_Controller spec));
   sidecar "csi-provisioner" (provisionerImage d) csiPortProvisioner;
   sidecar "csi-resizer" (resizerImage d) csiPortResizer] ++
  (if attacherEnabled d then [sidecar "csi-attacher" (attacherImage d) csiPortAttacher] else []) ++
  [csiLivenessSidecar d csiControllerSocketPath socketMount].
Definition buildControllerDeployment (filerAddress : string) (dep : Deployment) : Deployment :=
  let selector := csiSelector d "controller" in {|
  dep_Meta := with_labels selector (dep_Meta dep); dep_Replicas := csic_Replicas (csi_Controller spec);
  dep_Selector := selector; dep_StrategyType := dep_StrategyType dep; dep_RollingUpdate := dep_RollingUpdate dep;
  dep_TemplateLabels := selector; dep_TemplateAnnotations := dep_TemplateAnnotations dep;
  dep_Pod := fill_csi_pod d (csiControllerSAName d) "system-cluster-critical" (pod_HostPID (dep_Pod dep))
               (csic_NodeSelector (csi_Controller spec)) (csic_Tolerations (csi_Controller spec))
               (controllerAffinity selector) (controller_containers filerAddress)
               [{| vol_Name := "socket-dir"; vol_Source := EmptyDir |}] (dep_Pod dep);
  dep_StatusReplicas := dep_StatusReplicas dep; dep_AvailableReplicas := dep_AvailableReplicas dep;
  dep_ReadyReplicas := dep_ReadyReplicas dep |}.

(** ** The node plugin and the mount service *)
Definition node_plugin_dir : string := kubeletPath d +:+ "/plugins/" +:+ csi_DriverName spec.
Definition kubelet_mounts : list VolumeMount :=
  [shared_mount "plugins-dir" (kubeletPath d +:+ "/plugins"); shared_mount "pods-mount-dir" (kubeletPath d +:+ "/pods");
   plain_mount "device-dir" "/dev"; plain_mount "cache" csiCacheDir;
   plain_mount "mount-socket-dir" (mountSocketDir d)].
Definition node_plugin (filerAddress : string) : Container :=
  csi_container d pluginContainerName (csi_Image spec) (Some privilegedSecurityContext)
    (tuningArgs d
       ["--endpoint=$(CSI_ENDPOINT)"; "--filer=" +:+ filerAddress; "--nodeid=$(NODE_ID)";
        "--driverName=" +:+ csi_DriverName spec; "--mountEndpoint=" +:+ mountEndpoint d;
        "--cacheDir=" +:+ csiCacheDir; "--components=node"])
    [value_env "CSI_ENDPOINT" csiNodeSocketPath; nodeNameEnv "NODE_ID"] [] None
    (plain_mount "plugin-dir" csiNodeSocketDir :: kubelet_mounts) (csin_Resources (csi_Node spec)).
Definition node_registrar : Container :=
  csi_container d "driver-registrar" (nodeDriverRegistrarImage d) None
    ["--csi-address=$(ADDRESS)"; "--kubelet-registration-path=$(DRIVER_REG_SOCK_PATH)";
     "--http-endpoint=:" +:+ fmt_d csiPortRegistrar]
    [value_env "ADDRESS" (csiNodeSocketDir +:+ "/csi.sock");
     value_env "DRIVER_REG_SOCK_PATH" (node_plugin_dir +:+ "/csi.sock"); nodeNameEnv "KUBE_NODE_NAME"]
    [container_port "healthz" csiPortRegistrar] (Some (sidecarLivenessProbe csiPortRegistrar "/healthz"))
    [plain_mount "plugin-dir" csiNodeSocketDir; plain_mount "registration-dir" csiRegistrationDir] no_resources.
Definition shared_host_volumes : list Volume :=
  [hostPathVolume "plugins-dir" (kubeletPath d +:+ "/plugins") "DirectoryOrCreate";
   hostPathVolume "pods-mount-dir" (kubeletPath d +:+ "/pods") "DirectoryOrCreate";
   hostPathVolume "device-dir" "/dev" ""; {| vol_Name := "cache"; vol_Source := EmptyDir |};
   hostPathVolume "mount-socket-dir" (mountSocketDir d) "DirectoryOrCreate"].
Definition fill_daemonset (component updateStrategy : string) (pod : PodSpec) (ds : DaemonSet) : DaemonSet :=
  let selector := csiSelector d component in {|
  ds_Meta := with_labels selector (ds_Meta ds); ds_Selector := selector; ds_UpdateStrategy := updateStrategy;
  ds_TemplateLabels := selector; ds_TemplateAnnotations := ds_TemplateAnnotations ds; ds_Pod := pod;
  ds_DesiredNumberScheduled := ds_DesiredNumberScheduled ds; ds_NumberReady := ds_NumberReady ds |}.
Definition buildNodeDaemonSet (filerAddress : string) (ds : DaemonSet) : DaemonSet :=
  fill_daemonset "node" (daemonSetUpdateStrategy (csin_UpdateStrategy (csi_Node spec)) "RollingUpdate")
    (fill_csi_pod d (csiNodeSAName d) "system-node-critical" (default true (csin_HostPID (csi_Node spec)))
       (csin_NodeSelector (csi_Node spec)) (tolerateAll (csin_Tolerations (csi_Node spec))) (pod_Affinity (ds_Pod ds))
       [node_plugin filerAddress; node_registrar;
        csiLivenessSidecar d (csiNodeSocketDir +:+ "/csi.sock") (plain_mount "plugin-dir" csiNodeSocketDir)]
       ([hostPathVolume "registration-dir" (kubeletPath d +:+ "/plugins_registry") "DirectoryOrCreate";
         hostPathVolume "plugin-dir" node_plugin_dir "DirectoryOrCreate"] ++ shared_host_volumes) (ds_Pod ds)) ds.
Definition buildMountDaemonSet (ds : DaemonSet) : DaemonSet :=
  fill_daemonset "mount" (daemonSetUpdateStrategy (csim_UpdateStrategy (csi_MountService spec)) "OnDelete")
    (fill_csi_pod d (csiNodeSAName d) "system-node-critical" (pod_HostPID (ds_Pod ds))
       (csim_NodeSelector (csi_MountService spec)) (tolerateAll (csim_Tolerations (csi_MountService spec)))
       (pod_Affinity (ds_Pod ds))
       [csi_container d "seaweedfs-mount" (mountImage d) (Some privilegedSecurityContext)
          ["--endpoint=$(MOUNT_ENDPOINT)"] [value_env "MOUNT_ENDPOINT" (mountEndpoint d)] [] None kubelet_mounts
          (csim_Resources (csi_MountService spec))]
       shared_host_volumes (ds_Pod ds)) ds.

(** ** RBAC *)
Definition rule (group : string) (resources verbs : list string) : PolicyRule :=
  {| pr_APIGroups := [group]; pr_Resources := resources; pr_Verbs := verbs |}.
Definition reading : list string := ["get"; "list"; "watch"].
Definition buildControllerClusterRole (cr : Role) : Role := {|
  role_Meta := with_labels (csiInstanceLabels d) (role_Meta cr);
  role_Rules := [
    rule "" ["secrets"] ["get"; "list"];
    rule "" ["persistentvolumes"] (reading ++ ["create"; "delete"; "update"; "patch"]);
    rule "" ["persistentvolumeclaims"] (reading ++ ["update"]);
    rule "" ["persistentvolumeclaims/status"] (reading ++ ["update"; "patch"]);
    rule "" ["events"] (reading ++ ["create"; "update"; "patch"]);
    rule "" ["nodes"] reading;
    rule "" ["pods"] reading;
    rule "storage.k8s.io" ["storageclasses"] reading;
    rule "storage.k8s.io" ["csinodes"] reading;
    rule "storage.k8s.io" ["volumeattachments"; "volumeattachments/status"] (reading ++ ["update"; "patch"]);
    rule "snapshot.storage.k8s.io" ["volumesnapshots"; "volumesnapshotcontents"] ["get"; "list"]] |}.
Definition buildNodeClusterRole (cr : Role) : Role := {|
  role_Meta := with_labels (csiInstanceLabels d) (role_Meta cr);
  role_Rules := [
    rule "" ["events"] (reading ++ ["create"; "update"; "patch"]);
    rule "" ["nodes"] reading;
    rule "" ["persistentvolumes"] reading] |}.
Definition rbac_group : string := "rbac.authorization.k8s.io".
Definition buildClusterRoleBinding (roleName saName saNamespace : string) (crb : RoleBinding) : RoleBinding := {|
  rb_Meta := with_labels (csiInstanceLabels d) (rb_Meta crb);
  rb_RoleRef := {| rr_APIGroup := rbac_group; rr_Kind := "ClusterRole"; rr_Name := roleName |};
  rb_Subjects := [{| subj_Kind := "ServiceAccount"; subj_Name := saName; subj_Namespace := saNamespace |}] |}.
Definition buildLeaderElectionRole (r : Role) : Role := {|
  role_Meta := with_labels (csiInstanceLabels d) (role_Meta r);
  role_Rules := [rule "coordination.k8s.io" ["leases"] ["get"; "watch"; "list"; "delete"; "update"; "create"]] |}.
Definition buildLeaderElectionRoleBinding (roleName saName : string) (rb : RoleBinding) : RoleBinding := {|
  rb_Meta := with_labels (csiInstanceLabels d) (rb_Meta rb);
  rb_RoleRef := {| rr_APIGroup := rbac_group; rr_Kind := "Role"; rr_Name := roleName |};
  rb_Subjects := [{| subj_Kind := "ServiceAccount"; subj_Name := saName;
                     subj_Namespace := Namespace (csi_Meta d) |}] |}.
Definition buildServiceAccount (sa : ServiceAccount) : ServiceAccount :=
  {| sa_Meta := with_labels (csiInstanceLabels d) (sa_Meta sa) |}.

(** ** The driver object and the storage class *)
Definition buildCSIDriverObject (obj : CSIDriver) : CSIDriver := {|
  csid_Meta := with_labels (csiInstanceLabels d) (csid_Meta obj);
  csid_AttachRequired := Some (attacherEnabled d); csid_PodInfoOnMount := Some true;
  csid_VolumeLifecycleModes := ["Persistent"] |}.
Definition defaultClassAnnotation : string := "storageclass.kubernetes.io/is-default-class".
Definition buildStorageClass (scSpec : CSIStorageClassSpec) (sc : StorageClass) : StorageClass :=
  let annotations := Annotations (sc_Meta sc) in {|
  sc_Meta := set_meta (csiInstanceLabels d)
               (if csis_IsDefaultClass scSpec then <[defaultClassAnnotation := "true"]> annotations
                else delete defaultClassAnnotation annotations) (sc_Meta sc);
  sc_Provisioner := csi_DriverName spec; sc_Parameters := csis_Parameters scSpec;
  sc_MountOptions := csis_MountOptions scSpec; sc_ReclaimPolicy := csis_ReclaimPolicy scSpec;
  sc_VolumeBindingMode := csis_VolumeBindingMode scSpec;
  sc_AllowVolumeExpansion := csis_AllowVolumeExpansion scSpec |}.
End workloads.
