(* ===== verification/CsiController.v ===== *)
(** * The CSI driver controller (seaweedcsidriver_controller.go)

    The workloads, RBAC objects, CSIDriver and StorageClass of a SeaweedCSIDriver.
    The namespaced ones belong to it; the cluster-scoped ones carry its labels and
    are removed by its finalizer.  A driver name belongs to its oldest claimant. *)
From S2P Require Import Prelude Prog CoreTypes ApiTypes Effects Machinery Sim Trace RefGrant.
From S2P Require Import Cluster.
From S2P Require Import NameClaim IamCommon IamSpec Upsert SecurityConfig Component Workloads.
From S2P Require Import CsiObjects.

Definition seaweedCSIDriverFinalizer : string := "seaweed.seaweedfs.com/csidriver-protection".
Definition csiResyncInterval : Z := Minute.
Definition kindSeaweedCSIDriver : string := "SeaweedCSIDriver".

(** ** The object *)
Definition csi_set_meta (m : ObjectMeta) (d : SeaweedCSIDriver) : SeaweedCSIDriver :=
  {| csi_Meta := m; csi_Spec := csi_Spec d; csi_Status := csi_Status d |}.
Definition csi_set_status (d : SeaweedCSIDriver) (s : SeaweedCSIDriverStatus) : SeaweedCSIDriver :=
  {| csi_Meta := csi_Meta d; csi_Spec := csi_Spec d; csi_Status := s |}.
Definition csi_set_phase (phase : string) (d : SeaweedCSIDriver) : SeaweedCSIDriver :=
  let s := csi_Status d in csi_set_status d {|
  csist_ObservedGeneration := csist_ObservedGeneration s; csist_Phase := phase;
  csist_Conditions := csist_Conditions s; csist_DriverName := csist_DriverName s;
  csist_ResolvedFilerAddress := csist_ResolvedFilerAddress s; csist_Controller := csist_Controller s;
  csist_Node := csist_Node s |}.
Definition csi_set_conditions (cs : list Condition) (d : SeaweedCSIDriver) : SeaweedCSIDriver :=
  let s := csi_Status d in csi_set_status d {|
  csist_ObservedGeneration := csist_ObservedGeneration s; csist_Phase := csist_Phase s;
  csist_Conditions := cs; csist_DriverName := csist_DriverName s;
  csist_ResolvedFilerAddress := csist_ResolvedFilerAddress s; csist_Controller := csist_Controller s;
  csist_Node := csist_Node s |}.
Definition csi_set_name (d : SeaweedCSIDriver) : SeaweedCSIDriver :=
  let s := csi_Status d in csi_set_status d {|
  csist_ObservedGeneration := csist_ObservedGeneration s; csist_Phase := csist_Phase s;
  csist_Conditions := csist_Conditions s; csist_DriverName := csi_DriverName (csi_Spec d);
  csist_ResolvedFilerAddress := csist_ResolvedFilerAddress s; csist_Controller := csist_Controller s;
  csist_Node := csist_Node s |}.
Definition csi_set_filer (address : string) (d : SeaweedCSIDriver) : SeaweedCSIDriver :=
  let s := csi_Status d in csi_set_status d {|
  csist_ObservedGeneration := csist_ObservedGeneration s; csist_Phase := csist_Phase s;
  csist_Conditions := csist_Conditions s; csist_DriverName := csist_DriverName s;
  csist_ResolvedFilerAddress := address; csist_Controller := csist_Controller s; csist_Node := csist_Node s |}.
Definition csi_set_counts (controller node : CSIComponentStatus) (d : SeaweedCSIDriver) : SeaweedCSIDriver :=
  let s := csi_Status d in csi_set_status d {|
  csist_ObservedGeneration := csist_ObservedGeneration s; csist_Phase := csist_Phase s;
  csist_Conditions := csist_Conditions s; csist_DriverName := csist_DriverName s;
  csist_ResolvedFilerAddress := csist_ResolvedFilerAddress s; csist_Controller := controller; csist_Node := node |}.
Definition csi_set_observed (d : SeaweedCSIDriver) : SeaweedCSIDriver :=
  let s := csi_Status d in csi_set_status d {|
  csist_ObservedGeneration := Generation (csi_Meta d); csist_Phase := csist_Phase s;
  csist_Conditions := csist_Conditions s; csist_DriverName := csist_DriverName s;
  csist_ResolvedFilerAddress := csist_ResolvedFilerAddress s; csist_Controller := csist_Controller s;
  csist_Node := csist_Node s |}.

(** An object with only a name, as it is handed to [CreateOrUpdate] and [Delete]. *)
Definition named_meta (ns name : string) : ObjectMeta := {|
  Name := name; Namespace := ns; Generation := 0; CreationTimestamp := 0; DeletionTimestamp := None; Labels := ∅;
  Annotations := ∅; Finalizers := []; OwnerReferences := []; UID := "" |}.
Definition empty_pod : PodSpec := {|
  pod_RestartPolicy := ""; pod_SchedulerName := ""; pod_Affinity := None; pod_NodeSelector := ∅;
  pod_HostNetwork := false; pod_HostPID := false; pod_Tolerations := []; pod_PriorityClassName := "";
  pod_ServiceAccountName := ""; pod_ImagePullSecrets := []; pod_TerminationGracePeriodSeconds := None;
  pod_SecurityContext := None; pod_EnableServiceLinks := None; pod_Containers := []; pod_InitContainers := [];
  pod_Volumes := [] |}.
Definition named_account (ns name : string) : ServiceAccount := {| sa_Meta := named_meta ns name |}.
Definition named_role (ns name : string) : Role := {| role_Meta := named_meta ns name; role_Rules := [] |}.
Definition named_binding (ns name : string) : RoleBinding := {|
  rb_Meta := named_meta ns name; rb_RoleRef := {| rr_APIGroup := ""; rr_Kind := ""; rr_Name := "" |};
  rb_Subjects := [] |}.
Definition named_csidriver (name : string) : CSIDriver := {|
  csid_Meta := named_meta "" name; csid_AttachRequired := None; csid_PodInfoOnMount := None;
  csid_VolumeLifecycleModes := [] |}.
Definition named_class (name : string) : StorageClass := {|
  sc_Meta := named_meta "" name; sc_Provisioner := ""; sc_Parameters := ∅; sc_MountOptions := [];
  sc_ReclaimPolicy := None; sc_VolumeBindingMode := None; sc_AllowVolumeExpansion := None |}.
Definition named_deployment (ns name : string) : Deployment := {|
  dep_Meta := named_meta ns name; dep_Replicas := None; dep_Selector := ∅; dep_StrategyType := "";
  dep_RollingUpdate := None; dep_TemplateLabels := ∅; dep_TemplateAnnotations := None; dep_Pod := empty_pod;
  dep_StatusReplicas := 0; dep_AvailableReplicas := 0; dep_ReadyReplicas := 0 |}.
Definition named_daemonset (ns name : string) : DaemonSet := {|
  ds_Meta := named_meta ns name; ds_Selector := ∅; ds_UpdateStrategy := ""; ds_TemplateLabels := ∅;
  ds_TemplateAnnotations := ∅; ds_Pod := empty_pod; ds_DesiredNumberScheduled := 0; ds_NumberReady := 0 |}.

#[export] Program Instance owned_account : Owned KServiceAccount := {| with_meta meta o := {| sa_Meta := meta |} |}.
Next Obligation. done. Qed.
#[export] Program Instance owned_role : Owned KRole := {|
  with_meta meta o := {| role_Meta := meta; role_Rules := role_Rules o |} |}.
Next Obligation. done. Qed.
#[export] Program Instance owned_binding : Owned KRoleBinding := {|
  with_meta meta o := {| rb_Meta := meta; rb_RoleRef := rb_RoleRef o; rb_Subjects := rb_Subjects o |} |}.
Next Obligation. done. Qed.

(** ** The owner of a driver name *)
(** [other] wins over [driver]: it is older, or has the smaller UID. *)
Definition othersTurn (other driver : SeaweedCSIDriver) : bool :=
  let t := CreationTimestamp (csi_Meta other) in
  let t' := CreationTimestamp (csi_Meta driver) in
  if negb (bool_decide (t = t')) then bool_decide (t < t')%Z
  else string_ltb (UID (csi_Meta other)) (UID (csi_Meta driver)).
Definition takes_name (driver other : SeaweedCSIDriver) : bool :=
  if bool_decide (UID (csi_Meta other) = UID (csi_Meta driver)) || negb (live (csi_Meta other)) then false
  else if negb (bool_decide (csi_DriverName (csi_Spec other) = csi_DriverName (csi_Spec driver))) then false
  else othersTurn other driver.
Definition conflict_in (driver : SeaweedCSIDriver) (items : list SeaweedCSIDriver) : string :=
  match List.find (takes_name driver) items with
  | Some other => Namespace (csi_Meta other) +:+ "/" +:+ Name (csi_Meta other)
  | None => ""
  end.
Definition driverNameConflict (driver : SeaweedCSIDriver) : op (result string) :=
  try items <- kube (KList KSeaweedCSIDriver None ∅) catch err => Ret (Err err);
  Ret (Ok (conflict_in driver items)).

(** ** Reconciliation *)
Definition boolToStatus (b : bool) : ConditionStatus := if b then ConditionTrue else ConditionFalse.
Definition reasonAvailable (b : bool) : string := if b then "Available" else "Unavailable".
Definition deleteIfExists (k : Kind) (o : Obj k) : op (option error) :=
  do r <- kube (KDelete k o);
  match r with Some err => Ret (IgnoreNotFound err) | None => Ret None end.

Section controller.
Context `{ApiMachinery} `{Owners} `{Digest}.

Definition csi_setCondition (driver : SeaweedCSIDriver) (condType : string) (status : ConditionStatus)
    (reason message : string) : SeaweedCSIDriver :=
  csi_set_conditions (SetStatusCondition (csist_Conditions (csi_Status driver))
    {| cond_Type := condType; cond_Status := status; cond_ObservedGeneration := Generation (csi_Meta driver);
       cond_Reason := reason; cond_Message := message |}) driver.
Definition csi_clearCondition (driver : SeaweedCSIDriver) (condType : string) : SeaweedCSIDriver :=
  csi_set_conditions (RemoveStatusCondition (csist_Conditions (csi_Status driver)) condType) driver.

(** The status is written, and the driver looked at again soon. *)
Definition write_and_retry (driver : SeaweedCSIDriver) : op outcome :=
  check kube (KStatusUpdate KSeaweedCSIDriver driver) catch err => Ret (Done noResult (Some err));
  Ret (Done (requeueIn requeueAfterTransient) None).
Definition markConflict (driver : SeaweedCSIDriver) (owner : string) : op outcome :=
  write_and_retry (csi_set_phase CSIDriverPhaseFailed
    (csi_setCondition driver CSIConditionDriverNameConflict ConditionTrue "DriverNameTaken"
       ("driverName " +:+ fmt_q (csi_DriverName (csi_Spec driver)) +:+
        " is already managed by SeaweedCSIDriver " +:+ owner))).
Definition patchPending (driver : SeaweedCSIDriver) : op outcome :=
  write_and_retry (csi_set_phase CSIDriverPhasePending driver).
Definition csi_fail (driver : SeaweedCSIDriver) (reason message : string) : op outcome :=
  write_and_retry (csi_setCondition (csi_set_phase CSIDriverPhaseFailed driver)
                     CSIConditionReady ConditionFalse reason message).

(** The filer address and the driver with its conditions; an early end is [inl]. *)
Definition resolveFiler (driver : SeaweedCSIDriver) : segment opE outcome (SeaweedCSIDriver * string) :=
  let spec := csi_Spec driver in
  let stop driver := do o <- patchPending driver; Ret (inl o) in
  if negb (bool_decide (csi_FilerAddress spec = "")) then
    let driver := csi_clearCondition driver CSIConditionReferenceGranted in
    let driver := csi_setCondition driver CSIConditionClusterReachable ConditionTrue "ExternalFiler" "" in
    Ret (inr (driver, csi_FilerAddress spec))
  else
    match csi_SeaweedRef spec with
    | None => stop (csi_setCondition driver CSIConditionClusterReachable ConditionFalse "NoFilerTarget"
                      "exactly one of seaweedRef or filerAddress must be set")
    | Some ref =>
        let ns := Namespace (csi_Meta driver) in
        do r <- seaweedRefPermitted ref kindSeaweedCSIDriver ns;
        match r with
        | inl err => Ret (inl (Done noResult (Some err)))
        | inr permitted =>
            if negb permitted then
              stop (csi_setCondition driver CSIConditionReferenceGranted ConditionFalse "ReferenceGrantMissing"
                      (seaweedRefDeniedMessage ref kindSeaweedCSIDriver ns))
            else
              let driver := csi_clearCondition driver CSIConditionReferenceGranted in
              do r <- resolveSeaweedFiler ref ns;
              match r with
              | inl err => Ret (inl (Done noResult (Some err)))
              | inr None =>
                  stop (csi_setCondition driver CSIConditionClusterReachable ConditionFalse "ClusterRefNotFound"
                          ("Seaweed " +:+ fmt_q (ref_Name ref) +:+ " not found"))
              | inr (Some target) =>
                  Ret (inr (csi_setCondition driver CSIConditionClusterReachable ConditionTrue "Reachable" "",
                            address target))
              end
        end
    end.

(** ** The objects *)
Definition owned_mutation (driver : SeaweedCSIDriver) {k : Kind} `{Owned k} (build : Obj k -> Obj k) (o : Obj k)
    : result (Obj k) :=
  match SetControllerReference (csi_Meta driver) kindSeaweedCSIDriver (obj_meta (build o)) with
  | inl err => Err err
  | inr meta => Ok (with_meta meta (build o))
  end.
Definition ensureOwned (driver : SeaweedCSIDriver) (k : Kind) `{Owned k} (o : Obj k) (build : Obj k -> Obj k)
    : op (option error) := kube (KCreateOrUpdate k o (owned_mutation driver build)).
Definition ensureClusterScoped (k : Kind) (o : Obj k) (build : Obj k -> Obj k) : op (option error) :=
  kube (KCreateOrUpdate k o (fun o => Ok (build o))).

Section ensure.
Context (driver : SeaweedCSIDriver).
#[local] Notation ns := (Namespace (csi_Meta driver)).
Definition ensureServiceAccounts : op (option error) :=
  for_until [csiControllerSAName driver; csiNodeSAName driver] (fun name =>
    ensureOwned driver KServiceAccount (named_account ns name) (buildServiceAccount driver)).
Definition ensureRBAC : op (option error) :=
  check ensureClusterScoped KClusterRole (named_role "" (csiControllerName driver)) (buildControllerClusterRole driver)
  catch err => Ret (Some err);
  check ensureClusterScoped KClusterRole (named_role "" (csiNodeName driver)) (buildNodeClusterRole driver)
  catch err => Ret (Some err);
  check ensureClusterScoped KClusterRoleBinding (named_binding "" (csiControllerName driver))
          (buildClusterRoleBinding driver (csiControllerName driver) (csiControllerSAName driver) ns)
  catch err => Ret (Some err);
  check ensureClusterScoped KClusterRoleBinding (named_binding "" (csiNodeName driver))
          (buildClusterRoleBinding driver (csiNodeName driver) (csiNodeSAName driver) ns)
  catch err => Ret (Some err);
  check ensureOwned driver KRole (named_role ns (csiControllerName driver)) (buildLeaderElectionRole driver)
  catch err => Ret (Some err);
  ensureOwned driver KRoleBinding (named_binding ns (csiControllerName driver))
    (buildLeaderElectionRoleBinding driver (csiControllerName driver) (csiControllerSAName driver)).
Definition ensureCSIDriverObject : op (option error) :=
  let obj := named_csidriver (csi_DriverName (csi_Spec driver)) in
  do r <- ensureClusterScoped KCSIDriver obj (buildCSIDriverObject driver);
  match r with
  | Some err =>
      if IsInvalid err then
        check deleteIfExists KCSIDriver obj catch delErr => Ret (Some delErr);
        do _ <- call (OEvent "Warning" "CSIDriverRecreated"
                  ("CSIDriver " +:+ fmt_q (csi_DriverName (csi_Spec driver)) +:+
                   " has an immutable spec change (attacherEnabled); recreating"));
        Ret None
      else Ret (Some err)
  | None => Ret None
  end.
Definition ensureControllerDeployment (filerAddress : string) : op (option error) :=
  ensureOwned driver KDeployment (named_deployment ns (csiControllerName driver))
    (buildControllerDeployment driver filerAddress).
Definition ensureNodeDaemonSet (filerAddress : string) : op (option error) :=
  ensureOwned driver KDaemonSet (named_daemonset ns (csiNodeName driver)) (buildNodeDaemonSet driver filerAddress).
Definition ensureMountDaemonSet : op (option error) :=
  let ds := named_daemonset ns (csiMountName driver) in
  if negb (mountServiceEnabled driver) then deleteIfExists KDaemonSet ds
  else ensureOwned driver KDaemonSet ds (buildMountDaemonSet driver).
Definition ensureStorageClass : op (option error) :=
  let sc := named_class (storageClassName driver) in
  match csi_StorageClass (csi_Spec driver) with
  | None => deleteIfExists KStorageClass sc
  | Some scSpec => ensureClusterScoped KStorageClass sc (buildStorageClass driver scSpec)
  end.
(** [fmt.Errorf("...: %w", err)] *)
Definition labelled (prefix : string) (err : error) : option error :=
  Some (ErrOther (prefix +:+ ": " +:+ error_string err)).
Definition ensureAll (filerAddress : string) : op (option error) :=
  check ensureServiceAccounts catch err => Ret (labelled "service accounts" err);
  check ensureRBAC catch err => Ret (labelled "rbac" err);
  check ensureCSIDriverObject catch err => Ret (labelled "csidriver object" err);
  check ensureControllerDeployment filerAddress catch err => Ret (labelled "controller deployment" err);
  check ensureNodeDaemonSet filerAddress catch err => Ret (labelled "node daemonset" err);
  check ensureMountDaemonSet catch err => Ret (labelled "mount daemonset" err);
  check ensureStorageClass catch err => Ret (labelled "storageclass" err);
  Ret None.
End ensure.

(** ** The status *)
Definition controller_ready (dep : Deployment) : bool := (0 <? dep_ReadyReplicas dep)%Z.
Definition node_ready (ds : DaemonSet) : bool := (ds_DesiredNumberScheduled ds <=? ds_NumberReady ds)%Z.
Definition observed_status (driver : SeaweedCSIDriver) (dep : Deployment) (ds : DaemonSet) : bool * SeaweedCSIDriver :=
  let driver := csi_set_counts {| csicomp_Desired := dep_StatusReplicas dep; csicomp_Ready := dep_ReadyReplicas dep |}
                  {| csicomp_Desired := ds_DesiredNumberScheduled ds; csicomp_Ready := ds_NumberReady ds |} driver in
  let controllerReady := controller_ready dep in
  let nodeReady := node_ready ds in
  let driver := csi_setCondition driver CSIConditionControllerAvailable (boolToStatus controllerReady)
    (reasonAvailable controllerReady)
    (fmt_d (dep_ReadyReplicas dep) +:+ "/" +:+ fmt_d (dep_StatusReplicas dep) +:+ " controller replicas ready") in
  let driver := csi_setCondition driver CSIConditionNodeAvailable (boolToStatus nodeReady) (reasonAvailable nodeReady)
    (fmt_d (ds_NumberReady ds) +:+ "/" +:+ fmt_d (ds_DesiredNumberScheduled ds) +:+ " node pods ready") in
  let ready := controllerReady && nodeReady in
  let driver := csi_set_observed driver in
  (ready,
   if ready then
     csi_setCondition (csi_set_phase CSIDriverPhaseReady driver) CSIConditionReady ConditionTrue "Reconciled" ""
   else if controllerReady || (0 <? ds_NumberReady ds)%Z then
     csi_setCondition (csi_set_phase CSIDriverPhaseDegraded driver) CSIConditionReady ConditionFalse
       "PartiallyAvailable" "controller or node plugin not fully ready"
   else
     csi_setCondition (csi_set_phase CSIDriverPhasePending driver) CSIConditionReady ConditionFalse
       "RollingOut" "waiting for controller and node plugin").
Definition refreshStatus (driver : SeaweedCSIDriver) : op (result (bool * SeaweedCSIDriver)) :=
  let key name := {| nn_Namespace := Namespace (csi_Meta driver); nn_Name := name |} in
  let missing err := match IgnoreNotFound err with Some err => Err err | None => Ok (false, driver) end in
  try dep <- kube (KGet KDeployment (key (csiControllerName driver))) catch err => Ret (missing err);
  try ds <- kube (KGet KDaemonSet (key (csiNodeName driver))) catch err => Ret (missing err);
  Ret (Ok (observed_status driver dep ds)).

(** ** Deletion *)
Definition class_of (sc : StorageClass) (driver : SeaweedCSIDriver) : bool :=
  bool_decide (default "" (Labels (sc_Meta sc) !! InstanceLabelKey) = Name (csi_Meta driver)).
Definition delete_class (driver : SeaweedCSIDriver) : op (option error) :=
  match csi_StorageClass (csi_Spec driver) with
  | None => Ret None
  | Some _ =>
      do r <- kube (KGet KStorageClass {| nn_Namespace := ""; nn_Name := storageClassName driver |});
      match r with
      | inl err => if IsNotFound err then Ret None else Ret (Some err)
      | inr sc => if class_of sc driver then deleteIfExists KStorageClass sc else Ret None
      end
  end.
Definition delete_csidriver (driver : SeaweedCSIDriver) : op (option error) :=
  try conflict <- driverNameConflict driver catch err => Ret (Some err);
  if bool_decide (conflict = "") then deleteIfExists KCSIDriver (named_csidriver (csi_DriverName (csi_Spec driver)))
  else Ret None.
Definition csi_handleDeletion (driver : SeaweedCSIDriver) : op outcome :=
  if negb (ContainsFinalizer (Finalizers (csi_Meta driver)) seaweedCSIDriverFinalizer) then Ret (Done noResult None)
  else
    let driver := csi_set_phase CSIDriverPhaseTerminating driver in
    let labels := csiInstanceLabels driver in
    check kube (KDeleteAllOf KClusterRoleBinding labels) catch err => Ret (Done noResult (Some err));
    check kube (KDeleteAllOf KClusterRole labels) catch err => Ret (Done noResult (Some err));
    check delete_csidriver driver catch err => Ret (Done noResult (Some err));
    check delete_class driver catch err => Ret (Done noResult (Some err));
    let driver := csi_set_meta (with_finalizers (csi_Meta driver)
                    (RemoveFinalizer (Finalizers (csi_Meta driver)) seaweedCSIDriverFinalizer)) driver in
    check kube (KUpdate KSeaweedCSIDriver driver) catch err => Ret (Done noResult (Some err));
    Ret (Done noResult None).

(** ** The pass *)
Definition csi_finish (driver : SeaweedCSIDriver) : op outcome :=
  try x <- refreshStatus driver catch err => Ret (Done noResult (Some err));
  let '(ready, driver) := x in
  check kube (KStatusUpdate KSeaweedCSIDriver driver) catch err => Ret (Done noResult (Some err));
  Ret (Done (requeueIn (if ready then csiResyncInterval else requeueAfterTransient)) None).
Definition csi_Reconcile (req : NamespacedName) : op outcome :=
  try driver <- kube (KGet KSeaweedCSIDriver req) catch err => Ret (Done noResult (IgnoreNotFound err));
  if negb (live (csi_Meta driver)) then csi_handleDeletion driver
  else if negb (ContainsFinalizer (Finalizers (csi_Meta driver)) seaweedCSIDriverFinalizer) then
    let driver := csi_set_meta (with_finalizers (csi_Meta driver)
                    (AddFinalizer (Finalizers (csi_Meta driver)) seaweedCSIDriverFinalizer)) driver in
    check kube (KUpdate KSeaweedCSIDriver driver) catch err => Ret (Done noResult (Some err));
    Ret (Done requeueNow None)
  else
    let driver := csi_set_name driver in
    try conflict <- driverNameConflict driver catch err => Ret (Done noResult (Some err));
    if negb (bool_decide (conflict = "")) then markConflict driver conflict
    else
      let driver := csi_clearCondition driver CSIConditionDriverNameConflict in
      do r <- resolveFiler driver;
      match r with
      | inl o => Ret o
      | inr (driver, filerAddress) =>
          let driver := csi_set_filer filerAddress driver in
          do r <- ensureAll driver filerAddress;
          match r with
          | Some err => csi_fail driver "ReconcileFailed" (error_string err)
          | None => csi_finish driver
          end
      end.
End controller.

(** ** One owner per driver name *)
Definition claims_driver (name : string) (d : SeaweedCSIDriver) : Prop :=
  live (csi_Meta d) = true /\ csi_DriverName (csi_Spec d) = name.
#[export] Instance claims_driver_dec name d : Decision (claims_driver name d).
Proof. unfold claims_driver. apply _. Defined.
(** Distinct drivers have distinct UIDs. *)
Definition unique_uids (items : list SeaweedCSIDriver) : Prop :=
  forall x y, x ∈ items -> y ∈ items -> UID (csi_Meta x) = UID (csi_Meta y) -> x = y.

Definition older (a b : SeaweedCSIDriver) : Prop :=
  (CreationTimestamp (csi_Meta a) < CreationTimestamp (csi_Meta b))%Z \/
  CreationTimestamp (csi_Meta a) = CreationTimestamp (csi_Meta b) /\
  String.le (UID (csi_Meta a)) (UID (csi_Meta b)) /\ UID (csi_Meta a) <> UID (csi_Meta b).
Lemma othersTurn_spec a b : othersTurn a b = true <-> older a b.
Proof. unfold othersTurn, older. repeat case_bool_decide; simpl; rewrite ?string_ltb_spec; naive_solver lia. Qed.
Lemma older_irrefl a : ~ older a a.
Proof. unfold older. naive_solver lia. Qed.
Lemma older_trans a b c : older a b -> older b c -> older a c.
Proof.
  unfold older. intros [H1|[E1 H1]] [H2|[E2 H2]]; [left; lia|left; lia|left; lia|].
  right. split; [congruence|]. by eapply string_lt_trans.
Qed.
Lemma older_total a b : UID (csi_Meta a) <> UID (csi_Meta b) -> older a b \/ older b a.
Proof.
  unfold older. intros Hne.
  destruct (Z.lt_trichotomy (CreationTimestamp (csi_Meta a)) (CreationTimestamp (csi_Meta b))) as [?|[E|?]];
    [by left; left| |by right; left].
  destruct (total String.le (UID (csi_Meta a)) (UID (csi_Meta b))); [left|right]; right; (split; [done|]);
    (split; [done|congruence]).
Qed.
(** An oldest element of those that satisfy a predicate. *)
Lemma oldest_exists (P : SeaweedCSIDriver -> Prop) `{!forall d, Decision (P d)}
    (items : list SeaweedCSIDriver) :
  (exists x, x ∈ items /\ P x) -> exists w, w ∈ items /\ P w /\ forall y, y ∈ items -> P y -> ~ older y w.
Proof.
  induction items as [|a items IH]; [by intros (x & ?%elem_of_nil & _)|]. intros (x0 & Hx0 & HP0).
  destruct (decide (Exists P items)) as [(x & Hx & HP)%Exists_exists|Hn].
  - destruct IH as (w & Hw & HPw & Hmin); [by exists x|].
    destruct (decide (P a /\ othersTurn a w = true)) as [[HPa Ha%othersTurn_spec]|Ha].
    + exists a. split; [by left|]. split; [done|]. intros y [->|Hy]%elem_of_cons HPy Hlt; [by eapply older_irrefl|].
      eapply (Hmin y Hy HPy), older_trans; [exact Hlt|exact Ha].
    + exists w. split; [by right|]. split; [done|]. intros y [->|Hy]%elem_of_cons HPy Hlt; [|by eapply Hmin].
      apply Ha. split; [done|]. by apply othersTurn_spec.
  - assert (x0 = a) as ->.
    { apply elem_of_cons in Hx0 as [->|Hx0]; [done|]. exfalso. apply Hn, Exists_exists. by exists x0. }
    exists a. split; [by left|]. split; [done|]. intros y [->|Hy]%elem_of_cons HPy Hlt; [by eapply older_irrefl|].
    apply Hn, Exists_exists. by exists y.
Qed.
Lemma takes_name_spec d o :
  takes_name d o = true <->
  UID (csi_Meta o) <> UID (csi_Meta d) /\ claims_driver (csi_DriverName (csi_Spec d)) o /\ older o d.
Proof.
  unfold takes_name, claims_driver. case_bool_decide; cbn [orb]; [naive_solver|].
  destruct (live (csi_Meta o)); cbn [negb]; [|naive_solver]. case_bool_decide; cbn [negb]; [|naive_solver].
  rewrite othersTurn_spec. naive_solver.
Qed.
Lemma conflict_in_spec d items : conflict_in d items = "" <-> forall o, o ∈ items -> takes_name d o = false.
Proof.
  unfold conflict_in. destruct (List.find (takes_name d) items) as [o|] eqn:Hf.
  - apply find_some in Hf as [Hin Ht]. split; [by destruct (Namespace (csi_Meta o))|].
    intros Ha. rewrite Ha in Ht; [done|]. by apply list_elem_of_In.
  - split; [|done]. intros _ o Hin. apply (find_none _ _ Hf). by apply list_elem_of_In.
Qed.

(** A driver name has exactly one owner.  Take the drivers the API server lists, in
    any environment whose list call answers them: among the live ones that claim the
    name there is one [owner], and the arbitration finds no conflict for it and one
    for every other claimant.  So two drivers never both go on to deploy under one
    name, which the kubelet knows once per node, and the name is never without one. *)
Theorem driver_name_single_owner {S} (env : Env opE S) items name :
  (forall s r s1, env _ (OKube (KList KSeaweedCSIDriver None ∅)) s r s1 -> r = Ok items) ->
  unique_uids items ->
  (exists d, d ∈ items /\ claims_driver name d) ->
  exists owner, owner ∈ items /\ claims_driver name owner /\
    forall d s s' r, d ∈ items -> claims_driver name d -> exec env (driverNameConflict d) s s' r ->
      exists conflict, r = Ok conflict /\ (conflict = "" <-> d = owner).
Proof.
  intros Hlist Hu Hex. destruct (oldest_exists (claims_driver name) items Hex) as (w & Hw & Hcw & Hmin).
  exists w. split; [done|]. split; [done|]. intros d s s' r Hd Hcd. revert s' r. apply wp_exec.
  unfold driverNameConflict. wx. intros r s1 ->%Hlist. wx. exists (conflict_in d items). split; [done|].
  rewrite conflict_in_spec. split.
  - intros Hn. apply Hu; [done..|]. apply dec_stable. intros Hne. destruct (older_total d w Hne) as [Ho|Ho].
    + by apply (Hmin d).
    + specialize (Hn w Hw). assert (takes_name d w = true); [|congruence]. apply takes_name_spec.
      destruct Hcd as [_ ->]. by split_and!.
  - intros -> o Ho. destruct (takes_name w o) eqn:Ht; [|done]. apply takes_name_spec in Ht as (_ & Hc & Hlt).
    destruct Hcw as [_ Hn]. rewrite Hn in Hc. exfalso. by apply (Hmin o).
Qed.

(** ** What the controller may do *)
Section safety.
Context `{ApiMachinery} `{Owners} `{Digest} (req : NamespacedName).
#[local] Set Default Proof Using "Type*".

(** The objects a driver asks for, each with the mutation that fills it. *)
Inductive declared (d : SeaweedCSIDriver) (filer : string) : forall k, Obj k -> (Obj k -> result (Obj k)) -> Prop :=
| decl_account name : name = csiControllerSAName d \/ name = csiNodeSAName d ->
    declared d filer KServiceAccount (named_account (Namespace (csi_Meta d)) name)
      (owned_mutation d (k:=KServiceAccount) (buildServiceAccount d))
| decl_controller_role : declared d filer KClusterRole (named_role "" (csiControllerName d))
    (fun o => Ok (buildControllerClusterRole d o))
| decl_node_role : declared d filer KClusterRole (named_role "" (csiNodeName d))
    (fun o => Ok (buildNodeClusterRole d o))
| decl_role_binding name sa :
    (name, sa) = (csiControllerName d, csiControllerSAName d) \/ (name, sa) = (csiNodeName d, csiNodeSAName d) ->
    declared d filer KClusterRoleBinding (named_binding "" name)
      (fun o => Ok (buildClusterRoleBinding d name sa (Namespace (csi_Meta d)) o))
| decl_election_role : declared d filer KRole (named_role (Namespace (csi_Meta d)) (csiControllerName d))
    (owned_mutation d (k:=KRole) (buildLeaderElectionRole d))
| decl_election_binding : declared d filer KRoleBinding (named_binding (Namespace (csi_Meta d)) (csiControllerName d))
    (owned_mutation d (k:=KRoleBinding) (buildLeaderElectionRoleBinding d (csiControllerName d) (csiControllerSAName d)))
| decl_driver : declared d filer KCSIDriver (named_csidriver (csi_DriverName (csi_Spec d)))
    (fun o => Ok (buildCSIDriverObject d o))
| decl_controller : declared d filer KDeployment (named_deployment (Namespace (csi_Meta d)) (csiControllerName d))
    (owned_mutation d (k:=KDeployment) (buildControllerDeployment d filer))
| decl_node : declared d filer KDaemonSet (named_daemonset (Namespace (csi_Meta d)) (csiNodeName d))
    (owned_mutation d (k:=KDaemonSet) (buildNodeDaemonSet d filer))
| decl_mount : mountServiceEnabled d = true ->
    declared d filer KDaemonSet (named_daemonset (Namespace (csi_Meta d)) (csiMountName d))
      (owned_mutation d (k:=KDaemonSet) (buildMountDaemonSet d))
| decl_class sc : csi_StorageClass (csi_Spec d) = Some sc ->
    declared d filer KStorageClass (named_class (storageClassName d)) (fun o => Ok (buildStorageClass d sc o)).

Definition csi_fetched (tr : trace) (d : SeaweedCSIDriver) : Prop := saw_kube tr (KGet KSeaweedCSIDriver req) (Ok d).
Definition has_csi_finalizer (d : SeaweedCSIDriver) : bool :=
  ContainsFinalizer (Finalizers (csi_Meta d)) seaweedCSIDriverFinalizer.
Definition saw_conflict (tr : trace) (d : SeaweedCSIDriver) (P : string -> Prop) : Prop :=
  exists items, saw_kube tr (KList KSeaweedCSIDriver None ∅) (Ok items) /\ P (conflict_in d items).
(** The driver that was read, up to its status. *)
Definition read_as (tr : trace) (d : SeaweedCSIDriver) : Prop :=
  exists d0, csi_fetched tr d0 /\ csi_Meta d = csi_Meta d0 /\ csi_Spec d = csi_Spec d0.
(** It is live, guarded by its finalizer, and owns its driver name. *)
Definition owner_of_name (tr : trace) (d : SeaweedCSIDriver) : Prop :=
  read_as tr d /\ live (csi_Meta d) = true /\ has_csi_finalizer d = true /\ saw_conflict tr d (eq "").
(** The filer it mounts is the explicit one, or that of a cluster it may refer to. *)
Definition mounts_filer (tr : trace) (d : SeaweedCSIDriver) (filer : string) : Prop :=
  (csi_FilerAddress (csi_Spec d) <> "" /\ filer = csi_FilerAddress (csi_Spec d)) \/
  exists ref t, csi_SeaweedRef (csi_Spec d) = Some ref /\
    seaweed_granted tr ref kindSeaweedCSIDriver (Namespace (csi_Meta d)) /\
    resolved tr ref (Namespace (csi_Meta d)) t /\ filer = address t.
Definition deploys (tr : trace) (d : SeaweedCSIDriver) (filer : string) : Prop :=
  owner_of_name tr d /\ mounts_filer tr d filer.
Definition terminates (tr : trace) (d : SeaweedCSIDriver) : Prop :=
  read_as tr d /\ live (csi_Meta d) = false /\ has_csi_finalizer d = true.
Definition gone (r : option error) : Prop := match r with None => True | Some e => IsNotFound e = true end.

(** Why an object is deleted. *)
Inductive csi_deletes (tr : trace) : forall k, Obj k -> Prop :=
| del_mount d filer : deploys tr d filer -> mountServiceEnabled d = false ->
    csi_deletes tr KDaemonSet (named_daemonset (Namespace (csi_Meta d)) (csiMountName d))
| del_undeclared_class d filer : deploys tr d filer -> csi_StorageClass (csi_Spec d) = None ->
    csi_deletes tr KStorageClass (named_class (storageClassName d))
| del_immutable d filer e : deploys tr d filer ->
    saw_kube tr (KCreateOrUpdate KCSIDriver (named_csidriver (csi_DriverName (csi_Spec d)))
                   (fun o => Ok (buildCSIDriverObject d o))) (Some e) -> IsInvalid e = true ->
    csi_deletes tr KCSIDriver (named_csidriver (csi_DriverName (csi_Spec d)))
| del_driver d : terminates tr d -> saw_conflict tr d (eq "") ->
    csi_deletes tr KCSIDriver (named_csidriver (csi_DriverName (csi_Spec d)))
| del_class d sc : terminates tr d ->
    saw_kube tr (KGet KStorageClass {| nn_Namespace := ""; nn_Name := storageClassName d |}) (Ok sc) ->
    class_of sc d = true -> csi_deletes tr KStorageClass sc.
(** The cluster-scoped objects of a deleted driver are gone, or not its own. *)
Definition csidriver_released (tr : trace) (d : SeaweedCSIDriver) : Prop :=
  saw_conflict tr d (fun c => c <> "") \/
  exists r, saw_kube tr (KDelete KCSIDriver (named_csidriver (csi_DriverName (csi_Spec d)))) r /\ gone r.
Definition class_released (tr : trace) (d : SeaweedCSIDriver) : Prop :=
  csi_StorageClass (csi_Spec d) = None \/
  exists a, saw_kube tr (KGet KStorageClass {| nn_Namespace := ""; nn_Name := storageClassName d |}) a /\
    match a with
    | inl e => IsNotFound e = true
    | inr sc => class_of sc d = false \/ exists r, saw_kube tr (KDelete KStorageClass sc) r /\ gone r
    end.
Definition csi_released (tr : trace) (d : SeaweedCSIDriver) : Prop :=
  saw_kube tr (KDeleteAllOf KClusterRoleBinding (csiInstanceLabels d)) None /\
  saw_kube tr (KDeleteAllOf KClusterRole (csiInstanceLabels d)) None /\
  csidriver_released tr d /\ class_released tr d.
Definition csi_finalizer_update (tr : trace) (o : SeaweedCSIDriver) : Prop :=
  exists d, read_as tr d /\ csi_Spec o = csi_Spec d /\
    (live (csi_Meta d) = true /\ csi_Meta o = with_finalizers (csi_Meta d)
       (AddFinalizer (Finalizers (csi_Meta d)) seaweedCSIDriverFinalizer) \/
     terminates tr d /\ csi_released tr d /\ csi_Meta o = with_finalizers (csi_Meta d)
       (RemoveFinalizer (Finalizers (csi_Meta d)) seaweedCSIDriverFinalizer)).
(** [Ready] is only reported of workloads that were read and are ready. *)
Definition csi_status_update (tr : trace) (o : SeaweedCSIDriver) : Prop :=
  read_as tr o /\
  (csist_Phase (csi_Status o) = CSIDriverPhaseReady ->
   (exists d0, csi_fetched tr d0 /\ csist_Phase (csi_Status d0) = CSIDriverPhaseReady) \/
   exists dep ds,
     saw_kube tr (KGet KDeployment {| nn_Namespace := Namespace (csi_Meta o); nn_Name := csiControllerName o |}) (Ok dep) /\
     saw_kube tr (KGet KDaemonSet {| nn_Namespace := Namespace (csi_Meta o); nn_Name := csiNodeName o |}) (Ok ds) /\
     controller_ready dep = true /\ node_ready ds = true).

Definition csi_guard : Guard := fun tr X e =>
  match e with
  | OKube (KGet _ _) | OKube (KList _ _ _) | ODialTLS _ _ _ | OEvent _ _ _ => True
  | OKube (KCreateOrUpdate k o f) => exists d filer, deploys tr d filer /\ declared d filer k o f
  | OKube (KDelete k o) => csi_deletes tr k o
  | OKube (KDeleteAllOf k ls) => (k = KClusterRoleBinding \/ k = KClusterRole) /\
      exists d, terminates tr d /\ ls = csiInstanceLabels d
  | OKube (KUpdate KSeaweedCSIDriver o) => csi_finalizer_update tr o
  | OKube (KStatusUpdate KSeaweedCSIDriver o) => csi_status_update tr o
  | _ => False
  end.

Lemma csi_guard_reads : allows_reads csi_guard.
Proof. done. Qed.
Lemma read_as_mono tr new d : read_as tr d -> read_as (tr ++ new) d.
Proof. intros (d0 & Hf & Hd). exists d0. split; [by apply saw_app_l|done]. Qed.
Lemma saw_conflict_mono tr new d P : saw_conflict tr d P -> saw_conflict (tr ++ new) d P.
Proof. intros (items & Hs & Hp). exists items. split; [by apply saw_app_l|done]. Qed.
Lemma owner_of_name_mono tr new d : owner_of_name tr d -> owner_of_name (tr ++ new) d.
Proof. intros (? & ? & ? & ?). split_and!; [by apply read_as_mono|done..|by apply saw_conflict_mono]. Qed.
Lemma mounts_filer_mono tr new d f : mounts_filer tr d f -> mounts_filer (tr ++ new) d f.
Proof.
  intros [?|(ref & t & ? & ? & ? & ?)]; [by left|right]. exists ref, t.
  split_and!; [done|by apply granted_mono|by apply resolved_mono|done].
Qed.
Lemma deploys_mono tr new d f : deploys tr d f -> deploys (tr ++ new) d f.
Proof. intros [? ?]. split; [by apply owner_of_name_mono|by apply mounts_filer_mono]. Qed.
Lemma terminates_mono tr new d : terminates tr d -> terminates (tr ++ new) d.
Proof. intros (? & ? & ?). split_and!; [by apply read_as_mono|done..]. Qed.
#[local] Hint Resolve read_as_mono saw_conflict_mono owner_of_name_mono mounts_filer_mono deploys_mono terminates_mono : csi.

(** A step whose error ends the sequence; what was established before it stays. *)
Lemma swp_check {A} (p : op (option error)) (f : error -> op A) (q : op A) (I : trace -> Prop) Q tr :
  (forall tr new, I tr -> I (tr ++ new)) -> I tr -> swp csi_guard p (fun _ _ => True) tr ->
  (forall e tr', I tr' -> swp csi_guard (f e) Q tr') -> (forall tr', I tr' -> swp csi_guard q Q tr') ->
  swp csi_guard (bind p (fun r => match r with Some e => f e | None => q end)) Q tr.
Proof. intros Hm Hi Hp Hf Hq. eapply swp_seq_keep; [exact Hp|]. intros [e|] new _; [by apply Hf, Hm|by apply Hq, Hm]. Qed.

Section ensured.
Context (d : SeaweedCSIDriver) (filer : string).
#[local] Notation I := (fun tr => deploys tr d filer).
#[local] Notation allowed p := (forall tr, I tr -> swp csi_guard p (fun _ _ => True) tr).
Lemma upsert_allowed k (o : Obj k) f : declared d filer k o f -> allowed (kube (KCreateOrUpdate k o f)).
Proof. intros Hd tr Hi. sx. split; [by exists d, filer|done]. Qed.
Lemma check_allowed (p : op (option error)) (f : error -> option error) q :
  allowed p -> allowed q -> allowed (check p catch err => Ret (f err); q).
Proof. intros Hp Hq tr Hi. eapply (swp_check _ _ _ I); [intros; by apply deploys_mono|done|by apply Hp|done|exact Hq]. Qed.
Lemma accounts_allowed : allowed (ensureServiceAccounts d).
Proof.
  intros tr Hi. unfold ensureServiceAccounts. cbn [for_until].
  eapply (swp_check (A:=option error) _ (fun e => Ret (Some e)) _ I);
    [intros; by apply deploys_mono|done|by apply upsert_allowed; [constructor; left|]|done|].
  intros tr1 H1'. eapply (swp_check (A:=option error) _ (fun e => Ret (Some e)) _ I);
    [intros; by apply deploys_mono|done|by apply upsert_allowed; [constructor; right|]|done|done].
Qed.
Lemma rbac_allowed : allowed (ensureRBAC d).
Proof.
  unfold ensureRBAC, ensureClusterScoped, ensureOwned.
  repeat apply check_allowed; apply upsert_allowed; first [apply decl_role_binding; auto|constructor].
Qed.
Lemma driver_object_allowed : allowed (ensureCSIDriverObject d).
Proof.
  intros tr Hi. unfold ensureCSIDriverObject, ensureClusterScoped, deleteIfExists. cbv zeta. sx.
  split; [exists d, filer; split; [done|constructor]|]. intros [e|]; [|done]. destruct (IsInvalid e) eqn:He; [|done]. sx.
  split.
  { eapply (del_immutable _ d filer e); [by apply deploys_mono|apply saw_last|done]. }
  intros [e'|]; [destruct (IgnoreNotFound e')|]; by sx.
Qed.
Lemma mount_allowed : allowed (ensureMountDaemonSet d).
Proof.
  intros tr Hi. unfold ensureMountDaemonSet, deleteIfExists. cbv zeta. destruct (mountServiceEnabled d) eqn:Hm; cbn [negb].
  - by apply upsert_allowed; [constructor|].
  - sx. split; [by eapply del_mount|]. by intros [e|].
Qed.
Lemma class_allowed : allowed (ensureStorageClass d).
Proof.
  intros tr Hi. unfold ensureStorageClass, deleteIfExists. cbv zeta. destruct (csi_StorageClass (csi_Spec d)) as [sc|] eqn:Hs.
  - by apply upsert_allowed; [constructor|].
  - sx. split; [by eapply del_undeclared_class|]. by intros [e|].
Qed.
Lemma ensureAll_allowed : allowed (ensureAll d filer).
Proof.
  unfold ensureAll. apply check_allowed; [apply accounts_allowed|]. apply check_allowed; [apply rbac_allowed|].
  apply check_allowed; [apply driver_object_allowed|]. do 2 (apply check_allowed; [apply upsert_allowed; constructor|]).
  apply check_allowed; [apply mount_allowed|]. apply check_allowed; [apply class_allowed|done].
Qed.
End ensured.

(** *** The parts of a pass *)
Lemma write_swp d tr :
  csi_status_update tr d -> swp csi_guard (write_and_retry d) (fun _ _ => True) tr.
Proof. intros Hs. unfold write_and_retry. sx. split; [done|]. by intros [e|]. Qed.
(** A status that is not [Ready]. *)
Lemma other_phase_swp d tr :
  read_as tr d -> csist_Phase (csi_Status d) <> CSIDriverPhaseReady ->
  swp csi_guard (write_and_retry d) (fun _ _ => True) tr.
Proof. intros Hr Hp. apply write_swp. by split. Qed.
Lemma conflict_swp d tr :
  swp csi_guard (driverNameConflict d)
    (fun r tr' => match r with inl _ => True | inr c => saw_conflict tr' d (eq c) end) tr.
Proof. unfold driverNameConflict. sx. split; [done|]. intros [e|items]; sx; [done|]. exists items. split; [apply saw_last|done]. Qed.
Lemma resolveFiler_swp d tr :
  read_as tr d ->
  swp csi_guard (resolveFiler d)
    (fun r tr' => match r with
       | inl _ => True
       | inr (d', filer) => csi_Meta d' = csi_Meta d /\ csi_Spec d' = csi_Spec d /\
           csist_Phase (csi_Status d') = csist_Phase (csi_Status d) /\ mounts_filer tr' d filer
       end) tr.
Proof.
  intros Hr. unfold resolveFiler. cbv zeta.
  assert (Hstop : forall d' tr', read_as tr' d' ->
    swp csi_guard (do o <- patchPending d'; Ret (inl o) : segment opE outcome (SeaweedCSIDriver * string))
      (fun r tr' => match r with
       | inl _ => True
       | inr (d', filer) => csi_Meta d' = csi_Meta d /\ csi_Spec d' = csi_Spec d /\
           csist_Phase (csi_Status d') = csist_Phase (csi_Status d) /\ mounts_filer tr' d filer
       end) tr').
  { intros d' tr' Hd. eapply swp_seq; [by apply other_phase_swp|]. done. }
  case_bool_decide as Hf; cbn [negb]; [|do 3 (split; [done|]); by left].
  destruct (csi_SeaweedRef (csi_Spec d)) as [ref|] eqn:Href; [|by apply Hstop].
  eapply swp_seq_keep; [apply seaweedRefPermitted_swp, csi_guard_reads|]. intros [e|[]] new Hg; cbn [negb]; [done| |].
  - eapply swp_seq_keep; [apply resolveSeaweedFiler_swp, csi_guard_reads|]. intros [e|[t|]] new' Ht; [done| |].
    + do 3 (split; [done|]). right. exists ref, t. split; [done|]. split; [|done].
      apply granted_mono. by apply Hg.
    + apply Hstop. by do 2 apply read_as_mono.
  - apply Hstop. by apply read_as_mono.
Qed.
(** Up to the conditions, nothing of the status was touched yet. *)
Definition phase_as_read (tr : trace) (d : SeaweedCSIDriver) : Prop :=
  exists d0, csi_fetched tr d0 /\ csist_Phase (csi_Status d) = csist_Phase (csi_Status d0).
Lemma observed_justified d dep ds tr :
  read_as tr d ->
  saw_kube tr (KGet KDeployment {| nn_Namespace := Namespace (csi_Meta d); nn_Name := csiControllerName d |}) (Ok dep) ->
  saw_kube tr (KGet KDaemonSet {| nn_Namespace := Namespace (csi_Meta d); nn_Name := csiNodeName d |}) (Ok ds) ->
  csi_status_update tr (observed_status d dep ds).2.
Proof.
  intros Hr Hdep Hds. unfold observed_status. cbv zeta. cbn [snd].
  destruct (controller_ready dep) eqn:Hc, (node_ready ds) eqn:Hn; cbn [andb orb];
    [|(try destruct (0 <? ds_NumberReady ds)%Z); (split; [exact Hr|by intros ?])..].
  split; [exact Hr|]. intros _. right. exists dep, ds. by split_and!.
Qed.
Lemma csi_finish_swp d tr :
  read_as tr d -> phase_as_read tr d -> swp csi_guard (csi_finish d) (fun _ _ => True) tr.
Proof.
  intros Hr (d0 & Hf & Hph). unfold csi_finish.
  eapply (swp_seq_keep _ _ _ (fun r tr' => match r with inl _ => True | inr x => csi_status_update tr' x.2 end)).
  - assert (Hm : forall e new, match (match IgnoreNotFound e with Some err => Err err | None => Ok (false, d) end) with
       | inl _ => True | inr x => csi_status_update (tr ++ new) x.2 end).
    { intros e new. destruct (IgnoreNotFound e); [done|]. split; [by apply read_as_mono|]. intros Hp. left.
      exists d0. split; [by apply saw_app_l|]. by rewrite <-Hph. }
    unfold refreshStatus. cbv zeta. sx. split; [done|]. intros [e|dep]; [apply Hm|]. sx. split; [done|].
    intros [e|ds]; [rewrite <-app_assoc; apply Hm|]. apply observed_justified; [by do 2 apply read_as_mono| |].
    + apply saw_app_l, saw_last.
    + apply saw_last.
  - intros [e|[ready d']] new Hs; sx; [done|]. split; [done|]. by intros [e|].
Qed.
Lemma deleteIfExists_swp k (o : Obj k) tr :
  csi_deletes tr k o ->
  swp csi_guard (deleteIfExists k o)
    (fun r tr' => match r with Some _ => True | None => exists a, saw_kube tr' (KDelete k o) a /\ gone a end) tr.
Proof.
  intros Hd. unfold deleteIfExists. sx. split; [done|]. intros [e|]; sx.
  - unfold IgnoreNotFound. destruct (IsNotFound e) eqn:He; [|done]. exists (Some e). split; [apply saw_last|done].
  - exists None. split; [apply saw_last|done].
Qed.
Lemma delete_csidriver_swp d tr :
  terminates tr d ->
  swp csi_guard (delete_csidriver d)
    (fun r tr' => match r with Some _ => True | None => csidriver_released tr' d end) tr.
Proof.
  intros Ht. unfold delete_csidriver. eapply swp_seq_keep; [apply conflict_swp|].
  intros [e|c] new Hc; sx; [done|]. case_bool_decide as Hce; sx.
  - subst c. eapply swp_mono; [|apply deleteIfExists_swp; eapply del_driver; [by apply terminates_mono|done]].
    intros [e|] tr' Hr; [done|]. by right.
  - left. destruct Hc as (items & Hs & ->). by exists items.
Qed.
Lemma delete_class_swp d tr :
  terminates tr d ->
  swp csi_guard (delete_class d) (fun r tr' => match r with Some _ => True | None => class_released tr' d end) tr.
Proof.
  intros Ht. unfold delete_class, class_released. destruct (csi_StorageClass (csi_Spec d)) as [spec|]; [|by left].
  sx. split; [done|]. intros [e|sc].
  - destruct (IsNotFound e) eqn:He; sx; [|done]. right. exists (Err e). split; [apply saw_last|done].
  - destruct (class_of sc d) eqn:Hc.
    + eapply swp_mono; [|apply swp_extends, deleteIfExists_swp; eapply del_class;
        [by apply terminates_mono|apply saw_last|done]].
      intros [e|] tr' [[new ->] Hr]; [done|]. right. exists (Ok sc).
      split; [apply saw_app_l, saw_last|]. right. destruct Hr as (a & Ha). by exists a.
    + sx. right. exists (Ok sc). split; [apply saw_last|by left].
Qed.
Lemma csidriver_released_mono tr new d : csidriver_released tr d -> csidriver_released (tr ++ new) d.
Proof. intros [?|(r & ? & ?)]; [left; by apply saw_conflict_mono|right]. exists r. split; [by apply saw_app_l|done]. Qed.
Lemma deletion_swp d tr :
  read_as tr d -> live (csi_Meta d) = false -> swp csi_guard (csi_handleDeletion d) (fun _ _ => True) tr.
Proof.
  intros Hr Hl. unfold csi_handleDeletion. fold (has_csi_finalizer d). destruct (has_csi_finalizer d) eqn:Hf; [|done].
  cbn [negb]. cbv zeta. set (d' := csi_set_phase CSIDriverPhaseTerminating d).
  assert (Ht : terminates tr d') by (split; [exact Hr|by split]). sx.
  split; [split; [by left|]; by exists d'|]. intros [e|]; [done|]. sx.
  split; [split; [by right|]; exists d'; by split; [apply terminates_mono|]|]. intros [e|]; [done|].
  set (tr2 := (tr ++ _) ++ _). assert (Ht2 : terminates tr2 d') by by do 2 apply terminates_mono.
  assert (Hroles : forall new, saw_kube (tr2 ++ new) (KDeleteAllOf KClusterRoleBinding (csiInstanceLabels d')) None /\
                    saw_kube (tr2 ++ new) (KDeleteAllOf KClusterRole (csiInstanceLabels d')) None).
  { intros new. split; apply saw_app_l; [apply saw_app_l|]; apply saw_last. }
  clearbody tr2. eapply swp_seq_keep; [by apply delete_csidriver_swp|]. intros [e|] new Hd; [done|].
  eapply swp_seq_keep; [by apply delete_class_swp, terminates_mono|]. intros [e|] new' Hc; [done|]. sx.
  split; [|by intros [e|]]. exists d'. split; [by do 2 apply read_as_mono; apply Ht2|]. split; [done|]. right.
  split; [by do 2 apply terminates_mono|]. split; [|done].
  rewrite <-app_assoc in *. destruct (Hroles (new ++ new')). rewrite app_assoc. split_and!; [by rewrite <-app_assoc..| |].
  - by apply csidriver_released_mono.
  - by rewrite <-app_assoc.
Qed.

(** C5. Whatever the API server answers, a pass over a CSI driver makes only allowed
    calls: it writes only the objects its spec declares, and only for a live driver
    with its finalizer that owns its driver name, with a filer that is given or that
    a grant lets it use.  A pass over such a live driver deletes three things: the mount
    DaemonSet when the mount service is switched off, the CSIDriver after its update was
    answered as invalid, to be created anew, and the StorageClass with the name of the
    driver when the spec declares none, whoever made that class.  In the deletion of a
    driver it deletes the cluster roles and bindings with the labels of the driver, the
    CSIDriver unless an older driver claims the name, and the StorageClass if that is
    labelled with the driver; the finalizer goes only after all of that is gone.  Ready
    is only newly reported of workloads that were read and are ready. *)
Theorem csi_reconcile_guarded tr o :
  exec trace_env (csi_Reconcile req) [] tr o -> guarded csi_guard tr.
Proof.
  intros Hx. eapply (swp_theorem _ _ (fun _ _ => True)) in Hx as [Hg _]; [exact Hg|]. clear Hx tr o.
  unfold csi_Reconcile. sx. split; [done|]. intros [e|d]; [done|]. cbn [app].
  set (tr1 := [_]). assert (Hf : csi_fetched tr1 d) by (by left). clearbody tr1.
  assert (Hr : read_as tr1 d) by by exists d.
  destruct (live (csi_Meta d)) eqn:Hl; cbn [negb]; [|by apply deletion_swp].
  fold (has_csi_finalizer d). destruct (has_csi_finalizer d) eqn:Hfin; cbn [negb].
  2: { sx. split; [|by intros [e|]]. exists d. split; [done|]. split; [done|]. by left. }
  cbv zeta. eapply swp_seq_keep; [apply conflict_swp|]. intros [e|c] new Hc; sx; [done|].
  case_bool_decide as Hce; cbn [negb].
  2: { apply other_phase_swp; [|done]. by apply (read_as_mono tr1 new d). }
  subst c. set (d1 := csi_clearCondition _ _).
  assert (Hr1 : read_as (tr1 ++ new) d1) by by apply (read_as_mono tr1 new d).
  assert (Ho : owner_of_name (tr1 ++ new) d1) by by split_and!.
  assert (Hp : phase_as_read (tr1 ++ new) d1) by (exists d; split; [by apply saw_app_l|done]).
  clearbody d1. eapply swp_seq_keep; [by apply resolveFiler_swp|].
  intros [o|[d2 filer]] new2; sx; [done|]. intros (Hm & Hs & Hph & Hfiler). set (d3 := csi_set_filer filer d2).
  assert (Hd : deploys ((tr1 ++ new) ++ new2) d3 filer).
  { assert (He : csi_Meta d3 = csi_Meta d1 /\ csi_Spec d3 = csi_Spec d1) by done. destruct He as [Em Es].
    split; [|unfold mounts_filer in *; by rewrite Em, Es].
    apply (owner_of_name_mono _ new2) in Ho. unfold owner_of_name, read_as, has_csi_finalizer, saw_conflict, conflict_in,
      takes_name, othersTurn in *. by rewrite Em, Es. }
  assert (Hp3 : phase_as_read ((tr1 ++ new) ++ new2) d3).
  { destruct Hp as (d0 & Hd0 & Hpd). exists d0. split; [by apply saw_app_l|]. rewrite <-Hpd. exact Hph. }
  clearbody d3. eapply swp_seq_keep; [by apply (ensureAll_allowed d3 filer)|]. intros [e|] new3 _.
  - apply other_phase_swp; [|done]. apply (read_as_mono _ new3 d3). apply Hd.
  - apply csi_finish_swp; [apply (read_as_mono _ new3 d3); apply Hd|].
    destruct Hp3 as (d0 & ? & ?). exists d0. split; [by apply saw_app_l|done].
Qed.
End safety.

(** ** Evaluations *)
Definition sample_csi (ns name uid : string) (created : Time) (driverName : string) (class : option CSIStorageClassSpec)
    : SeaweedCSIDriver := {|
  csi_Meta := {| Name := name; Namespace := ns; Generation := 1; CreationTimestamp := created;
                 DeletionTimestamp := None; Labels := ∅; Annotations := ∅;
                 Finalizers := [seaweedCSIDriverFinalizer]; OwnerReferences := []; UID := uid |};
  csi_Spec := {|
    csi_SeaweedRef := None; csi_FilerAddress := "filer:8888"; csi_DriverName := driverName; csi_Image := "csi";
    csi_ImagePullPolicy := None; csi_ImagePullSecrets := []; csi_LogVerbosity := None; csi_CacheCapacityMB := None;
    csi_ConcurrentWriters := None; csi_ConcurrentReaders := None;
    csi_Sidecars := {| scar_Provisioner := ""; scar_Attacher := ""; scar_Resizer := ""; scar_NodeDriverRegistrar := "";
                       scar_LivenessProbe := "" |};
    csi_Controller := {| csic_Replicas := None; csic_AttacherEnabled := None; csic_Resources := no_resources;
                         csic_NodeSelector := ∅; csic_Tolerations := []; csic_Affinity := None |};
    csi_Node := {| csin_KubeletPath := ""; csin_HostPID := None; csin_Resources := no_resources;
                   csin_NodeSelector := ∅; csin_Tolerations := []; csin_UpdateStrategy := "" |};
    csi_MountService := {| csim_Enabled := None; csim_Image := ""; csim_SocketDir := "";
                           csim_Resources := no_resources; csim_NodeSelector := ∅; csim_Tolerations := [];
                           csim_UpdateStrategy := "" |};
    csi_StorageClass := class |};
  csi_Status := {| csist_ObservedGeneration := 0; csist_Phase := ""; csist_Conditions := []; csist_DriverName := "";
                   csist_ResolvedFilerAddress := ""; csist_Controller := {| csicomp_Desired := 0; csicomp_Ready := 0 |};
                   csist_Node := {| csicomp_Desired := 0; csicomp_Ready := 0 |} |} |}.
Definition sample_class (name : string) : CSIStorageClassSpec := {|
  csis_Name := name; csis_IsDefaultClass := false; csis_ReclaimPolicy := None; csis_VolumeBindingMode := None;
  csis_AllowVolumeExpansion := None; csis_Parameters := ∅; csis_MountOptions := [] |}.
Definition csi_key (ns name : string) : NamespacedName := {| nn_Namespace := ns; nn_Name := name |}.
Definition csi_pass (ns name : string) (s : Sim) : Sim * trace * outcome :=
  run (tracing sim) (csi_Reconcile (csi_key ns name)) (s, []).
Definition csi_state (drivers : list SeaweedCSIDriver) (classes : list StorageClass) : Sim :=
  set_objs KSeaweedCSIDriver drivers (set_objs KStorageClass classes sim_empty).
Definition object_names (k : Kind) (s : Sim) : list string := map (fun o => Name (obj_meta o)) (sim_objs s k).
(** Deleted through the API: the finalizer keeps the object with a deletion time. *)
Definition csi_terminating (d : SeaweedCSIDriver) : SeaweedCSIDriver :=
  csi_set_meta {| Name := Name (csi_Meta d); Namespace := Namespace (csi_Meta d); Generation := 2;
    CreationTimestamp := CreationTimestamp (csi_Meta d); DeletionTimestamp := Some 9%Z;
    Labels := Labels (csi_Meta d); Annotations := Annotations (csi_Meta d); Finalizers := Finalizers (csi_Meta d);
    OwnerReferences := []; UID := UID (csi_Meta d) |} d.

Lemma driver_name_single_owner_witness :
  let items := [sample_csi "a" "x" "1" 7 "csi" None; sample_csi "b" "y" "2" 5 "csi" None] in
  exists owner, owner ∈ items /\ claims_driver "csi" owner /\
    exists conflict, Ok "b/y" = Ok conflict /\ (conflict = "" <-> sample_csi "a" "x" "1" 7 "csi" None = owner).
Proof.
  intros items. destruct (driver_name_single_owner (lists_only KSeaweedCSIDriver items) items "csi") as (w & Hw & Hc & H).
  - intros s r s1 [_ Hr]. exact Hr.
  - intros x y [->|[->|?%elem_of_nil]%elem_of_cons]%elem_of_cons [->|[->|?%elem_of_nil]%elem_of_cons]%elem_of_cons; done.
  - exists (sample_csi "a" "x" "1" 7 "csi" None). split; [by left|done].
  - exists w. split; [done|]. split; [done|].
    apply (H (sample_csi "a" "x" "1" 7 "csi" None) tt tt (Ok "b/y")); [by left|done|].
    exists (Ok items), tt. split; [by split|]. by vm_compute.
Defined.
Lemma csi_reconcile_guarded_witness :
  let x := csi_pass "a" "x" (csi_state [sample_csi "a" "x" "1" 7 "csi" (Some (sample_class "fast"))] []) in
  object_names KDaemonSet x.1.1 = ["seaweedfs-csi-x-node"; "seaweedfs-csi-x-mount"] /\
  object_names KStorageClass x.1.1 = ["fast"] /\ x.2 = Done (requeueIn requeueAfterTransient) None /\
  guarded (csi_guard (csi_key "a" "x")) x.1.2.
Proof.
  intros x. do 3 (split; [by vm_compute|]). apply (csi_reconcile_guarded (csi_key "a" "x") x.1.2 x.2).
  exact (run_tracing sim (csi_Reconcile (csi_key "a" "x")) _ []).
Defined.

(** A class that the administrator made for the driver is deleted by a driver that
    leaves the classes to the administrator. *)
Theorem unmanaged_class_deleted :
  let own := named_class "csi" in
  let x := csi_pass "a" "x" (csi_state [sample_csi "a" "x" "1" 7 "csi" None] [own]) in
  Labels (sc_Meta own) = ∅ /\ object_names KStorageClass x.1.1 = [].
Proof. by vm_compute. Qed.
(** Two drivers of one name in two namespaces share their cluster-scoped RBAC objects:
    the binding names the account of the one that was reconciled last, and the
    deletion of one takes the roles of the other. *)
Definition subjects_of (s : Sim) : list (list string) :=
  map (fun b => map subj_Namespace (rb_Subjects b)) (sim_objs s KClusterRoleBinding).
Theorem namesakes_share_rbac :
  let a := sample_csi "a" "x" "1" 7 "csi-a" None in
  let b := sample_csi "b" "x" "2" 8 "csi-b" None in
  let s1 := (csi_pass "a" "x" (csi_state [a; b] [])).1.1 in
  let s2 := (csi_pass "b" "x" s1).1.1 in
  let s3 := (csi_pass "b" "x" (set_objs KSeaweedCSIDriver [a; csi_terminating b] s2)).1.1 in
  subjects_of s1 = [["a"]; ["a"]] /\ subjects_of s2 = [["b"]; ["b"]] /\
  object_names KClusterRole s2 = ["seaweedfs-csi-x-controller"; "seaweedfs-csi-x-node"] /\
  object_names KClusterRole s3 = [] /\ object_names KClusterRoleBinding s3 = [].
Proof. by vm_compute. Qed.
(** The owner of a driver name is deleted while a younger driver claims it: the
    CSIDriver object goes all the same. *)
Theorem claimed_csidriver_deleted :
  let a := sample_csi "a" "x" "1" 7 "csi" None in
  let b := sample_csi "b" "y" "2" 8 "csi" None in
  let s1 := (csi_pass "a" "x" (csi_state [a; b] [])).1.1 in
  let s2 := (csi_pass "a" "x" (set_objs KSeaweedCSIDriver [csi_terminating a; b] s1)).1.1 in
  object_names KCSIDriver s1 = ["csi"] /\ claims_driver "csi" b /\ object_names KCSIDriver s2 = [].
Proof. by vm_compute. Qed.
(** A class that is renamed in the spec stays behind under its old name, also when
    the driver is deleted. *)
Theorem renamed_class_left :
  let d name := sample_csi "a" "x" "1" 7 "csi" (Some (sample_class name)) in
  let s1 := (csi_pass "a" "x" (csi_state [d "old"] [])).1.1 in
  let s2 := (csi_pass "a" "x" (set_objs KSeaweedCSIDriver [d "new"] s1)).1.1 in
  let s3 := (csi_pass "a" "x" (set_objs KSeaweedCSIDriver [csi_terminating (d "new")] s2)).1.1 in
  object_names KStorageClass s2 = ["old"; "new"] /\ object_names KStorageClass s3 = ["old"].
Proof. by vm_compute. Qed.
