(* ===== verification/CsiProgress.v ===== *)
(** * What a CSI driver converges to

    Over an API server that works, the pass that asks for the slow cadence has left
    every object the driver declares as its builder makes it of what was there, and has
    seen the workloads ready; but a CSIDriver whose immutable spec it had to change it
    has only deleted.  The steps of [ensureAll] are tasks on distinct objects: each
    establishes its own postcondition and leaves all other objects alone. *)
From S2P Require Import Prelude Prog CoreTypes ApiTypes Effects Machinery Sim Store Trace.
From S2P Require Import RefGrant Cluster.
From S2P Require Import NameClaim IamCommon IamSpec Upsert SecurityConfig Component Workloads.
From S2P Require Import CsiObjects CsiController.

(** ** An API server that works *)
(** An update that an API server may refuse as invalid, since it changes what cannot be
    changed: of a CSIDriver the spec, of other kinds anything. *)
Definition refusable (k : Kind) : Obj k -> Obj k -> Prop :=
  match k return Obj k -> Obj k -> Prop with
  | KCSIDriver => fun old new =>
      csid_AttachRequired old <> csid_AttachRequired new \/ csid_PodInfoOnMount old <> csid_PodInfoOnMount new \/
      csid_VolumeLifecycleModes old <> csid_VolumeLifecycleModes new
  | _ => fun old new => old <> new
  end.
(** Reads answer what is stored, writes are carried out, except for updates that are
    refused; a list may answer anything. *)
Definition store_kube (s s' : Store) {X} (e : kubeE X) : X -> Prop :=
  match e in kubeE X return X -> Prop with
  | KGet k key => fun r => s' = s /\ found (s k key) r
  | KUpdate k o | KStatusUpdate k o => fun r => r = None /\ s' = put s k (obj_key o) (Some o)
  | KDelete k o => fun r => r = None /\ s' = put s k (obj_key o) None
  | KCreateOrUpdate k o f => fun r =>
      match f (default o (s k (obj_key o))) with
      | inl e => r = Some e /\ s' = s
      | inr new => r = None /\ s' = put s k (obj_key o) (Some new) \/
          exists old e, s k (obj_key o) = Some old /\ refusable k old new /\ IsInvalid e = true /\ r = Some e /\ s' = s
      end
  | _ => fun _ => s' = s
  end.
Definition store_env : Env opE Store := fun X e s x s' =>
  match e in opE X return X -> Prop with
  | OKube e => store_kube s s' e
  | _ => fun _ => s' = s
  end x.

(** A program that only reads changes nothing. *)
Definition reading : Guard := fun _ _ e =>
  match e with
  | OKube (KGet _ _) | OKube (KList _ _ _) | ODialTLS _ _ _ => True
  | _ => False
  end.
Lemma reading_reads : allows_reads reading.
Proof. done. Qed.
Lemma reading_keeps {A} (p : op A) (Q : A -> trace -> Prop) tr s :
  swp reading p Q tr -> wp store_env p (fun _ s1 => s1 = s) s.
Proof.
  revert tr; induction p as [a|X e k IH]; intros tr; simpl; [done|]. intros [Hg Hk] x s1 Hx.
  assert (s1 = s) as -> by (destruct e as [X e| | | | | | | | | | | | | |]; try done; destruct e; cbn in Hx; try done; by destruct Hx).
  by eapply IH.
Qed.

(** ** Tasks

    A task relates what is stored of an object before and after. *)
Record task := Task {
  t_kind : Kind;
  t_key : NamespacedName;
  t_done : option (Obj t_kind) -> option (Obj t_kind) -> Prop;
}.
Definition holds (s s' : Store) (t : task) : Prop := t_done t (s (t_kind t) (t_key t)) (s' (t_kind t) (t_key t)).
Definition task_keys (ts : list task) : list (Kind * NamespacedName) := map (fun t => (t_kind t, t_key t)) ts.
(** The object is made of the one that was there, or of the empty one. *)
Definition filled (k : Kind) (o : Obj k) (f : Obj k -> result (Obj k)) : task :=
  Task k (obj_key o) (fun old x => exists new, x = Some new /\ f (default o old) = Ok new).
Definition absent (k : Kind) (o : Obj k) : task := Task k (obj_key o) (fun _ x => x = None).

(** Without an error, [p] has done [ts] and touched no other object. *)
Definition untouched (s s' : Store) (keys : list (Kind * NamespacedName)) : Prop :=
  forall k key, (k, key) ∉ keys -> s' k key = s k key.
Definition performs (p : op (option error)) (ts : list task) : Prop :=
  forall s, NoDup (task_keys ts) ->
    wp store_env p (fun r s1 => r = None -> Forall (holds s s1) ts /\ untouched s s1 (task_keys ts)) s.

Lemma put_untouched s k key o : untouched s (put s k key o) [(k, key)].
Proof. intros k' key' Hn. apply put_other. intros [= -> ->]. apply Hn. by left. Qed.
Lemma performs_upsert k (o : Obj k) f : performs (kube (KCreateOrUpdate k o f)) [filled k o f].
Proof.
  intros s _. wx. intros r s1 Hr. cbn in Hr. wx. intros ->.
  destruct (f (default o (s k (obj_key o)))) as [e|new] eqn:Hf; [by destruct Hr|].
  destruct Hr as [[_ ->]|(old & e & _ & _ & _ & ? & _)]; [|done]. split; [|apply put_untouched].
  constructor; [|done]. unfold holds. cbn. rewrite put_same. by exists new.
Qed.
Lemma performs_delete k (o : Obj k) : performs (deleteIfExists k o) [absent k o].
Proof.
  intros s _. unfold deleteIfExists. wx. intros r s1 [-> ->]. wx. intros _. split; [|apply put_untouched].
  constructor; [|done]. unfold holds. cbn. by rewrite put_same.
Qed.
Lemma performs_none : performs (Ret None) [].
Proof. intros s _. by wx. Qed.
Lemma untouched_holds_l s s1 s2 ts us :
  NoDup (task_keys (ts ++ us)) -> untouched s1 s2 (task_keys us) -> Forall (holds s s1) ts -> Forall (holds s s2) ts.
Proof.
  unfold task_keys. rewrite map_app, NoDup_app, !Forall_forall. intros (_ & Hd & _) Hu Ht t Hin.
  unfold holds. rewrite Hu; [by apply Ht|]. apply Hd. by apply (list_elem_of_fmap_2 (fun t => (t_kind t, t_key t))).
Qed.
Lemma untouched_holds_r s s1 s2 ts us :
  NoDup (task_keys (ts ++ us)) -> untouched s s1 (task_keys ts) -> Forall (holds s1 s2) us -> Forall (holds s s2) us.
Proof.
  unfold task_keys. rewrite map_app, NoDup_app, !Forall_forall. intros (_ & Hd & _) Hu Ht t Hin.
  unfold holds. rewrite <-Hu; [by apply Ht|]. intros Hts. apply (Hd _ Hts).
  by apply (list_elem_of_fmap_2 (fun t => (t_kind t, t_key t))).
Qed.
Lemma performs_check p f q ts us :
  (forall e : error, f e <> None) -> performs p ts -> performs q us ->
  performs (check p catch err => Ret (f err); q) (ts ++ us).
Proof.
  intros Hf Hp Hq s Hnd. pose proof Hnd as Hnd'. unfold task_keys in Hnd'.
  rewrite map_app, NoDup_app in Hnd'. destruct Hnd' as (Hts & _ & Hus).
  eapply wp_seq; [by apply Hp|]. intros [e|] s1 Hr; [intros Hx; by apply Hf in Hx|].
  destruct (Hr eq_refl) as [Ht Hu]. eapply wp_mono; [|by apply Hq]. intros r s2 Hr2 ->.
  destruct (Hr2 eq_refl) as [Ht2 Hu2]. split.
  - apply Forall_app. split; [by eapply untouched_holds_l|by eapply untouched_holds_r].
  - unfold task_keys. rewrite map_app. intros k key [Hn1 Hn2]%not_elem_of_app. by rewrite Hu2, Hu.
Qed.
(** The same for a last step. *)
Lemma performs_last p ts : performs p ts -> performs (check p catch err => Ret (Some err); Ret None) ts.
Proof. intros Hp. rewrite <-(app_nil_r ts). by apply performs_check; [|done|apply performs_none]. Qed.

Section tasks.
Context `{ApiMachinery} `{Owners} `{Digest} (d : SeaweedCSIDriver) (filer : string).
#[local] Notation ns := (Namespace (csi_Meta d)).
Definition account_tasks : list task :=
  [filled KServiceAccount (named_account ns (csiControllerSAName d)) (owned_mutation d (k:=KServiceAccount) (buildServiceAccount d));
   filled KServiceAccount (named_account ns (csiNodeSAName d)) (owned_mutation d (k:=KServiceAccount) (buildServiceAccount d))].
Definition rbac_tasks : list task :=
  [filled KClusterRole (named_role "" (csiControllerName d)) (fun o => Ok (buildControllerClusterRole d o));
   filled KClusterRole (named_role "" (csiNodeName d)) (fun o => Ok (buildNodeClusterRole d o));
   filled KClusterRoleBinding (named_binding "" (csiControllerName d))
     (fun o => Ok (buildClusterRoleBinding d (csiControllerName d) (csiControllerSAName d) ns o));
   filled KClusterRoleBinding (named_binding "" (csiNodeName d))
     (fun o => Ok (buildClusterRoleBinding d (csiNodeName d) (csiNodeSAName d) ns o));
   filled KRole (named_role ns (csiControllerName d)) (owned_mutation d (k:=KRole) (buildLeaderElectionRole d));
   filled KRoleBinding (named_binding ns (csiControllerName d)) (owned_mutation d (k:=KRoleBinding)
     (buildLeaderElectionRoleBinding d (csiControllerName d) (csiControllerSAName d)))].
(** The CSIDriver is in place, or one with another spec was there and is gone. *)
Definition driver_spec (o : CSIDriver) : Prop :=
  csid_AttachRequired o = Some (attacherEnabled d) /\ csid_PodInfoOnMount o = Some true /\
  csid_VolumeLifecycleModes o = ["Persistent"].
Definition driver_tasks : list task :=
  let o := named_csidriver (csi_DriverName (csi_Spec d)) in
  [Task KCSIDriver (obj_key (k:=KCSIDriver) o) (fun old x =>
     x = Some (buildCSIDriverObject d (default o old)) \/
     x = None /\ exists other, old = Some other /\ ~ driver_spec other)].
Definition workload_tasks : list task :=
  [filled KDeployment (named_deployment ns (csiControllerName d))
     (owned_mutation d (k:=KDeployment) (buildControllerDeployment d filer));
   filled KDaemonSet (named_daemonset ns (csiNodeName d)) (owned_mutation d (k:=KDaemonSet) (buildNodeDaemonSet d filer))].
Definition mount_tasks : list task :=
  let ds := named_daemonset ns (csiMountName d) in
  [if mountServiceEnabled d then filled KDaemonSet ds (owned_mutation d (k:=KDaemonSet) (buildMountDaemonSet d))
   else absent KDaemonSet ds].
Definition class_tasks : list task :=
  let sc := named_class (storageClassName d) in
  [match csi_StorageClass (csi_Spec d) with
   | Some spec => filled KStorageClass sc (fun o => Ok (buildStorageClass d spec o))
   | None => absent KStorageClass sc
   end].
(** Everything [ensureAll] is to bring about. *)
Definition csi_tasks : list task :=
  account_tasks ++ rbac_tasks ++ driver_tasks ++ workload_tasks ++ mount_tasks ++ class_tasks.

Lemma other_kind (k k' : Kind) (a b : NamespacedName) : k <> k' -> (k, a) <> (k', b).
Proof. congruence. Qed.
Lemma other_suffix (k : Kind) ns (base x y : string) : x <> y ->
  (k, {| nn_Namespace := ns; nn_Name := base +:+ x |}) <> (k, {| nn_Namespace := ns; nn_Name := base +:+ y |}).
Proof. intros Hne [= Heq]. by apply (inj _) in Heq. Qed.
Lemma csi_tasks_distinct : NoDup (task_keys csi_tasks).
Proof using.
  unfold csi_tasks, mount_tasks, class_tasks. destruct (mountServiceEnabled d), (csi_StorageClass (csi_Spec d)); cbn.
  all: repeat (apply NoDup_cons; split;
    [rewrite ?not_elem_of_cons; split_and?; first [by apply other_kind | by apply other_suffix | apply not_elem_of_nil] |]);
    apply NoDup_nil_2.
Qed.

(** ** The steps *)
Lemma ensureServiceAccounts_performs : performs (ensureServiceAccounts d) account_tasks.
Proof.
  unfold ensureServiceAccounts. cbn [for_until]. apply (performs_check _ (fun e => Some e) _ [_] [_]); [done|apply performs_upsert|].
  apply performs_last, performs_upsert.
Qed.
Lemma ensureRBAC_performs : performs (ensureRBAC d) rbac_tasks.
Proof.
  unfold ensureRBAC.
  do 5 (apply (performs_check _ (fun e => Some e) _ [_]); [done|apply performs_upsert|]). apply performs_upsert.
Qed.
Lemma ensureCSIDriverObject_performs : performs (ensureCSIDriverObject d) driver_tasks.
Proof.
  intros s _. unfold ensureCSIDriverObject, ensureClusterScoped. cbv zeta. wx. intros r s1 Hr. cbn in Hr.
  destruct Hr as [[-> ->]|(old & e & Ho & Hd & He & -> & ->)]; wx.
  - intros _. split; [|apply put_untouched]. constructor; [|done]. unfold holds. cbn. rewrite put_same. by left.
  - rewrite He. unfold deleteIfExists. wx. intros r s1 [-> ->]. wx. intros u s2 ->. wx. intros _.
    split; [|apply put_untouched]. constructor; [|done]. unfold holds. cbn. rewrite put_same. right. split; [done|].
    exists old. split; [exact Ho|]. cbn in Hd. intros (Ha & Hi & Hm). rewrite Ha, Hi, Hm in Hd. by destruct Hd as [?|[?|?]].
Qed.
Lemma ensureMountDaemonSet_performs : performs (ensureMountDaemonSet d) mount_tasks.
Proof.
  unfold ensureMountDaemonSet, mount_tasks. destruct (mountServiceEnabled d); [apply performs_upsert|apply performs_delete].
Qed.
Lemma ensureStorageClass_performs : performs (ensureStorageClass d) class_tasks.
Proof.
  unfold ensureStorageClass, class_tasks.
  destruct (csi_StorageClass (csi_Spec d)); [apply performs_upsert|apply performs_delete].
Qed.
Lemma ensureAll_performs : performs (ensureAll d filer) csi_tasks.
Proof.
  unfold ensureAll, csi_tasks. apply performs_check; [done|apply ensureServiceAccounts_performs|].
  apply performs_check; [done|apply ensureRBAC_performs|].
  apply performs_check; [done|apply ensureCSIDriverObject_performs|]. unfold workload_tasks.
  apply (performs_check _ _ _ [_] (_ :: _ ++ _)); [done|apply performs_upsert|].
  apply (performs_check _ _ _ [_]); [done|apply performs_upsert|].
  apply performs_check; [done|apply ensureMountDaemonSet_performs|]. rewrite <-(app_nil_r class_tasks).
  apply performs_check; [done|apply ensureStorageClass_performs|]. apply performs_none.
Qed.

(** The tasks are about no custom resource: the status write undoes nothing. *)
Lemma tasks_kinds : Forall (fun t => KSeaweedCSIDriver <> t_kind t) csi_tasks.
Proof using.
  unfold csi_tasks, mount_tasks, class_tasks.
  destruct (mountServiceEnabled d), (csi_StorageClass (csi_Spec d)); cbn; repeat constructor; done.
Qed.
Lemma tasks_keep_status s s' key o :
  Forall (holds s s') csi_tasks -> Forall (holds s (put s' KSeaweedCSIDriver key o)) csi_tasks.
Proof.
  rewrite !Forall_forall. intros Hs t Ht. unfold holds. rewrite put_other; [by apply Hs|]. apply other_kind.
  pose proof tasks_kinds as Hk. rewrite Forall_forall in Hk. by apply Hk.
Qed.
End tasks.

(** ** The pass *)
Section pass.
Context `{ApiMachinery} `{Owners} `{Digest} (req : NamespacedName).
#[local] Set Default Proof Using "Type*".
Definition slow_outcome (o : outcome) : Prop := o = Done (requeueIn csiResyncInterval) None.
(** [s] has everything the driver [d] declares, made of what [s0] had, and its workloads
    are ready. *)
Definition csi_converged (s0 s : Store) (d : SeaweedCSIDriver) (filer : string) : Prop :=
  let key name := {| nn_Namespace := Namespace (csi_Meta d); nn_Name := name |} in
  Forall (holds s0 s) (csi_tasks d filer) /\
  (exists d', s KSeaweedCSIDriver (obj_key (k := KSeaweedCSIDriver) d) = Some d' /\
    csist_Phase (csi_Status d') = CSIDriverPhaseReady) /\
  (exists dep, s KDeployment (key (csiControllerName d)) = Some dep /\ controller_ready dep = true) /\
  (exists ds, s KDaemonSet (key (csiNodeName d)) = Some ds /\ node_ready ds = true).

Lemma write_and_retry_fast d s :
  wp store_env (write_and_retry d) (fun o _ => ~ slow_outcome o) s.
Proof. unfold write_and_retry. wx. intros r s1 [-> ->]. by wx. Qed.
Definition same_object (d d' : SeaweedCSIDriver) : Prop := csi_Meta d' = csi_Meta d /\ csi_Spec d' = csi_Spec d.
Lemma wp_trivial {A} (p : op A) s : wp store_env p (fun _ _ => True) s.
Proof. by apply wp_exec. Qed.
Definition filer_resolved (d : SeaweedCSIDriver) (s : Store) (r : outcome + SeaweedCSIDriver * string)
    (s1 : Store) : Prop :=
  match r with inl o => ~ slow_outcome o | inr (d', _) => same_object d d' /\ s1 = s end.
Lemma resolveFiler_same d s : wp store_env (resolveFiler d) (filer_resolved d s) s.
Proof.
  assert (Hstop : forall d' s', wp store_env (do o <- patchPending d'; Ret (inl o)) (filer_resolved d s) s').
  { intros d' s'. eapply wp_seq; [apply write_and_retry_fast|]. done. }
  unfold resolveFiler. cbv zeta. case_bool_decide; cbn [negb]; [|done].
  destruct (csi_SeaweedRef (csi_Spec d)) as [ref|]; [|apply Hstop].
  eapply wp_seq; [by eapply (reading_keeps _ _ []), seaweedRefPermitted_swp|].
  intros [e|[]] s1 ->; [done| |apply Hstop]. cbn [negb].
  eapply wp_seq; [by eapply (reading_keeps _ _ []), resolveSeaweedFiler_swp|]. intros [e|[t|]] s2 ->; [done|done|apply Hstop].
Qed.
Lemma csi_finish_converges d filer s0 s :
  Forall (holds s0 s) (csi_tasks d filer) ->
  wp store_env (csi_finish d) (fun o s1 => slow_outcome o -> csi_converged s0 s1 d filer) s.
Proof.
  intros Hs. unfold csi_finish, refreshStatus. cbv zeta. wx. intros [e|dep] s1 [-> Hdep]; wx.
  { destruct (IgnoreNotFound e); wx; [done|]. by intros r s1 [-> ->]. }
  intros [e|ds] s1 [-> Hds]; wx.
  { destruct (IgnoreNotFound e); wx; [done|]. by intros r s1 [-> ->]. }
  assert (Hfound : forall {A} (x : option A) a, found x (Ok a) -> x = Some a)
    by (intros A [a'|] a Ha; [by injection Ha as ->|by destruct Ha as (? & _ & ?)]).
  apply Hfound in Hdep, Hds. destruct (observed_status d dep ds) as [ready d'] eqn:Hobs. wx.
  intros r s1 [-> ->]. wx. intros Hslow. unfold observed_status in Hobs. cbv zeta in Hobs.
  destruct (controller_ready dep) eqn:Hc, (node_ready ds) eqn:Hn; cbn [andb orb] in Hobs;
    try (try destruct (0 <? ds_NumberReady ds)%Z; by injection Hobs as <- <-).
  injection Hobs as <- <-. split; [by apply tasks_keep_status|]. split.
  - eexists. split; [apply put_same|done].
  - split; [exists dep|exists ds]; (split; [|done]); by rewrite put_other by by apply other_kind.
Qed.

Lemma conflict_reads d s : wp store_env (driverNameConflict d) (fun _ s1 => s1 = s) s.
Proof. unfold driverNameConflict. wx. by intros [e|l] s1 ->. Qed.
Lemma deletion_fast d s : wp store_env (csi_handleDeletion d) (fun o _ => ~ slow_outcome o) s.
Proof.
  unfold csi_handleDeletion. destruct (ContainsFinalizer _ _); cbn [negb]; [|done]. cbv zeta.
  do 4 (eapply wp_seq; [apply wp_trivial|]; intros [e|] ? _; [done|]).
  eapply wp_seq; [apply wp_trivial|]. by intros [e|] ? _.
Qed.
(** C35. Over an API server that works, but may refuse to change what is immutable, the
    pass that asks for the slow resync has reached what the driver declares: every
    account, role, binding, workload and class is as its builder makes it of what was
    there before the pass, an object that is switched off is gone, the controller has
    a ready replica, the node plugin is ready on every node it is scheduled on, and the
    status says Ready.  So is the CSIDriver, unless there was one with another spec:
    then it may instead be gone, deleted to be created by the next pass. *)
Theorem csi_reconcile_converges s s' d :
  s KSeaweedCSIDriver req = Some d ->
  exec store_env (csi_Reconcile req) s s' (Done (requeueIn csiResyncInterval) None) ->
  exists d' filer, same_object d d' /\ csi_converged s s' d' filer.
Proof.
  intros Hd Hx. revert Hx. cut (wp store_env (csi_Reconcile req)
    (fun o s' => slow_outcome o -> exists d' filer, same_object d d' /\ csi_converged s s' d' filer) s).
  { intros Hw Hx. exact (proj1 (wp_exec _ _ _ _) Hw s' _ Hx eq_refl). }
  unfold csi_Reconcile. wx. intros r s1 [-> Hr]. cbn [store_kube] in Hr. rewrite Hd in Hr. cbn in Hr. subst r. wx.
  destruct (live (csi_Meta d)); cbn [negb].
  2: { eapply wp_mono; [|apply deletion_fast]. done. }
  destruct (ContainsFinalizer _ _); cbn [negb]; cbv zeta.
  2: { wx. by intros [e|] ? _. }
  eapply wp_seq; [apply conflict_reads|]. intros [e|c] s1 ->; [done|]. case_bool_decide; cbn [negb].
  2: { eapply wp_mono; [|apply write_and_retry_fast]. done. }
  set (d1 := csi_clearCondition _ _). assert (Hd1 : same_object d d1) by done. clearbody d1.
  eapply wp_seq; [apply resolveFiler_same|]. intros [o|[d2 filer]] s2 Hd2; [by intros ?%Hd2|].
  cbn [filer_resolved] in Hd2. destruct Hd2 as [Hd2 ->].
  set (d3 := csi_set_filer filer d2). assert (Hd3 : same_object d d3).
  { unfold same_object in *. cbn. by destruct Hd2 as [-> ->]. }
  clearbody d3. eapply wp_seq; [apply (ensureAll_performs d3 filer), csi_tasks_distinct|].
  intros [e|] s3 Hall.
  - eapply wp_mono; [|apply write_and_retry_fast]. done.
  - eapply wp_mono; [|apply (csi_finish_converges d3 filer s); by apply Hall].
    intros o s4 Hc Hslow. exists d3, filer. auto.
Qed.
End pass.

(** ** Evaluation *)
Definition store_step {X} (e : kubeE X) (s : Store) : Store * X :=
  match e in kubeE X return Store * X with
  | KGet k key => (s, match s k key with Some o => Ok o | None => Err (ErrNotFound "") end)
  | KUpdate k o | KStatusUpdate k o => (put s k (obj_key o) (Some o), None)
  | KDelete k o => (put s k (obj_key o) None, None)
  | KCreateOrUpdate k o f =>
      match f (default o (s k (obj_key o))) with
      | inl e => (s, Some e)
      | inr new => (put s k (obj_key o) (Some new), None)
      end
  | e => (s, (sim_kube e sim_empty).2)
  end.
Definition store_handler : Handler opE Store := fun X e s =>
  match e in opE X return Store * X with
  | OKube e => store_step e s
  | e => (s, (sim _ e sim_empty).2)
  end.
Lemma store_handler_refines : refines store_handler store_env.
Proof.
  intros X e s. destruct e as [X e| | | | | | | | | | | | | |]; try done.
  destruct e; cbn; try done.
  - split; [done|]. destruct (s k key); [done|]. by exists (ErrNotFound "").
  - destruct (mutate _); [done|]. by left.
Qed.
(** A cluster without CSI objects, but for a ready controller. *)
Definition ready_store : Store :=
  let d := sample_csi "a" "x" "1" 7 "csi" (Some (sample_class "fast")) in
  let dep := named_deployment "a" (csiControllerName d) in
  put (put (fun _ _ => None) KSeaweedCSIDriver (csi_key "a" "x") (Some d)) KDeployment (obj_key (k:=KDeployment) dep)
    (Some {| dep_Meta := dep_Meta dep; dep_Replicas := None; dep_Selector := ∅; dep_StrategyType := "";
             dep_RollingUpdate := None; dep_TemplateLabels := ∅; dep_TemplateAnnotations := None;
             dep_Pod := empty_pod; dep_StatusReplicas := 1; dep_AvailableReplicas := 1; dep_ReadyReplicas := 1 |}).
Definition store_pass (s : Store) : Store * outcome := run store_handler (csi_Reconcile (csi_key "a" "x")) s.
Lemma csi_reconcile_converges_witness :
  let d := sample_csi "a" "x" "1" 7 "csi" (Some (sample_class "fast")) in
  let x := store_pass ready_store in
  x.2 = Done (requeueIn csiResyncInterval) None /\
  (sc_Provisioner <$> x.1 KStorageClass (csi_key "" "fast")) = Some "csi" /\
  exists d' filer, same_object d d' /\ csi_converged ready_store x.1 d' filer.
Proof.
  intros d x. assert (Hx : x.2 = Done (requeueIn csiResyncInterval) None) by (by vm_compute). split; [done|].
  split; [by vm_compute|]. apply (csi_reconcile_converges (csi_key "a" "x") ready_store x.1 d); [by vm_compute|].
  rewrite <-Hx. exact (run_exec _ store_handler (csi_Reconcile (csi_key "a" "x")) ready_store store_handler_refines).
Defined.

(** *** A CSIDriver that is being replaced *)
(** The API server refuses to change whether volumes are attached. *)
Definition refusing_handler : Handler opE Store := fun X e s =>
  match e in opE X return Store * X with
  | OKube e =>
      match e in kubeE X return Store * X with
      | KCreateOrUpdate k o f =>
          match k return Obj k -> (Obj k -> result (Obj k)) -> Store * option error with
          | KCSIDriver => fun o f =>
              match s KCSIDriver (obj_key (k:=KCSIDriver) o) with
              | Some old =>
                  match f old with
                  | inr new => if bool_decide (csid_AttachRequired old = csid_AttachRequired new)
                               then store_step (KCreateOrUpdate KCSIDriver o f) s
                               else (s, Some (ErrInvalid "attachRequired is immutable"))
                  | inl e => (s, Some e)
                  end
              | None => store_step (KCreateOrUpdate KCSIDriver o f) s
              end
          | k => fun o f => store_step (KCreateOrUpdate k o f) s
          end o f
      | e => store_step e s
      end
  | e => (s, (sim _ e sim_empty).2)
  end.
Lemma refusing_handler_refines : refines refusing_handler store_env.
Proof.
  intros X e s. pose proof (store_handler_refines X e s) as Hs.
  destruct e as [X e| | | | | | | | | | | | | |]; try exact Hs. destruct e; try exact Hs. destruct k; try exact Hs.
  unfold refusing_handler. destruct (s KCSIDriver (obj_key (k:=KCSIDriver) o)) as [old|] eqn:Ho; [|exact Hs].
  destruct (mutate old) as [e|new] eqn:Hf.
  - cbn. rewrite Ho. cbn. by rewrite Hf.
  - case_bool_decide as Ha; [exact Hs|]. cbn. rewrite Ho. cbn. rewrite Hf. right.
    exists old, (ErrInvalid "attachRequired is immutable"). split_and!; [done|by left|done..].
Qed.
Definition attached_store : Store :=
  put ready_store KCSIDriver (csi_key "" "csi")
    (Some {| csid_Meta := csid_Meta (named_csidriver "csi"); csid_AttachRequired := Some false;
             csid_PodInfoOnMount := Some true; csid_VolumeLifecycleModes := ["Persistent"] |}).
Definition refusing_pass (s : Store) : Store * outcome := run refusing_handler (csi_Reconcile (csi_key "a" "x")) s.
(** The attacher is turned on: the pass deletes the CSIDriver, reports Ready and asks for
    the slow resync; the next pass creates it again. *)
Theorem ready_without_csidriver :
  let first := refusing_pass attached_store in
  let second := refusing_pass first.1 in
  first.2 = Done (requeueIn csiResyncInterval) None /\
  (fun d => csist_Phase (csi_Status d)) <$> first.1 KSeaweedCSIDriver (csi_key "a" "x") = Some "Ready" /\
  first.1 KCSIDriver (csi_key "" "csi") = None /\
  csid_AttachRequired <$> second.1 KCSIDriver (csi_key "" "csi") = Some (Some true).
Proof. by vm_compute. Qed.
