(* ===== verification/CsiShapes.v ===== *)
(** * The objects of a CSI driver fit together

    Pods, accounts, roles, the CSIDriver and the StorageClass refer to each other by
    name.  In a store with everything the driver declares, every reference leads to an
    object with the content that the other side relies on. *)
From S2P Require Import Prelude Prog CoreTypes ApiTypes Effects Machinery Sim Store Trace.
From S2P Require Import RefGrant Cluster NameClaim.
From S2P Require Import IamCommon IamSpec Upsert SecurityConfig Component.
From S2P Require Import Workloads ClusterShapes CsiObjects CsiController CsiProgress.

(** ** Pods *)
Record csi_pod_ok (pod : PodSpec) : Prop := {
  cpo_volumes : NoDup (map vol_Name (pod_Volumes pod));
  cpo_ports : NoDup (flat_map port_numbers (pod_Containers pod));
  cpo_mounts : Forall (fun c => resolved (map vol_Name (pod_Volumes pod)) (c_VolumeMounts c)) (pod_Containers pod);
  cpo_probes : Forall (fun c => probed (port_numbers c) (c_LivenessProbe c)) (pod_Containers pod);
}.
Section pods.
Context (d : SeaweedCSIDriver) (filer : string).
Ltac pod_fits :=
  split; cbn; [by apply (bool_decide_unpack _)|by apply (bool_decide_unpack _)| |];
  repeat (first [apply Forall_nil_2 | apply Forall_cons_2]);
  unfold resolved; repeat (first [apply Forall_nil_2 | apply Forall_cons_2]);
  first [by apply (bool_decide_unpack _) | intros x port [= <-] [= <-]; by left | done].
Lemma controller_pod_ok dep : csi_pod_ok (dep_Pod (buildControllerDeployment d filer dep)).
Proof. unfold buildControllerDeployment, controller_containers. destruct (attacherEnabled d); pod_fits. Qed.
Lemma node_pod_ok ds : csi_pod_ok (ds_Pod (buildNodeDaemonSet d filer ds)).
Proof. pod_fits. Qed.
Lemma mount_pod_ok ds : csi_pod_ok (ds_Pod (buildMountDaemonSet d ds)).
Proof. pod_fits. Qed.
End pods.

(** ** References *)
Section objects.
Context `{ApiMachinery} `{Owners} `{Digest}.
#[local] Set Default Proof Using "Type*".
(** An account that exists and is given a cluster role that exists and allows something. *)
Definition account_bound (s : Store) (ns name : string) : Prop :=
  (exists sa, s KServiceAccount {| nn_Namespace := ns; nn_Name := name |} = Some sa) /\
  exists binding b role,
    s KClusterRoleBinding {| nn_Namespace := ""; nn_Name := binding |} = Some b /\
    rb_Subjects b = [{| subj_Kind := "ServiceAccount"; subj_Name := name; subj_Namespace := ns |}] /\
    rr_Kind (rb_RoleRef b) = "ClusterRole" /\
    s KClusterRole {| nn_Namespace := ""; nn_Name := rr_Name (rb_RoleRef b) |} = Some role /\ role_Rules role <> [].
(** The account may take the lease of the leader in its namespace. *)
Definition elects (s : Store) (ns name : string) : Prop :=
  exists binding b role rule,
    s KRoleBinding {| nn_Namespace := ns; nn_Name := binding |} = Some b /\
    rb_Subjects b = [{| subj_Kind := "ServiceAccount"; subj_Name := name; subj_Namespace := ns |}] /\
    rr_Kind (rb_RoleRef b) = "Role" /\
    s KRole {| nn_Namespace := ns; nn_Name := rr_Name (rb_RoleRef b) |} = Some role /\ rule ∈ role_Rules role /\
    "coordination.k8s.io" ∈ pr_APIGroups rule /\ "leases" ∈ pr_Resources rule /\
    Forall (fun verb => verb ∈ pr_Verbs rule) ["get"; "create"; "update"].
Definition told (c : Container) (flag value : string) : Prop := flag +:+ value ∈ c_Args c.
Definition knows (c : Container) (name value : string) : Prop := value_env name value ∈ c_Env c.
Definition on_host (pod : PodSpec) (name path : string) : Prop :=
  hostPathVolume name path "DirectoryOrCreate" ∈ pod_Volumes pod.
Definition container_of (pod : PodSpec) (name : string) (P : Container -> Prop) : Prop :=
  exists c, c ∈ pod_Containers pod /\ c_Name c = name /\ P c.
(** The plugin serves a socket in [dir], where [volume] is mounted, and every other
    container of the pod mounts it there as well and dials that socket. *)
Definition one_socket (pod : PodSpec) (plugin volume dir : string) : Prop :=
  container_of pod plugin (fun c =>
    "--endpoint=$(CSI_ENDPOINT)" ∈ c_Args c /\ knows c "CSI_ENDPOINT" ("unix://" +:+ dir +:+ "/csi.sock") /\
    plain_mount volume dir ∈ c_VolumeMounts c) /\
  Forall (fun c => c_Name c = plugin \/
    "--csi-address=$(ADDRESS)" ∈ c_Args c /\ knows c "ADDRESS" (dir +:+ "/csi.sock") /\
    plain_mount volume dir ∈ c_VolumeMounts c) (pod_Containers pod).
Record csi_agrees (s : Store) (d : SeaweedCSIDriver) (filer : string) : Prop := {
  (** The driver object, its attacher, and the class *)
  agree_class spec : csi_StorageClass (csi_Spec d) = Some spec ->
    exists sc, s KStorageClass {| nn_Namespace := ""; nn_Name := storageClassName d |} = Some sc /\
      exists obj, s KCSIDriver {| nn_Namespace := ""; nn_Name := sc_Provisioner sc |} = Some obj;
  agree_controller : exists dep obj,
    s KDeployment {| nn_Namespace := Namespace (csi_Meta d); nn_Name := csiControllerName d |} = Some dep /\
    s KCSIDriver {| nn_Namespace := ""; nn_Name := csi_DriverName (csi_Spec d) |} = Some obj /\
    csi_pod_ok (dep_Pod dep) /\ dep_Selector dep = dep_TemplateLabels dep /\
    account_bound s (Namespace (csi_Meta d)) (pod_ServiceAccountName (dep_Pod dep)) /\
    elects s (Namespace (csi_Meta d)) (pod_ServiceAccountName (dep_Pod dep)) /\
    (exists volume dir, one_socket (dep_Pod dep) "seaweedfs-csi-plugin" volume dir) /\
    (csid_AttachRequired obj = Some true <-> container_of (dep_Pod dep) "csi-attacher" (fun _ => True)) /\
    container_of (dep_Pod dep) "seaweedfs-csi-plugin" (fun c =>
      told c "--filer=" filer /\ told c "--driverName=" (csi_DriverName (csi_Spec d)));
  (** The kubelet opens the socket of the plugin by its path on the host. *)
  agree_node : exists ds,
    s KDaemonSet {| nn_Namespace := Namespace (csi_Meta d); nn_Name := csiNodeName d |} = Some ds /\
    csi_pod_ok (ds_Pod ds) /\ ds_Selector ds = ds_TemplateLabels ds /\
    account_bound s (Namespace (csi_Meta d)) (pod_ServiceAccountName (ds_Pod ds)) /\
    container_of (ds_Pod ds) "csi-seaweedfs-plugin" (fun c =>
      told c "--filer=" filer /\ told c "--driverName=" (csi_DriverName (csi_Spec d))) /\
    (exists dir, one_socket (ds_Pod ds) "csi-seaweedfs-plugin" "plugin-dir" dir) /\
    exists dir, on_host (ds_Pod ds) "plugin-dir" dir /\
      container_of (ds_Pod ds) "driver-registrar" (fun c => knows c "DRIVER_REG_SOCK_PATH" (dir +:+ "/csi.sock"));
  (** The node plugin asks the mount service at the socket that it serves. *)
  agree_mount : mountServiceEnabled d = true -> exists ds node dir,
    s KDaemonSet {| nn_Namespace := Namespace (csi_Meta d); nn_Name := csiMountName d |} = Some ds /\
    s KDaemonSet {| nn_Namespace := Namespace (csi_Meta d); nn_Name := csiNodeName d |} = Some node /\
    csi_pod_ok (ds_Pod ds) /\ ds_Selector ds = ds_TemplateLabels ds /\ ds_Selector ds <> ds_Selector node /\
    account_bound s (Namespace (csi_Meta d)) (pod_ServiceAccountName (ds_Pod ds)) /\
    on_host (ds_Pod ds) "mount-socket-dir" dir /\ on_host (ds_Pod node) "mount-socket-dir" dir /\
    exists endpoint,
      container_of (ds_Pod ds) "seaweedfs-mount" (fun c =>
        "--endpoint=$(MOUNT_ENDPOINT)" ∈ c_Args c /\ knows c "MOUNT_ENDPOINT" endpoint /\
        plain_mount "mount-socket-dir" dir ∈ c_VolumeMounts c) /\
      container_of (ds_Pod node) "csi-seaweedfs-plugin" (fun c =>
        told c "--mountEndpoint=" endpoint /\ plain_mount "mount-socket-dir" dir ∈ c_VolumeMounts c);
}.

Lemma filled_owned s0 s d k `{Owned k} (o : Obj k) build :
  holds s0 s (filled k o (owned_mutation d build)) ->
  exists base meta, s k (obj_key o) = Some (with_meta meta (build base)).
Proof.
  intros (new & Hs & Hf). unfold owned_mutation in Hf. destruct (SetControllerReference _ _ _) as [?|meta]; [done|].
  do 2 eexists. cbn in Hs. rewrite Hs. by injection Hf as <-.
Qed.
Lemma filled_plain s0 s k (o : Obj k) build :
  holds s0 s (filled k o (fun o => Ok (build o))) -> exists base, s k (obj_key o) = Some (build base).
Proof. intros (new & Hs & Hf). eexists. cbn in Hs. rewrite Hs. by injection Hf as <-. Qed.

Section converged.
Context (s0 s : Store) (d : SeaweedCSIDriver) (filer : string) (Hs : Forall (holds s0 s) (csi_tasks d filer)).
Context (Hpresent : is_Some (s KCSIDriver {| nn_Namespace := ""; nn_Name := csi_DriverName (csi_Spec d) |})).
#[local] Notation ns := (Namespace (csi_Meta d)).
#[local] Notation key n name := {| nn_Namespace := n; nn_Name := name |}.
Lemma tasks_hold :
  Forall (holds s0 s) (account_tasks d) /\ Forall (holds s0 s) (rbac_tasks d) /\ Forall (holds s0 s) (driver_tasks d) /\
  Forall (holds s0 s) (workload_tasks d filer) /\ Forall (holds s0 s) (mount_tasks d) /\ Forall (holds s0 s) (class_tasks d).
Proof using Hs. unfold csi_tasks in Hs. by rewrite !Forall_app in Hs. Qed.
Lemma account_bound_of name binding rules build :
  filled KServiceAccount (named_account ns name) (owned_mutation d (k:=KServiceAccount) (buildServiceAccount d))
    ∈ account_tasks d ->
  filled KClusterRole (named_role "" binding) (fun o => Ok (build o)) ∈ rbac_tasks d ->
  filled KClusterRoleBinding (named_binding "" binding) (fun o => Ok (buildClusterRoleBinding d binding name ns o))
    ∈ rbac_tasks d ->
  (forall o, role_Rules (build o) = rules) -> rules <> [] -> account_bound s ns name.
Proof using Hs.
  destruct tasks_hold as (Ha & Hr & _). rewrite Forall_forall in Ha. rewrite Forall_forall in Hr.
  intros Hsa%Ha%filled_owned Hcr%Hr%filled_plain Hcb%Hr%filled_plain Hrules Hne.
  destruct Hsa as (? & ? & ?), Hcr as (role & Hrole), Hcb as (b & Hb). split; [by eexists|].
  exists binding, (buildClusterRoleBinding d binding name ns b), (build role).
  split_and!; [exact Hb|done|done|exact Hrole|]. by rewrite Hrules.
Qed.
Lemma controller_bound : account_bound s ns (csiControllerSAName d).
Proof using Hs.
  eapply (account_bound_of _ (csiControllerName d)); [by left|by left|by right; right; left|intros o; cbn; reflexivity|done].
Qed.
Lemma node_bound : account_bound s ns (csiNodeSAName d).
Proof using Hs.
  eapply (account_bound_of _ (csiNodeName d)); [by right; left|by right; left|by right; right; right; left|intros o; cbn; reflexivity|done].
Qed.
Lemma controller_elects : elects s ns (csiControllerSAName d).
Proof using Hs.
  destruct tasks_hold as (_ & Hr & _). do 4 apply Forall_cons in Hr as [_ Hr].
  apply Forall_cons in Hr as [Hrole Hr]. apply Forall_cons in Hr as [Hbind _].
  apply filled_owned in Hrole as (base & meta & Hrole), Hbind as (base' & meta' & Hbind).
  exists (csiControllerName d). do 3 eexists. split_and!; [exact Hbind|done|done|exact Hrole|by left|by left|by left|].
  repeat constructor; by apply (bool_decide_unpack _).
Qed.
Lemma driver_stored : exists base,
  s KCSIDriver (key "" (csi_DriverName (csi_Spec d))) = Some (buildCSIDriverObject d base).
Proof using Hs Hpresent.
  destruct tasks_hold as (_ & _ & [Hd _]%Forall_cons & _). destruct Hd as [Hd|[Hd _]]; [by eexists|].
  destruct Hpresent as [o Ho]. by pose proof (eq_trans (eq_sym Ho) Hd).
Qed.
Lemma controller_stored : exists base meta,
  s KDeployment (key ns (csiControllerName d)) = Some (with_meta (k:=KDeployment) meta (buildControllerDeployment d filer base)).
Proof using Hs. destruct tasks_hold as (_ & _ & _ & [Hw _]%Forall_cons & _). by apply filled_owned in Hw. Qed.
Lemma node_stored : exists base meta,
  s KDaemonSet (key ns (csiNodeName d)) = Some (with_meta (k:=KDaemonSet) meta (buildNodeDaemonSet d filer base)).
Proof using Hs.
  destruct tasks_hold as (_ & _ & _ & [_ [Hw _]%Forall_cons]%Forall_cons & _). by apply filled_owned in Hw.
Qed.
Lemma attacher_runs : container_of (dep_Pod (buildControllerDeployment d filer (named_deployment "" ""))) "csi-attacher"
    (fun _ => True) <-> attacherEnabled d = true.
Proof using.
  unfold buildControllerDeployment, controller_containers, container_of. cbn. destruct (attacherEnabled d); cbn.
  - split; [done|]. intros _. eexists. split; [by do 3 right; left|done].
  - split; [|done]. intros (c & Hc & Hn & _). exfalso. rewrite !elem_of_cons, elem_of_nil in Hc.
    by destruct Hc as [->|[->|[->|[->|[]]]]].
Qed.
Lemma mount_stored : mountServiceEnabled d = true -> exists base meta,
  s KDaemonSet (key ns (csiMountName d)) = Some (with_meta (k:=KDaemonSet) meta (buildMountDaemonSet d base)).
Proof using Hs.
  intros He. destruct tasks_hold as (_ & _ & _ & _ & Hm & _). unfold mount_tasks in Hm. rewrite He in Hm.
  apply Forall_cons in Hm as [Hm _]. by apply filled_owned in Hm.
Qed.
Lemma class_stored spec : csi_StorageClass (csi_Spec d) = Some spec -> exists base,
  s KStorageClass (key "" (storageClassName d)) = Some (buildStorageClass d spec base).
Proof using Hs.
  intros He. destruct tasks_hold as (_ & _ & _ & _ & _ & Hc). unfold class_tasks in Hc. rewrite He in Hc.
  apply Forall_cons in Hc as [Hc _]. by apply filled_plain in Hc.
Qed.
End converged.

Lemma tuned d args a : a ∈ args -> a ∈ tuningArgs d args.
Proof. intros Ha. unfold tuningArgs. rewrite elem_of_app. by left. Qed.
Lemma controller_socket d filer dep :
  one_socket (dep_Pod (buildControllerDeployment d filer dep)) "seaweedfs-csi-plugin" "socket-dir" csiControllerSocketDir.
Proof.
  unfold one_socket, buildControllerDeployment, controller_containers. split.
  - eexists. split; [by left|]. split; [done|]. split; [by apply tuned; left|]. split; by left.
  - cbn. destruct (attacherEnabled d); cbn; repeat (first [apply Forall_nil_2 | apply Forall_cons_2]);
      first [by left | right; split_and!; by left].
Qed.
Lemma node_socket d filer ds :
  one_socket (ds_Pod (buildNodeDaemonSet d filer ds)) "csi-seaweedfs-plugin" "plugin-dir" csiNodeSocketDir.
Proof.
  unfold one_socket. split.
  - eexists. split; [by left|]. split; [done|]. split; [by apply tuned; left|]. split; by left.
  - cbn. repeat (first [apply Forall_nil_2 | apply Forall_cons_2]); first [by left | right; split_and!; by left].
Qed.
(** C36. In a store with everything that a CSI driver declares and its CSIDriver, the
    references between the objects lead to what they are meant for: the pods of the
    controller, of the node plugin and of the mount service resolve their mounts and
    give every port out once, their accounts exist and are given a cluster role that
    exists, that of the controller also a role that allows it the lease of a leader;
    the plugins are told the filer and the name of a CSIDriver that exists and that
    asks for an attacher exactly when one runs; all side cars dial the socket that the
    plugin of their pod serves, in a volume they share; the class provisions with that
    driver, the kubelet is told the host path of the plugin's socket, and the node
    plugin asks the mount service at the socket it serves, in a directory both mount
    from the host. *)
Theorem csi_objects_agree s0 s d filer :
  Forall (holds s0 s) (csi_tasks d filer) ->
  is_Some (s KCSIDriver {| nn_Namespace := ""; nn_Name := csi_DriverName (csi_Spec d) |}) -> csi_agrees s d filer.
Proof.
  intros Hs Hp. destruct (driver_stored s0 s d filer Hs Hp) as [obj Hobj], (node_stored s0 s d filer Hs) as (nb & nm & Hnode).
  split.
  - intros spec [base Hsc]%(class_stored s0 s d filer Hs). eexists. split; [exact Hsc|]. by eexists.
  - destruct (controller_stored s0 s d filer Hs) as (db & dm & Hdep). do 2 eexists. split_and!; [exact Hdep|exact Hobj|..].
    + apply (controller_pod_ok d filer db).
    + done.
    + apply (controller_bound s0 s d filer Hs).
    + apply (controller_elects s0 s d filer Hs).
    + exists "socket-dir", csiControllerSocketDir. apply controller_socket.
    + etrans; [|symmetry; apply attacher_runs]. cbn. split; [by intros [= ->]|by intros ->].
    + eexists. split; [by left|]. split; [done|]. split; apply tuned; [by right; left|by do 2 right; left].
  - eexists. split_and!; [exact Hnode|apply (node_pod_ok d filer nb)|done|apply (node_bound s0 s d filer Hs)|..].
    + eexists. split; [by left|]. split; [done|]. split; apply tuned; [by right; left|by do 3 right; left].
    + exists csiNodeSocketDir. apply node_socket.
    + exists (node_plugin_dir d). split; [by right; left|]. eexists. split; [by right; left|]. split; [done|].
      by right; left.
  - intros (mb & mm & Hmount)%(mount_stored s0 s d filer Hs). do 2 eexists. exists (mountSocketDir d).
    split_and!; [exact Hmount|exact Hnode|apply (mount_pod_ok d mb)|done|..].
    + cbn. intros Heq. apply (f_equal (.!! ComponentLabelKey)) in Heq. unfold csiSelector in Heq.
      by rewrite !lookup_insert_eq in Heq.
    + apply (node_bound s0 s d filer Hs).
    + by do 4 right; left.
    + by do 6 right; left.
    + exists (mountEndpoint d). split; eexists; (split; [by left|]); (split; [done|]).
      * split; [by left|]. split; [by left|]. by do 4 right; left.
      * split; [|by do 5 right; left]. apply tuned. by do 4 right; left.
Qed.
End objects.

Lemma csi_objects_agree_witness :
  let d := sample_csi "a" "x" "1" 7 "csi" (Some (sample_class "fast")) in
  let x := run store_handler (ensureAll d "filer:8888") ready_store in
  x.2 = None /\ csi_agrees x.1 d "filer:8888".
Proof.
  intros d x. assert (Hx : x.2 = None) by (by vm_compute). split; [done|].
  pose proof (run_exec store_env store_handler (ensureAll d "filer:8888") ready_store store_handler_refines) as He.
  fold x in He.
  assert (Hp : is_Some (x.1 KCSIDriver (csi_key "" "csi"))) by (apply (bool_decide_eq_true_1 (is_Some _)); by vm_compute).
  apply (csi_objects_agree ready_store x.1 d "filer:8888"); [|exact Hp].
  pose proof (ensureAll_performs d "filer:8888" ready_store (csi_tasks_distinct d "filer:8888")) as Hw.
  rewrite wp_exec in Hw. specialize (Hw x.1 x.2 He). clearbody x. exact (proj1 (Hw Hx)).
Defined.
