(* ===== verification/BucketUsage.v ===== *)
(** * The usage statistics of buckets (bucket_usage.go)

    Beside the reconciler a loop refreshes the usage in the status of every bucket: it
    groups the buckets by cluster, asks every cluster once for the statistics of its
    collections, and patches the statuses that changed.  One turn of the loop is
    modelled; the order in which the map of groups is visited is a parameter. *)
From S2P Require Import Prelude Prog CoreTypes ApiTypes Effects Machinery Sim Store Trace.
From S2P Require Import RefGrant Cluster.
From S2P Require Import NameClaim IamCommon IamSpec BucketController.

#[export] Instance NamespacedName_countable : Countable NamespacedName.
Proof.
  apply (inj_countable' (fun k => (nn_Namespace k, nn_Name k)) (fun x => {| nn_Namespace := x.1; nn_Name := x.2 |})).
  by intros [].
Defined.

Definition DefaultUsageRefreshInterval : Z := 5 * Minute.
Definition with_usage (u : BucketUsage) : Bucket -> Bucket := fun b =>
  let s := b_Status b in {|
  b_Meta := b_Meta b; b_Spec := b_Spec b;
  b_Status := {|
    bst_ObservedGeneration := bst_ObservedGeneration s; bst_Phase := bst_Phase s;
    bst_Conditions := bst_Conditions s; bst_BucketName := bst_BucketName s; bst_Versioning := bst_Versioning s;
    bst_ObjectLockEnabled := bst_ObjectLockEnabled s; bst_Quota := bst_Quota s;
    bst_OwnerIdentity := bst_OwnerIdentity s; bst_Usage := Some u |} |}.
Definition usageEqual (a b : option BucketUsage) : bool :=
  match a, b with
  | Some a, Some b =>
      bool_decide (usage_ObjectCount a = usage_ObjectCount b) && bool_decide (usage_SizeBytes a = usage_SizeBytes b)
  | None, None => true
  | _, _ => false
  end.
(** The bucket was reconciled before. *)
Definition named (b : Bucket) : bool := negb (bool_decide (bst_BucketName (b_Status b) = "")).
Definition usage_key (b : Bucket) : NamespacedName :=
  let ref := bspec_ClusterRef (b_Spec b) in
  {| nn_Namespace := refNamespace ref (Namespace (b_Meta b)); nn_Name := ref_Name ref |}.
Abbreviation groups := (gmap NamespacedName (list Bucket)).
Definition add_to_group (m : groups) (b : Bucket) : groups :=
  if named b then <[usage_key b := default [] (m !! usage_key b) ++ [b]]> m else m.
Definition usage_groups (items : list Bucket) : groups := foldl add_to_group ∅ items.
(** A bucket without objects has no statistics: the zero value of the map. *)
Definition usage_of (stats : gmap string BucketCollectionStats) (now : Time) (b : Bucket) : BucketUsage :=
  let s := default {| FileCount := 0; SizeBytes := 0 |} (stats !! bst_BucketName (b_Status b)) in
  {| usage_ObjectCount := FileCount s; usage_SizeBytes := SizeBytes s; usage_LastUpdated := Some now |}.

(** How a turn can end the process. *)
Inductive crash := NilDereference.

Section usage.
Context `{Digest}.
Definition refresh_bucket (stats : gmap string BucketCollectionStats) (now : Time) (b : Bucket) : op () :=
  let newUsage := usage_of stats now b in
  if usageEqual (bst_Usage (b_Status b)) (Some newUsage) then Ret tt
  else do _ <- kube (KStatusPatch KBucket b (with_usage newUsage b)); Ret tt.
(** Errors are logged, and the cluster is left to the next turn.  A panic is not
    recovered: the loop runs in a goroutine of its own, and the process ends. *)
Definition refreshClusterUsage (key : NamespacedName) (buckets : list Bucket) : op (option crash) :=
  try seaweed <- kube (KGet KSeaweed key) catch _ => Ret None;
  match getMasterPeersString seaweed with None => Ret (Some NilDereference) | Some masters =>
  try adminKey <- loadFilerAdminSigningKey seaweed catch _ => Ret None;
  try d <- loadSeaweedGrpcDialOption seaweed catch _ => Ret None;
  let target := adminTarget seaweed adminKey d.1 in
  check call (OBucketFactory masters target) catch _ => Ret None;
  try stats <- bkt masters target ListCollectionStats catch _ => Ret None;
  do now <- call ONow;
  do _ <- for_each buckets (refresh_bucket stats now);
  Ret None
  end.
Definition refreshAllUsage (order : groups -> list (NamespacedName * list Bucket)) : op (option crash) :=
  try items <- kube (KList KBucket None ∅) catch _ => Ret None;
  for_until (order (usage_groups items)) (fun x => refreshClusterUsage x.1 x.2).
End usage.

(** ** Grouping *)
(** The groups partition the reconciled buckets by their cluster, in the order of the list. *)
Lemma usage_groups_lookup items key :
  default [] (usage_groups items !! key) =
  filter (fun b => named b = true /\ usage_key b = key) items.
Proof.
  unfold usage_groups. rewrite <-(app_nil_l (filter _ items)).
  replace [] with (default [] ((∅ : groups) !! key)) at 2 by done. generalize (∅ : groups).
  induction items as [|b items IH]; intros m; cbn [foldl]; [by rewrite filter_nil, app_nil_r|].
  rewrite IH, filter_cons. unfold add_to_group. destruct (named b); [|by rewrite decide_False by naive_solver].
  destruct (decide (usage_key b = key)) as [<-|Hne].
  - rewrite lookup_insert_eq, decide_True by done. cbn. by rewrite <-app_assoc.
  - rewrite lookup_insert_ne by done. by rewrite decide_False by naive_solver.
Qed.
Lemma usage_groups_elem items key bs b :
  usage_groups items !! key = Some bs -> b ∈ bs <-> b ∈ items /\ named b = true /\ usage_key b = key.
Proof.
  intros Hk. pose proof (usage_groups_lookup items key) as Hl. rewrite Hk in Hl. cbn in Hl. subst bs.
  rewrite list_elem_of_filter. naive_solver.
Qed.
Lemma usage_groups_nonempty items key bs : usage_groups items !! key = Some bs -> bs <> [].
Proof.
  unfold usage_groups. cut (map_Forall (fun _ bs => bs <> []) (foldl add_to_group ∅ items)); [intros H; apply H|].
  assert (Hm : map_Forall (fun _ bs => bs <> []) (∅ : groups)) by apply map_Forall_empty. revert Hm.
  generalize (∅ : groups). induction items as [|b items IH]; intros m Hm; cbn [foldl]; [done|]. apply IH.
  unfold add_to_group. destruct (named b); [|done]. apply map_Forall_insert_2; [|done]. by destruct (default [] _).
Qed.

(** ** What a turn may do *)
Definition visited (tr : trace) : list NamespacedName :=
  omap (fun ev => match ev_call ev with OKube (KGet KSeaweed key) => Some key | _ => None end) tr.
Definition counts (u : option BucketUsage) : option (Z * Z) := (fun u => (usage_ObjectCount u, usage_SizeBytes u)) <$> u.
Lemma usageEqual_counts a b : usageEqual a b = true <-> counts a = counts b.
Proof.
  destruct a as [a|], b as [b|]; cbn; try done. rewrite andb_true_iff, !bool_decide_eq_true. split; [by intros [-> ->]|].
  by intros [= -> ->].
Qed.
(** [b] is a reconciled bucket of the list that the turn works on. *)
Definition listed (tr : trace) (b : Bucket) : Prop :=
  exists items, saw_kube tr (KList KBucket None ∅) (Ok items) /\ b ∈ items /\ named b = true.
(** The cluster [key] was read, and reported [stats] over an admin made for it. *)
Definition asked (tr : trace) (key : NamespacedName) (ms : string) (t : filerTarget) : Prop :=
  exists sw adminKey d, saw_kube tr (KGet KSeaweed key) (Ok sw) /\ getMasterPeersString sw = Some ms /\
    t = adminTarget sw adminKey d.
Definition reported (tr : trace) (key : NamespacedName) (stats : gmap string BucketCollectionStats) : Prop :=
  exists ms t, asked tr key ms t /\ saw tr (OBucket ms t ListCollectionStats) (Ok stats).
Definition usage_patch (tr : trace) (base o : Bucket) : Prop :=
  exists stats now, listed tr base /\ reported tr (usage_key base) stats /\ saw tr ONow now /\
    o = with_usage (usage_of stats now base) base /\
    counts (bst_Usage (b_Status base)) <> counts (bst_Usage (b_Status o)).
Definition usage_guard : Guard := fun tr X e =>
  match e with
  | OKube (KList KBucket ns _) => ns = None
  | OKube (KGet KSeaweed key) => key ∉ visited tr /\ exists b, listed tr b /\ usage_key b = key
  | OKube (KGet KSecret _) | ODialTLS _ _ _ | OBucketFactory _ _ | ONow => True
  | OBucket ms t ListCollectionStats => exists key, asked tr key ms t
  | OKube (KStatusPatch KBucket base o) => usage_patch tr base o
  | _ => False
  end.

Section safety.
Context `{Digest}.
#[local] Set Default Proof Using "Type*".
Lemma visited_last tr {X} (e : opE X) x :
  visited (tr ++ [Ev e x]) = visited tr ++ match e with OKube (KGet KSeaweed key) => [key] | _ => [] end.
Proof.
  unfold visited. rewrite omap_app. f_equal. cbn. destruct e as [X e| | | | | | | | | | | | | |]; try done.
  destruct e; try done. by destruct k.
Qed.
Ltac visits := rewrite ?visited_last, ?app_nil_r.
Lemma usage_key_swp sw tr :
  swp usage_guard (loadFilerAdminSigningKey sw) (fun _ tr' => visited tr' = visited tr) tr.
Proof.
  unfold loadFilerAdminSigningKey. sx. split; [done|]. intros [e|s]; [destruct (IsNotFound e)|]; sx; by visits.
Qed.
Lemma usage_dial_swp sw tr :
  swp usage_guard (loadSeaweedGrpcDialOption sw) (fun _ tr' => visited tr' = visited tr) tr.
Proof.
  unfold loadSeaweedGrpcDialOption. destruct (tlsEnabled sw); sx; [|done]. split; [done|].
  intros [e|s]; [destruct (IsNotFound e); sx; by visits|]. cbv zeta. destruct (_ || _); sx; [by visits|].
  split; [done|]. intros [e|]; sx; by visits.
Qed.

(** ** What is known stays known *)
Lemma listed_mono tr new b : listed tr b -> listed (tr ++ new) b.
Proof. intros (items & Hs & Hb). exists items. split; [by apply saw_app_l|done]. Qed.
Lemma reported_mono tr new key stats : reported tr key stats -> reported (tr ++ new) key stats.
Proof.
  intros (ms & t & (sw & k & d & Hs & Ht) & Hr). exists ms, t. split; [|by apply saw_app_l].
  exists sw, k, d. split; [by apply saw_app_l|done].
Qed.
Lemma refresh_buckets_swp stats now key buckets tr :
  (forall b, b ∈ buckets -> listed tr b /\ usage_key b = key) -> reported tr key stats -> saw tr ONow now ->
  swp usage_guard (for_each buckets (refresh_bucket stats now)) (fun _ tr' => visited tr' = visited tr) tr.
Proof.
  revert tr. induction buckets as [|b buckets IH]; intros tr Hb Hr Hn; cbn [for_each]; [done|].
  unfold refresh_bucket at 1. cbv zeta. destruct (usageEqual _ _) eqn:He; sx.
  - apply IH; [|done..]. intros b' ?. apply Hb. by right.
  - destruct (Hb b) as [Hl Hk]; [by left|]. split.
    + exists stats, now. rewrite Hk. split_and!; [done..|]. rewrite <-usageEqual_counts. by apply not_true_iff_false.
    + intros x. eapply swp_mono; [|apply IH].
      * intros _ tr' ->. by visits.
      * intros b' Hin. destruct (Hb b') as [? ?]; [by right|]. split; [by apply listed_mono|done].
      * by apply reported_mono.
      * by apply saw_app_l.
Qed.
Lemma refreshClusterUsage_swp key buckets tr :
  buckets <> [] -> (forall b, b ∈ buckets -> listed tr b /\ usage_key b = key) -> key ∉ visited tr ->
  swp usage_guard (refreshClusterUsage key buckets) (fun _ tr' => visited tr' = visited tr ++ [key]) tr.
Proof.
  intros Hne Hb Hv. unfold refreshClusterUsage. sx. split.
  { split; [done|]. destruct buckets as [|b bs]; [done|]. exists b. apply Hb. by left. }
  intros [e|sw]; sx; [by visits|]. set (tr1 := tr ++ _).
  assert (Hv1 : visited tr1 = visited tr ++ [key]) by (unfold tr1; by visits).
  assert (Hsw : saw_kube tr1 (KGet KSeaweed key) (Ok sw)) by apply saw_last.
  assert (Hb1 : forall b, b ∈ buckets -> listed tr1 b /\ usage_key b = key).
  { intros b [? ?]%Hb. split; [by apply listed_mono|done]. }
  clearbody tr1. destruct (getMasterPeersString sw) as [ms|] eqn:Hms; [|exact Hv1].
  eapply swp_seq_keep; [apply usage_key_swp|]. intros [e|akey] new Hn; sx; [by rewrite Hn|].
  eapply swp_seq_keep; [apply usage_dial_swp|]. intros [e|d] new2 Hn2; sx; [by rewrite Hn2, Hn|]. split; [done|].
  set (t := adminTarget sw akey d.1). intros [e|]; sx; [visits; by rewrite Hn2, Hn|].
  split; [exists key, sw, akey, d.1; split; [by do 3 apply saw_app_l|done]|]. intros [e|stats]; sx; [visits; by rewrite Hn2, Hn|]. split; [done|]. intros now.
  eapply swp_seq; [apply (refresh_buckets_swp _ _ key)|].
  4: { intros u tr' Ht. sx. cbn beta in Ht. rewrite Ht. visits. by rewrite Hn2, Hn. }
  - intros b [? ?]%Hb1. split; [by do 5 apply listed_mono|done].
  - exists ms, t. split; [|apply saw_app_l, saw_last].
    exists sw, akey, d.1. split; [by do 5 apply saw_app_l|done].
  - apply saw_last.
Qed.
(** Whatever the API server and the masters answer, a turn of the usage loop reads
    each cluster at most once, and only one that a reconciled bucket refers to; the
    only thing it asks a cluster for are statistics; and it writes only the usage in
    the status of a bucket it has listed, with what the bucket's own cluster reported
    in this turn, and only if that is news. *)
Theorem usage_refresh_guarded order tr o :
  (forall m, order m ≡ₚ map_to_list m) ->
  exec trace_env (refreshAllUsage order) [] tr o -> guarded usage_guard tr.
Proof.
  intros Ho Hx. eapply (swp_theorem _ _ (fun _ _ => True)) in Hx as [Hg _]; [exact Hg|]. clear Hx tr o.
  unfold refreshAllUsage. sx. split; [done|]. intros [e|items]; sx; [done|].
  set (tr := [] ++ _). assert (Hl : saw_kube tr (KList KBucket None ∅) (Ok items)) by apply saw_last.
  assert (Hv : forall x, x ∈ order (usage_groups items) -> x.1 ∉ visited tr) by by intros x _ ?%elem_of_nil.
  assert (Hin : forall x, x ∈ order (usage_groups items) -> usage_groups items !! x.1 = Some x.2).
  { intros [k bs] Hin. rewrite Ho in Hin. by apply elem_of_map_to_list. }
  assert (Hnd : NoDup (order (usage_groups items)).*1) by (rewrite Ho; apply NoDup_fst_map_to_list).
  clearbody tr. revert tr Hl Hv Hin Hnd. induction (order (usage_groups items)) as [|[k bs] l IH];
    intros tr Hl Hv Hin Hnd; cbn [for_until]; [done|]. cbn in Hnd. apply NoDup_cons in Hnd as [Hk Hnd].
  pose proof (Hin (k, bs) ltac:(by left)) as Hbs. cbn in Hbs. eapply swp_seq_keep; [apply refreshClusterUsage_swp|].
  - by eapply usage_groups_nonempty.
  - intros b [? [? ?]]%(usage_groups_elem items k bs b Hbs). split; [by exists items|done].
  - apply (Hv (k, bs)). by left.
  - intros [c|] new Hvis; [done|]. apply IH; [by apply saw_app_l| | |done].
    + intros x Hx. cbn in Hvis. rewrite Hvis, not_elem_of_app, list_elem_of_singleton. split; [by apply Hv; right|].
      intros Heq. apply Hk. rewrite <-Heq. by apply list_elem_of_fmap_2.
    + intros x Hx. apply Hin. by right.
Qed.
End safety.

(** ** What a turn achieves *)
Section converges.
Context `{Digest} (reports : string -> gmap string BucketCollectionStats).
#[local] Set Default Proof Using "Type*".
(** An API server that works, and masters that report [reports]. *)
Definition usage_kube (s s' : Store) {X} (e : kubeE X) : X -> Prop :=
  match e in kubeE X return X -> Prop with
  | KGet k key => fun r => s' = s /\ found (s k key) r
  | KList k _ _ => fun r => s' = s /\ exists items, r = Ok items /\ forall o, o ∈ items <-> exists key, s k key = Some o
  | KStatusPatch k _ o => fun r => r = None /\ s' = put s k (obj_key o) (Some o)
  | _ => fun _ => s' = s
  end.
Definition usage_env : Env opE Store := fun X e s x s' =>
  match e in opE X return X -> Prop with
  | OKube e => usage_kube s s' e
  | ODialTLS _ _ _ | OBucketFactory _ _ => fun r => s' = s /\ r = None
  | OBucket ms _ e =>
      match e in bucketE X return X -> Prop with
      | ListCollectionStats => fun r => s' = s /\ r = Ok (reports ms)
      | _ => fun _ => s' = s
      end
  | _ => fun _ => s' = s
  end x.

Definition true_counts (masters : string) (b : Bucket) : Z * Z :=
  let s := default {| FileCount := 0; SizeBytes := 0 |} (reports masters !! bst_BucketName (b_Status b)) in
  (FileCount s, SizeBytes s).
(** [b'] is [b] with the usage its cluster [sw] reports. *)
Definition refreshed (s : Store) (b b' : Bucket) : Prop :=
  exists sw masters, s KSeaweed (usage_key b) = Some sw /\ getMasterPeersString sw = Some masters /\
    counts (bst_Usage (b_Status b')) = Some (true_counts masters b) /\ (b' = b \/ exists u, b' = with_usage u b).
(** The buckets of [P] are up to date in [s1], the others of [s] untouched. *)
Definition usage_inv (s : Store) (P : Bucket -> Prop) (s1 : Store) : Prop :=
  (forall k key, k <> KBucket -> s1 k key = s k key) /\
  forall b, s KBucket (obj_key (k:=KBucket) b) = Some b ->
    exists b', s1 KBucket (obj_key (k:=KBucket) b) = Some b' /\ (b' = b \/ refreshed s b b') /\
      (P b -> refreshed s b b') /\ (~ P b -> b' = b).
Lemma usage_inv_iff s (P Q : Bucket -> Prop) s1 :
  (forall b, s KBucket (obj_key (k:=KBucket) b) = Some b -> P b <-> Q b) -> usage_inv s P s1 -> usage_inv s Q s1.
Proof.
  intros HPQ [Hk Hb]. split; [done|]. intros b Hin. destruct (Hb b Hin) as (b' & ? & ? & ? & ?). exists b'.
  by rewrite <-(HPQ b Hin).
Qed.
Lemma refresh_bucket_inv (s : Store) P s1 (sw : Seaweed) ms now b :
  s KBucket (obj_key (k:=KBucket) b) = Some b -> s KSeaweed (usage_key b) = Some sw ->
  getMasterPeersString sw = Some ms -> usage_inv s P s1 ->
  wp usage_env (refresh_bucket (reports ms) now b)
    (fun _ => usage_inv s (fun x => P x \/ x = b)) s1.
Proof.
  intros Hin Hsw Hms [Hk Hb]. unfold refresh_bucket. cbv zeta. set (u := usage_of _ now b).
  assert (Hu : counts (Some u) = Some (true_counts ms b)) by done. destruct (usageEqual _ _) eqn:He; wx.
  - split; [done|]. intros x Hx. destruct (Hb x Hx) as (x' & Hx' & Hor & HP & HnP). exists x'. split_and!; [done|done| |naive_solver].
    intros [?| ->]; [by apply HP|]. destruct Hor as [->|?]; [|done]. exists sw, ms. split; [done|]. split; [done|]. split; [|by left].
    rewrite <-Hu. by apply usageEqual_counts.
  - intros r s2 [-> ->]. split.
    + intros k key Hne. rewrite put_other by congruence. by apply Hk.
    + intros x Hx. destruct (decide (obj_key (k:=KBucket) x = obj_key (k:=KBucket) b)) as [Heq|Hne].
      * assert (x = b) as -> by congruence. exists (with_usage u b). split; [apply put_same|].
        assert (Hr : refreshed s b (with_usage u b)) by (exists sw, ms; split_and!; [done|done|done|right; by exists u]).
        split_and!; [by right|done|naive_solver].
      * destruct (Hb x Hx) as (x' & Hx' & ? & HP & HnP). exists x'. split; [|naive_solver].
        rewrite put_other; [done|]. intros Heq. apply Hne. by apply (f_equal snd) in Heq.
Qed.
Lemma refresh_buckets_inv (s : Store) P s1 (sw : Seaweed) ms now bs :
  getMasterPeersString sw = Some ms ->
  (forall b, b ∈ bs -> s KBucket (obj_key (k:=KBucket) b) = Some b /\ s KSeaweed (usage_key b) = Some sw) ->
  usage_inv s P s1 ->
  wp usage_env (for_each bs (refresh_bucket (reports ms) now))
    (fun _ => usage_inv s (fun x => P x \/ x ∈ bs)) s1.
Proof.
  intros Hms. revert P s1. induction bs as [|b bs IH]; intros P s1 Hbs Hi; cbn [for_each].
  - eapply usage_inv_iff; [|exact Hi]. intros b. rewrite elem_of_nil. naive_solver.
  - destruct (Hbs b) as [Hb Hsw]; [by left|]. eapply wp_seq; [by apply (refresh_bucket_inv s P _ sw)|].
    intros [] s2 Hi2. eapply wp_mono; [|apply (IH (fun x => P x \/ x = b)); [|exact Hi2]].
    + intros u s3 Hi3. eapply usage_inv_iff; [|exact Hi3]. intros x. rewrite elem_of_cons. naive_solver.
    + intros x Hx. apply Hbs. by right.
Qed.
Lemma store_key_loads sw s :
  wp usage_env (loadFilerAdminSigningKey sw) (fun r s' => s' = s /\ exists key, r = Ok key) s.
Proof.
  unfold loadFilerAdminSigningKey. wx. intros r s1 [-> Hr].
  destruct (s KSecret _) as [x|]; cbn in Hr; [subst r|destruct Hr as (e & He & ->); rewrite He]; wx;
    (split; [done|by eexists]).
Qed.
Lemma store_dial_loads sw s :
  wp usage_env (loadSeaweedGrpcDialOption sw) (fun r s' => s' = s /\ exists d, r = Ok d) s.
Proof.
  assert (Hok : forall {A} (a : A), s = s /\ exists d, Ok a = Ok d) by (intros; split; [done|by eexists]).
  unfold loadSeaweedGrpcDialOption. destruct (tlsEnabled sw); wx; [|apply Hok]. intros r s1 [-> Hr].
  destruct (s KSecret _) as [x|]; cbn in Hr; [subst r|destruct Hr as (e & He & ->); rewrite He; apply Hok].
  cbv zeta. destruct (_ || _); wx; [apply Hok|]. intros r s1 [-> ->]. apply Hok.
Qed.
Definition has_cluster (s : Store) (b : Bucket) : Prop := is_Some (s KSeaweed (usage_key b)).
(** A reconciled bucket whose cluster has no spec.master. *)
Definition masterless (s : Store) : Prop :=
  exists b sw, s KBucket (obj_key (k:=KBucket) b) = Some b /\ named b = true /\
    s KSeaweed (usage_key b) = Some sw /\ sw_Master (sw_Spec sw) = None.
Definition turn_inv (s : Store) (P : Bucket -> Prop) (o : option crash) (s1 : Store) : Prop :=
  match o with
  | None => usage_inv s P s1
  | Some _ => masterless s /\ exists Q, usage_inv s Q s1
  end.
Lemma refreshClusterUsage_inv s P s1 key bs :
  bs <> [] ->
  (forall b, b ∈ bs -> s KBucket (obj_key (k:=KBucket) b) = Some b /\ named b = true /\ usage_key b = key) ->
  usage_inv s P s1 ->
  wp usage_env (refreshClusterUsage key bs)
    (turn_inv s (fun x => P x \/ x ∈ bs /\ has_cluster s x)) s1.
Proof.
  intros Hne Hbs Hi. unfold refreshClusterUsage. wx. intros r s2 [-> Hr]. rewrite (proj1 Hi) in Hr by done.
  destruct (s KSeaweed key) as [sw|] eqn:Hsw; cbn in Hr.
  2: { destruct Hr as (e & _ & ->). wx. eapply usage_inv_iff; [|exact Hi]. intros b. split; [by left|].
       intros [?|[Hb Hc]]; [done|]. unfold has_cluster in Hc. destruct (Hbs b Hb) as (_ & _ & Hk).
       rewrite Hk, Hsw in Hc. by destruct Hc. }
  subst r. destruct (getMasterPeersString sw) as [ms|] eqn:Hms.
  2: { wx. split; [|by exists P]. destruct bs as [|b bs]; [done|]. destruct (Hbs b) as (? & ? & Hk); [by left|].
       exists b, sw. rewrite Hk. split_and!; try done. revert Hms. unfold getMasterPeersString. by destruct (sw_Master _). }
  eapply wp_seq; [apply store_key_loads|]. intros [e|akey] s2 [-> [? [=]]].
  eapply wp_seq; [apply store_dial_loads|]. intros [e|d] s2 [-> [? [=]]]. wx.
  intros r s2 [-> ->]. wx. intros r s2 [-> ->]. wx. intros now s2 ->.
  eapply wp_seq; [apply (refresh_buckets_inv s P s1 sw); [done| |exact Hi]|].
  2: { intros u s3 Hi3. wx. eapply usage_inv_iff; [|exact Hi3]. intros b. split; [|naive_solver]. intros [?|Hb]; [by left|].
    right. split; [done|]. unfold has_cluster. destruct (Hbs b Hb) as (_ & _ & Hk). rewrite Hk, Hsw. done. }
  intros b Hb. destruct (Hbs b Hb) as (? & _ & Hk). by rewrite Hk.
Qed.

(** C37. Over an API server that works, with TLS material that loads and masters that
    answer, a turn of the usage loop that comes to its end leaves every reconciled bucket
    whose cluster exists with the object count and the size that its cluster reports for
    it, zero for a bucket without objects; nothing else of a bucket changes, no other
    object, and no bucket that was not reconciled before or whose cluster is gone.  A turn
    that does not come to its end panics on the cluster of a reconciled bucket that has
    lost its spec.master; until then it, too, only brings buckets up to date. *)
Theorem usage_refresh_converges order s s' o :
  (forall m, order m ≡ₚ map_to_list m) ->
  (forall key b, s KBucket key = Some b -> obj_key (k:=KBucket) b = key) ->
  exec usage_env (refreshAllUsage order) s s' o ->
  turn_inv s (fun b => named b = true /\ has_cluster s b) o s'.
Proof.
  intros Ho Hkeys Hx. cut (wp usage_env (refreshAllUsage order)
    (turn_inv s (fun b => named b = true /\ has_cluster s b)) s).
  { intros Hw. exact (proj1 (wp_exec _ _ _ _) Hw s' o Hx). }
  unfold refreshAllUsage. wx. intros r s1 [-> (items & -> & Hitems)]. wx.
  assert (Hgroup : forall x b, x ∈ order (usage_groups items) -> b ∈ x.2 <-> b ∈ items /\ named b = true /\ usage_key b = x.1).
  { intros [k bs] b Hin. rewrite Ho in Hin. apply elem_of_map_to_list in Hin. by apply usage_groups_elem. }
  assert (Hstored : forall b, b ∈ items <-> s KBucket (obj_key (k:=KBucket) b) = Some b).
  { intros b. rewrite Hitems. split; [|by eexists]. intros [key Hb]. by rewrite (Hkeys key b Hb). }
  assert (Hloop : forall l P s1, (forall x, x ∈ l -> x ∈ order (usage_groups items)) -> usage_inv s P s1 ->
    wp usage_env (for_until l (fun x => refreshClusterUsage x.1 x.2))
      (turn_inv s (fun b => P b \/ (exists x, x ∈ l /\ b ∈ x.2) /\ has_cluster s b)) s1).
  { intros l. induction l as [|x l IH]; intros P s1 Hl Hi; cbn [for_until].
    - eapply usage_inv_iff; [|exact Hi]. intros b _. split; [by left|]. by intros [?|[(x & ?%elem_of_nil & _) _]].
    - eapply wp_seq; [apply (refreshClusterUsage_inv s P); [| |exact Hi]|].
      + destruct x as [k bs]. eapply usage_groups_nonempty, elem_of_map_to_list.
        rewrite <-(Ho (usage_groups items)). by apply Hl; left.
      + intros b Hb. apply Hgroup in Hb as (Hin & ? & Hk); [|by apply Hl; left]. by rewrite <-Hstored.
      + intros [c|] s2 Hi2; [exact Hi2|]. eapply wp_mono; [|apply (IH _ _ (fun y Hy => Hl y (list_elem_of_further _ _ _ Hy)) Hi2)].
        intros [c|] s3 Hi3; [exact Hi3|]. eapply usage_inv_iff; [|exact Hi3]. intros b _. setoid_rewrite elem_of_cons. naive_solver. }
  eapply wp_mono; [|apply (Hloop _ (fun _ => False)); [done|]].
  - intros [c|] s2 Hi; [exact Hi|]. eapply usage_inv_iff; [|exact Hi]. intros b Hb%Hstored. split.
    + intros [[]|[(x & Hx' & Hin) Hc]]. split; [|done]. by apply (Hgroup x b Hx') in Hin as (_ & ? & _).
    + intros [Hn Hc]. right. split; [|done]. pose proof (usage_groups_lookup items (usage_key b)) as Hl.
      destruct (usage_groups items !! usage_key b) as [bs|] eqn:Hbs; cbn in Hl.
      * exists (usage_key b, bs). split; [by rewrite Ho; apply elem_of_map_to_list|]. cbn. rewrite Hl.
        by apply list_elem_of_filter.
      * exfalso. apply (not_elem_of_nil (A:=Bucket) b). unfold Obj in *. rewrite Hl. by apply list_elem_of_filter.
  - split; [done|]. intros b Hb. exists b. split_and!; [done|by left|done|done].
Qed.
End converges.

(** ** Evaluations *)
Definition recorded_bucket (clusterNS : string) (usage : option BucketUsage) : Bucket :=
  let b := sample_bucket "" [] None in
  let sp := b_Spec b in let s := b_Status b in {|
  b_Meta := b_Meta b;
  b_Spec := {| bspec_Name := bspec_Name sp; bspec_ClusterRef := {| ref_Name := "sw"; ref_Namespace := clusterNS |};
               bspec_ReclaimPolicy := bspec_ReclaimPolicy sp; bspec_AdoptExisting := false;
               bspec_Versioning := bspec_Versioning sp; bspec_ObjectLock := bspec_ObjectLock sp;
               bspec_Quota := None; bspec_Owner := ""; bspec_Access := []; bspec_Placement := None;
               bspec_AnonymousRead := false |};
  b_Status := {|
    bst_ObservedGeneration := bst_ObservedGeneration s; bst_Phase := bst_Phase s;
    bst_Conditions := bst_Conditions s; bst_BucketName := "data"; bst_Versioning := bst_Versioning s;
    bst_ObjectLockEnabled := bst_ObjectLockEnabled s; bst_Quota := bst_Quota s;
    bst_OwnerIdentity := bst_OwnerIdentity s; bst_Usage := usage |} |}.
Definition usage_turn (s : Sim) : Sim * trace * option crash := run (tracing sim) (refreshAllUsage map_to_list) (s, []).
Definition usages (s : Sim) : list (option BucketUsage) := map (fun b => bst_Usage (b_Status b)) (sim_objs s KBucket).
Definition zero_usage (t : Time) : BucketUsage :=
  {| usage_ObjectCount := 0; usage_SizeBytes := 0; usage_LastUpdated := Some t |}.
Definition usage_state (b : Bucket) (clusterNS : string) : Sim :=
  set_objs KBucket [b] (set_objs KSeaweed [sample_sw clusterNS] sim_empty).

Lemma usage_refresh_guarded_witness :
  let x := usage_turn (usage_state (recorded_bucket "" None) "a") in
  usages x.1.1 = [Some (zero_usage 1)] /\ guarded usage_guard x.1.2.
Proof.
  intros x. split; [by vm_compute|]. apply (usage_refresh_guarded map_to_list x.1.2 x.2); [reflexivity|].
  exact (run_tracing sim (refreshAllUsage map_to_list) _ []).
Defined.
Lemma usage_refresh_converges_witness :
  let b := recorded_bucket "" None in
  let sw := sample_sw "a" in
  let s := put (put (fun _ _ => None) KSeaweed (usage_key b) (Some sw)) KBucket bucket_req (Some b) in
  let reports := fun _ : string => {[ "data" := {| FileCount := 3; SizeBytes := 40 |} ]} : gmap string BucketCollectionStats in
  exists s' : Store, match s' KBucket bucket_req with Some b => bst_Usage (b_Status b) | None => None end =
      Some {| usage_ObjectCount := 3; usage_SizeBytes := 40; usage_LastUpdated := Some 7%Z |} /\
    turn_inv reports s (fun b => named b = true /\ has_cluster s b) None s'.
Proof.
  intros b sw s reports.
  assert (Hs : forall key o, s KBucket key = Some o <-> key = bucket_req /\ o = b).
  { intros key o. destruct (decide (key = bucket_req)) as [->|Hne].
    - unfold s. rewrite put_same. naive_solver.
    - unfold s. rewrite !put_other by (congruence || (intros Heq; apply Hne; by apply (f_equal snd) in Heq)). naive_solver. }
  set (new := with_usage (usage_of (reports "") 7 b) b).
  exists (put s KBucket bucket_req (Some new)). split; [by vm_compute|].
  apply (usage_refresh_converges reports map_to_list s); [reflexivity| |].
  - intros key o [-> ->]%Hs. done.
  - unfold refreshAllUsage. exists (Ok [b]), s. split.
    { split; [done|]. exists [b]. split; [done|]. intros o. rewrite list_elem_of_singleton. split.
      - intros ->. exists bucket_req. by apply Hs.
      - by intros (key & [_ ->]%Hs). }
    assert (Hg : map_to_list (usage_groups [b]) = [(usage_key b, [b])]) by (by vm_compute).
    cbn [bind kube call]. rewrite Hg.
    assert (Hkey : usage_key b = {| nn_Namespace := "a"; nn_Name := "sw" |}) by done.
    exists (Ok sw), s. split; [by split; [|vm_compute]|].
    exists (Err (ErrNotFound "")), s. split; [split; [reflexivity|]; vm_compute; exists (ErrNotFound ""); split; reflexivity|].
    exists None, s. split; [split; reflexivity|]. exists (Ok (reports "")), s. split; [split; reflexivity|].
    exists 7%Z, s. split; [reflexivity|]. exists None, (put s KBucket bucket_req (Some new)).
    split; [split; reflexivity|split; reflexivity].
Defined.
(** A bucket that refers to a cluster in another namespace, without a grant: the
    reconciler does not go near that cluster, the usage loop reads it and its Secret
    and asks it for statistics. *)
Theorem usage_ignores_grants :
  let s := usage_state (recorded_bucket "b" None) "b" in
  let reconciled := run (tracing sim) (Reconcile true resyncIn bucket_req) (s, []) in
  let x := usage_turn s in
  visited reconciled.1.2 = [] /\ visited x.1.2 = [ {| nn_Namespace := "b"; nn_Name := "sw" |} ] /\
  usages x.1.1 = [Some (zero_usage 1)].
Proof. by vm_compute. Qed.
(** The time of the last refresh stays when a refresh finds the same numbers. *)
Theorem usage_time_stale :
  usages (usage_turn (usage_state (recorded_bucket "" (Some (zero_usage 0))) "a")).1.1 = [Some (zero_usage 0)].
Proof. by vm_compute. Qed.
