(* ===== verification/FilerAdmin.v ===== *)
(** * Lifecycle configurations on the filer (swadmin/lifecycle.go)

    The bucket admin keeps the lifecycle configuration of a bucket in an extended
    attribute of the bucket's entry on the filer, by reading the entry and writing it
    back, and clears the TTLs that older versions left in filer.conf.  The RPCs of the
    filer are an effect; the parser and printer of filer.conf, a package of SeaweedFS,
    are a parameter. *)
From Stdlib Require Import Ascii.
From S2P Require Import Prelude Prog CoreTypes ApiTypes Effects Sim BucketAdmin.

(** An error of the filer: its text, and whether the sentinel is in its chain. *)
Record filer_error := { fe_text : string; fe_not_found : bool }.
(** [filer_pb.Entry]: its attributes, and all the rest of it as text. *)
Record Entry := { Extended : gmap string string; entry_rest : string }.
Inductive filerE : Type -> Type :=
| GetFilerConfiguration : filerE (filer_error + string)
| LookupDirectoryEntry (dir name : string) : filerE (filer_error + option Entry)
| UpdateEntry (dir name : string) (e : Entry) : filerE (option filer_error)
| ReadInsideFiler (dir name : string) : filerE (filer_error + string)
| SaveInsideFiler (dir name content : string) : filerE (option filer_error)
(** [WithFilerClient] dials before it runs its function. *)
| DialFiler : filerE (option filer_error).
Abbreviation filer_op := (prog filerE).

(** package filer: filer.conf as the list of its locations. *)
Class FilerConf := {
  Conf : Type;
  LoadFromBytes : string -> string + Conf;
  GetCollectionTtls : Conf -> string -> gmap string string;
  DeleteLocationConf : string -> Conf -> Conf;
  ToText : Conf -> string + string;
  ErrNotFound_text : string;
  DirectoryEtcSeaweedFS : string;
  FilerConfName : string;
}.

Definition bucketLifecycleConfigurationXMLKey : string := "s3-bucket-lifecycle-configuration-xml".
Section filer.
Context `{FilerConf}.
Definition isFilerNotFound (err : filer_error) : bool :=
  fe_not_found err || Contains (fe_text err) ErrNotFound_text.
Definition wrapped (prefix : string) (err : filer_error) : error := ErrOther (prefix +:+ fe_text err).

Definition lookupBucketEntry (bucket : string) : filer_op (error + Entry * string) :=
  try dir <- call GetFilerConfiguration catch err => Ret (inl (wrapped "get filer configuration: " err));
  try resp <- call (LookupDirectoryEntry dir bucket)
  catch err => Ret (inl (if isFilerNotFound err then ErrBucketNotFound
                         else wrapped ("lookup bucket " +:+ bucket +:+ ": ") err));
  match resp with
  | None => Ret (inl ErrBucketNotFound)
  | Some entry => Ret (inr (entry, dir))
  end.
(** [WithFilerClient]: the dial, then the function. *)
Definition WithFilerClient {A} (failed : error -> A) (p : filer_op A) : filer_op A :=
  check call DialFiler catch err => Ret (failed (wrapped "" err)); p.
Definition sa_GetBucketLifecycle (bucket : string) : filer_op (result string) :=
  WithFilerClient inl (
    try x <- lookupBucketEntry bucket catch err => Ret (Err err);
    Ret (Ok (default "" (Extended x.1 !! bucketLifecycleConfigurationXMLKey)))).
Definition with_extended (m : gmap string string) (e : Entry) : Entry :=
  {| Extended := m; entry_rest := entry_rest e |}.
Definition update_entry (dir bucket : string) (entry : Entry) : filer_op (option error) :=
  check call (UpdateEntry dir bucket entry) catch err => Ret (Some (wrapped "" err)); Ret None.
Definition sa_SetBucketLifecycle (bucket lifecycleXML : string) : filer_op (option error) :=
  WithFilerClient Some (
    try x <- lookupBucketEntry bucket catch err => Ret (Some err);
    let '(entry, dir) := x in
    if bool_decide (lifecycleXML = "") then
      match Extended entry !! bucketLifecycleConfigurationXMLKey with
      | None => Ret None
      | Some _ =>
          update_entry dir bucket (with_extended (delete bucketLifecycleConfigurationXMLKey (Extended entry)) entry)
      end
    else
      update_entry dir bucket
        (with_extended (<[bucketLifecycleConfigurationXMLKey := lifecycleXML]> (Extended entry)) entry)).

(** [order] visits the map of TTLs. *)
Definition stale (bucketPrefix : string) (x : string * string) : bool :=
  HasPrefix x.1 bucketPrefix && HasSuffix x.2 "d".
Definition staleTTLPrefixes (order : list (string * string)) (bucketPrefix : string) : list string :=
  map fst (List.filter (stale bucketPrefix) order).
Definition clearLegacyBucketTTLs (order : gmap string string -> list (string * string)) (bucketsDir bucket : string)
    : filer_op (option error) :=
  do r <- call (ReadInsideFiler DirectoryEtcSeaweedFS FilerConfName);
  match r with
  | inl err => Ret (if isFilerNotFound err then None else Some (wrapped "read filer.conf: " err))
  | inr content =>
      match LoadFromBytes content with
      | inl err => Ret (Some (ErrOther ("parse filer.conf: " +:+ err)))
      | inr fc =>
          match staleTTLPrefixes (order (GetCollectionTtls fc bucket)) (bucketsDir +:+ "/" +:+ bucket +:+ "/") with
          | [] => Ret None
          | prefixes =>
              match ToText (foldl (fun fc p => DeleteLocationConf p fc) fc prefixes) with
              | inl err => Ret (Some (ErrOther ("serialize filer.conf: " +:+ err)))
              | inr text =>
                  check call (SaveInsideFiler DirectoryEtcSeaweedFS FilerConfName text)
                  catch err => Ret (Some (wrapped "" err)); Ret None
              end
          end
      end
  end.
Definition sa_ClearLegacyBucketTTLs (order : gmap string string -> list (string * string)) (bucket : string)
    : filer_op (option error) :=
  WithFilerClient Some (
    try dir <- call GetFilerConfiguration catch err => Ret (Some (wrapped "get filer configuration: " err));
    clearLegacyBucketTTLs order dir bucket).
(** The operations of the bucket admin (bucket_admin.go) pass on what these answer;
    the error of a missing bucket becomes their own. *)
Definition a_GetBucketLifecycle (name : string) : filer_op (result string) :=
  do r <- sa_GetBucketLifecycle name;
  Ret (match r with inl ErrBucketNotFound => Err ErrBucketNotFound | r => r end).
Definition a_SetBucketLifecycle (name xml : string) : filer_op (option error) :=
  do r <- sa_SetBucketLifecycle name xml;
  Ret (match r with Some ErrBucketNotFound => Some ErrBucketNotFound | r => r end).
Definition a_ClearLegacyBucketTTLs (order : gmap string string -> list (string * string)) (name : string)
    : filer_op (option error) := sa_ClearLegacyBucketTTLs order name.
End filer.

(** ** A filer that may fail *)
Record Filer := {
  f_dir : string;
  f_entries : gmap string Entry;
  f_conf : option string;
}.
Section spec.
Context `{FilerConf}.
#[local] Set Default Proof Using "Type*".
(** Every call may fail without an effect, with any error but "not found". *)
Definition fails {A} (r : filer_error + A) : Prop := exists err, r = inl err /\ isFilerNotFound err = false.
Definition refuses (r : option filer_error) : Prop := exists err, r = Some err.
Definition missing {A} (r : filer_error + A) : Prop := exists err, r = inl err /\ isFilerNotFound err = true.
Definition filer_env : Env filerE Filer := fun X e s x s' =>
  match e in filerE X return X -> Prop with
  | GetFilerConfiguration => fun r => s' = s /\ (r = inr (f_dir s) \/ fails r)
  | LookupDirectoryEntry dir name => fun r => s' = s /\ (dir = f_dir s ->
      match f_entries s !! name with Some e => r = inr (Some e) | None => r = inr None \/ missing r end \/ fails r)
  | UpdateEntry dir name e => fun r =>
      s' = s /\ refuses r \/
      r = None /\ (dir = f_dir s ->
        s' = {| f_dir := f_dir s; f_entries := <[name := e]> (f_entries s); f_conf := f_conf s |})
  | ReadInsideFiler _ _ => fun r => s' = s /\
      (match f_conf s with Some text => r = inr text | None => missing r end \/ fails r)
  | SaveInsideFiler _ _ text => fun r =>
      s' = s /\ refuses r \/
      r = None /\ s' = {| f_dir := f_dir s; f_entries := f_entries s; f_conf := Some text |}
  | DialFiler => fun r => s' = s /\ (r = None \/ refuses r)
  end x.

(** The lifecycle configurations that a filer holds, and those of the reference. *)
Definition lifecycle_of (e : Entry) : string := default "" (Extended e !! bucketLifecycleConfigurationXMLKey).
Definition same_lifecycles (s : Filer) (a : Sim) : Prop :=
  forall b, lifecycle_of <$> f_entries s !! b = sb_Lifecycle <$> sim_buckets a !! b.
(** An error that is not one of the reference. *)
Definition other_error (r : option error) : Prop := exists text, r = Some (ErrOther text).
(** Nothing but the lifecycle configuration of [b] differs. *)
Definition only_lifecycle (b : string) (s s' : Filer) : Prop :=
  f_dir s' = f_dir s /\ f_conf s' = f_conf s /\
  forall b', option_relation (fun e e' => entry_rest e' = entry_rest e /\
      forall k, b' <> b \/ k <> bucketLifecycleConfigurationXMLKey -> Extended e' !! k = Extended e !! k)
    (fun _ => False) (fun _ => False) (f_entries s !! b') (f_entries s' !! b').
Lemma only_lifecycle_refl b s : only_lifecycle b s s.
Proof. split; [done|]. split; [done|]. intros b'. by destruct (f_entries s !! b'). Qed.

Lemma lookupBucketEntry_wp bucket s :
  wp filer_env (lookupBucketEntry bucket) (fun r s' => s' = s /\
    match r with
    | inr (e, dir) => dir = f_dir s /\ f_entries s !! bucket = Some e
    | inl err => err = ErrBucketNotFound /\ f_entries s !! bucket = None \/ exists text, err = ErrOther text
    end) s.
Proof.
  unfold lookupBucketEntry. intros r s1 [-> [->|(e & -> & _)]]; cbn [bind wp call]; [|split; [done|by right; eexists]].
  intros r s1 [-> Hr]. specialize (Hr eq_refl). destruct Hr as [Hr|(e & -> & He)].
  - destruct (f_entries s !! bucket) as [e|] eqn:Hb; [subst r; cbn; by split_and!|].
    destruct Hr as [->|(e & -> & He)]; cbn; [by split; [|left]|]. rewrite He. cbn. by split; [|left].
  - cbn. rewrite He. cbn. split; [done|right; by eexists].
Qed.
Lemma same_lifecycle_at s a b : same_lifecycles s a ->
  match f_entries s !! b with
  | Some e => exists x, sim_buckets a !! b = Some x /\ sb_Lifecycle x = lifecycle_of e
  | None => sim_buckets a !! b = None
  end.
Proof.
  intros Hs. specialize (Hs b). destruct (f_entries s !! b), (sim_buckets a !! b) as [x|]; try done. exists x.
  split; [done|]. by injection Hs.
Qed.
Lemma dial_wp {A} (failed : error -> A) (p : filer_op A) (Q : A -> Filer -> Prop) s :
  (forall text, Q (failed (ErrOther text)) s) -> wp filer_env p Q s -> wp filer_env (WithFilerClient failed p) Q s.
Proof. intros Hf Hp. unfold WithFilerClient. intros r s1 [-> [->|[e ->]]]; cbn [bind wp call]; [exact Hp|apply Hf]. Qed.
Lemma get_lifecycle_wp s a bucket :
  same_lifecycles s a ->
  wp filer_env (a_GetBucketLifecycle bucket) (fun r s' => s' = s /\
    (r = (sim_bucket (GetBucketLifecycle bucket) a).2 \/ exists text, r = Err (ErrOther text))) s.
Proof.
  intros Hs. pose proof (same_lifecycle_at s a bucket Hs) as Hb. unfold a_GetBucketLifecycle, sa_GetBucketLifecycle.
  eapply wp_seq; [|intros r s1 Hr; exact Hr]. apply dial_wp; [intros text; cbn; split; [done|right; by eexists]|].
  eapply wp_seq; [apply lookupBucketEntry_wp|]. intros [err|[e dir]] s1 [-> Hr]; cbn [wp]; (split; [done|]).
  - destruct Hr as [[-> Hn]|[text ->]]; [left|right; by eexists]. cbn. rewrite Hn in Hb. by rewrite Hb.
  - destruct Hr as [_ He]. rewrite He in Hb. destruct Hb as (x & Hx & Hl). left. cbn. by rewrite Hx, Hl.
Qed.

Definition set_lifecycle_post (s : Filer) (a : Sim) (bucket xml : string) (r : option error) (s' : Filer) : Prop :=
  only_lifecycle bucket s s' /\
  (s' = s /\ other_error r \/
   let x := sim_bucket (SetBucketLifecycle bucket xml) a in r = x.2 /\ same_lifecycles s' x.1).
Lemma update_entry_wp s a bucket xml e m :
  same_lifecycles s a -> f_entries s !! bucket = Some e ->
  default "" (m !! bucketLifecycleConfigurationXMLKey) = xml ->
  (forall k, k <> bucketLifecycleConfigurationXMLKey -> m !! k = Extended e !! k) ->
  wp filer_env (update_entry (f_dir s) bucket (with_extended m e)) (set_lifecycle_post s a bucket xml) s.
Proof.
  intros Hs He Hm Hk. pose proof (same_lifecycle_at s a bucket Hs) as Hb. rewrite He in Hb. destruct Hb as (x & Hx & _).
  unfold update_entry. intros r s1 [[-> [err ->]]|[-> Hs1]]; cbn [bind wp call].
  - split; [apply only_lifecycle_refl|]. left. split; [done|by eexists].
  - specialize (Hs1 eq_refl). subst s1. split.
    + split; [done|]. split; [done|]. intros b'. cbn. destruct (decide (b' = bucket)) as [->|Hne].
      * rewrite He, lookup_insert_eq. split; [done|]. intros k [?|?]; [done|]. by apply Hk.
      * rewrite lookup_insert_ne by done. by destruct (f_entries s !! b').
    + right. cbn. unfold with_bucket. rewrite Hx. cbn. split; [done|]. intros b'. cbn.
      destruct (decide (b' = bucket)) as [->|Hne].
      * rewrite !lookup_insert_eq. cbn. unfold lifecycle_of. cbn. by rewrite Hm.
      * rewrite !lookup_insert_ne by done. apply Hs.
Qed.
Lemma set_lifecycle_wp s a bucket xml :
  same_lifecycles s a ->
  wp filer_env (a_SetBucketLifecycle bucket xml) (set_lifecycle_post s a bucket xml) s.
Proof.
  intros Hs. pose proof (same_lifecycle_at s a bucket Hs) as Hb. unfold a_SetBucketLifecycle, sa_SetBucketLifecycle.
  eapply wp_seq with (R := set_lifecycle_post s a bucket xml).
  2: { intros r s1 Hr. cbn. by destruct r as [[]|]. }
  apply dial_wp.
  { intros text. split; [apply only_lifecycle_refl|]. left. split; [done|by eexists]. }
  eapply wp_seq; [apply lookupBucketEntry_wp|]. intros [err|[e dir]] s1 [-> Hr]; cbn [wp].
  - split; [apply only_lifecycle_refl|]. destruct Hr as [[-> Hn]|[text ->]]; [|left; split; [done|by eexists]].
    right. cbn. unfold with_bucket. rewrite Hn in Hb. rewrite Hb. by split.
  - destruct Hr as [-> He]. case_bool_decide as Hx.
    + subst xml. destruct (Extended e !! _) as [old|] eqn:Hold.
      * apply update_entry_wp; [done|done|by rewrite lookup_delete_eq|]. intros k Hk. by rewrite lookup_delete_ne.
      * cbn. split; [apply only_lifecycle_refl|]. right. cbn. rewrite He in Hb. destruct Hb as (x & Hx & Hl).
        unfold with_bucket. rewrite Hx. split; [done|]. intros b'. cbn. destruct (decide (b' = bucket)) as [->|Hne].
        -- rewrite lookup_insert_eq, He. cbn. unfold lifecycle_of. by rewrite Hold.
        -- rewrite lookup_insert_ne by done. apply Hs.
    + apply update_entry_wp; [done|done|by rewrite lookup_insert_eq|]. intros k Hk. by rewrite lookup_insert_ne.
Qed.

(** C38. Over a filer, whose calls may fail, the lifecycle operations of the bucket
    admin do what their interface says.  A read gives the stored configuration, empty
    for none, and "bucket not found" exactly when there is no entry, or fails with
    another error; a write stores the configuration, removes it when it is empty, and
    without an error so does every later read see it; whatever happens, nothing else
    of the entry, no other bucket and no configuration of the filer is touched. *)
Theorem lifecycle_admin_refines s a bucket xml :
  same_lifecycles s a ->
  (forall s' r, exec filer_env (a_GetBucketLifecycle bucket) s s' r ->
     s' = s /\ (r = (sim_bucket (GetBucketLifecycle bucket) a).2 \/ exists text, r = Err (ErrOther text))) /\
  (forall s' r, exec filer_env (a_SetBucketLifecycle bucket xml) s s' r ->
     only_lifecycle bucket s s' /\
     (s' = s /\ other_error r \/
      let x := sim_bucket (SetBucketLifecycle bucket xml) a in r = x.2 /\ same_lifecycles s' x.1)).
Proof.
  intros Hs. split; intros s' r Hx.
  - exact (proj1 (wp_exec _ _ _ _) (get_lifecycle_wp s a bucket Hs) s' r Hx).
  - exact (proj1 (wp_exec _ _ _ _) (set_lifecycle_wp s a bucket xml Hs) s' r Hx).
Qed.
End spec.

(** ** The TTLs of older versions *)
(** What is relied on of package filer: deleting a location takes its TTL away and no
    other, and what is printed is read back. *)
Class FilerConfLaws `{FilerConf} := {
  delete_location p fc b : GetCollectionTtls (DeleteLocationConf p fc) b = delete p (GetCollectionTtls fc b);
  print_parse fc text : ToText fc = inr text ->
    exists fc', LoadFromBytes text = inr fc' /\ forall b, GetCollectionTtls fc' b = GetCollectionTtls fc b;
}.
Section ttls.
Context `{FilerConfLaws} (order : gmap string string -> list (string * string)).
Context (Horder : forall m, order m ≡ₚ map_to_list m).
#[local] Set Default Proof Using "Type*".
(** The prefix of a location with a TTL in days under the bucket. *)
Definition stale_in (fc : Conf) (dir bucket p : string) : Prop :=
  exists ttl, GetCollectionTtls fc bucket !! p = Some ttl /\ stale (dir +:+ "/" +:+ bucket +:+ "/") (p, ttl) = true.
Lemma elem_of_stale_prefixes fc dir bucket p :
  p ∈ staleTTLPrefixes (order (GetCollectionTtls fc bucket)) (dir +:+ "/" +:+ bucket +:+ "/") <->
  stale_in fc dir bucket p.
Proof.
  unfold staleTTLPrefixes, stale_in. rewrite list_elem_of_fmap. split.
  - intros ([q ttl] & -> & Hin). rewrite list_elem_of_In, filter_In, <-list_elem_of_In, Horder in Hin.
    destruct Hin as [Hin Hs]. apply elem_of_map_to_list in Hin. by exists ttl.
  - intros (ttl & Hl & Hs). exists (p, ttl). split; [done|].
    rewrite list_elem_of_In, filter_In, <-list_elem_of_In, Horder. split; [by apply elem_of_map_to_list|done].
Qed.
Lemma delete_locations fc b ps p :
  GetCollectionTtls (foldl (fun fc p => DeleteLocationConf p fc) fc ps) b !! p =
  if decide (p ∈ ps) then None else GetCollectionTtls fc b !! p.
Proof using H0.
  revert fc. induction ps as [|q ps IH]; intros fc; cbn [foldl]; [by rewrite decide_False by apply not_elem_of_nil|].
  rewrite IH, delete_location. destruct (decide (p ∈ ps)) as [Hp|Hp].
  - rewrite decide_True; [done|by right].
  - destruct (decide (p = q)) as [->|Hne].
    + rewrite lookup_delete_eq, decide_True; [done|by left].
    + rewrite lookup_delete_ne by done. rewrite decide_False; [done|]. by intros [?|?]%elem_of_cons.
Qed.
(** [text'] configures what [text] does but for the stale locations of the bucket. *)
Definition cleared (dir bucket text text' : string) : Prop :=
  exists fc fc', LoadFromBytes text = inr fc /\ LoadFromBytes text' = inr fc' /\
    (forall p, ~ stale_in fc' dir bucket p) /\
    forall b p, ~ stale_in fc dir bucket p -> GetCollectionTtls fc' b !! p = GetCollectionTtls fc b !! p.
(** Without an error, the clearing of the legacy TTLs leaves a filer.conf, if there
    is one, with no TTL in days under the bucket, and with every other location, of
    this bucket and of all others, as it was; it writes only when there was such a
    TTL, and whatever fails, the entries of the filer are not touched. *)
Theorem legacy_ttls_cleared s s' r bucket :
  exec filer_env (a_ClearLegacyBucketTTLs order bucket) s s' r ->
  f_entries s' = f_entries s /\ f_dir s' = f_dir s /\
  (r <> None -> s' = s) /\
  (r = None -> match f_conf s with
    | None => s' = s
    | Some text => exists text', f_conf s' = Some text' /\ cleared (f_dir s) bucket text text' /\
        (forall fc, LoadFromBytes text = inr fc -> (forall p, ~ stale_in fc (f_dir s) bucket p) -> s' = s)
    end).
Proof.
  revert s' r. apply wp_exec. unfold a_ClearLegacyBucketTTLs, sa_ClearLegacyBucketTTLs.
  apply dial_wp; [done|]. intros r s1 [-> [->|(e & -> & _)]]; cbn [bind wp call]; [|done].
  unfold clearLegacyBucketTTLs. intros r s1 [-> Hr]. cbn [bind wp].
  destruct Hr as [Hr|(e & -> & He)]; [|by rewrite He].
  destruct (f_conf s) as [text|] eqn:Hc; [subst r|destruct Hr as (e & -> & He); by rewrite He].
  destruct (LoadFromBytes text) as [err|fc] eqn:Hload; [done|].
  destruct (staleTTLPrefixes _ _) as [|p ps] eqn:Hps.
  - assert (Hno : forall p, ~ stale_in fc (f_dir s) bucket p).
    { intros p Hp. apply elem_of_stale_prefixes in Hp. rewrite Hps in Hp. by apply elem_of_nil in Hp. }
    cbn. split_and!; [done..|]. intros _. exists text. split; [done|]. split; [|done].
    exists fc, fc. by split_and!.
  - destruct (ToText _) as [err|text'] eqn:Ht; [done|]. intros r s1 [[-> [err ->]]|[-> ->]]; cbn [bind wp call]; [done|].
    split_and!; [done..|]. intros _. exists text'. split; [done|]. split.
    + destruct (print_parse _ _ Ht) as (fc' & Hload' & Hsame). exists fc, fc'. split_and!; [done..| |].
      * intros q (ttl & Hq & Hst). rewrite Hsame, delete_locations in Hq. destruct (decide _) as [|Hn]; [done|].
        apply Hn. rewrite <-Hps. apply elem_of_stale_prefixes. by exists ttl.
      * intros b q Hq. rewrite Hsame, delete_locations, decide_False; [done|]. rewrite <-Hps.
        by rewrite elem_of_stale_prefixes.
    + intros fc0 Hfc0 Hno. exfalso. assert (fc0 = fc) as -> by congruence. apply (Hno p), elem_of_stale_prefixes.
      rewrite Hps. by left.
Qed.
End ttls.

(** ** Evaluations *)
(** A filer.conf of at most one location, with the TTL 7d. *)
#[local] Instance one_location : FilerConf := {|
  Conf := string; LoadFromBytes := inr;
  GetCollectionTtls c _ := if bool_decide (c = "") then ∅ else {[ c := "7d" ]};
  DeleteLocationConf p c := if bool_decide (p = c) then "" else c;
  ToText := inr; ErrNotFound_text := "filer: no entry is found in filer store";
  DirectoryEtcSeaweedFS := "/etc/seaweedfs"; FilerConfName := "filer.conf" |}.
#[local] Instance one_location_laws : FilerConfLaws.
Proof.
  split.
  - intros p fc b. cbn. destruct (decide (p = fc)) as [->|Hne].
    + rewrite (bool_decide_true (fc = fc)) by done. destruct (decide (fc = "")) as [->|Hf]; [done|].
      rewrite (bool_decide_false (fc = "")) by done. by rewrite delete_singleton_eq.
    + rewrite (bool_decide_false (p = fc)) by done. destruct (decide (fc = "")) as [->|Hf]; [done|].
      rewrite (bool_decide_false (fc = "")) by done. by rewrite delete_singleton_ne.
  - intros fc text [= ->]. by exists text.
Qed.
Definition filer_step {X} (e : filerE X) (s : Filer) : Filer * X :=
  let gone := {| fe_text := "filer: no entry is found in filer store"; fe_not_found := true |} in
  match e in filerE X return Filer * X with
  | GetFilerConfiguration => (s, inr (f_dir s))
  | LookupDirectoryEntry _ name => (s, match f_entries s !! name with Some e => inr (Some e) | None => inl gone end)
  | UpdateEntry _ name e => ({| f_dir := f_dir s; f_entries := <[name := e]> (f_entries s); f_conf := f_conf s |}, None)
  | ReadInsideFiler _ _ => (s, match f_conf s with Some text => inr text | None => inl gone end)
  | SaveInsideFiler _ _ text => ({| f_dir := f_dir s; f_entries := f_entries s; f_conf := Some text |}, None)
  | DialFiler => (s, None)
  end.
Definition filer_handler : Handler filerE Filer := fun X e s => filer_step e s.
Lemma filer_handler_refines : refines filer_handler filer_env.
Proof.
  intros X [] s; cbn; try (by left); try (by right); try (split; [done|]; by left).
  - split; [done|]. intros _. left. destruct (f_entries s !! name); [done|]. right. by eexists.
  - split; [done|]. left. destruct (f_conf s); [done|]. by eexists.
Qed.
Definition sample_filer (conf : option string) : Filer := {|
  f_dir := "/buckets";
  f_entries := {[ "data" := {| Extended := {[ "x-quota" := "5" ]}; entry_rest := "dir" |} ]}; f_conf := conf |}.
Definition sample_buckets : Sim := set_buckets {[ "data" := mk_bucket "" false "" None ∅ "" ]} sim_empty.
Definition extended_of (s : Filer) (b : string) : option (gmap string string) := Extended <$> f_entries s !! b.

Lemma lifecycle_admin_refines_witness :
  let s := sample_filer None in
  let x := run filer_handler (a_SetBucketLifecycle "data" "<L/>") s in
  extended_of x.1 "data" = Some {[ "x-quota" := "5"; bucketLifecycleConfigurationXMLKey := "<L/>" ]} /\ x.2 = None /\
  (run filer_handler (a_GetBucketLifecycle "data") x.1).2 = Ok "<L/>" /\
  only_lifecycle "data" s x.1.
Proof.
  intros s x. do 3 (split; [by vm_compute|]).
  assert (Hs : same_lifecycles s sample_buckets).
  { intros b. unfold s, sample_filer, sample_buckets. cbn. destruct (decide (b = "data")) as [->|Hne]; [by vm_compute|].
    by rewrite !lookup_singleton_ne. }
  apply (lifecycle_admin_refines s sample_buckets "data" "<L/>" Hs) with (r := x.2).
  exact (run_exec _ filer_handler _ s filer_handler_refines).
Defined.
Lemma legacy_ttls_cleared_witness :
  let run c := run filer_handler (a_ClearLegacyBucketTTLs map_to_list "data") (sample_filer (Some c)) in
  f_conf (run "/buckets/data/old/").1 = Some "" /\ f_conf (run "/buckets/dat/old/").1 = Some "/buckets/dat/old/" /\
  exists text', f_conf (run "/buckets/data/old/").1 = Some text' /\
    cleared "/buckets" "data" "/buckets/data/old/" text'.
Proof.
  intros go. split; [by vm_compute|]. split; [by vm_compute|].
  destruct (legacy_ttls_cleared map_to_list (fun _ => reflexivity _) (sample_filer (Some "/buckets/data/old/"))
    (go "/buckets/data/old/").1 (go "/buckets/data/old/").2 "data") as (_ & _ & _ & Hr).
  - exact (run_exec _ filer_handler _ _ filer_handler_refines).
  - destruct Hr as (text' & Hf & Hc & _); [vm_compute; reflexivity|]. exists text'. split; [exact Hf|exact Hc].
Defined.

(** The entry is written back as it was read: an attribute that another client sets
    in between, the versioning of the bucket for example, is lost. *)
Definition racing_filer (key value : string) : Handler filerE Filer := fun X e s =>
  let '(s1, x) := filer_step e s in
  (match e with
   | LookupDirectoryEntry _ name =>
       match f_entries s1 !! name with
       | Some en => {| f_dir := f_dir s1; f_conf := f_conf s1;
                       f_entries := <[name := with_extended (<[key := value]> (Extended en)) en]> (f_entries s1) |}
       | None => s1
       end
   | _ => s1
   end, x).
Theorem concurrent_attribute_lost :
  let x := run (racing_filer "x-versioning" "Enabled") (a_SetBucketLifecycle "data" "<L/>") (sample_filer None) in
  x.2 = None /\ extended_of x.1 "data" = Some {[ "x-quota" := "5"; bucketLifecycleConfigurationXMLKey := "<L/>" ]}.
Proof. by vm_compute. Qed.
