(* ===== verification/VolumeAdmin.v ===== *)
(** * The volume admin (volume_admin.go, swadmin/seaweed_admin.go)

    What the scale-down of volume servers asks of a cluster: how many volumes each
    server holds, totalled from the topology the master reports, and the evacuation of
    a server, a command of the shell that runs under the masters' lock. *)
From Stdlib Require Import Ascii.
From S2P Require Import Prelude Prog CoreTypes ApiTypes Effects IamClient BucketAdmin.

(** ** Counting volumes

    [master_pb.TopologyInfo] as far as it is read: the ids of the volumes and EC
    volumes on every disk of every server. *)
Record DiskInfo := { VolumeInfos : list Z; EcShardInfos : list Z }.
Record DataNodeInfo := { dn_Id : string; DiskInfos : list DiskInfo }.
Record RackInfo := { DataNodeInfos : list DataNodeInfo }.
Record DataCenterInfo := { RackInfos : list RackInfo }.
Record TopologyInfo := { DataCenterInfos : list DataCenterInfo }.

Definition node_volumes (dn : DataNodeInfo) : Z :=
  foldl (fun n disk => n + Z.of_nat (length (VolumeInfos disk)) + Z.of_nat (length (EcShardInfos disk)))%Z 0%Z (DiskInfos dn).
Definition count_node (counts : gmap string Z) (dn : DataNodeInfo) : gmap string Z :=
  <[dn_Id dn := node_volumes dn]> counts.
Definition topology_counts (topo : TopologyInfo) : gmap string Z :=
  foldl (fun counts dc =>
    foldl (fun counts rack => foldl count_node counts (DataNodeInfos rack)) counts (RackInfos dc))
    ∅ (DataCenterInfos topo).

Definition nodes (topo : TopologyInfo) : list DataNodeInfo :=
  flat_map (fun dc => flat_map DataNodeInfos (RackInfos dc)) (DataCenterInfos topo).
Lemma foldl_flat_map {A B C} (f : C -> B -> C) (g : A -> list B) (l : list A) c :
  foldl f c (flat_map g l) = foldl (fun c a => foldl f c (g a)) c l.
Proof. revert c. induction l as [|a l IH]; intros c; cbn [flat_map foldl]; [done|]. by rewrite foldl_app, IH. Qed.
Lemma counts_of_nodes topo : topology_counts topo = foldl count_node ∅ (nodes topo).
Proof.
  unfold topology_counts, nodes. rewrite foldl_flat_map. generalize (∅ : gmap string Z).
  induction (DataCenterInfos topo) as [|dc l IH]; intros m; cbn [foldl]; [done|]. by rewrite foldl_flat_map, IH.
Qed.
Lemma foldl_count_node l m id :
  NoDup (map dn_Id l) ->
  foldl count_node m l !! id = match List.find (fun dn => bool_decide (dn_Id dn = id)) l with
                               | Some dn => Some (node_volumes dn)
                               | None => m !! id
                               end.
Proof.
  revert m. induction l as [|dn l IH]; intros m Hnd; cbn [foldl map List.find]; [done|]. apply NoDup_cons in Hnd as [Hn Hnd].
  rewrite IH by done. unfold count_node. case_bool_decide as Hid.
  - destruct (List.find _ l) as [dn'|] eqn:Hf; [|by rewrite Hid, lookup_insert_eq].
    apply find_some in Hf as [Hin Heq%bool_decide_eq_true]. exfalso. apply Hn. rewrite Hid, <-Heq.
    by apply (list_elem_of_fmap_2 dn_Id), list_elem_of_In.
  - by rewrite lookup_insert_ne.
Qed.
(** Nothing on any of the disks of a server. *)
Definition holds_nothing (dn : DataNodeInfo) : Prop :=
  forall disk, disk ∈ DiskInfos dn -> VolumeInfos disk = [] /\ EcShardInfos disk = [].
Lemma node_volumes_empty dn : node_volumes dn = 0%Z <-> holds_nothing dn.
Proof.
  unfold node_volumes, holds_nothing.
  cut (forall l n, (0 <= n)%Z ->
    (n <= foldl (fun n disk => n + Z.of_nat (length (VolumeInfos disk)) + Z.of_nat (length (EcShardInfos disk))) n l)%Z /\
    (foldl (fun n disk => n + Z.of_nat (length (VolumeInfos disk)) + Z.of_nat (length (EcShardInfos disk)))%Z n l = n <->
     forall disk, disk ∈ l -> VolumeInfos disk = [] /\ EcShardInfos disk = [])).
  { intros H. by apply H. }
  induction l as [|d l IH]; intros n Hn; cbn [foldl].
  - split; [lia|]. split; [|done]. by intros _ disk ?%elem_of_nil.
  - destruct (IH (n + Z.of_nat (length (VolumeInfos d)) + Z.of_nat (length (EcShardInfos d)))%Z) as [Hle Hiff]; [lia|].
    split; [lia|]. split.
    + intros Heq. rewrite Heq in Hle. assert (Hv : length (VolumeInfos d) = 0 /\ length (EcShardInfos d) = 0) by lia.
      destruct Hv as [Hv%nil_length_inv He%nil_length_inv].
      intros disk [->|Hin]%elem_of_cons; [done|]. apply Hiff; [|done]. rewrite Heq, Hv, He. cbn. lia.
    + intros Hall. destruct (Hall d) as [Hv He]; [by left|]. rewrite Hv, He in *. cbn [length] in *.
      rewrite !Z.add_0_r in *. apply Hiff. intros disk Hin. apply Hall. by right.
Qed.
(** With distinct server ids, the counts know exactly the servers of the topology, and
    a server is reported empty exactly when none of its disks holds anything: a server
    that is not registered is never taken for an empty one. *)
Theorem volume_counts_exact topo :
  NoDup (map dn_Id (nodes topo)) ->
  (forall id, is_Some (topology_counts topo !! id) <-> exists dn, dn ∈ nodes topo /\ dn_Id dn = id) /\
  (forall dn, dn ∈ nodes topo -> topology_counts topo !! dn_Id dn = Some (node_volumes dn)) /\
  (forall dn, dn ∈ nodes topo -> topology_counts topo !! dn_Id dn = Some 0%Z <-> holds_nothing dn).
Proof.
  intros Hnd. rewrite counts_of_nodes.
  assert (Hat : forall dn, dn ∈ nodes topo -> foldl count_node ∅ (nodes topo) !! dn_Id dn = Some (node_volumes dn)).
  { intros dn Hin. rewrite foldl_count_node by done. destruct (List.find _ _) as [dn'|] eqn:Hf.
    - apply find_some in Hf as [Hin'%list_elem_of_In Heq%bool_decide_eq_true]. f_equal. f_equal.
      apply list_elem_of_lookup in Hin as [i Hi]. apply list_elem_of_lookup in Hin' as [j Hj].
      assert (i = j) as ->; [|congruence].
      eapply (NoDup_lookup (map dn_Id (nodes topo))); [done|by apply list_lookup_fmap_Some_2|].
      rewrite <-Heq. by apply list_lookup_fmap_Some_2.
    - apply list_elem_of_In in Hin. apply (find_none _ _ Hf) in Hin. by rewrite bool_decide_true in Hin. }
  split_and!; [|done|].
  - intros id. rewrite foldl_count_node by done. split.
    + destruct (List.find _ _) as [dn|] eqn:Hf; [|by intros [? ?]]. intros _. exists dn.
      by apply find_some in Hf as [Hin%list_elem_of_In Heq%bool_decide_eq_true].
    + intros (dn & Hin & <-). rewrite <-foldl_count_node by done. rewrite Hat by done. by eexists.
  - intros dn Hin. rewrite Hat, <-node_volumes_empty by done. split; [by intros [= ->]|by intros ->].
Qed.

(** ** Evacuation *)
Section evacuate.
Context (Commands : list string).
(** The commands share one output buffer; the unlock is deferred. *)
Definition a_EvacuateServer (node : string) : shell (option error) :=
  do r <- ProcessCommand Commands "lock";
  let '(out, err) := r in
  match err with
  | Some err => Ret (Some (ErrOther ("lock masters: " +:+ err)))
  | None =>
      do r <- ProcessCommand Commands ("volumeServer.evacuate -node " +:+ node +:+ " -apply");
      do _ <- ProcessCommand Commands "unlock";
      Ret (match r.2 with
           | Some err => Some (ErrOther ("evacuate " +:+ node +:+ ": " +:+ err +:+ " (output: " +:+
                           TrimSpace (out +:+ r.1) +:+ ")"))
           | None => None
           end)
  end.

(** What the shell was asked to do, with its answers; every command waits for a master
    first. *)
Inductive shell_event :=
| Master (connected : bool)
| Do (name : string) (args : list string) (answer : string * option string)
| OtherCall.
Definition shell_env : Env shellE (list shell_event) := fun X e tr x tr' =>
  match e in shellE X return X -> Prop with
  | GetMaster => fun c => tr' = tr ++ [Master c]
  | ShellDo name args => fun a => tr' = tr ++ [Do name args a]
  | SIam _ => fun _ => tr' = tr ++ [OtherCall]
  end x.
(** One command: it was run with this answer, or there was no master. *)
Definition attempted (name : string) (args : list string) (err : option string) (evs : list shell_event) : Prop :=
  evs = [Master false] /\ err <> None \/ exists out, evs = [Master true; Do name args (out, err)].
Lemma do_command_wp name args tr :
  wp shell_env (do_command name args) (fun r tr' => exists evs, tr' = tr ++ evs /\ attempted name args r.2 evs) tr.
Proof.
  unfold do_command. intros c s1 ->. destruct c; cbn.
  - intros [out err] s1 ->. rewrite <-app_assoc. eexists. split; [done|]. right. by eexists.
  - eexists. split; [done|]. by left.
Qed.

(** Whatever the shell and the masters answer, an evacuation is asked for only under
    the lock that was just taken, for the server that was named and without leave to
    skip what cannot be moved; once the lock is held the unlock is asked for last,
    whatever became of the evacuation; and there is no error exactly when the lock was
    granted and the evacuation itself reported success. *)
Theorem evacuation_locked node tr r :
  Forall (known Commands) ["lock"; "unlock"; "volumeServer.evacuate"] -> safe_word node ->
  exec shell_env (a_EvacuateServer node) [] tr r ->
  exists lock_evs lock_err, attempted "lock" [] lock_err lock_evs /\
    match lock_err with
    | Some _ => tr = lock_evs /\ r <> None
    | None => exists evs err unlock_evs unlock_err,
        tr = lock_evs ++ evs ++ unlock_evs /\
        attempted "volumeServer.evacuate" ["-node"; node; "-apply"] err evs /\
        attempted "unlock" [] unlock_err unlock_evs /\ (r = None <-> err = None)
    end.
Proof.
  rewrite !Forall_cons. intros (Hl & Hu & He & _) Hn. revert tr r. apply wp_exec.
  assert (Hrun : forall line c ws, line = Join (c :: ws) " " -> known Commands c -> safe_word c ->
    Forall safe_word ws -> ProcessCommand Commands line = do_command c ws).
  { intros line c ws -> Hc Hsc Hw. apply run_words; [done|by constructor]. }
  unfold a_EvacuateServer.
  rewrite (Hrun "lock" "lock" []), (Hrun "unlock" "unlock" []), (Hrun _ "volumeServer.evacuate" ["-node"; node; "-apply"]);
    try done; try (by apply (bool_decide_unpack _)).
  2: { repeat (apply Forall_cons; split); try done; by apply (bool_decide_unpack _). }
  eapply wp_seq; [apply do_command_wp|]. intros [out lerr] s1 (levs & -> & Hlock). cbn [snd] in Hlock.
  destruct lerr as [e|].
  - exists levs, (Some e). by split_and!.
  - eapply wp_seq; [apply do_command_wp|]. intros [out2 err] s2 (evs & -> & Hev). cbn [snd fst] in *.
    eapply wp_seq; [apply do_command_wp|]. intros [out3 uerr] s3 (uevs & -> & Hun). cbn [wp snd] in *.
    exists levs, None. split; [done|]. exists evs, err, uevs, uerr. split; [by rewrite <-app_assoc|].
    split_and!; [done..|]. by destruct err.
Qed.
End evacuate.

(** ** Evaluations *)
(** A shell in which everything succeeds but the evacuation. *)
Definition failing_shell : Handler shellE (list shell_event) := fun X e tr =>
  match e in shellE X return list shell_event * X with
  | GetMaster => (tr ++ [Master true], true)
  | ShellDo name args =>
      let a := ("", if bool_decide (name = "volumeServer.evacuate") then Some "no destination" else None) in
      (tr ++ [Do name args a], a)
  | SIam e => (tr ++ [OtherCall],
      match e in rpcE X return X with
      | Lock _ => 0 | Unlock _ => tt | RGetUser _ => inr None | RGetPolicy _ => inr "" | _ => None
      end)
  end.
Lemma failing_shell_refines : refines failing_shell shell_env.
Proof. by intros X [] s. Qed.
Lemma evacuation_locked_witness :
  let Commands := ["lock"; "unlock"; "volumeServer.evacuate"] in
  let x := run failing_shell (a_EvacuateServer Commands "v-1:8444") [] in
  x.2 = Some (ErrOther "evacuate v-1:8444: no destination (output: )") /\
  last x.1 = Some (Do "unlock" [] ("", None)) /\
  exists lock_evs lock_err, attempted "lock" [] lock_err lock_evs /\
    match lock_err with
    | Some _ => x.1 = lock_evs /\ x.2 <> None
    | None => exists evs err unlock_evs unlock_err,
        x.1 = lock_evs ++ evs ++ unlock_evs /\
        attempted "volumeServer.evacuate" ["-node"; "v-1:8444"; "-apply"] err evs /\
        attempted "unlock" [] unlock_err unlock_evs /\ (x.2 = None <-> err = None)
    end.
Proof.
  intros Commands x. split; [by vm_compute|]. split; [by vm_compute|].
  apply (evacuation_locked Commands "v-1:8444" x.1 x.2).
  - repeat (apply Forall_cons; split; [split; [by apply (bool_decide_unpack _)|by apply (bool_decide_unpack _)]|]).
    by apply Forall_nil.
  - by apply (bool_decide_unpack _).
  - exact (run_exec _ failing_shell _ [] failing_shell_refines).
Defined.
