(* ===== verification/AdminCache.v ===== *)
(** * The cache of IAM admins (iam_controller_common.go)

    The IAM reconcilers share the admins they build, one for each filer and its
    credentials.  A cached admin is found again by a key that folds in fingerprints of
    the signing key and of the TLS material; here it is shown that what is found is
    always what would be built for the target at hand, which is why the calls of the
    IAM reconcilers are modelled as calls on the target itself. *)
From Stdlib Require Import Ascii.
From S2P Require Import Prelude Prog CoreTypes ApiTypes Effects Machinery RefGrant Cluster.

Definition nul : string := String "000"%char EmptyString.
Section cache.
Context `{Digest} {Admin : Type}.
(** [AdminFactory], where it is configured. *)
Context (AdminFactory : option (string -> string -> DialOption -> error + Admin)).

Record iamAdminProvider := { cache : gmap string Admin }.
Definition cacheKey (target : filerTarget) : string :=
  address target +:+ nul +:+ signingKeyFingerprint (adminSigningKey target) +:+ nul +:+ tlsFingerprint target.
(** The mutex is held throughout: the calls come one after the other. *)
Definition getIAMAdmin (p : iamAdminProvider) (target : filerTarget) : iamAdminProvider * (error + Admin) :=
  match cache p !! cacheKey target with
  | Some a => (p, inr a)
  | None =>
      match AdminFactory with
      | None => (p, inl (ErrOther "iam admin factory is not configured"))
      | Some build =>
          match build (address target) (adminSigningKey target) (grpcDialOption target) with
          | inl err => (p, inl err)
          | inr a => ({| cache := <[cacheKey target := a]> (cache p) |}, inr a)
          end
      end
  end.
Fixpoint getIAMAdmins (p : iamAdminProvider) (targets : list filerTarget) : iamAdminProvider * list (error + Admin) :=
  match targets with
  | [] => (p, [])
  | t :: targets =>
      let '(p, a) := getIAMAdmin p t in
      let '(p, rest) := getIAMAdmins p targets in (p, a :: rest)
  end.

(** What is built without the cache. *)
Definition build_for (target : filerTarget) : error + Admin :=
  match AdminFactory with
  | None => inl (ErrOther "iam admin factory is not configured")
  | Some build => build (address target) (adminSigningKey target) (grpcDialOption target)
  end.
End cache.
Arguments iamAdminProvider : clear implicits.
Definition empty_provider {Admin} : iamAdminProvider Admin := {| cache := ∅ |}.

(** ** The keys of the cache *)
Definition no_nul (s : string) : Prop := has_char "000" s = false.
Lemma Join_nul_inj l l' :
  l <> [] -> l' <> [] -> Forall no_nul l -> Forall no_nul l' -> Join l nul = Join l' nul -> l = l'.
Proof.
  intros Hl Hl' Hn Hn' Heq. rewrite <-(Split_Join l "000"), <-(Split_Join l' "000") by done.
  change (String "000" "") with nul. by rewrite Heq.
Qed.
Lemma hex_digit_inj m n : m < 16 -> n < 16 -> hex_digit m = hex_digit n -> m = n.
Proof.
  intros Hm Hn Heq. apply (f_equal nat_of_ascii) in Heq. unfold hex_digit in Heq.
  revert Heq. destruct (Nat.ltb_spec m 10), (Nat.ltb_spec n 10); rewrite !nat_ascii_embedding by lia; lia.
Qed.
Lemma hex_digit_not_nul n : n < 16 -> Ascii.eqb (hex_digit n) "000" = false.
Proof.
  intros Hn. apply Ascii.eqb_neq. intros Heq. apply (f_equal nat_of_ascii) in Heq. unfold hex_digit in Heq.
  revert Heq. change (nat_of_ascii "000") with 0. destruct (n <? 10); rewrite nat_ascii_embedding by lia; lia.
Qed.
Lemma ascii_halves c : nat_of_ascii c / 16 < 16 /\ nat_of_ascii c mod 16 < 16.
Proof.
  pose proof (nat_ascii_bounded c). split; [apply Nat.Div0.div_lt_upper_bound; lia|by apply Nat.mod_upper_bound].
Qed.
Lemma hex_string_inj s s' : hex_string s = hex_string s' -> s = s'.
Proof.
  revert s'. induction s as [|c s IH]; intros [|c' s']; cbn [hex_string]; try done. intros [= H1 H2 Hs].
  destruct (ascii_halves c), (ascii_halves c'). apply hex_digit_inj in H1, H2; try done.
  change (nat_of_ascii c / 16 = nat_of_ascii c' / 16) in H1. change (nat_of_ascii c mod 16 = nat_of_ascii c' mod 16) in H2.
  f_equal; [|by apply IH]. rewrite <-(ascii_nat_embedding c), <-(ascii_nat_embedding c'). f_equal.
  pose proof (Nat.div_mod_eq (nat_of_ascii c) 16). pose proof (Nat.div_mod_eq (nat_of_ascii c') 16). lia.
Qed.
Lemma hex_string_no_nul s : no_nul (hex_string s).
Proof.
  unfold no_nul. induction s as [|c s IH]; [done|]. cbn [hex_string has_char]. destruct (ascii_halves c).
  by rewrite !hex_digit_not_nul, IH.
Qed.

Section targets.
Context `{Digest}.
#[local] Set Default Proof Using "Type*".
(** A target as [resolveSeaweedFiler] makes it, of an address and PEM texts without NUL. *)
Definition target_wf (t : filerTarget) : Prop :=
  no_nul (address t) /\
  match grpcDialOption t with
  | None => tlsFingerprint t = ""
  | Some (ca, cert, key) => Forall no_nul [ca; cert; key] /\ tlsFingerprint t = tlsMaterialFingerprint ca cert key
  end.
(** The texts that are hashed for a target. *)
Definition hashed (t : filerTarget) : list string :=
  (if bool_decide (adminSigningKey t = "") then [] else [adminSigningKey t]) ++
  match grpcDialOption t with None => [] | Some (ca, cert, key) => [Join [ca; cert; key] nul] end.
(** No two texts at hand have digests that agree on the 8 bytes that are kept. *)
Definition collision_free (ts : list filerTarget) : Prop :=
  (forall x, x ∈ flat_map hashed ts -> str_take 8 (sha256 x) <> "") /\
  (forall x y, x ∈ flat_map hashed ts -> y ∈ flat_map hashed ts ->
     str_take 8 (sha256 x) = str_take 8 (sha256 y) -> x = y).

Lemma hashed_in ts t x : t ∈ ts -> x ∈ hashed t -> x ∈ flat_map hashed ts.
Proof. rewrite !list_elem_of_In. intros Ht Hx. apply in_flat_map. by exists t. Qed.
Lemma hex_string_empty s : hex_string s = "" -> s = "".
Proof. by destruct s. Qed.
Lemma signing_fingerprint_inj ts t t' :
  collision_free ts -> t ∈ ts -> t' ∈ ts ->
  signingKeyFingerprint (adminSigningKey t) = signingKeyFingerprint (adminSigningKey t') ->
  adminSigningKey t = adminSigningKey t'.
Proof.
  intros [Hne Hinj] Ht Ht' Heq. unfold signingKeyFingerprint in Heq.
  assert (Hin : forall t, t ∈ ts -> adminSigningKey t <> "" -> adminSigningKey t ∈ flat_map hashed ts).
  { intros u Hu Hn. apply (hashed_in ts u); [done|]. unfold hashed. rewrite bool_decide_false by done. by left. }
  do 2 case_bool_decide; [congruence| | |].
  - symmetry in Heq. apply hex_string_empty in Heq. by apply Hne in Heq; [|apply Hin].
  - apply hex_string_empty in Heq. by apply Hne in Heq; [|apply Hin].
  - apply hex_string_inj in Heq. apply Hinj; auto.
Qed.
Lemma tls_fingerprint_inj ts t t' :
  collision_free ts -> t ∈ ts -> t' ∈ ts -> target_wf t -> target_wf t' ->
  tlsFingerprint t = tlsFingerprint t' -> grpcDialOption t = grpcDialOption t'.
Proof.
  intros [Hne Hinj] Ht Ht' [_ Hw] [_ Hw'] Heq.
  assert (Hin : forall t ca cert key, t ∈ ts -> grpcDialOption t = Some (ca, cert, key) ->
    Join [ca; cert; key] nul ∈ flat_map hashed ts).
  { intros u ca cert key Hu Hd. apply (hashed_in ts u); [done|]. unfold hashed. rewrite Hd, elem_of_app. right. by left. }
  destruct (grpcDialOption t) as [[[ca cert] key]|] eqn:Hd, (grpcDialOption t') as [[[ca' cert'] key']|] eqn:Hd'; [| | |done].
  - destruct Hw as [Hn Hf], Hw' as [Hn' Hf']. rewrite Hf, Hf' in Heq. apply hex_string_inj in Heq.
    apply Hinj in Heq; [|exact (Hin t ca cert key Ht Hd)|exact (Hin t' ca' cert' key' Ht' Hd')]. by apply Join_nul_inj in Heq as [= -> -> ->].
  - destruct Hw as [_ Hf]. rewrite Hf, Hw' in Heq. apply hex_string_empty in Heq. exfalso.
    revert Heq. apply Hne. exact (Hin t ca cert key Ht Hd).
  - destruct Hw' as [_ Hf]. rewrite Hf, Hw in Heq. symmetry in Heq. apply hex_string_empty in Heq. exfalso.
    revert Heq. apply Hne. exact (Hin t' ca' cert' key' Ht' Hd').
Qed.
Lemma tls_fingerprint_no_nul t : target_wf t -> no_nul (tlsFingerprint t).
Proof.
  intros [_ Hw]. destruct (grpcDialOption t) as [[[ca cert] key]|]; [destruct Hw as [_ ->]; apply hex_string_no_nul|].
  by rewrite Hw.
Qed.
Lemma cacheKey_inj ts t t' :
  collision_free ts -> t ∈ ts -> t' ∈ ts -> target_wf t -> target_wf t' -> cacheKey t = cacheKey t' ->
  address t = address t' /\ adminSigningKey t = adminSigningKey t' /\ grpcDialOption t = grpcDialOption t'.
Proof.
  intros Hc Ht Ht' Hw Hw' Heq.
  assert (Hs : forall k, no_nul (signingKeyFingerprint k)).
  { intros k. unfold signingKeyFingerprint. case_bool_decide; [done|]. apply hex_string_no_nul. }
  assert (Hl : forall t, target_wf t -> Forall no_nul [address t; signingKeyFingerprint (adminSigningKey t); tlsFingerprint t]).
  { intros u Hu. repeat (apply Forall_cons; split); [apply Hu|apply Hs|by apply tls_fingerprint_no_nul|by apply Forall_nil]. }
  change (Join [address t; signingKeyFingerprint (adminSigningKey t); tlsFingerprint t] nul =
          Join [address t'; signingKeyFingerprint (adminSigningKey t'); tlsFingerprint t'] nul) in Heq.
  apply Join_nul_inj in Heq; [|done|done|by apply Hl|by apply Hl]. injection Heq as Ha Hk Hf. split; [done|].
  split; [by apply (signing_fingerprint_inj ts)|by apply (tls_fingerprint_inj ts)].
Qed.
End targets.

(** ** The cache is transparent *)
Section transparent.
Context `{Digest} {Admin : Type} (AdminFactory : option (string -> string -> DialOption -> error + Admin)).
#[local] Set Default Proof Using "Type*".
(** Every cached admin is the one built for a target of [ts] with its key. *)
Definition cache_ok (ts : list filerTarget) (p : iamAdminProvider Admin) : Prop :=
  forall k a, cache p !! k = Some a -> exists t, t ∈ ts /\ cacheKey t = k /\ build_for AdminFactory t = inr a.
Lemma getIAMAdmin_built ts p t :
  collision_free ts -> Forall target_wf ts -> t ∈ ts -> cache_ok ts p ->
  cache_ok ts (getIAMAdmin AdminFactory p t).1 /\ (getIAMAdmin AdminFactory p t).2 = build_for AdminFactory t.
Proof.
  intros Hc Hw Ht Hp. rewrite Forall_forall in Hw. unfold getIAMAdmin.
  destruct (cache p !! cacheKey t) as [a|] eqn:Hk; cbn.
  - split; [done|]. destruct (Hp _ _ Hk) as (t' & Ht' & Heq & <-).
    destruct (cacheKey_inj ts t' t) as (Ha & Hs & Hd); auto. unfold build_for. by rewrite Ha, Hs, Hd.
  - unfold build_for. destruct AdminFactory as [build|] eqn:Hf; [|done].
    destruct (build _ _ _) as [e|a] eqn:Hb; [done|]. cbn. split; [|done]. intros k a' Hl. cbn in Hl.
    apply lookup_insert_Some in Hl as [[<- <-]|[_ Hl]].
    + exists t. split; [done|]. split; [done|]. unfold build_for. by rewrite Hf.
    + by destruct (Hp k a' Hl) as (t' & ? & ? & ?); exists t'.
Qed.
(** C39. The cache is transparent: whatever targets the IAM reconcilers ask for, in
    whatever order, and whatever the factory answers, every one of them gets the admin
    that would be built for its own address, signing key and TLS material, or the
    error of that, as if there was no cache.  In particular a rotated key or a renewed
    certificate is never served by the admin of the old one.  The keys must not
    collide, which needs that the first 8 bytes of the digests of the texts at hand
    differ, and that no address holds the separator. *)
Theorem admin_cache_transparent ts :
  Forall target_wf ts -> collision_free ts ->
  (getIAMAdmins AdminFactory empty_provider ts).2 = map (build_for AdminFactory) ts.
Proof.
  intros Hw Hc. cut (forall l p, (forall t, t ∈ l -> t ∈ ts) -> cache_ok ts p ->
    (getIAMAdmins AdminFactory p l).2 = map (build_for AdminFactory) l).
  { intros Hl. apply Hl; [done|]. by intros k a. }
  induction l as [|t l IH]; intros p Hl Hp; cbn [getIAMAdmins map]; [done|].
  destruct (getIAMAdmin_built ts p t) as [Hp' Ha]; [done|done|by apply Hl; left|done|].
  destruct (getIAMAdmin AdminFactory p t) as [p' a]. cbn in Hp', Ha. subst a.
  specialize (IH p' (fun u Hu => Hl u (list_elem_of_further _ _ _ Hu)) Hp').
  destruct (getIAMAdmins AdminFactory p' l) as [p'' rest]. cbn in *. by rewrite IH.
Qed.
End transparent.

(** ** Evaluation *)
(** A digest that is injective on texts of up to 8 bytes. *)
#[local] Instance padded_digest : Digest := {| sha256 s := s +:+ "--------" |}.
Definition target_at (addr key : string) : filerTarget :=
  {| address := addr; adminSigningKey := key; grpcDialOption := None; tlsFingerprint := "" |}.
Definition named_factory : option (string -> string -> DialOption -> error + (string * string)) :=
  Some (fun addr key _ => if bool_decide (addr = "") then inl (ErrOther "no address") else inr (addr, key)).
Lemma admin_cache_transparent_witness :
  let ts := [target_at "f:1" "k1"; target_at "f:1" ""; target_at "" "k1"; target_at "f:1" "k2"; target_at "f:1" "k1"] in
  let x := getIAMAdmins named_factory empty_provider ts in
  size (cache x.1) = 3 /\ x.2 = map (build_for named_factory) ts.
Proof.
  intros ts x. split; [by vm_compute|]. apply (admin_cache_transparent named_factory ts).
  - repeat (apply Forall_cons; split; [by split|]). by apply Forall_nil.
  - split.
    + apply Forall_forall. by apply (bool_decide_unpack _).
    + cut (Forall (fun y => Forall (fun z => str_take 8 (sha256 y) = str_take 8 (sha256 z) -> y = z)
             (flat_map hashed ts)) (flat_map hashed ts)).
      { rewrite Forall_forall. intros Hf y z Hy Hz. specialize (Hf y Hy). rewrite Forall_forall in Hf. by apply Hf. }
      by apply (bool_decide_unpack _).
Defined.
