(* ===== verification/ClientTls.v ===== *)
(** * Transport credentials (swadmin/client_tls.go)

    The mutual TLS of the operator's connections to a cluster: the client presents the
    certificate of the cluster's server Secret and verifies the chain of the server, but
    not its name.  crypto/x509 is a parameter. *)
From S2P Require Import Prelude Prog CoreTypes ApiTypes Effects Machinery Trace Cluster.

(** ** crypto/x509 and crypto/tls *)
Class X509 := {
  Certificate : Type;
  KeyPair : Type;
  X509KeyPair : string -> string -> result KeyPair;
  (** The certificates in a PEM text. *)
  pem_certificates : string -> list Certificate;
  ParseCertificate : string -> result Certificate;
  (** [c.Verify(opts)]: roots, intermediates, host name and key usages. *)
  Verify : list Certificate -> list Certificate -> string -> list string -> Certificate -> option error;
  signed_by : Certificate -> Certificate -> Prop;
}.
(** A certificate that verifies has a chain of signatures through intermediates to a
    root. *)
Fixpoint chain_to `{X509} (roots intermediates : list Certificate) (c : Certificate) (chain : list Certificate) : Prop :=
  match chain with
  | [] => c ∈ roots
  | [root] => signed_by c root /\ root ∈ roots
  | issuer :: chain => signed_by c issuer /\ issuer ∈ intermediates /\ chain_to roots intermediates issuer chain
  end.
Class X509Laws `{X509} := {
  verify_chain roots intermediates name usages c :
    Verify roots intermediates name usages c = None -> exists chain, chain_to roots intermediates c chain;
}.

Definition ExtKeyUsageServerAuth : string := "ExtKeyUsageServerAuth".
Definition VersionTLS12 : Z := 771.

Section tls.
Context `{X509}.

Record Config := {
  tls_Certificates : list KeyPair;
  tls_MinVersion : Z;
  tls_InsecureSkipVerify : bool;
  tls_VerifyPeerCertificate : list string -> option error;
}.

(** [x509.CertPool]: [AppendCertsFromPEM] reports whether it found a certificate. *)
Definition AppendCertsFromPEM (pool : list Certificate) (pem : string) : list Certificate * bool :=
  (pool ++ pem_certificates pem, negb (Nat.eqb (length (pem_certificates pem)) 0)).

Fixpoint parse_certificates (rawCerts : list string) (certs : list Certificate) : result (list Certificate) :=
  match rawCerts with
  | [] => Ok certs
  | raw :: rawCerts =>
      match ParseCertificate raw with
      | inl err => Err (ErrOther ("parse server certificate: " +:+ error_string err))
      | inr c => parse_certificates rawCerts (certs ++ [c])
      end
  end.
Definition verifyChainOnly (roots : list Certificate) (rawCerts : list string) : option error :=
  if bool_decide (rawCerts = []) then Some (ErrOther "server presented no certificate")
  else
    match parse_certificates rawCerts [] with
    | inl err => Some err
    | inr (leaf :: intermediates) => Verify roots intermediates "" [ExtKeyUsageServerAuth] leaf
    | inr [] => None
    end.
Definition ClientTLSDialOption (ca cert key : string) : result Config :=
  match X509KeyPair cert key with
  | inl err => Err (ErrOther ("load client cert/key: " +:+ error_string err))
  | inr clientCert =>
      let '(roots, ok) := AppendCertsFromPEM [] ca in
      if negb ok then Err (ErrOther "no CA certificates parsed from ca.crt")
      else Ok {| tls_Certificates := [clientCert]; tls_MinVersion := VersionTLS12;
                 tls_InsecureSkipVerify := true; tls_VerifyPeerCertificate := verifyChainOnly roots |}
  end.

(** Whether a handshake goes on after the server's certificates: crypto/tls verifies the
    chain and the name itself, unless told not to, and then asks the callback. *)
Definition accepts_server (cfg : Config) (own_check : list string -> bool) (rawCerts : list string) : bool :=
  (tls_InsecureSkipVerify cfg || own_check rawCerts) && negb (bool_decide (is_Some (tls_VerifyPeerCertificate cfg rawCerts))).

Lemma parse_certificates_spec raws certs :
  match parse_certificates raws certs with
  | inr cs => exists new, cs = certs ++ new /\ Forall2 (fun raw c => ParseCertificate raw = Ok c) raws new
  | inl _ => Exists (fun raw => exists err, ParseCertificate raw = Err err) raws
  end.
Proof.
  revert certs; induction raws as [|raw raws IH]; intros certs; cbn [parse_certificates].
  - exists []. by rewrite app_nil_r.
  - destruct (ParseCertificate raw) as [err|c] eqn:Hp; [left; by exists err|].
    specialize (IH (certs ++ [c])). destruct (parse_certificates raws _) as [err|cs]; [by right|].
    destruct IH as (new & -> & Hn). exists (c :: new). rewrite <-app_assoc. split; [done|]. by constructor.
Qed.

(** The callback lets pass exactly what verifies as a server under the roots, with
    nothing asked of its name. *)
Lemma verifyChainOnly_spec roots raws :
  verifyChainOnly roots raws = None <->
  exists leaf rest, Forall2 (fun raw c => ParseCertificate raw = Ok c) raws (leaf :: rest) /\
    Verify roots rest "" [ExtKeyUsageServerAuth] leaf = None.
Proof.
  unfold verifyChainOnly. case_bool_decide as Hr.
  { subst. split; [done|]. intros (leaf & rest & Hp & _). by inv Hp. }
  pose proof (parse_certificates_spec raws []) as Hp. destruct (parse_certificates raws []) as [err|cs].
  - split; [done|]. intros (leaf & rest & Hall & _). exfalso. apply Exists_exists in Hp as (raw & Hin & e & He).
    apply list_elem_of_lookup in Hin as [i Hi].
    destruct (Forall2_lookup_l _ _ _ _ _ Hall Hi) as (c & _ & Hc). congruence.
  - destruct Hp as (new & -> & Hall). cbn [app]. destruct new as [|leaf rest].
    { by destruct raws; [|inv Hall]. }
    split; [by exists leaf, rest|]. intros (leaf' & rest' & Hall' & Hv).
    assert (leaf :: rest = leaf' :: rest') as [= -> ->]; [|done]. clear Hv Hr.
    revert Hall'. generalize (leaf' :: rest'). generalize dependent (leaf :: rest). intros new Hall.
    induction Hall as [|raw c raws new Hc Hall IH]; intros new' Hall'; inv Hall'; [done|].
    f_equal; [congruence|]. by apply IH.
Qed.
End tls.

(** C40. The credentials made of a CA and a key pair.  They are refused exactly when the
    pair does not load or the CA has no certificate.  Otherwise every connection
    presents that pair, and a handshake goes on exactly when the server presents
    certificates that all parse and whose first verifies as a server certificate under
    the CA's with the others as intermediates, whatever name was dialled and whatever
    the standard verification would say; in particular there is then a chain of
    signatures from it to a certificate of the CA. *)
Theorem dial_trusts_ca `{X509Laws} ca cert key :
  ((exists err, ClientTLSDialOption ca cert key = Err err) <->
   (exists err, X509KeyPair cert key = Err err) \/ pem_certificates ca = []) /\
  forall cfg, ClientTLSDialOption ca cert key = Ok cfg ->
    (exists pair, X509KeyPair cert key = Ok pair /\ tls_Certificates cfg = [pair]) /\
    forall own_check raws,
      (accepts_server cfg own_check raws = true <->
       exists leaf rest, Forall2 (fun raw c => ParseCertificate raw = Ok c) raws (leaf :: rest) /\
         Verify (pem_certificates ca) rest "" [ExtKeyUsageServerAuth] leaf = None) /\
      (accepts_server cfg own_check raws = true ->
       exists leaf rest chain, Forall2 (fun raw c => ParseCertificate raw = Ok c) raws (leaf :: rest) /\
         chain_to (pem_certificates ca) rest leaf chain).
Proof.
  unfold ClientTLSDialOption, AppendCertsFromPEM. cbn [app]. destruct (X509KeyPair cert key) as [err|pair].
  { split; [|done]. split; [intros _; left|intros _]; by eexists. }
  destruct (pem_certificates ca) as [|root roots] eqn:Hca; cbn [length Nat.eqb negb].
  { split; [|done]. split; [intros _; by right|intros _; by eexists]. }
  split. { split; [by intros [? ?]|]. by intros [[? ?]|?]. }
  intros cfg [= <-]. split; [by exists pair|]. intros own raws. unfold accepts_server. cbn.
  assert (Hiff : negb (bool_decide (is_Some (verifyChainOnly (root :: roots) raws))) = true <->
                 verifyChainOnly (root :: roots) raws = None).
  { rewrite negb_true_iff, bool_decide_eq_false. destruct (verifyChainOnly _ _) as [e|]; split; try done.
    intros []. by eexists. }
  rewrite Hiff, verifyChainOnly_spec. split; [done|].
  intros (leaf & rest & Hp & Hv). destruct (verify_chain _ _ _ _ _ Hv) as [chain Hc]. by exists leaf, rest, chain.
Qed.

(** ** The credentials of a cluster *)
(** What is dialled with for a cluster is made of the three parts of its server Secret, none of
    them empty; without the Secret, or with a part missing, the connection is
    plaintext. *)
Theorem cluster_dial `{Digest} sw tr r :
  exec trace_env (loadSeaweedGrpcDialOption sw) [] tr r ->
  forall d, r = Ok d -> forall ca cert key, d.1 = Some (ca, cert, key) ->
  tlsEnabled sw = true /\ ca <> "" /\ cert <> "" /\ key <> "" /\
  exists sec, saw_kube tr (KGet KSecret {| nn_Namespace := Namespace (sw_Meta sw); nn_Name := TLSServerSecretName sw |}) (Ok sec) /\
    sec_Data sec !! "ca.crt" = Some ca /\ sec_Data sec !! "tls.crt" = Some cert /\ sec_Data sec !! "tls.key" = Some key /\
    saw tr (ODialTLS ca cert key) None.
Proof.
  unfold loadSeaweedGrpcDialOption. destruct (tlsEnabled sw); cbn [negb]; [|by intros [_ ->] d [= <-]].
  intros (x & tr1 & -> & Hx) d -> ca cert key Hd. cbn [app bind call kube] in Hx.
  destruct x as [err|sec]; [by destruct (IsNotFound err); destruct Hx as [_ [= ->]]|].
  destruct (_ || _) eqn:Hne; [by destruct Hx as [_ [= ->]]|].
  rewrite !orb_false_iff, !bool_decide_eq_false in Hne. destruct Hne as [[Hca Hcert] Hkey].
  destruct Hx as (y & tr2 & -> & Hx). destruct y as [err|]; [by destruct Hx as [_ ?]|].
  destruct Hx as [-> [= ->]]. injection Hd as <- <- <-.
  assert (Hfield : forall f, secret_field sec f <> "" -> sec_Data sec !! f = Some (secret_field sec f)).
  { intros f. unfold secret_field. by destruct (sec_Data sec !! f). }
  split_and!; [done..|]. exists sec. split_and!; [|by apply Hfield..|].
  - apply saw_app_l. by left.
  - apply saw_last.
Qed.

(** ** Evaluations *)
(** Certificates by name, each with the name of its issuer. *)
#[local] Instance named_certificates : X509 := {|
  Certificate := string * string;
  KeyPair := string;
  X509KeyPair cert key := if bool_decide (cert = key) then Ok cert else Err (ErrOther "private key does not match public key");
  pem_certificates pem := if bool_decide (pem = "") then [] else [(pem, pem)];
  ParseCertificate raw := if bool_decide (raw = "server") then Ok ("server", "ca") else Err (ErrOther "malformed certificate");
  Verify roots _ name _ c := if bool_decide (c.2 ∈ map fst roots) then None else Some (ErrOther "unknown authority");
  signed_by c issuer := c.2 = issuer.1 |}.
#[local] Instance named_certificates_laws : X509Laws.
Proof.
  split. intros roots intermediates name usages [c issuer]. simpl. case_bool_decide as Hin; [|done]. intros _.
  apply list_elem_of_fmap in Hin as (root & Hr & Hin). by exists [root].
Qed.
Lemma dial_trusts_ca_witness :
  (exists err, (ClientTLSDialOption "ca" "me" "you" = Err err)) /\
  exists cfg, ClientTLSDialOption "ca" "me" "me" = Ok cfg /\
  accepts_server cfg (fun _ => false) ["server"] = true /\ accepts_server cfg (fun _ => true) ["client"] = false /\
  exists leaf rest chain, Forall2 (fun raw c => ParseCertificate raw = Ok c) ["server"] (leaf :: rest) /\
  chain_to [("ca", "ca")] rest leaf chain.
Proof.
  split. { apply (dial_trusts_ca "ca" "me" "you"). left. by eexists. }
  eexists. split; [reflexivity|]. split; [by vm_compute|]. split; [by vm_compute|].
  destruct (dial_trusts_ca "ca" "me" "me") as [_ Hd]. destruct (Hd _ eq_refl) as [_ Hh].
  apply (Hh (fun _ => false)). by vm_compute.
Defined.
