(* ===== verification/Probes.v ===== *)
(** * The probes for optional kinds (controller_tls.go, controller_util.go)

    Whether cert-manager and the Prometheus operator are installed is found out once per
    process and cached for all reconcilers, which run concurrently.  The models of the
    components take the cached result as a parameter; here is why they may, and what
    those see that read it before anyone has asked. *)
From S2P Require Import Prelude Prog CoreTypes ApiTypes Effects Machinery Trace Cluster Upsert.
From S2P Require Import SecurityConfig Component Certificates.
From S2P Require AdminScripts.

(** ** The caches

    A [sync.Once] with the value it guards; the read of the value does not wait for it. *)
Record cache := { asked : bool; available : bool }.
Record probes := { cert_manager_cache : cache; monitor_cache : cache }.
Definition unasked : cache := {| asked := false; available := false |}.
Definition fresh_process : probes := {| cert_manager_cache := unasked; monitor_cache := unasked |}.

Definition once_Do (c : cache) (probe : op bool) : op cache :=
  if asked c then Ret c else do a <- probe; Ret {| asked := true; available := a |}.
Definition certManagerAvailableCached (p : probes) : bool := available (cert_manager_cache p).
Definition certManagerCRDAvailable (p : probes) : op (probes * bool) :=
  do c <- once_Do (cert_manager_cache p) probeCertManagerCRD;
  Ret ({| cert_manager_cache := c; monitor_cache := monitor_cache p |}, available c).
Definition serviceMonitorCRDAvailable (p : probes) : op (probes * bool) :=
  do c <- once_Do (monitor_cache p) probeServiceMonitorCRD;
  Ret ({| cert_manager_cache := cert_manager_cache p; monitor_cache := c |}, available c).
Definition markServiceMonitorUnavailable (p : probes) : probes := {|
  cert_manager_cache := cert_manager_cache p;
  monitor_cache := {| asked := asked (monitor_cache p); available := false |} |}.

(** ** All uses, in the order the locks let them through *)
Inductive use := AskCertManager | ReadCertManager | AskMonitor | MarkMonitor.
Definition use_probes (u : use) (p : probes) : op (probes * bool) :=
  match u with
  | AskCertManager => certManagerCRDAvailable p
  | ReadCertManager => Ret (p, certManagerAvailableCached p)
  | AskMonitor => serviceMonitorCRDAvailable p
  | MarkMonitor => Ret (markServiceMonitorUnavailable p, false)
  end.
Fixpoint uses (l : list use) (p : probes) : op (list bool) :=
  match l with
  | [] => Ret []
  | u :: l => do r <- use_probes u p; do rest <- uses l r.1; Ret (r.2 :: rest)
  end.

(** What is known of the caches fixes the rest of the answers. *)
Lemma uses_known l p tr tr' bs :
  exec trace_env (uses l p) tr tr' bs ->
  length bs = length l /\
  (asked (cert_manager_cache p) = true -> forall i u b, l !! i = Some u -> bs !! i = Some b ->
     u = AskCertManager \/ u = ReadCertManager -> b = certManagerAvailableCached p) /\
  (asked (monitor_cache p) = true -> available (monitor_cache p) = false -> forall i b,
     l !! i = Some AskMonitor -> bs !! i = Some b -> b = false).
Proof.
  revert p tr bs; induction l as [|u l IH]; intros p tr bs; cbn [uses].
  { intros [-> ->]. done. }
  intros ([p1 b1] & tr1 & Hu & (rest & tr2 & Hr & [-> ->])%exec_bind)%exec_bind. cbn [fst snd] in *.
  destruct (IH _ _ _ Hr) as (Hlen & Hc & Hm). split; [by simpl; rewrite Hlen|].
  assert (Hsame : (asked (cert_manager_cache p) = true -> cert_manager_cache p1 = cert_manager_cache p /\
                     (u = AskCertManager \/ u = ReadCertManager -> b1 = certManagerAvailableCached p)) /\
                  (asked (monitor_cache p) = true -> available (monitor_cache p) = false ->
                     asked (monitor_cache p1) = true /\ available (monitor_cache p1) = false /\ (u = AskMonitor -> b1 = false))).
  { destruct u; cbn [use_probes] in Hu.
    - unfold certManagerCRDAvailable, once_Do in Hu. split; intros Ha; rewrite ?Ha in Hu.
      + destruct Hu as [_ [= -> ->]]. by split.
      + intros Hv. apply exec_bind in Hu as (c & s1 & _ & [_ [= -> ->]]). done.
    - destruct Hu as [_ [= -> ->]]. by split.
    - unfold serviceMonitorCRDAvailable, once_Do in Hu. split; intros Ha; rewrite ?Ha in Hu.
      + apply exec_bind in Hu as (c & s1 & _ & [_ [= -> ->]]). split; [done|]. by intros [].
      + intros Hv. destruct Hu as [_ [= -> ->]]. done.
    - destruct Hu as [_ [= -> ->]]. split; [|done]. intros _. split; [done|]. by intros []. }
  destruct Hsame as [Hs1 Hs2]. split.
  - intros Ha [|i] u' b; simpl.
    + intros [= <-] [= <-] Hor. by apply Hs1.
    + intros Hi Hb Hor. destruct (Hs1 Ha) as [E _]. unfold certManagerAvailableCached in *. rewrite <-E.
      eapply Hc; [by rewrite E|done..].
  - intros Ha Hv [|i] b; simpl.
    + intros [= ->] [= <-]. by apply Hs2.
    + intros Hi Hb. destruct (Hs2 Ha Hv) as (? & ? & _). by eapply Hm.
Qed.

(** The use that gave the [i]-th answer, and those that follow it. *)
Lemma uses_at l p tr tr' bs i b :
  exec trace_env (uses l p) tr tr' bs -> bs !! i = Some b ->
  exists u p1 p2 tr1 tr2, l !! i = Some u /\ exec trace_env (use_probes u p1) tr1 tr2 (p2, b) /\
    exec trace_env (uses (drop (S i) l) p2) tr2 tr' (drop (S i) bs).
Proof.
  revert p tr bs i; induction l as [|u l IH]; intros p tr bs i; cbn [uses]; [by intros [-> ->]|].
  intros ([p1 b1] & tr1 & Hu & (rest & tr2 & Hr & [-> ->])%exec_bind)%exec_bind. cbn [fst snd] in *.
  destruct i as [|i]; simpl; [|apply (IH _ _ _ _ Hr)].
  intros [= <-]. exists u, p, p1, tr, tr1. by rewrite !drop_0.
Qed.

(** Asking leaves the answer in the cache. *)
Lemma asked_cert_manager p p' tr tr' b :
  exec trace_env (use_probes AskCertManager p) tr tr' (p', b) ->
  asked (cert_manager_cache p') = true /\ certManagerAvailableCached p' = b.
Proof.
  cbn [use_probes]; unfold certManagerCRDAvailable, once_Do.
  intros (c & s & Hc & [_ [= -> ->]])%exec_bind; split; [|done]. simpl.
  destruct (asked (cert_manager_cache p)) eqn:Ha; [by destruct Hc as [_ ->]|].
  by apply exec_bind in Hc as (a & s1 & _ & [_ ->]).
Qed.
Lemma asked_monitor p p' tr tr' b :
  exec trace_env (use_probes AskMonitor p) tr tr' (p', b) ->
  asked (monitor_cache p') = true /\ available (monitor_cache p') = b.
Proof.
  cbn [use_probes]; unfold serviceMonitorCRDAvailable, once_Do.
  intros (c & s & Hc & [_ [= -> ->]])%exec_bind; split; [|done]. simpl.
  destruct (asked (monitor_cache p)) eqn:Ha; [by destruct Hc as [_ ->]|].
  by apply exec_bind in Hc as (a & s1 & _ & [_ ->]).
Qed.

(** The probes answer the same for the life of the process, whatever the API server
    answers and however their uses by all reconcilers interleave: after cert-manager was
    asked for once, every later question and every read of the cached value gets the
    answer the first one got; and once the ServiceMonitor kind was found missing, or
    was marked unavailable, it stays so. *)
Theorem probes_stable l tr bs i j u b b' :
  exec trace_env (uses l fresh_process) [] tr bs -> (i < j)%nat ->
  bs !! i = Some b -> bs !! j = Some b' ->
  (l !! i = Some AskCertManager -> l !! j = Some u -> u = AskCertManager \/ u = ReadCertManager -> b' = b) /\
  (l !! i = Some AskMonitor -> b = false -> l !! j = Some AskMonitor -> b' = false).
Proof.
  intros He Hij Hi Hj. destruct (uses_at _ _ _ _ _ _ _ He Hi) as (u0 & p1 & p2 & tr1 & tr2 & Hu0 & Hu & Hr).
  apply uses_known in Hr as (_ & Hc & Hm).
  assert (Hat : forall A (xs : list A), drop (S i) xs !! (j - S i)%nat = xs !! j)
    by (intros A xs; rewrite lookup_drop; f_equal; lia).
  split.
  - intros E Hlj Hor. simplify_eq. apply asked_cert_manager in Hu as [Ha <-].
    eapply (Hc Ha (j - S i)%nat u); [by rewrite Hat..|done].
  - intros E -> Hlj. simplify_eq. apply asked_monitor in Hu as [Ha Hv].
    by eapply (Hm Ha Hv (j - S i)%nat); rewrite Hat.
Qed.
Lemma probed_run :
  exec trace_env (uses [ReadCertManager; AskCertManager; ReadCertManager] fresh_process) []
    [Ev (OKube (KList KCertificate None ∅)) (inr [])] [false; true; true].
Proof. cbn. by exists (inr []), [Ev (OKube (KList KCertificate None ∅)) (inr [])]. Qed.
Lemma probes_stable_witness :
  exists tr, exec trace_env (uses [ReadCertManager; AskCertManager; ReadCertManager] fresh_process) [] tr [false; true; true] /\
    (Some AskCertManager = Some AskCertManager -> Some ReadCertManager = Some ReadCertManager ->
     ReadCertManager = AskCertManager \/ ReadCertManager = ReadCertManager -> true = true).
Proof.
  eexists. split; [exact probed_run|].
  by apply (probes_stable _ _ _ 1 2 ReadCertManager true true probed_run); [lia|reflexivity..].
Defined.

(** The comment above [certManagerAvailableCached] says that a builder of pods is never
    reached before the probe.  That holds in the pass of a cluster.  The controllers of
    scripts, backups and restores build pods of the same clusters and never ask: a
    CronJob that is built before any pass of a cluster mounts no certificate, although
    the cluster has one. *)
Theorem unprobed_builder_omits_certificate script cluster :
  tlsEnabled cluster = true ->
  secret_volume tlsVolumeName (TLSServerSecretName cluster) ∉
    pod_Volumes (AdminScripts.script_pod (certManagerAvailableCached fresh_process) script cluster) /\
  secret_volume tlsVolumeName (TLSServerSecretName cluster) ∈ pod_Volumes (AdminScripts.script_pod true script cluster).
Proof.
  intros Ht. unfold AdminScripts.script_pod, tlsVolumesAndMounts, tlsEffective, certManagerAvailableCached. rewrite Ht.
  cbn [available cert_manager_cache fresh_process unasked andb].
  destruct (securityConfigNeeded cluster); cbn [pod_Volumes app]; split.
  - intros E%list_elem_of_singleton. unfold secret_volume in E. by simplify_eq.
  - right. left.
  - intros E%elem_of_nil. done.
  - left.
Qed.
