(* ===== verification/BackupRuns.v ===== *)
(** * A schedule over time (backup_scheduler.go)

    The scheduler evaluates a schedule at every tick against the backups it finds.  Here
    the ticks run over an API server that keeps them, with failures, restarts of the
    operator and changes by the other controllers in between: every date of the cron
    expression that comes to pass gets one backup. *)
From S2P Require Import Prelude Prog CoreTypes ApiTypes Effects Machinery Sim Trace Calendar.
From S2P Require Import BackupScheduler.
#[local] Open Scope Z_scope.
#[local] Set Default Proof Using "Type*".

(** The calls of an execution, one after the other. *)
Fixpoint steps {S} (env : Env opE S) (s : S) (tr : trace) (s' : S) : Prop :=
  match tr with
  | [] => s' = s
  | ev :: tr => exists s1, env _ (ev_call ev) s (ev_answer ev) s1 /\ steps env s1 tr s'
  end.
Lemma exec_steps {S A} (env : Env opE S) (p : op A) s s' a :
  exec env p s s' a -> exists tr, exec trace_env p [] tr a /\ steps env s tr s'.
Proof.
  assert (Hgen : forall pre, exec env p s s' a -> exists tr, exec trace_env p pre (pre ++ tr) a /\ steps env s tr s').
  { revert s; induction p as [b|X e k IH]; intros s pre.
    - intros [-> ->]. exists []. by rewrite app_nil_r.
    - intros (x & s1 & Hx & (tr & Ht & Hs)%(IH x s1 (pre ++ [Ev e x]))). exists (Ev e x :: tr).
      rewrite cons_middle, app_assoc. split; [by exists x, (pre ++ [Ev e x])|by exists s1]. }
  intros Hx. by apply (Hgen []).
Qed.
Lemma steps_app {S} (env : Env opE S) s tr1 tr2 s' :
  steps env s (tr1 ++ tr2) s' <-> exists s1, steps env s tr1 s1 /\ steps env s1 tr2 s'.
Proof.
  revert s; induction tr1 as [|ev tr1 IH]; intros s; simpl.
  - split; [by exists s|]. by intros (? & -> & ?).
  - setoid_rewrite IH. naive_solver.
Qed.

Lemma sublist_map {A B} (f : A -> B) l l' : sublist l l' -> sublist (map f l) (map f l').
Proof. induction 1; simpl; by constructor. Qed.
Lemma sublist_in {A} (l l' : list A) x : sublist l l' -> x ∈ l -> x ∈ l'.
Proof. intros Hs. induction Hs; set_solver. Qed.

(** ** The API server

    It keeps the backups of the schedule, stamps the creation time in whole seconds, and
    refuses a name that is taken; any call may fail.  The times at which backups were
    created are recorded, the last first. *)
Record history := { backups : list SeaweedBackup; fired : list Time }.
Definition stamp (t : Time) : Time := t / Second * Second.
Definition bk_name (b : SeaweedBackup) : string := Name (bk_Meta b).
Definition created_at (b : SeaweedBackup) : Time := CreationTimestamp (bk_Meta b).
Definition stored (now : Time) (b : SeaweedBackup) : SeaweedBackup := {|
  bk_Meta := {| Name := Name (bk_Meta b); Namespace := Namespace (bk_Meta b); Generation := 1;
                CreationTimestamp := stamp now; DeletionTimestamp := None; Labels := Labels (bk_Meta b);
                Annotations := Annotations (bk_Meta b); Finalizers := Finalizers (bk_Meta b);
                OwnerReferences := OwnerReferences (bk_Meta b); UID := UID (bk_Meta b) |};
  bk_Spec := bk_Spec b; bk_Status := bk_Status b |}.
Definition with_backups (s : history) (l : list SeaweedBackup) : history := {| backups := l; fired := fired s |}.
Definition removed (name : string) (l : list SeaweedBackup) : list SeaweedBackup :=
  List.filter (fun b => negb (bool_decide (bk_name b = name))) l.
Definition api_server (now : Time) : Env opE history := fun X e s x s1 =>
  match e in opE X return X -> Prop with
  | OKube e =>
      match e in kubeE X return X -> Prop with
      | KList k _ _ =>
          match k return result (list (Obj k)) -> Prop with
          | KBackup => fun r => s1 = s /\ match r with inl _ => True | inr l => l ≡ₚ backups s end
          | _ => fun _ => False
          end
      | KCreate k o =>
          match k return Obj k -> option error -> Prop with
          | KBackup => fun o r =>
              if decide (bk_name o ∈ map bk_name (backups s))
              then s1 = s /\ exists m, r = Some (ErrAlreadyExists m)
              else match r with
                   | None => s1 = {| backups := stored now o :: backups s; fired := now :: fired s |}
                   | Some err => s1 = s /\ IsAlreadyExists err = false
                   end
          | _ => fun _ _ => False
          end o
      | KDelete k o =>
          match k return Obj k -> option error -> Prop with
          | KBackup => fun b r =>
              match r with None => s1 = with_backups s (removed (bk_name b) (backups s)) | Some _ => s1 = s end
          | _ => fun _ _ => False
          end o
      | _ => fun _ => False
      end
  | _ => fun _ => False
  end x.

(** ** Cron expressions

    [Next] is the first date after a time, at a whole second. *)
Class CronLaws `{Cron} (c : CronSchedule) := {
  next_after t : 0 <= t -> t < Next c t;
  next_first t u : t <= u -> u < Next c t -> Next c u = Next c t;
  next_seconds t : Next c t mod Second = 0;
}.

Section runs.
Context `{Cron} `{SliceSort} (m : Seaweed) (sched : BackupScheduleSpec) (c : CronSchedule) `{!CronLaws c}.

(** ** Runs

    A tick of the schedule at a later time, changes of the stored backups by others - of
    their statuses, of their metadata but for the name, the labels and the creation time,
    and deletions of all but a newest one -, and a restart of the operator, which forgets
    the anchors. *)
Record world := { store : history; anchors : gmap string Time; clock : Time }.
Definition same_backup (b b' : SeaweedBackup) : Prop :=
  bk_name b' = bk_name b /\ created_at b' = created_at b /\ Labels (bk_Meta b') = Labels (bk_Meta b).
Definition newest (b : SeaweedBackup) (l : list SeaweedBackup) : Prop := forall b', b' ∈ l -> created_at b' <= created_at b.
Definition changed_by_others (l l' : list SeaweedBackup) : Prop :=
  (exists left, sublist left l /\ Forall2 same_backup left l') /\
  (l = [] \/ exists b, b ∈ l' /\ newest b l).
Inductive reachable : world -> Prop :=
| run_start t : Second <= t -> reachable {| store := {| backups := []; fired := [] |}; anchors := ∅; clock := t |}
| run_tick w now s a err :
    reachable w -> clock w < now -> year (civil now) <= 9999 -> Z.of_nat (length (backups (store w))) <= MaxInt32 ->
    exec (api_server now) (reconcileSchedule (anchors w) m sched now) (store w) s (a, err) ->
    reachable {| store := s; anchors := a; clock := now |}
| run_others w l : reachable w -> changed_by_others (backups (store w)) l ->
    reachable {| store := with_backups (store w) l; anchors := anchors w; clock := clock w |}
| run_restart w : reachable w -> reachable {| store := store w; anchors := ∅; clock := clock w |}.

(** ** What holds between ticks *)
Definition fire_name (f : Time) : string := bk_name (scheduled_backup m sched f).
Definition spaced (l : list Time) : Prop := StronglySorted (fun later earlier => Next c earlier <= later) l.
Record sound (s : history) (now : Time) : Prop := {
  sound_spaced : spaced (fired s);
  sound_past : Forall (fun f => Second <= f <= now) (fired s);
  sound_backups : Forall (fun b => exists f, f ∈ fired s /\ created_at b = stamp f /\ bk_name b = fire_name f) (backups s);
  sound_names : NoDup (map bk_name (backups s));
  sound_newest : forall f, head (fired s) = Some f -> exists b, b ∈ backups s /\ created_at b = stamp f;
}.

Lemma stamp_bounds t : stamp t <= t < stamp t + Second.
Proof. unfold stamp, Second. pose proof (Z.div_mod t 1000000000). pose proof (Z.mod_pos_bound t 1000000000). lia. Qed.
Lemma next_stamp t : 0 <= t -> Next c (stamp t) = Next c t.
Proof.
  intros Ht. pose proof (stamp_bounds t). symmetry. apply next_first; [lia|].
  assert (Hst : 0 <= stamp t) by (unfold stamp, Second; pose proof (Z.div_pos t 1000000000); lia).
  pose proof (next_after (stamp t) Hst). pose proof (next_seconds (stamp t)) as Hs.
  unfold stamp, Second in *. pose proof (Z.div_mod (Next c (t / 1000000000 * 1000000000)) 1000000000). lia.
Qed.
(** A date in between is in a later second. *)
Lemma next_second f now : 0 <= f -> Next c f <= now -> f / 1000000000 < now / 1000000000.
Proof.
  intros Hf Hn. pose proof (next_after f Hf). pose proof (next_seconds f) as Hs. unfold Second in Hs.
  pose proof (Z.div_mod (Next c f) 1000000000). pose proof (Z.div_mod f 1000000000).
  pose proof (Z.mod_pos_bound f 1000000000). pose proof (Z.div_le_mono (Next c f) now 1000000000). lia.
Qed.

Lemma spaced_newest f l now :
  spaced (f :: l) -> Forall (fun x => Second <= x <= now) (f :: l) -> forall x, x ∈ f :: l -> x <= f.
Proof.
  intros [_ Hf]%StronglySorted_inv Hp x [->|Hx]%elem_of_cons; [done|]. rewrite Forall_forall in Hf, Hp.
  assert (Second <= x <= now) by (apply Hp; by right). unfold Second in *. pose proof (next_after x). specialize (Hf x Hx). simpl in Hf. lia.
Qed.

(** ** The last run the code computes *)
Lemma mostRecentCreation_max l r :
  0 <= r -> (forall b, b ∈ l -> created_at b <= r) -> (l = [] /\ r = 0 \/ exists b, b ∈ l /\ created_at b = r) ->
  mostRecentCreation l = r.
Proof.
  unfold mostRecentCreation. intros Hr Hle Hex.
  assert (Hgen : forall x, x <= r -> (x = r \/ exists b, b ∈ l /\ created_at b = r) ->
    foldl (fun latest b => if latest <? created_at b then created_at b else latest) x l = r).
  { clear Hex Hr. induction l as [|b l IH]; intros x Hx Hor; simpl.
    - destruct Hor as [->|(b & ?%elem_of_nil & _)]; done.
    - assert (created_at b <= r) by (apply Hle; by left). apply IH.
      + intros b' Hb'. apply Hle. by right.
      + destruct (_ <? _); lia.
      + destruct Hor as [->|(b' & [->|Hb']%elem_of_cons & E)].
        * left. destruct (Z.ltb_spec r (created_at b)); lia.
        * left. destruct (Z.ltb_spec x (created_at b)); lia.
        * right. by exists b'. }
  apply Hgen; [done|]. destruct Hex as [[-> ->]|Hb]; [by left|by right].
Qed.

(** The newest backup tells the last time the schedule fired. *)
Lemma most_recent s now l : sound s now -> l ≡ₚ backups s ->
  mostRecentCreation l = match fired s with f :: _ => stamp f | [] => 0 end.
Proof.
  intros [Hsp Hpast Hb _ Hnew] Hl.
  assert (Hin : forall b, b ∈ l -> exists f, f ∈ fired s /\ created_at b = stamp f).
  { intros b Hin. rewrite Hl in Hin. rewrite Forall_forall in Hb. destruct (Hb b Hin) as (f & ? & ? & _). by exists f. }
  destruct (fired s) as [|f fs].
  - destruct l as [|b l]; [done|]. destruct (Hin b) as (f & ?%elem_of_nil & _); [by left|done].
  - apply mostRecentCreation_max.
    + rewrite Forall_forall in Hpast. pose proof (Hpast f ltac:(by left)). pose proof (stamp_bounds f). lia.
    + intros b (x & Hx & ->)%Hin. pose proof (spaced_newest f fs now Hsp Hpast x Hx). unfold stamp.
      apply Z.mul_le_mono_nonneg_r; [done|]. by apply Z.div_le_mono.
    + right. destruct (Hnew f eq_refl) as (b & Hb' & E). exists b. by rewrite Hl.
Qed.
Lemma last_run_sound s now l a t : sound s now -> l ≡ₚ backups s ->
  last_run a m sched l t = match fired s with f :: _ => stamp f | [] => default t (a !! anchor_key m sched) end /\
  IsZero (mostRecentCreation l) = match fired s with _ :: _ => false | [] => true end.
Proof.
  intros Hs Hl. unfold last_run. rewrite (most_recent s now l Hs Hl). pose proof (sound_past _ _ Hs) as Hp.
  destruct (fired s) as [|f fs]; [done|]. apply Forall_cons in Hp as [Hf _]. unfold IsZero.
  rewrite bool_decide_false; [done|]. pose proof (stamp_bounds f). unfold Second in *. lia.
Qed.

(** ** Deletions *)
Lemma steps_deletes now s dels s' (pruned : list SeaweedBackup) :
  Forall (fun ev => exists p x, p ∈ pruned /\ ev = Ev (OKube (KDelete KBackup p)) x) dels ->
  steps (api_server now) s dels s' ->
  fired s' = fired s /\ sublist (backups s') (backups s) /\
  forall b, b ∈ backups s -> bk_name b ∉ map bk_name pruned -> b ∈ backups s'.
Proof.
  intros Hd. revert s; induction Hd as [|ev dels (p & x & Hp & ->) _ IH]; intros s; simpl.
  { by intros ->. }
  intros (s1 & Hx & Hs). destruct (IH s1 Hs) as (Hf & Hsub & Hkeep). destruct x as [err|]; simpl in Hx; subst s1; [done|].
  simpl in *. split; [done|]. split.
  - etrans; [exact Hsub|]. unfold removed. clear. induction (backups s) as [|b l IH]; simpl; [done|].
    destruct (negb _); by constructor.
  - intros b Hb Hn. apply Hkeep; [|done]. unfold removed. rewrite list_elem_of_In, filter_In, <-list_elem_of_In.
    split; [done|]. rewrite bool_decide_false; [done|]. intros E. apply Hn. rewrite E. by apply list_elem_of_fmap_2.
Qed.

Lemma same_name (l : list SeaweedBackup) a b :
  NoDup (map bk_name l) -> a ∈ l -> b ∈ l -> bk_name a = bk_name b -> a = b.
Proof.
  intros Hnd Ha Hb E. apply list_elem_of_lookup in Ha as [i Hi], Hb as [j Hj].
  assert (i = j) as ->; [|congruence].
  eapply (NoDup_lookup (map bk_name l)); [done|by apply list_lookup_fmap_Some_2|].
  rewrite E. by apply list_lookup_fmap_Some_2.
Qed.
Lemma sound_pruned now s dels s' existing :
  sound s now -> NoDup (map bk_name existing) -> (forall b, b ∈ existing -> b ∈ backups s) ->
  prunes existing dels -> steps (api_server now) s dels s' -> sound s' now /\ fired s' = fired s.
Proof.
  intros [Hsp Hpast Hb Hnd Hnew] Hnames Hsub (kept & pruned & Hperm & Hold & Hdels) Hs.
  destruct (steps_deletes now s dels s' pruned Hdels Hs) as (Hf & Hsubl & Hkeep). rewrite Hperm, map_app in Hnames.
  assert (Hk : forall k, k ∈ kept -> k ∈ backups s) by (intros; apply Hsub; rewrite Hperm, elem_of_app; by left).
  assert (Hp : forall p, p ∈ pruned -> p ∈ backups s) by (intros; apply Hsub; rewrite Hperm, elem_of_app; by right).
  split; [|done]. split; rewrite ?Hf; try done.
  - rewrite Forall_forall in Hb |- *. intros b Hin. by apply Hb, (sublist_in _ _ _ Hsubl).
  - eapply sublist_NoDup; [exact Hnd|by apply (sublist_map bk_name)].
  - intros f Hh. destruct (Hnew f Hh) as (b & Hin & Hc).
    destruct (decide (bk_name b ∈ map bk_name pruned)) as [(p & Hn & Hpp)%list_elem_of_fmap|]; [|exists b; auto].
    assert (b = p) as <- by (apply (same_name (backups s)); auto).
    destruct (Hold b Hpp) as (k & Hkk & Hle). exists k. fold (created_at b) (created_at k) in Hle. split.
    + apply Hkeep; [by apply Hk|]. apply NoDup_app in Hnames as (_ & Hdisj & _).
      apply Hdisj. by apply list_elem_of_fmap_2.
    + apply (Z.le_antisymm _ (stamp f)); [|lia]. rewrite Forall_forall in Hb.
      destruct (Hb k (Hk k Hkk)) as (x & Hx & Ek & _). rewrite Ek.
      destruct (fired s) as [|f' fs] eqn:E; [done|]. injection Hh as ->.
      pose proof (spaced_newest f fs now Hsp Hpast x Hx). unfold stamp.
      apply Z.mul_le_mono_nonneg_r; [done|]. by apply Z.div_le_mono.
Qed.

(** A time at which a date has come has a name of its own. *)
Lemma fresh_name s t now l a :
  sound s t -> t < now -> year (civil now) <= 9999 -> l ≡ₚ backups s ->
  Next c (last_run a m sched l now) <= now -> fire_name now ∉ map bk_name (backups s).
Proof.
  intros Hs Ht Hy Hl Hn (b & E & Hb)%list_elem_of_fmap.
  destruct (last_run_sound s t l a now Hs Hl) as [Hlast _]. destruct Hs as [Hsp Hpast Hbs _ _].
  rewrite Forall_forall in Hbs. destruct (Hbs b Hb) as (f & Hf & _ & Hfn).
  destruct (fired s) as [|f0 fs] eqn:Efs; [by apply elem_of_nil in Hf|]. rewrite Hlast in Hn.
  assert (Hf0 : Second <= f0 <= t) by by (rewrite Forall_forall in Hpast; apply Hpast; left).
  assert (Hf' : Second <= f <= t) by by (rewrite Forall_forall in Hpast; apply Hpast).
  rewrite next_stamp in Hn by (unfold Second in *; lia).
  pose proof (spaced_newest f0 fs t Hsp Hpast f Hf) as Hle.
  pose proof (next_second f0 now ltac:(unfold Second in *; lia) Hn) as Hlt.
  pose proof (stamp_names_lt (Name (sw_Meta m) +:+ "-" +:+ sched_Name sched) f now) as Hx.
  rewrite Hfn in E. unfold fire_name, bk_name in E. cbn in E. rewrite E in Hx.
  assert (string_ltb (boundedName (Name (sw_Meta m) +:+ "-" +:+ sched_Name sched) ("-" +:+ Format14 f))
            (boundedName (Name (sw_Meta m) +:+ "-" +:+ sched_Name sched) ("-" +:+ Format14 f)) = true) as Hbad.
  { apply Hx; [unfold Second in *; lia| |done]. eapply Z.le_lt_trans; [|exact Hlt]. by apply Z.div_le_mono. }
  by rewrite string_ltb_irrefl in Hbad.
Qed.

(** Nothing is due: the next date after the last run, or after the anchor, is to come. *)
Definition nothing_due (s : history) (a : gmap string Time) (now : Time) : Prop :=
  match fired s with
  | f :: _ => now < Next c f
  | [] => exists t, a !! anchor_key m sched = Some t /\ now < Next c t
  end.

Lemma sound_fire s t now :
  sound s t -> t < now -> Second <= t -> fire_name now ∉ map bk_name (backups s) ->
  match fired s with f :: _ => Next c f <= now | [] => True end ->
  sound {| backups := stored now (scheduled_backup m sched now) :: backups s; fired := now :: fired s |} now.
Proof.
  intros [Hsp Hpast Hb Hnd Hnew] Ht Hpos Hfresh Hdue. split; cbn [fired backups head].
  - constructor; [done|]. apply Forall_forall. intros x Hx. destruct (fired s) as [|f fs]; [by apply elem_of_nil in Hx|].
    pose proof (spaced_newest f fs t Hsp Hpast x Hx) as Hle. apply StronglySorted_inv in Hsp as [_ Hf].
    rewrite Forall_forall in Hf, Hpast. apply elem_of_cons in Hx as [->|Hx]; [done|].
    pose proof (Hf x Hx). simpl in *. pose proof (Hpast f ltac:(by left)). unfold Second in *. pose proof (next_after f). lia.
  - constructor; [lia|]. eapply Forall_impl; [exact Hpast|]. simpl. lia.
  - constructor.
    + exists now. split; [by left|done].
    + eapply Forall_impl; [exact Hb|]. intros b (f & Hf & Hc). exists f. split; [by right|done].
  - by constructor.
  - intros f [= <-]. eexists. split; [by left|done].
Qed.
Lemma sound_later s t now : sound s t -> t <= now -> sound s now.
Proof.
  intros [Hsp Hpast Hb Hnd Hnew] Ht. split; try done. eapply Forall_impl; [exact Hpast|]. simpl. lia.
Qed.

Lemma tick_sound s t a now s' a' err :
  ParseStandard (sched_Schedule sched) = Ok c ->
  sound s t -> Second <= t -> t < now -> year (civil now) <= 9999 -> Z.of_nat (length (backups s)) <= MaxInt32 ->
  exec (api_server now) (reconcileSchedule a m sched now) s s' (a', err) ->
  sound s' now /\ (err = None -> nothing_due s' a' now).
Proof.
  intros Hparse Hs Hpos Ht Hy Hmax (tr & Htr & Hsteps)%exec_steps.
  destruct (schedule_trace a m sched now c tr a' err Hparse Htr) as ([e|existing] & Hl).
  { destruct Hl as (-> & -> & ->). destruct Hsteps as (s1 & [-> _] & ->). by split; [apply (sound_later s t); [|lia]|]. }
  destruct Hl as (dels & _ & Hprune & Hl). destruct (Next c _ <=? now) eqn:Hdue.
  - destruct Hl as (created & -> & Hok & Hfail). destruct Hsteps as (s1 & [-> Hperm] & s2 & Hcreate & Hdels).
    apply Z.leb_le in Hdue. pose proof (fresh_name s t now existing a Hs Ht Hy Hperm Hdue) as Hfresh.
    simpl in Hcreate. rewrite decide_False in Hcreate by exact Hfresh.
    assert (Hnames : NoDup (map bk_name existing)).
    { rewrite (Permutation_map bk_name Hperm). apply Hs. }
    assert (Hmax' : Z.of_nat (length existing) <= MaxInt32) by (rewrite (Permutation_length Hperm); exact Hmax).
    destruct (last_run_sound s t existing a now Hs Hperm) as [Hlast _]. rewrite Hlast in Hdue.
    destruct created as [e|].
    + destruct Hcreate as [-> He]. destruct (Hfail He) as [-> ->]. simpl in Hdels. subst s'. by split; [apply (sound_later s t); [|lia]|].
    + subst s2. assert (Hs2 : sound {| backups := stored now (scheduled_backup m sched now) :: backups s; fired := now :: fired s |} now).
      { apply (sound_fire s t); try done. destruct (fired s) as [|f fs] eqn:E; [done|].
        rewrite <-(next_stamp f); [done|]. pose proof (sound_past _ _ Hs) as Hp. rewrite E, Forall_cons in Hp. unfold Second in *. lia. }
      destruct (sound_pruned now _ dels s' existing Hs2 Hnames) as [Hs' Hf].
      * intros b Hb. right. exact (proj1 (elem_of_Permutation_proper _ _ _ Hperm) Hb).
      * by apply Hprune.
      * exact Hdels.
      * split; [done|]. intros _. unfold nothing_due. rewrite Hf. apply next_after. unfold Second in *. lia.
  - destruct Hl as (-> & ->). destruct Hsteps as (s1 & [-> Hperm] & Hdels). apply Z.leb_gt in Hdue.
    destruct (last_run_sound s t existing a now Hs Hperm) as [Hlast Hzero]. rewrite Hlast in *.
    destruct (sound_pruned now s dels s' existing) as [Hs' Hf].
    + apply (sound_later s t); [done|lia].
    + rewrite (Permutation_map bk_name Hperm). apply Hs.
    + intros b Hb. exact (proj1 (elem_of_Permutation_proper _ _ _ Hperm) Hb).
    + apply Hprune. rewrite (Permutation_length Hperm). exact Hmax.
    + exact Hdels.
    + split; [done|]. intros _. unfold nothing_due. rewrite Hf, Hzero. destruct (fired s) as [|f fs] eqn:E.
      * exists (default now (a !! anchor_key m sched)). by rewrite lookup_insert_eq.
      * rewrite <-(next_stamp f); [done|]. pose proof (sound_past _ _ Hs) as Hp. rewrite E, Forall_cons in Hp. unfold Second in *. lia.
Qed.

Lemma sound_others s l now : sound s now -> changed_by_others (backups s) l -> sound (with_backups s l) now.
Proof.
  intros [Hsp Hpast Hb Hnd Hnew] [(left & Hsub & Hl) Hkept]. split; try done; cbn [fired backups with_backups].
  - apply Forall_forall. intros b' Hb'. apply list_elem_of_lookup in Hb' as [i Hi].
    destruct (Forall2_lookup_r _ _ _ _ _ Hl Hi) as (b & Hbi & -> & -> & _). rewrite Forall_forall in Hb.
    apply Hb, (sublist_in _ _ _ Hsub). by eapply list_elem_of_lookup_2.
  - replace (map bk_name l) with (map bk_name left); [by eapply sublist_NoDup, sublist_map|]. clear -Hl.
    induction Hl as [|b b' left l (E & _) _ IH]; simpl; [done|]. by rewrite E, IH.
  - intros f Hf. destruct (Hnew f Hf) as (b & Hin & Hc). destruct Hkept as [E|(k & Hk & Hmax)];
      [rewrite E in Hin; by apply elem_of_nil in Hin|].
    exists k. split; [done|]. apply Z.le_antisymm; [|rewrite <-Hc; by apply Hmax].
    apply list_elem_of_lookup in Hk as [i Hi]. destruct (Forall2_lookup_r _ _ _ _ _ Hl Hi) as (b0 & Hb0 & _ & -> & _).
    assert (Hmem : b0 ∈ backups s) by (apply (sublist_in _ _ _ Hsub); by eapply list_elem_of_lookup_2).
    rewrite Forall_forall in Hb. destruct (Hb b0 Hmem) as (x & Hx & -> & _).
    destruct (fired s) as [|f' fs] eqn:E; [done|]. injection Hf as ->.
    pose proof (spaced_newest f fs now Hsp Hpast x Hx). unfold stamp.
    apply Z.mul_le_mono_nonneg_r; [done|]. by apply Z.div_le_mono.
Qed.

Lemma reachable_sound w :
  ParseStandard (sched_Schedule sched) = Ok c -> reachable w -> sound (store w) (clock w) /\ Second <= clock w.
Proof.
  intros Hparse. induction 1 as [t Ht|w now s a err _ [IH Hpos] Hlt Hy Hmax Hx|w l _ [IH Hpos] Hl|w _ IH]; simpl; try done.
  - split; [|done]. split; simpl; try constructor. done.
  - split; [|lia]. by eapply tick_sound.
  - split; [by apply sound_others|done].
Qed.

End runs.

(** ** A sample run *)
#[local] Existing Instances BackupScheduler.sample_sort BackupScheduler.sample_cron.
#[local] Instance midnight_laws : CronLaws midnight.
Proof.
  split; unfold Next, midnight, sample_cron, one_day, Second; intros; Z.to_euclidean_division_equations; nia.
Qed.
Definition nightly : BackupScheduleSpec := sample_schedule "s" "0 0 * * *" 1.
Definition sample_cluster : Seaweed := backed_up "a" [nightly].
Definition nothing_yet : history := {| backups := []; fired := [] |}.
Definition first_day : Time := jan1 + one_day.
Definition served : Time := first_day + Second.
Definition one_backup : history := {|
  backups := [stored served (scheduled_backup sample_cluster nightly served)]; fired := [served] |}.

Definition seen_first : gmap string Time := {["ns/a/s" := jan1 + Second]}.
Definition second_day : Time := first_day + one_day.

(** A tick sees the schedule, one at the date cannot create the backup, and the next one
    does; then the operator is restarted. *)
Lemma sample_run : reachable sample_cluster nightly {| store := one_backup; anchors := ∅; clock := served |}.
Proof.
  apply (run_restart _ _ {| store := one_backup; anchors := ∅; clock := served |}).
  apply (run_tick _ _ {| store := nothing_yet; anchors := seen_first; clock := first_day |} served one_backup ∅ None);
    [|done|by vm_compute|done|].
  - apply (run_tick _ _ {| store := nothing_yet; anchors := seen_first; clock := jan1 + Second |}
             first_day nothing_yet seen_first (Some (ErrOther "timeout"))); [|done|by vm_compute|done|].
    + apply (run_tick _ _ {| store := nothing_yet; anchors := ∅; clock := jan1 |} (jan1 + Second) nothing_yet seen_first None);
        [by apply run_start|done|by vm_compute|done|].
      exists (Ok []), nothing_yet. split; [by split|]. by vm_compute.
    + exists (Ok []), nothing_yet. split; [by split|]. exists (Some (ErrOther "timeout")), nothing_yet.
      split; by vm_compute.
  - exists (Ok []), nothing_yet. split; [by split|]. exists None, one_backup. split; by vm_compute.
Qed.
