(* ===== verification/Watches.v ===== *)
(** * What wakes a controller (the SetupWithManager methods)

    Every controller registers with the manager the kind it reconciles, the kinds of the
    objects it owns, and functions that map a change of another object to requests.  The
    verdict over a contested name depends on other resources than the one that is
    reconciled: here it is shown that no change of a verdict goes unnoticed. *)
From S2P Require Import Prelude Prog CoreTypes ApiTypes Effects Machinery Sim Store NameClaim.
From S2P Require AdminScripts IdentityController LifecyclePolicy PolicyController.

(** ** Registrations

    [For], [Owns] and [Watches] of controller-runtime's builder; the flag is
    [predicate.GenerationChangedPredicate]. *)
Inductive watch :=
| Owns (k : Kind)
| Watches (k : Kind) (generation_changed : bool) (f : Obj k -> op (list NamespacedName)).
Record controller := {
  For : Kind;
  watches : list watch;
}.

Definition seaweed_controller : controller := {| For := KSeaweed; watches := [] |}.
Definition bucket_controller : controller := {| For := KBucket; watches := [] |}.
Definition lifecycle_controller : controller := {| For := KLifecyclePolicy; watches := [
  Watches KBucket false LifecyclePolicy.mapBucketToPolicies;
  Watches KLifecyclePolicy true LifecyclePolicy.mapPolicyToPeers] |}.
Definition identity_controller : controller := {| For := KS3Identity; watches := [
  Watches KS3Identity false IdentityController.mapToNameClaimants] |}.
Definition policy_controller : controller := {| For := KS3Policy; watches := [
  Watches KS3Policy false PolicyController.mapToNameClaimants] |}.
Definition binding_controller : controller := {| For := KS3PolicyBinding; watches := [] |}.
Definition credentials_controller : controller := {| For := KS3Credentials; watches := [Owns KSecret] |}.
Definition oidc_controller : controller := {| For := KS3OIDCProvider; watches := [] |}.
Definition backup_controller : controller := {| For := KBackup; watches := [Owns KJob] |}.
Definition restore_controller : controller := {| For := KRestore; watches := [Owns KJob] |}.
Definition script_controller : controller := {| For := KAdminScript; watches := [
  Owns KCronJob;
  Watches KSeaweed false AdminScripts.mapSeaweedToAdminScripts] |}.
Definition csi_controller : controller := {| For := KSeaweedCSIDriver; watches := [
  Owns KDeployment; Owns KDaemonSet; Owns KServiceAccount; Owns KRole; Owns KRoleBinding] |}.

(** ** The requests of an event

    An event has the object before and after the change: a creation has none before, a
    deletion none after.  For an update the objects on both sides are mapped. *)
Record change (k : Kind) := {
  before : option (Obj k);
  after : option (Obj k);
}.
Arguments before {k} _.
Arguments after {k} _.
Definition changed {k} (ev : change k) : list (Obj k) := option_list (before ev) ++ option_list (after ev).
(** A change of the status alone keeps the generation. *)
Definition generation_kept {k} (ev : change k) : bool :=
  match before ev, after ev with
  | Some o, Some n => bool_decide (Generation (obj_meta o) = Generation (obj_meta n))
  | _, _ => false
  end.

Definition owner_kind (k : Kind) : string :=
  match k with
  | KBackup => "SeaweedBackup" | KRestore => "SeaweedRestore" | KS3Credentials => "S3Credentials"
  | KAdminScript => "AdminScript" | KSeaweedCSIDriver => "SeaweedCSIDriver" | _ => ""
  end.
(** The controller in the owner references, when it is of the kind [k]. *)
Definition owner_requests (k : Kind) (m : ObjectMeta) : list NamespacedName :=
  match controller_of m with
  | Some r => if bool_decide (owner_Kind r = owner_kind k)
              then [{| nn_Namespace := Namespace m; nn_Name := owner_Name r |}] else []
  | None => []
  end.
Fixpoint map_all {A} (f : A -> op (list NamespacedName)) (l : list A) : op (list NamespacedName) :=
  match l with
  | [] => Ret []
  | a :: l => do x <- f a; do y <- map_all f l; Ret (x ++ y)
  end.
Definition watch_requests (owner : Kind) {k} (ev : change k) (w : watch) : op (list NamespacedName) :=
  match w with
  | Owns k' => Ret (if bool_decide (k' = k)
                    then flat_map (fun o => owner_requests owner (obj_meta o)) (changed ev) else [])
  | Watches k' generation_changed f =>
      match decide (k = k') with
      | left E => if generation_changed && generation_kept ev then Ret []
                  else map_all (fun o => f (eq_rect k Obj o k' E)) (changed ev)
      | right _ => Ret []
      end
  end.
Definition requests (c : controller) {k} (ev : change k) : op (list NamespacedName) :=
  let own := if bool_decide (For c = k) then map obj_key (changed ev) else [] in
  do others <- map_all (watch_requests (For c) ev) (watches c);
  Ret (own ++ others).

(** ** Verdicts over contested names

    What a resource finds out about the name it wants, from the resources listed. *)
Definition in_namespace {k} (ns : option string) (items : list (Obj k)) : list (Obj k) :=
  List.filter (fun o => match ns with None => true | Some n => bool_decide (Namespace (obj_meta o) = n) end) items.
Definition identity_verdict (x : S3Identity) (items : list S3Identity) : option S3Identity :=
  conflict_of x (peers_of x (identityIAMName x) (claim_cluster x) items).
Definition policy_verdict (x : S3Policy) (items : list S3Policy) : option S3Policy :=
  conflict_of x (peers_of x (policyIAMName x) (claim_cluster x) items).
Definition lifecycle_verdict (x : BucketLifecyclePolicy) (items : list BucketLifecyclePolicy) : string :=
  Name (lp_Meta (LifecyclePolicy.pick_owner x (in_namespace (k:=KLifecyclePolicy) (Some (Namespace (lp_Meta x))) items))).

(** The store around an event of one object: [rest] are the other objects. *)
Definition others {k} (ev : change k) (rest : list (Obj k)) : Prop :=
  (forall o n, before ev = Some o -> after ev = Some n -> obj_key o = obj_key n) /\
  forall o x, o ∈ changed ev -> x ∈ rest -> obj_key o <> obj_key x.
Definition store_before {k} (ev : change k) (rest : list (Obj k)) : list (Obj k) := option_list (before ev) ++ rest.
Definition store_after {k} (ev : change k) (rest : list (Obj k)) : list (Obj k) := option_list (after ev) ++ rest.

(** An environment that lists the objects as they are after the event. *)
Definition lists {k S} (env : Env opE S) (items : list (Obj k)) : Prop :=
  forall ns s r s1, env _ (OKube (KList k ns ∅)) s r s1 -> r = Ok (in_namespace ns items).

(** Whenever an event changes the verdict of another live resource, it enqueues that
    resource. *)
Definition wakes {k V} (c : controller) (verdict : Obj k -> list (Obj k) -> V) (legal : change k -> Prop) : Prop :=
  forall S (env : Env opE S) (ev : change k) rest x s s' reqs,
    others ev rest -> legal ev -> lists env (store_after ev rest) ->
    x ∈ rest -> live (obj_meta x) = true ->
    verdict x (store_before ev rest) <> verdict x (store_after ev rest) ->
    exec env (requests c ev) s s' reqs -> obj_key x ∈ reqs.

(** ** No change of a verdict goes unnoticed *)
Section requests.
Context {S : Type} (env : Env opE S).

Lemma map_all_reaches {A} (f : A -> op (list NamespacedName)) l a key s s' reqs :
  a ∈ l -> (forall s s' x, exec env (f a) s s' x -> key ∈ x) ->
  exec env (map_all f l) s s' reqs -> key ∈ reqs.
Proof.
  intros Ha Hf. revert s s' reqs; induction l as [|b l IH]; intros s s' reqs; [by apply elem_of_nil in Ha|].
  cbn [map_all]. intros (x & s1 & Hx & Hl)%exec_bind. apply exec_bind in Hl as (y & s2 & Hy & [-> ->]).
  apply elem_of_app. apply elem_of_cons in Ha as [->|Ha]; [left; eauto|right; eauto].
Qed.

(** A watch of the changed kind that maps some side of the event to the key. *)
Lemma requests_reach {k} (c : controller) (ev : change k) gen f o key s s' reqs :
  Watches k gen f ∈ watches c -> gen && generation_kept ev = false -> o ∈ changed ev ->
  (forall s s' x, exec env (f o) s s' x -> key ∈ x) ->
  exec env (requests c ev) s s' reqs -> key ∈ reqs.
Proof.
  intros Hw Hg Ho Hf (r & s1 & Hr & [-> ->])%exec_bind. apply elem_of_app. right.
  eapply map_all_reaches; [exact Hw| |exact Hr]. clear s s1 r Hr. intros s s' x. unfold watch_requests.
  destruct (decide (k = k)) as [E|]; [|done]. rewrite Hg.
  rewrite (proof_irrel E eq_refl). by apply map_all_reaches with o.
Qed.
End requests.

(** Resources that claim names: the mapper reaches the claimants of the changed one's
    name, and the verdict of nobody else depends on it. *)
Section claimants.
Context `{Claimant T}.

Lemma peers_unaffected (x : T) name cluster (os rest : list T) :
  (forall o, o ∈ os -> meta_key (claim_meta o) <> meta_key (claim_meta x) -> contends name cluster o = false) ->
  peers_of x name cluster (os ++ rest) = peers_of x name cluster rest.
Proof.
  intros Hos. unfold peers_of. rewrite List.filter_app.
  assert (List.filter (fun y => negb (bool_decide (meta_key (claim_meta y) = meta_key (claim_meta x))) &&
            contends name cluster y) os = []) as ->; [|done].
  induction os as [|o os IH]; [done|]. simpl. rewrite IH by (intros; apply Hos; [by right|done]).
  case_bool_decide as E; [done|]. simpl. by rewrite Hos; [|left|].
Qed.

Lemma verdict_changes (x : T) (olds news rest : list T) :
  conflict_of x (peers_of x (claim_name x) (claim_cluster x) (olds ++ rest)) <>
  conflict_of x (peers_of x (claim_name x) (claim_cluster x) (news ++ rest)) ->
  exists o, o ∈ olds ++ news /\ claim_name o = claim_name x /\ claim_cluster o = claim_cluster x.
Proof.
  intros Hne.
  destruct (decide (Exists (fun o => claim_name o = claim_name x /\ claim_cluster o = claim_cluster x) (olds ++ news)))
    as [(o & ? & ? & ?)%Exists_exists|Hno]; [by exists o|].
  destruct Hne. rewrite !peers_unaffected; [done|..]; intros o Ho _; unfold contends;
    apply not_true_iff_false; rewrite !andb_true_iff, !bool_decide_eq_true; intros [[_ ?] ?]; apply Hno;
    apply Exists_exists; exists o; rewrite elem_of_app; auto.
Qed.
End claimants.

Lemma in_all_namespaces {k} (items : list (Obj k)) : in_namespace None items = items.
Proof. unfold in_namespace. induction items as [|o l IH]; simpl; congruence. Qed.
Lemma elem_of_in_namespace {k} (n : string) (items : list (Obj k)) x :
  x ∈ in_namespace (Some n) items <-> x ∈ items /\ Namespace (obj_meta x) = n.
Proof. unfold in_namespace. by rewrite list_elem_of_In, filter_In, <-list_elem_of_In, bool_decide_eq_true. Qed.
Lemma key_differs (m m' : ObjectMeta) :
  {| nn_Namespace := Namespace m; nn_Name := Name m |} <> {| nn_Namespace := Namespace m'; nn_Name := Name m' |} ->
  bool_decide (Namespace m' = Namespace m) && bool_decide (Name m' = Name m) = false.
Proof. intros Hk. apply not_true_iff_false. rewrite andb_true_iff, !bool_decide_eq_true. intros [E1 E2]. by rewrite E1, E2 in Hk. Qed.

Lemma identities_mapped {S} (env : Env opE S) (o x : S3Identity) (items : list S3Identity) s s' keys :
  lists (k:=KS3Identity) env items -> x ∈ items -> live (id_Meta x) = true ->
  obj_key (k:=KS3Identity) o <> obj_key (k:=KS3Identity) x ->
  claim_name o = claim_name x -> claim_cluster o = claim_cluster x ->
  exec env (IdentityController.mapToNameClaimants o) s s' keys -> obj_key (k:=KS3Identity) x ∈ keys.
Proof.
  intros Hl Hx Hlive Hk Hn Hc (r & s1 & Hr & Hrest). apply (Hl None) in Hr as ->.
  rewrite in_all_namespaces in Hrest. destruct Hrest as [_ ->].
  apply list_elem_of_fmap. exists x. split; [done|]. apply list_elem_of_In, filter_In. split; [by apply list_elem_of_In|].
  rewrite key_differs by done. rewrite Hlive. cbn [negb].
  rewrite (bool_decide_true (identityIAMName x = _)), bool_decide_true; done.
Qed.
Lemma policies_mapped {S} (env : Env opE S) (o x : S3Policy) (items : list S3Policy) s s' keys :
  lists (k:=KS3Policy) env items -> x ∈ items -> live (pol_Meta x) = true ->
  obj_key (k:=KS3Policy) o <> obj_key (k:=KS3Policy) x ->
  claim_name o = claim_name x -> claim_cluster o = claim_cluster x ->
  exec env (PolicyController.mapToNameClaimants o) s s' keys -> obj_key (k:=KS3Policy) x ∈ keys.
Proof.
  intros Hl Hx Hlive Hk Hn Hc (r & s1 & Hr & Hrest). apply (Hl None) in Hr as ->.
  rewrite in_all_namespaces in Hrest. destruct Hrest as [_ ->].
  apply list_elem_of_fmap. exists x. split; [done|]. apply list_elem_of_In, filter_In. split; [by apply list_elem_of_In|].
  rewrite key_differs by done. rewrite Hlive. cbn [negb].
  rewrite (bool_decide_true (policyIAMName x = _)), bool_decide_true; done.
Qed.

Lemma identities_wake : wakes (k:=KS3Identity) identity_controller identity_verdict (fun _ => True).
Proof.
  intros S env ev rest x s s' reqs [_ Hk] _ Hl Hx Hlive Hne.
  destruct (verdict_changes (T:=S3Identity) _ _ _ _ Hne) as (o & Ho & Hn & Hc).
  apply (requests_reach env identity_controller ev false IdentityController.mapToNameClaimants o);
    [by left|done|done|]. intros s0 s1 keys. apply identities_mapped with (store_after ev rest); try done.
  - apply elem_of_app. by right.
  - by apply Hk.
Qed.
Lemma policies_wake : wakes (k:=KS3Policy) policy_controller policy_verdict (fun _ => True).
Proof.
  intros S env ev rest x s s' reqs [_ Hk] _ Hl Hx Hlive Hne.
  destruct (verdict_changes (T:=S3Policy) _ _ _ _ Hne) as (o & Ho & Hn & Hc).
  apply (requests_reach env policy_controller ev false PolicyController.mapToNameClaimants o);
    [by left|done|done|]. intros s0 s1 keys. apply policies_mapped with (store_after ev rest); try done.
  - apply elem_of_app. by right.
  - by apply Hk.
Qed.

(** ** Lifecycle policies

    What the API server keeps: the creation time never changes, and a change of the spec
    or a deletion is a new generation. *)
Definition generation_law (ev : change KLifecyclePolicy) : Prop :=
  forall o n, before ev = Some o -> after ev = Some n ->
    CreationTimestamp (lp_Meta o) = CreationTimestamp (lp_Meta n) /\
    (Generation (lp_Meta o) = Generation (lp_Meta n) ->
     lp_Spec o = lp_Spec n /\ live (lp_Meta o) = live (lp_Meta n)).

(** The loop that picks the owner looks at names, times and references only. *)
Definition owner_step (x owner p : BucketLifecyclePolicy) : BucketLifecyclePolicy :=
  if bool_decide (Name (lp_Meta p) = Name (lp_Meta x)) ||
     negb (bool_decide (lpspec_BucketRef (lp_Spec p) = lpspec_BucketRef (lp_Spec x))) ||
     negb (live (lp_Meta p))
  then owner else if LifecyclePolicy.policyPrecedes p owner then p else owner.
Definition same_rank (p q : BucketLifecyclePolicy) : Prop :=
  Name (lp_Meta p) = Name (lp_Meta q) /\ CreationTimestamp (lp_Meta p) = CreationTimestamp (lp_Meta q).
Lemma precedes_rank p p' q q' : same_rank p p' -> same_rank q q' ->
  LifecyclePolicy.policyPrecedes p q = LifecyclePolicy.policyPrecedes p' q'.
Proof. intros [Hn Ht] [Hn' Ht']. unfold LifecyclePolicy.policyPrecedes. by rewrite Hn, Ht, Hn', Ht'. Qed.
Lemma owner_step_rank x p q y : same_rank p q -> same_rank (owner_step x p y) (owner_step x q y).
Proof.
  intros Hr. unfold owner_step. destruct (_ || _); [done|].
  rewrite (precedes_rank y y p q) by done. by destruct (LifecyclePolicy.policyPrecedes _ _).
Qed.
Lemma pick_rank x l p q : same_rank p q -> same_rank (foldl (owner_step x) p l) (foldl (owner_step x) q l).
Proof. revert p q; induction l as [|y l IH]; intros p q Hr; simpl; [done|]. by apply IH, owner_step_rank. Qed.

(** Policies that the loop skips. *)
Lemma pick_skips x l p :
  Forall (fun o => Name (lp_Meta o) <> Name (lp_Meta x) ->
                   lpspec_BucketRef (lp_Spec o) <> lpspec_BucketRef (lp_Spec x)) l ->
  foldl (owner_step x) p l = p.
Proof.
  revert p; induction l as [|o l IH]; intros p; simpl; [done|]. intros [Ho Hl]%Forall_cons. rewrite <-(IH p) at 2 by done.
  f_equal. unfold owner_step. case_bool_decide as Hn; [done|]. simpl. rewrite bool_decide_false by auto. done.
Qed.
Lemma in_namespace_app {k} ns (l1 l2 : list (Obj k)) : in_namespace ns (l1 ++ l2) = in_namespace ns l1 ++ in_namespace ns l2.
Proof. apply List.filter_app. Qed.

(** A peer of [x]: another policy of the same bucket. *)
Definition same_bucket (x o : BucketLifecyclePolicy) : Prop :=
  Namespace (lp_Meta o) = Namespace (lp_Meta x) /\ Name (lp_Meta o) <> Name (lp_Meta x) /\
  lpspec_BucketRef (lp_Spec o) = lpspec_BucketRef (lp_Spec x).
#[local] Instance same_bucket_dec x o : Decision (same_bucket x o).
Proof. unfold same_bucket. apply _. Defined.

Lemma verdict_kept x (olds news rest : list BucketLifecyclePolicy) :
  Forall (fun o => ~ same_bucket x o) olds -> Forall (fun o => ~ same_bucket x o) news ->
  lifecycle_verdict x (olds ++ rest) = lifecycle_verdict x (news ++ rest).
Proof.
  assert (Hskip : forall os, Forall (fun o => ~ same_bucket x o) os ->
    foldl (owner_step x) x (in_namespace (k:=KLifecyclePolicy) (Some (Namespace (lp_Meta x))) os) = x).
  { intros os Hos. apply pick_skips, Forall_forall. intros o [Ho Hns]%(elem_of_in_namespace (k:=KLifecyclePolicy)) Hn Hr.
    rewrite Forall_forall in Hos. by apply (Hos o Ho). }
  intros Ho Hn. unfold lifecycle_verdict, LifecyclePolicy.pick_owner. fold (owner_step x).
  rewrite !(in_namespace_app (k:=KLifecyclePolicy)), !foldl_app. by rewrite (Hskip olds Ho), (Hskip news Hn).
Qed.

(** A new status moves no verdict. *)
Lemma verdict_status x (o n : BucketLifecyclePolicy) rest :
  obj_key (k:=KLifecyclePolicy) o = obj_key (k:=KLifecyclePolicy) n ->
  CreationTimestamp (lp_Meta o) = CreationTimestamp (lp_Meta n) ->
  lp_Spec o = lp_Spec n -> live (lp_Meta o) = live (lp_Meta n) ->
  lifecycle_verdict x ([o] ++ rest) = lifecycle_verdict x ([n] ++ rest).
Proof.
  intros [= Hns Hn] Ht Hs Hl. unfold lifecycle_verdict, LifecyclePolicy.pick_owner. fold (owner_step x).
  rewrite !(in_namespace_app (k:=KLifecyclePolicy)), !foldl_app. apply pick_rank.
  unfold in_namespace. cbn [List.filter obj_meta] in *. rewrite Hns. case_bool_decide; [|done]. cbn [foldl].
  unfold owner_step. rewrite Hn, Hs, Hl. destruct (_ || _); [done|].
  rewrite (precedes_rank o n x x) by done. by destruct (LifecyclePolicy.policyPrecedes _ _).
Qed.

Lemma peers_mapped {S} (env : Env opE S) (o x : BucketLifecyclePolicy) (items : list BucketLifecyclePolicy) s s' keys :
  lists (k:=KLifecyclePolicy) env items -> x ∈ items -> same_bucket x o ->
  exec env (LifecyclePolicy.mapPolicyToPeers o) s s' keys -> obj_key (k:=KLifecyclePolicy) x ∈ keys.
Proof.
  intros Hl Hx (Hns & Hn & Hr) (r & s1 & Hr1 & Hrest). apply (Hl (Some _)) in Hr1 as ->. destruct Hrest as [_ ->].
  apply list_elem_of_fmap. exists x. split; [done|]. apply list_elem_of_In, filter_In.
  split; [by apply list_elem_of_In, (elem_of_in_namespace (k:=KLifecyclePolicy))|]. by rewrite bool_decide_false, bool_decide_true by auto.
Qed.

Lemma lifecycles_wake : wakes (k:=KLifecyclePolicy) lifecycle_controller lifecycle_verdict generation_law.
Proof.
  intros S env ev rest x s s' reqs [Hsame _] Hgen Hl Hx _ Hne.
  destruct (decide (Exists (same_bucket x) (changed ev))) as [(o & Ho & Hb)%Exists_exists|Hno].
  - apply (requests_reach env lifecycle_controller ev true LifecyclePolicy.mapPolicyToPeers o);
      [by right; left| |done|].
    + apply not_true_iff_false. cbn [andb]. unfold generation_kept, generation_law, store_before, store_after in *.
      destruct (before ev) as [b|], (after ev) as [a|]; [|done..]. intros Hg%bool_decide_eq_true.
      destruct (Hgen b a eq_refl eq_refl) as [Ht Hk]. destruct (Hk Hg). by apply Hne, verdict_status; [apply Hsame|..].
    + intros s0 s1 keys. apply peers_mapped with (store_after ev rest); [done| |done]. apply elem_of_app. by right.
  - apply Forall_Exists_neg, Forall_app in Hno as [? ?]. by destruct Hne; apply verdict_kept.
Qed.

(** C12. No change of a verdict over a contested name goes unnoticed.  Whatever happens to
    one identity, policy or lifecycle policy - created, changed, deleted - every other
    live resource that is thereby told something new about its name (that it now owns
    it, or who does) is enqueued by the watches of its controller, provided the lists of
    the event mappers reflect the event.  For lifecycle policies, whose watch drops
    events that keep the generation, this relies on the API server: a change of the spec
    and a deletion are new generations.  So the claimant that succeeds to a name is woken
    without waiting for its next resync. *)
Theorem verdicts_watched :
  wakes (k:=KS3Identity) identity_controller identity_verdict (fun _ => True) /\
  wakes (k:=KS3Policy) policy_controller policy_verdict (fun _ => True) /\
  wakes (k:=KLifecyclePolicy) lifecycle_controller lifecycle_verdict generation_law.
Proof. split; [exact identities_wake|]. split; [exact policies_wake|exact lifecycles_wake]. Qed.

(** The verdicts are what the controllers go by. *)
Lemma identity_verdict_computed {S} (env : Env opE S) x items s s' r :
  lists (k:=KS3Identity) env items -> exec env (identityConflict x (identityIAMName x)) s s' r ->
  r = Ok (identity_verdict x items).
Proof.
  intros Hl. revert s' r. apply wp_exec. apply identityConflict_wp. intros r s1 Hr. apply (Hl None) in Hr as ->.
  by rewrite in_all_namespaces.
Qed.
Lemma lifecycle_verdict_computed {S} (env : Env opE S) x items s s' r :
  lists (k:=KLifecyclePolicy) env items -> exec env (LifecyclePolicy.bucketOwner x) s s' r ->
  r = Ok (lifecycle_verdict x items).
Proof. intros Hl (l & s1 & Hr & Hrest). apply (Hl (Some _)) in Hr as ->. by destruct Hrest as [_ ->]. Qed.

(** ** Owned objects *)
(** An event of an object that a resource controls wakes the resource. *)
Theorem owned_watched {S} (env : Env opE S) (c : controller) {k} (ev : change k) o r s s' reqs :
  Owns k ∈ watches c -> o ∈ changed ev -> controller_of (obj_meta o) = Some r ->
  owner_Kind r = owner_kind (For c) -> exec env (requests c ev) s s' reqs ->
  {| nn_Namespace := Namespace (obj_meta o); nn_Name := owner_Name r |} ∈ reqs.
Proof.
  intros Hw Ho Hr Hk (rs & s1 & Hx & [-> ->])%exec_bind. apply elem_of_app. right.
  eapply map_all_reaches; [exact Hw| |exact Hx]. clear s s1 rs Hx. intros s s1 x [-> ->].
  rewrite bool_decide_true by done. apply list_elem_of_In, in_flat_map. exists o. split; [by apply list_elem_of_In|].
  unfold owner_requests. rewrite Hr, bool_decide_true by done. by left.
Qed.

(** The controller of the clusters watches nothing but clusters: no change of a
    StatefulSet, Deployment, Service or Secret of a cluster wakes it. *)
Theorem cluster_objects_unwatched {S} (env : Env opE S) {k} (ev : change k) s s' reqs :
  k <> KSeaweed -> exec env (requests seaweed_controller ev) s s' reqs -> reqs = [].
Proof. intros Hk. unfold requests. rewrite bool_decide_false by (cbn; congruence). by intros [-> ->]. Qed.

(** ** Evaluations *)
(** An API server that keeps its identities. *)
Definition keeps_identities (items : list S3Identity) : Env opE () := fun X e _ x _ =>
  match e in opE X return X -> Prop with
  | OKube e =>
      match e in kubeE X return X -> Prop with
      | KList k ns _ =>
          match k return result (list (Obj k)) -> Prop with
          | KS3Identity => fun r => r = Ok (in_namespace (k:=KS3Identity) ns items)
          | _ => fun _ => True
          end
      | _ => fun _ => True
      end
  | _ => fun _ => True
  end x.
Definition first_alice : S3Identity := sample_identity "a" "x" "alice" 5%Z.
Definition second_alice : S3Identity := sample_identity "b" "y" "alice" 9%Z.
Definition first_deleted : change KS3Identity :=
  {| before := Some first_alice : option (Obj KS3Identity); after := None |}.
(** The younger claimant of a user name is woken when the older one is deleted. *)
Lemma verdicts_watched_witness :
  identity_verdict second_alice [first_alice; second_alice] = Some first_alice /\
  identity_verdict second_alice [second_alice] = None /\
  forall reqs, exec (keeps_identities [second_alice]) (requests identity_controller first_deleted) tt tt reqs ->
    {| nn_Namespace := "b"; nn_Name := "y" |} ∈ reqs.
Proof.
  split; [by vm_compute|]. split; [by vm_compute|]. intros reqs.
  destruct verdicts_watched as [Hw _].
  apply (Hw unit (keeps_identities [second_alice]) first_deleted [second_alice] second_alice); try done.
  - split; [done|]. intros o x [->|[]%elem_of_nil]%elem_of_cons [->|[]%elem_of_nil]%elem_of_cons. by vm_compute.
  - by intros ns s r s1.
  - by left.
Defined.
