(* ===== verification/Operator.v ===== *)
(** * The operator binary (cmd/main.go)

    The registration of the controllers, the backup scheduler, the webhook and the probes
    with the manager of controller-runtime, and its start.  The first registration that
    fails ends the process. *)
From S2P Require Import Prelude Prog CoreTypes ApiTypes Effects Sim Watches BucketController.
From S2P Require Import BackupScheduler BucketUsage.
From S2P Require LifecyclePolicy.

(** ** Flags *)
Record Flags := {
  metricsAddr : string;
  probeAddr : string;
  enableLeaderElection : bool;
  secureMetrics : bool;
  enableHTTP2 : bool;
  bucketUsageInterval : Z;
  bucketResyncInterval : Z;
}.
Definition DefaultBucketResyncInterval : Z := 5 * Minute.
Definition default_flags : Flags := {|
  metricsAddr := "0"; probeAddr := ":8081"; enableLeaderElection := false; secureMetrics := false;
  enableHTTP2 := false; bucketUsageInterval := DefaultUsageRefreshInterval;
  bucketResyncInterval := DefaultBucketResyncInterval |}.

(** [ctrl.Options], with the protocols the servers may negotiate ([None]: any). *)
Record ManagerOptions := {
  mo_BindAddress : string;
  mo_SecureServing : bool;
  mo_Authenticated : bool;
  mo_NextProtos : option (list string);
  mo_WebhookNextProtos : option (list string);
  mo_HealthProbeBindAddress : string;
  mo_LeaderElection : bool;
  mo_LeaderElectionID : string;
}.
Definition disableHTTP2 : list string := ["http/1.1"].
Definition manager_options (f : Flags) : ManagerOptions :=
  let tlsOpts := if enableHTTP2 f then None else Some disableHTTP2 in {|
  mo_BindAddress := metricsAddr f; mo_SecureServing := secureMetrics f; mo_Authenticated := secureMetrics f;
  mo_NextProtos := tlsOpts; mo_WebhookNextProtos := tlsOpts;
  mo_HealthProbeBindAddress := probeAddr f; mo_LeaderElection := enableLeaderElection f;
  mo_LeaderElectionID := "674006ec.seaweedfs.com" |}.

(** ** Calls on the manager *)
Inductive runnable :=
| UsageRefresher (interval : Z)
| Scheduler (interval : Z).
(** A reconciler with what its registration depends on. *)
Inductive reconciler :=
| SeaweedReconciler
| BucketReconciler (UsageRefreshInterval ResyncInterval : Z)
| BucketLifecyclePolicyReconciler (ResyncInterval : Z)
| S3IdentityReconciler | S3CredentialsReconciler | S3PolicyReconciler | S3PolicyBindingReconciler
| S3OIDCProviderReconciler | SeaweedBackupReconciler | SeaweedRestoreReconciler
| AdminScriptReconciler | SeaweedCSIDriverReconciler.
Inductive registration :=
| Controller (r : reconciler) (c : controller)
| Add (r : runnable)
| Webhook
| HealthzCheck
| ReadyzCheck.
Inductive mainE : Type -> Type :=
| Getenv (name : string) : mainE string
| AddToScheme (types : string) : mainE (option error)
| NewManager (o : ManagerOptions) : mainE (option error)
| Register (r : registration) : mainE (option error)
| Start : mainE (option error).
Abbreviation boot := (prog mainE).

(** ** SetupWithManager *)
Definition Complete (r : reconciler) (c : controller) : boot (option error) := call (Register (Controller r c)).
Definition addUsageRunnable (interval : Z) : boot (option error) := call (Register (Add (UsageRefresher interval))).
Definition bucket_SetupWithManager (UsageRefreshInterval ResyncInterval : Z) : boot (option error) :=
  check Complete (BucketReconciler UsageRefreshInterval ResyncInterval) bucket_controller
  catch err => Ret (Some err);
  if (0 <? UsageRefreshInterval)%Z then
    check addUsageRunnable UsageRefreshInterval catch err => Ret (Some err);
    Ret None
  else Ret None.
(** The scheduler is built without an interval. *)
Definition scheduler_SetupWithManager (Interval : Z) : boot (option error) :=
  call (Register (Add (Scheduler (if bool_decide (Interval = 0%Z) then backupSchedulerInterval else Interval)))).
Definition SetupWithManager (r : reconciler) : boot (option error) :=
  match r with
  | SeaweedReconciler => Complete r seaweed_controller
  | BucketReconciler usage resync => bucket_SetupWithManager usage resync
  | BucketLifecyclePolicyReconciler _ => Complete r lifecycle_controller
  | S3IdentityReconciler => Complete r identity_controller
  | S3CredentialsReconciler => Complete r credentials_controller
  | S3PolicyReconciler => Complete r policy_controller
  | S3PolicyBindingReconciler => Complete r binding_controller
  | S3OIDCProviderReconciler => Complete r oidc_controller
  | SeaweedBackupReconciler => Complete r backup_controller
  | SeaweedRestoreReconciler => Complete r restore_controller
  | AdminScriptReconciler => Complete r script_controller
  | SeaweedCSIDriverReconciler => Complete r csi_controller
  end.
Definition SetupWebhookWithManager : boot (option error) := call (Register Webhook).

(** ** The process

    A process returns from [main] or exits with a code; [utilruntime.Must] panics. *)
Inductive process := Returned | Exited (code : Z) | Panicked.

(** Whether all registrations went through; the first failure exits. *)
Fixpoint setup_all (l : list (boot (option error))) : boot bool :=
  match l with
  | [] => Ret true
  | p :: l => check p catch _ => Ret false; setup_all l
  end.
Definition init (rest : boot process) : boot process :=
  check call (AddToScheme "clientgoscheme") catch _ => Ret Panicked;
  check call (AddToScheme "seaweedv1") catch _ => Ret Panicked;
  check call (AddToScheme "monitorv1") catch _ => Ret Panicked;
  rest.
(** The controllers that are always there, in the order of the file. *)
Definition standard_setups (f : Flags) : list (boot (option error)) := [
  SetupWithManager SeaweedReconciler;
  SetupWithManager (BucketReconciler (bucketUsageInterval f) (bucketResyncInterval f));
  SetupWithManager (BucketLifecyclePolicyReconciler (bucketResyncInterval f));
  SetupWithManager S3IdentityReconciler;
  SetupWithManager S3CredentialsReconciler;
  SetupWithManager S3PolicyReconciler;
  SetupWithManager S3PolicyBindingReconciler;
  SetupWithManager SeaweedBackupReconciler;
  SetupWithManager SeaweedRestoreReconciler;
  scheduler_SetupWithManager 0;
  SetupWithManager AdminScriptReconciler].
(** What an environment variable switches. *)
Definition optional_setup (variable : string) (on : string -> bool) (p : boot (option error)) : boot (option error) :=
  do value <- call (Getenv variable);
  if on value then p else Ret None.
Definition optional_setups : list (boot (option error)) := [
  optional_setup "ENABLE_S3_OIDC_PROVIDER" (String.eqb "true") (SetupWithManager S3OIDCProviderReconciler);
  optional_setup "ENABLE_CSI_DRIVER" (String.eqb "true") (SetupWithManager SeaweedCSIDriverReconciler);
  optional_setup "ENABLE_WEBHOOKS" (fun v => negb (String.eqb "false" v)) SetupWebhookWithManager].
Definition main (f : Flags) : boot process := init (
  check call (NewManager (manager_options f)) catch _ => Ret (Exited 1);
  do ok <- setup_all (standard_setups f ++ optional_setups ++
    [call (Register HealthzCheck); call (Register ReadyzCheck)]);
  if negb ok then Ret (Exited 1) else
  check call Start catch _ => Ret (Exited 1);
  Ret Returned).

(** ** What a start of the operator registers

    A manager that may refuse anything; what it accepts is recorded. *)
Inductive boot_event :=
| Scheme (types : string)
| Manager (o : ManagerOptions)
| Registered (r : registration)
| Started.
Definition accepts (ev : boot_event) (s : list boot_event) (r : option error) (s1 : list boot_event) : Prop :=
  match r with None => s1 = s ++ [ev] | Some _ => s1 = s end.
Definition manager_env (vars : string -> string) : Env mainE (list boot_event) := fun X e s x s1 =>
  match e in mainE X return X -> Prop with
  | Getenv name => fun v => v = vars name /\ s1 = s
  | AddToScheme t => fun r => accepts (Scheme t) s r s1
  | NewManager o => fun r => accepts (Manager o) s r s1
  | Register g => fun r => accepts (Registered g) s r s1
  | Start => fun r => accepts Started s r s1
  end x.

(** A complete start, in order. *)
Definition registered_controllers (f : Flags) (vars : string -> string) : list registration := [
  Controller SeaweedReconciler seaweed_controller;
  Controller (BucketReconciler (bucketUsageInterval f) (bucketResyncInterval f)) bucket_controller] ++
  (if (0 <? bucketUsageInterval f)%Z then [Add (UsageRefresher (bucketUsageInterval f))] else []) ++ [
  Controller (BucketLifecyclePolicyReconciler (bucketResyncInterval f)) lifecycle_controller;
  Controller S3IdentityReconciler identity_controller;
  Controller S3CredentialsReconciler credentials_controller;
  Controller S3PolicyReconciler policy_controller;
  Controller S3PolicyBindingReconciler binding_controller;
  Controller SeaweedBackupReconciler backup_controller;
  Controller SeaweedRestoreReconciler restore_controller;
  Add (Scheduler backupSchedulerInterval);
  Controller AdminScriptReconciler script_controller] ++
  (if String.eqb "true" (vars "ENABLE_S3_OIDC_PROVIDER") then [Controller S3OIDCProviderReconciler oidc_controller] else []) ++
  (if String.eqb "true" (vars "ENABLE_CSI_DRIVER") then [Controller SeaweedCSIDriverReconciler csi_controller] else []) ++
  (if String.eqb "false" (vars "ENABLE_WEBHOOKS") then [] else [Webhook]).
Definition complete_start (f : Flags) (vars : string -> string) : list boot_event :=
  [Scheme "clientgoscheme"; Scheme "seaweedv1"; Scheme "monitorv1"; Manager (manager_options f)] ++
  map Registered (registered_controllers f vars ++ [HealthzCheck; ReadyzCheck]) ++ [Started].

Section boot.
Context (vars : string -> string).
(** A program that records the events and succeeds, or stops behind some of them. *)
Definition emits {A} (ok : A -> Prop) (p : boot A) (evs : list boot_event) : Prop := forall s s' r,
  exec (manager_env vars) p s s' r ->
  ok r /\ s' = s ++ evs \/ ~ ok r /\ exists done rest, evs = done ++ rest /\ rest <> [] /\ s' = s ++ done.
Definition is_none (r : option error) : Prop := r = None.

Lemma emits_call (e : mainE (option error)) ev :
  (forall s r s1, manager_env vars _ e s r s1 -> accepts ev s r s1) -> emits is_none (call e) [ev].
Proof.
  intros He s s' r (x & s1 & Hx & [-> ->]). apply He in Hx. destruct x as [err|]; simpl in Hx; subst s1.
  - right. split; [done|]. exists [], [ev]. split_and!; [done|done|by rewrite app_nil_r].
  - by left.
Qed.
Lemma emits_seq {A} (ok : A -> Prop) (p : boot (option error)) (failure : error -> A) (q : boot A) evs evs' :
  (forall e, ~ ok (failure e)) -> emits is_none p evs -> emits ok q evs' ->
  emits ok (bind p (fun r => match r with Some e => Ret (failure e) | None => q end)) (evs ++ evs').
Proof.
  intros Hf Hp Hq s s' r (x & s1 & Hx & Hr)%exec_bind. apply Hp in Hx as [[-> ->]|(Hx & done & rest & -> & Hne & ->)].
  - apply Hq in Hr as [[Hr ->]|(Hr & done & rest & -> & Hne & ->)].
    + left. by rewrite app_assoc.
    + right. split; [done|]. exists (evs ++ done), rest. by rewrite !app_assoc.
  - destruct x as [e|]; [|by destruct Hx]. destruct Hr as [-> ->]. right. split; [apply Hf|].
    exists done, (rest ++ evs'). rewrite app_assoc. split_and!; [done| |done]. by destruct rest.
Qed.
Lemma emits_ret : emits is_none (Ret None) [].
Proof. intros s s' r [-> ->]. left. by rewrite app_nil_r. Qed.
Lemma emits_optional variable on p evs :
  emits is_none p evs -> emits is_none (optional_setup variable on p) (if on (vars variable) then evs else []).
Proof.
  intros Hp s s' r (v & s1 & [-> ->] & Hr). unfold optional_setup in Hr. cbn [bind] in Hr.
  destruct (on _); [by apply Hp|by apply emits_ret].
Qed.
Lemma emits_setups l evs : Forall2 (emits is_none) l evs ->
  emits (eq true) (setup_all l) (concat evs).
Proof.
  induction 1 as [|p ev l evs Hp Hl IH]; simpl.
  - intros s s' r [-> ->]. left. by rewrite app_nil_r.
  - by apply (emits_seq (eq true) p (fun _ => false)).
Qed.
Lemma emits_register r : emits is_none (call (Register r)) [Registered r].
Proof. by apply emits_call. Qed.
Lemma emits_bucket usage resync : emits is_none (bucket_SetupWithManager usage resync)
  (Registered (Controller (BucketReconciler usage resync) bucket_controller) ::
   if (0 <? usage)%Z then [Registered (Add (UsageRefresher usage))] else []).
Proof.
  unfold bucket_SetupWithManager. apply (emits_seq is_none _ Some _ [_]); [done|by apply emits_call|].
  destruct (0 <? usage)%Z; [|exact emits_ret].
  apply (emits_seq is_none _ Some _ [_] []); [done|by apply emits_call|exact emits_ret].
Qed.

Lemma emits_setups_then {B} (ok : B -> Prop) l evs (failure : B) (q : boot B) evs' :
  ~ ok failure -> Forall2 (emits is_none) l evs -> emits ok q evs' ->
  emits ok (bind (setup_all l) (fun r => if negb r then Ret failure else q)) (concat evs ++ evs').
Proof.
  intros Hf Hl%emits_setups Hq s s' r (x & s1 & Hx & Hr)%exec_bind.
  apply Hl in Hx as [[<- ->]|(Hx & done & rest & E & Hne & ->)].
  - apply Hq in Hr as [[Hr ->]|(Hr & done & rest & -> & Hne & ->)].
    + left. by rewrite app_assoc.
    + right. split; [done|]. exists (concat evs ++ done), rest. by rewrite !app_assoc.
  - destruct x; [done|]. destruct Hr as [-> ->]. right. split; [done|].
    exists done, (rest ++ evs'). rewrite E, app_assoc. split_and!; [done| |done]. by destruct rest.
Qed.

Definition registered_events (f : Flags) : list (list boot_event) := [
  [Registered (Controller SeaweedReconciler seaweed_controller)];
  Registered (Controller (BucketReconciler (bucketUsageInterval f) (bucketResyncInterval f)) bucket_controller) ::
    (if (0 <? bucketUsageInterval f)%Z then [Registered (Add (UsageRefresher (bucketUsageInterval f)))] else []);
  [Registered (Controller (BucketLifecyclePolicyReconciler (bucketResyncInterval f)) lifecycle_controller)];
  [Registered (Controller S3IdentityReconciler identity_controller)];
  [Registered (Controller S3CredentialsReconciler credentials_controller)];
  [Registered (Controller S3PolicyReconciler policy_controller)];
  [Registered (Controller S3PolicyBindingReconciler binding_controller)];
  [Registered (Controller SeaweedBackupReconciler backup_controller)];
  [Registered (Controller SeaweedRestoreReconciler restore_controller)];
  [Registered (Add (Scheduler backupSchedulerInterval))];
  [Registered (Controller AdminScriptReconciler script_controller)];
  if String.eqb "true" (vars "ENABLE_S3_OIDC_PROVIDER")
  then [Registered (Controller S3OIDCProviderReconciler oidc_controller)] else [];
  if String.eqb "true" (vars "ENABLE_CSI_DRIVER")
  then [Registered (Controller SeaweedCSIDriverReconciler csi_controller)] else [];
  if negb (String.eqb "false" (vars "ENABLE_WEBHOOKS")) then [Registered Webhook] else [];
  [Registered HealthzCheck]; [Registered ReadyzCheck]].
Lemma registered_events_flat f :
  concat (registered_events f) = map Registered (registered_controllers f vars ++ [HealthzCheck; ReadyzCheck]).
Proof.
  unfold registered_events, registered_controllers.
  destruct (0 <? _)%Z, (String.eqb "true" (vars "ENABLE_S3_OIDC_PROVIDER")),
    (String.eqb "true" (vars "ENABLE_CSI_DRIVER")), (String.eqb "false" (vars "ENABLE_WEBHOOKS")); reflexivity.
Qed.

Lemma main_emits f : emits (eq Returned) (main f) (complete_start f vars).
Proof.
  unfold main, init, complete_start. rewrite <-registered_events_flat.
  do 3 (apply (emits_seq _ _ (fun _ => Panicked) _ [_]); [done|by apply emits_call|]).
  apply (emits_seq _ _ (fun _ => Exited 1) _ [_]); [done|by apply emits_call|].
  apply emits_setups_then; [done| |].
  - unfold standard_setups, optional_setups, registered_events. cbn [app].
    repeat (apply Forall2_cons; split; [first [by apply emits_register | exact (emits_bucket _ _)
      | by apply (emits_optional _ (String.eqb "true")), emits_register
      | by apply (emits_optional _ (fun v => negb (String.eqb "false" v))), emits_register]|]). done.
  - apply (emits_seq _ _ (fun _ => Exited 1) _ [_] []); [done|by apply emits_call|].
    intros s s' r [-> ->]. left. by rewrite app_nil_r.
Qed.
End boot.

(** However the manager answers, a start of the operator registers, in this order and
    without gaps, a prefix of: the schemes, the manager with the options of the flags,
    the controllers with the watches of their files, the usage loop if its interval is
    positive, the backup scheduler at its own interval, the two optional controllers
    where their variables are exactly true, the webhook unless its variable is false,
    and the two probes.  The manager is started after all of that or not at all, and
    the process only ends without an error code after it was. *)
Theorem operator_starts_complete vars f s p :
  exec (manager_env vars) (main f) [] s p ->
  (exists rest, complete_start f vars = s ++ rest) /\
  (Started ∈ s <-> p = Returned) /\ (p = Returned -> s = complete_start f vars).
Proof.
  intros [[<- ->]|(Hp & done & rest & E & Hne & ->)]%main_emits; simpl app.
  - split; [exists []; by rewrite app_nil_r|]. split; [|done]. split; [done|]. intros _.
    unfold complete_start. rewrite !elem_of_app. right. right. by left.
  - split; [by exists rest|]. split; [|by intros ->]. split; [|by intros ->]. intros Hs. exfalso.
    destruct rest as [|ev rest _] using rev_ind; [done|]. unfold complete_start in E.
    rewrite !app_assoc in E. apply app_inj_tail in E as [E _].
    revert Hs. assert (Hno : Forall (fun ev => ev <> Started) (done ++ rest)).
    { rewrite <-E. apply Forall_app_2; [by repeat constructor|]. apply Forall_fmap, Forall_true. done. }
    apply Forall_app in Hno as [Hno _]. rewrite Forall_forall in Hno. intros Hs. by apply (Hno _ Hs).
Qed.

(** No two controllers of an operator reconcile the same kind. *)
Theorem controllers_distinct f vars :
  NoDup (flat_map (fun r => match r with Controller _ c => [For c] | _ => [] end) (registered_controllers f vars)).
Proof.
  unfold registered_controllers. apply (bool_decide_unpack _).
  destruct (0 <? _)%Z, (String.eqb "true" (vars "ENABLE_S3_OIDC_PROVIDER")),
    (String.eqb "true" (vars "ENABLE_CSI_DRIVER")), (String.eqb "false" (vars "ENABLE_WEBHOOKS")); reflexivity.
Qed.

Definition no_vars : string -> string := fun _ => "".
(** A manager that accepts everything. *)
Definition accepting (vars : string -> string) : Handler mainE (list boot_event) := fun X e s =>
  match e in mainE X return list boot_event * X with
  | Getenv name => (s, vars name)
  | AddToScheme t => (s ++ [Scheme t], None)
  | NewManager o => (s ++ [Manager o], None)
  | Register g => (s ++ [Registered g], None)
  | Start => (s ++ [Started], None)
  end.
Lemma accepting_refines vars : refines (accepting vars) (manager_env vars).
Proof. intros X e s. by destruct e. Qed.
Lemma operator_starts_complete_witness :
  let x := run (accepting no_vars) (main default_flags) [] in
  length x.1 = 20%nat /\ x.1 = complete_start default_flags no_vars.
Proof.
  intros x. split; [by vm_compute|].
  apply (operator_starts_complete no_vars default_flags x.1 x.2); [|by vm_compute].
  apply run_exec, accepting_refines.
Defined.
