(* ===== verification/Rbac.v ===== *)
(** * The permissions of the operator (the kubebuilder:rbac markers)

    Every controller file lists, in markers, the permissions its controller needs; the
    ClusterRole of the operator is generated from them.  Here the markers are data, the
    calls of every handler are held against them, and the API server that enforces them
    is an environment. *)
From S2P Require Import Prelude Prog CoreTypes ApiTypes Effects Machinery Sim Trace.
From S2P Require Import RefGrant Cluster Upsert BucketController CsiObjects CsiController.
From S2P Require Import BucketUsage.
From S2P Require AdminScripts BackupController BackupScheduler BindingController BackupMirror ClusterStatus SecurityConfig ClusterController.
From S2P Require CredentialsController IamPolicy IdentityController Ingresses LifecyclePolicy OidcController PolicyController RestoreController.

(** ** Rules *)
Definition seaweedfs : string := "seaweed.seaweedfs.com".
Definition reads : list string := ["get"; "list"; "watch"].
Definition all_verbs : list string := reads ++ ["create"; "update"; "patch"; "delete"].

(** The three markers every controller has for its own resource. *)
Definition own_resource (resource : string) : list PolicyRule := [
  {| pr_APIGroups := [seaweedfs]; pr_Resources := [resource]; pr_Verbs := all_verbs |};
  {| pr_APIGroups := [seaweedfs]; pr_Resources := [resource +:+ "/status"]; pr_Verbs := ["get"; "update"; "patch"] |};
  {| pr_APIGroups := [seaweedfs]; pr_Resources := [resource +:+ "/finalizers"]; pr_Verbs := ["update"] |}].

Definition seaweed_rules : list PolicyRule := own_resource "seaweeds" ++ [
  rule "apps" ["statefulsets"] all_verbs;
  rule "apps" ["daemonsets"] all_verbs;
  rule "apps" ["deployments"] all_verbs;
  rule "" ["services"] all_verbs;
  rule "" ["configmaps"] all_verbs;
  rule "" ["events"] ["create"; "patch"];
  rule "extensions" ["ingresses"] all_verbs;
  rule "networking.k8s.io" ["ingresses"] all_verbs;
  rule "monitoring.coreos.com" ["servicemonitors"] all_verbs;
  rule "cert-manager.io" ["issuers"; "certificates"] all_verbs;
  rule "" ["pods"] reads].
Definition bucket_rules : list PolicyRule := own_resource "buckets".
Definition lifecycle_rules : list PolicyRule :=
  own_resource "bucketlifecyclepolicies" ++ [rule seaweedfs ["buckets"] reads].
Definition grant_rules : list PolicyRule := [
  rule seaweedfs ["resourcereferencegrants"] reads;
  rule "" ["namespaces"] reads].
Definition identity_rules : list PolicyRule := own_resource "s3identities".
Definition policy_rules : list PolicyRule := own_resource "s3policies".
Definition oidc_rules : list PolicyRule := own_resource "s3oidcproviders".
Definition binding_rules : list PolicyRule :=
  own_resource "s3policybindings" ++ [rule seaweedfs ["s3policies"; "s3identities"] reads].
Definition credentials_rules : list PolicyRule :=
  own_resource "s3credentials" ++ [rule seaweedfs ["s3identities"] reads; rule "" ["secrets"] all_verbs].
Definition backup_rules : list PolicyRule :=
  own_resource "seaweedbackups" ++ [rule "batch" ["jobs"] all_verbs].
Definition restore_rules : list PolicyRule := own_resource "seaweedrestores".
Definition script_rules : list PolicyRule :=
  own_resource "adminscripts" ++ [rule "batch" ["cronjobs"] all_verbs].
Definition csi_rules : list PolicyRule := own_resource "seaweedcsidrivers" ++ [
  rule "apps" ["deployments"; "daemonsets"] all_verbs;
  rule "" ["serviceaccounts"] all_verbs;
  rule "storage.k8s.io" ["csidrivers"; "storageclasses"] all_verbs;
  rule "rbac.authorization.k8s.io" ["clusterroles"; "clusterrolebindings"; "roles"; "rolebindings"]
    (all_verbs ++ ["bind"; "escalate"]);
  rule "" ["persistentvolumes"; "persistentvolumeclaims"; "nodes"; "pods"; "secrets"; "events"] all_verbs;
  rule "storage.k8s.io" ["volumeattachments"; "csinodes"] (reads ++ ["update"; "patch"]);
  rule "snapshot.storage.k8s.io" ["volumesnapshots"; "volumesnapshotcontents"] ["get"; "list"];
  rule "coordination.k8s.io" ["leases"] all_verbs].

(** The ClusterRole of the operator. *)
Definition manager_role : list PolicyRule :=
  seaweed_rules ++ bucket_rules ++ lifecycle_rules ++ grant_rules ++ identity_rules ++ policy_rules ++
  oidc_rules ++ binding_rules ++ credentials_rules ++ backup_rules ++ restore_rules ++ script_rules ++ csi_rules.

(** ** What a call needs

    The API group and the resource of a kind, and the requests a call makes of the API
    server.  A [Get] or [List] of controller-runtime's client reads from a cache that a
    list and a watch fill; a deletion of a collection is a verb of its own. *)
Definition resource (k : Kind) : string * string :=
  match k with
  | KSeaweed => (seaweedfs, "seaweeds")
  | KGrant => (seaweedfs, "resourcereferencegrants")
  | KS3Identity => (seaweedfs, "s3identities")
  | KS3Policy => (seaweedfs, "s3policies")
  | KS3PolicyBinding => (seaweedfs, "s3policybindings")
  | KS3Credentials => (seaweedfs, "s3credentials")
  | KS3OIDCProvider => (seaweedfs, "s3oidcproviders")
  | KBucket => (seaweedfs, "buckets")
  | KLifecyclePolicy => (seaweedfs, "bucketlifecyclepolicies")
  | KBackup => (seaweedfs, "seaweedbackups")
  | KRestore => (seaweedfs, "seaweedrestores")
  | KAdminScript => (seaweedfs, "adminscripts")
  | KSeaweedCSIDriver => (seaweedfs, "seaweedcsidrivers")
  | KSecret => ("", "secrets")
  | KNamespace => ("", "namespaces")
  | KConfigMap => ("", "configmaps")
  | KPod => ("", "pods")
  | KService => ("", "services")
  | KServiceAccount => ("", "serviceaccounts")
  | KStatefulSet => ("apps", "statefulsets")
  | KDeployment => ("apps", "deployments")
  | KDaemonSet => ("apps", "daemonsets")
  | KJob => ("batch", "jobs")
  | KCronJob => ("batch", "cronjobs")
  | KServiceMonitor => ("monitoring.coreos.com", "servicemonitors")
  | KIngress => ("networking.k8s.io", "ingresses")
  | KIssuer => ("cert-manager.io", "issuers")
  | KCertificate => ("cert-manager.io", "certificates")
  | KClusterRole => ("rbac.authorization.k8s.io", "clusterroles")
  | KClusterRoleBinding => ("rbac.authorization.k8s.io", "clusterrolebindings")
  | KRole => ("rbac.authorization.k8s.io", "roles")
  | KRoleBinding => ("rbac.authorization.k8s.io", "rolebindings")
  | KCSIDriver => ("storage.k8s.io", "csidrivers")
  | KStorageClass => ("storage.k8s.io", "storageclasses")
  end.

Definition request : Type := string * string * string.
Definition on (k : Kind) (verbs : list string) : list request := map (fun v => (resource k, v)) verbs.
Definition on_status (k : Kind) (verb : string) : list request :=
  [((resource k).1, (resource k).2 +:+ "/status", verb)].
Definition kube_needs {X} (e : kubeE X) : list request :=
  match e with
  | KGet k _ => on k reads
  | KList k _ _ => on k reads
  | KCreate k _ => on k ["create"]
  | KUpdate k _ => on k ["update"]
  | KStatusUpdate k _ => on_status k "update"
  | KPatch k _ _ => on k ["patch"]
  | KStatusPatch k _ _ => on_status k "patch"
  | KDelete k _ | KDeleteUID k _ _ => on k ["delete"]
  | KDeleteAllOf k _ => on k ["deletecollection"]
  | KCreateOrUpdate k _ _ => on k (reads ++ ["create"; "update"])
  end.
Definition needs {X} (e : opE X) : list request :=
  match e with
  | OKube e => kube_needs e
  | OMonitorAvailable => on KServiceMonitor reads
  | OEvent _ _ _ => [("", "events", "create"); ("", "events", "patch")]
  | _ => []
  end.

(** The decision of the RBAC authorizer. *)
Definition string_in (s : string) (l : list string) : bool := existsb (String.eqb s) l.
Definition allows (rules : list PolicyRule) (r : request) : bool :=
  let '(group, resource, verb) := r in
  existsb (fun p => string_in group (pr_APIGroups p) && string_in resource (pr_Resources p) &&
                    string_in verb (pr_Verbs p)) rules.
Definition permitted (rules : list PolicyRule) {X} (e : opE X) : bool := forallb (allows rules) (needs e).

(** ** Programs that stay within a set of calls *)
Fixpoint only {A} (P : forall X, opE X -> Prop) (p : op A) : Prop :=
  match p with
  | Ret _ => True
  | Vis e k => P _ e /\ forall x, only P (k x)
  end.

Section only.
Context (P : forall X, opE X -> Prop).

Lemma only_bind {A B} (p : op A) (f : A -> op B) : only P p -> (forall a, only P (f a)) -> only P (bind p f).
Proof. intros Hp Hf. induction p as [a|X e k IH]; simpl in *; [done|]. split; [apply Hp|]. intros x. by apply IH, Hp. Qed.
Lemma only_call {X} (e : opE X) : P X e -> only P (call e).
Proof. by intros He. Qed.
Lemma only_for_each {A} (l : list A) (body : A -> op ()) : (forall a, only P (body a)) -> only P (for_each l body).
Proof. intros Hb. induction l as [|a l IH]; simpl; [done|]. by apply only_bind. Qed.
Lemma only_for_until {A R} (l : list A) (body : A -> op (option R)) :
  (forall a, only P (body a)) -> only P (for_until l body).
Proof. intros Hb. induction l as [|a l IH]; simpl; [done|]. apply only_bind; [done|]. by intros [r|]. Qed.
Lemma only_fold_until {A B R} (l : list A) (b : B) (body : A -> B -> op (R + B)) :
  (forall a b, only P (body a b)) -> only P (fold_until l b body).
Proof.
  intros Hb. revert b; induction l as [|a l IH]; intros b; simpl; [done|]. apply only_bind; [done|]. by intros [r|].
Qed.

(** What such a program leaves behind. *)
Lemma only_exec {A} (p : op A) tr tr' a :
  only P p -> exec trace_env p tr tr' a ->
  Forall (fun ev => P _ (ev_call ev)) tr -> Forall (fun ev => P _ (ev_call ev)) tr'.
Proof.
  revert tr; induction p as [b|X e k IH]; intros tr; simpl; [by intros _ [-> _]|].
  intros [He Hk] (x & tr1 & -> & Hx) Ht. apply (IH x _ (Hk x) Hx), Forall_app_2; [done|]. by constructor.
Qed.
End only.

Create HintDb within.
(** Walks through a program: every call is decided by evaluation, every branch is
    followed, subprograms are unfolded unless a lemma about them is at hand. *)
Ltac head_of t := match t with ?f _ => head_of f | _ => t end.
Ltac walk_step :=
  lazymatch goal with
  | |- True => exact I
  | |- forall _, _ => intros ?
  | |- only _ (Ret _) => exact I
  | |- only _ (Vis _ _) => split; [try reflexivity|]
  | |- only _ (match ?x with _ => _ end) => destruct x
  | |- only _ (for_each _ _) => apply only_for_each
  | |- only _ (for_until _ _) => apply only_for_until
  | |- only _ (fold_until _ _ _) => apply only_fold_until
  | |- only _ (bind_seg _ _) => unfold bind_seg
  | |- only _ (call _) => apply only_call; try reflexivity
  | |- only _ (let _ := _ in _) => cbv zeta
  | |- only _ ?p => first
      [ solve [eauto 1 with within nocore]
      | lazymatch p with bind _ _ => apply only_bind end
      | let f := head_of p in progress (unfold f; cbv beta) ]
  end.
Ltac walk := repeat walk_step.

(** ** The handlers of the operator

    The programs the operator runs: the reconcilers, the functions that map an event to
    requests, a tick of the backup scheduler and a turn of the usage loop. *)
Section handlers.
Context `{ApiMachinery} `{Owners} `{Digest} `{MapRange} `{BackupScheduler.Cron} `{BackupScheduler.SliceSort}.
Context `{CredentialsController.ControllerRef} `{IamPolicy.JsonErrors} `{LifecyclePolicy.LifecycleXml}.
Context `{SpecJSON ServiceObjSpec} `{SpecJSON PodSpec} `{SpecJSON IngressObjSpec} `{SpecJSON CronJobSpec}.
Context (cert_manager wired recorder : bool) (ResyncInterval : Z).
Context (topology_order : Seaweed -> list (string * option VolumeTopologySpec)).
Context (ingress_order : Seaweed -> list (string * Ingresses.desired_ingress)).
Context (group_order : groups -> list (NamespacedName * list Bucket)).

Inductive operator_program : forall A : Type, op A -> Prop :=
| reconciles_cluster req : operator_program _
    (ClusterController.cluster_Reconcile cert_manager wired recorder topology_order ingress_order req)
| reconciles_bucket req : operator_program _ (BucketController.Reconcile recorder ResyncInterval req)
| refreshes_usage : operator_program _ (BucketUsage.refreshAllUsage group_order)
| reconciles_lifecycle req : operator_program _ (LifecyclePolicy.Reconcile ResyncInterval req)
| maps_bucket b : operator_program _ (LifecyclePolicy.mapBucketToPolicies b)
| maps_lifecycle p : operator_program _ (LifecyclePolicy.mapPolicyToPeers p)
| reconciles_identity req : operator_program _ (IdentityController.Reconcile req)
| maps_identity id : operator_program _ (IdentityController.mapToNameClaimants id)
| reconciles_policy req : operator_program _ (PolicyController.Reconcile req)
| maps_policy p : operator_program _ (PolicyController.mapToNameClaimants p)
| reconciles_binding req : operator_program _ (BindingController.Reconcile req)
| reconciles_credentials req : operator_program _ (CredentialsController.Reconcile req)
| reconciles_provider req : operator_program _ (OidcController.Reconcile req)
| schedules_backups anchors now : operator_program _ (BackupScheduler.tick anchors now)
| reconciles_backup req : operator_program _ (BackupController.Reconcile cert_manager req)
| reconciles_restore req : operator_program _ (RestoreController.Reconcile cert_manager req)
| reconciles_script req : operator_program _ (AdminScripts.Reconcile cert_manager req)
| maps_cluster m : operator_program _ (AdminScripts.mapSeaweedToAdminScripts m)
| reconciles_driver req : operator_program _ (csi_Reconcile req).

(** The calls the roles do not cover: deletions of all cluster roles or bindings of a driver. *)
Definition deletes_roles {X} (e : opE X) : bool :=
  match e with OKube (KDeleteAllOf (KClusterRoleBinding | KClusterRole) _) => true | _ => false end.
Definition covered {X} (e : opE X) : Prop := permitted manager_role e || deletes_roles e = true.

Lemma prune_loop_covered keep count l : only (@covered) (BackupScheduler.prune_loop keep count l).
Proof. revert count; induction l as [|b l IH]; intros count; simpl; walk; apply IH. Qed.
#[local] Hint Resolve prune_loop_covered : within.
Lemma schedules_loop_covered a m l n : only (@covered) (BackupScheduler.schedules_loop a m l n).
Proof. revert a; induction l as [|b l IH]; intros a; simpl; walk; apply IH. Qed.
#[local] Hint Resolve schedules_loop_covered : within.
Lemma clusters_loop_covered a l n : only (@covered) (BackupScheduler.clusters_loop a l n).
Proof. revert a; induction l as [|b l IH]; intros a; simpl; walk; apply IH. Qed.
#[local] Hint Resolve clusters_loop_covered : within.
Lemma fill_keys_covered cfg l keys : only (@covered) (SecurityConfig.fill_keys cfg l keys).
Proof. revert keys; induction l as [|b l IH]; intros keys; simpl; walk; apply IH. Qed.
#[local] Hint Resolve fill_keys_covered : within.
Lemma ensureMirrors_covered m l names statuses :
  only (@covered) (BackupMirror.ensureMirrors cert_manager m l names statuses).
Proof. revert names statuses; induction l as [|b l IH]; intros names statuses; simpl; walk; apply IH. Qed.
#[local] Hint Resolve ensureMirrors_covered : within.
Lemma delete_others_covered k (kept : Obj k -> bool) items :
  (forall o, covered (OKube (KDelete k o))) -> only (@covered) (BackupMirror.delete_others k kept items).
Proof. intros Hk. induction items as [|o items IH]; simpl; walk; apply Hk || apply IH. Qed.
#[local] Hint Extern 1 (only _ (BackupMirror.delete_others _ _ _)) =>
  apply delete_others_covered; intros ?; reflexivity : within.
Lemma topology_status_covered m l total : only (@covered) (ClusterStatus.topology_status m l total).
Proof. revert total; induction l as [|[n [g|]] l IH]; intros total; cbn [ClusterStatus.topology_status]; walk; apply IH. Qed.
#[local] Hint Resolve topology_status_covered : within.

Lemma operator_program_covered (A : Type) (p : op A) : operator_program A p -> only (@covered) p.
Proof. intros Hp. destruct Hp; walk. Qed.

(** C6. Whatever is answered, every call that any of the operator's programs makes of the
    API server - every reconciler on every branch, the event mappers, the backup
    scheduler and the usage loop - is permitted by the role generated from the markers
    of the controllers, with one exception: the deletion of the cluster roles and
    bindings of a CSI driver by label. *)
Theorem calls_permitted (A : Type) (p : op A) tr a :
  operator_program A p -> exec trace_env p [] tr a ->
  Forall (fun ev => permitted manager_role (ev_call ev) = true \/ deletes_roles (ev_call ev) = true) tr.
Proof.
  intros Hp Hx. assert (Hc : Forall (fun ev => covered (ev_call ev)) tr).
  { eapply (only_exec (@covered)); [by apply operator_program_covered|exact Hx|done]. }
  eapply Forall_impl; [exact Hc|]. intros ev Hev. by apply orb_true_iff.
Qed.
End handlers.

(** ** An API server that enforces the role *)
Definition rejected {X} (e : kubeE X) : X -> Prop :=
  match e with
  | KGet _ _ | KList _ _ _ | KPatch _ _ _ => fun r => exists m, r = Err (ErrOther m)
  | _ => fun r => exists m, r = Some (ErrOther m)
  end.
Definition enforced (rules : list PolicyRule) : Env opE trace := fun X e tr x tr' =>
  trace_env X e tr x tr' /\
  (permitted rules e = false -> match e in opE Y return Y -> Prop with OKube e => rejected e | _ => fun _ => True end x).

(** The driver an event fetched. *)
Definition driver_fetched (ev : event) : option SeaweedCSIDriver :=
  match ev_call ev in opE X return X -> option SeaweedCSIDriver with
  | OKube e =>
      match e in kubeE X return X -> option SeaweedCSIDriver with
      | KGet k _ =>
          match k return result (Obj k) -> option SeaweedCSIDriver with
          | KSeaweedCSIDriver => fun r => match r with inr d => Some d | inl _ => None end
          | _ => fun _ => None
          end
      | _ => fun _ => None
      end
  | _ => fun _ => None
  end (ev_answer ev).
Definition is_update (ev : event) : Prop :=
  match ev_call ev with OKube (KUpdate _ _) => True | _ => False end.

Lemma enforced_extends {A} rules (p : op A) tr tr' a :
  exec (enforced rules) p tr tr' a -> exists new, tr' = tr ++ new.
Proof.
  revert tr; induction p as [b|X e k IH]; intros tr; simpl; [intros [-> _]; exists []; by rewrite app_nil_r|].
  intros (x & tr1 & [-> _] & (new & ->)%IH). exists (Ev e x :: new). by rewrite <-app_assoc.
Qed.

(** No rule has the verb that the deletion of a collection needs.  Over an API server
    that enforces the role, a pass over a driver that is being deleted ends with the
    refusal and never comes to remove the finalizer: the driver cannot be deleted. *)
Theorem driver_deletion_stuck `{ApiMachinery} `{Owners} `{Digest} req tr o d :
  exec (enforced manager_role) (csi_Reconcile req) [] tr o ->
  (head tr : option event) ≫= driver_fetched = Some d ->
  live (csi_Meta d) = false -> ContainsFinalizer (Finalizers (csi_Meta d)) seaweedCSIDriverFinalizer = true ->
  (exists m, o = Done noResult (Some (ErrOther m))) /\ Forall (fun ev => ~ is_update ev) tr.
Proof.
  intros (r & tr1 & [-> _] & Hx) Hd Hl Hf. cbn [app] in *. destruct r as [e|d']; [by destruct Hx as [-> _]|].
  assert (d' = d) as -> by (destruct (enforced_extends _ _ _ _ _ Hx) as [new ->]; by injection Hd).
  cbn [bind call kube] in Hx. rewrite Hl in Hx. unfold csi_handleDeletion in Hx. rewrite Hf in Hx. cbn [bind call kube negb] in Hx.
  destruct Hx as (x & tr2 & [-> Hr] & Hx). destruct (Hr ltac:(reflexivity)) as [m ->]. destruct Hx as [-> ->].
  split; [by exists m|]. cbn [app].
  apply Forall_cons; split; [by intros []|]. apply Forall_cons; split; [by intros []|done].
Qed.

(** ** Evaluations *)
#[local] Existing Instances BackupScheduler.sample_sort CredentialsController.sample_controller_ref
  IamPolicy.sample_json_errors.
#[local] Instance plain_digest : Digest := {| sha256 := id |}.
#[local] Instance hourly : BackupScheduler.Cron :=
  {| BackupScheduler.CronSchedule := (); BackupScheduler.ParseStandard _ := Ok tt;
     BackupScheduler.Next _ t := (t + 3600 * Second)%Z |}.
#[local] Instance any_xml : LifecyclePolicy.LifecycleXml :=
  {| LifecyclePolicy.Canonical := string; LifecyclePolicy.ParseCanonical := Some |}.
#[local] Instance opaque_spec A : SpecJSON A := {| marshal_spec _ := ""; unmarshal_spec _ := None |}.

Definition terminating_driver : SeaweedCSIDriver := csi_terminating (sample_csi "a" "x" "1" 7 "csi" None).
(** In a deletion that nobody refuses, the only calls beyond the role are the deletions by
    label. *)
Lemma calls_permitted_witness :
  let x := csi_pass "a" "x" (csi_state [terminating_driver] []) in
  x.2 = Done noResult None /\
  map (fun ev => permitted manager_role (ev_call ev)) x.1.2 = [true; false; false; true; true; true] /\
  Forall (fun ev => permitted manager_role (ev_call ev) = true \/ deletes_roles (ev_call ev) = true) x.1.2.
Proof.
  intros x. do 2 (split; [by vm_compute|]).
  apply (calls_permitted false true true 0 (fun _ => []) (fun _ => []) (fun _ => [])
           outcome (csi_Reconcile (csi_key "a" "x")) x.1.2 x.2); [constructor|].
  exact (run_tracing sim (csi_Reconcile (csi_key "a" "x")) _ []).
Defined.

(** The refusal as a handler: what the role does not permit answers an error. *)
Definition authorized {S} (rules : list PolicyRule) (h : Handler opE S) : Handler opE S := fun X e s =>
  if permitted rules e then h X e s else
  match e in opE Y return S * Y -> S * Y with
  | OKube e =>
      match e in kubeE Y return S * Y -> S * Y with
      | KDeleteAllOf _ _ => fun _ => (s, Some (ErrOther "forbidden"))
      | _ => fun r => r
      end
  | _ => fun r => r
  end (h X e s).
Lemma driver_deletion_refused :
  let x := run (tracing (authorized manager_role sim)) (csi_Reconcile (csi_key "a" "x"))
             (csi_state [terminating_driver] [], []) in
  x.2 = Done noResult (Some (ErrOther "forbidden")) /\
  map Finalizers (map csi_Meta (sim_objs x.1.1 KSeaweedCSIDriver)) = [[seaweedCSIDriverFinalizer]].
Proof. by vm_compute. Qed.
